(* ===== verification/_CoqProject ===== *)
-Q . S2P
Prelude.v
GoStrings.v
Sha256.v
Redaction.v
KeyGen.v
Unstructured.v
Subscription.v
RateLimitId.v
Selector.v
SelectorFacts.v
KeyTable.v
KeyStore.v
KeyStoreFacts.v
KeyStoreSpecs.v
KeyService.v
KeyServiceFacts.v
KeyDebounce.v
AuthPolicy.v
Guardrail.v
GuardrailFacts.v
GuardrailResolver.v
GuardrailResolverFacts.v
RateTier.v
RateTierFacts.v
Identity.v
IdentityFacts.v
AdminAuth.v
LokiProxy.v
AdminResolver.v
AdminResolverFacts.v
SelectHandler.v
SelectHandlerFacts.v
ModelCatalog.v
KeyHandler.v
KeyHandlerFacts.v
KeyHandlerSpecs.v
Kube.v
JsonMatch.v
GatewaySpec.v
GatewayMetadata.v
DiscoveryCache.v
DiscoveryFacts.v
DiscoveryHandler.v
SubscriptionHeaders.v
AITenant.v
TenantLookup.v
GuardrailCatalog.v
ModelRoutes.v
Cluster.v
LookupFacts.v
SubscriptionPolicy.v
SubscriptionRefinement.v
InferenceObjectives.v
SubscriptionController.v
SubscriptionSafety.v
SubscriptionFacts.v
ModelBackends.v
ModelController.v
ModelSafety.v
AuthPolicyController.v
AuthPolicyReconcile.v
GatewaySpecFacts.v
AuthPolicyReads.v
AuthPolicySafety.v
SubscriptionHeaderFacts.v
ModelProtocol.v
ModelPhase.v
AuthPolicyConvergence.v
TenantNames.v
GatewayLabels.v
GatewayLabelFacts.v
TenantClient.v
GatewayClaims.v
GatewayClaimFacts.v
TenantRevocation.v
TenantDeletion.v
TenantDeletionFacts.v
TenantReconcile.v
TenantLiveness.v
AdmissionWebhooks.v
