(* ===== verification/Prelude.v ===== *)
(** * Models as a Service: a verification library

    A model in Rocq of the Go code of Models as a Service: [src/maas-api], the
    HTTP service that mints and checks API keys and selects subscriptions;
    [src/maas-controller], the Kubernetes controllers that turn subscriptions
    and tenants into rate limits, labels and claims; [src/maas-discovery], the
    service that tells callers which tenants they may use; [src/maas-common],
    the guardrail library of the first two.  Definitions keep the names of the source and
    are executable; theorems state what the code guarantees, and a few state
    where it does less than it says.

    ** How the parts interact

    A request carries an identity ([Identity]).  With it a caller mints, lists
    and revokes API keys ([KeyHandler], over [KeyService], over [KeyStore],
    over the SQL table of [KeyTable]); [AdminResolver] says which subscriptions
    the caller administers, [AdminAuth] whether it may administer the platform.
    A key is bound to a subscription chosen by [Selector] among those
    [Subscription] parses, for models [AuthPolicy] grants; guardrails come from
    [Guardrail].  [RateLimitId] and [RateTier] are the controller's side: the
    same subscription becomes limits in a gateway policy, which the subscription
    controller ([SubscriptionPolicy], [InferenceObjectives],
    [SubscriptionController]) writes for each model it finds a route for
    ([TenantLookup], [ModelRoutes]).  The controller of model references
    ([ModelBackends], [ModelController]) records that route, the Gateway and
    the endpoint of each model, and calls it Ready when a subscription and an
    access policy name it and its backend is healthy.  The controller of access
    policies ([AuthPolicyController], [AuthPolicyReconcile]) writes the
    AuthPolicy of each tenant's Gateway: its rules and expressions are
    [GatewaySpec]'s, the headers of subscriptions [SubscriptionHeaders]', the
    guardrail checks a request may select [GuardrailCatalog]'s; at run time the
    Gateway calls back [SelectHandler], which answers with the selection and,
    through [GuardrailResolver], with the checks of the model.  [ModelCatalog] lists a
    caller the models of its subscriptions.  The AITenant
    controller ([AITenant] to [TenantReconcile]) gives each tenant a namespace
    and a Gateway of its own and, when the tenant is deleted, has its keys
    revoked through the handlers first; the webhooks of [AdmissionWebhooks]
    decide which of these objects may be stored at all.  The discovery service
    ([DiscoveryCache], [DiscoveryLoops], [DiscoveryHandler]) watches tenants,
    Gateways and access policies and shows a caller the tenants whose models it
    may use, with the endpoint [GatewayMetadata] reads off the tenant's Gateway.  [LokiProxy] serves the logs of an
    organization, [Redaction] decides what the logs may hold.

    ** Files and sources

    A file is named after its first Module; Modules of theorems and concrete
    worlds often follow the definitions they are about in the same file (the
    Demo modules, [SelectionSafety] in SelectorFacts.v, [DiscoveryLoops] in
    DiscoveryCache.v, [DiscoveryIndex] and [DiscoveryConvergence] in
    DiscoveryFacts.v, [DiscoveryVisibility] in DiscoveryHandler.v).

    - [Prelude]: results of Go functions, machine integers, orders and sorting,
      list lemmas, what the Go runtime leaves open ([GoRuntime]).  [GoStrings]:
      the parts of [strings] and [strconv] the code calls.  [Sha256]:
      [crypto/sha256], [encoding/hex].  [Unstructured]: decoded objects.
    - [KeyGen]: [maas-api/internal/api_keys/keygen.go].  [KeyTable],
      [KeyStore]: [store_postgres.go] with its schema and both connection
      pools, as functions on a [World]; [KeyStoreFacts], [KeyStoreSpecs],
      [KeyStoreDemo] their theorems and concrete worlds.  [KeyService]:
      [service.go] against the class of stores [KeyStore] implements, and
      [KeyServiceFacts]; [KeyDebounce]: its last-used debounce as steps of
      concurrent goroutines.  [KeyHandler]: [handler.go], and
      [KeyHandlerFacts], [KeyHandlerSpecs].
    - [Subscription], [Selector]: [subscription/types.go], [selector.go];
      [SelectorFacts], [SelectionSafety].  [SelectHandler]: [handler.go];
      [SelectHandlerFacts].  [GuardrailResolver]: [guardrail.go], [gvr.go];
      [GuardrailResolverFacts].  [AdminResolver]:
      [admin_resolver.go]; [AdminResolverFacts].  [ModelCatalog]:
      [models/maasmodelref.go], [handlers/models.go] and the filter of
      [models/discovery.go]; [ModelCatalogFacts].  [RateLimitId]:
      [ratelimit_id.go] and [subscription_ratelimit_id.go] of the controller.
    - [AuthPolicy]: [authpolicy/checker.go].  [Identity]: [token/identity.go],
      [token/handler.go]; [IdentityFacts].  [AdminAuth]: [auth/*.go].
      [LokiProxy]: [lokiproxy/*.go].  [Redaction]: [logger/redaction.go].
    - [Guardrail]: [maas-common/pkg/guardrail/merge.go], [compose.go];
      [GuardrailFacts].  [RateTier]:
      [maas-controller/pkg/controller/maas/ratetier.go] and the validation and
      phases of [maassubscription_controller.go]; [RateTierFacts].
    - [TenantLookup]: [helpers.go], [tenantreconcile/platform_context.go].
      [ModelRoutes]: [providers.go] and the route resolvers.
      [SubscriptionPolicy], [SubscriptionController]:
      [maassubscription_controller.go]; [InferenceObjectives]:
      [maassubscription_inferenceobjective.go].  [LookupFacts],
      [SubscriptionRefinement], [SubscriptionSafety], [SubscriptionFacts],
      [SubscriptionDemo]: their theorems on the servers of [Cluster] and on
      every server.
    - [ModelBackends]: [providers.go], [providers_llmisvc.go],
      [providers_external.go] and the tenant resolution of
      [maasmodelref_controller.go]; [ModelController]: the rest of it and
      [model_identity_conflict.go].  [ModelSafety], [ModelProtocol] (every
      server), [ModelPhase] (one that answers), [ModelDemo]: their theorems.
    - [GatewaySpec]: [buildGatewayAuthPolicySpec] of
      [maasauthpolicy_controller.go] with its expressions,
      [maasauthpolicy_identity.go] and [pkg/authpolicy/oidc.go]; [JsonMatch]:
      its comparison of specifications; [SubscriptionHeaders]: both files
      [subscription_headers.go], of the API and of the controller;
      [GuardrailCatalog]: [guardrail_headers.go]; [AuthPolicyController],
      [AuthPolicyReconcile]: the rest of [maasauthpolicy_controller.go],
      [conflict_detection.go] and [guardrail_watch.go].  [GatewaySpecFacts]
      (what a generated specification says), [SubscriptionHeaderFacts],
      [AuthPolicyReads] and [AuthPolicySafety] (every server),
      [AuthPolicyConvergence] (one that answers), [AuthPolicyDemo]: their
      theorems.
    - [Kube]: objects of the cluster and programs as finite trees of API server
      calls.  [AITenant], [GatewayLabels], [TenantClient], [GatewayClaims],
      [TenantRevocation], [TenantDeletion], [TenantReconcile]:
      [aitenant_controller.go] and [aitenant_revocation.go].  [TenantNames],
      [GatewayLabelFacts], [GatewayClaimFacts], [TenantDeletionFacts],
      [TenantLiveness]: their theorems; [TenantDemo]: a concrete cluster.

    - [AdmissionWebhooks]: [maas-controller/pkg/webhook]; [AdmissionFacts].
    - [GatewayMetadata]: [maas-discovery/internal/gateway/metadata.go].
      [DiscoveryCache]: the cache and what it computes,
      [internal/cache/informer.go]; [DiscoveryLoops]: the goroutines of the same
      file as steps; [DiscoveryHandler]: [internal/auth/token_review.go] and
      [internal/handler/handler.go].  [DiscoveryFacts] (entitlements),
      [DiscoveryIndex] (the subject index), [DiscoveryConvergence] (the loops),
      [DiscoveryVisibility] (who is shown what), [DiscoveryDemo].

    ** How state is modelled

    A pure Go function is a Rocq function; an error is a constructor of the
    component's error type in [Res].  The key store is a function from a
    [World] (the primary and the replica table, the replica's health flag) and
    an environment (clock, failures, fresh identifiers) to a [World] and a
    result.  Concurrent parts are step relations or fixed schedules of steps:
    the debounce, the administrator cache, tenants that claim a Gateway, the
    rebuild loops and event handlers of the discovery cache.
    Controllers are programs ([Kube.Prog]): theorems about them quantify over
    the replies of the API server, either all replies ([Kube.safe], with a
    monitor, for models the history of calls and replies) or those of a server that fails nothing ([TenantLiveness],
    [Cluster.always]).  What
    Go leaves unspecified, the order of [range] over a map and of equal
    elements in [sort.Slice], is the class [GoRuntime], and theorems hold for
    every instance.

    Libraries the source only calls are interfaces: a class with the
    documented behaviour as laws and an instance that has them (conditions and
    finalizers in [Kube], [encoding/json] of the ownership annotation in
    [GatewayLabels]), or an argument (the JSON tokenizer in [Identity], the
    LogQL parser in [LokiProxy], the Kubernetes review in [AdminAuth]).

    ** What the theorems show

    - API keys: a key that is minted validates until it expires, with the
      identity it was minted for; only live keys validate; a revoked key never
      does again, once a replica has caught up; one tenant's store never touches another's rows; the tables
      keep their invariants; a key changes one way; only its owner, an
      administrator of its subscription or of the platform reads, lists or
      revokes it; an API key that comes first in its header is no credential
      for managing keys, later values are not looked at; generated
      keys parse back and hash to what is stored; writes of the last use are
      an interval apart, except after a release or a sweep, which can evict a
      slot that is fresh.
    - Selection: a successful selection is live, authorized and healthy, and
      automatic selection is decided exactly by the eligible subscriptions.
      The model listing shows a caller ready models of its live subscriptions
      that the checker authorizes, each once with exactly the subscriptions
      that offer it, in whatever order the goroutines answer; without a
      selector it shows nothing.
    - Policies: exact characterisations of granted models, merged guardrails,
      grouped rate limits, accepted rates and reported phases; independence of
      listing order; agreement of the API's and the controller's rate-limit
      identifiers.
    - Subscriptions on the cluster: whatever the API server replies, policies
      are written only under a persisted identity, and a deleted subscription
      is released only when its keys are revoked, retained on purpose, or
      without a tenant configuration; where nothing fails, the policy
      of a model refines a specification in terms of the live subscriptions
      whose tenant has its Gateway on the route; the scan for duplicate
      priorities names exactly the duplicates; an
      interrupted first reconciliation changes the identity of a subscription.
    - Models: a status that says Ready is justified by replies of the same
      reconciliation, whatever the API server answers; where it answers, the
      phase is exactly the one governance and backend determine; deletion lets
      go of a model only after the policies listed for it; models that share an
      alias are told so, both of them, and a change wakes up all it concerns.
    - Access policies: whatever the API server answers, only a specification
      generated for the tenant's own Gateway reaches that Gateway's policy, the
      policies of an earlier version go only on evidence about that Gateway and
      that tenant's maas-api ([settled]), and phase Active is reported only on
      the same evidence, or for a named tenant on the default Gateway; a deleted
      policy is released after the policies of its models in the namespaces of
      the references are gone; where nothing fails one reconciliation brings the
      Gateway's policy to the desired specification and the next writes
      nothing.  The comparison that decides this is exact, and what it leaves
      alone has the desired issuer, client and guardrail checks; cached
      decisions have no longer a time to live than cached metadata; the
      policies written inject exactly the headers a selection may return.  The synchronization at the
      start of the controller forgets the guardrails, and conflicts after the
      first go unannounced.
    - Identity and administration: accepted envelopes are well formed and their
      groups confined to their organization, the shape pass terminates within
      its fuel; cached administrator answers are genuine and fresh; the
      middlewares fail closed; inventories hold what the caller administers.
    - Logs: queries reach the log store confined to the organization; redacted
      headers hide their values.
    - Tenants: the deletion protocol holds for every reply of the API server
      (its finalizer goes after the revocation Job completed or was skipped);
      deletion completes in five reconciliations where nothing fails; a
      Gateway is claimed by one tenant under every interleaving; Gateways that
      share a namespace keep their labels, and their labels leave with them.

    - Admission: the AITenant webhook accepts exactly the writes that give a
      Gateway to one tenant, which keeps Gateways exclusive through any series
      of checked writes, and freezes two tenants that do share one; namespaces,
      tenant references and organizations are checked exactly.
    - Discovery: left alone the service comes to rest from every reachable
      state, under every interleaving of its loops and handlers, and then shows
      each caller exactly the tenants the policies of the cluster entitle it to,
      which covers whomever the API authorizes, but for policies being deleted,
      under which the API still authorizes; its subject index is exact at
      every moment; it answers nobody it has not authenticated; a published
      endpoint is that of a ready listener or an admitted Route.

    ** Fuel and bounds

    Recursion is structural except in the JSON shape pass, whose fuel is the
    length of the token stream plus one (enough: [IdentityFacts]), and in
    [KeyGen]'s base-62 loop, which divides a number of 128 or 256 bits by 62
    within its bit length.  The discovery loops need no fuel: their steps
    descend lexicographically ([DiscoveryConvergence.internal_descends]).  Times are nanoseconds in [Z], wrapped to 64 bits
    where the code multiplies durations; counters that can overflow wrap the
    same way.

    ** Not modelled

    Wiring, flags, HTTP servers, metrics, tracing, TLS, the informers
    themselves and log output: they are I/O around the code modelled.  The platform pipeline
    ([maas-controller/pkg/platform/tenantreconcile]) renders and applies
    manifests; of it only names and labels are used here.  The reconciler of
    external models, the tenant configuration controller and the self
    deployment build and apply manifests: they are not modelled.  Of the discovery service the
    timers that bound a burst of events are left to chance (a burst may end at
    any moment), and the check for the Route API is the parameter
    [routeInformer].  Of the controller of access policies,
    [SetupWithManager], the queues it feeds and the resolver of guardrail
    attachments ([ai-gateway-controller], an argument) are left out.  Of the subscription controller, the filters of watched
    events, [SetupWithManager] and the probe for the InferenceObjective CRD are
    left out; names of generated objectives come from [kmeta.ChildName], an
    argument.  Of the controller of models, [SetupWithManager] and the
    detection of CRDs that appear late are left out.  Of the tenant controller, the mappings from watched objects
    to requests are left out, and of the revocation Job the parts of the pod
    that never vary. *)

From Stdlib Require Export ZArith Lia Sorting.Sorted.
From stdpp Require Export base tactics list gmap sets strings fin_maps sorting.

Declare Scope maas_scope.
Delimit Scope maas_scope with maas.
Open Scope maas_scope.

(** ** Go results

    A Go function of type [(T, error)] returns [Ok v] or [Err e]; the error
    values the source distinguishes are constructors of the component's own
    error type. *)
Inductive Res (E A : Type) : Type :=
| Ok (a : A)
| Err (e : E).
Arguments Ok {E A} a.
Arguments Err {E A} e.

Definition res_bind {E A B} (m : Res E A) (k : A → Res E B) : Res E B :=
  match m with Ok a => k a | Err e => Err e end.
Definition res_map {E A B} (f : A → B) (m : Res E A) : Res E B :=
  match m with Ok a => Ok (f a) | Err e => Err e end.
Definition map_err {E F A} (f : E → F) (m : Res E A) : Res F A :=
  match m with Ok a => Ok a | Err e => Err (f e) end.
Definition is_ok {E A} (m : Res E A) : bool :=
  match m with Ok _ => true | Err _ => false end.

Notation "x <- m ;; k" := (res_bind m (fun x => k))
  (at level 100, m at next level, right associativity) : maas_scope.
Notation "'let*' p := m 'in' k" := (res_bind m (fun x => let 'p := x in k))
  (at level 100, p pattern, m at next level, right associativity) : maas_scope.
(** [reject e when b ;; k] is the Go early return [if b { return e }; k]. *)
Notation "'reject' e 'when' b ;; k" := (if b then Err e else k)
  (at level 100, b at next level, right associativity) : maas_scope.

#[export] Instance res_eq_dec {E A} `{EqDecision E, EqDecision A} :
  EqDecision (Res E A).
Proof. solve_decision. Defined.

Lemma res_bind_ok {E A B} (m : Res E A) (k : A → Res E B) b :
  res_bind m k = Ok b ↔ ∃ a, m = Ok a ∧ k a = Ok b.
Proof. destruct m; naive_solver. Qed.

Lemma map_err_ok {E F A} (f : E → F) (m : Res E A) a :
  map_err f m = Ok a ↔ m = Ok a.
Proof. destruct m; naive_solver. Qed.

(** A loop with early return. *)
Fixpoint fold_res {E A B} (f : B → A → Res E B) (b : B) (l : list A) : Res E B :=
  match l with
  | [] => Ok b
  | x :: r => res_bind (f b x) (fun b' => fold_res f b' r)
  end.

Lemma fold_res_app {E A B} (f : B → A → Res E B) b l1 l2 :
  fold_res f b (l1 ++ l2)%list = res_bind (fold_res f b l1) (fun b' => fold_res f b' l2).
Proof.
  revert b. induction l1 as [|x l1 IH]; intros b; cbn; [done|]. destruct (f b x); cbn; [apply IH|done].
Qed.

(** Nested loops are one loop over the flattened list. *)
Lemma fold_res_concat {E A B C} (f : B → C → Res E B) (g : A → list C) b l :
  fold_res (fun b x => fold_res f b (g x)) b l = fold_res f b (concat (map g l)).
Proof.
  revert b. induction l as [|x l IH]; intros b; cbn; [done|]. rewrite fold_res_app.
  destruct (fold_res f b (g x)); cbn; [apply IH|done].
Qed.

(** ** Tactics shared by the development *)

(** Split every conditional and match of the goal, closing what computes. *)
Ltac split_cases :=
  repeat (case_match; simplify_eq/=; try done).

(** Case analysis on a boolean hypothesis [H : b = true]. *)
Ltac bool_hyps :=
  repeat match goal with
  | H : _ && _ = true |- _ => apply andb_true_iff in H as [? ?]
  | H : _ || _ = false |- _ => apply orb_false_iff in H as [? ?]
  | H : negb _ = true |- _ => apply negb_true_iff in H
  | H : negb _ = false |- _ => apply negb_false_iff in H
  | H : bool_decide _ = true |- _ => apply bool_decide_eq_true in H
  | H : bool_decide _ = false |- _ => apply bool_decide_eq_false in H
  | H : Z.leb _ _ = true |- _ => apply Z.leb_le in H
  | H : Z.leb _ _ = false |- _ => apply Z.leb_gt in H
  | H : Z.ltb _ _ = true |- _ => apply Z.ltb_lt in H
  | H : Z.ltb _ _ = false |- _ => apply Z.ltb_ge in H
  | H : Z.eqb _ _ = true |- _ => apply Z.eqb_eq in H
  | H : Z.eqb _ _ = false |- _ => apply Z.eqb_neq in H
  end.

(** ** Machine integers *)

Definition int64_min : Z := - 2 ^ 63.
Definition int64_max : Z := 2 ^ 63 - 1.
Definition int32_max : Z := 2 ^ 31 - 1.
(** Two's-complement wrap-around of a Go [int64] (and 64-bit [int]). *)
Definition wrap64 (z : Z) : Z := (z + 2 ^ 63) mod 2 ^ 64 - 2 ^ 63.

Lemma wrap64_range z : (int64_min ≤ wrap64 z ≤ int64_max)%Z.
Proof.
  unfold wrap64, int64_min, int64_max.
  pose proof (Z.mod_pos_bound (z + 2 ^ 63) (2 ^ 64)). lia.
Qed.

Lemma wrap64_id z : (int64_min ≤ z ≤ int64_max)%Z → wrap64 z = z.
Proof.
  unfold wrap64, int64_min, int64_max. intros ?.
  rewrite Z.mod_small; lia.
Qed.

Lemma wrap64_le z : (0 ≤ z)%Z → (wrap64 z ≤ z)%Z.
Proof.
  unfold wrap64. intros Hz. assert (0 ≤ z + 2 ^ 63)%Z as Hp by lia.
  pose proof (Z.mod_le (z + 2 ^ 63) (2 ^ 64) Hp ltac:(done)). lia.
Qed.

(** A non-negative number that wraps below zero is out of range. *)
Lemma wrap64_neg z : (0 ≤ z)%Z → (wrap64 z < 0)%Z → (int64_max < z)%Z.
Proof.
  intros Hz Hneg. destruct (Z.le_gt_cases z int64_max) as [Hle|]; [|lia].
  rewrite wrap64_id in Hneg; [lia|]. unfold int64_min. lia.
Qed.

(** ** Orders given by Go comparison functions *)

(** What [sort.Slice] requires of its [less] argument. *)
Class StrictWeak {A} (less : A → A → bool) : Prop := {
  sw_irrefl a : less a a = false;
  sw_trans a b c : less a b = true → less b c = true → less a c = true;
  sw_cotrans a b c : less a c = true → less a b = true ∨ less b c = true;
}.

(** A comparison that never ties two distinct values. *)
Class StrictTotal {A} (less : A → A → bool) : Prop := {
  st_irrefl a : less a a = false;
  st_trans a b c : less a b = true → less b c = true → less a c = true;
  st_tri a b : less a b = false → less b a = false → a = b;
}.

#[export] Instance strict_total_weak {A} (less : A → A → bool) :
  StrictTotal less → StrictWeak less.
Proof.
  intros [irr tr tri]. split; [done..|]. intros a b c Hac.
  destruct (less a b) eqn:Hab; [by left|].
  destruct (less b a) eqn:Hba; [right; eauto|].
  rewrite (tri a b) in Hac by done. by right.
Qed.

(** [not_after less a b]: [a] may stand before [b] in a slice sorted by [less]. *)
Definition not_after {A} (less : A → A → bool) (a b : A) : Prop := less b a = false.

Lemma not_after_trans {A} (less : A → A → bool) `{!StrictWeak less} a b c :
  not_after less a b → not_after less b c → not_after less a c.
Proof.
  unfold not_after. intros Hba Hcb. destruct (less c a) eqn:Hca; [|done].
  destruct (sw_cotrans c b a Hca); congruence.
Qed.

Lemma not_after_of_less {A} (less : A → A → bool) `{!StrictWeak less} a b :
  less a b = true → not_after less a b.
Proof.
  unfold not_after. intros Hab. destruct (less b a) eqn:Hba; [|done].
  pose proof (sw_trans a b a Hab Hba) as H. by rewrite sw_irrefl in H.
Qed.

(** [if a.f != b.f { return a.f < b.f }; next], the shape of every comparison
    function of the source. *)
Definition by_key {A K} `{EqDecision K} (f : A → K) (less : K → K → bool)
    (next : A → A → bool) (a b : A) : bool :=
  if decide (f a = f b) then next a b else less (f a) (f b).

#[export] Instance by_key_weak {A K} `{EqDecision K} (f : A → K) less next :
  StrictTotal less → StrictWeak next → StrictWeak (by_key f less next).
Proof.
  intros HT HW. unfold by_key. split.
  - intros a. destruct (decide (f a = f a)); [apply sw_irrefl|done].
  - intros a b c Hab Hbc.
    destruct (decide (f a = f b)) as [E1|], (decide (f b = f c)) as [E2|];
      destruct (decide (f a = f c)) as [E3|]; try congruence; eauto using sw_trans, st_trans.
    rewrite E3 in Hab. pose proof (st_trans _ _ _ Hab Hbc) as Hx.
    by rewrite st_irrefl in Hx.
  - intros a b c Hac.
    destruct (decide (f a = f b)) as [E1|], (decide (f b = f c)) as [E2|];
      destruct (decide (f a = f c)) as [E3|]; try congruence.
    + by apply sw_cotrans.
    + right. congruence.
    + left. congruence.
    + rewrite E3. destruct (less (f c) (f b)) eqn:H1; [by left|].
      destruct (less (f b) (f c)) eqn:H2; [by right|].
      by pose proof (st_tri _ _ H1 H2).
    + by apply (sw_cotrans (less:=less)).
Qed.

(** The final comparison of a chain, on a totally ordered key. *)
Definition on_key {A K} (f : A → K) (less : K → K → bool) (a b : A) : bool :=
  less (f a) (f b).
#[export] Instance on_key_weak {A K} (f : A → K) (less : K → K → bool) :
  StrictWeak less → StrictWeak (on_key f less).
Proof.
  intros [irr tr ct]. unfold on_key. split; eauto.
Qed.

Definition never {A} (_ _ : A) : bool := false.
#[export] Instance never_weak {A} : StrictWeak (@never A).
Proof. split; naive_solver. Qed.

Lemma strict_weak_ext {A} (less less' : A → A → bool) :
  (∀ a b, less a b = less' a b) → StrictWeak less' → StrictWeak less.
Proof.
  intros E [irr tr ct]. split; intros *; rewrite ?E; eauto.
Qed.

#[export] Instance Z_ltb_total : StrictTotal Z.ltb.
Proof. split; intros *; rewrite ?Z.ltb_lt, ?Z.ltb_ge; lia. Qed.
#[export] Instance Z_gtb_total : StrictTotal (fun a b => Z.ltb b a).
Proof. split; intros *; rewrite ?Z.ltb_lt, ?Z.ltb_ge; lia. Qed.

(** ** Sorting

    [isort] is [sort.SliceStable]: the stable sort, whose result is unique. *)
Fixpoint insert_by {A} (less : A → A → bool) (x : A) (l : list A) : list A :=
  match l with
  | [] => [x]
  | y :: ys => if less y x then y :: insert_by less x ys else x :: y :: ys
  end.
Definition isort {A} (less : A → A → bool) (l : list A) : list A :=
  foldr (insert_by less) [] l.

Lemma insert_by_perm {A} (less : A → A → bool) x l : insert_by less x l ≡ₚ x :: l.
Proof.
  induction l as [|y l IH]; simpl; [done|].
  destruct (less y x); [|done]. rewrite IH. apply Permutation_swap.
Qed.

Lemma isort_perm {A} (less : A → A → bool) l : isort less l ≡ₚ l.
Proof. induction l as [|x l IH]; simpl; [done|]. by rewrite insert_by_perm, IH. Qed.

Lemma isort_sorted {A} (less : A → A → bool) `{!StrictWeak less} l :
  StronglySorted (not_after less) (isort less l).
Proof.
  induction l as [|x l IH]; simpl; [constructor|].
  induction IH as [|y ys Hys IH' Hall]; simpl; [repeat constructor|].
  destruct (less y x) eqn:Hyx.
  - constructor; [done|]. rewrite insert_by_perm. constructor; [|done].
    by apply not_after_of_less.
  - constructor; [by constructor|]. constructor; [done|].
    eapply Forall_impl; [exact Hall|]. intros z. by apply not_after_trans.
Qed.

(** Two sorted arrangements of the same elements agree as soon as the
    comparison never ties two of them. *)
Lemma sorted_unique {A} (less : A → A → bool) (l1 l2 : list A) :
  (∀ a b, a ∈ l1 → b ∈ l1 → less a b = false → less b a = false → a = b) →
  StronglySorted (not_after less) l1 → StronglySorted (not_after less) l2 →
  l1 ≡ₚ l2 → l1 = l2.
Proof.
  intros Hties H1 H2 HP.
  apply (StronglySorted_unique_strong (not_after less)); [|done..].
  unfold not_after. intros a b Ha Hb ??. apply Hties; [done| |done..].
  by rewrite HP.
Qed.

(** A sorted list without duplicates is strictly sorted by a total comparison. *)
Lemma sorted_strict {A K} (f : A → K) (less : K → K → bool) `{!StrictTotal less, !Inj (=) (=) f} l :
  NoDup l → StronglySorted (not_after (on_key f less)) l →
  StronglySorted (fun a b => less (f a) (f b) = true) l.
Proof.
  intros Hnd HS. induction HS as [|x l HS IH Hall]; [constructor|].
  apply NoDup_cons in Hnd as [Hx Hnd]. constructor; [by apply IH|].
  rewrite Forall_forall in Hall |- *. intros y Hy. specialize (Hall y Hy).
  unfold not_after, on_key in Hall. destruct (less (f x) (f y)) eqn:E; [done|].
  pose proof (st_tri _ _ E Hall) as Heq. apply (inj f) in Heq as ->. done.
Qed.

(** A strictly sorted list has no duplicates and is fixed by its elements. *)
Lemma strict_sorted_nodup {A} (less : A → A → bool) `{!StrictWeak less} l :
  StronglySorted (fun a b => less a b = true) l → NoDup l.
Proof.
  induction 1 as [|x l HS IH Hall]; [constructor|]. constructor; [|done].
  intros Hx. rewrite Forall_forall in Hall. specialize (Hall x Hx). by rewrite sw_irrefl in Hall.
Qed.

Lemma strict_sorted_unique {A} (less : A → A → bool) `{!StrictWeak less} l1 l2 :
  StronglySorted (fun a b => less a b = true) l1 → StronglySorted (fun a b => less a b = true) l2 →
  (∀ x, x ∈ l1 ↔ x ∈ l2) → l1 = l2.
Proof.
  intros H1 H2 Hel. apply (StronglySorted_unique_strong (fun a b => less a b = true)); [|done..|].
  - intros a b _ _ Hab Hba. pose proof (sw_trans _ _ _ Hab Hba) as Hx. by rewrite sw_irrefl in Hx.
  - apply NoDup_Permutation; [by eapply strict_sorted_nodup..|done].
Qed.

(** ** Lists searched by a boolean test *)

Create HintDb maas.

Lemma exists_elem_cons {A} (P : A → Prop) a l :
  (∃ x, x ∈ a :: l ∧ P x) ↔ P a ∨ ∃ x, x ∈ l ∧ P x.
Proof.
  split.
  - intros (x & [->|Hx]%elem_of_cons & HP); [by left|right; by exists x].
  - intros [HP|(x & Hx & HP)]; [exists a|exists x]; rewrite elem_of_cons; auto.
Qed.
Lemma exists_elem_nil {A} (P : A → Prop) : (∃ x, x ∈ ([] : list A) ∧ P x) ↔ False.
Proof. split; [|done]. by intros (x & Hx%not_elem_of_nil & _). Qed.

Lemma exists_elem_snoc {A} (P : A → Prop) l a :
  (∃ x, x ∈ (l ++ [a])%list ∧ P x) ↔ (∃ x, x ∈ l ∧ P x) ∨ P a.
Proof.
  split.
  - intros (x & [Hx| ->%list_elem_of_singleton]%elem_of_app & HP); [left; by exists x|by right].
  - intros [(x & Hx & HP)|HP]; [exists x|exists a]; rewrite elem_of_app, list_elem_of_singleton; auto.
Qed.
Lemma forall_elem_snoc {A} (P : A → Prop) l a :
  (∀ x, x ∈ (l ++ [a])%list → P x) ↔ (∀ x, x ∈ l → P x) ∧ P a.
Proof.
  split.
  - intros H. split; [intros x Hx|]; apply H; rewrite elem_of_app, list_elem_of_singleton; auto.
  - intros [H1 H2] x [Hx| ->%list_elem_of_singleton]%elem_of_app; auto.
Qed.

Lemma pairs_elem_snoc {A} (R : A → A → Prop) l a :
  (∀ x y, x ∈ l → y ∈ l → R x y) → (∀ x, x ∈ l → R x a ∧ R a x) → R a a →
  ∀ x y, x ∈ (l ++ [a])%list → y ∈ (l ++ [a])%list → R x y.
Proof.
  intros Hl Ha Haa x y [Hx| ->%list_elem_of_singleton]%elem_of_app [Hy| ->%list_elem_of_singleton]%elem_of_app;
    [by apply Hl|by apply Ha|by apply Ha|done].
Qed.

Lemma nodup_snoc {A} (l : list A) a : a ∉ l → NoDup l → NoDup (l ++ [a])%list.
Proof. intros Ha Hl. rewrite Permutation_app_comm. by apply NoDup_cons. Qed.

Lemma find_elem {A} (f : A → bool) l x : List.find f l = Some x → x ∈ l ∧ f x = true.
Proof. intros [Hin Hf]%find_some. by rewrite list_elem_of_In. Qed.

Lemma find_absent {A} (f : A → bool) l x : List.find f l = None → x ∈ l → f x = false.
Proof. intros Hn Hin. eapply find_none; [done|]. by rewrite <- list_elem_of_In. Qed.

Lemma find_first {A} (f : A → bool) l :
  (∃ x, x ∈ l ∧ f x = true) → ∃ x, List.find f l = Some x ∧ x ∈ l ∧ f x = true.
Proof.
  intros (x & Hin & Hf). destruct (List.find f l) as [y|] eqn:E.
  - exists y. split; [done|]. by apply find_elem.
  - by rewrite (find_absent f l x E Hin) in Hf.
Qed.

Lemma existsb_elem {A} (f : A → bool) l : existsb f l = true ↔ ∃ x, x ∈ l ∧ f x = true.
Proof.
  rewrite existsb_exists. by setoid_rewrite list_elem_of_In.
Qed.

Lemma isort_elem {A} (less : A → A → bool) l x : x ∈ isort less l ↔ x ∈ l.
Proof. by rewrite isort_perm. Qed.

(** The first element of a sorted slice is beaten by no other. *)
Lemma isort_head {A} (less : A → A → bool) `{!StrictWeak less} l x r y :
  isort less l = x :: r → y ∈ l → less y x = false.
Proof.
  intros E Hy. pose proof (isort_sorted less l) as HS. rewrite E in HS.
  rewrite <- (isort_elem less), E in Hy. inversion HS as [|?? _ Hall]; subst.
  apply elem_of_cons in Hy as [->|Hy]; [apply sw_irrefl|].
  rewrite Forall_forall in Hall. by apply Hall.
Qed.

Lemma filter_singleton_perm {A} (P : A → Prop) `{!∀ x, Decision (P x)} l1 l2 x :
  l1 ≡ₚ l2 → filter P l1 = [x] → filter P l2 = [x].
Proof.
  intros HP E. apply Permutation_length_1_inv. rewrite <- E. by apply filter_Permutation.
Qed.

#[export] Hint Resolve find_elem find_absent : maas.

(** ** What the Go runtime leaves unspecified

    [sort.Slice] is not stable and [range] over a map visits the entries in
    any order.  Definitions that use them are parameterised by a
    [GoRuntime]; a theorem about such a definition holds for every runtime. *)
Class GoRuntime := {
  sort_slice : ∀ {A : Type}, (A → A → bool) → list A → list A;
  sort_slice_perm : ∀ (A : Type) (less : A → A → bool) (l : list A),
    sort_slice less l ≡ₚ l;
  sort_slice_sorted : ∀ (A : Type) (less : A → A → bool) (l : list A),
    StrictWeak less → StronglySorted (not_after less) (sort_slice less l);
  range_map : ∀ {K : Type} `{Countable K} {V : Type}, gmap K V → list (K * V);
  range_map_perm : ∀ (K : Type) `{Countable K} (V : Type) (m : gmap K V),
    range_map m ≡ₚ map_to_list m;
}.

(** A runtime, used where a theorem is evaluated on a concrete input. *)
#[program] Definition reference_runtime : GoRuntime := {|
  sort_slice A less l := isort less l;
  range_map K _ _ V m := map_to_list m;
|}.
Next Obligation. intros. apply isort_perm. Qed.
Next Obligation. intros. by apply isort_sorted. Qed.
Next Obligation. done. Qed.
