(* ===== verification/GoStrings.v ===== *)
(** * GoStrings: the parts of Go's [strings], [bytes] and [strconv] the code calls

    A Go string is a byte sequence; here it is a Stdlib [string], one [ascii]
    per byte.  [TrimSpace] removes exactly the encodings of the code points
    for which [unicode.IsSpace] holds; [ToLower] is given on ASCII letters,
    which decides every comparison the source makes with its result (all of
    them compare against ASCII literals or ASCII header names). *)

From Stdlib Require Export Ascii.
From Stdlib Require String.
From stdpp Require Import pretty.
From S2P Require Import Prelude.

Local Open Scope string_scope.
#[global] Arguments String.append : simpl nomatch.

Definition byte_of (c : ascii) : Z := Z.of_N (N_of_ascii c).
Definition in_range (lo hi : Z) (c : ascii) : bool :=
  (lo <=? byte_of c)%Z && (byte_of c <=? hi)%Z.

(** ** Membership and universal tests over the bytes *)
Fixpoint str_all (p : ascii → bool) (s : string) : bool :=
  match s with EmptyString => true | String c r => p c && str_all p r end.
Fixpoint contains_char (c : ascii) (s : string) : bool :=
  match s with
  | EmptyString => false
  | String d r => Ascii.eqb c d || contains_char c r
  end.
(** [strings.Count(s, sep)] for a one-byte separator. *)
Fixpoint count_char (c : ascii) (s : string) : nat :=
  match s with
  | EmptyString => 0
  | String d r => ((if Ascii.eqb c d then 1 else 0) + count_char c r)%nat
  end.

Lemma str_all_app p a b : str_all p (a +:+ b) = str_all p a && str_all p b.
Proof. induction a as [|c a IH]; simpl; [done|]. rewrite IH. apply andb_assoc. Qed.

Lemma contains_char_app c a b :
  contains_char c (a +:+ b) = contains_char c a || contains_char c b.
Proof. induction a as [|d a IH]; simpl; [done|]. rewrite IH. apply orb_assoc. Qed.

Lemma str_all_not_contains p c s :
  p c = false → str_all p s = true → contains_char c s = false.
Proof.
  intros Hp. induction s as [|d s IH]; simpl; [done|]. intros [Hd Hs]%andb_true_iff.
  rewrite (IH Hs), orb_false_r. destruct (Ascii.eqb_spec c d); [congruence|done].
Qed.

(** ** Concatenation *)
Lemma str_app_assoc (a b c : string) : (a +:+ b) +:+ c = a +:+ (b +:+ c).
Proof. induction a as [|x a IH]; simpl; [done|]. by rewrite IH. Qed.
Lemma str_app_nil_r (a : string) : a +:+ "" = a.
Proof. induction a as [|x a IH]; simpl; [done|]. by rewrite IH. Qed.
Lemma str_app_inj_l (a b c : string) : a +:+ b = a +:+ c → b = c.
Proof. induction a; simpl; [done|]. naive_solver. Qed.
Lemma str_length_app (a b : string) :
  String.length (a +:+ b) = (String.length a + String.length b)%nat.
Proof. induction a; simpl; congruence. Qed.
(** Splitting one string in two places at the same offset. *)
Lemma str_app_inj_len (a b c d : string) :
  String.length a = String.length c → a +:+ b = c +:+ d → a = c ∧ b = d.
Proof.
  revert c. induction a as [|x a IH]; intros [|y c]; simpl; try done.
  intros Hl Heq. simplify_eq. destruct (IH c) as [-> ->]; auto with lia.
Qed.
(** A separator that occurs in neither left part fixes the split. *)
Lemma str_split_unique sep (a b c d : string) :
  contains_char sep a = false → contains_char sep c = false →
  a +:+ String sep b = c +:+ String sep d → a = c ∧ b = d.
Proof.
  revert c. induction a as [|x a IH]; intros [|y c]; simpl; intros Ha Hc Heq; simplify_eq.
  - done.
  - by rewrite Ascii.eqb_refl in Hc.
  - by rewrite Ascii.eqb_refl in Ha.
  - bool_hyps. destruct (IH c) as [-> ->]; done.
Qed.

(** ** [strings.HasPrefix] and slicing *)
Fixpoint has_prefix (p s : string) : bool :=
  match p, s with
  | EmptyString, _ => true
  | String c p', String d s' => Ascii.eqb c d && has_prefix p' s'
  | String _ _, EmptyString => false
  end.
(** [s[n:]]; every use in the source has [n <= len(s)]. *)
Fixpoint str_drop (n : nat) (s : string) : string :=
  match n, s with
  | S n', String _ r => str_drop n' r
  | _, _ => s
  end.
(** [s[:n]]. *)
Fixpoint str_take (n : nat) (s : string) : string :=
  match n, s with
  | S n', String c r => String c (str_take n' r)
  | _, _ => EmptyString
  end.

Lemma has_prefix_spec p s : has_prefix p s = true ↔ ∃ r, s = p +:+ r.
Proof.
  revert s. induction p as [|c p IH]; intros s; simpl.
  - split; [by exists s|done].
  - destruct s as [|d s]; simpl; [naive_solver|].
    rewrite andb_true_iff, IH, Ascii.eqb_eq. naive_solver.
Qed.
Lemma has_prefix_app p s : has_prefix p (p +:+ s) = true.
Proof. apply has_prefix_spec. by exists s. Qed.
Lemma str_drop_app p s : str_drop (String.length p) (p +:+ s) = s.
Proof. induction p; simpl; auto. Qed.
Lemma str_take_length (n : nat) s : (n ≤ String.length s)%nat → String.length (str_take n s) = n.
Proof. revert s. induction n; intros [|c s]; simpl; auto with lia. Qed.
Lemma str_take_app_drop n s : str_take n s +:+ str_drop n s = s.
Proof. revert s. induction n as [|n IH]; intros [|c s]; simpl; auto. by rewrite IH. Qed.
Lemma str_drop_length n s : String.length (str_drop n s) = (String.length s - n)%nat.
Proof. revert s. induction n; intros [|c s]; simpl; auto. Qed.

(** [strings.HasSuffix] and [strings.TrimSuffix]. *)
Definition has_suffix (x s : string) : bool :=
  (String.length x <=? String.length s)%nat && String.eqb (str_drop (String.length s - String.length x) s) x.
Definition trim_suffix (x s : string) : string :=
  if has_suffix x s then str_take (String.length s - String.length x) s else s.

(** ** [strings.Cut] and [strings.SplitN(s, sep, 2)] for a one-byte separator *)
Fixpoint cut (sep : ascii) (s : string) : option (string * string) :=
  match s with
  | EmptyString => None
  | String c r =>
      if Ascii.eqb sep c then Some (EmptyString, r)
      else match cut sep r with
           | Some (a, b) => Some (String c a, b)
           | None => None
           end
  end.

Lemma cut_some sep s a b :
  cut sep s = Some (a, b) ↔ s = a +:+ String sep b ∧ contains_char sep a = false.
Proof.
  revert a b. induction s as [|c s IH]; intros a b; simpl.
  - split; [done|]. intros [H _]. by destruct a.
  - destruct (Ascii.eqb_spec sep c) as [<-|Hne].
    + split.
      * intros [= <- <-]. done.
      * intros [H Ha]. destruct a as [|x a]; simpl in *; simplify_eq; [done|].
        by rewrite Ascii.eqb_refl in Ha.
    + destruct (cut sep s) as [[a' b']|] eqn:Hc.
      * split.
        -- intros [= <- <-]. destruct (IH a' b') as [[-> Ha] _]; [done|].
           simpl. rewrite Ha, orb_false_r. by apply Ascii.eqb_neq in Hne as ->.
        -- intros [H Ha]. destruct a as [|x a]; simpl in *; simplify_eq.
           bool_hyps. naive_solver.
      * split; [done|]. intros [H Ha]. destruct a as [|x a]; simpl in *; simplify_eq.
        bool_hyps. naive_solver.
Qed.

Lemma cut_none sep s : cut sep s = None ↔ contains_char sep s = false.
Proof.
  induction s as [|c s IH]; simpl; [done|].
  destruct (Ascii.eqb_spec sep c) as [<-|Hne]; simpl; [done|].
  rewrite <- IH. destruct (cut sep s) as [[??]|]; done.
Qed.

(** [strings.Contains]. *)
Fixpoint contains_str (needle s : string) : bool :=
  has_prefix needle s || match s with EmptyString => false | String _ r => contains_str needle r end.

(** ** [strings.TrimSpace] *)
Definition space1 (c : ascii) : bool := in_range 9 13 c || (byte_of c =? 32)%Z.
Definition space2 (a b : ascii) : bool :=
  (byte_of a =? 194)%Z && ((byte_of b =? 133)%Z || (byte_of b =? 160)%Z).
Definition space3 (a b c : ascii) : bool :=
  match byte_of a, byte_of b, byte_of c with
  | 225, 154, 128 => true
  | 226, 128, z => (128 <=? z)%Z && (z <=? 138)%Z || (z =? 168)%Z || (z =? 169)%Z || (z =? 175)%Z
  | 226, 129, 159 => true
  | 227, 128, 128 => true
  | _, _, _ => false
  end%Z.

Fixpoint trim_left (s : string) : string :=
  match s with
  | EmptyString => EmptyString
  | String a s1 =>
      if space1 a then trim_left s1 else
      match s1 with
      | EmptyString => s
      | String b s2 =>
          if space2 a b then trim_left s2 else
          match s2 with
          | EmptyString => s
          | String c s3 => if space3 a b c then trim_left s3 else s
          end
      end
  end.

Fixpoint str_rev_onto (s acc : string) : string :=
  match s with EmptyString => acc | String c r => str_rev_onto r (String c acc) end.
Definition str_rev (s : string) : string := str_rev_onto s EmptyString.

(** The same, reading the bytes from the end. *)
Fixpoint trim_left_rev (s : string) : string :=
  match s with
  | EmptyString => EmptyString
  | String a s1 =>
      if space1 a then trim_left_rev s1 else
      match s1 with
      | EmptyString => s
      | String b s2 =>
          if space2 b a then trim_left_rev s2 else
          match s2 with
          | EmptyString => s
          | String c s3 => if space3 c b a then trim_left_rev s3 else s
          end
      end
  end.

Definition trim_space (s : string) : string :=
  str_rev (trim_left_rev (str_rev (trim_left s))).

(** Text without a space at either end, here because it has none at all. *)
Definition graphic (c : ascii) : bool := in_range 33 126 c.

Lemma graphic_bounds c : graphic c = true → (33 ≤ byte_of c ≤ 126)%Z.
Proof. unfold graphic, in_range. intros [?%Z.leb_le ?%Z.leb_le]%andb_true_iff. lia. Qed.

Lemma graphic_not_space c d e :
  graphic c = true →
  space1 c = false ∧ space2 c d = false ∧ space2 d c = false ∧ space3 c d e = false ∧ space3 e d c = false.
Proof.
  intros Hc%graphic_bounds. unfold space1, space2, space3, in_range.
  assert (E : ∀ n, (n < 33 ∨ 126 < n)%Z → (byte_of c =? n)%Z = false) by (intros n ?; apply Z.eqb_neq; lia).
  rewrite !E by lia. rewrite !andb_false_r, orb_false_r. split.
  { apply andb_false_iff. right. apply Z.leb_gt. lia. }
  split; [done|]. split; [done|]. set (z := byte_of c) in *. split.
  - repeat (case_match; try done); lia.
  - repeat (case_match; try done); lia.
Qed.

Lemma trim_left_graphic c s : graphic c = true → trim_left (String c s) = String c s.
Proof.
  intros Hc. cbn [trim_left]. destruct s as [|d [|e s]].
  - by destruct (graphic_not_space c c c Hc) as (-> & _).
  - by destruct (graphic_not_space c d d Hc) as (-> & -> & _).
  - by destruct (graphic_not_space c d e Hc) as (-> & -> & _ & -> & _).
Qed.
Lemma trim_left_rev_graphic c s : graphic c = true → trim_left_rev (String c s) = String c s.
Proof.
  intros Hc. cbn [trim_left_rev]. destruct s as [|d [|e s]].
  - by destruct (graphic_not_space c c c Hc) as (-> & _).
  - by destruct (graphic_not_space c d d Hc) as (-> & _ & -> & _).
  - by destruct (graphic_not_space c d e Hc) as (-> & _ & -> & _ & ->).
Qed.

Lemma str_rev_onto_app s acc : str_rev_onto s acc = str_rev_onto s "" +:+ acc.
Proof.
  revert acc. induction s as [|c s IH]; intros acc; cbn [str_rev_onto]; [done|].
  by rewrite IH, (IH (String c "")), str_app_assoc.
Qed.
Lemma str_rev_cons c s : str_rev (String c s) = str_rev s +:+ String c "".
Proof. apply (str_rev_onto_app s (String c "")). Qed.
Lemma str_rev_app a b : str_rev (a +:+ b) = str_rev b +:+ str_rev a.
Proof.
  induction a as [|c a IH]; cbn [String.append]; [by rewrite str_app_nil_r|].
  by rewrite !str_rev_cons, IH, str_app_assoc.
Qed.
Lemma str_rev_involutive s : str_rev (str_rev s) = s.
Proof. induction s as [|c s IH]; [done|]. by rewrite str_rev_cons, str_rev_app, IH. Qed.
Lemma str_all_rev p s : str_all p (str_rev s) = str_all p s.
Proof.
  induction s as [|c s IH]; [done|]. rewrite str_rev_cons, str_all_app, IH. cbn [str_all].
  by rewrite andb_true_r, andb_comm.
Qed.

Lemma trim_space_graphic s : str_all graphic s = true → trim_space s = s.
Proof.
  intros Hs. unfold trim_space. assert (Ht : trim_left s = s).
  { destruct s as [|c s]; [done|]. cbn [str_all] in Hs. apply andb_true_iff in Hs as [Hc _]. by apply trim_left_graphic. }
  rewrite Ht. assert (Hr : trim_left_rev (str_rev s) = str_rev s).
  { rewrite <- (str_all_rev graphic) in Hs. destruct (str_rev s) as [|c r]; [done|]. cbn [str_all] in Hs.
    apply andb_true_iff in Hs as [Hc _]. by apply trim_left_rev_graphic. }
  by rewrite Hr, str_rev_involutive.
Qed.

(** ** [strings.ToLower] on ASCII letters *)
Definition lower_char (c : ascii) : ascii :=
  if in_range 65 90 c then ascii_of_N (N_of_ascii c + 32) else c.
Fixpoint to_lower (s : string) : string :=
  match s with EmptyString => EmptyString | String c r => String (lower_char c) (to_lower r) end.

Lemma to_lower_idem s : to_lower (to_lower s) = to_lower s.
Proof.
  induction s as [|c s IH]; [done|]. cbn. rewrite IH. f_equal. unfold lower_char, in_range, byte_of.
  destruct c as [[] [] [] [] [] [] [] []]; reflexivity.
Qed.

(** ** [strings.Join] *)
Fixpoint join (sep : string) (l : list string) : string :=
  match l with
  | [] => ""
  | [x] => x
  | x :: xs => x +:+ sep +:+ join sep xs
  end.

(** Joining with a separator that no piece contains loses nothing, but for the
    empty list and the list of one empty piece. *)
(** [strings.Split] at one character. *)
Fixpoint split_char (sep : ascii) (s : string) : list string :=
  match s with
  | EmptyString => [""]
  | String c r =>
      if Ascii.eqb c sep then "" :: split_char sep r else
      match split_char sep r with
      | [] => [String c ""]
      | x :: xs => String c x :: xs
      end
  end.

Lemma join_inj sep (ks1 ks2 : list string) :
  (∀ k, k ∈ ks1 → contains_char sep k = false ∧ k ≠ "") →
  (∀ k, k ∈ ks2 → contains_char sep k = false ∧ k ≠ "") →
  join (String sep "") ks1 = join (String sep "") ks2 → ks1 = ks2.
Proof.
  assert (Hne : ∀ (k : string) ks, k ≠ "" → join (String sep "") (k :: ks) ≠ "").
  { intros k [|? ?] Hk; simpl; [done|]. by destruct k. }
  revert ks2. induction ks1 as [|k1 ks1 IH]; intros [|k2 ks2] H1 H2; try done.
  - intros H. symmetry in H. apply Hne in H; [done|]. apply H2. by left.
  - intros H. apply Hne in H; [done|]. apply H1. by left.
  - destruct (H1 k1) as [Hc1 _]; [by left|]. destruct (H2 k2) as [Hc2 _]; [by left|].
    destruct ks1 as [|x ks1], ks2 as [|y ks2].
    + by intros [= ->].
    + simpl. intros ->. rewrite contains_char_app in Hc1. simpl in Hc1.
      rewrite Ascii.eqb_refl in Hc1. by rewrite orb_true_r in Hc1.
    + simpl. intros <-. rewrite contains_char_app in Hc2. simpl in Hc2.
      rewrite Ascii.eqb_refl in Hc2. by rewrite orb_true_r in Hc2.
    + intros [-> H]%(str_split_unique sep k1 _ k2); [|done|done].
      f_equal. apply IH; [| |done]; intros k Hk; [apply H1|apply H2]; by right.
Qed.

(** ** [strconv.FormatInt(z, 10)] *)
Definition format_int (z : Z) : string := pretty z.

Lemma format_int_inj a b : format_int a = format_int b → a = b.
Proof. apply (inj pretty). Qed.

(** ** Bytewise string comparison, Go's [<] on strings *)
Definition str_ltb (a b : string) : bool :=
  match String.compare a b with Lt => true | _ => false end.

Lemma ascii_compare_refl c : Ascii.compare c c = Eq.
Proof. apply N.compare_refl. Qed.
Lemma ascii_compare_eq c d : Ascii.compare c d = Eq → c = d.
Proof.
  unfold Ascii.compare. intros H%N.compare_eq_iff.
  rewrite <- (ascii_N_embedding c), <- (ascii_N_embedding d). congruence.
Qed.

Lemma str_compare_trans a b c :
  String.compare a b = Lt → String.compare b c = Lt → String.compare a c = Lt.
Proof.
  revert b c. induction a as [|x a IH]; intros [|y b] [|z c]; simpl; try done.
  destruct (Ascii.compare x y) eqn:E1; [|intros _|done];
  destruct (Ascii.compare y z) eqn:E2; try done;
  repeat match goal with
  | H : Ascii.compare _ _ = Eq |- _ => apply ascii_compare_eq in H as ->
  end; rewrite ?ascii_compare_refl, ?E1, ?E2; eauto.
  intros _. unfold Ascii.compare in *. rewrite N.compare_lt_iff in E1, E2.
  by rewrite (proj2 (N.compare_lt_iff _ _) (N.lt_trans _ _ _ E1 E2)).
Qed.

#[export] Instance str_ltb_total : StrictTotal str_ltb.
Proof.
  unfold str_ltb. split.
  - intros a. pose proof (String.compare_antisym a a) as E.
    by destruct (String.compare a a).
  - intros a b c. destruct (String.compare a b) eqn:E1; [done| |done].
    destruct (String.compare b c) eqn:E2; [done| |done].
    by rewrite (str_compare_trans a b c).
  - intros a b. rewrite (String.compare_antisym b a).
    destruct (String.compare a b) eqn:E; try done. intros _ _. by apply String.compare_eq_iff.
Qed.

(** [sort.Strings] and [slices.Sort] on strings: the order never ties two
    distinct strings, so the sorted result is unique. *)
Definition sort_strings (l : list string) : list string := isort str_ltb l.

Lemma sort_strings_perm l : sort_strings l ≡ₚ l.
Proof. apply isort_perm. Qed.

Lemma sort_strings_proper l1 l2 : l1 ≡ₚ l2 → sort_strings l1 = sort_strings l2.
Proof.
  intros HP. apply (sorted_unique str_ltb).
  - intros ? ? _ _. apply st_tri.
  - apply isort_sorted, _.
  - apply isort_sorted, _.
  - by rewrite !sort_strings_perm.
Qed.

#[export] Instance sort_strings_Proper : Proper ((≡ₚ) ==> (=)) sort_strings.
Proof. intros ??. apply sort_strings_proper. Qed.

(** A runtime's [sort.Slice] by a string key agrees with [sort_strings] on strings. *)
Lemma sort_slice_strings `{GR : GoRuntime} l : sort_slice str_ltb l = sort_strings l.
Proof.
  apply (sorted_unique str_ltb).
  - intros ? ? _ _. apply st_tri.
  - apply sort_slice_sorted, _.
  - apply isort_sorted, _.
  - by rewrite sort_slice_perm, sort_strings_perm.
Qed.
