(* ===== verification/Sha256.v ===== *)
(** * Sha256: [crypto/sha256] and [encoding/hex], executable

    The standard library functions behind [hashWithSalt] (API keys) and
    [RateLimitID] (rate-limit identities), written out from FIPS 180-4 so that
    every definition built on them evaluates.  Bytes and 32-bit words are
    integers in [[0, 2^8)] and [[0, 2^32)]. *)

From S2P Require Import Prelude GoStrings.
Local Open Scope Z_scope.

Module Sha256.

Definition mask32 : Z := Z.ones 32.
Definition add32 (x y : Z) : Z := Z.land (x + y) mask32.
Definition rotr (n x : Z) : Z :=
  Z.lor (Z.shiftr x n) (Z.land (Z.shiftl x (32 - n)) mask32).
Definition not32 (x : Z) : Z := Z.lxor x mask32.

Definition ch (x y z : Z) : Z := Z.lxor (Z.land x y) (Z.land (not32 x) z).
Definition maj (x y z : Z) : Z :=
  Z.lxor (Z.lxor (Z.land x y) (Z.land x z)) (Z.land y z).
Definition big_sigma0 (x : Z) : Z := Z.lxor (Z.lxor (rotr 2 x) (rotr 13 x)) (rotr 22 x).
Definition big_sigma1 (x : Z) : Z := Z.lxor (Z.lxor (rotr 6 x) (rotr 11 x)) (rotr 25 x).
Definition small_sigma0 (x : Z) : Z := Z.lxor (Z.lxor (rotr 7 x) (rotr 18 x)) (Z.shiftr x 3).
Definition small_sigma1 (x : Z) : Z := Z.lxor (Z.lxor (rotr 17 x) (rotr 19 x)) (Z.shiftr x 10).

(** The constants are the first 32 fractional bits of roots of primes: cube
    roots of the first 64 for the rounds, square roots of the first 8 for the
    initial digest.  They are evaluated when the definition is made. *)
Definition is_prime (n : Z) : bool :=
  forallb (fun d => negb (n mod Z.of_nat d =? 0)) (seq 2 (Z.to_nat n - 2)).
Definition primes : list Z := List.filter is_prime (map Z.of_nat (seq 2 310)).

(** The integer cube root of [n], bit by bit from [2 ^ (k - 1)] down. *)
Fixpoint cube_root (k : nat) (n acc : Z) : Z :=
  match k with
  | O => acc
  | S k' =>
      let c := acc + 2 ^ Z.of_nat k' in
      cube_root k' n (if c * c * c <=? n then c else acc)
  end.

Definition round_constants : list Z :=
  Eval vm_compute in map (fun p => Z.land (cube_root 36 (p * 2 ^ 96) 0) mask32) primes.

Record Digest := mkDigest { da : Z; db : Z; dc : Z; dd : Z; de : Z; df : Z; dg : Z; dh : Z }.

Definition initial_words : list Z :=
  Eval vm_compute in map (fun p => Z.land (Z.sqrt (p * 2 ^ 64)) mask32) (take 8 primes).
Definition initial : Digest :=
  let w i := nth i initial_words 0 in mkDigest (w 0%nat) (w 1%nat) (w 2%nat) (w 3%nat) (w 4%nat) (w 5%nat) (w 6%nat) (w 7%nat).

Definition digest_add (x y : Digest) : Digest :=
  mkDigest (add32 (da x) (da y)) (add32 (db x) (db y)) (add32 (dc x) (dc y))
    (add32 (dd x) (dd y)) (add32 (de x) (de y)) (add32 (df x) (df y))
    (add32 (dg x) (dg y)) (add32 (dh x) (dh y)).

(** One round, with round constant and message word [kw]. *)
Definition round (s : Digest) (kw : Z * Z) : Digest :=
  let t1 := add32 (add32 (add32 (dh s) (big_sigma1 (de s))) (add32 (ch (de s) (df s) (dg s)) kw.1)) kw.2 in
  let t2 := add32 (big_sigma0 (da s)) (maj (da s) (db s) (dc s)) in
  mkDigest (add32 t1 t2) (da s) (db s) (dc s) (add32 (dd s) t1) (de s) (df s) (dg s).

(** The message schedule, newest word first. *)
Fixpoint schedule (n : nat) (w : list Z) : list Z :=
  match n with
  | O => w
  | S n' =>
      let next := add32 (add32 (small_sigma1 (nth 1 w 0)) (nth 6 w 0))
                    (add32 (small_sigma0 (nth 14 w 0)) (nth 15 w 0)) in
      schedule n' (next :: w)
  end.

Fixpoint words (n : nat) (bs : list Z) : list Z :=
  match n, bs with
  | S n', a :: b :: c :: d :: r =>
      (Z.shiftl a 24 + Z.shiftl b 16 + Z.shiftl c 8 + d) :: words n' r
  | _, _ => []
  end.

Definition compress (s : Digest) (block : list Z) : Digest :=
  let w := rev (schedule 48 (rev (words 16 block))) in
  digest_add s (foldl round s (zip round_constants w)).

Definition be_bytes (n : nat) (x : Z) : list Z :=
  map (fun i => Z.land (Z.shiftr x (8 * Z.of_nat i)) 255) (rev (seq 0 n)).

Definition pad (bs : list Z) : list Z :=
  let n := length bs in
  let zeros := ((119 - n mod 64) mod 64)%nat in
  bs ++ [128] ++ replicate zeros 0 ++ be_bytes 8 (8 * Z.of_nat n).

Fixpoint blocks (n : nat) (s : Digest) (bs : list Z) : Digest :=
  match n with
  | O => s
  | S n' => blocks n' (compress s (take 64 bs)) (drop 64 bs)
  end.

(** [sha256.Sum256]. *)
Definition sum256 (bs : list Z) : list Z :=
  let p := pad bs in
  let s := blocks (length p / 64) initial p in
  concat (map (be_bytes 4) [da s; db s; dc s; dd s; de s; df s; dg s; dh s]).

Lemma sum256_length bs : length (sum256 bs) = 32%nat.
Proof. reflexivity. Qed.

Lemma be_bytes_range n x : Forall (fun b => 0 ≤ b < 256) (be_bytes n x).
Proof.
  apply Forall_map, Forall_true. intros i.
  change 255 with (Z.ones 8). rewrite Z.land_ones by lia. by apply Z.mod_pos_bound.
Qed.

Lemma sum256_range bs : Forall (fun b => 0 ≤ b < 256) (sum256 bs).
Proof.
  unfold sum256. apply Forall_concat, Forall_map, Forall_true. intros. apply be_bytes_range.
Qed.

End Sha256.

(** ** [[]byte(s)] and [encoding/hex.EncodeToString] *)
Fixpoint to_bytes (s : string) : list Z :=
  match s with EmptyString => [] | String c r => byte_of c :: to_bytes r end.

Lemma byte_of_inj c d : byte_of c = byte_of d → c = d.
Proof.
  unfold byte_of. intros H%N2Z.inj.
  rewrite <- (ascii_N_embedding c), <- (ascii_N_embedding d). congruence.
Qed.

Lemma to_bytes_inj s t : to_bytes s = to_bytes t → s = t.
Proof.
  revert t. induction s as [|c s IH]; intros [|d t]; simpl; try done.
  intros [= ->%byte_of_inj ->%IH]. done.
Qed.

Definition hex_digit (n : Z) : ascii :=
  match n with
  | 0 => "0" | 1 => "1" | 2 => "2" | 3 => "3" | 4 => "4" | 5 => "5" | 6 => "6" | 7 => "7"
  | 8 => "8" | 9 => "9" | 10 => "a" | 11 => "b" | 12 => "c" | 13 => "d" | 14 => "e" | _ => "f"
  end%char.

Fixpoint hex_encode (bs : list Z) : string :=
  match bs with
  | [] => EmptyString
  | b :: r => String (hex_digit (b / 16)) (String (hex_digit (b mod 16)) (hex_encode r))
  end.

Definition hex_value (c : ascii) : Z :=
  let b := byte_of c in if b <? 58 then b - 48 else b - 87.

Lemma hex_digit_value n : 0 ≤ n < 16 → hex_value (hex_digit n) = n.
Proof.
  intros Hn. assert (Forall (fun k => hex_value (hex_digit k) = k) (seqZ 0 16)) as HF
    by (repeat constructor).
  rewrite Forall_forall in HF. apply HF, elem_of_seqZ. lia.
Qed.

Lemma hex_encode_length bs : String.length (hex_encode bs) = (2 * length bs)%nat.
Proof. induction bs; simpl; lia. Qed.

Lemma hex_encode_inj a b :
  Forall (fun x => 0 ≤ x < 256) a → Forall (fun x => 0 ≤ x < 256) b →
  hex_encode a = hex_encode b → a = b.
Proof.
  intros Ha. revert b. induction Ha as [|x a Hx Ha IH]; intros [|y b] Hb; simpl; try done.
  intros [= H1 H2 H3]. apply Forall_cons in Hb as [Hy Hb].
  apply (f_equal hex_value) in H1, H2.
  rewrite !hex_digit_value in H1, H2 by
    (split; [apply Z.div_pos || apply Z.mod_pos_bound; lia
            | apply Z.div_lt_upper_bound || apply Z.mod_pos_bound; lia]).
  f_equal; [|by apply IH].
  rewrite (Z.div_mod x 16), (Z.div_mod y 16) by lia. congruence.
Qed.

(** [hex(sha256(s))], the digest both components store and compare. *)
Local Open Scope string_scope.
Definition sha256_hex (s : string) : string := hex_encode (Sha256.sum256 (to_bytes s)).

Lemma sha256_hex_length s : String.length (sha256_hex s) = 64%nat.
Proof. unfold sha256_hex. by rewrite hex_encode_length, Sha256.sum256_length. Qed.

(** Equal hex digests come from equal inputs or exhibit a SHA-256 collision. *)
Definition sha256_collision (s t : string) : Prop :=
  s ≠ t ∧ Sha256.sum256 (to_bytes s) = Sha256.sum256 (to_bytes t).

Lemma sha256_hex_inj s t :
  sha256_hex s = sha256_hex t → s = t ∨ sha256_collision s t.
Proof.
  intros H. destruct (decide (s = t)) as [|Hne]; [by left|right].
  split; [done|]. eapply hex_encode_inj; [apply Sha256.sum256_range..|exact H].
Qed.

Example sha256_abc :
  sha256_hex "abc" = "ba7816bf8f01cfea414140de5dae2223b00361a396177a9cb410ff61f20015ad".
Proof. vm_compute. reflexivity. Qed.
Example sha256_empty :
  sha256_hex "" = "e3b0c44298fc1c149afbf4c8996fb92427ae41e4649b934ca495991b7852b855".
Proof. vm_compute. reflexivity. Qed.
Example sha256_two_blocks :
  sha256_hex "abcdbcdecdefdefgefghfghighijhijkijkljklmklmnlmnomnopnopq" =
  "248d6a61d20638b8e5c026930c3e6039a33ce45964ff2167f6ecedd419db06c1".
Proof. vm_compute. reflexivity. Qed.

(** Digests are compared, never computed, in proofs. *)
#[global] Opaque sha256_hex.
