(* ===== verification/Redaction.v ===== *)
(** * Redaction: what may reach a log

    [maas-api/internal/logger/redaction.go]: the redacted forms of header
    values and user names.  [hmacKey] is the per-process random key;
    [crypto/hmac], [encoding/base64] and [textproto.CanonicalMIMEHeaderKey] of
    the Go standard library are written out. *)

From S2P Require Import Prelude GoStrings Sha256.
From Stdlib Require String.
Local Open Scope string_scope.

Module Redaction.

(** ** Standard library *)

(** [crypto/hmac] over SHA-256, whose block is 64 bytes. *)
Definition hmac_pad (key : list Z) : list Z :=
  let key := if (64 <? length key)%nat then Sha256.sum256 key else key in
  (key ++ replicate (64 - length key) 0%Z)%list.
Definition hmac (key message : list Z) : list Z :=
  let k := hmac_pad key in
  let inner := Sha256.sum256 (map (λ b, Z.lxor b 54) k ++ message)%list in
  Sha256.sum256 (map (λ b, Z.lxor b 92) k ++ inner)%list.

(** [base64.URLEncoding]. *)
Definition base64_alphabet : string :=
  "ABCDEFGHIJKLMNOPQRSTUVWXYZabcdefghijklmnopqrstuvwxyz0123456789-_".
Definition base64_char (n : Z) : ascii := default "A"%char (String.get (Z.to_nat n) base64_alphabet).
Definition sextet (x : Z) (i : Z) : ascii := base64_char (Z.land (Z.shiftr x (6 * i)) 63).
Fixpoint base64_url (bs : list Z) : string :=
  match bs with
  | a :: b :: c :: r =>
      let x := (a * 65536 + b * 256 + c)%Z in
      String (sextet x 3) (String (sextet x 2) (String (sextet x 1) (String (sextet x 0) (base64_url r))))
  | [a; b] =>
      let x := (a * 65536 + b * 256)%Z in
      String (sextet x 3) (String (sextet x 2) (String (sextet x 1) "="))
  | [a] => let x := (a * 65536)%Z in String (sextet x 3) (String (sextet x 2) "==")
  | [] => ""
  end.

(** [validHeaderFieldByte]: the token characters. *)
Definition header_byte (c : ascii) : bool :=
  in_range 48 57 c || in_range 65 90 c || in_range 97 122 c
  || existsb (Ascii.eqb c) ["!"; "#"; "$"; "%"; "&"; "'"; "*"; "+"; "-"; "."; "^"; "_"; "`"; "|"; "~"]%char.
Definition upper_char (c : ascii) : ascii :=
  if in_range 97 122 c then ascii_of_N (Z.to_N (byte_of c - 32)) else c.
Fixpoint canonical_from (upper : bool) (s : string) : string :=
  match s with
  | EmptyString => EmptyString
  | String c r =>
      let c := if upper then upper_char c else lower_char c in
      String c (canonical_from (Ascii.eqb c "-") r)
  end.
Definition CanonicalMIMEHeaderKey (s : string) : string :=
  if str_all header_byte s then canonical_from true s else s.

(** ** The package *)

Definition SensitiveHeaders : list string :=
  ["Authorization"; "X-Api-Key"; "Cookie"; "Set-Cookie"; "X-MaaS-Username"; "X-MaaS-Group"; "X-MaaS-Identity"].

Notation Header := (gmap string (list string)).

(** [http.Header.Get]. *)
Definition header_get (h : Header) (name : string) : string :=
  match h !! CanonicalMIMEHeaderKey name with Some (v :: _) => v | _ => "" end.

Definition IsSensitiveHeader (name : string) : bool :=
  let canonical := CanonicalMIMEHeaderKey name in
  existsb (λ h, String.eqb (CanonicalMIMEHeaderKey h) canonical) SensitiveHeaders.

Section Redaction.
Context `{GR : GoRuntime}.
Variable hmacKey : list Z.

Definition RedactHeader (value : string) (hashPrefix : bool) : string :=
  if String.eqb value "" then "absent" else
  if negb hashPrefix then "present" else
  "present:sha256:" +:+ str_take 8 (base64_url (hmac hmacKey (to_bytes value))).

(** One iteration of the loop of [RedactHeaders]. *)
Definition redact_entry (hashPrefix : bool) (result : gmap string string) (entry : string * list string)
    : gmap string string :=
  let '(name, values) := entry in
  let canonical := CanonicalMIMEHeaderKey name in
  if bool_decide (canonical ∈ map CanonicalMIMEHeaderKey SensitiveHeaders) then
    <[canonical := RedactHeader (match values with v :: _ => v | [] => "" end) hashPrefix]> result
  else match values with v :: _ => <[canonical := v]> result | [] => result end.
Definition RedactHeaders (headers : Header) (hashPrefix : bool) : gmap string string :=
  fold_left (redact_entry hashPrefix) (range_map headers) ∅.

Definition RedactValue (value : string) : string :=
  if String.eqb value "" then "<empty>" else
  "sha256:" +:+ str_take 12 (base64_url (hmac hmacKey (to_bytes value))).

Definition SensitiveHeadersSummaryForAccessLog (h : Header) : string :=
  join " " (map (λ name, name +:+ "=" +:+ RedactHeader (header_get h name) false) SensitiveHeaders).

(** ** Properties *)

Lemma sensitive_spec name :
  IsSensitiveHeader name = true ↔ CanonicalMIMEHeaderKey name ∈ map CanonicalMIMEHeaderKey SensitiveHeaders.
Proof.
  unfold IsSensitiveHeader. rewrite existsb_elem, list_elem_of_fmap. split.
  - intros (h & Hh & E%String.eqb_eq). exists h. auto.
  - intros (h & E & Hh). exists h. split; [done|]. by apply String.eqb_eq.
Qed.

(** What the loop has stored under a canonical name came from one entry. *)
Lemma redact_fold es hp m k v :
  fold_left (redact_entry hp) es m !! k = Some v →
  m !! k = Some v ∨ ∃ name values, (name, values) ∈ es ∧ CanonicalMIMEHeaderKey name = k ∧
    if bool_decide (k ∈ map CanonicalMIMEHeaderKey SensitiveHeaders)
    then v = RedactHeader (match values with x :: _ => x | [] => "" end) hp
    else ∃ r, values = v :: r.
Proof.
  revert m. induction es as [|[name values] es IH]; intros m H; cbn [fold_left] in H; [by left|].
  apply IH in H as [H|(n & vs & Hin & Hk & Hv)].
  - cbn [redact_entry] in H. set (c := CanonicalMIMEHeaderKey name) in *.
    destruct (bool_decide (c ∈ map CanonicalMIMEHeaderKey SensitiveHeaders)) eqn:Eb.
    + apply lookup_insert_Some in H as [[<- <-]|[_ H]]; [|by left].
      right. exists name, values. split; [apply list_elem_of_here|]. split; [done|]. by rewrite Eb.
    + destruct values as [|x r]; [by left|]. apply lookup_insert_Some in H as [[<- <-]|[_ H]]; [|by left].
      right. exists name, (x :: r). split; [apply list_elem_of_here|]. split; [done|]. rewrite Eb. by exists r.
  - right. exists n, vs. split; [by apply list_elem_of_further|done].
Qed.

(** Redaction hides every sensitive value, in whatever spelling the header
    arrived and in whatever order the map is walked.  An entry of
    [RedactHeaders] under a sensitive name is a redacted form of one value,
    never the value's own text; an entry under any other name is the first
    value of a header of that name.  The access-log summary tells only which
    sensitive headers are present: two requests that agree on that have the
    same summary. *)
Theorem redaction_hides headers hashPrefix :
  (∀ k v, RedactHeaders headers hashPrefix !! k = Some v →
     ∃ name values, headers !! name = Some values ∧ CanonicalMIMEHeaderKey name = k ∧
       if IsSensitiveHeader name
       then v = RedactHeader (match values with x :: _ => x | [] => "" end) hashPrefix
            ∧ (hashPrefix = false → v = "absent" ∨ v = "present")
       else ∃ r, values = v :: r)
  ∧ (∀ headers', (∀ name, name ∈ SensitiveHeaders → header_get headers name = "" ↔ header_get headers' name = "") →
       SensitiveHeadersSummaryForAccessLog headers = SensitiveHeadersSummaryForAccessLog headers').
Proof.
  split.
  - intros k v [H|(name & values & Hin & Hk & Hv)]%redact_fold; [by rewrite lookup_empty in H|].
    exists name, values. rewrite range_map_perm, elem_of_map_to_list in Hin. split; [done|]. split; [done|].
    rewrite <- Hk in Hv. destruct (IsSensitiveHeader name) eqn:E.
    + apply sensitive_spec in E. rewrite bool_decide_eq_true_2 in Hv by done. split; [done|].
      intros ->. rewrite Hv. unfold RedactHeader. cbn [negb].
      destruct (String.eqb _ _); auto.
    + rewrite bool_decide_eq_false_2 in Hv; [done|]. rewrite <- sensitive_spec. by rewrite E.
  - intros headers' Hsame. unfold SensitiveHeadersSummaryForAccessLog. f_equal.
    apply map_ext_in. intros name Hin. apply list_elem_of_In, Hsame in Hin.
    unfold RedactHeader. cbn [negb].
    destruct (String.eqb_spec (header_get headers name) ""), (String.eqb_spec (header_get headers' name) "");
      naive_solver.
Qed.

End Redaction.

(** ** Concrete values *)

(** Test case 2 of RFC 4231. *)
Example hmac_rfc4231 :
  hex_encode (hmac (to_bytes "Jefe") (to_bytes "what do ya want for nothing?"))
  = "5bdcc146bf60754e6a042426089575c75a003f089d2739839dec58b964ec3843".
Proof. vm_compute. reflexivity. Qed.

Example base64_padding : base64_url (to_bytes "any carnal pleas") = "YW55IGNhcm5hbCBwbGVhcw==".
Proof. vm_compute. reflexivity. Qed.

Example canonical_names :
  map CanonicalMIMEHeaderKey ["x-maas-username"; "AUTHORIZATION"; "a b"] = ["X-Maas-Username"; "Authorization"; "a b"].
Proof. vm_compute. reflexivity. Qed.

Lemma redaction_hides_witness :
  ∃ m, RedactHeaders (GR:=reference_runtime) [1%Z] {[ "authorization" := ["Bearer secret"] ]} false = m
    ∧ m !! "Authorization" = Some "present".
Proof.
  eexists. split; [reflexivity|].
  assert (H : RedactHeaders (GR:=reference_runtime) [1%Z] {[ "authorization" := ["Bearer secret"] ]} false
    !! "Authorization" = Some "present") by (vm_compute; reflexivity).
  destruct (proj1 (redaction_hides (GR:=reference_runtime) [1%Z] {[ "authorization" := ["Bearer secret"] ]} false)
    _ _ H) as (name & values & _ & _ & _).
  exact H.
Defined.

End Redaction.
