(* ===== verification/KeyGen.v ===== *)
(** * KeyGen: API-key generation, parsing and hashing

    Models [maas-api/internal/api_keys/keygen.go]: the key format
    [sk-oai-{key_id}_{secret}], its base62 encoder, the salted SHA-256 that is
    stored, and the format check of the validation path.  [rand.Read] is an
    argument: the bytes it filled in, or its error. *)

From Stdlib Require Import Strings.Byte.
From Stdlib Require String.
From S2P Require Import Prelude GoStrings Sha256.
Local Open Scope string_scope.
Local Open Scope Z_scope.

Module KeyGen.

Definition KeyPrefix : string := "sk-oai-".
Definition KeyIDSeparator : ascii := "_".
Definition keyIDBytes : nat := 12.
Definition entropyBytes : nat := 32.
Definition displayPrefixLength : nat := 12.

Definition alphabet : string :=
  "0123456789ABCDEFGHIJKLMNOPQRSTUVWXYZabcdefghijklmnopqrstuvwxyz".

(** [alphabet[i]] for [0 <= i < 62]. *)
Definition alphabet_at (i : Z) : ascii :=
  match String.get (Z.to_nat i) alphabet with Some c => c | None => "0"%char end.

Definition byte_value (b : byte) : Z := Z.of_N (Byte.to_N b).

(** [new(big.Int).SetBytes(data)], big-endian. *)
Definition SetBytes (data : list byte) : Z :=
  foldl (fun acc b => acc * 256 + byte_value b) 0 data.

(** The [for n.Cmp(zero) > 0] loop; [result] grows at the front. *)
Fixpoint encode_loop (fuel : nat) (n : Z) (result : string) : string :=
  match fuel with
  | O => result
  | S fuel' =>
      if 0 <? n
      then encode_loop fuel' (n / 62) (String (alphabet_at (n mod 62)) result)
      else result
  end.

Definition encodeBase62 (data : list byte) : string :=
  let result := encode_loop (8 * length data) (SetBytes data) "" in
  match result with
  | EmptyString => String (alphabet_at 0) EmptyString
  | _ => result
  end.

(** [isBase62]: the source ranges over runes; a byte outside ASCII belongs to a
    rune (or an invalid sequence) outside the three ranges as well. *)
Definition base62_char (c : ascii) : bool :=
  negb ((negb (in_range 48 57 c) && negb (in_range 65 90 c)) && negb (in_range 97 122 c)).
Definition isBase62 (s : string) : bool := str_all base62_char s.

Definition hashWithSalt (keyID secret : string) : string :=
  sha256_hex (keyID +:+ String zero secret).

Inductive GenErr := KeyIDEntropy (e : string) | SecretEntropy (e : string).

Definition GenerateAPIKey (readID readSecret : Res string (list byte))
    : Res GenErr (string * string * string) :=
  keyIDEntropy <- map_err KeyIDEntropy readID ;;
  let keyID := encodeBase62 keyIDEntropy in
  secretEntropy <- map_err SecretEntropy readSecret ;;
  let secret := encodeBase62 secretEntropy in
  let plaintext := KeyPrefix +:+ keyID +:+ String KeyIDSeparator secret in
  let hash := hashWithSalt keyID secret in
  let prefix :=
    if (displayPrefixLength <=? String.length keyID)%nat
    then KeyPrefix +:+ str_take displayPrefixLength keyID +:+ "..."
    else KeyPrefix +:+ keyID +:+ "..." in
  Ok (plaintext, hash, prefix).

Inductive ParseErr := InvalidPrefix | MissingSeparator | EmptyPart.
#[export] Instance ParseErr_eq_dec : EqDecision ParseErr.
Proof. solve_decision. Defined.

Definition is_empty (s : string) : bool :=
  match s with EmptyString => true | _ => false end.

Definition ParseAPIKey (key : string) : Res ParseErr (string * string) :=
  reject InvalidPrefix when negb (has_prefix KeyPrefix key) ;;
  let body := str_drop (String.length KeyPrefix) key in
  match cut KeyIDSeparator body with
  | None => Err MissingSeparator
  | Some (keyID, secret) =>
      reject EmptyPart when is_empty keyID || is_empty secret ;;
      Ok (keyID, secret)
  end.

(** [subtle.ConstantTimeCompare]: 1 when the contents are equal, otherwise 0. *)
Definition ConstantTimeCompare (x y : list Z) : Z :=
  if negb (length x =? length y)%nat then 0
  else if foldl Z.lor 0 (zip_with Z.lxor x y) =? 0 then 1 else 0.

Definition ValidateAPIKeyHash (key storedHash : string) : bool :=
  match ParseAPIKey key with
  | Err _ => false
  | Ok (keyID, secret) =>
      let computedHash := hashWithSalt keyID secret in
      ConstantTimeCompare (to_bytes computedHash) (to_bytes storedHash) =? 1
  end.

Definition HashAPIKey (key : string) : string :=
  match ParseAPIKey key with
  | Err _ => ""
  | Ok (keyID, secret) => hashWithSalt keyID secret
  end.

Definition IsValidKeyFormat (key : string) : bool :=
  if negb (has_prefix KeyPrefix key) then false else
  let body := str_drop (String.length KeyPrefix) key in
  match cut KeyIDSeparator body with
  | None => false
  | Some (keyID, secret) =>
      if is_empty keyID || is_empty secret then false
      else if negb (isBase62 keyID) then false
      else if negb (isBase62 secret) then false
      else true
  end.

(** ** Reference decoder: the number a base62 string denotes *)
Definition base62_value (c : ascii) : Z :=
  let b := byte_of c in
  if b <? 58 then b - 48 else if b <? 91 then b - 55 else b - 61.
Fixpoint decodeBase62 (s : string) : Z :=
  match s with
  | EmptyString => 0
  | String c r => base62_value c * 62 ^ Z.of_nat (String.length r) + decodeBase62 r
  end.

(** ** Lemmas on the encoder *)

Lemma alphabet_at_spec i :
  0 ≤ i < 62 → base62_value (alphabet_at i) = i ∧ base62_char (alphabet_at i) = true.
Proof.
  intros Hi. assert (Forall (fun k => base62_value (alphabet_at k) = k ∧
    base62_char (alphabet_at k) = true) (seqZ 0 62)) as HF.
  { repeat (constructor; [by vm_compute|]). constructor. }
  rewrite Forall_forall in HF. apply HF, elem_of_seqZ. lia.
Qed.

Lemma byte_value_range b : 0 ≤ byte_value b < 256.
Proof.
  unfold byte_value. pose proof (Byte.to_N_bounded b). lia.
Qed.

Lemma SetBytes_snoc data b : SetBytes (data ++ [b]) = SetBytes data * 256 + byte_value b.
Proof. unfold SetBytes. by rewrite foldl_app. Qed.

Lemma SetBytes_range data : 0 ≤ SetBytes data < 2 ^ (8 * Z.of_nat (length data)).
Proof.
  induction data as [|b data IH] using rev_ind; [done|].
  rewrite SetBytes_snoc, length_app. pose proof (byte_value_range b).
  replace (8 * Z.of_nat (length data + length [b])) with (8 * Z.of_nat (length data) + 8)
    by (simpl; lia).
  rewrite Z.pow_add_r by lia. change (2 ^ 8) with 256. nia.
Qed.

Lemma encode_loop_all fuel n acc :
  isBase62 acc = true → isBase62 (encode_loop fuel n acc) = true.
Proof.
  revert n acc. induction fuel as [|fuel IH]; simpl; [done|]. intros n acc Hacc.
  destruct (0 <? n); [|done]. apply IH. unfold isBase62. cbn [str_all].
  by rewrite (proj2 (alphabet_at_spec _ (Z.mod_pos_bound n 62 eq_refl))).
Qed.

(** The loop ends before its fuel does and writes exactly [n]. *)
Lemma encode_loop_decode fuel n acc :
  0 ≤ n < 2 ^ Z.of_nat fuel →
  decodeBase62 (encode_loop fuel n acc) = n * 62 ^ Z.of_nat (String.length acc) + decodeBase62 acc.
Proof.
  revert n acc. induction fuel as [|fuel IH]; intros n acc Hn.
  - change (2 ^ Z.of_nat 0) with 1 in Hn. simpl. nia.
  - simpl encode_loop. destruct (Z.ltb_spec 0 n); [|replace n with 0 by lia; lia].
    rewrite Nat2Z.inj_succ, Z.pow_succ_r in Hn by lia.
    rewrite IH.
    + simpl decodeBase62. simpl String.length.
      rewrite (proj1 (alphabet_at_spec _ (Z.mod_pos_bound n 62 eq_refl))).
      rewrite Nat2Z.inj_succ, Z.pow_succ_r by lia.
      pose proof (Z.div_mod n 62). nia.
    + split; [apply Z.div_pos; lia|]. apply Z.div_lt_upper_bound; lia.
Qed.

Lemma encode_loop_length fuel n acc k :
  0 ≤ n < 62 ^ Z.of_nat k →
  (String.length (encode_loop fuel n acc) ≤ k + String.length acc)%nat.
Proof.
  revert n acc k. induction fuel as [|fuel IH]; intros n acc k Hn; simpl; [lia|].
  destruct (Z.ltb_spec 0 n); [|lia].
  destruct k as [|k]; [change (62 ^ Z.of_nat 0) with 1 in Hn; lia|].
  rewrite Nat2Z.inj_succ, Z.pow_succ_r in Hn by lia.
  etrans; [apply (IH _ _ k)|simpl; lia].
  split; [apply Z.div_pos; lia|]. apply Z.div_lt_upper_bound; lia.
Qed.

Lemma encodeBase62_not_empty data : is_empty (encodeBase62 data) = false.
Proof. unfold encodeBase62. by destruct (encode_loop _ _ _). Qed.

Lemma encodeBase62_base62 data : isBase62 (encodeBase62 data) = true.
Proof.
  unfold encodeBase62. pose proof (encode_loop_all (8 * length data) (SetBytes data) "" eq_refl).
  by destruct (encode_loop _ _ _).
Qed.

Lemma encodeBase62_decode data : decodeBase62 (encodeBase62 data) = SetBytes data.
Proof.
  unfold encodeBase62.
  pose proof (encode_loop_decode (8 * length data) (SetBytes data) "") as H.
  rewrite Nat2Z.inj_mul in H. specialize (H (SetBytes_range data)).
  change (62 ^ Z.of_nat (String.length "")) with 1 in H. simpl (decodeBase62 "") in H.
  rewrite Z.mul_1_r, Z.add_0_r in H. etrans; [|exact H]. by destruct (encode_loop _ _ _).
Qed.

(** Big-endian numbers of a fixed width determine their bytes. *)
Lemma SetBytes_inj d1 d2 : length d1 = length d2 → SetBytes d1 = SetBytes d2 → d1 = d2.
Proof.
  revert d2. induction d1 as [|b1 d1 IH] using rev_ind; intros d2 Hl.
  { by destruct d2. }
  destruct d2 as [|b2 d2 _] using rev_ind; rewrite !length_app in Hl; simpl in Hl; [lia|].
  rewrite !SetBytes_snoc. intros Heq.
  pose proof (byte_value_range b1). pose proof (byte_value_range b2).
  assert (byte_value b1 = byte_value b2) as Hb by lia.
  rewrite (IH d2) by lia. f_equal. unfold byte_value in Hb. apply N2Z.inj in Hb.
  pose proof (Byte.of_to_N b1) as H1. rewrite Hb, Byte.of_to_N in H1. congruence.
Qed.

(** ** Lemmas on the format *)

Lemma base62_no_sep s : isBase62 s = true → contains_char KeyIDSeparator s = false.
Proof. by apply str_all_not_contains. Qed.
Lemma base62_no_nul s : isBase62 s = true → contains_char zero s = false.
Proof. by apply str_all_not_contains. Qed.

Definition render (keyID secret : string) : string :=
  KeyPrefix +:+ keyID +:+ String KeyIDSeparator secret.

Lemma key_body (s : string) : str_drop (String.length KeyPrefix) (KeyPrefix +:+ s) = s.
Proof. apply str_drop_app. Qed.

Lemma ParseAPIKey_render keyID secret :
  contains_char KeyIDSeparator keyID = false → is_empty keyID = false → is_empty secret = false →
  ParseAPIKey (render keyID secret) = Ok (keyID, secret).
Proof.
  intros Hs Hk He. unfold ParseAPIKey, render. rewrite has_prefix_app, key_body. simpl negb.
  rewrite (proj2 (cut_some _ _ keyID secret)) by done. cbn match. by rewrite Hk, He.
Qed.

Lemma ParseAPIKey_ok key keyID secret :
  ParseAPIKey key = Ok (keyID, secret) →
  key = render keyID secret ∧ contains_char KeyIDSeparator keyID = false ∧
  is_empty keyID = false ∧ is_empty secret = false.
Proof.
  unfold ParseAPIKey. destruct (has_prefix KeyPrefix key) eqn:Hp; [|done]. simpl negb. cbn match.
  apply has_prefix_spec in Hp as [body ->]. rewrite key_body.
  destruct (cut KeyIDSeparator body) as [[k s]|] eqn:Hc; [|done].
  apply cut_some in Hc as [-> Hs]. destruct (is_empty k || is_empty s) eqn:He; [done|].
  intros [= -> ->]. by bool_hyps.
Qed.

Lemma IsValidKeyFormat_iff key :
  IsValidKeyFormat key = true ↔
  ∃ keyID secret, key = render keyID secret ∧ is_empty keyID = false ∧ is_empty secret = false ∧
    isBase62 keyID = true ∧ isBase62 secret = true.
Proof.
  unfold IsValidKeyFormat. split.
  - destruct (has_prefix KeyPrefix key) eqn:Hp; [|done]. simpl negb. cbn match.
    apply has_prefix_spec in Hp as [body ->]. rewrite key_body.
    destruct (cut KeyIDSeparator body) as [[k s]|] eqn:Hc; [|done].
    apply cut_some in Hc as [-> Hs]. destruct (is_empty k || is_empty s) eqn:He; [done|].
    destruct (isBase62 k) eqn:?, (isBase62 s) eqn:?; try done. bool_hyps. by exists k, s.
  - intros (k & s & -> & Hk & Hs & Hbk & Hbs). unfold render.
    rewrite has_prefix_app, key_body. simpl negb. cbn match.
    rewrite (proj2 (cut_some _ _ k s)) by eauto using base62_no_sep. cbn match.
    by rewrite Hk, Hs, Hbk, Hbs.
Qed.

Lemma IsValidKeyFormat_parse key :
  IsValidKeyFormat key = true →
  ∃ keyID secret, key = render keyID secret ∧ ParseAPIKey key = Ok (keyID, secret) ∧
    isBase62 keyID = true ∧ isBase62 secret = true.
Proof.
  intros (k & s & -> & Hk & Hs & Hbk & Hbs)%IsValidKeyFormat_iff.
  exists k, s. split_and!; [done| |done..]. by apply ParseAPIKey_render; [apply base62_no_sep|..].
Qed.

Lemma HashAPIKey_valid key : IsValidKeyFormat key = true → is_empty (HashAPIKey key) = false.
Proof.
  intros (k & s & _ & Hp & _)%IsValidKeyFormat_parse. unfold HashAPIKey. rewrite Hp.
  unfold hashWithSalt. pose proof (sha256_hex_length (k +:+ String zero s)).
  by destruct (sha256_hex _).
Qed.

Lemma lor_fold_zero l acc : foldl Z.lor acc l = 0 ↔ acc = 0 ∧ Forall (eq 0) l.
Proof.
  revert acc. induction l as [|x l IH]; intros acc; simpl; [naive_solver|].
  rewrite IH, Z.lor_eq_0_iff, Forall_cons. naive_solver.
Qed.

Lemma ConstantTimeCompare_eq x y : ConstantTimeCompare x y = 1 ↔ x = y.
Proof.
  unfold ConstantTimeCompare. destruct (Nat.eqb_spec (length x) (length y)) as [Hl|Hl]; simpl.
  2: { split; [done|]. by intros ->. }
  destruct (Z.eqb_spec (foldl Z.lor 0 (zip_with Z.lxor x y)) 0) as [H|H].
  - split; [intros _|done]. apply lor_fold_zero in H as [_ H].
    revert y Hl H. induction x as [|a x IH]; intros [|b y]; simpl; try done.
    intros Hl [Hab H]%Forall_cons. f_equal; [|apply IH; auto with lia].
    by apply Z.lxor_eq.
  - split; [done|]. intros ->. exfalso. apply H, lor_fold_zero. split; [done|].
    clear. induction y as [|b y IH]; simpl; constructor; [|done]. by rewrite Z.lxor_nilpotent.
Qed.

Lemma ValidateAPIKeyHash_iff key stored :
  ValidateAPIKeyHash key stored = true ↔
  ∃ keyID secret, ParseAPIKey key = Ok (keyID, secret) ∧ stored = hashWithSalt keyID secret.
Proof.
  unfold ValidateAPIKeyHash. destruct (ParseAPIKey key) as [[k s]|e]; [|naive_solver].
  rewrite Z.eqb_eq, ConstantTimeCompare_eq. split.
  - intros H%to_bytes_inj. eauto.
  - by intros (? & ? & [= <- <-] & ->).
Qed.

(** The NUL delimiter makes the hashed string determine its two parts. *)
Lemma hashWithSalt_inj k s k' s' :
  contains_char zero k = false → contains_char zero k' = false →
  hashWithSalt k s = hashWithSalt k' s' →
  (k = k' ∧ s = s') ∨ sha256_collision (k +:+ String zero s) (k' +:+ String zero s').
Proof.
  intros Hk Hk' Heq. unfold hashWithSalt in Heq.
  apply sha256_hex_inj in Heq as [H|H]; [left|by right].
  by apply str_split_unique in H.
Qed.

Lemma GenerateAPIKey_ok e1 e2 :
  GenerateAPIKey (Ok e1) (Ok e2) =
  Ok (render (encodeBase62 e1) (encodeBase62 e2),
      hashWithSalt (encodeBase62 e1) (encodeBase62 e2),
      KeyPrefix +:+ str_take displayPrefixLength (encodeBase62 e1) +:+ "...").
Proof.
  unfold GenerateAPIKey, render. cbn [map_err res_bind].
  destruct (Nat.leb_spec displayPrefixLength (String.length (encodeBase62 e1))) as [Hl|Hl]; [done|].
  do 4 f_equal. clear -Hl. revert Hl. generalize displayPrefixLength (encodeBase62 e1).
  intros n k. revert n. induction k as [|c k IH]; intros [|n]; simpl; try lia; [done|].
  intros ?. by rewrite <- (IH n) by lia.
Qed.

Lemma render_parse e1 e2 :
  ParseAPIKey (render (encodeBase62 e1) (encodeBase62 e2)) = Ok (encodeBase62 e1, encodeBase62 e2).
Proof.
  apply ParseAPIKey_render; [apply base62_no_sep, encodeBase62_base62|apply encodeBase62_not_empty..].
Qed.

Lemma generated_valid e1 e2 :
  IsValidKeyFormat (render (encodeBase62 e1) (encodeBase62 e2)) = true.
Proof.
  apply IsValidKeyFormat_iff. exists (encodeBase62 e1), (encodeBase62 e2).
  split_and!; auto using encodeBase62_not_empty, encodeBase62_base62.
Qed.

Lemma HashAPIKey_generated e1 e2 :
  HashAPIKey (render (encodeBase62 e1) (encodeBase62 e2)) =
  hashWithSalt (encodeBase62 e1) (encodeBase62 e2).
Proof. unfold HashAPIKey. by rewrite render_parse. Qed.

Lemma encodeBase62_max_length data k :
  256 ^ Z.of_nat (length data) ≤ 62 ^ Z.of_nat k → (0 < k)%nat →
  (1 ≤ String.length (encodeBase62 data) ≤ k)%nat.
Proof.
  intros Hle Hk. pose proof (SetBytes_range data) as [H0 H1].
  rewrite Z.pow_mul_r in H1 by lia. change (2 ^ 8) with 256 in H1.
  pose proof (encode_loop_length (8 * length data) (SetBytes data) "" k ltac:(lia)) as Hl.
  simpl String.length in Hl. unfold encodeBase62.
  destruct (encode_loop _ _ _); simpl in *; lia.
Qed.

(** ** Properties *)

(** C36: every key [GenerateAPIKey] returns passes the format check, parses back
    into exactly the two encoded parts, hashes to the returned hash, which is
    64 hexadecimal digits, and is accepted by [ValidateAPIKeyHash] against
    it; the display prefix is a function of the key id alone. *)
Theorem generated_key_roundtrip (e1 e2 : list byte) :
  ∃ plaintext hash prefix,
    GenerateAPIKey (Ok e1) (Ok e2) = Ok (plaintext, hash, prefix) ∧
    IsValidKeyFormat plaintext = true ∧
    ParseAPIKey plaintext = Ok (encodeBase62 e1, encodeBase62 e2) ∧
    HashAPIKey plaintext = hash ∧ String.length hash = 64%nat ∧
    ValidateAPIKeyHash plaintext hash = true ∧
    prefix = KeyPrefix +:+ str_take 12 (encodeBase62 e1) +:+ "...".
Proof.
  eexists _, _, _. split; [apply GenerateAPIKey_ok|].
  split_and!; [apply generated_valid|apply render_parse|apply HashAPIKey_generated| | |done].
  - apply sha256_hex_length.
  - apply ValidateAPIKeyHash_iff. eauto using render_parse.
Qed.

(** generation loses no entropy: two draws of the same sizes that give the
    same plaintext key are the same random bytes (base62 encoding is decoded
    by [decodeBase62], and the separator fixes the split). *)
Theorem generated_keys_injective (e1 e2 e1' e2' : list byte) :
  length e1 = length e1' → length e2 = length e2' →
  res_map (fun r => r.1.1) (GenerateAPIKey (Ok e1) (Ok e2)) =
  res_map (fun r => r.1.1) (GenerateAPIKey (Ok e1') (Ok e2')) →
  e1 = e1' ∧ e2 = e2'.
Proof.
  intros Hl1 Hl2. rewrite !GenerateAPIKey_ok. cbn [res_map fst]. intros Heq.
  assert (render (encodeBase62 e1) (encodeBase62 e2) =
          render (encodeBase62 e1') (encodeBase62 e2')) as H by congruence.
  assert (encodeBase62 e1 = encodeBase62 e1' ∧ encodeBase62 e2 = encodeBase62 e2') as [H1 H2].
  { pose proof (render_parse e1 e2) as Hp. rewrite H, render_parse in Hp. by simplify_eq. }
  apply (f_equal decodeBase62) in H1, H2. rewrite !encodeBase62_decode in H1, H2.
  eauto using SetBytes_inj.
Qed.

(** a key that passes the format check validates against the stored hash of
    another such key only if it is that key, or the two exhibit a SHA-256
    collision: the NUL delimiter excludes length ambiguity between key id and
    secret, and the constant-time comparison is exact equality. *)
Theorem validate_hash_binding (key stored_key : string) :
  IsValidKeyFormat key = true → IsValidKeyFormat stored_key = true →
  ValidateAPIKeyHash key (HashAPIKey stored_key) = true →
  key = stored_key ∨ ∃ x y, sha256_collision x y.
Proof.
  intros (k & s & -> & Hp & Hk & _)%IsValidKeyFormat_parse.
  intros (k' & s' & -> & Hp' & Hk' & _)%IsValidKeyFormat_parse.
  intros (k1 & s1 & Hp1 & Hh)%ValidateAPIKeyHash_iff. rewrite Hp in Hp1. simplify_eq.
  unfold HashAPIKey in Hh. rewrite Hp' in Hh.
  apply hashWithSalt_inj in Hh as [[-> ->]|Hc]; eauto using base62_no_nul.
Qed.

(** a key id has between 1 and 17 characters and a secret between 1 and 43,
    for the 96 and 256 bits drawn; the lower bound is attained (by the
    all-zero draw), so the length is not guaranteed to reach the 12 characters
    of the display prefix, and the shorter-id branch of the code is live. *)
Theorem key_part_lengths (e1 e2 : list byte) :
  length e1 = keyIDBytes → length e2 = entropyBytes →
  (1 ≤ String.length (encodeBase62 e1) ≤ 17)%nat ∧
  (1 ≤ String.length (encodeBase62 e2) ≤ 43)%nat ∧
  ∃ z, length z = keyIDBytes ∧ String.length (encodeBase62 z) = 1%nat.
Proof.
  intros H1 H2. split; [|split].
  1-2: apply encodeBase62_max_length; rewrite ?H1, ?H2; [by vm_compute|lia].
  exists (replicate 12 x00). by vm_compute.
Qed.

(** ** Witnesses *)

Definition sample_id : list byte := replicate 12 x5a.
Definition sample_secret : list byte := replicate 32 xa7.

Lemma generated_keys_injective_witness :
  sample_id = sample_id ∧ sample_secret = sample_secret.
Proof. apply generated_keys_injective; reflexivity. Defined.

Lemma validate_hash_binding_witness :
  let key := render (encodeBase62 sample_id) (encodeBase62 sample_secret) in
  key = key ∨ ∃ x y, sha256_collision x y.
Proof. intros key. apply validate_hash_binding; vm_compute; reflexivity. Defined.

Lemma key_part_lengths_witness :
  (1 ≤ String.length (encodeBase62 sample_id) ≤ 17)%nat ∧
  (1 ≤ String.length (encodeBase62 sample_secret) ≤ 43)%nat ∧
  ∃ z, length z = keyIDBytes ∧ String.length (encodeBase62 z) = 1%nat.
Proof. apply key_part_lengths; reflexivity. Defined.

End KeyGen.
