(* ===== verification/Unstructured.v ===== *)
(** * Unstructured: decoded Kubernetes objects

    [map[string]any] as the source walks it: JSON values with Go's dynamic
    types, type assertions on them, and the accessors of
    [k8s.io/apimachinery/.../unstructured].  The accessors are third-party
    code: they are the operations of the class [K8sAccess], which the
    definitions that call them take as an argument.  [documented_access]
    instantiates the class with the documented behaviour, for evaluation. *)

From S2P Require Import Prelude GoStrings.
Local Open Scope string_scope.

(** A Go [any] holding decoded JSON.  A float is kept as its literal. An object lists its entries; a Go map has at most
    one entry per key, so the first one is the entry. *)
Inductive JVal : Type :=
| JNull
| JBool (b : bool)
| JInt (z : Z)
| JFloat (literal : string)
| JStr (s : string)
| JArr (l : list JVal)
| JObj (m : list (string * JVal)).

Notation JMap := (list (string * JVal)).

(** [m[key]]: [None] is Go's [nil], which every type assertion refuses. *)
Fixpoint get (key : string) (m : JMap) : option JVal :=
  match m with
  | [] => None
  | (k, v) :: r => if String.eqb k key then Some v else get key r
  end.

(** [v.(string)], [v.(bool)], [v.(int64)], [v.(map[string]any)], [v.([]any)]. *)
Definition as_string (v : option JVal) : option string :=
  match v with Some (JStr s) => Some s | _ => None end.
Definition as_bool (v : option JVal) : option bool :=
  match v with Some (JBool b) => Some b | _ => None end.
Definition as_int64 (v : option JVal) : option Z :=
  match v with Some (JInt z) => Some z | _ => None end.
Definition as_map (v : option JVal) : option JMap :=
  match v with Some (JObj m) => Some m | _ => None end.
Definition as_slice (v : option JVal) : option (list JVal) :=
  match v with Some (JArr l) => Some l | _ => None end.

(** [s, _ := v.(string)]: the zero value when the assertion fails. *)
Definition string_or_empty (v : option JVal) : string := default "" (as_string v).

(** [for _, x := range l { if m, ok := x.(map[string]any); ok { ... } }]. *)
Definition maps_of (l : list JVal) : list JMap := omap (fun v => as_map (Some v)) l.

(** [unstructured.Unstructured]. *)
Record Object := mkObject { Fields : JMap }.

(** ** Third-party accessors

    [found] is [Some]; an error or an absent field is [None] (the source
    treats the two alike everywhere). *)
Class K8sAccess := {
  GetName : Object → string;
  GetNamespace : Object → string;
  GetAnnotations : Object → option (gmap string string);
  NestedString : JMap → list string → option string;
  NestedInt64 : JMap → list string → option Z;
  NestedMap : JMap → list string → option JMap;
  NestedSlice : JMap → list string → option (list JVal);
  NestedStringSlice : JMap → list string → option (list string);
}.

(** The documented behaviour. *)
Fixpoint nested_field (m : JMap) (path : list string) : option JVal :=
  match path with
  | [] => None
  | [k] => get k m
  | k :: ks => match as_map (get k m) with Some m' => nested_field m' ks | None => None end
  end.

Definition string_entries (m : JMap) : option (gmap string string) :=
  list_to_map <$> mapM (fun kv => pair kv.1 <$> as_string (Some kv.2)) m.

Definition documented_access : K8sAccess := {|
  GetName o := default "" (as_string (nested_field (Fields o) ["metadata"; "name"]));
  GetNamespace o := default "" (as_string (nested_field (Fields o) ["metadata"; "namespace"]));
  GetAnnotations o := as_map (nested_field (Fields o) ["metadata"; "annotations"]) ≫= string_entries;
  NestedString m p := as_string (nested_field m p);
  NestedInt64 m p := as_int64 (nested_field m p);
  NestedMap m p := as_map (nested_field m p);
  NestedSlice m p := as_slice (nested_field m p);
  NestedStringSlice m p :=
    as_slice (nested_field m p) ≫= mapM (fun v => as_string (Some v));
|}.
