(* ===== verification/Subscription.v ===== *)
(** * Subscription: the MaaSSubscription data model of maas-api

    The types of [maas-api/internal/subscription/types.go], the parsed
    [subscription] of [selector.go] and [parseSubscription], which turns an
    untyped Kubernetes object into one without trusting any field's type. *)

From S2P Require Import Prelude GoStrings Unstructured.
From Stdlib Require String.
Local Open Scope string_scope.

(** [authpolicy.ModelKey]. *)
Record ModelKey := mkModelKey { key_namespace : string; key_name : string }.
#[export] Instance ModelKey_eq_dec : EqDecision ModelKey.
Proof. solve_decision. Defined.
#[export] Instance ModelKey_countable : Countable ModelKey.
Proof.
  apply (inj_countable' (fun k => (key_namespace k, key_name k))
    (fun p => mkModelKey p.1 p.2)). by intros [].
Defined.

Module Subscription.

(** Phases ([selector.go]) and annotation names ([constant/const.go]). *)
Definition PhasePending : string := "Pending".
Definition PhaseActive : string := "Active".
Definition PhaseDegraded : string := "Degraded".
Definition PhaseFailed : string := "Failed".
Definition AnnotationDescription : string := "openshift.io/description".
Definition AnnotationDisplayName : string := "openshift.io/display-name".
Definition AnnotationRateLimitIdentity : string := "maas.opendatahub.io/rate-limit-identity".
Definition AnnotationSubscriptionHeaders : string := "experimental.maas.opendatahub.io/headers".
Definition RateLimitIdentityShort : string := "short".

Record SubjectInventory := { inv_Groups : list string; inv_Users : list string }.
Record TokenRateLimit := { Limit : Z; Window : string }.
Record TokenRateLimitStatus := {
  trlp_Model : string; trlp_Name : string; trlp_Namespace : string;
  trlp_Ready : bool; trlp_Reason : string; trlp_Message : string;
}.
Record ModelRefInfo := {
  ref_Name : string;
  ref_Namespace : string;
  ref_ModelName : string;
  ref_DisplayName : string;
  ref_Description : string;
  ref_Source : string;
  TokenRateLimits : list TokenRateLimit;
  Unlimited : bool;
  BillingRate : option string;
  Subjects : option SubjectInventory;
}.
#[export] Instance SubjectInventory_eq_dec : EqDecision SubjectInventory.
Proof. solve_decision. Defined.
#[export] Instance TokenRateLimit_eq_dec : EqDecision TokenRateLimit.
Proof. solve_decision. Defined.
#[export] Instance ModelRefInfo_eq_dec : EqDecision ModelRefInfo.
Proof. solve_decision. Defined.

Definition ref_key (r : ModelRefInfo) : ModelKey := mkModelKey (ref_Namespace r) (ref_Name r).

(** The parsed [subscription]; a Go nil map or slice is the empty one. *)
Record subscription := {
  sub_Object : option Object;
  Name : string;
  Namespace : string;
  DisplayName : string;
  Description : string;
  Groups : list string;
  Users : list string;
  Priority : Z;
  MaxLimit : Z;
  AssociatedOrganizationID : string;
  OrganizationID : string;
  CostCenter : string;
  Labels : gmap string string;
  Headers : gmap string (list string);
  ModelRefs : list ModelRefInfo;
  Phase : string;
  Ready : bool;
  DeletionTimestamp : option string;
  TokenRateLimitStatuses : list TokenRateLimitStatus;
  UseShortRateLimitID : bool;
  Objectives : gmap string string;
}.

(** [filtered := *sub; filtered.ModelRefs = refs]. *)
Definition with_ModelRefs (sub : subscription) (refs : list ModelRefInfo) : subscription := {|
  sub_Object := sub_Object sub; Name := Name sub; Namespace := Namespace sub;
  DisplayName := DisplayName sub; Description := Description sub;
  Groups := Groups sub; Users := Users sub; Priority := Priority sub; MaxLimit := MaxLimit sub;
  AssociatedOrganizationID := AssociatedOrganizationID sub; OrganizationID := OrganizationID sub;
  CostCenter := CostCenter sub; Labels := Labels sub; Headers := Headers sub;
  ModelRefs := refs; Phase := Phase sub; Ready := Ready sub;
  DeletionTimestamp := DeletionTimestamp sub;
  TokenRateLimitStatuses := TokenRateLimitStatuses sub;
  UseShortRateLimitID := UseShortRateLimitID sub; Objectives := Objectives sub;
|}.
Definition with_Object (sub : subscription) (o : Object) : subscription := {|
  sub_Object := Some o; Name := Name sub; Namespace := Namespace sub;
  DisplayName := DisplayName sub; Description := Description sub;
  Groups := Groups sub; Users := Users sub; Priority := Priority sub; MaxLimit := MaxLimit sub;
  AssociatedOrganizationID := AssociatedOrganizationID sub; OrganizationID := OrganizationID sub;
  CostCenter := CostCenter sub; Labels := Labels sub; Headers := Headers sub;
  ModelRefs := ModelRefs sub; Phase := Phase sub; Ready := Ready sub;
  DeletionTimestamp := DeletionTimestamp sub;
  TokenRateLimitStatuses := TokenRateLimitStatuses sub;
  UseShortRateLimitID := UseShortRateLimitID sub; Objectives := Objectives sub;
|}.

(** [SelectResponse], the fields a selection sets. *)
Record SelectResponse := {
  resp_Name : string;
  resp_Namespace : string;
  resp_DisplayName : string;
  resp_Description : string;
  resp_Priority : Z;
  resp_ModelRefs : list ModelRefInfo;
  resp_OrganizationID : string;
  resp_AssociatedOrganizationID : string;
  resp_CostCenter : string;
  resp_Labels : gmap string string;
  resp_Headers : gmap string (list string);
  ResolvedModel : string;
  RateLimitID : string;
  Objective : string;
  FairnessID : string;
  SelectedGuardrailChecks : option (gmap string bool);
  AccessAllowed : bool;
  resp_Phase : string;
  resp_Ready : bool;
  resp_DeletionTimestamp : string;
}.

(** [SubscriptionInfo]. *)
Record SubscriptionInfo := {
  SubscriptionIDHeader : string;
  info_Namespace : string;
  SubscriptionDescription : string;
  info_DisplayName : string;
  info_Priority : Z;
  info_ModelRefs : list ModelRefInfo;
  Roles : list string;
  info_OrganizationID : string;
  info_CostCenter : string;
  info_Labels : gmap string string;
  Owner : option SubjectInventory;
}.

(** [UsesShortRateLimitID]. *)
Definition UsesShortRateLimitID (identity : string) : bool :=
  String.eqb identity RateLimitIdentityShort.

Section Parse.
Context `{KA : K8sAccess}.
(** [parseSubscriptionHeaders]: decodes and validates the header annotation
    with [encoding/json] and [httpguts]. *)
Variable parseSubscriptionHeaders : string → Res string (gmap string (list string)).

Definition parse_limit (limitMap : JMap) : TokenRateLimit := {|
  Limit := default 0%Z (as_int64 (get "limit" limitMap));
  Window := string_or_empty (get "window" limitMap);
|}.

Definition parseModelRef (modelMap : JMap) : ModelRefInfo :=
  let limits :=
    match NestedSlice modelMap ["tokenRateLimits"] with
    | Some limits => map parse_limit (maps_of limits)
    | None => []
    end in
  {| ref_Name := string_or_empty (get "name" modelMap);
     ref_Namespace := string_or_empty (get "namespace" modelMap);
     ref_ModelName := ""; ref_DisplayName := ""; ref_Description := ""; ref_Source := "";
     TokenRateLimits := limits;
     Unlimited := default false (as_bool (get "unlimited" modelMap)) &&
                  match limits with [] => true | _ => false end;
     BillingRate :=
       match NestedMap modelMap ["billingRate"] with
       | Some billingRate => Some (string_or_empty (get "perToken" billingRate))
       | None => None
       end;
     Subjects := None |}.

(** The running maximum over one ref: [math.MaxInt64] for an unlimited model,
    otherwise the largest declared limit. *)
Definition max_limit_of (maxLimit : Z) (ref : ModelRefInfo) : Z :=
  let start := if Unlimited ref then int64_max else maxLimit in
  foldl (fun m trl => if (m <? Limit trl)%Z then Limit trl else m) start (TokenRateLimits ref).

Definition parse_groups (owner : JMap) : list string :=
  match NestedSlice owner ["groups"] with
  | Some groupsRaw => omap (fun g => as_string (get "name" g)) (maps_of groupsRaw)
  | None => []
  end.

Definition parse_priority (spec : JMap) : Z :=
  match NestedInt64 spec ["priority"] with
  | Some priority =>
      if ((0 <=? priority) && (priority <=? 2147483647))%Z then priority else 0
  | None => 0
  end%Z.

(** The precedence of the three places the identity scheme is written. *)
Definition choose_identity (spec status annotation : string) : string :=
  let identity := spec in
  let identity := if String.eqb identity "" then status else identity in
  if String.eqb identity "" then annotation else identity.

Definition parse_rate_limit_identity (obj : Object) : string :=
  choose_identity
    (default "" (NestedString (Fields obj) ["spec"; "rateLimitIdentity"]))
    (default "" (NestedString (Fields obj) ["status"; "rateLimitIdentity"]))
    (match GetAnnotations obj with
     | Some annotations => default "" (annotations !! AnnotationRateLimitIdentity)
     | None => ""
     end).

(** [parseTokenMetadata]: organization, cost center and labels. *)
Definition parseTokenMetadata (spec : JMap) : string * string * gmap string string :=
  match NestedMap spec ["tokenMetadata"] with
  | None => ("", "", ∅)
  | Some metadata =>
      (string_or_empty (get "organizationId" metadata),
       string_or_empty (get "costCenter" metadata),
       match as_map (get "labels" metadata) with
       | Some labelsRaw =>
           list_to_map (omap (fun kv => pair kv.1 <$> as_string (Some kv.2)) labelsRaw)
       | None => ∅
       end)
  end.

Definition flowControlReasonObjectiveConflict : string := "ObjectiveConflict".

(** [parseFlowControlStatuses]: later entries overwrite earlier ones. *)
Definition parseFlowControlStatuses (status : JMap) : gmap string string :=
  match NestedSlice status ["flowControlStatuses"] with
  | None => ∅
  | Some statuses =>
      foldl (fun acc m =>
        let namespace := string_or_empty (get "namespace" m) in
        let name := string_or_empty (get "name" m) in
        let objective := string_or_empty (get "objectiveName" m) in
        let reason := string_or_empty (get "reason" m) in
        if String.eqb name "" || String.eqb objective "" ||
           String.eqb reason flowControlReasonObjectiveConflict
        then acc
        else <[namespace +:+ "/" +:+ name := objective]> acc) ∅ (maps_of statuses)
  end.

(** The first condition of type [Ready] decides. *)
Fixpoint ready_condition (conditions : list JMap) : bool :=
  match conditions with
  | [] => false
  | c :: r =>
      if String.eqb (string_or_empty (get "type" c)) "Ready"
      then String.eqb (string_or_empty (get "status" c)) "True"
      else ready_condition r
  end.

Definition parse_trlp_status (m : JMap) : TokenRateLimitStatus := {|
  trlp_Model := string_or_empty (get "model" m);
  trlp_Name := string_or_empty (get "name" m);
  trlp_Namespace := string_or_empty (get "namespace" m);
  trlp_Ready := default false (as_bool (get "ready" m));
  trlp_Reason := string_or_empty (get "reason" m);
  trlp_Message := string_or_empty (get "message" m);
|}.

Inductive ParseErr := SpecNotFound | BadHeaders (e : string).

Definition parseSubscription (obj : Object) : Res ParseErr subscription :=
  match NestedMap (Fields obj) ["spec"] with
  | None => Err SpecNotFound
  | Some spec =>
  let annotations := GetAnnotations obj in
  headers <- map_err BadHeaders
    (match annotations with
     | Some a => parseSubscriptionHeaders (default "" (a !! AnnotationSubscriptionHeaders))
     | None => Ok ∅
     end) ;;
  let annotation key :=
    match annotations with Some a => default "" (a !! key) | None => "" end in
  let owner := NestedMap spec ["owner"] in
  let modelRefs :=
    match NestedSlice spec ["modelRefs"] with
    | Some l => map parseModelRef (maps_of l)
    | None => []
    end in
  let '(orgID, costCenter, labels) := parseTokenMetadata spec in
  let status := NestedMap (Fields obj) ["status"] in
  let of_status {A} (f : JMap → A) (zero : A) : A :=
    match status with Some st => f st | None => zero end in
  Ok {|
    sub_Object := None;
    Name := GetName obj;
    Namespace := GetNamespace obj;
    DisplayName := annotation AnnotationDisplayName;
    Description := annotation AnnotationDescription;
    Groups := match owner with Some o => parse_groups o | None => [] end;
    Users := match owner with
             | Some o => default [] (NestedStringSlice o ["users"])
             | None => []
             end;
    Priority := parse_priority spec;
    MaxLimit := foldl max_limit_of 0%Z modelRefs;
    AssociatedOrganizationID :=
      match NestedMap spec ["organization"] with
      | Some organization => string_or_empty (get "id" organization)
      | None => ""
      end;
    OrganizationID := orgID;
    CostCenter := costCenter;
    Labels := labels;
    Headers := headers;
    ModelRefs := modelRefs;
    Phase := of_status (fun st => match as_string (get "phase" st) with
                                  | Some phase => trim_space phase
                                  | None => ""
                                  end) "";
    Ready := of_status (fun st => match NestedSlice st ["conditions"] with
                                  | Some conditions => ready_condition (maps_of conditions)
                                  | None => false
                                  end) false;
    DeletionTimestamp :=
      match as_map (get "metadata" (Fields obj)) with
      | Some metadataMap =>
          match as_string (get "deletionTimestamp" metadataMap) with
          | Some ts => if String.eqb ts "" then None else Some ts
          | None => None
          end
      | None => None
      end;
    TokenRateLimitStatuses :=
      of_status (fun st => match NestedSlice st ["tokenRateLimitStatuses"] with
                           | Some l => map parse_trlp_status (maps_of l)
                           | None => []
                           end) [];
    UseShortRateLimitID := UsesShortRateLimitID (parse_rate_limit_identity obj);
    Objectives := of_status parseFlowControlStatuses ∅;
  |}
  end.

End Parse.

(** ** Conversions *)

Definition effectiveOrganizationID (sub : subscription) : string :=
  if negb (String.eqb (AssociatedOrganizationID sub) "")
  then AssociatedOrganizationID sub else OrganizationID sub.

Definition toResponse (sub : subscription) : SelectResponse := {|
  resp_Name := Name sub;
  resp_Namespace := Namespace sub;
  resp_DisplayName := DisplayName sub;
  resp_Description := Description sub;
  resp_Priority := Priority sub;
  resp_ModelRefs := ModelRefs sub;
  resp_OrganizationID := effectiveOrganizationID sub;
  resp_AssociatedOrganizationID := AssociatedOrganizationID sub;
  resp_CostCenter := CostCenter sub;
  resp_Labels := Labels sub;
  resp_Headers := Headers sub;
  ResolvedModel := ""; RateLimitID := ""; Objective := ""; FairnessID := "";
  SelectedGuardrailChecks := None;
  AccessAllowed := false;
  resp_Phase := Phase sub;
  resp_Ready := Ready sub;
  resp_DeletionTimestamp := default "" (DeletionTimestamp sub);
|}.

(** [resp.ModelRefs = refs]. *)
Definition resp_with_ModelRefs (r : SelectResponse) (refs : list ModelRefInfo) : SelectResponse := {|
  resp_Name := resp_Name r; resp_Namespace := resp_Namespace r;
  resp_DisplayName := resp_DisplayName r; resp_Description := resp_Description r;
  resp_Priority := resp_Priority r; resp_ModelRefs := refs;
  resp_OrganizationID := resp_OrganizationID r;
  resp_AssociatedOrganizationID := resp_AssociatedOrganizationID r;
  resp_CostCenter := resp_CostCenter r; resp_Labels := resp_Labels r;
  resp_Headers := resp_Headers r; ResolvedModel := ResolvedModel r;
  RateLimitID := RateLimitID r; Objective := Objective r; FairnessID := FairnessID r;
  SelectedGuardrailChecks := SelectedGuardrailChecks r;
  AccessAllowed := AccessAllowed r; resp_Phase := resp_Phase r; resp_Ready := resp_Ready r;
  resp_DeletionTimestamp := resp_DeletionTimestamp r;
|}.

Definition toSubscriptionInfo (sub : subscription) : SubscriptionInfo := {|
  SubscriptionIDHeader := Name sub;
  info_Namespace := "";
  SubscriptionDescription := Description sub;
  info_DisplayName := DisplayName sub;
  info_Priority := Priority sub;
  info_ModelRefs := ModelRefs sub;
  Roles := [];
  info_OrganizationID := effectiveOrganizationID sub;
  info_CostCenter := CostCenter sub;
  info_Labels := Labels sub;
  Owner := None;
|}.

Definition inventoryOrganizationID (sub : SelectResponse) : string :=
  if negb (String.eqb (resp_AssociatedOrganizationID sub) "")
  then resp_AssociatedOrganizationID sub else resp_OrganizationID sub.

Definition ResponseToSubscriptionInfo (sub : SelectResponse) : SubscriptionInfo := {|
  SubscriptionIDHeader := resp_Name sub;
  info_Namespace := resp_Namespace sub;
  SubscriptionDescription := resp_Description sub;
  info_DisplayName := resp_DisplayName sub;
  info_Priority := resp_Priority sub;
  info_ModelRefs := resp_ModelRefs sub;
  Roles := [];
  info_OrganizationID := inventoryOrganizationID sub;
  info_CostCenter := resp_CostCenter sub;
  info_Labels := resp_Labels sub;
  Owner := None;
|}.

(** ** Lemmas *)

Lemma max_limit_foldl_ge m trls :
  (m ≤ foldl (fun m trl => if (m <? Limit trl)%Z then Limit trl else m) m trls)%Z.
Proof.
  revert m. induction trls as [|t trls IH]; intros m; simpl; [lia|].
  destruct (Z.ltb_spec m (Limit t)); [etrans; [|apply IH]; lia|apply IH].
Qed.

Lemma max_limit_foldl_in m trls t :
  t ∈ trls →
  (Limit t ≤ foldl (fun m trl => if (m <? Limit trl)%Z then Limit trl else m) m trls)%Z.
Proof.
  intros Ht. revert m. induction Ht as [t trls|t t' trls Ht IH]; intros m; simpl; [|apply IH].
  etrans; [|apply max_limit_foldl_ge]. destruct (Z.ltb_spec m (Limit t)); lia.
Qed.

Lemma max_limit_foldl_upper m trls b :
  (m ≤ b)%Z → Forall (fun t => (Limit t ≤ b)%Z) trls →
  (foldl (fun m trl => if (m <? Limit trl)%Z then Limit trl else m) m trls ≤ b)%Z.
Proof.
  intros Hm HF. revert m Hm. induction HF as [|t trls Ht HF IH]; intros m Hm; simpl; [done|].
  destruct (m <? Limit t)%Z; by apply IH.
Qed.

Lemma max_limit_of_ge m ref : (m ≤ int64_max → m ≤ max_limit_of m ref)%Z.
Proof.
  intros Hm. unfold max_limit_of. etrans; [|apply max_limit_foldl_ge]. by destruct (Unlimited ref).
Qed.

(** Every limit is an [int64], as the decoder delivers it. *)
Definition limits_int64 (ref : ModelRefInfo) : Prop :=
  Forall (fun t => (Limit t ≤ int64_max)%Z) (TokenRateLimits ref).

Lemma max_limit_of_upper m ref : limits_int64 ref → (m ≤ int64_max → max_limit_of m ref ≤ int64_max)%Z.
Proof.
  intros Hl Hm. apply max_limit_foldl_upper; [by destruct (Unlimited ref)|done].
Qed.

Lemma max_limits_ge m refs :
  Forall limits_int64 refs → (m ≤ int64_max)%Z →
  (m ≤ foldl max_limit_of m refs ≤ int64_max)%Z.
Proof.
  intros HF. revert m. induction HF as [|ref refs Hr HF IH]; intros m Hm; simpl; [lia|].
  pose proof (max_limit_of_ge m ref Hm). pose proof (max_limit_of_upper m ref Hr Hm).
  specialize (IH (max_limit_of m ref)). lia.
Qed.

(** The running maximum dominates each ref: [int64_max] for an unlimited one,
    its own limits otherwise. *)
Lemma max_limits_dominates m refs ref :
  Forall limits_int64 refs → (m ≤ int64_max)%Z → ref ∈ refs →
  (Unlimited ref = true → foldl max_limit_of m refs = int64_max)
  ∧ (∀ t, t ∈ TokenRateLimits ref → (Limit t ≤ foldl max_limit_of m refs)%Z).
Proof.
  intros HF Hm Hin. revert m Hm. induction Hin as [ref refs|ref ref' refs Hin IH]; intros m Hm;
    apply Forall_cons in HF as [Hr HF]; simpl.
  - pose proof (max_limits_ge (max_limit_of m ref) refs HF (max_limit_of_upper m ref Hr Hm)) as Hb.
    split.
    + intros Hu. assert (int64_max ≤ max_limit_of m ref)%Z; [|lia].
      unfold max_limit_of. rewrite Hu. apply max_limit_foldl_ge.
    + intros t Ht. etrans; [|apply Hb]. by apply max_limit_foldl_in.
  - apply IH; [done|]. by apply max_limit_of_upper.
Qed.

Lemma parse_priority_range `{KA : K8sAccess} spec : (0 ≤ parse_priority spec ≤ int32_max)%Z.
Proof.
  unfold parse_priority, int32_max. destruct (NestedInt64 spec _) as [p|]; [|lia].
  destruct ((0 <=? p) && (p <=? 2147483647))%Z eqn:E; bool_hyps; lia.
Qed.

Lemma parse_ref_unlimited `{KA : K8sAccess} m :
  Unlimited (parseModelRef m) = true → TokenRateLimits (parseModelRef m) = [].
Proof.
  unfold parseModelRef. cbn [Unlimited TokenRateLimits]. intros [_ H]%andb_true_iff.
  by destruct (match NestedSlice _ _ with Some _ => _ | None => _ end).
Qed.

(** Whatever the fields of the object hold, a parsed subscription is well
    formed: its priority fits the CRD's int32 range, an unlimited model
    carries no limits, [MaxLimit] is non-negative, bounds every declared
    limit and is [math.MaxInt64] as soon as one model is unlimited, and a
    recorded deletion timestamp is never empty. *)
Theorem parsed_subscription_bounds `{KA : K8sAccess} headers obj sub :
  parseSubscription headers obj = Ok sub →
  Forall limits_int64 (ModelRefs sub) →
  (0 ≤ Priority sub ≤ int32_max)%Z
  ∧ (0 ≤ MaxLimit sub ≤ int64_max)%Z
  ∧ (∀ ref, ref ∈ ModelRefs sub →
       (Unlimited ref = true → TokenRateLimits ref = [] ∧ MaxLimit sub = int64_max)
       ∧ (∀ t, t ∈ TokenRateLimits ref → (Limit t ≤ MaxLimit sub)%Z))
  ∧ DeletionTimestamp sub ≠ Some "".
Proof.
  unfold parseSubscription. destruct (NestedMap (Fields obj) ["spec"]) as [spec|]; [|done].
  intros (hs & _ & E)%res_bind_ok. destruct (parseTokenMetadata spec) as [[org cc] labels].
  injection E as <-. cbn [ModelRefs Priority MaxLimit DeletionTimestamp].
  set (refs := match NestedSlice spec ["modelRefs"] with Some _ => _ | None => _ end).
  intros HF. split_and!.
  - apply parse_priority_range.
  - apply parse_priority_range.
  - by apply (max_limits_ge 0 refs HF).
  - by apply (max_limits_ge 0 refs HF).
  - intros ref Hin. destruct (max_limits_dominates 0 refs ref HF) as [Hu Hl]; [done..|].
    split; [|done]. intros Hun. split; [|by apply Hu].
    unfold refs in Hin. destruct (NestedSlice spec _) as [l|]; [|by apply not_elem_of_nil in Hin].
    apply list_elem_of_fmap in Hin as (m & -> & _). by apply parse_ref_unlimited.
  - split_cases. by intros [= ->].
Qed.

Definition unlimited_object : Object :=
  mkObject [("spec", JObj [("priority", JInt (-3));
    ("modelRefs", JArr [JObj [("name", JStr "m"); ("unlimited", JBool true)]])])].

Lemma parsed_subscription_bounds_witness :
  ∃ sub, parseSubscription (KA:=documented_access) (fun _ => Ok ∅) unlimited_object = Ok sub
    ∧ (0 ≤ Priority sub ≤ int32_max)%Z.
Proof.
  destruct (parseSubscription (KA:=documented_access) (fun _ => Ok ∅) unlimited_object) as [sub|] eqn:E;
    [|by vm_compute in E].
  exists sub. split; [done|].
  apply (parsed_subscription_bounds (KA:=documented_access) (fun _ => Ok ∅) unlimited_object sub E).
  vm_compute in E. injection E as <-. cbn [ModelRefs]. repeat constructor.
Defined.

End Subscription.
