(* ===== verification/RateLimitId.v ===== *)
(** * RateLimitId: the rate-limit identity shared by maas-api and maas-controller

    [maas-api/internal/subscription/ratelimit_id.go] returns an identity for a
    selected subscription; [maas-controller/.../subscription_ratelimit_id.go]
    writes the identity the gateway policy matches.  The two live in separate
    Go modules and must agree. *)

From S2P Require Import Prelude GoStrings Sha256 Unstructured Subscription.
From Stdlib Require String.
Local Open Scope string_scope.

Module Api.

(** [ModelScopedKey] of maas-api. *)
Definition ModelScopedKey (subNamespace subName modelNamespace modelName : string) : string :=
  subNamespace +:+ "/" +:+ subName +:+ "@" +:+ modelNamespace +:+ "/" +:+ modelName.

(** [hex.EncodeToString(sum[:8])]. *)
Definition short_digest (s : string) : string := hex_encode (take 8 (Sha256.sum256 (to_bytes s))).

Definition RateLimitID (modelScopedKey : string) : string :=
  if String.eqb modelScopedKey "" then "" else short_digest modelScopedKey.

Definition RateLimitIDFor (subNamespace subName resolvedModel : string) : string :=
  if String.eqb subNamespace "" || String.eqb subName "" || String.eqb resolvedModel ""
  then ""
  else RateLimitID (subNamespace +:+ "/" +:+ subName +:+ "@" +:+ resolvedModel).

End Api.

Module Controller.

Definition RateLimitIdentityShort : string := "short".
Definition RateLimitIdentityLegacy : string := "legacy".
Definition maasSubscriptionFinalizer : string := "maas.opendatahub.io/subscription-cleanup".

Definition ModelScopedSubscriptionKey (subNamespace subName modelNamespace modelName : string) : string :=
  subNamespace +:+ "/" +:+ subName +:+ "@" +:+ modelNamespace +:+ "/" +:+ modelName.

Definition SubscriptionRateLimitID (modelScopedKey : string) : string :=
  hex_encode (take 8 (Sha256.sum256 (to_bytes modelScopedKey))).

Definition recognizedRateLimitIdentity (v : string) : bool :=
  String.eqb v RateLimitIdentityShort || String.eqb v RateLimitIdentityLegacy.

(** The fields of a MaaSSubscription the classification reads; a creation time
    of [None] is the zero time. *)
Record SubMeta := {
  spec_RateLimitIdentity : string;
  status_RateLimitIdentity : string;
  annotation_RateLimitIdentity : string;
  Finalizers : list string;
  status_Phase : string;
  n_Conditions : nat;
  CreationTimestamp : option Z;
}.

(** [classifiedRateLimitIdentity]; [rateLimitIdentityEpoch] is the process start. *)
Definition classifiedRateLimitIdentity (rateLimitIdentityEpoch : Z) (sub : option SubMeta) : string :=
  match sub with
  | None => RateLimitIdentityLegacy
  | Some sub =>
      if recognizedRateLimitIdentity (spec_RateLimitIdentity sub)
      then spec_RateLimitIdentity sub
      else if recognizedRateLimitIdentity (status_RateLimitIdentity sub)
      then status_RateLimitIdentity sub
      else if recognizedRateLimitIdentity (annotation_RateLimitIdentity sub)
      then annotation_RateLimitIdentity sub
      else if bool_decide (maasSubscriptionFinalizer ∈ Finalizers sub)
      then RateLimitIdentityLegacy
      else if String.eqb (status_Phase sub) "" && (n_Conditions sub =? 0)%nat
      then RateLimitIdentityShort
      else match CreationTimestamp sub with
           | None => RateLimitIdentityLegacy
           | Some created =>
               if (created <? rateLimitIdentityEpoch)%Z
               then RateLimitIdentityLegacy else RateLimitIdentityShort
           end
  end.

(** The reconciler persists the classification on status before any policy work. *)
Definition persist_identity (epoch : Z) (sub : SubMeta) : SubMeta := {|
  spec_RateLimitIdentity := spec_RateLimitIdentity sub;
  status_RateLimitIdentity := classifiedRateLimitIdentity epoch (Some sub);
  annotation_RateLimitIdentity := annotation_RateLimitIdentity sub;
  Finalizers :=
    if bool_decide (maasSubscriptionFinalizer ∈ Finalizers sub)
    then Finalizers sub else Finalizers sub ++ [maasSubscriptionFinalizer];
  status_Phase := status_Phase sub;
  n_Conditions := n_Conditions sub;
  CreationTimestamp := CreationTimestamp sub;
|}.

End Controller.

(** The identity string maas-api reads from the same object
    (the precedence of [parseSubscription]). *)
Definition api_identity (sub : Controller.SubMeta) : string :=
  Subscription.choose_identity (Controller.spec_RateLimitIdentity sub)
    (Controller.status_RateLimitIdentity sub) (Controller.annotation_RateLimitIdentity sub).

Definition api_UseShort (sub : Controller.SubMeta) : bool :=
  Subscription.UsesShortRateLimitID (api_identity sub).

Lemma classified_recognized epoch sub :
  Controller.recognizedRateLimitIdentity (Controller.classifiedRateLimitIdentity epoch sub) = true.
Proof.
  unfold Controller.classifiedRateLimitIdentity. destruct sub as [sub|]; [|done].
  repeat case_match; try done.
Qed.

Lemma recognized_cases v :
  Controller.recognizedRateLimitIdentity v = true →
  v = Controller.RateLimitIdentityShort ∨ v = Controller.RateLimitIdentityLegacy.
Proof.
  unfold Controller.recognizedRateLimitIdentity. intros [H|H]%orb_true_iff;
    apply String.eqb_eq in H; auto.
Qed.

(** ** Properties *)

(** the identity maas-api returns for a selected subscription and its
    resolved [namespace/name] is the identity the controller's policy matches
    for the same pair, so a selected request meets its own limit. *)
Theorem rate_limit_ids_agree (subNs sub modelNs model : string) :
  subNs ≠ "" → sub ≠ "" →
  Api.RateLimitIDFor subNs sub (modelNs +:+ "/" +:+ model) =
  Controller.SubscriptionRateLimitID
    (Controller.ModelScopedSubscriptionKey subNs sub modelNs model).
Proof.
  intros Hns%String.eqb_neq Hs%String.eqb_neq.
  unfold Api.RateLimitIDFor, Api.RateLimitID, Controller.SubscriptionRateLimitID,
    Controller.ModelScopedSubscriptionKey, Api.short_digest.
  rewrite Hns, Hs. destruct modelNs, subNs; done.
Qed.

(** once the controller has persisted its classification on status, maas-api
    reads the same scheme from the object (short id or legacy key), and
    classifying again returns the persisted value whatever the epoch: the
    scheme is sticky across controller restarts.  The hypothesis is the CRD's
    enumeration of [spec.rateLimitIdentity]. *)
Theorem identity_scheme_agrees (epoch epoch' : Z) (sub : Controller.SubMeta) :
  Controller.spec_RateLimitIdentity sub = "" ∨
  Controller.recognizedRateLimitIdentity (Controller.spec_RateLimitIdentity sub) = true →
  let sub' := Controller.persist_identity epoch sub in
  api_UseShort sub' =
    String.eqb (Controller.classifiedRateLimitIdentity epoch (Some sub))
      Controller.RateLimitIdentityShort ∧
  Controller.classifiedRateLimitIdentity epoch' (Some sub') =
    Controller.classifiedRateLimitIdentity epoch (Some sub).
Proof.
  intros Hspec sub'. pose proof (classified_recognized epoch (Some sub)) as Hrec.
  unfold api_UseShort, api_identity, Subscription.choose_identity, Subscription.UsesShortRateLimitID. subst sub'.
  unfold Controller.persist_identity.
  remember (Controller.classifiedRateLimitIdentity epoch (Some sub)) as c eqn:Hc.
  unfold Controller.classifiedRateLimitIdentity in Hc |- *.
  cbn [Controller.spec_RateLimitIdentity Controller.status_RateLimitIdentity
       Controller.annotation_RateLimitIdentity].
  destruct Hspec as [Hs|Hs].
  - rewrite Hs. cbn [String.eqb Controller.recognizedRateLimitIdentity orb]. rewrite Hrec.
    by destruct (recognized_cases _ Hrec) as [-> | ->].
  - rewrite Hs in Hc |- *. rewrite Hc. by destruct (recognized_cases _ Hs) as [-> | ->].
Qed.

Lemma rate_limit_ids_agree_witness :
  Api.RateLimitIDFor "models-as-a-service" "gold" ("llm" +:+ "/" +:+ "granite") =
  Controller.SubscriptionRateLimitID
    (Controller.ModelScopedSubscriptionKey "models-as-a-service" "gold" "llm" "granite").
Proof. apply rate_limit_ids_agree; discriminate. Defined.

Definition sample_meta : Controller.SubMeta := {|
  Controller.spec_RateLimitIdentity := "";
  Controller.status_RateLimitIdentity := "";
  Controller.annotation_RateLimitIdentity := "";
  Controller.Finalizers := [];
  Controller.status_Phase := "Active";
  Controller.n_Conditions := 1;
  Controller.CreationTimestamp := Some 5%Z;
|}.

Lemma identity_scheme_agrees_witness :
  api_UseShort (Controller.persist_identity 9 sample_meta) =
    String.eqb (Controller.classifiedRateLimitIdentity 9 (Some sample_meta))
      Controller.RateLimitIdentityShort ∧
  Controller.classifiedRateLimitIdentity 2 (Some (Controller.persist_identity 9 sample_meta)) =
    Controller.classifiedRateLimitIdentity 9 (Some sample_meta).
Proof. apply (identity_scheme_agrees 9 2 sample_meta). left. reflexivity. Defined.
