(* ===== verification/Selector.v ===== *)
(** * Selector: subscription selection for inference and key minting

    Models [maas-api/internal/subscription/selector.go]: matching a requested
    model against a subscription, the health gate, the explicit and automatic
    selection of [SelectWithContext], and [SelectHighestPriority], which binds
    a new API key.  The informer caches (subscriptions and model refs), the
    model-access checker and the guardrail resolver are the fields of
    [Selector]; a request sees one snapshot of each cache. *)

From S2P Require Import Prelude GoStrings Unstructured Subscription RateLimitId.
From Stdlib Require String.
Local Open Scope string_scope.

Module Selector.
Import Subscription.

(** [map[authpolicy.ModelKey]bool]; an absent key reads [false]. *)
Notation AuthorizedSet := (gmap ModelKey bool).
Definition authorized (s : AuthorizedSet) (k : ModelKey) : bool := default false (s !! k).

(** [models.MaaSModelRefLister], with the optional [ResourceGetter] method. *)
Record ModelLister := {
  ml_List : Res string (list Object);
  ml_Get : option (string → string → Res string Object);
}.

Record Selector := {
  lister : Res string (list Object);
  modelLister : option ModelLister;
  accessChecker : option (list string → string → Res string (option AuthorizedSet));
  guardrailResolver : option (option Object → Object → Res string (gmap string bool));
  tenantName : string;
  subscriptionNamespace : string;
}.

Inductive SelErr :=
| IdentityMissing
| LoadFailed (cause : string)
| AuthorizationFailed (cause : string)
| AuthorizationNil
| NoSubscriptionError
| SubscriptionNotFoundError (sub : string)
| AccessDeniedError (sub : string)
| MultipleSubscriptionsError (subs : list string)
| ModelNotInSubscriptionError (sub model : string)
| ModelUnhealthyError (sub phase reason message : string)
| GuardrailResolutionError (cause : string).

Section Selector.
Context `{GR : GoRuntime} `{KA : K8sAccess}.
Variable parseSubscriptionHeaders : string → Res string (gmap string (list string)).

(** ** Authorization *)

(** [authorizedModels]: [None] means that no checker is configured. *)
Definition authorizedModels (s : Selector) (groups : list string) (username : string)
    : Res SelErr (option AuthorizedSet) :=
  match accessChecker s with
  | None => Ok None
  | Some check =>
      match check groups username with
      | Err e => Err (AuthorizationFailed e)
      | Ok None => Err AuthorizationNil
      | Ok (Some a) => Ok (Some a)
      end
  end.

Definition filterAuthorizedModels (refs : list ModelRefInfo) (authorizedSet : AuthorizedSet)
    : list ModelRefInfo :=
  filter (fun ref => authorized authorizedSet (ref_key ref) = true) refs.

Definition authorizedSelectionSubscription (sub : subscription) (authorizedSet : option AuthorizedSet)
    : subscription :=
  match authorizedSet with
  | None => sub
  | Some a => with_ModelRefs sub (filterAuthorizedModels (ModelRefs sub) a)
  end.

(** ** Loading *)

(** [buildModelIndex]: the last object with a key wins. *)
Definition buildModelIndex (s : Selector) : option (gmap string Object) :=
  match modelLister s with
  | None => None
  | Some ml =>
      match ml_List ml with
      | Err _ => None
      | Ok items =>
          Some (foldl (fun index u => <[GetNamespace u +:+ "/" +:+ GetName u := u]> index) ∅ items)
      end
  end.

Definition enrichModelRef (index : gmap string Object) (ref : ModelRefInfo) : ModelRefInfo :=
  match index !! (ref_Namespace ref +:+ "/" +:+ ref_Name ref) with
  | None => ref
  | Some u =>
      let kind := default "" (NestedString (Fields u) ["spec"; "modelRef"; "kind"]) in
      {| ref_Name := ref_Name ref;
         ref_Namespace := ref_Namespace ref;
         ref_ModelName :=
           match NestedString (Fields u) ["status"; "resolvedModelAlias"] with
           | Some alias => if String.eqb alias "" then ref_ModelName ref else alias
           | None => ref_ModelName ref
           end;
         ref_DisplayName :=
           match GetAnnotations u with
           | Some a => default "" (a !! AnnotationDisplayName)
           | None => ref_DisplayName ref
           end;
         ref_Description :=
           match GetAnnotations u with
           | Some a => default "" (a !! AnnotationDescription)
           | None => ref_Description ref
           end;
         ref_Source :=
           if String.eqb kind "ExternalModel" then "external"
           else if String.eqb kind "LLMInferenceService" then "internal"
           else ref_Source ref;
         TokenRateLimits := TokenRateLimits ref;
         Unlimited := Unlimited ref;
         BillingRate := BillingRate ref;
         Subjects := Subjects ref |}
  end.

Definition enrichModelRefs (refs : list ModelRefInfo) (index : option (gmap string Object))
    : list ModelRefInfo :=
  match index with None => refs | Some index => map (enrichModelRef index) refs end.

(** [loadSubscriptions]: objects that do not parse are skipped. *)
Definition loadSubscriptions (s : Selector) : Res string (list subscription) :=
  objects <- lister s ;;
  let modelIndex := buildModelIndex s in
  Ok (omap (fun obj =>
        match parseSubscription parseSubscriptionHeaders obj with
        | Err _ => None
        | Ok sub => Some (with_Object
            (with_ModelRefs sub (enrichModelRefs (ModelRefs sub) modelIndex)) obj)
        end) objects).

(** [resolveModelAlias]: rewrites to the one model ref that carries the alias;
    unchanged when none or several do. *)
Fixpoint resolve_alias_scan (requestedModel resolved : string) (items : list Object) : option string :=
  match items with
  | [] => Some resolved
  | u :: r =>
      match NestedString (Fields u) ["status"; "resolvedModelAlias"] with
      | Some alias =>
          if String.eqb alias requestedModel then
            if String.eqb resolved "" then
              resolve_alias_scan requestedModel (GetNamespace u +:+ "/" +:+ GetName u) r
            else None
          else resolve_alias_scan requestedModel resolved r
      | None => resolve_alias_scan requestedModel resolved r
      end
  end.

Definition resolveModelAlias (s : Selector) (requestedModel : string) : string :=
  match modelLister s with
  | None => requestedModel
  | Some ml =>
      if String.eqb requestedModel "" then requestedModel else
      match ml_List ml with
      | Err _ => requestedModel
      | Ok items =>
          match resolve_alias_scan requestedModel "" items with
          | None => requestedModel
          | Some resolved => if String.eqb resolved "" then requestedModel else resolved
          end
      end
  end.

(** ** Matching *)

Definition subscriptionIsDeleting (sub : subscription) : bool :=
  match DeletionTimestamp sub with Some _ => true | None => false end.

(** [slices.Contains]. *)
Definition contains (l : list string) (x : string) : bool := bool_decide (x ∈ l).

Definition userHasAccess (sub : subscription) (username : string) (groups : list string) : bool :=
  contains (Users sub) username || existsb (contains groups) (Groups sub).

(** The pair's namespace plus the resolved alias; [Err tt] is the ambiguous case. *)
Fixpoint alias_scan (ns alias : string) (aliasMatch : option ModelRefInfo) (refs : list ModelRefInfo)
    : Res unit (option ModelRefInfo) :=
  match refs with
  | [] => Ok aliasMatch
  | ref :: r =>
      if String.eqb (ref_ModelName ref) "" || negb (String.eqb (ref_Namespace ref) ns)
         || negb (String.eqb (ref_ModelName ref) alias)
      then alias_scan ns alias aliasMatch r
      else match aliasMatch with
           | Some m => if negb (String.eqb (ref_Name m) (ref_Name ref)) then Err tt
                       else alias_scan ns alias (Some ref) r
           | None => alias_scan ns alias (Some ref) r
           end
  end.

Definition raw_match (requestedModel : string) (ref : ModelRefInfo) : bool :=
  negb (String.eqb (ref_ModelName ref) "") && String.eqb (ref_ModelName ref) requestedModel
  || String.eqb (ref_Name ref) requestedModel.

Definition exact_match (ns name : string) (ref : ModelRefInfo) : bool :=
  String.eqb (ref_Namespace ref) ns && String.eqb (ref_Name ref) name.

Definition findModelRef (sub : subscription) (requestedModel : string) : option ModelRefInfo :=
  let by_raw := List.find (raw_match requestedModel) (ModelRefs sub) in
  match cut "/" requestedModel with
  | None => by_raw
  | Some (ns, name) =>
      match List.find (exact_match ns name) (ModelRefs sub) with
      | Some ref => Some ref
      | None =>
          match alias_scan ns name None (ModelRefs sub) with
          | Err _ => None
          | Ok (Some ref) => Some ref
          | Ok None => by_raw
          end
      end
  end.

Definition subscriptionIncludesModel (sub : subscription) (requestedModel : string) : bool :=
  if String.eqb requestedModel "" then true
  else match findModelRef sub requestedModel with Some _ => true | None => false end.

Definition isResolvedModelAuthorized (sub : subscription) (requestedModel : string)
    (authorizedSet : option AuthorizedSet) : bool :=
  if String.eqb requestedModel "" then true else
  match authorizedSet with
  | None => false
  | Some a =>
      let by_resolution :=
        match findModelRef (authorizedSelectionSubscription sub authorizedSet) requestedModel with
        | None => false
        | Some ref => authorized a (ref_key ref)
        end in
      match cut "/" requestedModel with
      | Some (ns, name) =>
          if existsb (exact_match ns name) (ModelRefs sub)
          then authorized a (mkModelKey ns name)
          else by_resolution
      | None => by_resolution
      end
  end.

(** ** Health gate *)

Definition needs_trlp (ref : ModelRefInfo) : bool :=
  Unlimited ref || match TokenRateLimits ref with [] => false | _ => true end.

Definition unhealthy (sub : subscription) (reason message : string) : SelErr :=
  ModelUnhealthyError (Name sub) (Phase sub) reason message.

Definition checkModelHealth (sub : subscription) (requestedModel : string) : Res SelErr unit :=
  if String.eqb requestedModel "" then
    reject unhealthy sub "SubscriptionNotReady" "subscription is unreconciled (no status.phase set)"
      when String.eqb (Phase sub) "" ;;
    reject unhealthy sub "SubscriptionNotReady" "subscription is in Failed phase (cannot create API keys)"
      when String.eqb (Phase sub) PhaseFailed ;;
    Ok tt
  else
    reject unhealthy sub "SubscriptionNotReady"
        ("subscription is in " +:+
         (if String.eqb (Phase sub) "" then "unreconciled" else Phase sub) +:+
         " phase (allowed: Active, Degraded)")
      when negb (String.eqb (Phase sub) PhaseActive) && negb (String.eqb (Phase sub) PhaseDegraded) ;;
    if negb (String.eqb (Phase sub) PhaseDegraded) then Ok tt else
    match findModelRef sub requestedModel with
    | None => Err (unhealthy sub "InvalidModelFormat"
                     "requested model does not match any model in the subscription")
    | Some ref =>
        if negb (needs_trlp ref) then Ok tt else
        match List.find (fun trlp => String.eqb (trlp_Model trlp) (ref_Name ref))
                (TokenRateLimitStatuses sub) with
        | Some trlp =>
            reject unhealthy sub "RateLimitNotEnforced"
                "subscription rate limiting policies are not ready"
              when negb (trlp_Ready trlp) ;;
            Ok tt
        | None => Err (unhealthy sub "RateLimitNotEnforced"
                         "subscription rate limiting policies are not ready")
        end
    end.

(** ** Building the response *)

Definition toResponseWithResolvedModel (s : Selector) (sub : subscription) (resolvedModel : string)
    : SelectResponse :=
  let ref := findModelRef sub resolvedModel in
  let resolved := match ref with
                  | Some ref => ref_Namespace ref +:+ "/" +:+ ref_Name ref
                  | None => resolvedModel
                  end in
  let r := toResponse sub in
  {| resp_Name := resp_Name r; resp_Namespace := resp_Namespace r;
     resp_DisplayName := resp_DisplayName r; resp_Description := resp_Description r;
     resp_Priority := resp_Priority r; resp_ModelRefs := resp_ModelRefs r;
     resp_OrganizationID := resp_OrganizationID r;
     resp_AssociatedOrganizationID := resp_AssociatedOrganizationID r;
     resp_CostCenter := resp_CostCenter r; resp_Labels := resp_Labels r;
     resp_Headers := resp_Headers r;
     ResolvedModel := resolved;
     RateLimitID := if UseShortRateLimitID sub
                    then Api.RateLimitIDFor (Namespace sub) (Name sub) resolved else "";
     Objective := match ref with Some _ => default "" (Objectives sub !! resolved) | None => "" end;
     FairnessID := tenantName s;
     SelectedGuardrailChecks := None;
     AccessAllowed := false;
     resp_Phase := resp_Phase r; resp_Ready := resp_Ready r;
     resp_DeletionTimestamp := resp_DeletionTimestamp r |}.

(** [resp.AccessAllowed = allowed; resp.ModelRefs = refs; resp.SelectedGuardrailChecks = checks]. *)
Definition resp_decide (r : SelectResponse) (allowed : bool) (refs : list ModelRefInfo)
    (checks : option (gmap string bool)) : SelectResponse := {|
  resp_Name := resp_Name r; resp_Namespace := resp_Namespace r;
  resp_DisplayName := resp_DisplayName r; resp_Description := resp_Description r;
  resp_Priority := resp_Priority r; resp_ModelRefs := refs;
  resp_OrganizationID := resp_OrganizationID r;
  resp_AssociatedOrganizationID := resp_AssociatedOrganizationID r;
  resp_CostCenter := resp_CostCenter r; resp_Labels := resp_Labels r;
  resp_Headers := resp_Headers r; ResolvedModel := ResolvedModel r;
  RateLimitID := RateLimitID r; Objective := Objective r; FairnessID := FairnessID r;
  SelectedGuardrailChecks := checks; AccessAllowed := allowed;
  resp_Phase := resp_Phase r; resp_Ready := resp_Ready r;
  resp_DeletionTimestamp := resp_DeletionTimestamp r;
|}.

Definition buildAuthorizedResponse (s : Selector) (sub : subscription) (requestedModel : string)
    (authorizedSet : option AuthorizedSet) : Res SelErr SelectResponse :=
  let selectionSub := authorizedSelectionSubscription sub authorizedSet in
  let resp := toResponseWithResolvedModel s selectionSub requestedModel in
  let allowed := isResolvedModelAuthorized sub requestedModel authorizedSet in
  let refs := match authorizedSet with
              | Some a => filterAuthorizedModels (resp_ModelRefs resp) a
              | None => resp_ModelRefs resp
              end in
  let resp := resp_decide resp allowed refs None in
  if match authorizedSet with None => true | Some _ => false end || allowed
     || String.eqb requestedModel ""
  then (_ <- checkModelHealth selectionSub requestedModel ;; Ok resp)
  else Ok resp.

Definition modelByKey (s : Selector) (namespace name : string) : Res string Object :=
  match modelLister s with
  | None => Err "MaaSModelRef lister is not configured"
  | Some ml =>
      match ml_Get ml with
      | Some getter => getter namespace name
      | None =>
          items <- ml_List ml ;;
          match List.find (fun item => String.eqb (GetNamespace item) namespace
                                       && String.eqb (GetName item) name) items with
          | Some item => Ok item
          | None => Err "MaaSModelRef not found"
          end
      end
  end.

Definition completeSelection (s : Selector) (sub : subscription) (requestedModel : string)
    (authorizedSet : option AuthorizedSet) : Res SelErr SelectResponse :=
  response <- buildAuthorizedResponse s sub requestedModel authorizedSet ;;
  if String.eqb requestedModel "" || negb (AccessAllowed response) then Ok response else
  match guardrailResolver s with
  | None => Ok response
  | Some resolver =>
      let selectionSub := authorizedSelectionSubscription sub authorizedSet in
      match findModelRef selectionSub requestedModel with
      | None => Err (GuardrailResolutionError "selected model is not in subscription")
      | Some modelRef =>
          model <- map_err GuardrailResolutionError
                     (modelByKey s (ref_Namespace modelRef) (ref_Name modelRef)) ;;
          checks <- map_err GuardrailResolutionError (resolver (sub_Object sub) model) ;;
          Ok (resp_decide response (AccessAllowed response) (resp_ModelRefs response) (Some checks))
      end
  end.

(** ** Selection *)

(** priority descending, then largest limit descending, then name ascending. *)
Definition priority_less (a b : subscription) : bool :=
  if negb (Priority a =? Priority b)%Z then (Priority b <? Priority a)%Z
  else if negb (MaxLimit a =? MaxLimit b)%Z then (MaxLimit b <? MaxLimit a)%Z
  else str_ltb (Name a) (Name b).
Definition sortSubscriptionsByPriority (subs : list subscription) : list subscription :=
  isort priority_less subs.

(** One pass of [selectExplicit]: the first live subscription that matches. *)
Fixpoint select_first (s : Selector) (matches : subscription → bool)
    (requestedSubscription requestedModel username : string) (groups : list string)
    (authorizedSet : option AuthorizedSet) (subs : list subscription)
    : option (Res SelErr SelectResponse) :=
  match subs with
  | [] => None
  | sub :: r =>
      if matches sub && negb (subscriptionIsDeleting sub) then
        Some (
          reject AccessDeniedError requestedSubscription
            when negb (userHasAccess sub username groups) ;;
          reject ModelNotInSubscriptionError requestedSubscription requestedModel
            when negb (String.eqb requestedModel "")
                 && match authorizedSet with None => true | Some _ => false end
                 && negb (subscriptionIncludesModel sub requestedModel) ;;
          completeSelection s sub requestedModel authorizedSet)
      else select_first s matches requestedSubscription requestedModel username groups authorizedSet r
  end.

Definition selectExplicit (s : Selector) (subscriptions : list subscription)
    (requestedSubscription requestedModel username : string) (groups : list string)
    (authorizedSet : option AuthorizedSet) : Res SelErr SelectResponse :=
  let pass m := select_first s m requestedSubscription requestedModel username groups
                  authorizedSet subscriptions in
  match pass (fun sub => String.eqb (Namespace sub +:+ "/" +:+ Name sub) requestedSubscription) with
  | Some r => r
  | None =>
      match (if contains_char "/" requestedSubscription then None
             else pass (fun sub => String.eqb (Name sub) requestedSubscription)) with
      | Some r => r
      | None => Err (SubscriptionNotFoundError requestedSubscription)
      end
  end.

(** The candidates of automatic selection. *)
Definition accessible_for (username : string) (groups : list string) (requestedModel : string)
    (authorizedSet : option AuthorizedSet) (sub : subscription) : bool :=
  negb (subscriptionIsDeleting sub) && userHasAccess sub username groups &&
  negb (negb (String.eqb requestedModel "") &&
        negb (subscriptionIncludesModel sub requestedModel) &&
        negb (subscriptionIncludesModel (authorizedSelectionSubscription sub authorizedSet)
                requestedModel)).

Definition select_auto (s : Selector) (subscriptions : list subscription)
    (requestedModel username : string) (groups : list string)
    (authorizedSet : option AuthorizedSet) : Res SelErr SelectResponse :=
  let accessibleSubs :=
    filter (fun sub => accessible_for username groups requestedModel authorizedSet sub = true)
      subscriptions in
  let authorizedSubs :=
    filter (fun sub => isResolvedModelAuthorized sub requestedModel authorizedSet = true)
      accessibleSubs in
  let by_model := negb (String.eqb requestedModel "") &&
                  match authorizedSet with Some _ => true | None => false end in
  reject AccessDeniedError ""
    when by_model && match accessibleSubs, authorizedSubs with _ :: _, [] => true | _, _ => false end ;;
  let candidates := if by_model then authorizedSubs else accessibleSubs in
  match candidates with
  | [] => Err NoSubscriptionError
  | [sub] => completeSelection s sub requestedModel authorizedSet
  | _ => Err (MultipleSubscriptionsError (map Name candidates))
  end.

Definition SelectWithContext (s : Selector) (groups : list string) (username : string)
    (requestedSubscription requestedModel : string) : Res SelErr SelectResponse :=
  reject IdentityMissing
    when match groups with [] => true | _ => false end && String.eqb username "" ;;
  let requestedModel := resolveModelAlias s requestedModel in
  subscriptions <- map_err LoadFailed (loadSubscriptions s) ;;
  reject NoSubscriptionError when match subscriptions with [] => true | _ => false end ;;
  let subscriptions := sortSubscriptionsByPriority subscriptions in
  authorizedSet <- authorizedModels s groups username ;;
  if negb (String.eqb requestedSubscription "")
  then selectExplicit s subscriptions requestedSubscription requestedModel username groups authorizedSet
  else select_auto s subscriptions requestedModel username groups authorizedSet.

(** [Select] is [SelectWithContext] with a background context. *)
Definition Select (s : Selector) groups username requestedSubscription requestedModel :=
  SelectWithContext s groups username requestedSubscription requestedModel.

Definition SelectHighestPriority (s : Selector) (groups : list string) (username : string)
    : Res SelErr SelectResponse :=
  reject IdentityMissing
    when match groups with [] => true | _ => false end && String.eqb username "" ;;
  subscriptions <- map_err LoadFailed (loadSubscriptions s) ;;
  reject NoSubscriptionError when match subscriptions with [] => true | _ => false end ;;
  let accessible :=
    filter (fun sub => negb (subscriptionIsDeleting sub) && userHasAccess sub username groups = true)
      subscriptions in
  match sortSubscriptionsByPriority accessible with
  | [] => Err NoSubscriptionError
  | top :: _ =>
      let resp := toResponse top in
      authorizedSet <- authorizedModels s groups username ;;
      match authorizedSet with
      | None => Ok resp
      | Some a => Ok (resp_with_ModelRefs resp (filterAuthorizedModels (resp_ModelRefs resp) a))
      end
  end.

(** ** Listing *)

Definition GetAllAccessible (s : Selector) (groups : list string) (username : string)
    : Res SelErr (list SelectResponse) :=
  reject IdentityMissing
    when match groups with [] => true | _ => false end && String.eqb username "" ;;
  subscriptions <- map_err LoadFailed (loadSubscriptions s) ;;
  let accessible := map toResponse (filter (fun sub =>
    userHasAccess sub username groups &&
    negb (negb (String.eqb (Phase sub) PhaseActive) && negb (String.eqb (Phase sub) PhaseDegraded)) &&
    negb (subscriptionIsDeleting sub) = true) subscriptions) in
  authorizedSet <- authorizedModels s groups username ;;
  let accessible :=
    match authorizedSet with
    | None => accessible
    | Some a =>
        filter (fun r => match resp_ModelRefs r with [] => false | _ => true end = true)
          (map (fun r => resp_with_ModelRefs r (filterAuthorizedModels (resp_ModelRefs r) a)) accessible)
    end in
  Ok (sort_slice (on_key resp_Name str_ltb) accessible).

Definition findModelNamespaces (sub : subscription) (modelID : string) : list string :=
  omap (fun ref => if String.eqb (ref_Name ref) modelID then Some (ref_Namespace ref) else None)
    (ModelRefs sub).

Definition ListAccessibleForModel (s : Selector) (username : string) (groups : list string)
    (modelID : string) : Res SelErr (list SubscriptionInfo) :=
  subscriptions <- map_err LoadFailed (loadSubscriptions s) ;;
  authorizedSet <- authorizedModels s groups username ;;
  let listed sub :=
    let modelNamespaces := findModelNamespaces sub modelID in
    negb (negb (userHasAccess sub username groups)
          || match modelNamespaces with [] => true | _ => false end) &&
    match authorizedSet with
    | None => true
    | Some a => existsb (fun ns => authorized a (mkModelKey ns modelID)) modelNamespaces
    end in
  let info sub :=
    let i := toSubscriptionInfo sub in
    match authorizedSet with
    | None => i
    | Some a => {| SubscriptionIDHeader := SubscriptionIDHeader i;
                   info_Namespace := info_Namespace i;
                   SubscriptionDescription := SubscriptionDescription i;
                   info_DisplayName := info_DisplayName i; info_Priority := info_Priority i;
                   info_ModelRefs := filterAuthorizedModels (info_ModelRefs i) a;
                   Roles := Roles i; info_OrganizationID := info_OrganizationID i;
                   info_CostCenter := info_CostCenter i; info_Labels := info_Labels i;
                   Owner := Owner i |}
    end in
  Ok (sort_slice (on_key SubscriptionIDHeader str_ltb)
        (map info (filter (fun sub => listed sub = true) subscriptions))).

End Selector.
End Selector.
