(* ===== verification/SelectorFacts.v ===== *)
(** * SelectorFacts: the properties of subscription selection *)

From S2P Require Import Prelude GoStrings Unstructured Subscription RateLimitId Selector.
From Stdlib Require String.
Local Open Scope string_scope.

Module SelectorFacts.
Import Subscription Selector.

(** ** The priority order *)

#[export] Instance priority_less_weak : StrictWeak priority_less.
Proof.
  apply (strict_weak_ext _
    (by_key Priority (fun a b => Z.ltb b a) (by_key MaxLimit (fun a b => Z.ltb b a)
      (on_key Name str_ltb)))); [|apply _].
  intros a b. unfold priority_less, by_key, on_key.
  destruct (Z.eqb_spec (Priority a) (Priority b)), (decide (Priority a = Priority b)); try done.
  by destruct (Z.eqb_spec (MaxLimit a) (MaxLimit b)), (decide (MaxLimit a = MaxLimit b)).
Qed.

(** ** Matching a model *)

Lemma exact_match_spec ns name ref :
  exact_match ns name ref = true ↔ ref_key ref = mkModelKey ns name.
Proof.
  unfold exact_match, ref_key. rewrite andb_true_iff, !String.eqb_eq. naive_solver.
Qed.

(** The alias carriers of a namespaced request. *)
Definition carries_alias (ns alias : string) (ref : ModelRefInfo) : bool :=
  negb (String.eqb (ref_ModelName ref) "") && String.eqb (ref_Namespace ref) ns
  && String.eqb (ref_ModelName ref) alias.

Lemma alias_scan_cons ns alias m ref r :
  alias_scan ns alias m (ref :: r) =
  if carries_alias ns alias ref then
    match m with
    | Some m => if String.eqb (ref_Name m) (ref_Name ref)
                then alias_scan ns alias (Some ref) r else Err tt
    | None => alias_scan ns alias (Some ref) r
    end
  else alias_scan ns alias m r.
Proof.
  simpl. unfold carries_alias.
  destruct (String.eqb _ "") , (String.eqb (ref_Namespace ref) ns),
    (String.eqb (ref_ModelName ref) alias); try done.
  simpl. destruct m as [m|]; [|done]. by destruct (String.eqb _ _).
Qed.

Lemma last_default {A} (x : A) xs d e : List.last (x :: xs) d = List.last (x :: xs) e.
Proof. revert x. induction xs as [|y ys IH]; intros x; [done|]. apply (IH y). Qed.

(** With a carrier [m] already found, the scan succeeds exactly when every later
    carrier has its name, and then returns the last one. *)
Lemma alias_scan_some ns alias m refs :
  let carriers := filter (fun r => carries_alias ns alias r = true) refs in
  alias_scan ns alias (Some m) refs =
  if forallb (fun r => String.eqb (ref_Name m) (ref_Name r)) carriers
  then Ok (Some (List.last carriers m)) else Err tt.
Proof.
  revert m. induction refs as [|ref refs IH]; intros m; [done|].
  rewrite alias_scan_cons. cbn zeta. rewrite filter_cons.
  destruct (carries_alias ns alias ref) eqn:E; [|rewrite decide_False by done; apply IH].
  rewrite decide_True by done. cbn [forallb].
  destruct (String.eqb_spec (ref_Name m) (ref_Name ref)) as [Hn|]; [|done].
  rewrite IH, Hn. cbn [andb]. destruct (forallb _ _); [|done]. do 2 f_equal.
  destruct (filter _ refs) as [|x xs]; [done|]. exact (last_default x xs ref m).
Qed.

Lemma alias_scan_spec ns alias refs :
  alias_scan ns alias None refs =
  match filter (fun r => carries_alias ns alias r = true) refs with
  | [] => Ok None
  | c :: cs => if forallb (fun r => String.eqb (ref_Name c) (ref_Name r)) cs
               then Ok (Some (List.last cs c)) else Err tt
  end.
Proof.
  induction refs as [|ref refs IH]; [done|].
  rewrite alias_scan_cons, filter_cons. destruct (carries_alias ns alias ref) eqn:E.
  - rewrite decide_True by done. apply alias_scan_some.
  - by rewrite decide_False.
Qed.

Lemma last_elem {A} (l : list A) d : List.last l d = d ∨ List.last l d ∈ l.
Proof.
  induction l as [|x l IH]; [by left|]. destruct l as [|y l]; [right; set_solver|].
  change (List.last (x :: y :: l) d) with (List.last (y :: l) d).
  destruct IH as [->|H]; [by left|right]. rewrite elem_of_cons. by right.
Qed.

Definition carriers (ns alias : string) (refs : list ModelRefInfo) : list ModelRefInfo :=
  filter (fun r => carries_alias ns alias r = true) refs.

(** All carriers share a name: the scan returns one of them; two names: it
    refuses; no carrier: it finds nothing. *)
Lemma alias_scan_cases ns alias refs :
  match alias_scan ns alias None refs with
  | Ok None => carriers ns alias refs = []
  | Ok (Some m) => m ∈ carriers ns alias refs
      ∧ ∀ c, c ∈ carriers ns alias refs → ref_Name c = ref_Name m
  | Err _ => ∃ c d, c ∈ carriers ns alias refs ∧ d ∈ carriers ns alias refs
      ∧ ref_Name c ≠ ref_Name d
  end.
Proof.
  rewrite alias_scan_spec. fold (carriers ns alias refs).
  destruct (carriers ns alias refs) as [|c cs]; [done|].
  destruct (forallb _ cs) eqn:E.
  - assert (HF : ∀ d, d ∈ c :: cs → ref_Name d = ref_Name c).
    { rewrite forallb_forall in E. intros d [->|Hd]%elem_of_cons; [done|].
      symmetry. apply String.eqb_eq, E. by apply list_elem_of_In. }
    assert (HL : List.last cs c ∈ c :: cs).
    { destruct (last_elem cs c) as [->|H]; set_solver. }
    split; [done|]. intros d Hd. by rewrite (HF d Hd), (HF _ HL).
  - assert (existsb (fun r => negb (String.eqb (ref_Name c) (ref_Name r))) cs = true)
      as (d & Hd & Hne)%existsb_elem.
    { clear -E. induction cs as [|d cs IH]; [done|]. cbn [forallb existsb] in E |- *.
      destruct (String.eqb _ _); [by apply IH|done]. }
    exists c, d. apply negb_true_iff, String.eqb_neq in Hne. set_solver.
Qed.

Definition has_exact (ns name : string) (sub : subscription) : Prop :=
  ∃ ref, ref ∈ ModelRefs sub ∧ ref_key ref = mkModelKey ns name.

Lemma find_exact_some sub req ns name :
  cut "/" req = Some (ns, name) → has_exact ns name sub →
  ∃ ref, findModelRef sub req = Some ref ∧ ref ∈ ModelRefs sub
         ∧ ref_key ref = mkModelKey ns name.
Proof.
  intros Hcut (ref & Hin & Hk).
  destruct (find_first (exact_match ns name) (ModelRefs sub)) as (x & Hf & Hx & Ex).
  { exists ref. by rewrite exact_match_spec. }
  exists x. unfold findModelRef. rewrite Hcut, Hf. by rewrite exact_match_spec in Ex.
Qed.

Lemma find_exact_none sub req ns name :
  cut "/" req = Some (ns, name) → ¬ has_exact ns name sub →
  findModelRef sub req =
  match alias_scan ns name None (ModelRefs sub) with
  | Err _ => None
  | Ok (Some ref) => Some ref
  | Ok None => List.find (raw_match req) (ModelRefs sub)
  end.
Proof.
  intros Hcut Hno. unfold findModelRef. rewrite Hcut.
  destruct (List.find (exact_match ns name) (ModelRefs sub)) as [x|] eqn:E; [|done].
  apply find_elem in E as [Hx Ex]. rewrite exact_match_spec in Ex.
  destruct Hno. by exists x.
Qed.

Lemma find_model_ref_elem sub req ref : findModelRef sub req = Some ref → ref ∈ ModelRefs sub.
Proof.
  unfold findModelRef. destruct (cut "/" req) as [[ns name]|].
  - destruct (List.find (exact_match ns name) _) as [x|] eqn:E.
    { intros [= <-]. by apply find_elem in E as [? _]. }
    pose proof (alias_scan_cases ns name (ModelRefs sub)) as Hc.
    destruct (alias_scan _ _ _ _) as [[m|]|]; [|by intros [? _]%find_elem|done].
    intros [= <-]. destruct Hc as [Hm _]. by apply list_elem_of_filter in Hm as [_ ?].
  - by intros [? _]%find_elem.
Qed.

(** The model a ["namespace/name"] request resolves to: the subscription's
    own pair whenever it lists one; otherwise the refs of that namespace that
    carry the name as their resolved alias, provided they all have one name —
    two distinct carriers resolve to nothing, even if a raw match exists; and
    only without carriers the first ref whose alias or name is the whole
    string. *)
Theorem find_model_ref_precedence sub req ns name :
  cut "/" req = Some (ns, name) →
  let cs := carriers ns name (ModelRefs sub) in
  (has_exact ns name sub →
     ∃ ref, findModelRef sub req = Some ref ∧ ref_key ref = mkModelKey ns name)
  ∧ (¬ has_exact ns name sub →
       (∀ c d, c ∈ cs → d ∈ cs → ref_Name c = ref_Name d) → cs ≠ [] →
       ∃ ref, findModelRef sub req = Some ref ∧ ref ∈ cs)
  ∧ (¬ has_exact ns name sub →
       (∃ c d, c ∈ cs ∧ d ∈ cs ∧ ref_Name c ≠ ref_Name d) → findModelRef sub req = None)
  ∧ (¬ has_exact ns name sub → cs = [] →
       findModelRef sub req = List.find (raw_match req) (ModelRefs sub)).
Proof.
  intros Hcut cs. split_and!; [|intros Hno; rewrite (find_exact_none _ _ _ _ Hcut Hno)..].
  - intros He. destruct (find_exact_some _ _ _ _ Hcut He) as (x & ? & _ & ?). by exists x.
  - pose proof (alias_scan_cases ns name (ModelRefs sub)) as Hc.
    destruct (alias_scan _ _ _ _) as [[m|]|]; naive_solver.
  - intros (c & d & Hc1 & Hd & Hne).
    pose proof (alias_scan_cases ns name (ModelRefs sub)) as Hc.
    destruct (alias_scan _ _ _ _) as [[m|]|]; [|unfold cs in Hc1; rewrite Hc in Hc1; by apply not_elem_of_nil in Hc1|done].
    destruct Hc as [_ Hall]. destruct Hne. by rewrite (Hall c Hc1), (Hall d Hd).
  - intros E. rewrite alias_scan_spec. fold (carriers ns name (ModelRefs sub)).
    unfold cs in E. by rewrite E.
Qed.

(** ** Concrete subscriptions used by the witnesses *)

Definition model_ref (ns name alias : string) (limited : bool) : ModelRefInfo := {|
  ref_Name := name; ref_Namespace := ns; ref_ModelName := alias; ref_DisplayName := "";
  ref_Description := ""; ref_Source := "";
  TokenRateLimits := if limited then [{| Limit := 100; Window := "1m" |}] else [];
  Unlimited := false; BillingRate := None; Subjects := None |}.

Definition make_sub (name : string) (prio : Z) (refs : list ModelRefInfo) (phase : string)
    (statuses : list TokenRateLimitStatus) : subscription := {|
  sub_Object := None; Name := name; Namespace := "maas"; DisplayName := ""; Description := "";
  Groups := ["dev"]; Users := []; Priority := prio; MaxLimit := 0;
  AssociatedOrganizationID := ""; OrganizationID := ""; CostCenter := "";
  Labels := ∅; Headers := ∅; ModelRefs := refs; Phase := phase; Ready := true;
  DeletionTimestamp := None; TokenRateLimitStatuses := statuses;
  UseShortRateLimitID := false; Objectives := ∅ |}.

Definition renamed_sub : subscription :=
  make_sub "s" 0 [model_ref "a" "m1" "chat" true; model_ref "b" "m2" "a/chat" true] PhaseActive [].

Lemma find_model_ref_precedence_witness :
  ∃ ref, findModelRef renamed_sub "a/chat" = Some ref ∧ ref_Name ref = "m1".
Proof.
  destruct (find_model_ref_precedence renamed_sub "a/chat" "a" "chat" eq_refl) as (_ & H & _).
  destruct H as (ref & E & Hin).
  - intros (x & Hx & Ek). unfold renamed_sub, make_sub in Hx. cbn in Hx.
    apply elem_of_cons in Hx as [->|[->|Hx%elem_of_nil]%elem_of_cons]; [discriminate..|done].
  - intros c d Hc Hd. vm_compute in Hc, Hd. apply list_elem_of_singleton in Hc, Hd. congruence.
  - vm_compute. discriminate.
  - exists ref. split; [exact E|]. vm_compute in Hin. by apply list_elem_of_singleton in Hin as ->.
Defined.

(** The comment on [findModelRef] orders the raw matches "the full raw value
    against the alias, then against the modelRef name"; the loop tests both
    for each ref in turn, so an earlier ref named like the request is preferred
    to a later ref whose alias it is. *)
Theorem raw_name_can_precede_alias :
  ∃ sub req by_name by_alias,
    by_name ∈ ModelRefs sub ∧ by_alias ∈ ModelRefs sub
    ∧ ref_Name by_name = req ∧ ref_ModelName by_name ≠ req
    ∧ ref_ModelName by_alias = req ∧ findModelRef sub req = Some by_name.
Proof.
  exists (make_sub "s" 0 [model_ref "a" "gpt" "" true; model_ref "a" "other" "gpt" true] PhaseActive []),
    "gpt", (model_ref "a" "gpt" "" true), (model_ref "a" "other" "gpt" true).
  split_and!; [by left|by right; left|done|done|done|done].
Qed.

End SelectorFacts.

(** ** SelectionSafety: what a successful subscription selection guarantees

    The theorems about [SelectWithContext] and [SelectHighestPriority] of
    [maas-api/internal/subscription/selector.go]: no selection outside the
    caller's access, no model outside the authorized set, no ambiguous
    automatic choice, and what the health gate lets through. *)
Module SelectionSafety.
Import Subscription Selector SelectorFacts.

Lemma filter_authorized_elem refs a ref :
  ref ∈ filterAuthorizedModels refs a ↔ ref ∈ refs ∧ authorized a (ref_key ref) = true.
Proof. unfold filterAuthorizedModels. rewrite list_elem_of_filter. naive_solver. Qed.

Lemma sort_subs_elem l sub : sub ∈ sortSubscriptionsByPriority l ↔ sub ∈ l.
Proof. apply isort_elem. Qed.

(** An approved request resolves, inside the authorized subset, to an
    authorized ref. *)
Lemma resolved_authorized sub m a :
  m ≠ "" → isResolvedModelAuthorized sub m (Some a) = true →
  ∃ ref, findModelRef (authorizedSelectionSubscription sub (Some a)) m = Some ref
    ∧ ref ∈ ModelRefs sub ∧ authorized a (ref_key ref) = true.
Proof.
  intros Hm. unfold isResolvedModelAuthorized.
  destruct (String.eqb_spec m "") as [|_]; [done|]. intros Hr.
  set (filtered := authorizedSelectionSubscription sub (Some a)) in *.
  assert (Hres : ∀ ref, findModelRef filtered m = Some ref →
    ref ∈ ModelRefs sub ∧ authorized a (ref_key ref) = true).
  { intros ref E%find_model_ref_elem. by apply filter_authorized_elem in E. }
  assert (Hby : match findModelRef filtered m with
                | Some ref => authorized a (ref_key ref) | None => false end = true →
    ∃ ref, findModelRef filtered m = Some ref
    ∧ ref ∈ ModelRefs sub ∧ authorized a (ref_key ref) = true).
  { destruct (findModelRef filtered m) as [ref|] eqn:E; [|done]. eauto. }
  destruct (cut "/" m) as [[ns name]|] eqn:Hcut; [|by apply Hby].
  destruct (existsb (exact_match ns name) (ModelRefs sub)) eqn:Hex; [|by apply Hby].
  apply existsb_elem in Hex as (x & Hx & Ex). rewrite exact_match_spec in Ex.
  destruct (find_exact_some filtered m ns name Hcut) as (ref & E & _ & _); [|eauto].
  exists x. split; [|done]. apply filter_authorized_elem. by rewrite Ex.
Qed.

Section Safety.
Context `{KA : K8sAccess}.
Variable parseSubscriptionHeaders : string → Res string (gmap string (list string)).

(** What an answer [r] for [sub] and resolved model [m] satisfies when the
    authorized set is [a]. *)
Record answer_ok (s : Selector) (a : AuthorizedSet) (m : string) (sub : subscription)
    (r : SelectResponse) : Prop := {
  ans_name : resp_Name r = Name sub;
  ans_namespace : resp_Namespace r = Namespace sub;
  ans_refs : ∀ ref, ref ∈ resp_ModelRefs r →
    ref ∈ ModelRefs sub ∧ authorized a (ref_key ref) = true;
  ans_allowed : AccessAllowed r = isResolvedModelAuthorized sub m (Some a);
  ans_healthy : AccessAllowed r = true →
    checkModelHealth (authorizedSelectionSubscription sub (Some a)) m = Ok tt;
  ans_model : m ≠ "" → AccessAllowed r = true →
    ∃ ref, ref ∈ resp_ModelRefs r
      ∧ ResolvedModel r = ref_Namespace ref +:+ "/" +:+ ref_Name ref
      ∧ match guardrailResolver s with
        | None => SelectedGuardrailChecks r = None
        | Some resolver => ∃ model checks,
            modelByKey s (ref_Namespace ref) (ref_Name ref) = Ok model
            ∧ resolver (sub_Object sub) model = Ok checks
            ∧ SelectedGuardrailChecks r = Some checks
        end;
}.

Lemma build_response_shape s sub m a r :
  buildAuthorizedResponse s sub m (Some a) = Ok r →
  let filtered := authorizedSelectionSubscription sub (Some a) in
  let allowed := isResolvedModelAuthorized sub m (Some a) in
  r = resp_decide (toResponseWithResolvedModel s filtered m) allowed
        (filterAuthorizedModels (ModelRefs filtered) a) None
  ∧ (allowed = true → checkModelHealth filtered m = Ok tt).
Proof.
  unfold buildAuthorizedResponse. cbn zeta. intros E.
  destruct (isResolvedModelAuthorized sub m (Some a)) eqn:Ha; cbn [orb] in E.
  - apply res_bind_ok in E as ([] & Hh & [= <-]). done.
  - destruct (String.eqb_spec m "") as [->|]; [by cbn in Ha|]. cbn in E. by injection E as <-.
Qed.

Lemma complete_selection_ok s sub m a r :
  completeSelection s sub m (Some a) = Ok r → answer_ok s a m sub r.
Proof.
  unfold completeSelection. intros (resp & E & Hk)%res_bind_ok.
  destruct (build_response_shape _ _ _ _ _ E) as [-> Hh].
  set (filtered := authorizedSelectionSubscription sub (Some a)) in *.
  assert (Hrefs : ∀ ref, ref ∈ filterAuthorizedModels (ModelRefs filtered) a ↔
    ref ∈ ModelRefs sub ∧ authorized a (ref_key ref) = true).
  { intros ref. unfold filtered. cbn [ModelRefs with_ModelRefs authorizedSelectionSubscription]. rewrite !filter_authorized_elem. naive_solver. }
  assert (Hshape : ∃ checks, r = resp_decide (toResponseWithResolvedModel s filtered m)
      (isResolvedModelAuthorized sub m (Some a)) (filterAuthorizedModels (ModelRefs filtered) a) checks
    ∧ (m ≠ "" → isResolvedModelAuthorized sub m (Some a) = true →
       ∃ ref, findModelRef filtered m = Some ref
       ∧ match guardrailResolver s with
        | None => checks = None
        | Some resolver => ∃ model cs,
            modelByKey s (ref_Namespace ref) (ref_Name ref) = Ok model
            ∧ resolver (sub_Object sub) model = Ok cs ∧ checks = Some cs
        end)).
  { destruct (String.eqb_spec m "") as [->|Hm]; cbn [orb] in Hk.
    { injection Hk as <-. by eexists. }
    cbn [AccessAllowed resp_decide] in Hk.
    destruct (isResolvedModelAuthorized sub m (Some a)) eqn:Ha; cbn [negb] in Hk.
    2:{ injection Hk as <-. by eexists. }
    destruct (resolved_authorized sub m a Hm Ha) as (ref & Ef & _).
    fold filtered in Ef. rewrite Ef in Hk.
    destruct (guardrailResolver s) as [resolver|].
    2:{ injection Hk as <-. eexists. split; [done|]. eauto. }
    apply res_bind_ok in Hk as (model & Hmod%map_err_ok & Hk).
    apply res_bind_ok in Hk as (cs & Hcs%map_err_ok & [= <-]).
    exists (Some cs). split; [done|]. intros _ _. exists ref. eauto 10. }
  destruct Hshape as (checks & -> & Hg). split; try done.
  - intros ref Href. by apply Hrefs.
  - intros Hm Ha. destruct (Hg Hm Ha) as (ref & Ef & Hc). exists ref. split; [|split; [|exact Hc]].
    + cbn [resp_ModelRefs resp_decide]. apply Hrefs.
      apply find_model_ref_elem in Ef. by apply filter_authorized_elem in Ef.
    + cbn [ResolvedModel resp_decide toResponseWithResolvedModel]. by rewrite Ef.
Qed.

Lemma select_first_ok s matches reqSub m username groups a subs r :
  select_first s matches reqSub m username groups (Some a) subs = Some (Ok r) →
  ∃ sub, sub ∈ subs ∧ matches sub = true ∧ subscriptionIsDeleting sub = false
    ∧ userHasAccess sub username groups = true ∧ answer_ok s a m sub r.
Proof.
  induction subs as [|sub subs IH]; [done|]. cbn [select_first].
  destruct (matches sub && negb (subscriptionIsDeleting sub)) eqn:E.
  - intros [= Hr]. bool_hyps. rewrite andb_false_r in Hr. cbn [andb] in Hr.
    destruct (userHasAccess sub username groups) eqn:Hu; [|done].
    exists sub. apply complete_selection_ok in Hr. split_and!; [by left|done..].
  - intros Hr. destruct (IH Hr) as (x & Hx & ?). exists x. split; [by right|done].
Qed.

(** An explicit selection answers for the first live subscription of that name. *)
Lemma select_explicit_ok s subs reqSub m username groups a r :
  selectExplicit s subs reqSub m username groups (Some a) = Ok r →
  ∃ matches, select_first s matches reqSub m username groups (Some a) subs = Some (Ok r)
    ∧ ∀ sub, matches sub = true → reqSub = Namespace sub +:+ "/" +:+ Name sub ∨ reqSub = Name sub.
Proof.
  unfold selectExplicit. intros Hr. destruct (select_first _ _ _ _ _ _ _ _) as [res|] eqn:E1 in Hr.
  - subst res. eexists. split; [exact E1|]. intros sub Hx%String.eqb_eq. by left.
  - destruct (contains_char _ _); [done|].
    destruct (select_first _ _ _ _ _ _ _ _) as [res|] eqn:E2 in Hr; [|done].
    subst res. eexists. split; [exact E2|]. intros sub Hx%String.eqb_eq. by right.
Qed.

(** The subscriptions a caller may be given for a resolved model. *)
Definition eligible (username : string) (groups : list string) (m : string) (a : AuthorizedSet)
    (sub : subscription) : bool :=
  negb (subscriptionIsDeleting sub) && userHasAccess sub username groups
  && isResolvedModelAuthorized sub m (Some a).

Lemma eligible_accessible username groups m a sub :
  eligible username groups m a sub = true →
  accessible_for username groups m (Some a) sub = true.
Proof.
  unfold eligible, accessible_for. intros [[Hd Hu]%andb_true_iff Hr]%andb_true_iff.
  rewrite Hd, Hu. cbn [andb]. destruct (String.eqb_spec m "") as [|Hm]; [done|].
  destruct (resolved_authorized sub m a Hm Hr) as (ref & E & _).
  unfold subscriptionIncludesModel at 2.
  by rewrite E, (proj2 (String.eqb_neq m "") Hm), andb_false_r.
Qed.

(** Without a model, or once filtered by model, the candidates of automatic
    selection are exactly the eligible subscriptions. *)
Lemma candidates_eligible username groups m a (subs : list subscription) :
  filter (fun sub => isResolvedModelAuthorized sub m (Some a) = true)
    (filter (fun sub => accessible_for username groups m (Some a) sub = true) subs)
  = filter (fun sub => eligible username groups m a sub = true) subs.
Proof.
  rewrite list_filter_filter. apply list_filter_iff. intros sub. split.
  - intros [Ha [Hacc _]%andb_true_iff]. unfold eligible. by rewrite Hacc, Ha.
  - intros He. split; [|by apply eligible_accessible]. by apply andb_true_iff in He as [_ ?].
Qed.

Lemma candidates_no_model username groups a (subs : list subscription) :
  filter (fun sub => accessible_for username groups "" (Some a) sub = true) subs
  = filter (fun sub => eligible username groups "" a sub = true) subs.
Proof.
  apply list_filter_iff. intros sub. unfold accessible_for, eligible.
  by change (String.eqb "" "") with true.
Qed.

(** The outcome of automatic selection, from the eligible subscriptions. *)
Definition auto_outcome (s : Selector) (username : string) (groups : list string) (m : string)
    (a : AuthorizedSet) (subs : list subscription) (res : Res SelErr SelectResponse) : Prop :=
  match filter (fun sub => eligible username groups m a sub = true) subs with
  | [] => res = Err (if negb (String.eqb m "")
                        && existsb (accessible_for username groups m (Some a)) subs
                     then AccessDeniedError "" else NoSubscriptionError)
  | [sub] => res = completeSelection s sub m (Some a)
  | many => ∃ names, res = Err (MultipleSubscriptionsError names) ∧ names ≡ₚ map Name many
  end.

Lemma existsb_filter_nil {A} (f : A → bool) l :
  existsb f l = match filter (fun x => f x = true) l with [] => false | _ => true end.
Proof.
  induction l as [|x l IH]; [done|]. cbn [existsb]. rewrite filter_cons.
  destruct (f x) eqn:E; [by rewrite decide_True|by rewrite decide_False].
Qed.

Lemma select_auto_outcome s username groups m a subs :
  auto_outcome s username groups m a subs
    (select_auto s subs m username groups (Some a)).
Proof.
  unfold auto_outcome, select_auto. rewrite candidates_eligible, existsb_filter_nil.
  destruct (String.eqb_spec m "") as [->|Hm]; cbn [negb andb].
  - rewrite candidates_no_model. destruct (filter _ subs) as [|x [|y l]]; [done..|].
    by eexists.
  - set (acc := filter (fun sub => accessible_for _ _ _ _ sub = true) subs).
    destruct (filter (fun sub => eligible _ _ _ _ sub = true) subs) as [|x [|y l]] eqn:E.
    + by destruct acc.
    + by destruct acc.
    + destruct acc; by eexists.
Qed.

(** ** Whole requests *)

Lemma authorized_models_checked s check groups username a :
  accessChecker s = Some check → check groups username = Ok (Some a) →
  authorizedModels s groups username = Ok (Some a).
Proof. unfold authorizedModels. by intros -> ->. Qed.

(** C1 A successful [SelectWithContext] answers for one loaded subscription
    that is not being deleted and that the caller owns (by user or group), and
    that is the requested one when one is named; every model of the answer is
    a model of that subscription the checker authorized; when it allows access
    to a model, the subscription is Active or Degraded, [ResolvedModel] names
    one of those authorized models, and the guardrail checks are the ones the
    resolver gave for exactly that model; and without a named subscription a
    requested model is always allowed. *)
Theorem select_safe s check groups username reqSub model a r :
  accessChecker s = Some check → check groups username = Ok (Some a) →
  SelectWithContext parseSubscriptionHeaders s groups username reqSub model = Ok r →
  let m := resolveModelAlias s model in
  ∃ subs sub, loadSubscriptions parseSubscriptionHeaders s = Ok subs ∧ sub ∈ subs
    ∧ subscriptionIsDeleting sub = false ∧ userHasAccess sub username groups = true
    ∧ (reqSub ≠ "" → reqSub = Namespace sub +:+ "/" +:+ Name sub ∨ reqSub = Name sub)
    ∧ answer_ok s a m sub r
    ∧ (m ≠ "" → AccessAllowed r = true → Phase sub = PhaseActive ∨ Phase sub = PhaseDegraded)
    ∧ (reqSub = "" → AccessAllowed r = true).
Proof.
  intros Hc Ha Hr m. unfold SelectWithContext in Hr. fold m in Hr.
  destruct (_ && _); [done|]. apply res_bind_ok in Hr as (subs & Hl%map_err_ok & Hr).
  destruct subs as [|x0 subs0] eqn:Esubs; [done|]. rewrite <- Esubs in *. clear Esubs x0 subs0.
  rewrite (authorized_models_checked _ _ _ _ _ Hc Ha) in Hr. cbn [res_bind] in Hr.
  assert (Hphase : ∀ sub, answer_ok s a m sub r → m ≠ "" → AccessAllowed r = true →
      Phase sub = PhaseActive ∨ Phase sub = PhaseDegraded).
  { intros sub Hans Hm Hall. pose proof (ans_healthy _ _ _ _ _ Hans Hall) as Hh.
    unfold checkModelHealth in Hh. rewrite (proj2 (String.eqb_neq m "") Hm) in Hh.
    cbn [Phase authorizedSelectionSubscription with_ModelRefs] in Hh.
    destruct (String.eqb_spec (Phase sub) PhaseActive); [by left|].
    destruct (String.eqb_spec (Phase sub) PhaseDegraded); [by right|done]. }
  exists subs. destruct (String.eqb_spec reqSub "") as [->|Hreq]; cbn [negb] in Hr.
  - pose proof (select_auto_outcome s username groups m a (sortSubscriptionsByPriority subs)) as Ho.
    rewrite Hr in Ho. unfold auto_outcome in Ho.
    destruct (filter _ _) as [|sub [|? ?]] eqn:E; [done| |by destruct Ho as (? & [=] & _)].
    assert (Hin : sub ∈ [sub]) by by left. rewrite <- E in Hin.
    apply list_elem_of_filter in Hin as [He Hin]. rewrite sort_subs_elem in Hin.
    unfold eligible in He. apply andb_true_iff in He as [[Hd Hu]%andb_true_iff Hauth].
    symmetry in Ho. apply complete_selection_ok in Ho. exists sub.
    apply negb_true_iff in Hd. split_and!; try done; [by apply Hphase|].
    intros _. by rewrite (ans_allowed _ _ _ _ _ Ho).
  - destruct (select_explicit_ok _ _ _ _ _ _ _ _ Hr) as (matches & Hs & Hm).
    apply select_first_ok in Hs as (sub & Hin & Hmatch & ? & ? & Hans).
    exists sub. rewrite sort_subs_elem in Hin. split_and!; by eauto.
Qed.

(** Automatic selection is decided by the eligible subscriptions alone (live,
    owned by the caller, and with a requested model authorized): exactly one
    is selected, several are refused as ambiguous with all their names, none
    is a denial — [AccessDenied] when an accessible subscription lists the model,
    [NoSubscription] otherwise.  Priority never breaks a tie. *)
Theorem auto_selection_unambiguous s check groups username model a subs :
  accessChecker s = Some check → check groups username = Ok (Some a) →
  groups ≠ [] ∨ username ≠ "" →
  loadSubscriptions parseSubscriptionHeaders s = Ok subs → subs ≠ [] →
  auto_outcome s username groups (resolveModelAlias s model) a
    (sortSubscriptionsByPriority subs)
    (SelectWithContext parseSubscriptionHeaders s groups username "" model).
Proof.
  intros Hc Ha Hid Hl Hne. unfold SelectWithContext.
  assert (match groups with [] => true | _ => false end && String.eqb username "" = false) as ->.
  { destruct groups; [|done]. destruct (String.eqb_spec username ""); naive_solver. }
  rewrite Hl. cbn [map_err res_bind].
  assert (match subs with [] => true | _ => false end = false) as -> by by destruct subs.
  rewrite (authorized_models_checked _ _ _ _ _ Hc Ha). cbn [res_bind String.eqb negb].
  apply select_auto_outcome.
Qed.

(** The subscription bound to a new key is accessible and not being deleted,
    and no other accessible one has a higher priority, an equal priority and
    a larger limit, or both equal and a smaller name; its models are
    restricted to the authorized ones. *)
Theorem highest_priority_maximal s groups username r :
  SelectHighestPriority parseSubscriptionHeaders s groups username = Ok r →
  ∃ subs top, loadSubscriptions parseSubscriptionHeaders s = Ok subs ∧ top ∈ subs
    ∧ subscriptionIsDeleting top = false ∧ userHasAccess top username groups = true
    ∧ resp_Name r = Name top ∧ resp_Namespace r = Namespace top
    ∧ (∀ sub, sub ∈ subs → subscriptionIsDeleting sub = false →
         userHasAccess sub username groups = true →
         (Priority sub < Priority top)%Z
         ∨ Priority sub = Priority top ∧
           ((MaxLimit sub < MaxLimit top)%Z
            ∨ MaxLimit sub = MaxLimit top ∧ str_ltb (Name sub) (Name top) = false))
    ∧ match accessChecker s with
      | None => resp_ModelRefs r = ModelRefs top
      | Some check => ∃ a, check groups username = Ok (Some a)
          ∧ resp_ModelRefs r = filterAuthorizedModels (ModelRefs top) a
      end.
Proof.
  unfold SelectHighestPriority. intros Hr. destruct (_ && _); [done|].
  apply res_bind_ok in Hr as (subs & Hl%map_err_ok & Hr).
  destruct subs as [|x0 subs0] eqn:Esubs; [done|]. rewrite <- Esubs in *. clear Esubs x0 subs0.
  cbn zeta in Hr. unfold sortSubscriptionsByPriority in Hr.
  set (acc := filter _ subs) in Hr.
  assert (Hacc : ∀ sub, sub ∈ acc ↔ sub ∈ subs ∧ subscriptionIsDeleting sub = false
      ∧ userHasAccess sub username groups = true).
  { intros sub. unfold acc. rewrite list_elem_of_filter, andb_true_iff, negb_true_iff. naive_solver. }
  destruct (isort priority_less acc) as [|top rest] eqn:E; [done|].
  assert (Htop : top ∈ acc) by (rewrite <- (isort_elem priority_less), E; by left).
  apply Hacc in Htop as (Hin & Hd & Hu).
  assert (Hshape : resp_Name r = Name top ∧ resp_Namespace r = Namespace top
    ∧ match accessChecker s with
      | None => resp_ModelRefs r = ModelRefs top
      | Some check => ∃ a, check groups username = Ok (Some a)
          ∧ resp_ModelRefs r = filterAuthorizedModels (ModelRefs top) a
      end).
  { unfold authorizedModels in Hr. destruct (accessChecker s) as [chk|]; cbn [res_bind] in Hr.
    - destruct (chk groups username) as [[a|]|e]; cbn [res_bind] in Hr; [|done..].
      injection Hr as <-. split_and!; [done..|by exists a].
    - by injection Hr as <-. }
  destruct Hshape as (? & ? & ?). exists subs, top. split_and!; try done.
  intros sub Hs Hsd Hsu. assert (Hsa : sub ∈ acc) by by apply Hacc.
  pose proof (isort_head priority_less _ _ _ _ E Hsa) as Hless. unfold priority_less in Hless.
  destruct (Z.eqb_spec (Priority sub) (Priority top)); cbn [negb] in Hless; [|bool_hyps; lia].
  destruct (Z.eqb_spec (MaxLimit sub) (MaxLimit top)); cbn [negb] in Hless; [|bool_hyps; lia].
  naive_solver.
Qed.

End Safety.

(** ** A concrete cluster *)

Definition no_headers (_ : string) : Res string (gmap string (list string)) := Ok ∅.

Definition json_ref (ns name : string) : JVal :=
  JObj [("namespace", JStr ns); ("name", JStr name);
        ("tokenRateLimits", JArr [JObj [("limit", JInt 100); ("window", JStr "1m")]])].
Definition json_trlp (model ns : string) (ready : bool) : JVal :=
  JObj [("model", JStr model); ("namespace", JStr ns); ("ready", JBool ready)].

(** A MaaSSubscription object owned by the group [dev]. *)
Definition json_sub (name phase : string) (priority : Z) (refs statuses : list JVal) : Object :=
  mkObject [
    ("metadata", JObj [("name", JStr name); ("namespace", JStr "maas")]);
    ("spec", JObj [
      ("owner", JObj [("groups", JArr [JObj [("name", JStr "dev")]])]);
      ("priority", JInt priority);
      ("modelRefs", JArr refs)]);
    ("status", JObj [("phase", JStr phase); ("tokenRateLimitStatuses", JArr statuses)])].

Definition allow_all_of (ks : list ModelKey) : list string → string → Res string (option AuthorizedSet) :=
  fun _ _ => Ok (Some (list_to_map (map (fun k => (k, true)) ks))).

Definition cluster (objs : list Object) (ks : list ModelKey) : Selector := {|
  lister := Ok objs; modelLister := None; accessChecker := Some (allow_all_of ks);
  guardrailResolver := None; tenantName := "t"; subscriptionNamespace := "maas" |}.

Definition granite := mkModelKey "llm" "granite".
Definition two_subs : Selector :=
  cluster [json_sub "gold" "Active" 10 [json_ref "llm" "granite"; json_ref "llm" "private"] [];
           json_sub "silver" "Active" 5 [json_ref "llm" "other"] []] [granite].
Definition granite_set : AuthorizedSet := list_to_map [(granite, true)].

Lemma select_safe_witness :
  ∃ r, SelectWithContext (KA:=documented_access) no_headers two_subs ["dev"] "u" "" "llm/granite" = Ok r
    ∧ AccessAllowed r = true ∧ ResolvedModel r = "llm/granite".
Proof.
  pose (res := SelectWithContext (KA:=documented_access) no_headers two_subs ["dev"] "u" "" "llm/granite").
  assert (is_ok res = true) as Hok by by vm_compute.
  destruct res as [r|] eqn:E; [|done]. exists r. split; [exact E|].
  destruct (select_safe (KA:=documented_access) no_headers two_subs
    (allow_all_of [granite]) ["dev"] "u" "" "llm/granite" granite_set r eq_refl eq_refl E)
    as (subs & sub & _ & _ & _ & _ & _ & Hans & _ & Hall).
  split; [by apply Hall|].
  destruct (ans_model _ _ _ _ _ Hans) as (ref & Hin & Hr & _); [done|by apply Hall|].
  rewrite Hr. apply (ans_refs _ _ _ _ _ Hans) in Hin as [_ Hin].
  unfold authorized, granite_set, granite in Hin. cbn [list_to_map foldr uncurry] in Hin.
  destruct (decide (ref_key ref = mkModelKey "llm" "granite")) as [[= -> ->]|Hne]; [done|].
  rewrite lookup_insert_ne in Hin by exact (not_eq_sym Hne). by rewrite lookup_empty in Hin.
Defined.

Lemma auto_selection_unambiguous_witness :
  let s := cluster [json_sub "gold" "Active" 10 [json_ref "llm" "granite"] [];
                    json_sub "silver" "Active" 5 [json_ref "llm" "granite"] []] [granite] in
  ∃ names, SelectWithContext (KA:=documented_access) no_headers s ["dev"] "u" "" "llm/granite"
             = Err (MultipleSubscriptionsError names)
    ∧ names ≡ₚ ["gold"; "silver"].
Proof.
  intros s.
  destruct (loadSubscriptions (KA:=documented_access) no_headers s) as [subs|] eqn:E;
    [|by vm_compute in E].
  assert (Hne : subs ≠ []) by (intros ->; by vm_compute in E).
  assert (Hid : ["dev"] ≠ [] ∨ "u" ≠ "") by by left.
  pose proof (auto_selection_unambiguous (KA:=documented_access) no_headers s
    (allow_all_of [granite]) ["dev"] "u" "llm/granite" granite_set subs eq_refl eq_refl
    Hid E Hne) as Ho.
  vm_compute in E. injection E as <-. vm_compute in Ho. destruct Ho as (names & Hr & HP).
  exists names. split; [|exact HP]. rewrite <- Hr. by vm_compute.
Defined.

Lemma highest_priority_maximal_witness :
  ∃ r, SelectHighestPriority (KA:=documented_access) no_headers two_subs ["dev"] "u" = Ok r
    ∧ resp_Name r = "gold"
    ∧ ∃ subs top, loadSubscriptions (KA:=documented_access) no_headers two_subs = Ok subs
        ∧ top ∈ subs ∧ resp_Name r = Name top.
Proof.
  destruct (SelectHighestPriority (KA:=documented_access) no_headers two_subs ["dev"] "u") as [r|] eqn:E;
    [|by vm_compute in E].
  exists r. destruct (highest_priority_maximal (KA:=documented_access) no_headers two_subs ["dev"] "u" r E)
    as (subs & top & ? & ? & ? & ? & ? & ?).
  split_and!; [done| |by exists subs, top].
  vm_compute in E. by injection E as <-.
Defined.

(** ** What the health gate lets through *)

Definition failed_only : Selector :=
  cluster [json_sub "broken" "Failed" 0 [json_ref "llm" "granite"] []] [granite].

(** [checkModelHealth] blocks Failed subscriptions at key creation "to
    prevent key spam on broken subscriptions", but a key minted without naming
    a subscription is bound by [SelectHighestPriority], which never calls it:
    the same caller is refused the Failed subscription by name and given it by
    default. *)
Theorem failed_subscription_bound_by_default :
  ∃ r, SelectHighestPriority (KA:=documented_access) no_headers failed_only ["dev"] "u" = Ok r
    ∧ resp_Name r = "broken" ∧ resp_Phase r = PhaseFailed
    ∧ ∃ reason msg, Select (KA:=documented_access) no_headers failed_only ["dev"] "u" "broken" ""
        = Err (ModelUnhealthyError "broken" PhaseFailed reason msg).
Proof. eexists. split_and!; [by vm_compute|done|done|]. do 2 eexists. by vm_compute. Qed.

(** A Degraded subscription with two models of the same name in different
    namespaces: the gate compares rate-limit statuses by model name only, so
    the first status decides for both, and a model whose own policy is not
    ready is admitted. *)
Theorem unready_model_admitted_by_namesake :
  ∃ sub ref, ref ∈ ModelRefs sub ∧ needs_trlp ref = true
    ∧ (∀ st, st ∈ TokenRateLimitStatuses sub → trlp_Model st = ref_Name ref →
         trlp_Namespace st = ref_Namespace ref → trlp_Ready st = false)
    ∧ (∃ st, st ∈ TokenRateLimitStatuses sub ∧ trlp_Model st = ref_Name ref
         ∧ trlp_Namespace st = ref_Namespace ref)
    ∧ findModelRef sub "b/granite" = Some ref
    ∧ checkModelHealth sub "b/granite" = Ok tt.
Proof.
  pose (st ns ready := {| trlp_Model := "granite"; trlp_Name := "maas-trlp-granite"; trlp_Namespace := ns;
    trlp_Ready := ready; trlp_Reason := ""; trlp_Message := "" |}).
  exists (make_sub "s" 0 [model_ref "a" "granite" "" true; model_ref "b" "granite" "" true]
    PhaseDegraded [st "a" true; st "b" false]), (model_ref "b" "granite" "" true).
  split_and!; [by right; left|done| |exists (st "b" false); split_and!; [by right; left|done..]|done|done].
  intros x [->|[->|Hx%elem_of_nil]%elem_of_cons]%elem_of_cons _ Hn; [done..].
Qed.

End SelectionSafety.
