(* ===== verification/KeyTable.v ===== *)
(** * KeyTable: the [api_keys] table and the SQL the store runs on it

    The table of [maas-api/db/schema] as a map from its primary key to rows,
    and the four statement shapes of [store_postgres.go]: an [INSERT] under
    the table's constraints, [UPDATE ... SET ... WHERE], [DELETE ... WHERE] and
    [SELECT ... WHERE].  A [WHERE] clause is a boolean predicate on rows; a
    timestamp is a number of nanoseconds. *)

From S2P Require Import Prelude GoStrings.
From Stdlib Require String.
Local Open Scope string_scope.

Module KeyTable.

Inductive Status := StatusActive | StatusRevoked | StatusExpired.
#[export] Instance Status_eq_dec : EqDecision Status.
Proof. solve_decision. Defined.

Definition status_text (s : Status) : string :=
  match s with
  | StatusActive => "active"
  | StatusRevoked => "revoked"
  | StatusExpired => "expired"
  end.
Definition is_active (s : Status) : bool :=
  match s with StatusActive => true | _ => false end.

(** One row; a nullable column is an [option]. *)
Record Row := {
  r_id : string;
  r_username : string;
  r_name : string;
  r_description : option string;
  r_key_hash : string;
  r_user_groups : list string;
  r_subscription : string;
  r_tenant : string;
  r_status : Status;
  r_created_at : Z;
  r_expires_at : option Z;
  r_last_used_at : option Z;
  r_ephemeral : bool;
  r_labels : option (gmap string string);
  r_deleted_at : option Z;
}.
Notation Table := (gmap string Row).

(** The columns the statements assign; the others keep their value. *)
Definition set_columns (r : Row) (status : Status) (last_used deleted : option Z) : Row := {|
  r_id := r_id r; r_username := r_username r; r_name := r_name r;
  r_description := r_description r; r_key_hash := r_key_hash r;
  r_user_groups := r_user_groups r; r_subscription := r_subscription r;
  r_tenant := r_tenant r; r_status := status; r_created_at := r_created_at r;
  r_expires_at := r_expires_at r; r_last_used_at := last_used;
  r_ephemeral := r_ephemeral r; r_labels := r_labels r; r_deleted_at := deleted;
|}.
Definition set_status (s : Status) (r : Row) : Row :=
  set_columns r s (r_last_used_at r) (r_deleted_at r).
Definition set_last_used (now : Z) (r : Row) : Row :=
  set_columns r (r_status r) (Some now) (r_deleted_at r).
(** [SET deleted_at = NOW(), status = CASE WHEN status = 'active' THEN 'revoked' ELSE status END]. *)
Definition soft_delete (now : Z) (r : Row) : Row :=
  set_columns r (if is_active (r_status r) then StatusRevoked else r_status r)
    (r_last_used_at r) (Some now).

(** [expires_at IS NOT NULL AND expires_at < t], and its counterpart
    [expires_at IS NULL OR expires_at > t]. *)
Definition expires_before (t : Z) (r : Row) : bool :=
  match r_expires_at r with Some e => (e <? t)%Z | None => false end.
Definition expires_after_or_never (t : Z) (r : Row) : bool :=
  match r_expires_at r with Some e => (t <? e)%Z | None => true end.
Definition not_deleted (r : Row) : bool :=
  match r_deleted_at r with None => true | Some _ => false end.

(** [CASE WHEN status = 'active' AND expires_at IS NOT NULL AND expires_at < NOW()
    THEN 'expired' ELSE status END]. *)
Definition effective_status (now : Z) (r : Row) : Status :=
  if is_active (r_status r) && expires_before now r then StatusExpired else r_status r.

(** ** Statements *)

(** PRIMARY KEY (id) and UNIQUE (key_hash, tenant). *)
Definition same_hash (hash tenant : string) (r : Row) : bool :=
  String.eqb (r_key_hash r) hash && String.eqb (r_tenant r) tenant.

Definition count_where (p : Row → bool) (t : Table) : nat :=
  size (filter (fun kv => p kv.2 = true) t).
Definition insert_row (r : Row) (t : Table) : option Table :=
  match t !! r_id r with
  | Some _ => None
  | None =>
      if (0 <? count_where (same_hash (r_key_hash r) (r_tenant r)) t)%nat then None
      else Some (<[r_id r := r]> t)
  end.
Definition update_where (p : Row → bool) (f : Row → Row) (t : Table) : Table :=
  (fun r => if p r then f r else r) <$> t.
Definition delete_where (p : Row → bool) (t : Table) : Table :=
  filter (fun kv => p kv.2 = false) t.

(** [SELECT] without [ORDER BY]: the rows in an order the database chooses. *)
Definition select_where `{GR : GoRuntime} (p : Row → bool) (t : Table) : list Row :=
  filter (fun r => p r = true) (map snd (range_map t)).

(** ** Lemmas *)

Lemma update_where_lookup p f (t : Table) id r' :
  update_where p f t !! id = Some r' ↔
  ∃ r, t !! id = Some r ∧ r' = if p r then f r else r.
Proof. unfold update_where. rewrite lookup_fmap, fmap_Some. done. Qed.

Lemma delete_where_lookup p (t : Table) id r :
  delete_where p t !! id = Some r ↔ t !! id = Some r ∧ p r = false.
Proof. unfold delete_where. by rewrite map_lookup_filter_Some. Qed.

Lemma count_where_pos p t : (0 < count_where p t)%nat ↔ ∃ id r, t !! id = Some r ∧ p r = true.
Proof.
  unfold count_where. split.
  - intros Hpos. destruct (decide (filter (fun kv : string * Row => p kv.2 = true) t = ∅)) as [E|Hne].
    { rewrite E, map_size_empty in Hpos. lia. }
    apply map_choose in Hne as (id & r & Hr). apply map_lookup_filter_Some in Hr as [? ?]. by exists id, r.
  - intros (id & r & Hr & Hp). apply Nat.neq_0_lt_0. rewrite map_size_ne_0_lookup.
    exists id. rewrite map_lookup_filter_Some_2 with (x:=r) by done. by eexists.
Qed.

Lemma insert_row_some r t t' :
  insert_row r t = Some t' ↔
  t !! r_id r = None ∧ t' = <[r_id r := r]> t
  ∧ ∀ id r0, t !! id = Some r0 → r_key_hash r0 = r_key_hash r → r_tenant r0 ≠ r_tenant r.
Proof.
  unfold insert_row. destruct (t !! r_id r) as [x|] eqn:E; [naive_solver|].
  destruct (Nat.ltb_spec 0 (count_where (same_hash (r_key_hash r) (r_tenant r)) t)) as [Hpos|Hz].
  - split; [done|]. intros (_ & _ & Hno). apply count_where_pos in Hpos as (id & r0 & Hr & Hs).
    unfold same_hash in Hs. bool_hyps. rewrite String.eqb_eq in *. by destruct (Hno id r0).
  - split.
    + intros [= <-]. split_and!; [done..|]. intros id r0 Hr Hh Ht.
      assert (0 < count_where (same_hash (r_key_hash r) (r_tenant r)) t)%nat; [|lia].
      apply count_where_pos. exists id, r0. split; [done|].
      unfold same_hash. by rewrite Hh, Ht, !String.eqb_refl.
    + naive_solver.
Qed.

Lemma count_where_ext p q (t : Table) :
  (∀ id r, t !! id = Some r → p r = q r) → count_where p t = count_where q t.
Proof.
  intros Hpq. unfold count_where. f_equal. apply map_filter_ext. intros id r Hr. cbn.
  by rewrite (Hpq id r Hr).
Qed.

Lemma count_where_zero p (t : Table) :
  (∀ id r, t !! id = Some r → p r = false) → count_where p t = 0%nat.
Proof.
  intros Hno. destruct (count_where p t) as [|n] eqn:E; [done|].
  assert (0 < count_where p t)%nat as (id & r & Hr & Hp)%count_where_pos by lia.
  by rewrite (Hno id r Hr) in Hp.
Qed.

Lemma update_where_ext_id p f (t : Table) :
  (∀ id r, t !! id = Some r → p r = false) → update_where p f t = t.
Proof.
  intros Hno. unfold update_where. rewrite <- (map_fmap_id t) at 2. apply map_fmap_ext.
  intros id r Hr. by rewrite (Hno id r Hr).
Qed.

Lemma select_where_elem `{GR : GoRuntime} p (t : Table) r :
  r ∈ select_where p t ↔ (∃ id, t !! id = Some r) ∧ p r = true.
Proof.
  unfold select_where. rewrite list_elem_of_filter, list_elem_of_fmap.
  split.
  - intros [Hp ([id r'] & -> & Hin)]. rewrite range_map_perm in Hin.
    apply elem_of_map_to_list in Hin. eauto.
  - intros [[id Hid] Hp]. split; [done|]. exists (id, r). split; [done|].
    rewrite range_map_perm. by apply elem_of_map_to_list.
Qed.

Lemma filter_map_snd {K V} (p : V → bool) (l : list (K * V)) :
  filter (fun v => p v = true) (map snd l) = map snd (filter (fun kv => p kv.2 = true) l).
Proof.
  induction l as [|[k v] l IH]; [done|]. cbn [map snd]. rewrite !filter_cons.
  destruct (p v) eqn:Hp.
  - rewrite !decide_True by done. cbn [map snd]. by rewrite IH.
  - rewrite !decide_False by (cbn; congruence). done.
Qed.

(** A predicate that at most one row satisfies selects at most one row. *)
Lemma select_where_unique `{GR : GoRuntime} p (t : Table) :
  (∀ id1 id2 r1 r2, t !! id1 = Some r1 → t !! id2 = Some r2 → p r1 = true → p r2 = true → id1 = id2) →
  match select_where p t with
  | [] => ∀ id r, t !! id = Some r → p r = false
  | [r] => (∃ id, t !! id = Some r) ∧ p r = true
  | _ => False
  end.
Proof.
  intros Huniq. pose proof (select_where_elem p t) as Hel.
  destruct (select_where p t) as [|r [|r2 rest]] eqn:E.
  - intros id r Hr. destruct (p r) eqn:Hp; [|done].
    destruct (not_elem_of_nil r). apply Hel. eauto.
  - apply Hel. by left.
  - assert (HN : NoDup (fst <$> filter (fun kv : string * Row => p kv.2 = true) (range_map t))).
    { apply (sublist_NoDup _ (fst <$> range_map t)).
      - rewrite range_map_perm. apply NoDup_fst_map_to_list.
      - apply (fmap_sublist fst). apply sublist_filter. }
    unfold select_where in E. rewrite filter_map_snd in E. clear Hel.
    destruct (filter _ (range_map t)) as [|[k1 v1] [|[k2 v2] l]] eqn:EF; try done.
    assert (Hm : ∀ k v, (k, v) ∈ (k1, v1) :: (k2, v2) :: l → t !! k = Some v ∧ p v = true).
    { intros k v Hkv. rewrite <- EF in Hkv. apply list_elem_of_filter in Hkv as [Hp Hkv].
      rewrite range_map_perm in Hkv. by apply elem_of_map_to_list in Hkv. }
    destruct (Hm k1 v1) as [? ?]; [by left|]. destruct (Hm k2 v2) as [? ?]; [by right; left|].
    cbn in HN. apply NoDup_cons in HN as [Hnin _]. apply Hnin.
    rewrite (Huniq k1 k2 v1 v2) by done. by left.
Qed.

End KeyTable.
