(* ===== verification/KeyStore.v ===== *)
(** * KeyStore: the PostgreSQL-backed API-key store

    Models [maas-api/internal/api_keys/store_postgres.go]: the routing of reads
    to a replica with one fallback to the primary, and every operation of
    [MetadataStore].  A world holds the two databases (the replica may lag the
    primary arbitrarily), the read-pool health flag and the query metrics; an
    environment holds the clocks and the faults the databases may show during
    one call. *)

From S2P Require Import Prelude GoStrings KeyTable.
From Stdlib Require String.
Local Open Scope string_scope.

Module KeyStore.
Import KeyTable.

(** ** Results *)

(** Wrapping with [%w] keeps what [errors.Is] sees; [ErrDB] is any other
    database error and [ErrInput] a rejected argument. *)
Inductive StoreErr :=
| ErrKeyNotFound
| ErrInvalidKey
| ErrEmptyJTI
| ErrEmptyName
| ErrTenantMismatch
| ErrInput (message : string)
| ErrDB (cause : string).

(** [ApiKey]: instants are kept as instants, not as RFC 3339 text. *)
Record ApiKey := {
  ID : string;
  k_Name : string;
  k_Description : string;
  Username : string;
  k_Subscription : string;
  Tenant : string;
  k_Groups : list string;
  CreationDate : option Z;
  ExpirationDate : option Z;
  k_Status : Status;
  LastUsedAt : option Z;
  Ephemeral : bool;
  k_Labels : option (gmap string string);
}.
Record PaginationParams := { Limit : Z; Offset : Z }.
Record PaginatedResult := { Keys : list ApiKey; HasMore : bool }.
Record SearchFilters := {
  f_Status : list string;
  f_Subscription : option string;
  SubscriptionNames : list string;
  IncludeEphemeral : option bool;
  LabelsContain : gmap string string;
}.
Record SortParams := { By : string; Order : string }.
Definition DefaultSortBy : string := "created_at".
Definition DefaultSortOrder : string := "desc".
Definition MaxLimit : Z := 100.
Definition ValidSortFields : list string := ["created_at"; "expires_at"; "last_used_at"; "name"].
Definition ValidSortOrders : list string := ["asc"; "desc"].

(** ** State and environment *)

Inductive Pool := ReadPool | WritePool.

Record World := {
  primary : Table;
  replica : Table;
  readHealthy : bool;
  queries : list (string * Pool);
  read_fallbacks : nat;
}.

(** [hasReadReplica]: whether [readDB] differs from [writeDB]. *)
Record PostgresStore := { tenantName : string; hasReadReplica : bool }.

(** A query may fail when issued, while its rows are iterated, or when they
    are closed. *)
Record ReadFault := {
  query_err : option string;
  iter_err : option string;
  close_err : option string;
}.
#[export] Instance ReadFault_eq_dec : EqDecision ReadFault.
Proof. solve_decision. Defined.
(** A failed write may or may not have been applied. *)
Inductive WriteFault := NoFault | NotApplied (e : string) | AppliedUnacked (e : string).

Record Env := {
  go_now : Z;
  db_now : Z;
  ctx_done : bool;
  read_fault : ReadFault;
  fallback_fault : ReadFault;
  write_fault : WriteFault;
}.
Definition no_read_fault : ReadFault := {| query_err := None; iter_err := None; close_err := None |}.
Definition faultless (now : Z) : Env := {|
  go_now := now; db_now := now; ctx_done := false;
  read_fault := no_read_fault; fallback_fault := no_read_fault; write_fault := NoFault |}.

Definition with_primary (t : Table) (w : World) : World := {|
  primary := t; replica := replica w; readHealthy := readHealthy w;
  queries := queries w; read_fallbacks := read_fallbacks w |}.
Definition with_health (b : bool) (w : World) : World := {|
  primary := primary w; replica := replica w; readHealthy := b;
  queries := queries w; read_fallbacks := read_fallbacks w |}.
Definition recordQuery (op : string) (p : Pool) (w : World) : World := {|
  primary := primary w; replica := replica w; readHealthy := readHealthy w;
  queries := queries w ++ [(op, p)]; read_fallbacks := read_fallbacks w |}.
Definition recordReadFallback (w : World) : World := {|
  primary := primary w; replica := replica w; readHealthy := readHealthy w;
  queries := queries w; read_fallbacks := S (read_fallbacks w) |}.

(** The rows a pool serves, and the fault it shows. *)
Definition pool_table (s : PostgresStore) (w : World) (p : Pool) : Table :=
  match p with
  | ReadPool => if hasReadReplica s then replica w else primary w
  | WritePool => primary w
  end.
Definition pool_fault (env : Env) (p : Pool) : ReadFault :=
  match p with ReadPool => read_fault env | WritePool => fallback_fault env end.

(** ** Read routing *)

Definition isDomainReadResult (e : StoreErr) : bool :=
  match e with ErrKeyNotFound | ErrInvalidKey => true | _ => false end.

Definition readWithFallback {T} (s : PostgresStore) (env : Env) (op : string)
    (run : World → Pool → World * Res StoreErr T) (w : World) : World * Res StoreErr T :=
  if negb (hasReadReplica s) then run (recordQuery op WritePool w) ReadPool
  else
    let '(w1, result) := run (recordQuery op ReadPool w) ReadPool in
    if match result with Ok _ => true | Err e => isDomainReadResult e end
    then (with_health true w1, result)
    else if ctx_done env then (w1, result)
    else run (recordQuery op WritePool (recordReadFallback (with_health false w1))) WritePool.

(** The closure [run]: the rows are consumed inside the fallback boundary, where
    an iteration or close error overrides whatever the callback returned, but
    not what it did. *)
Definition run_rows {T} (s : PostgresStore) (env : Env) (select : Table → list Row)
    (consumeRows : World → Res string (list Row) → World * Res StoreErr T)
    (w : World) (p : Pool) : World * Res StoreErr T :=
  match query_err (pool_fault env p) with
  | Some e => (w, Err (ErrDB e))
  | None =>
      let rows := match iter_err (pool_fault env p) with
                  | Some e => Err e
                  | None => Ok (select (pool_table s w p))
                  end in
      let '(w', result) := consumeRows w rows in
      let result := match iter_err (pool_fault env p) with
                    | Some e => Err (ErrDB e)
                    | None => result
                    end in
      (w', match close_err (pool_fault env p) with
           | Some e => Err (ErrDB e)
           | None => result
           end)
  end.

Definition queryReadRowsWithFallback {T} (s : PostgresStore) (env : Env) (op : string)
    (select : Table → list Row)
    (consumeRows : World → Res string (list Row) → World * Res StoreErr T)
    (w : World) : World * Res StoreErr T :=
  readWithFallback s env op (run_rows s env select consumeRows) w.

(** [writeDB.ExecContext] followed by [RowsAffected]. *)
Definition exec_write (env : Env) (f : Table → Table * nat) (w : World) : World * Res StoreErr nat :=
  match write_fault env with
  | NoFault => let '(t, n) := f (primary w) in (with_primary t w, Ok n)
  | NotApplied e => (w, Err (ErrDB e))
  | AppliedUnacked e => let '(t, _) := f (primary w) in (with_primary t w, Err (ErrDB e))
  end.
Definition updating (p : Row → bool) (f : Row → Row) (t : Table) : Table * nat :=
  (update_where p f t, count_where p t).
Definition deleting (p : Row → bool) (t : Table) : Table * nat :=
  (delete_where p t, count_where p t).

(** ** AddKey *)

Record AddArgs := {
  a_username : string;
  a_keyID : string;
  a_keyHash : string;
  a_name : string;
  a_description : string;
  a_userGroups : list string;
  a_subscription : string;
  a_tenant : string;
  a_expiresAt : option Z;
  a_ephemeral : bool;
  a_labels : gmap string string;
}.

Definition new_row (env : Env) (a : AddArgs) : Row := {|
  r_id := a_keyID a; r_username := a_username a; r_name := a_name a;
  r_description := Some (a_description a); r_key_hash := a_keyHash a;
  r_user_groups := a_userGroups a; r_subscription := a_subscription a;
  r_tenant := a_tenant a; r_status := StatusActive; r_created_at := go_now env;
  r_expires_at := a_expiresAt a; r_last_used_at := None; r_ephemeral := a_ephemeral a;
  r_labels := if (0 <? size (a_labels a))%nat then Some (a_labels a) else None;
  r_deleted_at := None;
|}.

Definition AddKey (s : PostgresStore) (env : Env) (a : AddArgs) (w : World) : World * Res StoreErr unit :=
  if String.eqb (a_keyID a) "" then (w, Err ErrEmptyJTI) else
  if String.eqb (a_name a) "" then (w, Err ErrEmptyName) else
  if String.eqb (a_keyHash a) "" then (w, Err (ErrInput "key hash is required")) else
  if String.eqb (a_subscription a) "" then (w, Err (ErrInput "subscription is required")) else
  if a_ephemeral a && match a_expiresAt a with None => true | Some _ => false end
  then (w, Err (ErrInput "ephemeral keys must have an expiration time")) else
  if negb (String.eqb (a_tenant a) (tenantName s)) then (w, Err (ErrInput "tenant mismatch")) else
  let w := recordQuery "add_key" WritePool w in
  match insert_row (new_row env a) (primary w) with
  | None => (w, Err (ErrDB "duplicate key value violates unique constraint"))
  | Some t =>
      let '(w, res) := exec_write env (fun _ => (t, 1%nat)) w in
      (w, _ <- res ;; Ok tt)
  end.

(** ** Paged reads *)

(** [ORDER BY name] uses the database's collation. *)
Class Collation := {
  collate_lt : string → string → bool;
  collate_weak : StrictWeak collate_lt;
}.
#[export] Existing Instance collate_weak.

(** [ASC NULLS LAST] and [DESC NULLS LAST]. *)
Definition nulls_last (less : Z → Z → bool) (a b : option Z) : bool :=
  match a, b with
  | Some x, Some y => less x y
  | Some _, None => true
  | None, _ => false
  end.
Definition directed {A} (desc : bool) (less : A → A → bool) (a b : A) : bool :=
  if desc then less b a else less a b.

(** [keys[:limit]] after fetching [limit + 1] rows from [offset]. *)
Definition fetch (p : PaginationParams) (l : list Row) : list Row :=
  take (Z.to_nat (Limit p) + 1) (drop (Z.to_nat (Offset p)) l).
Definition paginate (p : PaginationParams) (keys : list ApiKey) : PaginatedResult :=
  let hasMore := (Z.of_nat (length keys) >? Limit p)%Z in
  {| Keys := if hasMore then take (Z.to_nat (Limit p)) keys else keys; HasMore := hasMore |}.
Definition collect_page (p : PaginationParams) (project : Row → ApiKey) (w : World)
    (rows : Res string (list Row)) : World * Res StoreErr PaginatedResult :=
  (w, match rows with
      | Err e => Err (ErrDB e)
      | Ok rows => Ok (paginate p (map project rows))
      end).

Definition text (o : option string) : string := default "" o.

Definition list_key (r : Row) : ApiKey := {|
  ID := r_id r; k_Name := r_name r; k_Description := text (r_description r); Username := "";
  k_Subscription := r_subscription r; Tenant := r_tenant r; k_Groups := [];
  CreationDate := Some (r_created_at r); ExpirationDate := r_expires_at r;
  k_Status := r_status r; LastUsedAt := r_last_used_at r; Ephemeral := r_ephemeral r;
  k_Labels := None |}.
Definition get_key (now : Z) (r : Row) : ApiKey := {|
  ID := r_id r; k_Name := r_name r; k_Description := text (r_description r);
  Username := r_username r; k_Subscription := r_subscription r; Tenant := r_tenant r;
  k_Groups := []; CreationDate := Some (r_created_at r); ExpirationDate := r_expires_at r;
  k_Status := effective_status now r; LastUsedAt := r_last_used_at r;
  Ephemeral := r_ephemeral r; k_Labels := r_labels r |}.
Definition hash_key (r : Row) : ApiKey := {|
  ID := r_id r; k_Name := r_name r; k_Description := text (r_description r);
  Username := r_username r; k_Subscription := r_subscription r; Tenant := r_tenant r;
  k_Groups := r_user_groups r; CreationDate := None; ExpirationDate := None;
  k_Status := r_status r; LastUsedAt := r_last_used_at r; Ephemeral := r_ephemeral r;
  k_Labels := None |}.

Definition in_strings (x : string) (l : list string) : bool := bool_decide (x ∈ l).

Definition list_where (s : PostgresStore) (username : string) (statuses : list string) (r : Row) : bool :=
  String.eqb (r_tenant r) (tenantName s) && negb (r_ephemeral r)
  && (String.eqb username "" || String.eqb (r_username r) username)
  && (match statuses with [] => true | _ => false end
      || in_strings (status_text (r_status r)) (map trim_space statuses)).

(** [labels @> filter::jsonb] on objects of strings. *)
Definition labels_contain (labels : option (gmap string string)) (wanted : gmap string string) : bool :=
  match labels with
  | None => false
  | Some l => bool_decide (wanted ⊆ l)
  end.

(** [appendSubscriptionSearchFilters]. *)
Definition subscription_where (f : SearchFilters) (r : Row) : bool :=
  let subscription := match f_Subscription f with Some x => trim_space x | None => "" end in
  (String.eqb subscription "" || String.eqb (r_subscription r) subscription)
  && (match SubscriptionNames f with [] => true | _ => false end
      || in_strings (r_subscription r) (map trim_space (SubscriptionNames f))).

Definition search_where (s : PostgresStore) (now : Z) (username : string) (f : SearchFilters)
    (r : Row) : bool :=
  String.eqb (r_tenant r) (tenantName s) && not_deleted r
  && (default false (IncludeEphemeral f) || negb (r_ephemeral r))
  && (String.eqb username "" || String.eqb (r_username r) username)
  && (match f_Status f with [] => true | _ => false end
      || in_strings (status_text (effective_status now r)) (map trim_space (f_Status f)))
  && subscription_where f r
  && ((size (LabelsContain f) =? 0)%nat || labels_contain (r_labels r) (LabelsContain f)).

Section Reads.
Context `{GR : GoRuntime} `{CL : Collation}.

(** The [ORDER BY] clause, from the allow-listed column and direction. *)
Definition search_order (sort : SortParams) : Row → Row → bool :=
  let sortBy := if in_strings (By sort) ValidSortFields then By sort else DefaultSortBy in
  let sortOrder := if in_strings (to_lower (Order sort)) ValidSortOrders
                   then to_lower (Order sort) else DefaultSortOrder in
  let desc := negb (String.eqb sortOrder "asc") in
  if String.eqb sortBy "expires_at"
  then on_key r_expires_at (nulls_last (directed desc Z.ltb))
  else if String.eqb sortBy "last_used_at"
  then on_key r_last_used_at (nulls_last (directed desc Z.ltb))
  else if String.eqb sortBy "name"
  then on_key r_name (directed desc collate_lt)
  else on_key r_created_at (directed desc Z.ltb).

Definition bad_page (p : PaginationParams) : option StoreErr :=
  if (Limit p <? 1)%Z || (Limit p >? MaxLimit)%Z
  then Some (ErrInput "limit must be between 1 and 100")
  else if (Offset p <? 0)%Z then Some (ErrInput "offset must be non-negative") else None.

Definition List_ (s : PostgresStore) (env : Env) (username : string) (params : PaginationParams)
    (statuses : list string) (w : World) : World * Res StoreErr PaginatedResult :=
  match bad_page params with
  | Some e => (w, Err e)
  | None =>
      queryReadRowsWithFallback s env "list"
        (fun t => fetch params (sort_slice (on_key r_created_at (directed true Z.ltb))
                                 (select_where (list_where s username statuses) t)))
        (collect_page params list_key) w
  end.

Definition search_rows (s : PostgresStore) (now : Z) (username : string) (f : SearchFilters)
    (sort : SortParams) (t : Table) : list Row :=
  sort_slice (search_order sort) (select_where (search_where s now username f) t).

Definition Search (s : PostgresStore) (env : Env) (username : string) (filters : SearchFilters)
    (sort : SortParams) (pagination : PaginationParams) (w : World)
    : World * Res StoreErr PaginatedResult :=
  match bad_page pagination with
  | Some e => (w, Err e)
  | None =>
      queryReadRowsWithFallback s env "search"
        (fun t => fetch pagination (search_rows s (db_now env) username filters sort t))
        (collect_page pagination (get_key (db_now env))) w
  end.

(** ** Get *)

Definition id_where (s : PostgresStore) (keyID : string) (r : Row) : bool :=
  String.eqb (r_id r) keyID && String.eqb (r_tenant r) (tenantName s).

(** [QueryRowContext(...).Scan(...)]: [Ok None] is [sql.ErrNoRows]. *)
Definition query_row (s : PostgresStore) (env : Env) (w : World) (p : Pool) (where_ : Row → bool)
    : Res string (option Row) :=
  let f := pool_fault env p in
  match query_err f, iter_err f, close_err f with
  | None, None, None => Ok (head (select_where where_ (pool_table s w p)))
  | Some e, _, _ | None, Some e, _ | None, None, Some e => Err e
  end.

Definition Get (s : PostgresStore) (env : Env) (keyID : string) (w : World) : World * Res StoreErr ApiKey :=
  let healthy w := if hasReadReplica s then with_health true w else w in
  let found r := Ok (get_key (db_now env) r) in
  let w := recordQuery "get" (if hasReadReplica s then ReadPool else WritePool) w in
  match query_row s env w ReadPool (id_where s keyID) with
  | Ok None => (healthy w, Err ErrKeyNotFound)
  | Ok (Some r) => (healthy w, found r)
  | Err e =>
      if negb (hasReadReplica s) || ctx_done env then (w, Err (ErrDB e)) else
      let w := recordQuery "get" WritePool (recordReadFallback (with_health false w)) in
      (w, match query_row s env w WritePool (id_where s keyID) with
          | Ok None => Err ErrKeyNotFound
          | Ok (Some r) => found r
          | Err e => Err (ErrDB e)
          end)
  end.

(** ** GetByHash *)

Definition hash_where (s : PostgresStore) (keyHash : string) (r : Row) : bool :=
  same_hash keyHash (tenantName s) r && not_deleted r.

(** [UPDATE api_keys SET status = 'expired' WHERE id AND tenant AND status = 'active'],
    whose failure is only logged. *)
Definition mark_expired (s : PostgresStore) (env : Env) (keyID : string) (w : World) : World :=
  (exec_write env
    (updating (fun r => id_where s keyID r && is_active (r_status r)) (set_status StatusExpired)) w).1.

Definition consume_hash (s : PostgresStore) (env : Env) (w : World) (rows : Res string (list Row))
    : World * Res StoreErr ApiKey :=
  match rows with
  | Err e => (w, Err (ErrDB e))
  | Ok [] => (w, Err ErrKeyNotFound)
  | Ok (r :: _) =>
      let expired := match r_expires_at r with Some e => (e <? go_now env)%Z | None => false end in
      if expired && is_active (r_status r)
      then (mark_expired s env (r_id r) w, Err ErrInvalidKey)
      else match r_status r with
           | StatusActive => (w, Ok (hash_key r))
           | StatusRevoked | StatusExpired => (w, Err ErrInvalidKey)
           end
  end.

Definition GetByHash (s : PostgresStore) (env : Env) (keyHash : string) (w : World)
    : World * Res StoreErr ApiKey :=
  queryReadRowsWithFallback s env "get_by_hash" (select_where (hash_where s keyHash))
    (consume_hash s env) w.

End Reads.

(** ** Mutations *)

(** [bulkRevokeWhereClause]. *)
Definition bulkRevokeWhereClause (s : PostgresStore) (now : Z) (username subscription : string)
    (r : Row) : bool :=
  String.eqb (r_tenant r) (tenantName s) && is_active (r_status r) && not_deleted r
  && expires_after_or_never now r
  && (String.eqb username "" || String.eqb (r_username r) username)
  && (String.eqb subscription "" || String.eqb (r_subscription r) subscription).

Definition BulkRevoke (s : PostgresStore) (env : Env) (username subscription tenant : string)
    (dryRun : bool) (w : World) : World * Res StoreErr nat :=
  if String.eqb username "" && String.eqb subscription ""
  then (w, Err (ErrInput "at least one of username or subscription is required")) else
  if negb (String.eqb tenant (tenantName s)) then (w, Err ErrTenantMismatch) else
  let where_ := bulkRevokeWhereClause s (db_now env) username subscription in
  let w := recordQuery "bulk_revoke" WritePool w in
  if dryRun then
    (w, match write_fault env with
        | NoFault => Ok (count_where where_ (primary w))
        | NotApplied e | AppliedUnacked e => Err (ErrDB e)
        end)
  else exec_write env (updating where_ (set_status StatusRevoked)) w.

Definition tenant_where (s : PostgresStore) (r : Row) : bool :=
  String.eqb (r_tenant r) (tenantName s) && not_deleted r.

Definition InvalidateTenant (s : PostgresStore) (env : Env) (tenant : string) (w : World)
    : World * Res StoreErr nat :=
  if negb (String.eqb tenant (tenantName s)) then (w, Err ErrTenantMismatch) else
  exec_write env (updating (tenant_where s) (soft_delete (db_now env)))
    (recordQuery "invalidate_tenant" WritePool w).

Definition InvalidateSubscription (s : PostgresStore) (env : Env) (tenant subscription : string)
    (w : World) : World * Res StoreErr nat :=
  if negb (String.eqb tenant (tenantName s)) then (w, Err ErrTenantMismatch) else
  if String.eqb (trim_space subscription) "" then (w, Err (ErrInput "subscription is required")) else
  exec_write env
    (updating (fun r => String.eqb (r_tenant r) tenant && String.eqb (r_subscription r) subscription
                        && not_deleted r) (soft_delete (db_now env)))
    (recordQuery "invalidate_subscription" WritePool w).

Definition Revoke (s : PostgresStore) (env : Env) (keyID : string) (w : World) : World * Res StoreErr unit :=
  let '(w, res) := exec_write env
    (updating (fun r => id_where s keyID r && is_active (r_status r)) (set_status StatusRevoked))
    (recordQuery "revoke" WritePool w) in
  (w, n <- res ;; reject ErrKeyNotFound when (n =? 0)%nat ;; Ok tt).

Definition UpdateLastUsed (s : PostgresStore) (env : Env) (keyID : string) (w : World)
    : World * Res StoreErr unit :=
  let '(w, res) := exec_write env (updating (id_where s keyID) (set_last_used (go_now env)))
    (recordQuery "update_last_used" WritePool w) in
  (w, _ <- res ;; Ok tt).

(** [INTERVAL '30 minutes']. *)
Definition ephemeral_grace : Z := 30 * 60 * 1000000000.

Definition DeleteExpiredEphemeral (s : PostgresStore) (env : Env) (w : World) : World * Res StoreErr nat :=
  exec_write env
    (deleting (fun r => String.eqb (r_tenant r) (tenantName s) && not_deleted r && r_ephemeral r
                        && expires_before (db_now env - ephemeral_grace) r))
    (recordQuery "delete_expired_ephemeral" WritePool w).

Definition deleted_before (cutoff : Z) (r : Row) : bool :=
  match r_deleted_at r with Some d => (d <? cutoff)%Z | None => false end.

Definition DeleteSoftDeleted (s : PostgresStore) (env : Env) (retention : Z) (w : World)
    : World * Res StoreErr nat :=
  if (retention <? 0)%Z then (w, Err (ErrInput "retention must not be negative")) else
  exec_write env
    (deleting (fun r => String.eqb (r_tenant r) (tenantName s)
                        && deleted_before (go_now env - retention) r))
    (recordQuery "delete_soft_deleted" WritePool w).

End KeyStore.
