(* ===== verification/KeyStoreFacts.v ===== *)
(** * KeyStoreFacts: invariants and safety of the API-key store

    Every operation of [KeyStore] changes the primary by [INSERT], scoped
    [UPDATE] and scoped [DELETE] statements; the relation [change] captures
    what those may do, and the table invariant, the one-way key lifecycle,
    tenant isolation and the finality of revocation follow by induction on it. *)

From stdpp Require Import relations.
From S2P Require Import Prelude GoStrings KeyTable KeyStore.
From Stdlib Require String.
Local Open Scope string_scope.

Module KeyStoreFacts.
Import KeyTable KeyStore.

(** ** Operations and worlds *)

Inductive Op :=
| OpAddKey (a : AddArgs)
| OpSearch (username : string) (f : SearchFilters) (sort : SortParams) (p : PaginationParams)
| OpGet (keyID : string)
| OpGetByHash (keyHash : string)
| OpBulkRevoke (username subscription tenant : string) (dryRun : bool)
| OpInvalidateTenant (tenant : string)
| OpInvalidateSubscription (tenant subscription : string)
| OpRevoke (keyID : string)
| OpUpdateLastUsed (keyID : string)
| OpDeleteExpiredEphemeral
| OpDeleteSoftDeleted (retention : Z).

Section Facts.
Context `{GR : GoRuntime} `{CL : Collation}.

Definition run_op (s : PostgresStore) (env : Env) (op : Op) (w : World) : World :=
  match op with
  | OpAddKey a => (AddKey s env a w).1
  | OpSearch u f sort p => (Search s env u f sort p w).1
  | OpGet id => (Get s env id w).1
  | OpGetByHash h => (GetByHash s env h w).1
  | OpBulkRevoke u sub t dry => (BulkRevoke s env u sub t dry w).1
  | OpInvalidateTenant t => (InvalidateTenant s env t w).1
  | OpInvalidateSubscription t sub => (InvalidateSubscription s env t sub w).1
  | OpRevoke id => (Revoke s env id w).1
  | OpUpdateLastUsed id => (UpdateLastUsed s env id w).1
  | OpDeleteExpiredEphemeral => (DeleteExpiredEphemeral s env w).1
  | OpDeleteSoftDeleted d => (DeleteSoftDeleted s env d w).1
  end.

Definition replicate (w : World) : World := {|
  primary := primary w; replica := primary w; readHealthy := readHealthy w;
  queries := queries w; read_fallbacks := read_fallbacks w |}.

(** Any store (one per tenant) may run any operation under any environment,
    and the replica may catch up at any time. *)
Inductive step : World → World → Prop :=
| step_op s env op w : step w (run_op s env op w)
| step_replicate w : step w (replicate w).

(** ** What a statement may do to the table *)

(** A row's life: the status leaves active once, the deletion mark is set
    once and only on a row that is not left active, the rest never changes. *)
Definition evolves (r r' : Row) : Prop :=
  ∃ st lu del, r' = set_columns r st lu del
    ∧ (st = r_status r ∨ r_status r = StatusActive ∧ st ≠ StatusActive)
    ∧ (del = r_deleted_at r ∨ r_deleted_at r = None ∧ st ≠ StatusActive).

Record add_valid (s : PostgresStore) (a : AddArgs) : Prop := {
  av_id : a_keyID a ≠ "";
  av_name : a_name a ≠ "";
  av_hash : a_keyHash a ≠ "";
  av_subscription : a_subscription a ≠ "";
  av_ephemeral : a_ephemeral a = true → a_expiresAt a ≠ None;
  av_tenant : a_tenant a = tenantName s;
}.

(** [adding] is the hash an insert may add. *)
Inductive change (s : PostgresStore) (adding : option string) (t : Table) : Table → Prop :=
| ch_insert env a t' :
    add_valid s a → adding = Some (a_keyHash a) → insert_row (new_row env a) t = Some t' →
    change s adding t t'
| ch_update p f :
    (∀ r, p r = true → r_tenant r = tenantName s) →
    (∀ r, p r = true → evolves r (f r)) → change s adding t (update_where p f t)
| ch_delete p :
    (∀ r, p r = true → r_tenant r = tenantName s) → change s adding t (delete_where p t).

Definition op_adds (op : Op) : option string :=
  match op with OpAddKey a => Some (a_keyHash a) | _ => None end.

Lemma is_active_eq st : is_active st = true ↔ st = StatusActive.
Proof. by destruct st. Qed.

Lemma evolves_status st r :
  st ≠ StatusActive → is_active (r_status r) = true → evolves r (set_status st r).
Proof.
  rewrite is_active_eq. intros ??. exists st, (r_last_used_at r), (r_deleted_at r).
  split_and!; [done|by right|by left].
Qed.
Lemma evolves_last_used now r : evolves r (set_last_used now r).
Proof. exists (r_status r), (Some now), (r_deleted_at r). split_and!; [done|by left|by left]. Qed.
Lemma evolves_soft_delete now r : not_deleted r = true → evolves r (soft_delete now r).
Proof.
  unfold not_deleted. intros Hd. eexists _, _, _. split; [done|].
  destruct (r_status r), (r_deleted_at r); simpl; naive_solver.
Qed.

Lemma exec_write_change s env adding f w :
  (∀ t, change s adding t (f t).1) →
  rtc (change s adding) (primary w) (primary (exec_write env f w).1)
  ∧ replica (exec_write env f w).1 = replica w.
Proof.
  intros Hf. unfold exec_write. specialize (Hf (primary w)).
  destruct (write_fault env), (f (primary w)) as [t n]; cbn in *; split;
    try done; by apply rtc_once.
Qed.

Lemma read_with_fallback_change {T} s env adding op run (w : World) (res : World * Res StoreErr T) :
  (∀ w p, rtc (change s adding) (primary w) (primary (run w p).1) ∧ replica (run w p).1 = replica w) →
  readWithFallback s env op run w = res →
  rtc (change s adding) (primary w) (primary res.1) ∧ replica res.1 = replica w.
Proof.
  intros Hrun <-. unfold readWithFallback.
  destruct (hasReadReplica s); cbn [negb]; [|apply (Hrun (recordQuery op WritePool w))].
  pose proof (Hrun (recordQuery op ReadPool w) ReadPool) as [H1 H2].
  destruct (run (recordQuery op ReadPool w) ReadPool) as [w1 result]. cbn in H1, H2.
  destruct (match result with Ok _ => true | Err e => isDomainReadResult e end); [done|].
  destruct (ctx_done env); [done|].
  pose proof (Hrun (recordQuery op WritePool (recordReadFallback (with_health false w1))) WritePool) as [H3 H4].
  cbn in H3, H4. split; [by etrans|by rewrite H4].
Qed.

Lemma query_rows_change {T} s env adding op select consume (w : World) (res : World * Res StoreErr T) :
  (∀ w rows, rtc (change s adding) (primary w) (primary (consume w rows).1)
             ∧ replica (consume w rows).1 = replica w) →
  queryReadRowsWithFallback s env op select consume w = res →
  rtc (change s adding) (primary w) (primary res.1) ∧ replica res.1 = replica w.
Proof.
  intros Hc. unfold queryReadRowsWithFallback. apply read_with_fallback_change.
  intros w' p. unfold run_rows. destruct (query_err _); [done|].
  set (rows := match iter_err _ with Some e => Err e | None => _ end).
  specialize (Hc w' rows). by destruct (consume w' rows).
Qed.

Lemma mark_expired_change s env adding id w :
  rtc (change s adding) (primary w) (primary (mark_expired s env id w))
  ∧ replica (mark_expired s env id w) = replica w.
Proof.
  apply exec_write_change. intros t. apply ch_update.
  - intros r Hr. unfold id_where in Hr. bool_hyps. by apply String.eqb_eq.
  - intros r [_ Ha]%andb_true_iff. by apply evolves_status.
Qed.

Lemma add_key_change s env a w :
  rtc (change s (Some (a_keyHash a))) (primary w) (primary (AddKey s env a w).1)
  ∧ replica (AddKey s env a w).1 = replica w.
Proof.
  unfold AddKey.
  destruct (String.eqb_spec (a_keyID a) ""); [done|].
  destruct (String.eqb_spec (a_name a) ""); [done|].
  destruct (String.eqb_spec (a_keyHash a) ""); [done|].
  destruct (String.eqb_spec (a_subscription a) ""); [done|].
  destruct (a_ephemeral a && _) eqn:He; [done|].
  destruct (String.eqb_spec (a_tenant a) (tenantName s)); [|done]. cbn [negb primary recordQuery].
  destruct (insert_row (new_row env a) (primary w)) as [t|] eqn:Ei; [|done].
  unfold exec_write. cbn [primary recordQuery].
  assert (Hc : change s (Some (a_keyHash a)) (primary w) t).
  { eapply ch_insert; [|done|done]. split; try done. intros Hee. rewrite Hee in He.
    by destruct (a_expiresAt a). }
  destruct (write_fault env); cbn; split; try done; by apply rtc_once.
Qed.

Lemma eqb_and_true x y b : String.eqb x y && b = true → x = y.
Proof. intros [? _]%andb_true_iff. by apply String.eqb_eq. Qed.

(** Each operation is a sequence of such statements, and leaves the replica alone. *)
Lemma run_op_change s env op w :
  rtc (change s (op_adds op)) (primary w) (primary (run_op s env op w))
  ∧ replica (run_op s env op w) = replica w.
Proof.
  destruct op; cbn [run_op op_adds].
  - apply add_key_change.
  - unfold Search. destruct (bad_page p); [done|]. by eapply query_rows_change; [|done].
  - unfold Get. split_cases.
  - eapply query_rows_change; [|done]. intros w' rows. unfold consume_hash.
    destruct rows as [[|r l]|]; [done| |done].
    destruct (_ && _); [apply mark_expired_change|]. by destruct (r_status r).
  - unfold BulkRevoke. destruct (_ && _); [done|]. destruct (negb _); [done|].
    destruct dryRun; [done|]. apply (exec_write_change _ _ _ _ (recordQuery _ _ w)).
    intros t. apply ch_update; unfold bulkRevokeWhereClause; intros r Hr; bool_hyps.
    + by apply String.eqb_eq.
    + by apply evolves_status.
  - unfold InvalidateTenant. destruct (negb _); [done|].
    apply (exec_write_change _ _ _ _ (recordQuery _ _ w)).
    intros t. apply ch_update; intros r Hr; unfold tenant_where in Hr.
    + by eapply eqb_and_true.
    + apply evolves_soft_delete. by bool_hyps.
  - unfold InvalidateSubscription. destruct (String.eqb_spec tenant (tenantName s)) as [->|]; [|done].
    cbn [negb]. destruct (String.eqb _ ""); [done|].
    apply (exec_write_change _ _ _ _ (recordQuery _ _ w)).
    intros t. apply ch_update; intros r Hr; bool_hyps.
    + by apply String.eqb_eq.
    + by apply evolves_soft_delete.
  - unfold Revoke.
    pose proof (exec_write_change s env None (updating (fun r => id_where s keyID r
      && is_active (r_status r)) (set_status StatusRevoked)) (recordQuery "revoke" WritePool w)) as Hw.
    destruct (exec_write _ _ _) as [w' res]. apply Hw. intros t. apply ch_update; intros r Hr;
      unfold id_where in Hr; bool_hyps; [by apply String.eqb_eq|].
    by apply evolves_status.
  - unfold UpdateLastUsed.
    pose proof (exec_write_change s env None (updating (id_where s keyID) (set_last_used (go_now env)))
      (recordQuery "update_last_used" WritePool w)) as Hw.
    destruct (exec_write _ _ _) as [w' res]. apply Hw. intros t. apply ch_update; intros r Hr;
      [|apply evolves_last_used]. unfold id_where in Hr. bool_hyps. by apply String.eqb_eq.
  - apply (exec_write_change _ _ _ _ (recordQuery _ _ w)). intros t. apply ch_delete.
    intros r Hr. bool_hyps. by apply String.eqb_eq.
  - unfold DeleteSoftDeleted. destruct (retention <? 0)%Z; [done|].
    apply (exec_write_change _ _ _ _ (recordQuery _ _ w)). intros t. apply ch_delete.
    intros r Hr. bool_hyps. by apply String.eqb_eq.
Qed.

(** ** The table invariant *)

Record row_ok (id : string) (r : Row) : Prop := {
  ro_id : r_id r = id;
  ro_id_ne : id ≠ "";
  ro_name : r_name r ≠ "";
  ro_hash : r_key_hash r ≠ "";
  ro_subscription : r_subscription r ≠ "";
  ro_ephemeral : r_ephemeral r = true → r_expires_at r ≠ None;
  ro_deleted : r_deleted_at r ≠ None → r_status r ≠ StatusActive;
}.
Record table_ok (t : Table) : Prop := {
  to_rows : ∀ id r, t !! id = Some r → row_ok id r;
  to_unique : ∀ id1 id2 r1 r2, t !! id1 = Some r1 → t !! id2 = Some r2 →
    r_key_hash r1 = r_key_hash r2 → r_tenant r1 = r_tenant r2 → id1 = id2;
}.

Lemma table_ok_empty : table_ok ∅.
Proof. split; intros *; by rewrite lookup_empty. Qed.

Lemma row_ok_evolves id r r' : row_ok id r → evolves r r' → row_ok id r'.
Proof.
  intros [????? He Hd] (st & lu & del & -> & Hst & Hdel). split; try done.
  cbn. intros Hne. destruct Hdel as [->|[_ ?]]; [|done].
  destruct Hst as [->|[_ ?]]; [by apply Hd|done].
Qed.

Lemma evolves_same_key r r' : evolves r r' → r_key_hash r' = r_key_hash r ∧ r_tenant r' = r_tenant r.
Proof. by intros (st & lu & del & -> & _). Qed.

Lemma new_row_ok s env a : add_valid s a → row_ok (a_keyID a) (new_row env a).
Proof. intros []. by split. Qed.

(** A row after an update is an evolved row from before. *)
Lemma update_evolves p f (t : Table) id r' :
  (∀ r, p r = true → evolves r (f r)) → update_where p f t !! id = Some r' →
  ∃ r, t !! id = Some r ∧ (r' = r ∨ evolves r r').
Proof.
  intros Hf (r & Hr & ->)%update_where_lookup. exists r. split; [done|].
  destruct (p r) eqn:E; [right; by apply Hf|by left].
Qed.

Lemma change_table_ok s adding t t' : change s adding t t' → table_ok t → table_ok t'.
Proof.
  intros [env a t1 Hv _ (Hnone & -> & Hno)%insert_row_some|p f Hp Hf|p Hp] [Hrows Huniq].
  - assert (Hid : r_id (new_row env a) = a_keyID a) by done. split.
    + intros id r [[<- <-]|[_ ?]]%lookup_insert_Some; [by eapply new_row_ok|by apply Hrows].
    + intros id1 id2 r1 r2 [[<- <-]|[Hn1 H1]]%lookup_insert_Some [[<- <-]|[Hn2 H2]]%lookup_insert_Some Hh Ht;
        [done|..|by eapply Huniq].
      * by destruct (Hno _ _ H2).
      * by destruct (Hno _ _ H1).
  - split.
    + intros id r' (r & Hr & [->|He])%update_evolves; [by apply Hrows| |done].
      eapply row_ok_evolves; [by apply Hrows|done].
    + intros id1 id2 r1 r2 H1 H2 Hh Ht.
      apply update_evolves in H1 as (x1 & ? & Hx1); [|done].
      apply update_evolves in H2 as (x2 & ? & Hx2); [|done].
      assert (r_key_hash r1 = r_key_hash x1 ∧ r_tenant r1 = r_tenant x1) as [Eh1 Et1]
        by (destruct Hx1 as [->|?]; [done|by apply evolves_same_key]).
      assert (r_key_hash r2 = r_key_hash x2 ∧ r_tenant r2 = r_tenant x2) as [Eh2 Et2]
        by (destruct Hx2 as [->|?]; [done|by apply evolves_same_key]).
      eapply Huniq; eauto; congruence.
  - split.
    + intros id r [Hr _]%delete_where_lookup. by apply Hrows.
    + intros id1 id2 r1 r2 [? _]%delete_where_lookup [? _]%delete_where_lookup. by eapply Huniq.
Qed.

Lemma rtc_change_table_ok s adding t t' : rtc (change s adding) t t' → table_ok t → table_ok t'.
Proof. induction 1; eauto using change_table_ok. Qed.

Definition empty_world : World := {|
  primary := ∅; replica := ∅; readHealthy := true; queries := []; read_fallbacks := 0 |}.

(** C33 In every reachable world both tables are well formed: a key hash is
    unique within its tenant, ids, names, hashes and subscriptions are never
    empty, an ephemeral key has an expiration, and a soft-deleted key is never
    left active — whatever the interleaving of stores and operations, the
    clocks, and the faults of the databases. *)
Theorem store_invariant w :
  rtc step empty_world w → table_ok (primary w) ∧ table_ok (replica w).
Proof.
  intros Hr. assert (Hinv : table_ok (primary empty_world) ∧ table_ok (replica empty_world))
    by (split; apply table_ok_empty).
  induction Hr as [|w1 w2 w3 Hstep _ IH]; [done|]. apply IH.
  destruct Hinv as [Hp Hrep]. destruct Hstep as [s env op w|w]; [|done].
  destruct (run_op_change s env op w) as [Hch ->]. split; [|done].
  by eapply rtc_change_table_ok.
Qed.

(** ** The lifecycle of one key *)

Lemma evolves_refl r : evolves r r.
Proof. exists (r_status r), (r_last_used_at r), (r_deleted_at r). split_and!; [by destruct r|by left|by left]. Qed.

Lemma evolves_trans r1 r2 r3 : evolves r1 r2 → evolves r2 r3 → evolves r1 r3.
Proof.
  intros (s1 & l1 & d1 & -> & Hs1 & Hd1) (s2 & l2 & d2 & -> & Hs2 & Hd2). cbn in *.
  exists s2, l2, d2. split; [done|]. naive_solver.
Qed.

Lemma rtc_change_row s t t' id r' :
  rtc (change s None) t t' → t' !! id = Some r' → ∃ r, t !! id = Some r ∧ evolves r r'.
Proof.
  intros Hc. revert r'. induction Hc as [t|t1 t2 t3 Hc _ IH]; intros r' Hr'.
  { exists r'. split; [done|apply evolves_refl]. }
  destruct (IH _ Hr') as (r2 & H2 & He). destruct Hc as [|p f Hp Hf|p Hp]; [done|..].
  - apply update_evolves in H2 as (r & Hr & Hor); [|done]. exists r. split; [done|].
    destruct Hor as [->|?]; [done|by eapply evolves_trans].
  - apply delete_where_lookup in H2 as [H2 _]. eauto.
Qed.

Lemma add_key_rows s env a w id r :
  primary w !! id = Some r → primary (AddKey s env a w).1 !! id = Some r.
Proof.
  intros Hr. unfold AddKey. do 4 (destruct (String.eqb _ ""); [done|]).
  destruct (_ && _); [done|]. destruct (negb _); [done|].
  destruct (insert_row _ _) as [t|] eqn:E; [|done].
  apply insert_row_some in E as (Hnone & -> & _). cbn [primary recordQuery r_id new_row] in Hnone.
  assert (a_keyID a ≠ id) by congruence. unfold exec_write.
  destruct (write_fault env); cbn; [|done|]; by rewrite lookup_insert_ne.
Qed.

(** Whatever an operation does, a key that exists before and after it keeps
    its id, owner, hash, groups, subscription, tenant, creation, expiration and
    labels; its status only ever leaves active (so revoked and expired are
    final), and a soft-deletion mark is never moved or cleared. *)
Theorem key_lifecycle_one_way s env op w id r r' :
  primary w !! id = Some r → primary (run_op s env op w) !! id = Some r' →
  evolves r r'.
Proof.
  intros Hr Hr'. destruct (op_adds op) eqn:E.
  - destruct op; try done. cbn [run_op] in Hr'. rewrite (add_key_rows s env a w id r Hr) in Hr'.
    injection Hr' as <-. apply evolves_refl.
  - pose proof (run_op_change s env op w) as [Hch _]. rewrite E in Hch.
    destruct (rtc_change_row _ _ _ _ _ Hch Hr') as (x & Hx & He). congruence.
Qed.

(** ** Tenant isolation *)

Lemma change_other_tenant s adding t t' id r :
  change s adding t t' → r_tenant r ≠ tenantName s →
  t !! id = Some r ↔ t' !! id = Some r.
Proof.
  intros [env a t1 Hv _ (Hnone & -> & Hno)%insert_row_some|p f Hp Hf|p Hp] Ht.
  - rewrite lookup_insert_Some. split.
    + intros Hr. right. split; [congruence|done].
    + intros [[_ <-]|[_ ?]]; [|done]. by destruct Hv.
  - rewrite update_where_lookup. split.
    + intros Hr. exists r. split; [done|]. destruct (p r) eqn:E; [by apply Hp in E|done].
    + intros (x & Hx & ->). destruct (p x) eqn:E; [|done]. exfalso. apply Ht.
      rewrite (proj2 (evolves_same_key _ _ (Hf x E))). by apply Hp.
  - rewrite delete_where_lookup. split; [|naive_solver]. intros Hr. split; [done|].
    destruct (p r) eqn:E; [by apply Hp in E|done].
Qed.

(** C34 An operation of one tenant's store leaves every other tenant's rows
    exactly as they are: none is created, altered or removed. *)
Theorem tenant_isolation s env op w id r :
  r_tenant r ≠ tenantName s →
  primary w !! id = Some r ↔ primary (run_op s env op w) !! id = Some r.
Proof.
  intros Ht. destruct (run_op_change s env op w) as [Hc _].
  induction Hc as [|t1 t2 t3 Hc _ IH]; [done|].
  rewrite <- IH. by eapply change_other_tenant.
Qed.

End Facts.
End KeyStoreFacts.
