(* ===== verification/KeyStoreSpecs.v ===== *)
(** * KeyStoreSpecs: what each store operation returns and does

    Functional specifications of [KeyStore]'s operations — the validation
    lookup, revocation, lifecycle invalidation, cleanup, the paged search and
    the read fallback — and the finality of revocation over whole histories. *)

From stdpp Require Import relations.
From S2P Require Import Prelude GoStrings KeyTable KeyStore KeyStoreFacts.
From Stdlib Require String.
Local Open Scope string_scope.

Module KeyStoreSpecs.
Import KeyTable KeyStore KeyStoreFacts.

Section Specs.
Context `{GR : GoRuntime} `{CL : Collation}.

(** ** Reads and the fallback *)

(** Where a successful read got its result: from the read pool, or after a
    failed attempt there from the primary. *)
Lemma read_with_fallback_ok {T} s env op (run : World → Pool → World * Res StoreErr T) w k :
  (readWithFallback s env op run w).2 = Ok k →
  ∃ w0, (run w0 ReadPool).2 = Ok k ∧ primary w0 = primary w ∧ replica w0 = replica w
  ∨ (run w0 WritePool).2 = Ok k
    ∧ ∃ w1, primary w1 = primary w ∧ primary w0 = primary (run w1 ReadPool).1.
Proof.
  unfold readWithFallback. destruct (hasReadReplica s); cbn [negb].
  2:{ intros Hr. eexists. by left. }
  destruct (run (recordQuery op ReadPool w) ReadPool) as [w1 result] eqn:E.
  destruct result as [x|e].
  { cbn. intros [= ->]. exists (recordQuery op ReadPool w). left. by rewrite E. }
  destruct (isDomainReadResult e); [done|]. destruct (ctx_done env); [done|].
  intros Hr. eexists. right. split; [exact Hr|]. exists (recordQuery op ReadPool w). by rewrite E.
Qed.

Lemma run_rows_ok {T} s env select consume w p (k : T) :
  (run_rows s env select consume w p).2 = Ok k →
  (consume w (Ok (select (pool_table s w p)))).2 = Ok k.
Proof.
  unfold run_rows. destruct (query_err _); [done|]. destruct (iter_err _) as [e|].
  { destruct (consume w (Err e)). by destruct (close_err _). }
  destruct (consume w _) as [w' res]. by destruct (close_err _).
Qed.

Lemma query_rows_ok {T} s env op select consume w (k : T) :
  (∀ w rows, rtc (change s None) (primary w) (primary (consume w rows).1)) →
  (queryReadRowsWithFallback s env op select consume w).2 = Ok k →
  ∃ t w', (t = pool_table s w ReadPool ∨ rtc (change s None) (primary w) t)
    ∧ (consume w' (Ok (select t))).2 = Ok k.
Proof.
  intros Hc (w0 & Hr)%read_with_fallback_ok.
  destruct Hr as [(Hr & Hp & Hrep)|(Hr & w1 & Hp1 & Hp0)].
  - exists (pool_table s w0 ReadPool), w0. split; [|by eapply run_rows_ok].
    left. unfold pool_table. by rewrite Hp, Hrep.
  - exists (primary w0), w0. split; [right|by apply run_rows_ok in Hr].
    rewrite Hp0, <- Hp1. unfold run_rows. destruct (query_err _); [done|].
    set (rows := match iter_err _ with Some e => Err e | None => _ end).
    specialize (Hc w1 rows). by destruct (consume w1 rows).
Qed.

Lemma consume_hash_change s env w rows :
  rtc (change s None) (primary w) (primary (consume_hash s env w rows).1).
Proof.
  unfold consume_hash. destruct rows as [[|r l]|]; [done| |done].
  destruct (_ && _); [apply mark_expired_change|]. by destruct (r_status r).
Qed.

(** The row behind an accepted key is live, active, unexpired and of this
    tenant, in the table that answered. *)
Lemma get_by_hash_ok s env h w k :
  (GetByHash s env h w).2 = Ok k →
  ∃ t id r, (t = pool_table s w ReadPool ∨ rtc (change s None) (primary w) t)
    ∧ t !! id = Some r ∧ hash_where s h r = true ∧ r_status r = StatusActive
    ∧ (∀ e, r_expires_at r = Some e → (go_now env ≤ e)%Z) ∧ k = hash_key r.
Proof.
  intros (t & w' & Ht & Hc)%query_rows_ok; [|apply consume_hash_change].
  exists t. unfold consume_hash in Hc.
  pose proof (select_where_elem (hash_where s h) t) as Hel.
  destruct (select_where (hash_where s h) t) as [|r l]; [done|].
  destruct (proj1 (Hel r)) as [(id & Hid) Hw]; [by left|]. exists id, r.
  destruct (match r_expires_at r with Some e => (e <? go_now env)%Z | None => false end) eqn:Ee;
    destruct (r_status r) eqn:Es; cbn in Hc; try done.
  injection Hc as <-. split_and!; try done. intros e He. rewrite He in Ee. bool_hyps. lia.
Qed.

(** ** Revocation is final *)

(** No row with this hash in this tenant could be accepted. *)
Definition dead (tenant h : string) (t : Table) : Prop :=
  ∀ id r, t !! id = Some r → r_key_hash r = h → r_tenant r = tenant →
    r_status r ≠ StatusActive ∨ r_deleted_at r ≠ None.

Lemma dead_evolves r r' :
  evolves r r' → r_status r ≠ StatusActive ∨ r_deleted_at r ≠ None →
  r_status r' ≠ StatusActive ∨ r_deleted_at r' ≠ None.
Proof. intros (st & lu & del & -> & Hs & Hd). cbn. naive_solver. Qed.

Lemma change_dead s adding tenant h t t' :
  (adding = Some h → tenantName s ≠ tenant) → change s adding t t' →
  dead tenant h t → dead tenant h t'.
Proof.
  intros Hadd [env a t1 Hv Ha (Hnone & -> & Hno)%insert_row_some|p f Hp Hf|p Hp] Hd id r'.
  - intros [[<- <-]|[_ ?]]%lookup_insert_Some Hh Ht; [|by eapply Hd].
    cbn in Hh, Ht. subst. destruct Hadd; [done|]. symmetry. apply Hv.
  - intros (r & Hr & Hor)%update_evolves Hh Ht; [|done]. destruct Hor as [->|He]; [by eapply Hd|].
    destruct (evolves_same_key _ _ He) as [Eh Et].
    eapply dead_evolves; [done|]. eapply Hd; [done|congruence..].
  - intros [? _]%delete_where_lookup. by eapply Hd.
Qed.

Lemma rtc_change_dead s adding tenant h t t' :
  (adding = Some h → tenantName s ≠ tenant) → rtc (change s adding) t t' →
  dead tenant h t → dead tenant h t'.
Proof.
  intros Hadd Hc. induction Hc as [|t1 t2 t3 Hc _ IH]; [done|]. intros Hd.
  apply IH. by eapply change_dead.
Qed.

(** A history in which this hash is not added again to this tenant. *)
Inductive quiet_step (tenant h : string) : World → World → Prop :=
| quiet_op s env op w :
    (op_adds op = Some h → tenantName s ≠ tenant) → quiet_step tenant h w (run_op s env op w)
| quiet_replicate w : quiet_step tenant h w (replicate w).

Lemma quiet_dead tenant h w w' :
  rtc (quiet_step tenant h) w w' →
  (dead tenant h (primary w) → dead tenant h (primary w'))
  ∧ (dead tenant h (primary w) → dead tenant h (replica w) → dead tenant h (replica w')).
Proof.
  induction 1 as [|w1 w2 w3 Hs _ [IH1 IH2]]; [done|].
  assert (H12 : dead tenant h (primary w1) → dead tenant h (primary w2)).
  { destruct Hs as [s env op w Hop|w]; [|done]. destruct (run_op_change s env op w) as [Hc _].
    by eapply rtc_change_dead. }
  split; [by auto|]. intros Hp Hr. apply IH2; [by apply H12|].
  destruct Hs as [s env op w Hop|w]; [|by apply H12].
  by destruct (run_op_change s env op w) as [_ ->].
Qed.

Lemma dead_not_accepted s env h w :
  dead (tenantName s) h (primary w) → dead (tenantName s) h (pool_table s w ReadPool) →
  ∃ e, (GetByHash s env h w).2 = Err e.
Proof.
  intros Hp Hr. destruct ((GetByHash s env h w).2) as [k|e] eqn:E; [|by exists e]. exfalso.
  apply get_by_hash_ok in E as (t & id & r & Ht & Hid & Hw & Hst & _).
  assert (Hdt : dead (tenantName s) h t).
  { destruct Ht as [->|Hc]; [done|]. by eapply (rtc_change_dead s None). }
  unfold hash_where, same_hash, not_deleted in Hw. bool_hyps.
  destruct (Hdt id r) as [?|Hd]; [done|by apply String.eqb_eq|by apply String.eqb_eq|done|].
  by destruct (r_deleted_at r).
Qed.

Lemma revoke_dead s env id w r :
  table_ok (primary w) → primary w !! id = Some r → r_tenant r = tenantName s →
  (Revoke s env id w).2 = Ok tt →
  dead (tenantName s) (r_key_hash r) (primary (Revoke s env id w).1).
Proof.
  intros Hok Hid Ht. unfold Revoke, exec_write, updating. cbn [primary recordQuery].
  destruct (write_fault env); [|done|done]. cbn. intros _ id' r' Hr' Hh Ht'.
  apply update_where_lookup in Hr' as (x & Hx & ->). left.
  pose proof (to_rows _ Hok _ _ Hx) as Hxo. pose proof (to_rows _ Hok _ _ Hid) as Hro.
  destruct (id_where s id x && is_active (r_status x)) eqn:E; [done|].
  assert (id' = id) as ->.
  { eapply (to_unique _ Hok); eauto; congruence. }
  replace x with r in * by congruence. unfold id_where in E.
  rewrite (ro_id _ _ Hro), Ht, !String.eqb_refl in E. cbn in E. by intros Ha; rewrite Ha in E.
Qed.

(** C32 A revocation is final: after a successful [Revoke] — and, on a store with
    a replica, once the replica has caught up — no history that does not store
    the same hash again makes [GetByHash] accept the key, whatever the other
    stores do, the clocks and the faults. *)
Theorem revocation_is_final s env id r w w2 w3 w' env' :
  table_ok (primary w) → primary w !! id = Some r → r_tenant r = tenantName s →
  (Revoke s env id w).2 = Ok tt →
  let quiet := rtc (quiet_step (tenantName s) (r_key_hash r)) in
  quiet (Revoke s env id w).1 w2 →
  w3 = (if hasReadReplica s then replicate w2 else w2) → quiet w3 w' →
  ∃ e, (GetByHash s env' (r_key_hash r) w').2 = Err e.
Proof.
  intros Hok Hid Ht Hrev quiet H12 -> H3.
  pose proof (revoke_dead s env id w r Hok Hid Ht Hrev) as Hd.
  apply quiet_dead in H12 as [Hd2 _]. specialize (Hd2 Hd).
  apply quiet_dead in H3 as [Hp Hr]. unfold pool_table in *.
  destruct (hasReadReplica s) eqn:Erep; apply dead_not_accepted; unfold pool_table; rewrite ?Erep; auto.
Qed.

(** ** The validation lookup *)

(** The run of one call when the read pool shows no fault. *)
Lemma query_rows_faultless {T} s env op select consume w :
  read_fault env = no_read_fault →
  (∀ w rows, match (consume w (Ok rows)).2 with Ok _ => true | Err e => isDomainReadResult e end = true) →
  ∃ w0, primary w0 = primary w ∧ replica w0 = replica w
    ∧ let res := consume w0 (Ok (select (pool_table s w ReadPool))) in
      (queryReadRowsWithFallback s env op select consume w).2 = res.2 :> Res StoreErr T
      ∧ primary (queryReadRowsWithFallback s env op select consume w).1 = primary res.1.
Proof.
  intros Hf Hdom. unfold queryReadRowsWithFallback, readWithFallback.
  assert (Hrun : ∀ w1, run_rows s env select consume w1 ReadPool
    = consume w1 (Ok (select (pool_table s w1 ReadPool)))).
  { intros w1. unfold run_rows, pool_fault. rewrite Hf. cbn. by destruct (consume w1 _). }
  destruct (hasReadReplica s) eqn:Er; cbn [negb].
  - exists (recordQuery op ReadPool w). rewrite Hrun.
    change (pool_table s (recordQuery op ReadPool w) ReadPool) with (pool_table s w ReadPool).
    specialize (Hdom (recordQuery op ReadPool w) (select (pool_table s w ReadPool))).
    destruct (consume _ _) as [w1 res]. cbn in Hdom. by rewrite Hdom.
  - exists (recordQuery op WritePool w). rewrite Hrun.
    by change (pool_table s (recordQuery op WritePool w) ReadPool) with (pool_table s w ReadPool).
Qed.

Lemma consume_hash_domain s env w rows :
  match (consume_hash s env w (Ok rows)).2 with Ok _ => true | Err e => isDomainReadResult e end = true.
Proof.
  unfold consume_hash. destruct rows as [|r l]; [done|]. destruct (_ && _); [done|].
  by destruct (r_status r).
Qed.

Lemma hash_where_unique s h t id1 id2 r1 r2 :
  table_ok t → t !! id1 = Some r1 → t !! id2 = Some r2 →
  hash_where s h r1 = true → hash_where s h r2 = true → id1 = id2.
Proof.
  unfold hash_where, same_hash. intros Hok H1 H2 Hw1 Hw2. bool_hyps. rewrite String.eqb_eq in *.
  eapply (to_unique _ Hok); eauto; congruence.
Qed.

Lemma hash_rows s h t :
  table_ok t →
  match select_where (hash_where s h) t with
  | [] => ∀ id r, t !! id = Some r → hash_where s h r = false
  | [r] => (∃ id, t !! id = Some r) ∧ hash_where s h r = true
  | _ => False
  end.
Proof. intros Hok. apply select_where_unique. intros *. by apply hash_where_unique. Qed.

Definition past_expiry (now : Z) (r : Row) : bool :=
  is_active (r_status r) && expires_before now r.

(** [GetByHash] on a table in which the read pool shows no fault: a hash with
    no live row of this tenant is [ErrKeyNotFound]; otherwise the one live row
    decides — active and unexpired, the key is returned; active but past its
    expiration, [ErrInvalidKey] and the row of that id is marked expired on the
    primary; revoked or expired, [ErrInvalidKey] and nothing changes. *)
Theorem get_by_hash_spec s env h w :
  table_ok (pool_table s w ReadPool) →
  read_fault env = no_read_fault → write_fault env = NoFault →
  let t := pool_table s w ReadPool in
  let w' := (GetByHash s env h w).1 in
  let res := (GetByHash s env h w).2 in
  ((∀ id r, t !! id = Some r → hash_where s h r = false) →
     res = Err ErrKeyNotFound ∧ primary w' = primary w)
  ∧ (∀ id r, t !! id = Some r → hash_where s h r = true →
     (is_active (r_status r) = true → expires_before (go_now env) r = false →
        res = Ok (hash_key r) ∧ primary w' = primary w)
     ∧ (past_expiry (go_now env) r = true →
        res = Err ErrInvalidKey
        ∧ primary w' = update_where (fun x => id_where s (r_id r) x && is_active (r_status x))
                         (set_status StatusExpired) (primary w))
     ∧ (is_active (r_status r) = false → res = Err ErrInvalidKey ∧ primary w' = primary w)).
Proof.
  intros Hok Hf Hwf t w' res. unfold w', res, GetByHash.
  destruct (query_rows_faultless s env "get_by_hash" (select_where (hash_where s h))
    (consume_hash s env) w Hf (consume_hash_domain s env)) as (w0 & Hp & _ & -> & ->).
  fold t. pose proof (hash_rows s h t Hok) as Hrows. rewrite <- Hp.
  destruct (select_where (hash_where s h) t) as [|r [|r2 l]] eqn:E; [|..|done].
  - split; [done|]. intros id r Hr Hw. by rewrite (Hrows id r Hr) in Hw.
  - destruct Hrows as [(id & Hid) Hw]. split; [intros Hno; by rewrite (Hno id r Hid) in Hw|].
    intros id' r' Hr' Hw'.
    assert (id' = id) as -> by by eapply (hash_where_unique s h t).
    replace r' with r by congruence. unfold consume_hash, past_expiry, expires_before.
    destruct (match r_expires_at r with Some e => (e <? go_now env)%Z | None => false end),
      (r_status r); cbn; unfold mark_expired, exec_write; rewrite ?Hwf; by split_and!.
Qed.

(** Which pools a validation lookup queries on a store with a replica: without
    a replica fault the primary is never asked — not even for a key the
    replica does not have — and the read pool is healthy; after a fault the
    primary is asked exactly once and the pool is marked degraded, unless the
    request was cancelled, in which case nothing changes. *)
Theorem validation_read_routing s env h w :
  hasReadReplica s = true →
  let w' := (GetByHash s env h w).1 in
  let faulty := bool_decide (read_fault env ≠ no_read_fault) in
  queries w' = (queries w ++ ("get_by_hash", ReadPool)
                 :: (if faulty && negb (ctx_done env) then [("get_by_hash", WritePool)] else []))%list
  ∧ readHealthy w' = (if faulty then ctx_done env && readHealthy w else true)
  ∧ read_fallbacks w' = (read_fallbacks w + if faulty && negb (ctx_done env) then 1 else 0)%nat.
Proof.
  intros Hrep. cbn zeta. unfold GetByHash, queryReadRowsWithFallback, readWithFallback.
  rewrite Hrep. cbn [negb].
  assert (Hkeep : ∀ w rows, let w' := (consume_hash s env w rows).1 in
    queries w' = queries w ∧ readHealthy w' = readHealthy w ∧ read_fallbacks w' = read_fallbacks w).
  { intros w1 rows. unfold consume_hash, mark_expired, exec_write, updating.
    destruct rows as [[|r l]|]; [done| |done]. destruct (_ && _).
    - by destruct (write_fault env).
    - by destruct (r_status r). }
  assert (Hrun : ∀ w1 p, let w' := (run_rows s env (select_where (hash_where s h)) (consume_hash s env) w1 p).1 in
    queries w' = queries w1 ∧ readHealthy w' = readHealthy w1 ∧ read_fallbacks w' = read_fallbacks w1).
  { intros w1 p. unfold run_rows. destruct (query_err _); [done|].
    set (rows := match iter_err _ with Some e => Err e | None => _ end).
    specialize (Hkeep w1 rows). by destruct (consume_hash s env w1 rows). }
  assert (Hres : bool_decide (read_fault env ≠ no_read_fault)
    = negb match (run_rows s env (select_where (hash_where s h)) (consume_hash s env)
        (recordQuery "get_by_hash" ReadPool w) ReadPool).2
      with Ok _ => true | Err e => isDomainReadResult e end).
  { unfold run_rows, pool_fault, no_read_fault. destruct (read_fault env) as [q i c]. cbn.
    destruct q; [done|]. destruct i as [e|].
    { destruct (consume_hash _ _ _ _). by destruct c. }
    pose proof (consume_hash_domain s env (recordQuery "get_by_hash" ReadPool w)) as Hd.
    specialize (Hd (select_where (hash_where s h) (pool_table s (recordQuery "get_by_hash" ReadPool w) ReadPool))).
    destruct (consume_hash _ _ _ _) as [w1 r1]. destruct c; [done|]. cbn in Hd |- *. by rewrite Hd. }
  rewrite Hres. clear Hres.
  pose proof (Hrun (recordQuery "get_by_hash" ReadPool w) ReadPool) as (Hq & Hh & Hn).
  destruct (run_rows _ _ _ _ (recordQuery "get_by_hash" ReadPool w) ReadPool) as [w1 result].
  cbn [fst snd] in *.
  destruct (match result with Ok _ => true | Err e => isDomainReadResult e end); cbn [negb andb].
  { cbn. rewrite Hq, Hn. by rewrite Nat.add_0_r. }
  destruct (ctx_done env); cbn [negb andb].
  { cbn. rewrite Hq, Hh, Hn. cbn. by rewrite Nat.add_0_r. }
  destruct (Hrun (recordQuery "get_by_hash" WritePool (recordReadFallback (with_health false w1))) WritePool)
    as (-> & -> & ->). cbn. rewrite Hq, Hn. cbn. rewrite <- app_assoc, Nat.add_1_r. done.
Qed.

(** ** Bulk operations *)

Lemma exec_write_ok env f w n :
  (exec_write env f w).2 = Ok n →
  write_fault env = NoFault ∧ primary (exec_write env f w).1 = (f (primary w)).1 ∧ n = (f (primary w)).2.
Proof.
  unfold exec_write. destruct (write_fault env), (f (primary w)) as [t m]; cbn; naive_solver.
Qed.

Lemma update_where_row p f (t : Table) id :
  update_where p f t !! id = (fun r => if p r then f r else r) <$> t !! id.
Proof. apply lookup_fmap. Qed.

(** The dry run of a bulk revocation is an exact preview: it returns the
    count the revocation returns and changes no key; the revocation turns
    exactly the matching active keys to revoked; and repeating it revokes
    none. *)
Theorem bulk_revoke_preview_exact s env username subscription w n :
  let run dry := BulkRevoke s env username subscription (tenantName s) dry in
  (run false w).2 = Ok n →
  (run true w).2 = Ok n ∧ primary (run true w).1 = primary w
  ∧ (∀ id, primary (run false w).1 !! id =
       (fun r => if bulkRevokeWhereClause s (db_now env) username subscription r
                 then set_status StatusRevoked r else r) <$> primary w !! id)
  ∧ (run false (run false w).1).2 = Ok 0%nat.
Proof.
  unfold BulkRevoke. cbn zeta. destruct (String.eqb username "" && String.eqb subscription ""); [done|].
  rewrite String.eqb_refl. cbn [negb]. set (p := bulkRevokeWhereClause _ _ _ _).
  intros Hr. pose proof (exec_write_ok _ _ _ _ Hr) as (Hwf & Hp & ->). rewrite Hp, Hwf.
  split_and!; try done.
  - intros id. apply update_where_row.
  - unfold exec_write. rewrite Hwf. cbn. f_equal. apply count_where_zero.
    intros id r (x & Hx & ->)%update_where_lookup. destruct (p x) eqn:E; [|done].
    unfold p, bulkRevokeWhereClause. cbn. by rewrite andb_false_r.
Qed.

(** After [InvalidateTenant] succeeds, every key of the tenant is soft-deleted
    and none is active, so on a store without a replica every hash is
    [ErrKeyNotFound]; invalidating again touches no key. *)
Theorem invalidate_tenant_complete s env w n :
  let w' := (InvalidateTenant s env (tenantName s) w).1 in
  (InvalidateTenant s env (tenantName s) w).2 = Ok n → table_ok (primary w) →
  (∀ id r, primary w' !! id = Some r → r_tenant r = tenantName s →
     r_deleted_at r ≠ None ∧ r_status r ≠ StatusActive)
  ∧ (hasReadReplica s = false → ∀ env' h, read_fault env' = no_read_fault →
       (GetByHash s env' h w').2 = Err ErrKeyNotFound)
  ∧ (InvalidateTenant s env (tenantName s) w').2 = Ok 0%nat.
Proof.
  unfold InvalidateTenant. rewrite String.eqb_refl. cbn [negb]. cbn zeta.
  set (w0 := recordQuery _ _ w). intros Hr Hok.
  pose proof (exec_write_ok _ _ _ _ Hr) as (Hwf & Hp & _). cbn [fst updating] in Hp.
  set (w' := (exec_write env _ w0).1) in *.
  assert (Hrows : ∀ id r, primary w' !! id = Some r → r_tenant r = tenantName s →
    r_deleted_at r ≠ None ∧ r_status r ≠ StatusActive).
  { intros id r. rewrite Hp. intros (x & Hx & ->)%update_where_lookup. cbn [primary recordQuery w0] in Hx.
    pose proof (to_rows _ Hok _ _ Hx) as Hro. unfold tenant_where, not_deleted.
    destruct (r_deleted_at x) as [d|] eqn:Ed; cbn [andb].
    - rewrite andb_false_r. intros Ht. rewrite Ed. split; [done|]. apply Hro. by rewrite Ed.
    - destruct (String.eqb_spec (r_tenant x) (tenantName s)) as [Ht|Hne]; cbn [andb]; [|done].
      intros _. cbn. split; [done|]. by destruct (r_status x). }
  split_and!; [done|..].
  - intros Hrep env' h Hf. unfold GetByHash.
    destruct (query_rows_faultless s env' "get_by_hash" (select_where (hash_where s h))
      (consume_hash s env') w' Hf (consume_hash_domain s env')) as (x & _ & _ & -> & _).
    unfold pool_table. rewrite Hrep.
    destruct (select_where (hash_where s h) (primary w')) as [|r l] eqn:E; [done|].
    destruct (proj1 (select_where_elem (hash_where s h) (primary w') r)) as [(id & Hid) Hw];
      [rewrite E; by left|].
    unfold hash_where, same_hash, not_deleted in Hw. bool_hyps. rewrite String.eqb_eq in *.
    destruct (Hrows id r Hid) as [Hd _]; [done|]. by destruct (r_deleted_at r).
  - unfold exec_write. rewrite Hwf. cbn. f_equal. apply count_where_zero.
    intros id r Hid. unfold tenant_where. destruct (String.eqb_spec (r_tenant r) (tenantName s)) as [Ht|]; [|done].
    destruct (Hrows id r Hid Ht) as [Hd _]. unfold not_deleted. by destruct (r_deleted_at r).
Qed.

(** ** Cleanup *)

(** What the two clean-ups may remove. *)
Definition ephemeral_garbage (s : PostgresStore) (now : Z) (r : Row) : Prop :=
  r_tenant r = tenantName s ∧ r_deleted_at r = None ∧ r_ephemeral r = true
  ∧ ∃ e, r_expires_at r = Some e ∧ (e < now - ephemeral_grace)%Z.
Definition retention_garbage (s : PostgresStore) (now retention : Z) (r : Row) : Prop :=
  r_tenant r = tenantName s ∧ ∃ d, r_deleted_at r = Some d ∧ (d < now - retention)%Z.

Lemma count_delete_where p (t : Table) :
  (size (delete_where p t) + count_where p t)%nat = size t.
Proof.
  unfold delete_where, count_where.
  rewrite <- (map_filter_union_complement (fun kv : string * Row => p kv.2 = false) t) at 3.
  rewrite map_size_disj_union by apply map_disjoint_filter_complement. f_equal. f_equal.
  apply map_filter_ext. intros id r _. cbn. destruct (p r); naive_solver.
Qed.

(** The clean-ups remove exactly the garbage and report how many rows they
    removed: [DeleteExpiredEphemeral] this tenant's live ephemeral keys expired
    for more than 30 minutes, [DeleteSoftDeleted] this tenant's soft-deleted
    keys past the retention; every other row is kept unchanged. *)
Theorem cleanup_exact s env retention w n :
  ((DeleteExpiredEphemeral s env w).2 = Ok n →
     let w' := (DeleteExpiredEphemeral s env w).1 in
     (∀ id r, primary w' !! id = Some r ↔
        primary w !! id = Some r ∧ ¬ ephemeral_garbage s (db_now env) r)
     ∧ (size (primary w') + n)%nat = size (primary w))
  ∧ ((DeleteSoftDeleted s env retention w).2 = Ok n →
     let w' := (DeleteSoftDeleted s env retention w).1 in
     (0 ≤ retention)%Z
     ∧ (∀ id r, primary w' !! id = Some r ↔
        primary w !! id = Some r ∧ ¬ retention_garbage s (go_now env) retention r)
     ∧ (size (primary w') + n)%nat = size (primary w)).
Proof.
  split.
  - unfold DeleteExpiredEphemeral. intros Hr. apply exec_write_ok in Hr as (_ & Hp & ->).
    cbn zeta. rewrite Hp. cbn [fst snd deleting primary recordQuery].
    split; [|apply count_delete_where]. intros id r. rewrite delete_where_lookup.
    apply and_iff_compat_l. rewrite <- not_true_iff_false. apply not_iff_compat.
    unfold ephemeral_garbage, not_deleted, expires_before.
    rewrite !andb_true_iff, String.eqb_eq.
    destruct (r_deleted_at r), (r_expires_at r) as [e|]; rewrite ?Z.ltb_lt; naive_solver.
  - unfold DeleteSoftDeleted. destruct (Z.ltb_spec retention 0); [done|]. intros Hr.
    apply exec_write_ok in Hr as (_ & Hp & ->).
    cbn zeta. rewrite Hp. cbn [fst snd deleting primary recordQuery].
    split; [done|]. split; [|apply count_delete_where]. intros id r. rewrite delete_where_lookup.
    apply and_iff_compat_l. rewrite <- not_true_iff_false. apply not_iff_compat.
    unfold retention_garbage, deleted_before. rewrite !andb_true_iff, String.eqb_eq.
    destruct (r_deleted_at r) as [d|]; rewrite ?Z.ltb_lt; naive_solver.
Qed.

(** ** Paged search *)

Lemma nulls_last_weak less : StrictWeak less → StrictWeak (nulls_last less).
Proof.
  intros [irr tr ct]. split.
  - intros [x|]; [apply irr|done].
  - intros [x|] [y|] [z|]; cbn; try done. apply tr.
  - intros [x|] [y|] [z|]; cbn; try done; auto.
Qed.
Lemma directed_weak {A} desc (less : A → A → bool) : StrictWeak less → StrictWeak (directed desc less).
Proof.
  intros [irr tr ct]. unfold directed. split; destruct desc; eauto.
  intros a b c Hca. destruct (ct c b a Hca); auto.
Qed.

#[local] Instance search_order_weak sort : StrictWeak (search_order sort).
Proof.
  unfold search_order. cbn zeta.
  repeat (case_match; try (apply on_key_weak; try apply nulls_last_weak; apply directed_weak; apply _)).
Qed.

(** A successful [Search] returns one page of the matching keys in the
    requested order: the rows of this tenant that satisfy every filter (each
    once), sorted by the allow-listed column, from [Offset] on, at most [Limit]
    of them with [Limit] in 1..100, and [HasMore] says whether rows remain. *)
Theorem search_page_spec s env username f sort p w res :
  read_fault env = no_read_fault →
  (Search s env username f sort p w).2 = Ok res →
  let t := pool_table s w ReadPool in
  let rows := search_rows s (db_now env) username f sort t in
  (1 ≤ Limit p ≤ 100)%Z ∧ (0 ≤ Offset p)%Z
  ∧ (∀ r, r ∈ rows ↔ (∃ id, t !! id = Some r) ∧ search_where s (db_now env) username f r = true)
  ∧ length rows = count_where (search_where s (db_now env) username f) t
  ∧ StronglySorted (not_after (search_order sort)) rows
  ∧ Keys res = map (get_key (db_now env)) (take (Z.to_nat (Limit p)) (drop (Z.to_nat (Offset p)) rows))
  ∧ HasMore res = bool_decide (Z.to_nat (Offset p) + Z.to_nat (Limit p) < length rows)%nat.
Proof.
  intros Hf Hr. cbn zeta. unfold Search, bad_page in Hr.
  destruct ((Limit p <? 1)%Z || (Limit p >? MaxLimit)%Z) eqn:El; [done|].
  destruct (Offset p <? 0)%Z eqn:Eo; [done|]. unfold MaxLimit in El. rewrite Z.gtb_ltb in El.
  apply orb_false_iff in El as [El1%Z.ltb_ge El2%Z.ltb_ge]. apply Z.ltb_ge in Eo.
  set (t := pool_table s w ReadPool). set (rows := search_rows s (db_now env) username f sort t).
  destruct (query_rows_faultless s env "search"
    (fun t => fetch p (search_rows s (db_now env) username f sort t))
    (collect_page p (get_key (db_now env))) w Hf (fun _ _ => eq_refl)) as (w0 & _ & _ & Heq & _).
  rewrite Heq in Hr. cbn [snd collect_page] in Hr. fold t rows in Hr. injection Hr as <-.
  split; [lia|]. split; [lia|]. split; [|split; [|split]].
  - intros r. unfold rows, search_rows. rewrite sort_slice_perm. apply select_where_elem.
  - unfold rows, search_rows. rewrite sort_slice_perm. unfold select_where, count_where.
    rewrite filter_map_snd, length_map, <- length_map_to_list.
    apply Permutation_length. rewrite range_map_perm.
    rewrite (map_filter_alt (fun kv : string * Row => search_where s (db_now env) username f kv.2 = true) t).
    rewrite map_to_list_to_map; [done|]. apply (sublist_NoDup _ (fst <$> map_to_list t)).
    + apply NoDup_fst_map_to_list.
    + apply (fmap_sublist fst). apply sublist_filter.
  - apply sort_slice_sorted, _.
  - unfold paginate, fetch. rewrite length_map, length_take, length_drop. cbn [Keys HasMore].
    set (l := Z.to_nat (Limit p)). set (o := Z.to_nat (Offset p)).
    assert (Hl : Z.of_nat l = Limit p) by (unfold l; lia). rewrite <- Hl.
    assert ((Z.of_nat ((l + 1) `min` (length rows - o)) >? Z.of_nat l)%Z
            = bool_decide (o + l < length rows)%nat) as ->.
    { rewrite Z.gtb_ltb. case_bool_decide; [apply Z.ltb_lt|apply Z.ltb_ge]; lia. }
    split; [|done]. case_bool_decide.
    + change (map (get_key (db_now env))) with (fmap (M:=list) (get_key (db_now env))).
      rewrite <- fmap_take, take_take. do 2 f_equal. lia.
    + f_equal. rewrite !take_ge; [done|rewrite length_drop; lia..].
Qed.

End Specs.
End KeyStoreSpecs.

(** ** KeyStoreDemo: the store theorems at concrete worlds

    A two-tenant store with three keys, on which the hypotheses of the theorems
    of [KeyStoreFacts] and [KeyStoreSpecs] are evaluated. *)
Module KeyStoreDemo.
Import KeyTable KeyStore KeyStoreFacts KeyStoreSpecs.

#[local] Instance demo_runtime : GoRuntime := reference_runtime.
#[local] Instance demo_collation : Collation := {| collate_lt := str_ltb |}.

Definition demo_store : PostgresStore := {| tenantName := "acme"; hasReadReplica := false |}.
Definition replicated_store : PostgresStore := {| tenantName := "acme"; hasReadReplica := true |}.

Definition demo_args (id hash : string) (expires : option Z) (ephemeral : bool) : AddArgs := {|
  a_username := "alice"; a_keyID := id; a_keyHash := hash; a_name := "key " +:+ id; a_description := "";
  a_userGroups := ["dev"]; a_subscription := "gold"; a_tenant := "acme"; a_expiresAt := expires;
  a_ephemeral := ephemeral; a_labels := ∅ |}.

(** One permanent key. *)
Definition one_key : World := run_op demo_store (faultless 0) (OpAddKey (demo_args "k1" "h1" None false)) empty_world.
(** And an ephemeral one that expires at 10. *)
Definition two_keys : World :=
  run_op demo_store (faultless 0) (OpAddKey (demo_args "k2" "h2" (Some 10%Z) true)) one_key.

Lemma one_key_ok : table_ok (primary one_key).
Proof.
  eapply rtc_change_table_ok; [apply run_op_change|apply table_ok_empty].
Qed.
Lemma two_keys_ok : table_ok (primary two_keys).
Proof.
  eapply rtc_change_table_ok; [apply run_op_change|apply one_key_ok].
Qed.

Definition k1_row : Row := new_row (faultless 0) (demo_args "k1" "h1" None false).
Definition k2_row : Row := new_row (faultless 0) (demo_args "k2" "h2" (Some 10%Z) true).

Lemma store_invariant_witness : rtc step empty_world two_keys ∧ table_ok (primary two_keys).
Proof.
  assert (H : rtc step empty_world two_keys).
  { eapply rtc_l; [apply (step_op demo_store (faultless 0) (OpAddKey (demo_args "k1" "h1" None false)))|].
    eapply rtc_l; [apply (step_op demo_store (faultless 0) (OpAddKey (demo_args "k2" "h2" (Some 10%Z) true)))|].
    apply rtc_refl. }
  split; [exact H|]. apply (store_invariant two_keys H).
Defined.

Lemma key_lifecycle_one_way_witness :
  ∃ r', primary (run_op demo_store (faultless 5) (OpRevoke "k1") one_key) !! "k1" = Some r'
    ∧ evolves k1_row r'.
Proof.
  exists (set_status StatusRevoked k1_row). split; [by vm_compute|].
  apply (key_lifecycle_one_way demo_store (faultless 5) (OpRevoke "k1") one_key "k1"); by vm_compute.
Defined.

Lemma tenant_isolation_witness :
  let other := {| tenantName := "other"; hasReadReplica := false |} in
  primary (run_op other (faultless 5) (OpInvalidateTenant "other") one_key) !! "k1" = Some k1_row.
Proof.
  intros other.
  apply (tenant_isolation other (faultless 5) (OpInvalidateTenant "other") one_key "k1" k1_row);
    by vm_compute.
Defined.

Lemma revocation_is_final_witness :
  ∃ e, (GetByHash replicated_store (faultless 9) "h1"
          (replicate (Revoke replicated_store (faultless 5) "k1" one_key).1)).2 = Err e.
Proof.
  apply (revocation_is_final replicated_store (faultless 5) "k1" k1_row one_key
    (Revoke replicated_store (faultless 5) "k1" one_key).1
    (replicate (Revoke replicated_store (faultless 5) "k1" one_key).1)
    (replicate (Revoke replicated_store (faultless 5) "k1" one_key).1) (faultless 9) one_key_ok);
    [by vm_compute|done|by vm_compute|apply rtc_refl|done|apply rtc_refl].
Defined.

Lemma get_by_hash_spec_witness :
  (GetByHash demo_store (faultless 20) "h2" two_keys).2 = Err ErrInvalidKey
  ∧ (GetByHash demo_store (faultless 20) "h1" two_keys).2 = Ok (hash_key k1_row).
Proof.
  split.
  - destruct (get_by_hash_spec demo_store (faultless 20) "h2" two_keys two_keys_ok eq_refl eq_refl)
      as (_ & H). destruct (H "k2" k2_row) as (_ & Hexp & _); [by vm_compute..|].
    by apply Hexp; vm_compute.
  - destruct (get_by_hash_spec demo_store (faultless 20) "h1" two_keys two_keys_ok eq_refl eq_refl)
      as (_ & H). destruct (H "k1" k1_row) as (Hact & _); [by vm_compute..|].
    by apply Hact; vm_compute.
Defined.

Lemma validation_read_routing_witness :
  let env := {| go_now := 0; db_now := 0; ctx_done := false;
                read_fault := {| query_err := Some "connection refused"; iter_err := None; close_err := None |};
                fallback_fault := no_read_fault; write_fault := NoFault |} in
  readHealthy (GetByHash replicated_store env "h1" one_key).1 = false.
Proof.
  intros env. destruct (validation_read_routing replicated_store env "h1" one_key eq_refl) as (_ & H & _).
  exact H.
Defined.

Lemma bulk_revoke_preview_exact_witness :
  (BulkRevoke demo_store (faultless 5) "alice" "" "acme" true two_keys).2 = Ok 2%nat.
Proof.
  apply (bulk_revoke_preview_exact demo_store (faultless 5) "alice" "" two_keys 2). by vm_compute.
Defined.

Lemma invalidate_tenant_complete_witness :
  (GetByHash demo_store (faultless 9) "h1"
     (InvalidateTenant demo_store (faultless 5) "acme" two_keys).1).2 = Err ErrKeyNotFound.
Proof.
  apply (invalidate_tenant_complete demo_store (faultless 5) two_keys 2); [by vm_compute|apply two_keys_ok|done|done].
Defined.

Lemma cleanup_exact_witness :
  let env := faultless (ephemeral_grace + 11) in
  (∀ id r, primary (DeleteExpiredEphemeral demo_store env two_keys).1 !! id = Some r →
     ¬ ephemeral_garbage demo_store (db_now env) r)
  ∧ (size (primary (DeleteSoftDeleted demo_store env 5 two_keys).1) + 0)%nat = size (primary two_keys).
Proof.
  intros env. destruct (cleanup_exact demo_store env 5 two_keys 1) as [H1 _].
  destruct (cleanup_exact demo_store env 5 two_keys 0) as [_ H2]. split.
  - intros id r Hr. destruct H1 as [H1 _]; [by vm_compute|]. by apply (H1 id r) in Hr as [_ ?].
  - destruct H2 as (_ & _ & H2); [by vm_compute|exact H2].
Defined.

Definition no_filters : SearchFilters := {|
  f_Status := []; f_Subscription := None; SubscriptionNames := []; IncludeEphemeral := Some true;
  LabelsContain := ∅ |}.

Lemma search_page_spec_witness :
  ∃ res, (Search demo_store (faultless 5) "alice" no_filters {| By := "name"; Order := "ASC" |}
            {| Limit := 1; Offset := 0 |} two_keys).2 = Ok res
    ∧ HasMore res = true ∧ map ID (Keys res) = ["k1"].
Proof.
  destruct ((Search demo_store (faultless 5) "alice" no_filters {| By := "name"; Order := "ASC" |}
            {| Limit := 1; Offset := 0 |} two_keys).2) as [res|] eqn:E; [|by vm_compute in E].
  exists res. split; [done|].
  destruct (search_page_spec demo_store (faultless 5) "alice" no_filters {| By := "name"; Order := "ASC" |}
            {| Limit := 1; Offset := 0 |} two_keys res eq_refl E) as (_ & _ & _ & _ & _ & Hk & Hm).
  rewrite Hk, Hm. split; [apply bool_decide_eq_true_2; apply Nat.ltb_lt; by vm_compute|by vm_compute].
Defined.

(** The interface documents [DeleteExpiredEphemeral] as deleting ephemeral
    keys whose status is expired or whose expiration has passed; the query
    also requires 30 minutes of grace, so an ephemeral key marked expired
    survives the clean-up. *)
Theorem expired_ephemeral_survives_cleanup :
  let w := (GetByHash demo_store (faultless 20) "h2" two_keys).1 in
  ∃ r, primary w !! "k2" = Some r ∧ r_ephemeral r = true ∧ r_status r = StatusExpired
    ∧ (DeleteExpiredEphemeral demo_store (faultless 20) w).2 = Ok 0%nat
    ∧ primary (DeleteExpiredEphemeral demo_store (faultless 20) w).1 !! "k2" = Some r.
Proof.
  exists (set_status StatusExpired k2_row). split_and!; by vm_compute.
Qed.

End KeyStoreDemo.
