(* ===== verification/KeyService.v ===== *)
(** * KeyService: minting, validating and cleaning up API keys

    Models [maas-api/internal/api_keys/service.go] with
    [api_keys/groupname.go] and [groupname/groupname.go].  The service talks to
    its store through the class [MetadataStore], to subscription selection
    through [SubscriptionSelector], and to [github.com/google/uuid] through the
    parameters [uuid_new] (one fresh value per call) and [uuid_parse]. *)

From S2P Require Import Prelude GoStrings KeyGen KeyTable KeyStore Unstructured Subscription Selector.
From Stdlib Require String.
Local Open Scope string_scope.

(** ** The store interface ([store_interface.go]) *)

Class MetadataStore (W : Type) := {
  st_AddKey : KeyStore.Env → KeyStore.AddArgs → W → W * Res KeyStore.StoreErr unit;
  st_Get : KeyStore.Env → string → W → W * Res KeyStore.StoreErr KeyStore.ApiKey;
  st_GetByHash : KeyStore.Env → string → W → W * Res KeyStore.StoreErr KeyStore.ApiKey;
  st_Search : KeyStore.Env → string → KeyStore.SearchFilters → KeyStore.SortParams →
    KeyStore.PaginationParams → W → W * Res KeyStore.StoreErr KeyStore.PaginatedResult;
  st_BulkRevoke : KeyStore.Env → string → string → string → bool → W → W * Res KeyStore.StoreErr nat;
  st_InvalidateTenant : KeyStore.Env → string → W → W * Res KeyStore.StoreErr nat;
  st_InvalidateSubscription : KeyStore.Env → string → string → W → W * Res KeyStore.StoreErr nat;
  st_Revoke : KeyStore.Env → string → W → W * Res KeyStore.StoreErr unit;
  st_UpdateLastUsed : KeyStore.Env → string → W → W * Res KeyStore.StoreErr unit;
  st_DeleteExpiredEphemeral : KeyStore.Env → W → W * Res KeyStore.StoreErr nat;
  st_DeleteSoftDeleted : KeyStore.Env → Z → W → W * Res KeyStore.StoreErr nat;
}.

Module KeyService.
Import KeyStore.

(** ** Durations: [time.Duration] is an [int64] of nanoseconds *)

Definition Second : Z := 1000000000.
Definition Hour : Z := 3600 * Second.
(** [time.Duration(days) * 24 * time.Hour], wrapping. *)
Definition days_duration (days : Z) : Z := wrap64 (wrap64 (days * 24) * Hour).

Definition DefaultAPIKeyMaxExpirationDays : Z := 90.
Definition DefaultEphemeralKeyMaxExpiration : Z := Hour.

(** ** Group names: [^[A-Za-z0-9:#._/ -]+$] *)

Definition group_char (c : ascii) : bool :=
  in_range 65 90 c || in_range 97 122 c || in_range 48 57 c
  || existsb (Ascii.eqb c) [":"; "#"; "."; "_"; "/"; " "; "-"]%char.
Definition group_valid (name : string) : bool :=
  negb (String.eqb name "") && str_all group_char name.
Definition AllValid (names : list string) : bool := forallb group_valid names.

(** [validateGroupNames]: the first offending group. *)
Definition validateGroupNames (groups : list string) : option string :=
  List.find (fun g => negb (group_valid g)) groups.

(** ** Configuration and state *)

Record Config := {
  cfg_TenantName : string;
  APIKeyMaxExpirationDays : Z;
  LastUsedDebounceSecs : Z;
  APIKeyDeletionRetentionDays : Z;
}.
Record Service := { config : option Config; lastUsedDebounceTTL : Z }.

(** The checks [Config.Validate] makes on these fields; it also turns a zero
    retention into the default. *)
Definition defaultAPIKeyDeletionRetentionDays : Z := 90.
Definition maxAPIKeyDeletionRetentionDays : Z := 106751.
Definition validate_config (c : Config) : option Config :=
  if String.eqb (trim_space (cfg_TenantName c)) "" then None else
  if (APIKeyMaxExpirationDays c <? 1)%Z then None else
  if (LastUsedDebounceSecs c <? 0)%Z then None else
  let retention := if (APIKeyDeletionRetentionDays c =? 0)%Z
                   then defaultAPIKeyDeletionRetentionDays else APIKeyDeletionRetentionDays c in
  if (retention <? 1)%Z then None else
  if (retention >? maxAPIKeyDeletionRetentionDays)%Z then None else
  Some {| cfg_TenantName := cfg_TenantName c;
          APIKeyMaxExpirationDays := APIKeyMaxExpirationDays c;
          LastUsedDebounceSecs := LastUsedDebounceSecs c;
          APIKeyDeletionRetentionDays := retention |}.

Definition NewServiceWithLogger (cfg : option Config) : Service := {|
  config := cfg;
  lastUsedDebounceTTL :=
    match cfg with
    | Some c => if (0 <=? LastUsedDebounceSecs c)%Z
                then wrap64 (LastUsedDebounceSecs c * Second) else 60 * Second
    | None => 60 * Second
    end;
|}.

Definition GetTenantName (s : Service) : string :=
  match config s with Some c => cfg_TenantName c | None => "" end.
Definition GetMaxExpirationDays (s : Service) : Z :=
  match config s with
  | Some c => if (APIKeyMaxExpirationDays c >? 0)%Z then APIKeyMaxExpirationDays c
              else DefaultAPIKeyMaxExpirationDays
  | None => DefaultAPIKeyMaxExpirationDays
  end.

Inductive ServiceErr :=
| ErrInvalidGroupName (group : string)
| ErrExpirationNotPositive
| ErrExpirationExceedsMax
| GenerateFailed (e : KeyGen.GenErr)
| SelectionFailed (e : Selector.SelErr)
| StoreFailed (e : StoreErr)
| ErrTenantRequired
| ErrServiceTenantMismatch
| ErrRequired (message : string)
| BadKeyID.

Record CreateAPIKeyResponse := {
  cr_Key : string;
  cr_KeyPrefix : string;
  cr_ID : string;
  cr_Name : string;
  cr_Subscription : string;
  cr_CreatedAt : Z;
  cr_ExpiresAt : Z;
  cr_Ephemeral : bool;
  cr_Labels : gmap string string;
}.

(** [ValidationResult]; [GroupsJSON] is the JSON text of [vr_Groups]. *)
Record ValidationResult := {
  Valid : bool;
  UserID : string;
  vr_Username : string;
  KeyID : string;
  KeyName : string;
  vr_Groups : list string;
  vr_Subscription : string;
  vr_Tenant : string;
  Reason : string;
}.
Definition rejected (reason : string) : ValidationResult := {|
  Valid := false; UserID := ""; vr_Username := ""; KeyID := ""; KeyName := ""; vr_Groups := [];
  vr_Subscription := ""; vr_Tenant := ""; Reason := reason |}.

Record SubscriptionSelector := {
  ss_Select : list string → string → string → string →
    Res Selector.SelErr Subscription.SelectResponse;
  ss_SelectHighestPriority : list string → string →
    Res Selector.SelErr Subscription.SelectResponse;
}.

(** ** The last-used debounce: a [sync.Map] from key ID to the slot time

    [LoadOrStore], [CompareAndSwap] and [CompareAndDelete] are atomic. *)

Notation Slots := (gmap string Z).

Definition LoadOrStore (m : Slots) (key : string) (v : Z) : Slots * (Z * bool) :=
  match m !! key with
  | Some actual => (m, (actual, true))
  | None => (<[key := v]> m, (v, false))
  end.
Definition CompareAndSwap (m : Slots) (key : string) (old new : Z) : Slots * bool :=
  if bool_decide (m !! key = Some old) then (<[key := new]> m, true) else (m, false).
Definition CompareAndDelete (m : Slots) (key : string) (old : Z) : Slots :=
  if bool_decide (m !! key = Some old) then delete key m else m.

(** [shouldUpdateLastUsed] run without interference; the slot is [None] when
    no reservation was made. *)
Definition shouldUpdateLastUsed (s : Service) (now : Z) (keyID : string) (m : Slots)
    : Slots * (bool * option Z) :=
  if (lastUsedDebounceTTL s =? 0)%Z then (m, (true, None)) else
  let '(m, (actual, loaded)) := LoadOrStore m keyID now in
  if negb loaded then (m, (true, Some now)) else
  if (lastUsedDebounceTTL s <=? now - actual)%Z then
    let '(m, swapped) := CompareAndSwap m keyID actual now in
    if swapped then (m, (true, Some now)) else (m, (false, None))
  else (m, (false, None)).

Definition clearDebounceSlot (s : Service) (keyID : string) (slot : option Z) (m : Slots) : Slots :=
  if (lastUsedDebounceTTL s =? 0)%Z then m else
  match slot with Some t => CompareAndDelete m keyID t | None => m end.

(** One tick of [StartDebounceCleanup]. *)
Definition debounce_cleanup (s : Service) (now : Z) (m : Slots) : Slots :=
  filter (fun kv => ¬ (kv.2 < now - lastUsedDebounceTTL s)%Z) m.

Section Service.
Context {W : Type} `{ST : MetadataStore W}.
Variable uuid_parse : string → bool.

(** ** CreateAPIKey *)

(** The requested duration, or the default, checked against the maximum. *)
Definition expiration (s : Service) (expiresIn : option Z) (ephemeral : bool) : Res ServiceErr Z :=
  let maxRegularDuration := days_duration (GetMaxExpirationDays s) in
  let d := match expiresIn with
           | Some d => d
           | None => if ephemeral then DefaultEphemeralKeyMaxExpiration else maxRegularDuration
           end in
  reject ErrExpirationNotPositive when (d <=? 0)%Z ;;
  reject ErrExpirationExceedsMax
    when (d >? if ephemeral then DefaultEphemeralKeyMaxExpiration else maxRegularDuration)%Z ;;
  Ok d.

Definition CreateAPIKey (s : Service) (sel : SubscriptionSelector) (env : Env)
    (readID readSecret : Res string (list Byte.byte)) (uuid_new : string)
    (username : string) (userGroups : list string) (name description : string)
    (expiresIn : option Z) (ephemeral : bool) (requestedSubscription tenant : string)
    (labels : gmap string string) (w : W) : W * Res ServiceErr CreateAPIKeyResponse :=
  match validateGroupNames userGroups with
  | Some g => (w, Err (ErrInvalidGroupName g))
  | None =>
  match expiration s expiresIn ephemeral with
  | Err e => (w, Err e)
  | Ok d =>
  let expiresAt := (go_now env + d)%Z in
  match KeyGen.GenerateAPIKey readID readSecret with
  | Err e => (w, Err (GenerateFailed e))
  | Ok (plaintext, hash, prefix) =>
  match (if negb (String.eqb requestedSubscription "")
         then ss_Select sel userGroups username requestedSubscription ""
         else ss_SelectHighestPriority sel userGroups username) with
  | Err e => (w, Err (SelectionFailed e))
  | Ok subResp =>
  let subscriptionName := Subscription.resp_Name subResp in
  let '(w, added) := st_AddKey env {|
      a_username := username; a_keyID := uuid_new; a_keyHash := hash; a_name := name;
      a_description := description; a_userGroups := userGroups;
      a_subscription := subscriptionName; a_tenant := tenant; a_expiresAt := Some expiresAt;
      a_ephemeral := ephemeral; a_labels := labels |} w in
  (w, match added with
      | Err e => Err (StoreFailed e)
      | Ok _ => Ok {| cr_Key := plaintext; cr_KeyPrefix := prefix; cr_ID := uuid_new;
                      cr_Name := name; cr_Subscription := subscriptionName;
                      cr_CreatedAt := go_now env; cr_ExpiresAt := expiresAt;
                      cr_Ephemeral := ephemeral; cr_Labels := labels |}
      end)
  end end end end.

Definition GetAPIKey (env : Env) (id : string) (w : W) : W * Res StoreErr ApiKey := st_Get env id w.

(** ** ValidateAPIKey *)

(** The store, the debounce map, and the update the call left running: a key
    ID and its reserved slot. *)
Record State := { st_world : W; st_slots : Slots }.
Notation Pending := (option (string * option Z)).

Definition ValidateAPIKey (s : Service) (env : Env) (key : string) (st : State)
    : State * Pending * Res ServiceErr ValidationResult :=
  if negb (KeyGen.IsValidKeyFormat key) then (st, None, Ok (rejected "invalid key format")) else
  let hash := KeyGen.HashAPIKey key in
  if String.eqb hash "" then (st, None, Ok (rejected "invalid key format")) else
  let '(w, found) := st_GetByHash env hash (st_world st) in
  let st := {| st_world := w; st_slots := st_slots st |} in
  match found with
  | Err ErrKeyNotFound => (st, None, Ok (rejected "key not found"))
  | Err ErrInvalidKey => (st, None, Ok (rejected "key revoked or expired"))
  | Err e => (st, None, Err (StoreFailed e))
  | Ok metadata =>
      let '(slots, (proceed, slot)) :=
        shouldUpdateLastUsed s (go_now env) (ID metadata) (st_slots st) in
      let st := {| st_world := st_world st; st_slots := slots |} in
      let pending := if proceed then Some (ID metadata, slot) else None in
      if String.eqb (trim_space (k_Subscription metadata)) ""
      then (st, pending, Ok (rejected "key has no subscription bound"))
      else if negb (uuid_parse (ID metadata)) then (st, pending, Err BadKeyID)
      else (st, pending, Ok {|
        Valid := true; UserID := ID metadata; vr_Username := Username metadata;
        KeyID := ID metadata; KeyName := k_Name metadata; vr_Groups := k_Groups metadata;
        vr_Subscription := k_Subscription metadata; vr_Tenant := Tenant metadata; Reason := "" |})
  end.

(** The goroutine [ValidateAPIKey] starts. *)
Definition update_last_used (s : Service) (env : Env) (id : string) (slot : option Z) (st : State) : State :=
  let '(w, res) := st_UpdateLastUsed env id (st_world st) in
  {| st_world := w;
     st_slots := match res with
                 | Ok _ => st_slots st
                 | Err _ => clearDebounceSlot s id slot (st_slots st)
                 end |}.

(** ** The other operations *)

Definition RevokeAPIKey (env : Env) (keyID : string) (w : W) : W * Res StoreErr unit := st_Revoke env keyID w.

Definition Search (env : Env) (username : string) (filters : SearchFilters) (sort : SortParams)
    (pagination : PaginationParams) (w : W) : W * Res StoreErr PaginatedResult :=
  st_Search env username filters sort pagination w.

Definition store_err {T} (r : W * Res StoreErr T) : W * Res ServiceErr T :=
  (r.1, map_err StoreFailed r.2).

Definition BulkRevokeAPIKeys (env : Env) (username subscription tenant : string) (dryRun : bool)
    (w : W) : W * Res ServiceErr nat :=
  if String.eqb username "" && String.eqb subscription ""
  then (w, Err (ErrRequired "at least one of username or subscription is required"))
  else store_err (st_BulkRevoke env username subscription tenant dryRun w).

Definition tenant_out_of_scope (s : Service) (tenant : string) : bool :=
  negb (String.eqb (GetTenantName s) "") && negb (String.eqb tenant (GetTenantName s)).

Definition RevokeTenantAPIKeys (s : Service) (env : Env) (tenant : string) (w : W)
    : W * Res ServiceErr nat :=
  let tenant := trim_space tenant in
  if String.eqb tenant "" then (w, Err ErrTenantRequired) else
  if tenant_out_of_scope s tenant then (w, Err ErrServiceTenantMismatch) else
  store_err (st_InvalidateTenant env tenant w).

Definition RevokeSubscriptionAPIKeys (s : Service) (env : Env) (tenant subscription : string) (w : W)
    : W * Res ServiceErr nat :=
  let tenant := trim_space tenant in
  let subscription := trim_space subscription in
  if String.eqb tenant "" then (w, Err ErrTenantRequired) else
  if String.eqb subscription "" then (w, Err (ErrRequired "subscription is required")) else
  if tenant_out_of_scope s tenant then (w, Err ErrServiceTenantMismatch) else
  store_err (st_InvalidateSubscription env tenant subscription w).

Definition CleanupExpiredEphemeral (env : Env) (w : W) : W * Res ServiceErr nat :=
  store_err (st_DeleteExpiredEphemeral env w).

Definition retention_days (s : Service) : Z :=
  match config s with
  | Some c => if (APIKeyDeletionRetentionDays c >? 0)%Z then APIKeyDeletionRetentionDays c else 90%Z
  | None => 90%Z
  end.
Definition CleanupSoftDeleted (s : Service) (env : Env) (w : W) : W * Res ServiceErr nat :=
  store_err (st_DeleteSoftDeleted env (days_duration (retention_days s)) w).

End Service.
End KeyService.
