(* ===== verification/KeyServiceFacts.v ===== *)
(** * KeyServiceFacts: the API-key service, end to end

    The service theorems are proved against [StoreContract], what the service
    relies on a store for; [postgres_contract] shows that the PostgreSQL store
    without a replica meets it. *)

From stdpp Require Import relations.
From S2P Require Import Prelude GoStrings KeyGen KeyTable KeyStore KeyStoreFacts KeyStoreSpecs KeyService.
From S2P Require Import Unstructured Subscription Selector KeyStoreSpecs.
From Stdlib Require String.
Local Open Scope string_scope.

Module KeyServiceFacts.
Import KeyTable KeyStore KeyStoreFacts KeyStoreSpecs KeyService.

(** ** The contract *)

Definition healthy_env (env : Env) : Prop :=
  read_fault env = no_read_fault ∧ write_fault env = NoFault.

(** The key a store gives back for what was added. *)
Record returns_added (a : AddArgs) (k : ApiKey) : Prop := {
  ra_id : ID k = a_keyID a;
  ra_username : Username k = a_username a;
  ra_groups : k_Groups k = a_userGroups a;
  ra_subscription : k_Subscription k = a_subscription a;
  ra_tenant : Tenant k = a_tenant a;
  ra_name : k_Name k = a_name a;
}.

Class StoreContract (W : Type) `{ST : MetadataStore W} (ok : W → Prop) := {
  sc_add : ∀ env a w w', ok w → st_AddKey env a w = (w', Ok tt) →
    ok w' ∧ ∀ env', healthy_env env' →
      (∀ e, a_expiresAt a = Some e → (go_now env' ≤ e)%Z) →
      ∃ k, (st_GetByHash env' (a_keyHash a) w').2 = Ok k ∧ returns_added a k;
}.

Section Postgres.
Context `{GR : GoRuntime} `{CL : Collation}.

#[local] Instance postgres_store (s : PostgresStore) : MetadataStore World := {|
  st_AddKey := AddKey s; st_Get := KeyStore.Get s; st_GetByHash := GetByHash s;
  st_Search := KeyStore.Search s; st_BulkRevoke := BulkRevoke s;
  st_InvalidateTenant := InvalidateTenant s; st_InvalidateSubscription := InvalidateSubscription s;
  st_Revoke := Revoke s; st_UpdateLastUsed := UpdateLastUsed s;
  st_DeleteExpiredEphemeral := DeleteExpiredEphemeral s; st_DeleteSoftDeleted := DeleteSoftDeleted s |}.

Lemma add_key_ok s env a w w' :
  AddKey s env a w = (w', Ok tt) →
  add_valid s a ∧ insert_row (new_row env a) (primary w) = Some (primary w').
Proof.
  unfold AddKey.
  destruct (String.eqb_spec (a_keyID a) ""); [done|].
  destruct (String.eqb_spec (a_name a) ""); [done|].
  destruct (String.eqb_spec (a_keyHash a) ""); [done|].
  destruct (String.eqb_spec (a_subscription a) ""); [done|].
  destruct (a_ephemeral a && _) eqn:He; [done|].
  destruct (String.eqb_spec (a_tenant a) (tenantName s)); [|done]. cbn [negb primary recordQuery].
  destruct (insert_row (new_row env a) (primary w)) as [t|] eqn:Ei; [|done].
  unfold exec_write. destruct (write_fault env); cbn; [|done..]. intros [= <-].
  split; [|done]. split; try done. intros Hee. rewrite Hee in He. by destruct (a_expiresAt a).
Qed.

#[local] Instance postgres_contract s :
  hasReadReplica s = false →
  StoreContract World (ST:=postgres_store s) (fun w => table_ok (primary w)).
Proof.
  intros Hrep. split. intros env a w w' Hok Hadd.
  destruct (add_key_ok s env a w w' Hadd) as [Hv Hins].
  assert (Hok' : table_ok (primary w')).
  { eapply change_table_ok; [|done]. by eapply ch_insert. }
  split; [done|]. intros env' [Hf Hwf] Hexp.
  apply insert_row_some in Hins as (_ & Hp & _).
  assert (Hlook : primary w' !! a_keyID a = Some (new_row env a)) by (rewrite Hp; apply lookup_insert_eq).
  cbn [st_GetByHash postgres_store]. unfold GetByHash.
  destruct (query_rows_faultless s env' "get_by_hash" (select_where (hash_where s (a_keyHash a)))
    (consume_hash s env') w' Hf (consume_hash_domain s env')) as (w0 & _ & _ & -> & _).
  unfold pool_table. rewrite Hrep. pose proof (hash_rows s (a_keyHash a) (primary w') Hok') as Hrows.
  assert (Hw : hash_where s (a_keyHash a) (new_row env a) = true).
  { unfold hash_where, same_hash, not_deleted. cbn. by rewrite (av_tenant _ _ Hv), !String.eqb_refl. }
  destruct (select_where _ _) as [|r [|? ?]]; [by rewrite (Hrows _ _ Hlook) in Hw| |done].
  destruct Hrows as [(id & Hid) Hwr].
  assert (id = a_keyID a) as -> by by eapply (hash_where_unique s (a_keyHash a) (primary w')).
  replace r with (new_row env a) by congruence. unfold consume_hash.
  cbn [r_expires_at r_status new_row is_active].
  destruct (a_expiresAt a) as [e|].
  - rewrite (proj2 (Z.ltb_ge e (go_now env'))) by by apply Hexp. by eexists.
  - by eexists.
Qed.
End Postgres.

(** ** Minting and validating *)

Section Service.
Context {W : Type} `{ST : MetadataStore W} (ok : W → Prop) `{SC : !StoreContract W ok}.
Variable uuid_parse : string → bool.

Lemma create_key_ok s sel env rid rsecret uuid username groups name desc expiresIn ephemeral reqSub
    tenant labels (w w' : W) resp :
  CreateAPIKey s sel env rid rsecret uuid username groups name desc expiresIn ephemeral
    reqSub tenant labels w = (w', Ok resp) →
  AllValid groups = true
  ∧ (∃ d, expiration s expiresIn ephemeral = Ok d ∧ cr_ExpiresAt resp = (go_now env + d)%Z)
  ∧ ∃ hash prefix,
    KeyGen.GenerateAPIKey rid rsecret = Ok (cr_Key resp, hash, prefix)
    ∧ st_AddKey env {|
      a_username := username; a_keyID := uuid; a_keyHash := hash; a_name := name;
      a_description := desc; a_userGroups := groups; a_subscription := cr_Subscription resp;
      a_tenant := tenant; a_expiresAt := Some (cr_ExpiresAt resp); a_ephemeral := ephemeral;
      a_labels := labels |} w = (w', Ok tt).
Proof.
  unfold CreateAPIKey. destruct (validateGroupNames groups) eqn:Eg; [done|].
  destruct (expiration s expiresIn ephemeral) as [d|] eqn:Ed; [|done].
  destruct (KeyGen.GenerateAPIKey rid rsecret) as [[[plain hash] prefix]|] eqn:Ek; [|done].
  destruct (if negb (String.eqb reqSub "") then _ else _) as [sub|]; [|done].
  destruct (st_AddKey _ _ w) as [w1 [[]|e]] eqn:Ea; [|done]. intros [= <- <-].
  cbn [cr_ExpiresAt cr_Key cr_Subscription]. split_and!; [|by exists d|by exists hash, prefix].
  unfold AllValid. apply forallb_forall. intros g Hg.
  pose proof (find_none _ _ Eg g Hg) as Hn. by apply negb_false_iff in Hn.
Qed.

(** C5 A minted key validates: on any store that meets its contract, the key
    [CreateAPIKey] returns is accepted by [ValidateAPIKey] until it expires, as
    the user it was minted for, with the groups, subscription and tenant bound
    at creation. *)
Theorem created_key_validates s sel env e1 e2 uuid username groups name desc expiresIn ephemeral
    reqSub tenant labels (w w' : W) resp env' slots :
  ok w →
  CreateAPIKey s sel env (Ok e1) (Ok e2) uuid username groups name desc expiresIn ephemeral
    reqSub tenant labels w = (w', Ok resp) →
  uuid_parse uuid = true → trim_space (cr_Subscription resp) ≠ "" →
  healthy_env env' → (go_now env' ≤ cr_ExpiresAt resp)%Z →
  (ValidateAPIKey uuid_parse s env' (cr_Key resp) {| st_world := w'; st_slots := slots |}).2
  = Ok {| Valid := true; UserID := uuid; vr_Username := username; KeyID := uuid; KeyName := name;
          vr_Groups := groups; vr_Subscription := cr_Subscription resp; vr_Tenant := tenant;
          Reason := "" |}.
Proof.
  intros Hok Hc Huuid Hsub Hh Hexp.
  apply create_key_ok in Hc as (_ & _ & hash & prefix & Hgen & Hadd).
  destruct (sc_add _ _ _ _ Hok Hadd) as [_ Hget].
  assert (Hin : ∀ e, Some (cr_ExpiresAt resp) = Some e → (go_now env' ≤ e)%Z)
    by by intros e [= <-].
  destruct (Hget env' Hh Hin) as (k & Hk & [Hid Hu Hg Hs Ht Hn]). clear Hget Hin.
  cbn in Hk, Hid, Hu, Hg, Hs, Ht, Hn.
  rewrite KeyGen.GenerateAPIKey_ok in Hgen. injection Hgen as Hkey Hhash Hpre.
  unfold ValidateAPIKey. rewrite <- Hkey, KeyGen.generated_valid.
  rewrite KeyGen.HashAPIKey_generated, Hhash.
  assert (String.eqb hash "" = false) as ->.
  { pose proof (KeyGen.HashAPIKey_valid _ (KeyGen.generated_valid e1 e2)) as Hne.
    rewrite KeyGen.HashAPIKey_generated, Hhash in Hne. by destruct hash. }
  cbn [negb st_world st_slots]. destruct (st_GetByHash env' hash w') as [w2 found]. cbn in Hk. subst found.
  destruct (shouldUpdateLastUsed s (go_now env') (ID k) slots) as [m [proceed slot]].
  rewrite Hs, (proj2 (String.eqb_neq _ _) Hsub), Hid, Huuid. cbn. by rewrite Hu, Hg, Ht, Hn.
Qed.

(** C6 Validation fails closed, on any store: a key is only reported valid when
    it is well formed, the store returned a live key for the hash of exactly
    this key, that key has a subscription bound and a well-formed id — and then
    every identity field is the store's.  A store failure is an error, never a
    verdict. *)
Theorem validation_fails_closed s env key (st : State) :
  match (ValidateAPIKey uuid_parse s env key st).2 with
  | Ok vr =>
      Valid vr = true →
      KeyGen.IsValidKeyFormat key = true
      ∧ ∃ k, (st_GetByHash env (KeyGen.HashAPIKey key) (st_world st)).2 = Ok k
          ∧ trim_space (k_Subscription k) ≠ "" ∧ uuid_parse (ID k) = true
          ∧ UserID vr = ID k ∧ vr_Username vr = Username k ∧ vr_Groups vr = k_Groups k
          ∧ vr_Subscription vr = k_Subscription k ∧ vr_Tenant vr = Tenant k
  | Err (StoreFailed e) =>
      (st_GetByHash env (KeyGen.HashAPIKey key) (st_world st)).2 = Err e ∧ isDomainReadResult e = false
  | Err e => e = BadKeyID
  end.
Proof.
  unfold ValidateAPIKey. destruct (KeyGen.IsValidKeyFormat key); cbn [negb]; [|done].
  destruct (String.eqb _ ""); [done|].
  destruct (st_GetByHash env (KeyGen.HashAPIKey key) (st_world st)) as [w [k|e]]; [|by destruct e].
  destruct (shouldUpdateLastUsed _ _ _ _) as [m [proceed slot]].
  destruct (String.eqb_spec (trim_space (k_Subscription k)) "") as [|Hs]; [done|].
  destruct (uuid_parse (ID k)) eqn:Eu; [|done]. cbn. intros _. split; [done|]. by exists k.
Qed.

(** No key outlives the configured maximum: the expiration of a minted key
    lies strictly in the future, by at most one hour for an ephemeral key and
    at most the configured number of days otherwise. *)
Theorem minted_expiration_bounded s sel env rid rsecret uuid username groups name desc expiresIn
    ephemeral reqSub tenant labels (w w' : W) resp :
  CreateAPIKey s sel env rid rsecret uuid username groups name desc expiresIn ephemeral
    reqSub tenant labels w = (w', Ok resp) →
  (go_now env < cr_ExpiresAt resp)%Z
  ∧ (cr_ExpiresAt resp - go_now env ≤
     if ephemeral then Hour else GetMaxExpirationDays s * 24 * Hour)%Z.
Proof.
  intros (_ & (d & Hd & ->) & _)%create_key_ok. unfold expiration in Hd.
  set (max := if ephemeral then DefaultEphemeralKeyMaxExpiration
              else days_duration (GetMaxExpirationDays s)) in Hd.
  set (x := match expiresIn with Some d => d | None => _ end) in Hd.
  destruct (x <=? 0)%Z eqn:E1; [done|]. destruct (x >? max)%Z eqn:E2; [done|].
  injection Hd as <-. apply Z.leb_gt in E1. rewrite Z.gtb_ltb in E2. apply Z.ltb_ge in E2.
  split; [lia|]. assert (max ≤ if ephemeral then Hour else GetMaxExpirationDays s * 24 * Hour)%Z; [|lia].
  unfold max. destruct ephemeral; [done|].
  assert (Hpos : (0 < max)%Z) by lia. unfold max in Hpos.
  assert (Hmd : (0 < GetMaxExpirationDays s)%Z).
  { unfold GetMaxExpirationDays, DefaultAPIKeyMaxExpirationDays. destruct (config s) as [c|]; [|lia].
    destruct (APIKeyMaxExpirationDays c >? 0)%Z eqn:E; [|lia]. rewrite Z.gtb_ltb in E. bool_hyps. lia. }
  set (h := (GetMaxExpirationDays s * 24)%Z). assert (0 ≤ h)%Z by lia.
  unfold days_duration in *. fold h in Hpos |- *. assert (0 < Hour)%Z by done.
  destruct (Z.le_gt_cases 0 (wrap64 h)) as [Hw|Hw].
  - etrans; [apply wrap64_le; nia|]. apply Z.mul_le_mono_nonneg_r; [lia|by apply wrap64_le].
  - pose proof (wrap64_neg h). pose proof (wrap64_range (wrap64 h * Hour)).
    assert (int64_max < h)%Z by by apply wrap64_neg. nia.
Qed.

End Service.

(** ** Overflow *)

Lemma days_duration_exact d : (0 ≤ d ≤ maxAPIKeyDeletionRetentionDays)%Z →
  days_duration d = (d * 24 * Hour)%Z.
Proof.
  unfold maxAPIKeyDeletionRetentionDays, days_duration. intros Hd.
  rewrite (wrap64_id (d * 24)) by (unfold int64_min, int64_max; lia).
  apply wrap64_id. unfold int64_min, int64_max, Hour, Second. lia.
Qed.

(** The retention of a validated configuration never overflows
    [time.Duration]: it is exactly the configured number of days (90 by
    default) and positive, and the bound is sharp — one more day would wrap to
    a negative duration. *)
Theorem retention_never_overflows c c' :
  validate_config c = Some c' →
  let days := retention_days (NewServiceWithLogger (Some c')) in
  days_duration days = (days * 24 * Hour)%Z ∧ (0 < days_duration days)%Z
  ∧ days = (if (APIKeyDeletionRetentionDays c =? 0)%Z then 90%Z else APIKeyDeletionRetentionDays c)
  ∧ (days_duration (maxAPIKeyDeletionRetentionDays + 1) < 0)%Z.
Proof.
  unfold validate_config, defaultAPIKeyDeletionRetentionDays, maxAPIKeyDeletionRetentionDays.
  set (r := if (APIKeyDeletionRetentionDays c =? 0)%Z then 90%Z else APIKeyDeletionRetentionDays c).
  repeat (match goal with |- context [if ?b then None else _] => destruct b eqn:? end; [done|]).
  intros [= <-]. rewrite Z.gtb_ltb in *. bool_hyps. cbn [retention_days config NewServiceWithLogger
    APIKeyDeletionRetentionDays].
  assert ((r >? 0) = true)%Z as Hr by (rewrite Z.gtb_ltb; apply Z.ltb_lt; lia). rewrite Hr.
  assert (He : days_duration r = (r * 24 * Hour)%Z)
    by (apply days_duration_exact; unfold maxAPIKeyDeletionRetentionDays; lia).
  rewrite He. split_and!; try done. unfold Hour, Second. lia.
Qed.

(** The maximum expiration has no such bound: a configuration that validation
    accepts with 106752 days makes the maximum wrap to a negative duration, and
    then no regular key can be minted, with or without a requested expiration. *)
Theorem max_expiration_overflow :
  ∃ c, validate_config c = Some c ∧ APIKeyMaxExpirationDays c = 106752%Z
    ∧ ∀ expiresIn, ∃ e, expiration (NewServiceWithLogger (Some c)) expiresIn false = Err e.
Proof.
  exists {| cfg_TenantName := "t"; APIKeyMaxExpirationDays := 106752; LastUsedDebounceSecs := 60;
            APIKeyDeletionRetentionDays := 90 |}.
  split_and!; [by vm_compute|done|]. intros expiresIn. unfold expiration.
  cbn [GetMaxExpirationDays config NewServiceWithLogger APIKeyMaxExpirationDays].
  change (days_duration (if 106752 >? 0 then 106752 else DefaultAPIKeyMaxExpirationDays)%Z)
    with (-9223371273709551616)%Z.
  set (d := match expiresIn with Some d => d | None => _ end).
  destruct (Z.leb_spec d 0) as [|Hd]; [by eexists|].
  assert ((d >? -9223371273709551616) = true)%Z as -> by (rewrite Z.gtb_ltb; apply Z.ltb_lt; lia).
  by eexists.
Qed.

(** ** Concrete runs on the PostgreSQL store *)

#[local] Instance demo_metadata : MetadataStore World :=
  postgres_store (GR:=KeyStoreDemo.demo_runtime) (CL:=KeyStoreDemo.demo_collation) KeyStoreDemo.demo_store.

Definition demo_response : Subscription.SelectResponse :=
  Subscription.toResponse {|
    Subscription.sub_Object := None; Subscription.Name := "gold"; Subscription.Namespace := "maas";
    Subscription.DisplayName := ""; Subscription.Description := ""; Subscription.Groups := ["dev"];
    Subscription.Users := []; Subscription.Priority := 0; Subscription.MaxLimit := 0;
    Subscription.AssociatedOrganizationID := ""; Subscription.OrganizationID := "";
    Subscription.CostCenter := ""; Subscription.Labels := ∅; Subscription.Headers := ∅;
    Subscription.ModelRefs := []; Subscription.Phase := "Active"; Subscription.Ready := true;
    Subscription.DeletionTimestamp := None; Subscription.TokenRateLimitStatuses := [];
    Subscription.UseShortRateLimitID := false; Subscription.Objectives := ∅ |}.
Definition demo_selector : SubscriptionSelector := {|
  ss_Select _ _ _ _ := Ok demo_response; ss_SelectHighestPriority _ _ := Ok demo_response |}.
Definition demo_service : Service := NewServiceWithLogger None.

Definition demo_create (ephemeral : bool) : World * Res ServiceErr CreateAPIKeyResponse :=
  CreateAPIKey demo_service demo_selector (faultless 0) (Ok [Byte.x01; Byte.x02]) (Ok [Byte.x03; Byte.x04])
    "uuid-1" "alice" ["dev"] "laptop" "" None ephemeral "" "acme" ∅ empty_world.

Lemma created_key_validates_witness :
  ∃ resp w', demo_create false = (w', Ok resp)
    ∧ ∃ vr, (ValidateAPIKey (fun _ => true) demo_service (faultless 5) (cr_Key resp)
               {| st_world := w'; st_slots := ∅ |}).2 = Ok vr
      ∧ Valid vr = true ∧ vr_Username vr = "alice".
Proof.
  destruct (demo_create false) as [w' [resp|e]] eqn:E; [|by vm_compute in E].
  exists resp, w'. split; [done|].
  assert (Hsub : trim_space (cr_Subscription resp) ≠ "") by (vm_compute in E; injection E as <- <-; by vm_compute).
  assert (Hexp : (go_now (faultless 5) ≤ cr_ExpiresAt resp)%Z) by (vm_compute in E; injection E as <- <-; by vm_compute).
  eexists. split.
  - eapply (created_key_validates (SC:=postgres_contract (GR:=KeyStoreDemo.demo_runtime)
      (CL:=KeyStoreDemo.demo_collation) KeyStoreDemo.demo_store eq_refl)
      (fun w => table_ok (primary w)) (fun _ => true) demo_service demo_selector (faultless 0));
      [|exact E|done|exact Hsub|done|exact Hexp]; apply table_ok_empty.
  - by split.
Defined.

Lemma minted_expiration_bounded_witness :
  ∃ resp w', demo_create true = (w', Ok resp) ∧ (cr_ExpiresAt resp - 0 ≤ Hour)%Z.
Proof.
  destruct (demo_create true) as [w' [resp|e]] eqn:E; [|by vm_compute in E].
  exists resp, w'. split; [done|].
  by destruct (minted_expiration_bounded demo_service demo_selector (faultless 0)
    (Ok [Byte.x01; Byte.x02]) (Ok [Byte.x03; Byte.x04]) "uuid-1" "alice" ["dev"] "laptop" "" None true
    "" "acme" ∅ empty_world w' resp E) as [_ H].
Defined.

Lemma retention_never_overflows_witness :
  (0 < days_duration (retention_days (NewServiceWithLogger (Some
     {| cfg_TenantName := "t"; APIKeyMaxExpirationDays := 90; LastUsedDebounceSecs := 60;
        APIKeyDeletionRetentionDays := 90 |}))))%Z.
Proof.
  apply (retention_never_overflows
    {| cfg_TenantName := "t"; APIKeyMaxExpirationDays := 90; LastUsedDebounceSecs := 60;
       APIKeyDeletionRetentionDays := 0 |}). by vm_compute.
Defined.

End KeyServiceFacts.
