(* ===== verification/KeyDebounce.v ===== *)
(** * KeyDebounce: concurrent callers of the last-used debounce

    [shouldUpdateLastUsed] and [clearDebounceSlot] of
    [maas-api/internal/api_keys/service.go], and the hourly sweep of
    [StartDebounceCleanup], as steps of concurrent goroutines over one
    [sync.Map]: each call reads the clock, then runs [LoadOrStore], then
    possibly [CompareAndSwap]; a sweep fixes its cutoff, then for entry after
    entry sees a slot and deletes the key, with anything in between. *)

From stdpp Require Import relations.
From S2P Require Import Prelude GoStrings KeyService.
From Stdlib Require String.
Local Open Scope string_scope.

Module KeyDebounce.
Import KeyService.

(** Where a goroutine is inside [shouldUpdateLastUsed], or inside a sweep:
    between two entries, or between the test of an entry and its [Delete]. *)
Inductive Goroutine :=
| ReadClock (key : string) (now : Z)
| SawSlot (key : string) (now actual : Z)
| Sweeping (cutoff : Z)
| Evicting (key : string) (seen cutoff : Z).

(** What happened to a key's reservation; an eviction removes [slot] because
    the sweep has seen [seen], which is older than [cutoff]. *)
Inductive Event :=
| Reserved (key : string) (slot : Z)
| Released (key : string) (slot : Z)
| Evicted (key : string) (slot seen cutoff : Z).

Record Sys := {
  clock : Z;
  slots : Slots;
  running : list Goroutine;
  trace : list Event;
}.

Section Steps.
Variable ttl : Z.

Inductive dstep : Sys → Sys → Prop :=
| d_tick c c' m g tr :
    (c ≤ c')%Z →
    dstep {| clock := c; slots := m; running := g; trace := tr |}
          {| clock := c'; slots := m; running := g; trace := tr |}
| d_call key c m g tr :
    dstep {| clock := c; slots := m; running := g; trace := tr |}
          {| clock := c; slots := m; running := ReadClock key c :: g; trace := tr |}
| d_load key now m m' actual loaded c g1 g2 tr :
    LoadOrStore m key now = (m', (actual, loaded)) →
    dstep {| clock := c; slots := m; running := g1 ++ ReadClock key now :: g2; trace := tr |}
          {| clock := c; slots := m';
             running := if loaded && (ttl <=? now - actual)%Z
                        then (g1 ++ SawSlot key now actual :: g2)%list else (g1 ++ g2)%list;
             trace := if loaded then tr else Reserved key now :: tr |}
| d_swap key now actual m m' swapped c g1 g2 tr :
    CompareAndSwap m key actual now = (m', swapped) →
    dstep {| clock := c; slots := m; running := g1 ++ SawSlot key now actual :: g2; trace := tr |}
          {| clock := c; slots := m'; running := g1 ++ g2;
             trace := if swapped then Reserved key now :: tr else tr |}
| d_clear key slot m c g tr :
    dstep {| clock := c; slots := m; running := g; trace := tr |}
          {| clock := c; slots := CompareAndDelete m key slot; running := g;
             trace := if bool_decide (m !! key = Some slot) then Released key slot :: tr else tr |}
| d_sweep_start m c g tr :
    dstep {| clock := c; slots := m; running := g; trace := tr |}
          {| clock := c; slots := m; running := Sweeping (c - ttl) :: g; trace := tr |}
| d_sweep_see key slot cutoff m c g1 g2 tr :
    m !! key = Some slot → (slot < cutoff)%Z →
    dstep {| clock := c; slots := m; running := g1 ++ Sweeping cutoff :: g2; trace := tr |}
          {| clock := c; slots := m; running := g1 ++ Evicting key slot cutoff :: g2; trace := tr |}
| d_sweep_delete key seen cutoff m c g1 g2 tr :
    dstep {| clock := c; slots := m; running := g1 ++ Evicting key seen cutoff :: g2; trace := tr |}
          {| clock := c; slots := delete key m; running := g1 ++ Sweeping cutoff :: g2;
             trace := match m !! key with Some slot => Evicted key slot seen cutoff :: tr | None => tr end |}
| d_sweep_end cutoff m c g1 g2 tr :
    dstep {| clock := c; slots := m; running := g1 ++ Sweeping cutoff :: g2; trace := tr |}
          {| clock := c; slots := m; running := g1 ++ g2; trace := tr |}.

Definition initial (now : Z) : Sys := {| clock := now; slots := ∅; running := []; trace := [] |}.

(** The reservation a key holds after a trace (latest event first). *)
Fixpoint holds (key : string) (tr : list Event) : option Z :=
  match tr with
  | [] => None
  | Reserved k s :: r => if String.eqb k key then Some s else holds key r
  | Released k _ :: r | Evicted k _ _ _ :: r => if String.eqb k key then None else holds key r
  end.

(** Every reservation was made on a free key or at least [ttl] after the one
    it replaces; only the held slot was ever released; and a key was evicted
    only when one of its reservations was older than the cutoff of the sweep,
    though it may hold a newer one by then. *)
Fixpoint well_spaced (tr : list Event) : Prop :=
  match tr with
  | [] => True
  | Reserved k s :: r =>
      match holds k r with Some s0 => (s0 + ttl ≤ s)%Z | None => True end ∧ well_spaced r
  | Released k s :: r => holds k r = Some s ∧ well_spaced r
  | Evicted k s seen cutoff :: r =>
      holds k r = Some s ∧ Reserved k seen ∈ r ∧ (seen < cutoff)%Z ∧ well_spaced r
  end.

Lemma holds_reserved key tr s : holds key tr = Some s → Reserved key s ∈ tr.
Proof.
  induction tr as [|[k a|k a|k a b d] tr IH]; cbn; [done|..]; destruct (String.eqb_spec k key) as [->|];
    intros H; simplify_eq; first [by left|right; by apply IH].
Qed.

(** What a goroutine has read and still acts on. *)
Definition grounded (tr : list Event) (g : Goroutine) : Prop :=
  match g with
  | SawSlot _ now actual => (actual + ttl ≤ now)%Z
  | Evicting key seen cutoff => Reserved key seen ∈ tr ∧ (seen < cutoff)%Z
  | _ => True
  end.

Record sys_ok (y : Sys) : Prop := {
  so_slots : ∀ key, slots y !! key = holds key (trace y);
  so_spaced : well_spaced (trace y);
  so_running : Forall (grounded (trace y)) (running y);
}.

Lemma grounded_cons e tr l : Forall (grounded tr) l → Forall (grounded (e :: tr)) l.
Proof. intros Hl. eapply Forall_impl; [exact Hl|]. intros [] H; try exact H. destruct H. split; [by right|done]. Qed.
#[local] Hint Resolve grounded_cons : core.

Lemma grounded_without tr g1 a g2 :
  Forall (grounded tr) (g1 ++ a :: g2) → grounded tr a ∧ Forall (grounded tr) (g1 ++ g2).
Proof. rewrite !Forall_app, Forall_cons. tauto. Qed.
Lemma grounded_with tr g1 b g2 : grounded tr b → Forall (grounded tr) (g1 ++ g2) → Forall (grounded tr) (g1 ++ b :: g2).
Proof. rewrite !Forall_app, Forall_cons. tauto. Qed.

(** The map after a reservation, and after the removal of a key. *)
Lemma slots_insert (m : Slots) tr key s :
  (∀ k, m !! k = holds k tr) → ∀ k, <[key := s]> m !! k = if String.eqb key k then Some s else holds k tr.
Proof.
  intros Hm k. destruct (String.eqb_spec key k) as [->|Hne]; [apply lookup_insert_eq|].
  rewrite lookup_insert_ne by done. apply Hm.
Qed.
Lemma slots_delete (m : Slots) tr key :
  (∀ k, m !! k = holds k tr) → ∀ k, delete key m !! k = if String.eqb key k then None else holds k tr.
Proof.
  intros Hm k. destruct (String.eqb_spec key k) as [->|Hne]; [apply lookup_delete_eq|].
  rewrite lookup_delete_ne by done. apply Hm.
Qed.

Lemma dstep_ok y y' : dstep y y' → sys_ok y → sys_ok y'.
Proof.
  intros Hs [Hm Hw Hr]. destruct Hs as
    [c c' m g tr Hc|key c m g tr|key now m m' actual loaded c g1 g2 tr HL|
     key now actual m m' swapped c g1 g2 tr HC|key slot m c g tr|m c g tr|key slot cutoff m c g1 g2 tr Hl Hc|
     key seen cutoff m c g1 g2 tr|cutoff m c g1 g2 tr]; cbn in *.
  - by split.
  - split; [done..|by constructor].
  - apply grounded_without in Hr as [_ Hr].
    unfold LoadOrStore in HL. destruct (m !! key) as [a|] eqn:E; simplify_eq/=.
    + split; cbn; [done..|]. destruct (Z.leb_spec ttl (now - actual)); [|done].
      apply grounded_with; [cbn; lia|done].
    + split; cbn; [by apply slots_insert|by rewrite <- Hm, E|by apply grounded_cons].
  - apply grounded_without in Hr as [Ha Hr]. cbn in Ha.
    unfold CompareAndSwap in HC. case_bool_decide as E; simplify_eq/=; [|by split].
    split; cbn; [by apply slots_insert|by rewrite <- Hm, E|by apply grounded_cons].
  - unfold CompareAndDelete. case_bool_decide as E; [|by split].
    split; cbn; [by apply slots_delete|by rewrite <- Hm|by apply grounded_cons].
  - split; [done..|by constructor].
  - apply grounded_without in Hr as [_ Hr]. split; cbn; [done..|]. apply grounded_with; [|done].
    split; [|done]. apply holds_reserved. by rewrite <- Hm.
  - apply grounded_without in Hr as [[Hs Hc] Hr]. destruct (m !! key) as [slot|] eqn:E.
    + split; cbn; [by apply slots_delete|by rewrite <- Hm|]. apply grounded_with; [done|by apply grounded_cons].
    + split; cbn; [|done|by apply grounded_with]. intros k. by rewrite delete_id.
  - apply grounded_without in Hr as [_ Hr]. by split.
Qed.

(** C35 However many goroutines validate keys at once, in any interleaving with
    sweeps: two successive reservations of one key are at least the debounce
    interval apart unless its slot was released or evicted in between; a
    clean-up after a failed write releases only the slot the key holds; and a
    sweep evicts only keys of which it has seen a slot older than its cutoff,
    though its [Delete] may take a newer one. *)
Theorem debounce_well_spaced now y : rtc dstep (initial now) y → well_spaced (trace y).
Proof.
  intros Hr. assert (H0 : sys_ok (initial now)) by (split; [done|done|constructor]).
  assert (Hok : sys_ok y) by (induction Hr; eauto using dstep_ok). apply Hok.
Qed.

End Steps.

Lemma debounce_well_spaced_witness :
  ∃ y, rtc (dstep 60) (initial 0) y ∧ well_spaced 60 (trace y) ∧ trace y = [Reserved "k" 0].
Proof.
  assert (H : rtc (dstep 60) (initial 0)
    {| clock := 0; slots := {["k" := 0%Z]}; running := []; trace := [Reserved "k" 0] |}).
  { eapply rtc_l; [apply (d_call 60 "k")|]. eapply rtc_l; [|apply rtc_refl].
    by apply (d_load 60 "k" 0%Z ∅ _ 0%Z false 0%Z [] []). }
  eexists. split; [exact H|]. split; [|done]. exact (debounce_well_spaced 60 0 _ H).
Defined.

(** The comment on [StartDebounceCleanup] says that a sweep has no effect on
    debounce correctness.  Its [Delete] is not conditional on the slot it has
    seen: a key refreshed in between loses the fresh slot, and is reserved again
    within the interval although no write failed. *)
Theorem sweep_evicts_fresh_slot :
  ∃ y, rtc (dstep 60) (initial 0) y
    ∧ trace y = [Reserved "k" 62; Evicted "k" 61 0 1; Reserved "k" 61; Reserved "k" 0].
Proof.
  eexists. split; [|shelve].
  eapply rtc_l; [eapply (d_call 60 "k")|].
  eapply rtc_l; [eapply (d_load 60 "k" 0%Z ∅ _ 0%Z false 0%Z [] []); reflexivity|].
  eapply rtc_l; [eapply (d_tick 60 0 61); lia|].
  eapply rtc_l; [apply d_sweep_start|].
  eapply rtc_l; [eapply (d_sweep_see 60 "k" 0 1 _ _ [] []); [by apply lookup_insert_eq|lia]|].
  eapply rtc_l; [eapply (d_call 60 "k")|].
  eapply rtc_l; [eapply (d_load 60 "k" 61%Z _ _ 0%Z true 61%Z [] [Evicting "k" 0 1]); reflexivity|].
  eapply rtc_l; [eapply (d_swap 60 "k" 61%Z 0%Z _ _ true 61%Z [] [Evicting "k" 0 1]); reflexivity|].
  eapply rtc_l; [eapply (d_sweep_delete 60 "k" 0 1 _ _ [] [])|].
  eapply rtc_l; [eapply (d_tick 60 61 62); lia|].
  eapply rtc_l; [eapply (d_call 60 "k")|].
  eapply rtc_l; [eapply (d_load 60 "k" 62%Z _ _ 62%Z false 62%Z [] [Sweeping 1]); reflexivity|].
  apply rtc_refl.
  Unshelve. reflexivity.
Qed.

(** One uninterrupted call proceeds exactly when the debounce is disabled, the
    key has no slot, or its slot is at least the interval old; it reserves the
    current time then, and changes nothing otherwise. *)
Theorem should_update_spec s now keyID m :
  let due := match m !! keyID with
             | None => true
             | Some last => (lastUsedDebounceTTL s <=? now - last)%Z
             end in
  shouldUpdateLastUsed s now keyID m =
  if (lastUsedDebounceTTL s =? 0)%Z then (m, (true, None))
  else if due then (<[keyID := now]> m, (true, Some now)) else (m, (false, None)).
Proof.
  unfold shouldUpdateLastUsed, LoadOrStore, CompareAndSwap. cbn zeta.
  destruct (_ =? 0)%Z; [done|]. destruct (m !! keyID) as [last|] eqn:E; cbn; [|done].
  destruct (_ <=? _)%Z; [|done]. rewrite E. by rewrite bool_decide_eq_true_2.
Qed.

End KeyDebounce.
