(* ===== verification/AuthPolicy.v ===== *)
(** * AuthPolicy: which models a caller may use

    Models [maas-api/internal/authpolicy/checker.go]: evaluation of the
    MaaSAuthPolicy objects of the informer cache for a caller, and the
    organization-scoped inventory of the subjects of a model. *)

From S2P Require Import Prelude GoStrings Unstructured Subscription.
From Stdlib Require String.
Local Open Scope string_scope.

Module AuthPolicy.

Record GroupReference := mkGroup { gr_Name : string }.
#[export] Instance GroupReference_eq_dec : EqDecision GroupReference.
Proof. solve_decision. Defined.

Record ModelAccessSubjects := { mas_Groups : list GroupReference; mas_Users : list string }.
Definition no_subjects : ModelAccessSubjects := {| mas_Groups := []; mas_Users := [] |}.

(** [None] is a nil lister. *)
Record Checker := { lister : option (Res string (list Object)) }.

Inductive CheckErr :=
| NilLister
| ListFailed (cause : string)
| OrganizationRequired
| IncompleteModelRef.

Definition policy_spec (policy : Object) : option JMap := as_map (get "spec" (Fields policy)).

(** ** Authorization *)

Definition policyMatchesSubject (spec : JMap) (groups : list string) (username : string) : bool :=
  match as_map (get "subjects" spec) with
  | None => false
  | Some subjects =>
      (negb (String.eqb username "") &&
       match as_slice (get "users" subjects) with
       | Some users =>
           existsb (fun u => match as_string (Some u) with
                             | Some s => String.eqb s username
                             | None => false
                             end) users
       | None => false
       end)
      || match as_slice (get "groups" subjects) with
         | Some groupRefs =>
             existsb (fun g => match as_map (Some g) with
                               | Some gMap => bool_decide (string_or_empty (get "name" gMap) ∈ groups)
                               | None => false
                               end) groupRefs
         | None => false
         end
  end.

Definition raw_key (m : JMap) : ModelKey :=
  mkModelKey (string_or_empty (get "namespace" m)) (string_or_empty (get "name" m)).

(** The loop over the refs of one matching policy. *)
Definition grant_refs (spec : JMap) (authorized : gmap ModelKey bool) : gmap ModelKey bool :=
  match as_slice (get "modelRefs" spec) with
  | None => authorized
  | Some modelRefs =>
      foldl (fun a m => if negb (String.eqb (key_name (raw_key m)) "") then <[raw_key m := true]> a else a)
        authorized (maps_of modelRefs)
  end.

Definition AuthorizedModels (c : Checker) (groups : list string) (username : string)
    : Res CheckErr (gmap ModelKey bool) :=
  match lister c with
  | None => Err NilLister
  | Some listed =>
      policies <- map_err ListFailed listed ;;
      Ok (foldl (fun authorized policy =>
        match policy_spec policy with
        | None => authorized
        | Some spec =>
            if negb (policyMatchesSubject spec groups username) then authorized
            else grant_refs spec authorized
        end) ∅ policies)
  end.

Definition IsModelAccessible (c : Checker) (groups : list string) (username modelName modelNamespace : string)
    : bool :=
  match AuthorizedModels c groups username with
  | Err _ => false
  | Ok authorized => default false (authorized !! mkModelKey modelNamespace modelName)
  end.

(** ** Subject inventory *)

Definition parseModelRefs (spec : JMap) : list ModelKey :=
  match as_slice (get "modelRefs" spec) with
  | None => []
  | Some rawRefs =>
      filter (fun k => negb (String.eqb (key_name k) "") && negb (String.eqb (key_namespace k) "") = true)
        (map raw_key (maps_of rawRefs))
  end.

Definition parsePolicyGroups (spec : JMap) (organizationPrefix : string) : list GroupReference :=
  match as_map (get "subjects" spec) with
  | None => []
  | Some subjects =>
      match as_slice (get "groups" subjects) with
      | None => []
      | Some rawGroups =>
          omap (fun groupMap =>
            let name := string_or_empty (get "name" groupMap) in
            if String.eqb name "" then None
            else if has_prefix organizationPrefix name then Some (mkGroup name) else None)
            (maps_of rawGroups)
      end
  end.

Definition parsePolicyUsers (spec : JMap) (organizationPrefix : string) : list string :=
  match as_map (get "subjects" spec) with
  | None => []
  | Some subjects =>
      match as_slice (get "users" subjects) with
      | None => []
      | Some rawUsers =>
          omap (fun rawUser => match as_string (Some rawUser) with
                               | Some user => if has_prefix organizationPrefix user then Some user else None
                               | None => None
                               end) rawUsers
      end
  end.

(** [appendUniqueGroups] and [appendUniqueStrings]: one loop, on the key [f]. *)
Definition append_unique {A} (f : A → string) (values additions : list A) : list A :=
  foldl (fun values addition =>
    if existsb (fun v => String.eqb (f v) (f addition)) values then values
    else (values ++ [addition])%list) values additions.
Definition appendUniqueGroups := append_unique gr_Name.
Definition appendUniqueStrings := append_unique (fun s : string => s).

Definition add_subjects (groups : list GroupReference) (users : list string) (s : ModelAccessSubjects)
    : ModelAccessSubjects := {|
  mas_Groups := appendUniqueGroups (mas_Groups s) groups;
  mas_Users := appendUniqueStrings (mas_Users s) users |}.

(** One policy's contribution. *)
Definition add_policy (requested : gset ModelKey) (prefix : string)
    (inventory : gmap ModelKey ModelAccessSubjects) (policy : Object) : gmap ModelKey ModelAccessSubjects :=
  match policy_spec policy with
  | None => inventory
  | Some spec =>
      let policyGroups := parsePolicyGroups spec prefix in
      let policyUsers := parsePolicyUsers spec prefix in
      foldl (fun inv ref =>
        if bool_decide (ref ∈ requested)
        then <[ref := add_subjects policyGroups policyUsers (default no_subjects (inv !! ref))]> inv
        else inv) inventory (parseModelRefs spec)
  end.

Section Inventory.
Context `{GR : GoRuntime}.

Definition sort_subjects (s : ModelAccessSubjects) : ModelAccessSubjects := {|
  mas_Groups := sort_slice (on_key gr_Name str_ltb) (mas_Groups s);
  mas_Users := sort_strings (mas_Users s) |}.

Definition ModelAccessSubjectsOf (c : Checker) (modelRefs : list ModelKey) (organizationID : string)
    : Res CheckErr (gmap ModelKey ModelAccessSubjects) :=
  match lister c with
  | None => Err NilLister
  | Some listed =>
      reject OrganizationRequired when String.eqb organizationID "" ;;
      reject IncompleteModelRef
        when existsb (fun ref => String.eqb (key_namespace ref) "" || String.eqb (key_name ref) "") modelRefs ;;
      let requested : gset ModelKey := list_to_set modelRefs in
      if bool_decide (requested = ∅) then Ok ∅ else
      policies <- map_err ListFailed listed ;;
      Ok (sort_subjects <$> foldl (add_policy requested (organizationID +:+ "/")) ∅ policies)
  end.
End Inventory.

(** ** Specification *)

Definition subject_of (spec : JMap) (groups : list string) (username : string) : Prop :=
  ∃ subjects, as_map (get "subjects" spec) = Some subjects
  ∧ (username ≠ "" ∧ (∃ users, as_slice (get "users" subjects) = Some users ∧ JStr username ∈ users)
     ∨ ∃ groupRefs gMap, as_slice (get "groups" subjects) = Some groupRefs ∧ JObj gMap ∈ groupRefs
         ∧ string_or_empty (get "name" gMap) ∈ groups).
Definition grants (spec : JMap) (k : ModelKey) : Prop :=
  key_name k ≠ "" ∧ ∃ refs m, as_slice (get "modelRefs" spec) = Some refs ∧ JObj m ∈ refs ∧ raw_key m = k.

(** The policy lets the caller use the model. *)
Definition permits (groups : list string) (username : string) (k : ModelKey) (policy : Object) : Prop :=
  ∃ spec, policy_spec policy = Some spec ∧ subject_of spec groups username ∧ grants spec k.

Lemma maps_of_elem l m : m ∈ maps_of l ↔ JObj m ∈ l.
Proof.
  unfold maps_of. rewrite list_elem_of_omap. split.
  - intros (v & Hv & E). by destruct v; simplify_eq/=.
  - intros H. by exists (JObj m).
Qed.

Lemma policy_matches_iff spec groups username :
  policyMatchesSubject spec groups username = true ↔ subject_of spec groups username.
Proof.
  unfold policyMatchesSubject, subject_of.
  destruct (as_map (get "subjects" spec)) as [subjects|]; [|naive_solver].
  rewrite orb_true_iff, andb_true_iff, negb_true_iff, String.eqb_neq. split.
  - intros [[Hne Hu]|Hg].
    + destruct (as_slice (get "users" subjects)) as [users|] eqn:Es; [|done].
      apply existsb_elem in Hu as (u & Hin & Hu). destruct u; try done.
      apply String.eqb_eq in Hu as ->. exists subjects. split; [done|]. left. split; [done|]. by exists users.
    + destruct (as_slice (get "groups" subjects)) as [gs|] eqn:Es; [|done].
      apply existsb_elem in Hg as (g & Hin & Hg). destruct g; try done. cbn in Hg. bool_hyps.
      exists subjects. split; [done|]. right. by exists gs, m.
  - intros (x & [= <-] & [[Hne (users & Es & Hin)]|(gs & m & Es & Hin & Hn)]).
    + left. rewrite Es. split; [done|]. apply existsb_elem. exists (JStr username).
      split; [done|]. apply String.eqb_refl.
    + right. rewrite Es. apply existsb_elem. exists (JObj m). split; [done|]. by apply bool_decide_eq_true.
Qed.

Lemma grant_refs_lookup spec (a : gmap ModelKey bool) k :
  default false (grant_refs spec a !! k) = true ↔ default false (a !! k) = true ∨ grants spec k.
Proof.
  unfold grant_refs, grants. destruct (as_slice (get "modelRefs" spec)) as [refs|]; [|naive_solver].
  assert (Hms : (∃ refs' m, Some refs = Some refs' ∧ JObj m ∈ refs' ∧ raw_key m = k)
    ↔ ∃ m, m ∈ maps_of refs ∧ raw_key m = k).
  { setoid_rewrite maps_of_elem. naive_solver. }
  rewrite Hms. clear Hms. generalize (maps_of refs) as ms. intros ms. clear refs.
  revert a. induction ms as [|m ms IH]; intros a; cbn [foldl].
  { rewrite exists_elem_nil. tauto. }
  rewrite IH, exists_elem_cons.
  destruct (String.eqb_spec (key_name (raw_key m)) "") as [E|E]; cbn [negb].
  - assert (raw_key m = k → key_name k = "") by (intros <-; done). tauto.
  - destruct (decide (raw_key m = k)) as [<-|Hne].
    + rewrite lookup_insert_eq. cbn. tauto.
    + rewrite lookup_insert_ne by done. tauto.
Qed.

Lemma authorized_models_elem c groups username policies a k :
  lister c = Some (Ok policies) → AuthorizedModels c groups username = Ok a →
  default false (a !! k) = true ↔ ∃ policy, policy ∈ policies ∧ permits groups username k policy.
Proof.
  unfold AuthorizedModels. intros ->. cbn [map_err res_bind]. intros [= <-].
  set (step := fun a policy => _).
  assert (Hgen : ∀ a, default false (foldl step a policies !! k) = true ↔
    default false (a !! k) = true ∨ ∃ policy, policy ∈ policies ∧ permits groups username k policy).
  { induction policies as [|p ps IH]; intros a; cbn [foldl].
    { rewrite exists_elem_nil. tauto. }
    rewrite IH, exists_elem_cons. unfold step at 1. clear IH.
    assert (default false (match policy_spec p with None => a | Some spec =>
        if negb (policyMatchesSubject spec groups username) then a else grant_refs spec a end !! k) = true
      ↔ default false (a !! k) = true ∨ permits groups username k p) as Hp; [|tauto].
    unfold permits. destruct (policy_spec p) as [spec|]; [|naive_solver].
    destruct (policyMatchesSubject spec groups username) eqn:Em; cbn [negb].
    - rewrite grant_refs_lookup. rewrite policy_matches_iff in Em. naive_solver.
    - rewrite <- not_true_iff_false, policy_matches_iff in Em. naive_solver. }
  rewrite Hgen, lookup_empty. cbn. intuition discriminate.
Qed.

(** A model is authorized for a caller exactly when some policy of the cache
    names the caller (by non-empty user name or by one of the groups) and lists
    the model under a non-empty name; [IsModelAccessible] is that set's
    membership and denies when the policies cannot be listed. *)
Theorem authorized_models_exact c groups username :
  match AuthorizedModels c groups username with
  | Ok a => ∃ policies, lister c = Some (Ok policies)
      ∧ ∀ k, default false (a !! k) = true ↔
        ∃ policy, policy ∈ policies ∧ permits groups username k policy
  | Err _ => (lister c = None ∨ ∃ e, lister c = Some (Err e))
      ∧ ∀ ns name, IsModelAccessible c groups username name ns = false
  end.
Proof.
  destruct (AuthorizedModels c groups username) as [a|e] eqn:Ea.
  - assert (Hl : ∃ policies, lister c = Some (Ok policies)).
    { unfold AuthorizedModels in Ea. destruct (lister c) as [[policies|e]|]; [by eexists|done..]. }
    destruct Hl as [policies Hl]. exists policies. split; [done|]. intros k. by eapply authorized_models_elem.
  - unfold IsModelAccessible. rewrite Ea. split; [|done].
    unfold AuthorizedModels in Ea. destruct (lister c) as [[policies|e']|]; [done|eauto..].
Qed.

(** ** The inventory *)

#[local] Instance gr_Name_inj : Inj (=) (=) gr_Name.
Proof. intros [a] [b]. cbn. congruence. Qed.
#[local] Instance same_string_inj : Inj (=) (=) (fun s : string => s).
Proof. by intros ??. Qed.

Lemma append_unique_elem {A} (f : A → string) `{!Inj (=) (=) f} values additions x :
  x ∈ append_unique f values additions ↔ x ∈ values ∨ x ∈ additions.
Proof.
  unfold append_unique. revert values. induction additions as [|a additions IH]; intros values; cbn [foldl].
  { set_solver. }
  rewrite IH, elem_of_cons. destruct (existsb _ values) eqn:E; [|set_solver].
  apply existsb_elem in E as (v & Hv & E%String.eqb_eq%(inj f)). naive_solver.
Qed.

Lemma append_unique_nodup {A} (f : A → string) values additions :
  NoDup values → NoDup (append_unique f values additions).
Proof.
  unfold append_unique. revert values. induction additions as [|a additions IH]; intros values Hn; [done|].
  cbn [foldl]. apply IH. destruct (existsb _ values) eqn:E; [done|].
  apply NoDup_app. split_and!; [done| |apply NoDup_singleton].
  intros x Hx ->%list_elem_of_singleton. rewrite <- not_true_iff_false, existsb_elem in E.
  apply E. exists a. split; [done|apply String.eqb_refl].
Qed.

(** The subjects hold exactly the groups [G] and the users [U], once each. *)
Record describes (s : ModelAccessSubjects) (G : GroupReference → Prop) (U : string → Prop) : Prop := {
  ds_groups : ∀ g, g ∈ mas_Groups s ↔ G g;
  ds_users : ∀ u, u ∈ mas_Users s ↔ U u;
  ds_groups_nodup : NoDup (mas_Groups s);
  ds_users_nodup : NoDup (mas_Users s);
}.

Lemma describes_ext s G U G' U' :
  (∀ g, G g ↔ G' g) → (∀ u, U u ↔ U' u) → describes s G U → describes s G' U'.
Proof. intros HG HU [????]. split; try done; intros x; [rewrite <- HG|rewrite <- HU]; done. Qed.

Lemma add_describes gs us s G U :
  describes s G U → describes (add_subjects gs us s) (fun g => G g ∨ g ∈ gs) (fun u => U u ∨ u ∈ us).
Proof.
  intros [HG HU Hn1 Hn2].
  split; cbn [mas_Groups mas_Users add_subjects]; unfold appendUniqueGroups, appendUniqueStrings.
  - intros g. rewrite append_unique_elem by apply _. by rewrite HG.
  - intros u. rewrite append_unique_elem by apply _. by rewrite HU.
  - by apply append_unique_nodup.
  - by apply append_unique_nodup.
Qed.

(** One policy updates exactly the requested models it lists. *)
Lemma add_refs_lookup requested gs us refs (inv : gmap ModelKey ModelAccessSubjects) k G U :
  describes (default no_subjects (inv !! k)) G U →
  let inv' := foldl (fun inv ref =>
        if bool_decide (ref ∈ requested)
        then <[ref := add_subjects gs us (default no_subjects (inv !! ref))]> inv
        else inv) inv refs in
  if bool_decide (k ∈ (requested : gset ModelKey) ∧ k ∈ refs)
  then ∃ s, inv' !! k = Some s ∧ describes s (fun g => G g ∨ g ∈ gs) (fun u => U u ∨ u ∈ us)
  else inv' !! k = inv !! k.
Proof.
  revert inv G U. induction refs as [|ref refs IH]; intros inv G U Hd; cbn [foldl].
  { rewrite bool_decide_eq_false_2 by set_solver. done. }
  destruct (decide (ref ∈ requested)) as [Hreq|Hreq].
  2:{ rewrite (bool_decide_eq_false_2 (ref ∈ requested)) by done. specialize (IH inv G U Hd). cbn zeta in IH.
      rewrite (bool_decide_ext _ (k ∈ requested ∧ k ∈ refs)); [done|set_solver]. }
  rewrite (bool_decide_eq_true_2 (ref ∈ requested)) by done.
  set (inv1 := <[ref := _]> inv). destruct (decide (k = ref)) as [->|Hne].
  - rewrite bool_decide_eq_true_2 by set_solver.
    assert (Hd1 : describes (default no_subjects (inv1 !! ref))
      (fun g => G g ∨ g ∈ gs) (fun u => U u ∨ u ∈ us)).
    { unfold inv1. rewrite lookup_insert_eq. by apply add_describes. }
    specialize (IH inv1 _ _ Hd1). cbn zeta in IH. case_bool_decide.
    + destruct IH as (s & Hs & Hds). exists s. split; [done|].
      eapply describes_ext; [| |exact Hds]; naive_solver.
    + rewrite IH. unfold inv1. rewrite lookup_insert_eq. eexists. split; [done|]. by apply add_describes.
  - assert (Hd1 : describes (default no_subjects (inv1 !! k)) G U).
    { unfold inv1. by rewrite lookup_insert_ne. }
    specialize (IH inv1 G U Hd1). cbn zeta in IH.
    rewrite (bool_decide_ext _ (k ∈ requested ∧ k ∈ refs)) by set_solver.
    case_bool_decide; [done|]. rewrite IH. unfold inv1. by rewrite lookup_insert_ne.
Qed.

(** What the policies processed so far contribute to a model. *)
Definition lists_model (policies : list Object) (k : ModelKey) (spec : JMap) : Prop :=
  ∃ policy, policy ∈ policies ∧ policy_spec policy = Some spec ∧ k ∈ parseModelRefs spec.

Lemma add_policies_lookup requested prefix policies k :
  let inv := foldl (add_policy requested prefix) ∅ policies in
  (inv !! k = None ↔ ¬ (k ∈ requested ∧ ∃ spec, lists_model policies k spec))
  ∧ describes (default no_subjects (inv !! k))
      (fun g => k ∈ requested ∧ ∃ spec, lists_model policies k spec ∧ g ∈ parsePolicyGroups spec prefix)
      (fun u => k ∈ requested ∧ ∃ spec, lists_model policies k spec ∧ u ∈ parsePolicyUsers spec prefix).
Proof.
  induction policies as [|p ps IH] using rev_ind; cbn zeta.
  { cbn. rewrite lookup_empty. unfold lists_model. split; [split; [|done]|].
    - intros _ (_ & spec & p & Hp & _). by apply not_elem_of_nil in Hp.
    - split; cbn; try apply NoDup_nil_2; intros x; split; try (by intros ?%not_elem_of_nil);
        intros (_ & spec & (p & Hp & _) & _); by apply not_elem_of_nil in Hp. }
  rewrite foldl_snoc. cbn zeta in IH. destruct IH as [IHn IHd].
  set (inv := foldl (add_policy requested prefix) ∅ ps) in *.
  assert (Hlist : ∀ spec, lists_model (ps ++ [p]) k spec ↔
    lists_model ps k spec ∨ policy_spec p = Some spec ∧ k ∈ parseModelRefs spec).
  { intros spec. unfold lists_model. setoid_rewrite elem_of_app. setoid_rewrite list_elem_of_singleton. naive_solver. }
  unfold add_policy. destruct (policy_spec p) as [spec|] eqn:Es.
  2:{ split; [rewrite IHn; setoid_rewrite Hlist; naive_solver|].
      eapply describes_ext; [| |exact IHd]; intros x; setoid_rewrite Hlist; naive_solver. }
  pose proof (add_refs_lookup requested (parsePolicyGroups spec prefix) (parsePolicyUsers spec prefix)
    (parseModelRefs spec) inv k _ _ IHd) as Hk. cbn zeta in Hk. case_bool_decide as Hin.
  - destruct Hk as (s & -> & Hd). split; [split; [done|]|].
    + intros Hno. destruct Hno. split; [apply Hin|]. exists spec. apply Hlist. naive_solver.
    + cbn [default from_option id]. eapply describes_ext; [| |exact Hd]; intros x;
        setoid_rewrite Hlist; naive_solver.
  - rewrite Hk. split; [rewrite IHn; setoid_rewrite Hlist; naive_solver|].
    eapply describes_ext; [| |exact IHd]; intros x; setoid_rewrite Hlist; naive_solver.
Qed.

(** What a policy names, as the object holds it. *)
Definition names_group (spec : JMap) (g : string) : Prop :=
  g ≠ "" ∧ ∃ subjects gs m, as_map (get "subjects" spec) = Some subjects
  ∧ as_slice (get "groups" subjects) = Some gs ∧ JObj m ∈ gs ∧ string_or_empty (get "name" m) = g.
Definition names_user (spec : JMap) (u : string) : Prop :=
  ∃ subjects us, as_map (get "subjects" spec) = Some subjects
  ∧ as_slice (get "users" subjects) = Some us ∧ JStr u ∈ us.

Lemma parse_groups_elem spec prefix g :
  mkGroup g ∈ parsePolicyGroups spec prefix ↔ has_prefix prefix g = true ∧ names_group spec g.
Proof.
  unfold parsePolicyGroups, names_group. destruct (as_map (get "subjects" spec)) as [subjects|]; [|set_solver].
  destruct (as_slice (get "groups" subjects)) as [gs|] eqn:E; [|set_solver].
  rewrite list_elem_of_omap. setoid_rewrite maps_of_elem. split.
  - intros (m & Hm & Hg). destruct (String.eqb_spec (string_or_empty (get "name" m)) ""); [done|].
    destruct (has_prefix prefix _) eqn:Hp; [|done]. injection Hg as <-. naive_solver.
  - intros (Hp & Hne & s & gs' & m & [= <-] & E' & Hm & <-). rewrite E in E'. injection E' as <-.
    exists m. split; [done|]. rewrite (proj2 (String.eqb_neq _ _) Hne). by rewrite Hp.
Qed.

Lemma parse_users_elem spec prefix u :
  u ∈ parsePolicyUsers spec prefix ↔ has_prefix prefix u = true ∧ names_user spec u.
Proof.
  unfold parsePolicyUsers, names_user. destruct (as_map (get "subjects" spec)) as [subjects|]; [|set_solver].
  destruct (as_slice (get "users" subjects)) as [us|] eqn:E; [|set_solver].
  rewrite list_elem_of_omap. split.
  - intros (v & Hv & Hu). destruct v; try done. cbn in Hu.
    destruct (has_prefix prefix s) eqn:Hp; [|done]. injection Hu as <-. naive_solver.
  - intros (Hp & s & us' & [= <-] & E' & Hu). rewrite E in E'. injection E' as <-.
    exists (JStr u). split; [done|]. cbn. by rewrite Hp.
Qed.

Lemma gr_name_elem g (l : list GroupReference) : g ∈ map gr_Name l ↔ mkGroup g ∈ l.
Proof.
  change (map gr_Name l) with (gr_Name <$> l). rewrite list_elem_of_fmap. split.
  - intros ([x] & -> & ?). done.
  - intros H. by exists (mkGroup g).
Qed.

(** The subject inventory of an organization: it covers exactly the
    requested models some policy lists; for each it holds, in strictly
    increasing order and so independently of how the runtime sorts, exactly
    the groups and users that those policies name under the organization's
    prefix — no subject of another organization appears. *)
Theorem subject_inventory_exact `{GR : GoRuntime} c refs org policies inv :
  lister c = Some (Ok policies) → ModelAccessSubjectsOf c refs org = Ok inv →
  ∀ k,
  (inv !! k = None ↔ ¬ (k ∈ refs ∧ ∃ spec, lists_model policies k spec))
  ∧ ∀ s, inv !! k = Some s →
    StronglySorted (fun a b => str_ltb a b = true) (map gr_Name (mas_Groups s))
    ∧ StronglySorted (fun a b => str_ltb a b = true) (mas_Users s)
    ∧ (∀ g, g ∈ map gr_Name (mas_Groups s) ↔
        has_prefix (org +:+ "/") g = true ∧ ∃ spec, lists_model policies k spec ∧ names_group spec g)
    ∧ (∀ u, u ∈ mas_Users s ↔
        has_prefix (org +:+ "/") u = true ∧ ∃ spec, lists_model policies k spec ∧ names_user spec u).
Proof.
  intros Hl. unfold ModelAccessSubjectsOf. rewrite Hl.
  destruct (String.eqb org ""); [done|]. destruct (existsb _ refs); [done|].
  destruct (bool_decide _) eqn:Ereq; cbn [map_err res_bind].
  { intros [= <-] k. rewrite lookup_empty. split; [|done]. split; [|done]. intros _ [Hk _].
    bool_hyps. assert (k ∈ (list_to_set refs : gset ModelKey)) by by apply elem_of_list_to_set. set_solver. }
  intros [= <-] k. clear Ereq.
  destruct (add_policies_lookup (list_to_set refs) (org +:+ "/") policies k) as [Hn Hd].
  set (inv := foldl _ _ _) in *. rewrite elem_of_list_to_set in Hn. rewrite lookup_fmap. split.
  { rewrite fmap_None. exact Hn. }
  intros s (x & Hx & ->)%fmap_Some. rewrite Hx in Hd. cbn [default from_option id] in Hd.
  destruct Hd as [HG HU Hn1 Hn2].
  assert (Hin : k ∈ (list_to_set refs : gset ModelKey)).
  { rewrite elem_of_list_to_set. destruct (decide (k ∈ refs)); [done|].
    assert (inv !! k = None) by (apply Hn; naive_solver). congruence. }
  split_and!; cbn [sort_subjects mas_Groups mas_Users].
  - assert (Hsort : StronglySorted (fun a b => str_ltb (gr_Name a) (gr_Name b) = true)
      (sort_slice (on_key gr_Name str_ltb) (mas_Groups x))).
    { apply (sorted_strict gr_Name str_ltb); [by rewrite sort_slice_perm|apply sort_slice_sorted, _]. }
    induction Hsort as [|a l Hs IH Hall]; cbn [map]; constructor; [exact IH|].
    by apply Forall_map.
  - apply (sorted_strict (fun s : string => s) str_ltb); [by rewrite sort_strings_perm|].
    apply isort_sorted, _.
  - intros g. rewrite gr_name_elem, sort_slice_perm, HG. setoid_rewrite parse_groups_elem. naive_solver.
  - intros u. rewrite sort_strings_perm, HU. setoid_rewrite parse_users_elem. naive_solver.
Qed.

(** ** A concrete cache *)

Definition demo_policy (groups users : list string) (ns name : string) : Object :=
  mkObject [("spec", JObj [
    ("subjects", JObj [("groups", JArr (map (fun g => JObj [("name", JStr g)]) groups));
                       ("users", JArr (map JStr users))]);
    ("modelRefs", JArr [JObj [("namespace", JStr ns); ("name", JStr name)]])])].
Definition demo_policies : list Object :=
  [demo_policy ["acme/dev"; "other/dev"] ["acme/bob"] "llm" "granite";
   demo_policy ["acme/admins"; "acme/dev"] [] "llm" "granite"].
Definition demo_checker : Checker := {| lister := Some (Ok demo_policies) |}.

Lemma subject_inventory_exact_witness :
  ∃ inv s, ModelAccessSubjectsOf (GR:=reference_runtime) demo_checker [mkModelKey "llm" "granite"] "acme" = Ok inv
    ∧ inv !! mkModelKey "llm" "granite" = Some s
    ∧ ("acme/dev" ∈ map gr_Name (mas_Groups s)) ∧ ¬ ("other/dev" ∈ map gr_Name (mas_Groups s)).
Proof.
  destruct (ModelAccessSubjectsOf (GR:=reference_runtime) demo_checker [mkModelKey "llm" "granite"] "acme")
    as [inv|] eqn:E; [|apply (f_equal is_ok) in E; by vm_compute in E].
  destruct (subject_inventory_exact (GR:=reference_runtime) demo_checker [mkModelKey "llm" "granite"] "acme"
    demo_policies inv eq_refl E (mkModelKey "llm" "granite")) as [Hn Hs].
  assert (Hl : lists_model demo_policies (mkModelKey "llm" "granite")
    (default [] (policy_spec (demo_policy ["acme/dev"; "other/dev"] ["acme/bob"] "llm" "granite")))).
  { eexists. split; [by left|]. split; [done|]. vm_compute. by left. }
  destruct (inv !! mkModelKey "llm" "granite") as [s|] eqn:Ek.
  2:{ destruct (proj1 Hn eq_refl). split; [by left|]. by eexists. }
  exists inv, s. split_and!; [done|done|..].
  - destruct (Hs s eq_refl) as (_ & _ & Hg & _). apply Hg. split; [done|]. eexists. split; [exact Hl|].
    split; [done|]. eexists _, _, _. split_and!; [done|done|by left|done].
  - destruct (Hs s eq_refl) as (_ & _ & Hg & _). by intros [Hp _]%Hg.
Defined.

End AuthPolicy.
