(* ===== verification/Guardrail.v ===== *)
(** * Guardrail: merging guardrail selections into an execution plan

    Models [maas-common/pkg/guardrail]: [merge.go], which turns the resolved
    selections of all scopes into one plan, and [compose.go], which collects
    the selections of a subscription/model pair.  Attachments, their resolver
    and the two phase names belong to ai-gateway-controller: the resolver and
    the names are parameters, a resolved policy is the record of the fields the
    source reads. *)

From S2P Require Import Prelude GoStrings.
From Stdlib Require String.
Local Open Scope string_scope.

Module Guardrail.

(** ** Data *)

Record Check := { chk_Name : string; SpecIndex : Z; Phases : list string }.
Record ResolvedPolicy := {
  rp_Namespace : string; rp_Name : string; rp_UID : string; rp_Generation : Z;
  rp_BindingRevision : string; rp_Checks : list Check;
}.
Record PolicyIdentity := {
  id_Namespace : string; id_Name : string; id_UID : string; id_Generation : Z;
  id_BindingRevision : string;
}.
Record Source := {
  Kind : string; src_Namespace : string; src_Name : string; src_UID : string; AttachmentPath : string;
}.
Record ResolvedSelection := { Policy : ResolvedPolicy; sel_Source : Source }.
Record SelectedCheck := { sc_Policy : PolicyIdentity; sc_Check : Check; Sources : list Source }.
Record ExecutionPlan := { Checks : list SelectedCheck }.

#[export] Instance Check_eq_dec : EqDecision Check.
Proof. solve_decision. Defined.
#[export] Instance PolicyIdentity_eq_dec : EqDecision PolicyIdentity.
Proof. solve_decision. Defined.
#[export] Instance Source_eq_dec : EqDecision Source.
Proof. solve_decision. Defined.

Definition identityOf (p : ResolvedPolicy) : PolicyIdentity := {|
  id_Namespace := rp_Namespace p; id_Name := rp_Name p; id_UID := rp_UID p;
  id_Generation := rp_Generation p; id_BindingRevision := rp_BindingRevision p |}.

Inductive MergeErr := ErrPolicySnapshotConflict | ErrInvalidCheckMetadata (why : string).

(** The string keys of the maps. *)
Definition policy_key (p : ResolvedPolicy) : string * string := (rp_Namespace p, rp_Name p).

(** ** Phases *)

Section Merge.
Context `{GR : GoRuntime}.
Variables GuardrailPhaseInput GuardrailPhaseOutput : string.

Fixpoint adjacent_duplicate (l : list string) : bool :=
  match l with
  | a :: (b :: _) as r => String.eqb b a || adjacent_duplicate r
  | _ => false
  end.

Definition validateAndSortPhases (phases : list string) : Res string (list string) :=
  reject "phases must not be empty" when match phases with [] => true | _ => false end ;;
  reject "unknown phase"
    when existsb (fun p => negb (String.eqb p GuardrailPhaseInput || String.eqb p GuardrailPhaseOutput)) phases ;;
  let out := sort_strings phases in
  reject "duplicate phase" when adjacent_duplicate out ;;
  Ok out.

(** ** Sources *)

Definition sourceLess (a b : Source) : bool :=
  if negb (String.eqb (Kind a) (Kind b)) then str_ltb (Kind a) (Kind b) else
  if negb (String.eqb (src_Namespace a) (src_Namespace b)) then str_ltb (src_Namespace a) (src_Namespace b) else
  if negb (String.eqb (src_Name a) (src_Name b)) then str_ltb (src_Name a) (src_Name b) else
  if negb (String.eqb (src_UID a) (src_UID b)) then str_ltb (src_UID a) (src_UID b) else
  str_ltb (AttachmentPath a) (AttachmentPath b).

(** The loop over [seen]: the first occurrence of each source. *)
Fixpoint first_occurrences (seen : list Source) (l : list Source) : list Source :=
  match l with
  | [] => []
  | s :: r => if bool_decide (s ∈ seen) then first_occurrences seen r
              else s :: first_occurrences (s :: seen) r
  end.
Definition dedupeSources (sources : list Source) : list Source :=
  isort sourceLess (first_occurrences [] sources).

(** ** Merge *)

Definition checkSnapshotConsistency (selections : list ResolvedSelection) : Res MergeErr unit :=
  seen <- fold_res (fun (seen : gmap (string * string) PolicyIdentity) sel =>
    let key := policy_key (Policy sel) in
    let identity := identityOf (Policy sel) in
    match seen !! key with
    | None => Ok (<[key := identity]> seen)
    | Some prev => if bool_decide (prev = identity) then Ok seen else Err ErrPolicySnapshotConflict
    end) ∅ selections ;;
  Ok tt.

(** policy name, then policy namespace, then spec index. *)
Definition check_less (a b : SelectedCheck) : bool :=
  if negb (String.eqb (id_Name (sc_Policy a)) (id_Name (sc_Policy b)))
  then str_ltb (id_Name (sc_Policy a)) (id_Name (sc_Policy b)) else
  if negb (String.eqb (id_Namespace (sc_Policy a)) (id_Namespace (sc_Policy b)))
  then str_ltb (id_Namespace (sc_Policy a)) (id_Namespace (sc_Policy b)) else
  if negb (SpecIndex (sc_Check a) =? SpecIndex (sc_Check b))%Z
  then (SpecIndex (sc_Check a) <? SpecIndex (sc_Check b))%Z else false.
Definition sortChecks (checks : list SelectedCheck) : list SelectedCheck := isort check_less checks.

Record MergeState := {
  index : gmap (string * string * string) SelectedCheck;
  indexOwners : gmap (string * string * Z) string;
}.

(** The body of the inner loop, for one check of one selection. *)
Definition merge_check (st : MergeState) (occ : ResolvedSelection * Check) : Res MergeErr MergeState :=
  let '(sel, c) := occ in
  let p := Policy sel in
  match validateAndSortPhases (Phases c) with
  | Err e => Err (ErrInvalidCheckMetadata e)
  | Ok phases =>
      let c := {| chk_Name := chk_Name c; SpecIndex := SpecIndex c; Phases := phases |} in
      reject ErrInvalidCheckMetadata "negative spec index" when (SpecIndex c <? 0)%Z ;;
      let ownerKey := (policy_key p, SpecIndex c) in
      reject ErrInvalidCheckMetadata "shared spec index"
        when match indexOwners st !! ownerKey with
             | Some owner => negb (String.eqb owner (chk_Name c))
             | None => false
             end ;;
      let owners := <[ownerKey := chk_Name c]> (indexOwners st) in
      let key := (policy_key p, chk_Name c) in
      match index st !! key with
      | None =>
          Ok {| index := <[key := {| sc_Policy := identityOf p; sc_Check := c; Sources := [sel_Source sel] |}]>
                           (index st);
                indexOwners := owners |}
      | Some existing =>
          reject ErrInvalidCheckMetadata "conflicting metadata"
            when negb (SpecIndex (sc_Check existing) =? SpecIndex c)%Z
                 || negb (bool_decide (Phases (sc_Check existing) = Phases c)) ;;
          Ok {| index := <[key := {| sc_Policy := sc_Policy existing; sc_Check := sc_Check existing;
                                     Sources := (Sources existing ++ [sel_Source sel])%list |}]> (index st);
                indexOwners := owners |}
      end
  end.

Definition occurrences (sel : ResolvedSelection) : list (ResolvedSelection * Check) :=
  map (fun c => (sel, c)) (rp_Checks (Policy sel)).

Definition Merge (selections : list ResolvedSelection) : Res MergeErr ExecutionPlan :=
  _ <- checkSnapshotConsistency selections ;;
  st <- fold_res (fun st sel => fold_res merge_check st (occurrences sel))
          {| index := ∅; indexOwners := ∅ |} selections ;;
  let checks := map (fun kv => {| sc_Policy := sc_Policy kv.2; sc_Check := sc_Check kv.2;
                                  Sources := dedupeSources (Sources kv.2) |}) (range_map (index st)) in
  Ok {| Checks := sortChecks checks |}.

(** [ChecksForPhase]; the copies are values here. *)
Definition ChecksForPhase (p : ExecutionPlan) (phase : string) : list SelectedCheck :=
  filter (fun sc => phase ∈ Phases (sc_Check sc)) (Checks p).

(** ** Composition *)

Section Compose.
Context {Attachment : Type}.
Variable Resolve : string → Attachment → Res string ResolvedPolicy.

Record Selection := {
  s_Namespace : string; s_Name : string; s_UID : string; s_Guardrails : list Attachment;
}.
Record ModelEntrySelection := { e_Namespace : string; e_Name : string; e_Guardrails : list Attachment }.
Record SubscriptionSelection := { sub_ref : Selection; sub_ModelRefs : list ModelEntrySelection }.

Record SubscriptionModelKey := {
  SubscriptionNamespace : string; SubscriptionName : string; ModelNamespace : string; ModelName : string;
}.

Inductive ComposeErr :=
| ErrInvalidCompositionInput
| ErrModelEntryNotFound
| ErrModelEntryAmbiguous
| ResolveFailed (cause : string)
| MergeFailed (e : MergeErr).

(** [resolveAttachments], with the attachment's index. *)
Fixpoint resolve_from (i : Z) (policyNamespace : string) (attachments : list Attachment)
    (sourceFn : Z → Source) : Res ComposeErr (list ResolvedSelection) :=
  match attachments with
  | [] => Ok []
  | a :: r =>
      resolved <- map_err ResolveFailed (Resolve policyNamespace a) ;;
      rest <- resolve_from (i + 1) policyNamespace r sourceFn ;;
      Ok ({| Policy := resolved; sel_Source := sourceFn i |} :: rest)
  end.
Definition resolveAttachments := resolve_from 0.

Definition entry_matches (namespace name : string) (ref : ModelEntrySelection) : bool :=
  String.eqb (e_Namespace ref) namespace && String.eqb (e_Name ref) name.
Definition findSubscriptionModelEntry (sub : SubscriptionSelection) (namespace name : string)
    : Res ComposeErr ModelEntrySelection :=
  match filter (fun ref => entry_matches namespace name ref = true) (sub_ModelRefs sub) with
  | [] => Err ErrModelEntryNotFound
  | [m] => Ok m
  | _ => Err ErrModelEntryAmbiguous
  end.

Definition source_of (kind : string) (s : Selection) (path : Z → string) (i : Z) : Source := {|
  Kind := kind; src_Namespace := s_Namespace s; src_Name := s_Name s; src_UID := s_UID s;
  AttachmentPath := path i |}.
Definition bracketed (i : Z) : string := "[" +:+ format_int i +:+ "]".

(** [None] is a nil pointer. *)
Definition ComposeSubscriptionModelPlan (has_resolver : bool) (targetNamespace : string)
    (tenant tenantConfig : option Selection) (sub : option SubscriptionSelection) (model : option Selection)
    (modelNamespace modelName : string) : option SubscriptionModelKey * Res ComposeErr ExecutionPlan :=
  match sub with
  | None => (None, Err ErrInvalidCompositionInput)
  | Some sub =>
  let subr := sub_ref sub in
  let key := {| SubscriptionNamespace := s_Namespace subr; SubscriptionName := s_Name subr;
                ModelNamespace := modelNamespace; ModelName := modelName |} in
  (Some key,
   if negb has_resolver then Err ErrInvalidCompositionInput else
   if negb (String.eqb (s_Namespace subr) targetNamespace) then Err ErrInvalidCompositionInput else
   match tenant, tenantConfig with
   | None, _ | _, None => Err ErrInvalidCompositionInput
   | Some tenant, Some tenantConfig =>
   if negb (String.eqb (s_Namespace tenantConfig) targetNamespace) then Err ErrInvalidCompositionInput else
   match model with
   | None => Err ErrInvalidCompositionInput
   | Some model =>
   if negb (String.eqb (s_Namespace model) modelNamespace) || negb (String.eqb (s_Name model) modelName)
   then Err ErrInvalidCompositionInput else
   entry <- findSubscriptionModelEntry sub modelNamespace modelName ;;
   tenantSels <- resolveAttachments targetNamespace (s_Guardrails tenant)
     (source_of "AITenant" tenant
        (fun i => "AITenant/" +:+ s_Name tenant +:+ ".spec.guardrails" +:+ bracketed i)) ;;
   tenantConfigSels <- resolveAttachments targetNamespace (s_Guardrails tenantConfig)
     (source_of "MaasTenantConfig" tenantConfig
        (fun i => "MaasTenantConfig/" +:+ s_Name tenantConfig +:+ ".spec.guardrails" +:+ bracketed i)) ;;
   subSels <- resolveAttachments targetNamespace (s_Guardrails subr)
     (source_of "MaaSSubscription" subr
        (fun i => "MaaSSubscription/" +:+ s_Name subr +:+ ".spec.guardrails" +:+ bracketed i)) ;;
   modelSels <- resolveAttachments targetNamespace (e_Guardrails entry)
     (source_of "MaaSSubscription" subr
        (fun i => "MaaSSubscription/" +:+ s_Name subr +:+ ".spec.modelRefs[" +:+ modelNamespace +:+ "/"
                  +:+ modelName +:+ "].guardrails" +:+ bracketed i)) ;;
   modelResourceSels <- resolveAttachments (s_Namespace model) (s_Guardrails model)
     (source_of "MaaSModelRef" model
        (fun i => "MaaSModelRef/" +:+ s_Name model +:+ ".spec.guardrails" +:+ bracketed i)) ;;
   map_err MergeFailed
     (Merge (tenantSels ++ tenantConfigSels ++ subSels ++ modelSels ++ modelResourceSels)%list)
   end end)
  end.

End Compose.
End Merge.
End Guardrail.
