(* ===== verification/GuardrailFacts.v ===== *)
(** * GuardrailFacts: the merged plan is exact, additive and order-independent

    [Merge] is characterised by a declarative predicate: it succeeds exactly on
    [consistent] selections, and its plan holds exactly the [planned] checks in
    one canonical order.  Additivity and independence of the order of the
    selections and of map iteration follow. *)

From S2P Require Import Prelude GoStrings Guardrail.
From Stdlib Require String.
Local Open Scope string_scope.

Module GuardrailFacts.
Import Guardrail.

(** ** The two orders *)

#[export] Instance sourceLess_weak : StrictWeak sourceLess.
Proof.
  apply (strict_weak_ext _ (by_key Kind str_ltb (by_key src_Namespace str_ltb
    (by_key src_Name str_ltb (by_key src_UID str_ltb (on_key AttachmentPath str_ltb)))))); [|apply _].
  intros a b. unfold sourceLess, by_key, on_key.
  repeat (match goal with |- context [String.eqb ?x ?y] => destruct (String.eqb_spec x y) end;
    [rewrite decide_True by done|by rewrite decide_False]; cbn [negb]). done.
Qed.

Lemma source_tie a b : sourceLess a b = false → sourceLess b a = false → a = b.
Proof.
  unfold sourceLess. intros Hab Hba.
  destruct a as [k1 n1 m1 u1 p1], b as [k2 n2 m2 u2 p2]; cbn in *.
  repeat (match goal with
    | H : context [if negb (String.eqb ?x ?y) then _ else _] |- _ =>
        destruct (String.eqb_spec x y) as [<-|];
        [|by rewrite (proj2 (String.eqb_neq y x)) in Hba by done; destruct (st_tri (less:=str_ltb) x y)]
    end; cbn [negb] in *; rewrite ?String.eqb_refl in *; cbn [negb] in *).
  by rewrite (st_tri (less:=str_ltb) p1 p2).
Qed.

#[export] Instance check_less_weak : StrictWeak check_less.
Proof.
  apply (strict_weak_ext _ (by_key (fun a => id_Name (sc_Policy a)) str_ltb
    (by_key (fun a => id_Namespace (sc_Policy a)) str_ltb
      (by_key (fun a => SpecIndex (sc_Check a)) Z.ltb never)))); [|apply _].
  intros a b. unfold check_less, by_key, never.
  destruct (String.eqb_spec (id_Name (sc_Policy a)) (id_Name (sc_Policy b)));
    [rewrite decide_True by done|by rewrite decide_False]; cbn [negb].
  destruct (String.eqb_spec (id_Namespace (sc_Policy a)) (id_Namespace (sc_Policy b)));
    [rewrite decide_True by done|by rewrite decide_False]; cbn [negb].
  destruct (Z.eqb_spec (SpecIndex (sc_Check a)) (SpecIndex (sc_Check b)));
    [by rewrite decide_True|by rewrite decide_False].
Qed.

Lemma check_tie a b :
  check_less a b = false → check_less b a = false →
  id_Name (sc_Policy a) = id_Name (sc_Policy b)
  ∧ id_Namespace (sc_Policy a) = id_Namespace (sc_Policy b)
  ∧ SpecIndex (sc_Check a) = SpecIndex (sc_Check b).
Proof.
  unfold check_less. intros Hab Hba.
  destruct (String.eqb_spec (id_Name (sc_Policy a)) (id_Name (sc_Policy b))) as [E1|Hn]; cbn [negb] in Hab.
  2:{ rewrite (proj2 (String.eqb_neq _ _) (not_eq_sym Hn)) in Hba. cbn [negb] in Hba.
      by destruct Hn; apply (st_tri (less:=str_ltb)). }
  rewrite E1, String.eqb_refl in Hba. cbn [negb] in Hba.
  destruct (String.eqb_spec (id_Namespace (sc_Policy a)) (id_Namespace (sc_Policy b))) as [E2|Hn]; cbn [negb] in Hab.
  2:{ rewrite (proj2 (String.eqb_neq _ _) (not_eq_sym Hn)) in Hba. cbn [negb] in Hba.
      by destruct Hn; apply (st_tri (less:=str_ltb)). }
  rewrite E2, String.eqb_refl in Hba. cbn [negb] in Hba.
  destruct (Z.eqb_spec (SpecIndex (sc_Check a)) (SpecIndex (sc_Check b))); cbn [negb] in Hab; [done|].
  destruct (Z.eqb_spec (SpecIndex (sc_Check b)) (SpecIndex (sc_Check a))); cbn [negb] in Hba; [congruence|].
  bool_hyps. lia.
Qed.

(** ** Deduplicated sources *)

Lemma first_occurrences_spec seen l :
  NoDup (first_occurrences seen l) ∧ ∀ x, x ∈ first_occurrences seen l ↔ x ∈ l ∧ x ∉ seen.
Proof.
  revert seen. induction l as [|s l IH]; intros seen; cbn [first_occurrences].
  { split; [constructor|]. set_solver. }
  case_bool_decide as Hs.
  - destruct (IH seen) as [Hn Hel]. split; [done|]. intros x. rewrite Hel. set_solver.
  - destruct (IH (s :: seen)) as [Hn Hel]. split.
    + constructor; [|done]. rewrite Hel. set_solver.
    + intros x. rewrite elem_of_cons, Hel. destruct (decide (x = s)) as [->|]; set_solver.
Qed.

Lemma dedupe_elem l x : x ∈ dedupeSources l ↔ x ∈ l.
Proof.
  unfold dedupeSources. rewrite isort_elem, (proj2 (first_occurrences_spec [] l)). set_solver.
Qed.

(** The result depends on which sources there are only. *)
Lemma dedupe_ext l1 l2 : (∀ x, x ∈ l1 ↔ x ∈ l2) → dedupeSources l1 = dedupeSources l2.
Proof.
  intros Hel. apply (sorted_unique sourceLess).
  - intros a b _ _. apply source_tie.
  - apply isort_sorted, _.
  - apply isort_sorted, _.
  - unfold dedupeSources. rewrite !isort_perm.
    destruct (first_occurrences_spec [] l1) as [Hn1 H1], (first_occurrences_spec [] l2) as [Hn2 H2].
    apply NoDup_Permutation; [done..|]. intros x. by rewrite H1, H2, Hel.
Qed.

(** ** Consistent selections *)

Section Merge.
Context `{GR : GoRuntime}.
Variables phaseIn phaseOut : string.
Notation validate := (validateAndSortPhases phaseIn phaseOut).
Notation occ := (ResolvedSelection * Check)%type.

Definition check_key (o : occ) : string * string * string := (policy_key (Policy o.1), chk_Name o.2).
Definition owner_key (o : occ) : string * string * Z := (policy_key (Policy o.1), SpecIndex o.2).

(** The check as the plan holds it: its phases validated and sorted. *)
Definition normalized (c : Check) : option Check :=
  match validate (Phases c) with
  | Ok phases => Some {| chk_Name := chk_Name c; SpecIndex := SpecIndex c; Phases := phases |}
  | Err _ => None
  end.

Record occs_consistent (os : list occ) : Prop := {
  oc_valid : ∀ o, o ∈ os → normalized o.2 ≠ None ∧ (0 ≤ SpecIndex o.2)%Z;
  oc_owner : ∀ o1 o2, o1 ∈ os → o2 ∈ os → owner_key o1 = owner_key o2 → chk_Name o1.2 = chk_Name o2.2;
  oc_check : ∀ o1 o2, o1 ∈ os → o2 ∈ os → check_key o1 = check_key o2 → normalized o1.2 = normalized o2.2;
}.
Definition snapshots_agree (sels : list ResolvedSelection) : Prop :=
  ∀ s1 s2, s1 ∈ sels → s2 ∈ sels → policy_key (Policy s1) = policy_key (Policy s2) →
    identityOf (Policy s1) = identityOf (Policy s2).
Definition all_occurrences (sels : list ResolvedSelection) : list occ := concat (map occurrences sels).
Definition consistent (sels : list ResolvedSelection) : Prop :=
  snapshots_agree sels ∧ occs_consistent (all_occurrences sels).

(** ** The loop state *)

Record state_ok (os : list occ) (st : MergeState) : Prop := {
  st_consistent : occs_consistent os;
  st_owners : ∀ k n, indexOwners st !! k = Some n ↔ ∃ o, o ∈ os ∧ owner_key o = k ∧ chk_Name o.2 = n;
  st_absent : ∀ k, index st !! k = None ↔ ∀ o, o ∈ os → check_key o ≠ k;
  st_present : ∀ k sc, index st !! k = Some sc →
    (∃ o, o ∈ os ∧ check_key o = k ∧ sc_Policy sc = identityOf (Policy o.1))
    ∧ (∀ o, o ∈ os → check_key o = k → normalized o.2 = Some (sc_Check sc))
    ∧ (∀ src, src ∈ Sources sc ↔ ∃ o, o ∈ os ∧ check_key o = k ∧ sel_Source o.1 = src);
}.

Definition empty_state : MergeState := {| index := ∅; indexOwners := ∅ |}.

Lemma state_ok_empty : state_ok [] empty_state.
Proof.
  split; cbn; intros *; rewrite ?lookup_empty.
  - split; intros *; by intros ?%not_elem_of_nil.
  - rewrite exists_elem_nil. naive_solver.
  - split; [|done]. by intros _ o ?%not_elem_of_nil.
  - done.
Qed.

(** The owner test: every earlier check with this spec index has this name. *)
Lemma owner_test os st o :
  state_ok os st →
  match indexOwners st !! owner_key o with
  | Some owner => negb (String.eqb owner (chk_Name o.2))
  | None => false
  end = false ↔ ∀ o', o' ∈ os → owner_key o' = owner_key o → chk_Name o'.2 = chk_Name o.2.
Proof.
  intros Hst. destruct (indexOwners st !! owner_key o) as [owner|] eqn:Eo.
  - pose proof (proj1 (st_owners _ _ Hst _ _) Eo) as (o1 & Ho1 & Hk1 & <-).
    rewrite negb_false_iff, String.eqb_eq. split; [|by auto].
    intros Hname o' Ho' Hk'. rewrite <- Hname.
    apply (oc_owner _ (st_consistent _ _ Hst)); [done|done|congruence].
  - split; [|done]. intros _ o' Ho' Hk'.
    assert (indexOwners st !! owner_key o = Some (chk_Name o'.2)); [|congruence].
    apply (st_owners _ _ Hst). eauto.
Qed.

(** The metadata test against the entry of the same check. *)
Lemma metadata_test os st o sc c :
  state_ok os st → index st !! check_key o = Some sc → normalized o.2 = Some c →
  negb (SpecIndex (sc_Check sc) =? SpecIndex c)%Z || negb (bool_decide (Phases (sc_Check sc) = Phases c)) = false
  ↔ sc_Check sc = c.
Proof.
  intros Hst Hi Hc. destruct (st_present _ _ Hst _ _ Hi) as ((o2 & Ho2 & Hk2 & _) & Hn & _).
  rewrite orb_false_iff, !negb_false_iff, Z.eqb_eq, bool_decide_eq_true. split; [|by intros ->].
  intros [E1 E2]. specialize (Hn o2 Ho2 Hk2). unfold normalized in Hn, Hc.
  destruct (validate (Phases o2.2)), (validate (Phases o.2)); simplify_eq/=.
  destruct (sc_Check sc); simplify_eq/=. f_equal. unfold check_key in Hk2. congruence.
Qed.

(** What one step requires and does. *)
Lemma merge_check_cases os st o :
  state_ok os st →
  match merge_check phaseIn phaseOut st o with
  | Ok st' => ∃ c, normalized o.2 = Some c ∧ (0 ≤ SpecIndex o.2)%Z
      ∧ (∀ o', o' ∈ os → owner_key o' = owner_key o → chk_Name o'.2 = chk_Name o.2)
      ∧ (∀ sc, index st !! check_key o = Some sc → sc_Check sc = c)
      ∧ indexOwners st' = <[owner_key o := chk_Name o.2]> (indexOwners st)
      ∧ index st' = <[check_key o :=
          match index st !! check_key o with
          | None => {| sc_Policy := identityOf (Policy o.1); sc_Check := c; Sources := [sel_Source o.1] |}
          | Some sc => {| sc_Policy := sc_Policy sc; sc_Check := sc_Check sc;
                          Sources := (Sources sc ++ [sel_Source o.1])%list |}
          end]> (index st)
  | Err _ => ¬ occs_consistent (os ++ [o])%list
  end.
Proof.
  intros Hst. pose proof (owner_test os st o Hst) as Hot.
  assert (Hin : o ∈ (os ++ [o])%list) by set_solver.
  assert (Hsub : ∀ o', o' ∈ os → o' ∈ (os ++ [o])%list) by set_solver.
  pose proof (metadata_test os st o) as Hmt. destruct o as [sel c]. unfold merge_check.
  change (policy_key (Policy sel), chk_Name c) with (check_key (sel, c)).
  unfold normalized in *. cbn [snd fst] in *.
  destruct (validate (Phases c)) as [phases|e] eqn:Ev.
  2:{ intros Hc. destruct (oc_valid _ Hc _ Hin) as [Hn _]. unfold normalized in Hn. cbn in Hn. by rewrite Ev in Hn. }
  cbn [chk_Name SpecIndex Phases]. destruct (Z.ltb_spec (SpecIndex c) 0).
  { intros Hc. destruct (oc_valid _ Hc _ Hin) as [_ Hn]. cbn in Hn. lia. }
  change (policy_key (Policy sel), SpecIndex c) with (owner_key (sel, c)).
  change (policy_key (Policy sel), chk_Name c) with (check_key (sel, c)).
  destruct (match indexOwners st !! owner_key (sel, c) with Some _ => _ | None => _ end).
  { intros Hc. assert (true = false); [|done]. apply Hot. intros o' Ho' Hk'.
    by apply (oc_owner _ Hc o' (sel, c)); auto. }
  destruct (index st !! check_key (sel, c)) as [sc|] eqn:Ei.
  2:{ eexists. split_and!; try done. by apply Hot. }
  specialize (Hmt sc _ Hst eq_refl eq_refl). cbn [SpecIndex Phases] in Hmt.
  destruct (negb _ || negb _).
  - intros Hc. destruct (st_present _ _ Hst _ _ Ei) as ((o2 & Ho2 & Hk2 & _) & Hn & _).
    pose proof (oc_check _ Hc o2 (sel, c) (Hsub _ Ho2) Hin Hk2) as He.
    rewrite (Hn o2 Ho2 Hk2) in He. unfold normalized in He. cbn in He. rewrite Ev in He.
    assert (true = false); [|done]. apply Hmt. congruence.
  - eexists. split_and!; try done; [by apply Hot|]. intros sc' [= <-]. by apply Hmt.
Qed.

Lemma occs_consistent_snoc os o c :
  occs_consistent os → normalized o.2 = Some c → (0 ≤ SpecIndex o.2)%Z →
  (∀ o', o' ∈ os → owner_key o' = owner_key o → chk_Name o'.2 = chk_Name o.2) →
  (∀ o', o' ∈ os → check_key o' = check_key o → normalized o'.2 = Some c) →
  occs_consistent (os ++ [o])%list.
Proof.
  intros [Hv Ho Hk] Hn Hpos Hown Hkey. split.
  - refine (proj2 (forall_elem_snoc _ _ _) _). split; [done|]. by rewrite Hn.
  - refine (pairs_elem_snoc _ _ _ Ho _ _); [|done].
    intros x Hx. split; intros He; [by apply Hown|symmetry; by apply Hown].
  - refine (pairs_elem_snoc _ _ _ Hk _ _); [|done].
    intros x Hx. rewrite Hn. split; intros He; [by apply Hkey|symmetry; by apply Hkey].
Qed.

(** A step that succeeds keeps the state faithful to what was processed. *)
Lemma merge_check_ok os st o st' :
  state_ok os st → merge_check phaseIn phaseOut st o = Ok st' → state_ok (os ++ [o])%list st'.
Proof.
  intros Hst E. pose proof (merge_check_cases os st o Hst) as Hc. rewrite E in Hc.
  destruct Hc as (c & Hn & Hpos & Hown & Hsame & Howners & Hindex).
  assert (Hkey : ∀ o', o' ∈ os → check_key o' = check_key o → normalized o'.2 = Some c).
  { intros o' Ho' Hk'. destruct (index st !! check_key o) as [sc|] eqn:Ei.
    - rewrite <- (Hsame sc eq_refl). by apply (st_present _ _ Hst _ _ Ei).
    - by destruct (proj1 (st_absent _ _ Hst _) Ei o' Ho'). }
  split.
  - eapply occs_consistent_snoc; eauto using st_consistent.
  - intros k n. rewrite Howners, lookup_insert_Some, (st_owners _ _ Hst), exists_elem_snoc. split.
    + intros [[<- <-]|(_ & ?)]; [by right|by left].
    + intros [(x & Hx & <- & <-)|[<- <-]]; [|by left].
      destruct (decide (owner_key o = owner_key x)) as [He|]; [left|right; eauto].
      split; [done|]. symmetry. by apply Hown.
  - intros k. rewrite Hindex, lookup_insert_None, (st_absent _ _ Hst), forall_elem_snoc. done.
  - intros k sc. rewrite Hindex, lookup_insert_Some.
    setoid_rewrite exists_elem_snoc. rewrite forall_elem_snoc.
    intros [[<- <-]|[Hne Hi]].
    + destruct (index st !! check_key o) as [sc0|] eqn:Ei; cbn [sc_Policy sc_Check Sources].
      * destruct (st_present _ _ Hst _ _ Ei) as (Hp & Hall & Hsrc). split_and!.
        -- by left.
        -- done.
        -- intros _. by rewrite (Hsame sc0 eq_refl).
        -- intros src. rewrite elem_of_app, Hsrc, list_elem_of_singleton. intuition congruence.
      * pose proof (proj1 (st_absent _ _ Hst _) Ei) as Hno. split_and!.
        -- by right.
        -- intros y Hy Hky. by destruct (Hno y).
        -- done.
        -- intros src. rewrite list_elem_of_singleton. split; [by intros ->; right|].
           intros [(x & Hx & Hkx & _)|[_ <-]]; [by destruct (Hno x)|done].
    + destruct (st_present _ _ Hst _ _ Hi) as (Hp & Hall & Hsrc). split_and!.
      * by left.
      * done.
      * done.
      * intros src. rewrite Hsrc. split; [by left|]. by intros [?|[? _]].
Qed.

(** The loop, over the flattened occurrences. *)
Lemma merge_loop os :
  match fold_res (merge_check phaseIn phaseOut) empty_state os with
  | Ok st => state_ok os st
  | Err _ => ¬ occs_consistent os
  end.
Proof.
  induction os as [|o os IH] using rev_ind; [apply state_ok_empty|].
  rewrite fold_res_app. destruct (fold_res _ _ os) as [st|e]; cbn [res_bind fold_res].
  - pose proof (merge_check_cases os st o IH) as Hc. pose proof (merge_check_ok os st o) as Hok.
    destruct (merge_check _ _ st o) as [st'|]; cbn [res_bind]; [|done]. by apply Hok.
  - intros [Hv Ho Hk]. apply IH. split.
    + intros x Hx. apply Hv. set_solver.
    + intros x y Hx Hy. apply Ho; set_solver.
    + intros x y Hx Hy. apply Hk; set_solver.
Qed.

(** The snapshot pass. *)
Lemma snapshot_loop sels :
  match checkSnapshotConsistency sels with
  | Ok _ => snapshots_agree sels
  | Err _ => ¬ snapshots_agree sels
  end.
Proof.
  unfold checkSnapshotConsistency. set (f := fun seen sel => _).
  assert (Hinv : match fold_res f ∅ sels with
    | Ok seen => snapshots_agree sels ∧ ∀ k i, seen !! k = Some i ↔
        ∃ s, s ∈ sels ∧ policy_key (Policy s) = k ∧ identityOf (Policy s) = i
    | Err _ => ¬ snapshots_agree sels
    end).
  { induction sels as [|s sels IH] using rev_ind.
    { cbn. split; [by intros ?? ?%not_elem_of_nil|]. intros k i. rewrite lookup_empty, exists_elem_nil. done. }
    rewrite fold_res_app. destruct (fold_res f ∅ sels) as [seen|]; cbn [res_bind fold_res].
    2:{ intros Ha. apply IH. intros x y Hx Hy. apply Ha; set_solver. }
    destruct IH as [Hag Hseen]. unfold f at 1.
    destruct (seen !! policy_key (Policy s)) as [prev|] eqn:E.
    - pose proof (proj1 (Hseen _ _) E) as (s0 & H0 & Hk0 & <-). case_bool_decide as Hid.
      + cbn [res_bind]. split.
        * refine (pairs_elem_snoc _ _ _ Hag _ _); [|done]. intros x Hx. rewrite <- Hid.
          split; intros Hk; apply Hag; congruence.
        * intros k i. rewrite Hseen, exists_elem_snoc. split; [by left|].
          intros [?|[<- <-]]; [done|]. by exists s0.
      + intros Ha. apply Hid, Ha; [set_solver..|done].
    - cbn [res_bind].
      assert (Hno : ∀ x, x ∈ sels → policy_key (Policy x) ≠ policy_key (Policy s)).
      { intros x Hx Hk. assert (seen !! policy_key (Policy s) = Some (identityOf (Policy x))); [|congruence].
        apply Hseen. eauto. }
      split.
      + refine (pairs_elem_snoc _ _ _ Hag _ _); [|done]. intros x Hx.
        by split; intros Hk; destruct (Hno x Hx).
      + intros k i. rewrite lookup_insert_Some, Hseen, exists_elem_snoc. split.
        * intros [[<- <-]|[_ ?]]; [by right|by left].
        * intros [(x & Hx & <- & <-)|[<- <-]]; [|by left]. right. split; [|eauto].
          intros Hk. by destruct (Hno x Hx). }
  destruct (fold_res f ∅ sels); cbn [res_bind]; [apply Hinv|done].
Qed.

(** ** The plan *)

(** A check the plan must hold: its policy snapshot, its normalized metadata,
    and exactly the sources that selected it, in order. *)
Definition planned (sels : list ResolvedSelection) (sc : SelectedCheck) : Prop :=
  ∃ o, o ∈ all_occurrences sels
    ∧ sc_Policy sc = identityOf (Policy o.1) ∧ normalized o.2 = Some (sc_Check sc)
    ∧ StronglySorted (fun a b => sourceLess a b = true) (Sources sc)
    ∧ ∀ src, src ∈ Sources sc ↔
        ∃ o', o' ∈ all_occurrences sels ∧ check_key o' = check_key o ∧ sel_Source o'.1 = src.

Definition finalize (sc : SelectedCheck) : SelectedCheck := {|
  sc_Policy := sc_Policy sc; sc_Check := sc_Check sc; Sources := dedupeSources (Sources sc) |}.

Lemma merge_shape sels :
  match Merge phaseIn phaseOut sels with
  | Ok plan => ∃ st, snapshots_agree sels ∧ state_ok (all_occurrences sels) st
      ∧ Checks plan = sortChecks (map (fun kv => finalize kv.2) (range_map (index st)))
  | Err _ => ¬ consistent sels
  end.
Proof.
  unfold Merge. pose proof (snapshot_loop sels) as Hs. destruct (checkSnapshotConsistency sels); cbn [res_bind].
  2:{ intros [? _]. by apply Hs. }
  rewrite fold_res_concat. fold (all_occurrences sels).
  pose proof (merge_loop (all_occurrences sels)) as Hl. unfold empty_state in Hl.
  destruct (fold_res _ _ _) as [st|]; cbn [res_bind]; [by exists st|]. intros [_ ?]. by apply Hl.
Qed.

Lemma dedupe_strict l : StronglySorted (fun a b => sourceLess a b = true) (dedupeSources l).
Proof.
  assert (Ht : StrictTotal sourceLess).
  { split; [apply sw_irrefl|apply sw_trans|apply source_tie]. }
  apply (sorted_strict (fun s => s) sourceLess); [|apply isort_sorted, _].
  unfold dedupeSources. rewrite isort_perm. apply first_occurrences_spec.
Qed.

Lemma occurrence_selection sels o : o ∈ all_occurrences sels → o.1 ∈ sels.
Proof.
  unfold all_occurrences. rewrite list_elem_of_In, in_concat. setoid_rewrite in_map_iff.
  intros (l & (sel & <- & Hs) & Ho). unfold occurrences in Ho. apply in_map_iff in Ho as (c & <- & _).
  by apply list_elem_of_In.
Qed.

Lemma index_planned sels st :
  snapshots_agree sels → state_ok (all_occurrences sels) st →
  ∀ sc, (∃ k sc0, index st !! k = Some sc0 ∧ sc = finalize sc0) ↔ planned sels sc.
Proof.
  intros Hsnap Hst sc. split.
  - intros (k & sc0 & Hk & ->). destruct (st_present _ _ Hst _ _ Hk) as ((o & Ho & Hko & Hp) & Hn & Hsrc).
    exists o. split_and!; [done|done|by apply Hn|apply dedupe_strict|].
    intros src. cbn [finalize Sources]. by rewrite dedupe_elem, Hsrc, Hko.
  - intros (o & Ho & Hp & Hn & HS & Hsrc). exists (check_key o).
    destruct (index st !! check_key o) as [sc0|] eqn:E.
    2:{ by destruct (proj1 (st_absent _ _ Hst _) E o Ho). }
    exists sc0. split; [done|].
    destruct (st_present _ _ Hst _ _ E) as ((o2 & Ho2 & Hk2 & Hp2) & Hn0 & Hsrc0).
    destruct sc as [pol chk srcs]; cbn in *. unfold finalize. f_equal.
    + rewrite Hp, Hp2. apply Hsnap; [by apply occurrence_selection..|].
      unfold check_key in Hk2. congruence.
    + specialize (Hn0 o Ho eq_refl). congruence.
    + apply (strict_sorted_unique sourceLess); [done|apply dedupe_strict|].
      intros src. by rewrite Hsrc, dedupe_elem, Hsrc0.
Qed.

Lemma plan_members sels plan :
  Merge phaseIn phaseOut sels = Ok plan → ∀ sc, sc ∈ Checks plan ↔ planned sels sc.
Proof.
  intros E sc. pose proof (merge_shape sels) as Hm. rewrite E in Hm.
  destruct Hm as (st & Hsnap & Hst & ->). rewrite <- (index_planned sels st Hsnap Hst).
  unfold sortChecks. rewrite isort_elem.
  rewrite list_elem_of_In, in_map_iff. setoid_rewrite <- list_elem_of_In. split.
  - intros ([k sc0] & <- & Hin). rewrite range_map_perm in Hin. apply elem_of_map_to_list in Hin. by exists k, sc0.
  - intros (k & sc0 & Hk & ->). exists (k, sc0). split; [done|]. rewrite range_map_perm. by apply elem_of_map_to_list.
Qed.

(** The name, policy and spec index of a normalized check. *)
Lemma normalized_fields c c' : normalized c = Some c' → chk_Name c' = chk_Name c ∧ SpecIndex c' = SpecIndex c.
Proof. unfold normalized. destruct (validate (Phases c)); [by intros [= <-]|done]. Qed.

(** Two planned checks that the order ties are the same check. *)
Lemma planned_tie sels a b :
  consistent sels → planned sels a → planned sels b →
  check_less a b = false → check_less b a = false → a = b.
Proof.
  intros [Hsnap Hc] (o1 & Ho1 & Hp1 & Hn1 & HS1 & Hs1) (o2 & Ho2 & Hp2 & Hn2 & HS2 & Hs2) Hab Hba.
  destruct (check_tie a b Hab Hba) as (En & Ens & Ei).
  destruct (normalized_fields _ _ Hn1) as [Hname1 Hidx1], (normalized_fields _ _ Hn2) as [Hname2 Hidx2].
  rewrite Hp1, Hp2 in En, Ens. rewrite Hidx1, Hidx2 in Ei.
  assert (Hpk : policy_key (Policy o1.1) = policy_key (Policy o2.1)).
  { unfold policy_key. cbn in En, Ens. congruence. }
  assert (Hname : chk_Name o1.2 = chk_Name o2.2).
  { apply (oc_owner _ Hc); [done..|]. unfold owner_key. congruence. }
  assert (Hk : check_key o1 = check_key o2) by (unfold check_key; congruence).
  destruct a as [p1 c1 s1], b as [p2 c2 s2]; cbn in *. f_equal.
  - rewrite Hp1, Hp2. apply Hsnap; [by apply occurrence_selection..|done].
  - pose proof (oc_check _ Hc _ _ Ho1 Ho2 Hk). congruence.
  - apply (strict_sorted_unique sourceLess); [done..|]. intros src. by rewrite Hs1, Hs2, Hk.
Qed.

Lemma merge_consistent sels plan : Merge phaseIn phaseOut sels = Ok plan → consistent sels.
Proof.
  intros E. pose proof (merge_shape sels) as Hm. rewrite E in Hm.
  destruct Hm as (st & ? & Hst & _). split; [done|apply Hst].
Qed.

(** No two entries of the index give the same check. *)
Lemma plan_nodup sels plan : Merge phaseIn phaseOut sels = Ok plan → NoDup (Checks plan).
Proof.
  intros E. pose proof (merge_shape sels) as Hm. rewrite E in Hm.
  destruct Hm as (st & Hsnap & Hst & ->). unfold sortChecks. rewrite isort_perm.
  assert (Hl : NoDup (range_map (index st))) by (rewrite range_map_perm; apply NoDup_map_to_list).
  apply (NoDup_fmap_2_strong (fun kv : (string * string * string) * SelectedCheck => finalize kv.2)); [|done].
  intros [k1 a] [k2 b] H1 H2 Heq. rewrite range_map_perm in H1, H2.
  apply elem_of_map_to_list in H1, H2. cbn in Heq.
  destruct (st_present _ _ Hst _ _ H1) as ((o1 & Ho1 & Hk1 & Hp1) & Hn1 & _).
  destruct (st_present _ _ Hst _ _ H2) as ((o2 & Ho2 & Hk2 & Hp2) & Hn2 & _).
  assert (k1 = k2) as ->; [|congruence].
  destruct (normalized_fields _ _ (Hn1 o1 Ho1 Hk1)) as [En1 _], (normalized_fields _ _ (Hn2 o2 Ho2 Hk2)) as [En2 _].
  unfold finalize in Heq. injection Heq as Hpol Hchk _. rewrite <- Hk1, <- Hk2. unfold check_key, policy_key.
  rewrite Hp1, Hp2 in Hpol. unfold identityOf in Hpol. congruence.
Qed.

Lemma plan_strict sels plan :
  Merge phaseIn phaseOut sels = Ok plan → StronglySorted (fun a b => check_less a b = true) (Checks plan).
Proof.
  intros E. pose proof (plan_nodup sels plan E) as Hn. pose proof (merge_consistent sels plan E) as Hc.
  pose proof (plan_members sels plan E) as Hm. pose proof (merge_shape sels) as Hsh. rewrite E in Hsh.
  destruct Hsh as (st & _ & _ & Heq).
  assert (HS : StronglySorted (not_after check_less) (Checks plan)) by (rewrite Heq; apply isort_sorted, _).
  assert (Hpl : ∀ x, x ∈ Checks plan → planned sels x) by (intros x; apply Hm). clear Hm Heq.
  induction HS as [|x l HS IH Hall]; [constructor|]. apply NoDup_cons in Hn as [Hx Hn].
  constructor; [apply IH; [done|]; intros y Hy; apply Hpl; by right|].
  rewrite Forall_forall in Hall |- *. intros y Hy. destruct (check_less x y) eqn:Exy; [done|].
  rewrite (planned_tie sels x y Hc) in Hx; [done|apply Hpl; by left|apply Hpl; by right|done|by apply Hall].
Qed.

(** [Merge] fails closed and is exact: it succeeds only when the selections
    of each policy agree on its snapshot, every check has valid phases and
    spec index, and duplicated checks agree — and then the plan, strictly
    ordered by policy name, policy namespace and spec index, holds exactly the
    selected checks, each with exactly the sources that selected it. *)
Theorem merge_exact sels :
  match Merge phaseIn phaseOut sels with
  | Ok plan => consistent sels ∧ (∀ sc, sc ∈ Checks plan ↔ planned sels sc)
      ∧ StronglySorted (fun a b => check_less a b = true) (Checks plan)
  | Err _ => ¬ consistent sels
  end.
Proof.
  pose proof (merge_shape sels) as Hm. destruct (Merge phaseIn phaseOut sels) as [plan|] eqn:E; [|done].
  split_and!; [by eapply merge_consistent|by apply plan_members|by eapply plan_strict].
Qed.

Lemma consistent_subset l1 l2 : (∀ s, s ∈ l1 → s ∈ l2) → consistent l2 → consistent l1.
Proof.
  intros Hsub [Hs [Hv Ho Hk]].
  assert (Hocc : ∀ o, o ∈ all_occurrences l1 → o ∈ all_occurrences l2).
  { intros o. unfold all_occurrences. rewrite !list_elem_of_In, !in_concat.
    intros (l & (s & <- & Hin)%in_map_iff & Ho'). exists (occurrences s). split; [|done].
    apply in_map. rewrite <- list_elem_of_In in Hin |- *. by apply Hsub. }
  split; [intros ????; apply Hs; auto|]. split; auto.
Qed.

Lemma occurrences_subset l1 l2 o :
  (∀ s, s ∈ l1 → s ∈ l2) → o ∈ all_occurrences l1 → o ∈ all_occurrences l2.
Proof.
  intros Hsub. unfold all_occurrences. rewrite !list_elem_of_In, !in_concat.
  intros (l & (s & <- & Hin)%in_map_iff & Ho'). exists (occurrences s). split; [|done].
  apply in_map. rewrite <- list_elem_of_In in Hin |- *. by apply Hsub.
Qed.

Lemma merge_total sels : consistent sels → ∃ plan, Merge phaseIn phaseOut sels = Ok plan.
Proof.
  intros Hc. pose proof (merge_shape sels) as Hm. destruct (Merge phaseIn phaseOut sels); [eauto|done].
Qed.

(** Selection is additive: whatever a second group of selections adds, a
    merge that succeeds keeps every check of the first group's plan, with the
    same policy snapshot and metadata and at least the same sources. *)
Theorem merge_additive base added plan :
  Merge phaseIn phaseOut (base ++ added)%list = Ok plan →
  ∃ plan0, Merge phaseIn phaseOut base = Ok plan0
    ∧ ∀ sc, sc ∈ Checks plan0 → ∃ sc', sc' ∈ Checks plan
        ∧ sc_Policy sc' = sc_Policy sc ∧ sc_Check sc' = sc_Check sc
        ∧ ∀ src, src ∈ Sources sc → src ∈ Sources sc'.
Proof.
  intros E. assert (Hsub : ∀ s, s ∈ base → s ∈ (base ++ added)%list) by (intros s; rewrite elem_of_app; by left).
  pose proof (merge_consistent _ _ E) as Hc.
  destruct (merge_total base (consistent_subset _ _ Hsub Hc)) as (plan0 & E0). exists plan0. split; [done|].
  intros sc (o & Ho & Hp & Hn & _ & Hsrc)%(plan_members _ _ E0).
  pose proof (merge_shape (base ++ added)%list) as Hm. rewrite E in Hm. destruct Hm as (st & Hsnap & Hst & _).
  assert (Ho' : o ∈ all_occurrences (base ++ added)%list) by by eapply occurrences_subset.
  destruct (index st !! check_key o) as [sc0|] eqn:Ei; [|by destruct (proj1 (st_absent _ _ Hst _) Ei o Ho')].
  destruct (st_present _ _ Hst _ _ Ei) as ((o2 & Ho2 & Hk2 & Hp2) & Hn0 & Hsrc0).
  exists (finalize sc0). split_and!.
  - apply (plan_members _ _ E), (index_planned _ st Hsnap Hst). eauto.
  - cbn. rewrite Hp, Hp2. apply Hsnap; [by apply occurrence_selection..|]. unfold check_key in Hk2. congruence.
  - cbn. specialize (Hn0 o Ho' eq_refl). congruence.
  - intros src (x & Hx & Hkx & Hsx)%Hsrc. cbn. rewrite dedupe_elem, Hsrc0. exists x.
    split_and!; [by eapply occurrences_subset|done|done].
Qed.

End Merge.

(** The plan depends only on which selections there are: neither their order
    nor the order in which the runtime iterates over maps changes it. *)
Theorem merge_order_independent (GR1 GR2 : GoRuntime) phaseIn phaseOut sels1 sels2 plan :
  sels1 ≡ₚ sels2 → Merge (GR:=GR1) phaseIn phaseOut sels1 = Ok plan →
  Merge (GR:=GR2) phaseIn phaseOut sels2 = Ok plan.
Proof.
  intros HP E. assert (Hsub : ∀ s, s ∈ sels2 ↔ s ∈ sels1) by (intros s; by rewrite HP).
  pose proof (merge_consistent (GR:=GR1) _ _ _ _ E) as Hc.
  assert (Hc2 : consistent phaseIn phaseOut sels2) by (eapply consistent_subset; [|done]; intros s; apply Hsub).
  destruct (merge_total (GR:=GR2) _ _ _ Hc2) as (plan2 & E2). rewrite E2. f_equal.
  pose proof (plan_strict (GR:=GR1) _ _ _ _ E) as HS1. pose proof (plan_strict (GR:=GR2) _ _ _ _ E2) as HS2.
  destruct plan as [c1], plan2 as [c2]. f_equal. apply (strict_sorted_unique check_less); [done..|].
  intros sc. change c1 with (Checks {| Checks := c1 |}). change c2 with (Checks {| Checks := c2 |}).
  rewrite (plan_members (GR:=GR1) _ _ _ _ E), (plan_members (GR:=GR2) _ _ _ _ E2).
  assert (Hocc : ∀ o, o ∈ all_occurrences sels1 ↔ o ∈ all_occurrences sels2).
  { intros o. split; apply occurrences_subset; intros s; apply Hsub. }
  unfold planned. split; intros (o & Ho & ? & ? & ? & Hsrc); exists o; split_and!; try done;
    try (by apply Hocc); intros src; rewrite Hsrc; split; intros (x & ? & ?); exists x; split; try done; by apply Hocc.
Qed.

(** ** Composition *)

Section Compose.
Context `{GR : GoRuntime}.
Variables phaseIn phaseOut : string.
Context {Attachment : Type}.
Variable Resolve : string → Attachment → Res string ResolvedPolicy.

Lemma resolve_attachments_ok i ns atts src sels :
  resolve_from Resolve i ns atts src = Ok sels →
  Forall2 (fun a sel => Resolve ns a = Ok (Policy sel)) atts sels.
Proof.
  revert i sels. induction atts as [|a atts IH]; intros i sels; cbn [resolve_from].
  { intros [= <-]. constructor. }
  intros (p & Hp%map_err_ok & Hr)%res_bind_ok. apply res_bind_ok in Hr as (rest & Hrest & [= <-]).
  constructor; [done|]. by eapply IH.
Qed.

Lemma find_entry_ok (sub : SubscriptionSelection (Attachment:=Attachment)) ns name entry :
  findSubscriptionModelEntry sub ns name = Ok entry →
  filter (fun ref => entry_matches ns name ref = true) (sub_ModelRefs sub) = [entry].
Proof.
  unfold findSubscriptionModelEntry. destruct (filter _ _) as [|m [|? ?]]; [done| |done]. by intros [= <-].
Qed.

(** Every attachment that bears on a subscription/model pair, with the
    namespace it is resolved in. *)
Definition bearing (targetNamespace : string) (tenant tenantConfig : Selection (Attachment:=Attachment))
    (sub : SubscriptionSelection (Attachment:=Attachment)) (entry : ModelEntrySelection (Attachment:=Attachment))
    (model : Selection (Attachment:=Attachment)) : list (string * Attachment) :=
  (map (pair targetNamespace)
    (s_Guardrails tenant ++ s_Guardrails tenantConfig ++ s_Guardrails (sub_ref sub) ++ e_Guardrails entry)
  ++ map (pair (s_Namespace model)) (s_Guardrails model))%list.

(** What composition resolves and merges. *)
Lemma composed_shape ns tenant config sub model modelNs modelName key plan :
  ComposeSubscriptionModelPlan phaseIn phaseOut Resolve true ns (Some tenant) (Some config) (Some sub) (Some model)
    modelNs modelName = (key, Ok plan) →
  s_Namespace model = modelNs ∧ s_Name model = modelName
  ∧ ∃ entry sels, filter (fun ref => entry_matches modelNs modelName ref = true) (sub_ModelRefs sub) = [entry]
    ∧ Forall2 (fun a sel => Resolve a.1 a.2 = Ok (Policy sel)) (bearing ns tenant config sub entry model) sels
    ∧ Merge phaseIn phaseOut sels = Ok plan.
Proof.
  unfold ComposeSubscriptionModelPlan. intros [= _ E]. cbn [negb] in E.
  destruct (negb (String.eqb _ ns)) in E; [done|]. destruct (negb (String.eqb _ ns)) in E; [done|].
  destruct (String.eqb_spec (s_Namespace model) modelNs) as [Hns|]; [|done].
  destruct (String.eqb_spec (s_Name model) modelName) as [Hname|]; [|done]. cbn [negb orb] in E.
  apply res_bind_ok in E as (entry & Hentry & E).
  apply res_bind_ok in E as (s1 & H1 & E). apply res_bind_ok in E as (s2 & H2 & E).
  apply res_bind_ok in E as (s3 & H3 & E). apply res_bind_ok in E as (s4 & H4 & E).
  apply res_bind_ok in E as (s5 & H5 & E%map_err_ok).
  apply find_entry_ok in Hentry. split_and!; [done|done|].
  exists entry, (s1 ++ s2 ++ s3 ++ s4 ++ s5)%list. split_and!; [done| |done].
  unfold bearing. rewrite !map_app, <- !app_assoc.
  apply resolve_attachments_ok in H1, H2, H3, H4, H5.
  repeat (apply Forall2_app); apply Forall2_fmap_l; assumption.
Qed.

Lemma occurrence_in sels sel c :
  sel ∈ sels → c ∈ rp_Checks (Policy sel) → (sel, c) ∈ all_occurrences sels.
Proof.
  intros Hs Hc. unfold all_occurrences. rewrite list_elem_of_In, in_concat. exists (occurrences sel). split.
  - apply in_map. by rewrite <- list_elem_of_In.
  - unfold occurrences. apply in_map. by rewrite <- list_elem_of_In.
Qed.

Lemma occurrence_check sels o : o ∈ all_occurrences sels → o.1 ∈ sels ∧ o.2 ∈ rp_Checks (Policy o.1).
Proof.
  intros Ho. split; [by apply occurrence_selection|]. revert Ho.
  unfold all_occurrences. rewrite list_elem_of_In, in_concat. setoid_rewrite in_map_iff.
  intros (l & (sel & <- & Hs) & Ho). unfold occurrences in Ho. apply in_map_iff in Ho as (c & <- & Hc).
  by apply list_elem_of_In.
Qed.

(** A check of the plan is a check of a policy that an attachment bearing on
    the pair resolves to. *)
Lemma composed_plan_sound ns tenant config sub model modelNs modelName key plan entry sc :
  ComposeSubscriptionModelPlan phaseIn phaseOut Resolve true ns (Some tenant) (Some config) (Some sub) (Some model)
    modelNs modelName = (key, Ok plan) →
  filter (fun ref => entry_matches modelNs modelName ref = true) (sub_ModelRefs sub) = [entry] →
  sc ∈ Checks plan →
  ∃ a p c, a ∈ bearing ns tenant config sub entry model ∧ Resolve a.1 a.2 = Ok p ∧ c ∈ rp_Checks p
    ∧ sc_Policy sc = identityOf p ∧ chk_Name (sc_Check sc) = chk_Name c.
Proof.
  intros (_ & _ & entry' & sels & Hentry & HF & E)%composed_shape Hentry' Hsc. 
  rewrite Hentry in Hentry'. injection Hentry' as <-.
  apply (plan_members _ _ _ _ E) in Hsc as (o & Ho & Hp & Hn & _).
  apply occurrence_check in Ho as [Hsel Hc]. apply list_elem_of_lookup in Hsel as (i & Hi).
  destruct (Forall2_lookup_r _ _ _ _ _ HF Hi) as (a & Ha & Hres).
  exists a, (Policy o.1), o.2. split_and!; [by eapply list_elem_of_lookup_2|done..|].

  by destruct (normalized_fields _ _ _ _ Hn).
Qed.

(** A composed plan enforces every guardrail that bears on the pair: it
    exists only when the subscription lists the model exactly once, the model
    is the requested one and every attachment of the tenant, its
    configuration, the subscription, the model entry and the model resolves;
    and then every check of every one of those policies is in the plan with
    that policy's snapshot. *)
Theorem composed_plan_complete ns tenant config sub model modelNs modelName key plan :
  ComposeSubscriptionModelPlan phaseIn phaseOut Resolve true ns (Some tenant) (Some config) (Some sub) (Some model)
    modelNs modelName = (key, Ok plan) →
  s_Namespace model = modelNs ∧ s_Name model = modelName
  ∧ ∃ entry, filter (fun ref => entry_matches modelNs modelName ref = true) (sub_ModelRefs sub) = [entry]
    ∧ ∀ a, a ∈ bearing ns tenant config sub entry model →
      ∃ p, Resolve a.1 a.2 = Ok p
        ∧ ∀ c, c ∈ rp_Checks p → ∃ sc, sc ∈ Checks plan
            ∧ sc_Policy sc = identityOf p ∧ normalized phaseIn phaseOut c = Some (sc_Check sc).
Proof.
  intros (Hns & Hname & entry & sels & Hentry & HF & E)%composed_shape.
  split_and!; [done|done|]. exists entry. split; [done|].
  intros a Ha. apply list_elem_of_lookup in Ha as (i & Hi).
  destruct (Forall2_lookup_l _ _ _ _ _ HF Hi) as (sel & Hsel & Hres). exists (Policy sel). split; [done|].
  intros c Hc. assert (Ho : (sel, c) ∈ all_occurrences sels)
    by (apply occurrence_in; [by eapply list_elem_of_lookup_2|done]).
  pose proof (merge_shape phaseIn phaseOut sels) as Hm. rewrite E in Hm. destruct Hm as (st & Hsnap & Hst & _).
  destruct (index st !! check_key (sel, c)) as [sc0|] eqn:Ei; [|by destruct (proj1 (st_absent _ _ _ _ Hst _) Ei _ Ho)].
  destruct (st_present _ _ _ _ Hst _ _ Ei) as ((o2 & Ho2 & Hk2 & Hp2) & Hn & _).
  exists (finalize sc0). split_and!.
  - apply (plan_members _ _ _ _ E), (index_planned _ _ _ st Hsnap Hst). eauto.
  - cbn. rewrite Hp2. apply Hsnap; [by apply occurrence_selection|by apply (occurrence_selection _ (sel, c))|].
    unfold check_key in Hk2. cbn in Hk2. congruence.
  - cbn. by apply (Hn (sel, c)).
Qed.

End Compose.

(** ** A concrete merge *)

Definition demo_sel (policy : string) (checks : list Check) (path : string) : ResolvedSelection := {|
  Policy := {| rp_Namespace := "t"; rp_Name := policy; rp_UID := "u"; rp_Generation := 1;
               rp_BindingRevision := "r"; rp_Checks := checks |};
  sel_Source := {| Kind := "AITenant"; src_Namespace := "t"; src_Name := "a"; src_UID := "x"; AttachmentPath := path |} |}.
Definition demo_check (name : string) (i : Z) : Check :=
  {| chk_Name := name; SpecIndex := i; Phases := ["output"; "input"] |}.
Definition demo_base : list ResolvedSelection := [demo_sel "pii" [demo_check "b" 1; demo_check "a" 0] "p0"].
Definition demo_added : list ResolvedSelection := [demo_sel "pii" [demo_check "a" 0] "p1"; demo_sel "abuse" [demo_check "c" 0] "p2"].

Lemma merge_order_independent_witness :
  ∃ plan, Merge (GR:=reference_runtime) "input" "output" (rev (demo_base ++ demo_added)) = Ok plan
    ∧ map (fun sc => chk_Name (sc_Check sc)) (Checks plan) = ["c"; "a"; "b"].
Proof.
  destruct (Merge (GR:=reference_runtime) "input" "output" (demo_base ++ demo_added)%list) as [plan|] eqn:E;
    [|by vm_compute in E].
  exists plan. split.
  - apply (merge_order_independent reference_runtime reference_runtime "input" "output"
      (demo_base ++ demo_added)%list); [apply Permutation_rev|exact E].
  - vm_compute in E. by injection E as <-.
Defined.

Lemma merge_additive_witness :
  ∃ plan0, Merge (GR:=reference_runtime) "input" "output" demo_base = Ok plan0.
Proof.
  destruct (Merge (GR:=reference_runtime) "input" "output" (demo_base ++ demo_added)%list) as [plan|] eqn:E;
    [|by vm_compute in E].
  destruct (merge_additive (GR:=reference_runtime) "input" "output" demo_base demo_added plan E) as (plan0 & H & _).
  by exists plan0.
Defined.

Definition demo_ref (ns name : string) (atts : list string) : Selection :=
  {| s_Namespace := ns; s_Name := name; s_UID := "u"; s_Guardrails := atts |}.
Definition demo_resolve (ns att : string) : Res string ResolvedPolicy :=
  Ok (Policy (demo_sel att [demo_check "a" 0] "")).
Definition demo_subscription : SubscriptionSelection := {|
  sub_ref := demo_ref "t" "gold" ["subscription-policy"];
  sub_ModelRefs := [{| e_Namespace := "llm"; e_Name := "granite"; e_Guardrails := ["entry-policy"] |}] |}.

Lemma composed_plan_complete_witness :
  ∃ key plan, ComposeSubscriptionModelPlan (GR:=reference_runtime) "input" "output" demo_resolve true "t"
      (Some (demo_ref "ai" "tenant" ["tenant-policy"])) (Some (demo_ref "t" "config" []))
      (Some demo_subscription) (Some (demo_ref "llm" "granite" [])) "llm" "granite" = (key, Ok plan)
    ∧ ∃ sc, sc ∈ Checks plan ∧ id_Name (sc_Policy sc) = "entry-policy".
Proof.
  destruct (ComposeSubscriptionModelPlan (GR:=reference_runtime) "input" "output" demo_resolve true "t"
      (Some (demo_ref "ai" "tenant" ["tenant-policy"])) (Some (demo_ref "t" "config" []))
      (Some demo_subscription) (Some (demo_ref "llm" "granite" [])) "llm" "granite") as [key [plan|]] eqn:E;
    [|by vm_compute in E].
  exists key, plan. split; [done|].
  destruct (composed_plan_complete (GR:=reference_runtime) "input" "output" demo_resolve "t" _ _ _ _ _ _ _ _ E)
    as (_ & _ & entry & He & Hb). vm_compute in He. injection He as <-.
  destruct (Hb ("t", "entry-policy")) as (p & [= <-] & Hc); [vm_compute; set_solver|].
  destruct (Hc (demo_check "a" 0)) as (sc & Hsc & Hp & _); [by left|].
  exists sc. split; [done|]. by rewrite Hp.
Defined.

End GuardrailFacts.
