(* ===== verification/GuardrailResolver.v ===== *)
(** * GuardrailResolver: the guardrail checks of a selected subscription and model

    [maas-api/internal/subscription/guardrail.go], which stands between the
    selection of a subscription ([Selector]) and the composition of a plan
    ([Guardrail]): it reads the AITenant and its configuration, collects the
    attachments of every scope from the untyped objects, composes the plan and
    returns the identifiers of its checks.  The attachment resolver and the
    identifiers belong to ai-gateway-controller and are parameters; the policy
    reader that the source hands to that resolver is modelled here. *)

From S2P Require Import Prelude GoStrings Unstructured Guardrail.
From Stdlib Require String.
Local Open Scope string_scope.

Module GuardrailResolver.
Import Guardrail.

(** ** Accessors

    This file tells an error of an accessor ([Err]) from an absent field
    ([Ok None]). *)
Class GuardrailAccess := {
  ga_base :: K8sAccess;
  NestedSliceE : JMap → list string → Res string (option (list JVal));
  NestedStringE : JMap → list string → Res string (option string);
  GetUID : Object → string;
  GetGeneration : Object → Z;
}.

(** The documented behaviour: a parent or a value of another type is an error. *)
Fixpoint nested_field_e (m : JMap) (path : list string) : Res string (option JVal) :=
  match path with
  | [] => Ok None
  | [k] => Ok (get k m)
  | k :: ks =>
      match get k m with
      | None => Ok None
      | Some JNull => Ok None
      | Some (JObj m') => nested_field_e m' ks
      | Some _ => Err "accessor error: not a map"
      end
  end.
Definition typed_field {A} (as_type : option JVal → option A) (m : JMap) (path : list string)
    : Res string (option A) :=
  v <- nested_field_e m path ;;
  match v with
  | None => Ok None
  | Some _ => match as_type v with Some a => Ok (Some a) | None => Err "accessor error: wrong type" end
  end.

Definition documented_guardrail_access : GuardrailAccess := {|
  ga_base := documented_access;
  NestedSliceE := typed_field as_slice;
  NestedStringE := typed_field as_string;
  GetUID o := default "" (as_string (nested_field (Fields o) ["metadata"; "uid"]));
  GetGeneration o := default 0%Z (as_int64 (nested_field (Fields o) ["metadata"; "generation"]));
|}.

(** ** Attachments *)

(** [aiguardrail.Attachment]: no checks selects all of the policy. *)
Record Attachment := { att_Name : string; att_Checks : list string }.

(** The errors of the file, by the branch that makes them. *)
Inductive ResolveErr :=
| NotConfigured
| ObjectsRequired
| TenantUnavailable (cause : string)
| NoTenantNamespace
| SubscriptionOutside
| ModelNotResolved
| ConfigUnavailable (cause : string)
| NoModelEntries
| DuplicateModelEntry
| ModelNotIncluded
| AccessorError (cause : string)
| InvalidAttachment (i : nat)
| NoReference (i : nat)
| EmptyReference (i : nat)
| InvalidChecks (i : nat)
| InvalidCheck (i : nat)
| CompositionFailed (e : ComposeErr).

Definition defaultTenantConfigName : string := "default-tenant".

Section Resolver.
Context `{GR : GoRuntime} `{GA : GuardrailAccess}.

Fixpoint check_names (i : nat) (checks : list JVal) : Res ResolveErr (list string) :=
  match checks with
  | [] => Ok []
  | check :: checks =>
      match as_string (Some check) with
      | Some checkName => rest <- check_names i checks ;; Ok (checkName :: rest)
      | None => Err (InvalidCheck i)
      end
  end.

(** One item of the loop of [attachments]; [i] is [len(out)]. *)
Definition attachment_of (i : nat) (item : JVal) : Res ResolveErr Attachment :=
  match as_map (Some item) with
  | None => Err (InvalidAttachment i)
  | Some attachment =>
      match as_map (get "ref" attachment) with
      | None => Err (NoReference i)
      | Some ref =>
          let name := string_or_empty (get "name" ref) in
          reject EmptyReference i when String.eqb name "" ;;
          match get "checks" attachment with
          | None => Ok {| att_Name := name; att_Checks := [] |}
          | Some rawChecks =>
              match as_slice (Some rawChecks) with
              | None => Err (InvalidChecks i)
              | Some checks => names <- check_names i checks ;; Ok {| att_Name := name; att_Checks := names |}
              end
          end
      end
  end.

Fixpoint attachments_from (i : nat) (items : list JVal) : Res ResolveErr (list Attachment) :=
  match items with
  | [] => Ok []
  | item :: items =>
      a <- attachment_of i item ;;
      rest <- attachments_from (S i) items ;;
      Ok (a :: rest)
  end.

Definition attachments (obj : Object) : Res ResolveErr (list Attachment) :=
  found <- map_err AccessorError (NestedSliceE (Fields obj) ["spec"; "guardrails"]) ;;
  match found with
  | None => Ok []
  | Some items => attachments_from 0 items
  end.

(** ** The entry of the model *)

Definition entry_spec (entry : JMap) : JMap :=
  match get "guardrails" entry with Some raw => [("guardrails", raw)] | None => [] end.

Definition entry_is (namespace name : string) (entry : JMap) : bool :=
  String.eqb (string_or_empty (get "namespace" entry)) namespace
  && String.eqb (string_or_empty (get "name" entry)) name.

Notation Entry := (ModelEntrySelection (Attachment := Attachment)).

(** The loop, with [match]; an item that is no object is skipped. *)
Fixpoint entry_scan (namespace name : string) (found : option Entry) (items : list JVal)
    : Res ResolveErr (option Entry) :=
  match items with
  | [] => Ok found
  | item :: items =>
      match as_map (Some item) with
      | None => entry_scan namespace name found items
      | Some entry =>
          if negb (entry_is namespace name entry) then entry_scan namespace name found items else
          match found with
          | Some _ => Err DuplicateModelEntry
          | None =>
              guardrails <- attachments (mkObject [("spec", JObj (entry_spec entry))]) ;;
              entry_scan namespace name
                (Some {| e_Namespace := namespace; e_Name := name; e_Guardrails := guardrails |}) items
          end
      end
  end.

Definition modelEntrySelection (subscription : Object) (namespace name : string) : Res ResolveErr Entry :=
  match NestedSliceE (Fields subscription) ["spec"; "modelRefs"] with
  | Ok (Some items) =>
      found <- entry_scan namespace name None items ;;
      match found with
      | None => Err ModelNotIncluded
      | Some entry => Ok entry
      end
  | _ => Err NoModelEntries
  end.

(** ** Reading a policy *)

(** [aiguardrail.Policy] and its conditions. *)
Record PolicyCondition := { pc_Type : string; pc_Status : bool; ObservedGeneration : Z }.
Record Policy := {
  pol_Namespace : string; pol_Name : string; pol_UID : string; pol_Generation : Z;
  pol_BindingRevision : string; Conditions : list PolicyCondition; pol_Checks : list Check;
}.

Inductive PolicyErr := ErrPolicyNotFound | ErrReadFailure (cause : string).

(** What a cached read reports: the object, its absence or a failure. *)
Inductive GetErr := NotFound | GetFailed (cause : string).
Definition ResourceGetter := string → string → Res GetErr Object.

Fixpoint phases_of (index : nat) (phases : list JVal) : Res string (list string) :=
  match phases with
  | [] => Ok []
  | phase :: phases =>
      match as_string (Some phase) with
      | None => Err "spec.checks phases is invalid"
      | Some value => rest <- phases_of index phases ;; Ok (value :: rest)
      end
  end.

Definition check_of (index : nat) (item : JVal) : Res string Check :=
  match as_map (Some item) with
  | None => Err "spec.checks is invalid"
  | Some entry =>
      let name := string_or_empty (get "name" entry) in
      match as_slice (get "phases" entry) with
      | None => Err "spec.checks is invalid"
      | Some phases =>
          reject "spec.checks is invalid" when String.eqb name "" ;;
          phases <- phases_of index phases ;;
          Ok {| chk_Name := name; SpecIndex := Z.of_nat index; Phases := phases |}
      end
  end.

Fixpoint checks_from (index : nat) (items : list JVal) : Res string (list Check) :=
  match items with
  | [] => Ok []
  | item :: items =>
      c <- check_of index item ;;
      rest <- checks_from (S index) items ;;
      Ok (c :: rest)
  end.

Definition policyChecks (obj : Object) : Res string (list Check) :=
  match NestedSliceE (Fields obj) ["spec"; "checks"] with
  | Ok (Some items) => checks_from 0 items
  | _ => Err "spec.checks is missing"
  end.

Definition condition_of (item : JVal) : Res string PolicyCondition :=
  match as_map (Some item) with
  | None => Err "status.conditions is invalid"
  | Some entry =>
      let conditionType := string_or_empty (get "type" entry) in
      match NestedInt64 entry ["observedGeneration"] with
      | None => Err "status.conditions is invalid"
      | Some observedGeneration =>
          reject "status.conditions is invalid" when String.eqb conditionType "" ;;
          Ok {| pc_Type := conditionType;
                pc_Status := String.eqb (string_or_empty (get "status" entry)) "True";
                ObservedGeneration := observedGeneration |}
      end
  end.

Fixpoint conditions_from (items : list JVal) : Res string (list PolicyCondition) :=
  match items with
  | [] => Ok []
  | item :: items =>
      c <- condition_of item ;;
      rest <- conditions_from items ;;
      Ok (c :: rest)
  end.

Definition policyConditions (obj : Object) : Res string (list PolicyCondition) :=
  found <- NestedSliceE (Fields obj) ["status"; "conditions"] ;;
  match found with
  | None => Ok []
  | Some items => conditions_from items
  end.

(** [GetPolicy] of the reader; a getter that is absent is an API that was
    unavailable when the process started. *)
Definition GetPolicy (getter : option ResourceGetter) (namespace name : string) : Res PolicyErr Policy :=
  match getter with
  | None => Err (ErrReadFailure "AIGuardrail API unavailable at startup")
  | Some get_policy =>
      match get_policy namespace name with
      | Err NotFound => Err ErrPolicyNotFound
      | Err (GetFailed e) => Err (ErrReadFailure e)
      | Ok obj =>
          checks <- map_err ErrReadFailure (policyChecks obj) ;;
          conditions <- map_err ErrReadFailure (policyConditions obj) ;;
          bindingRevision <- map_err ErrReadFailure (NestedStringE (Fields obj) ["status"; "bindingRevision"]) ;;
          Ok {| pol_Namespace := GetNamespace obj; pol_Name := GetName obj; pol_UID := GetUID obj;
                pol_Generation := GetGeneration obj; pol_BindingRevision := default "" bindingRevision;
                Conditions := conditions; pol_Checks := checks |}
      end
  end.

(** ** The resolver *)

Variables GuardrailPhaseInput GuardrailPhaseOutput : string.
(** [aiguardrail.NewAttachmentResolver(reader).Resolve]. *)
Variable AttachmentResolver :
  (string → string → Res PolicyErr Policy) → string → Attachment → Res string ResolvedPolicy.
(** [aiguardrail.CheckID]. *)
Variable CheckID : string → string → string → string.

(** The text of a failed read; the source only wraps it. *)
Definition get_cause (e : GetErr) : string :=
  match e with NotFound => "not found" | GetFailed e => e end.

Record guardrailPlanResolver := {
  tenantNamespace : string;
  tenantName : string;
  tenantGetter : option ResourceGetter;
  tenantConfig : option ResourceGetter;
  policyGetter : option ResourceGetter;
}.

Definition resource_selection (obj : Object) (guardrails : list Attachment) : Selection := {|
  s_Namespace := GetNamespace obj; s_Name := GetName obj; s_UID := GetUID obj;
  s_Guardrails := guardrails |}.

Definition resolve_attachment (r : guardrailPlanResolver) : string → Attachment → Res string ResolvedPolicy :=
  AttachmentResolver (GetPolicy (policyGetter r)).

(** [selected[CheckID(...)] = true] for every check of the plan. *)
Definition selected_map (plan : ExecutionPlan) : gmap string bool :=
  foldl (λ selected check,
    <[CheckID (id_Namespace (sc_Policy check)) (id_Name (sc_Policy check)) (chk_Name (sc_Check check)) := true]>
      selected) ∅ (Checks plan).

Definition SelectedChecks (r : option guardrailPlanResolver) (subscription model : option Object)
    : Res ResolveErr (gmap string bool) :=
  match r with
  | None => Err NotConfigured
  | Some r =>
  match tenantGetter r, tenantConfig r with
  | None, _ | _, None => Err NotConfigured
  | Some getTenant, Some getConfig =>
  match subscription, model with
  | None, _ | _, None => Err ObjectsRequired
  | Some subscription, Some model =>
      tenant <- map_err (TenantUnavailable ∘ get_cause) (getTenant (tenantNamespace r) (tenantName r)) ;;
      match NestedStringE (Fields tenant) ["status"; "tenantNamespace"] with
      | Err _ | Ok None => Err NoTenantNamespace
      | Ok (Some targetNamespace) =>
      reject NoTenantNamespace when String.eqb targetNamespace "" ;;
      reject SubscriptionOutside when negb (String.eqb (GetNamespace subscription) targetNamespace) ;;
      match NestedStringE (Fields model) ["status"; "resolvedTenantRef"] with
      | Err _ | Ok None => Err ModelNotResolved
      | Ok (Some resolvedTenant) =>
      reject ModelNotResolved when negb (String.eqb resolvedTenant (tenantName r)) ;;
      config <- map_err (ConfigUnavailable ∘ get_cause) (getConfig targetNamespace defaultTenantConfigName) ;;
      modelEntry <- modelEntrySelection subscription (GetNamespace model) (GetName model) ;;
      tenantAttachments <- attachments tenant ;;
      tenantConfigAttachments <- attachments config ;;
      subscriptionAttachments <- attachments subscription ;;
      modelAttachments <- attachments model ;;
      plan <- map_err CompositionFailed (snd (ComposeSubscriptionModelPlan
        GuardrailPhaseInput GuardrailPhaseOutput (resolve_attachment r) true targetNamespace
        (Some (resource_selection tenant tenantAttachments))
        (Some (resource_selection config tenantConfigAttachments))
        (Some {| sub_ref := resource_selection subscription subscriptionAttachments;
                 sub_ModelRefs := [modelEntry] |})
        (Some (resource_selection model modelAttachments))
        (GetNamespace model) (GetName model))) ;;
      Ok (selected_map plan)
      end
      end
  end
  end
  end.

End Resolver.
End GuardrailResolver.
