(* ===== verification/GuardrailResolverFacts.v ===== *)
(** * GuardrailResolverFacts: no guardrail of a selected model is lost

    Theorems about [GuardrailResolver]: which attachments the untyped objects
    denote, and that the identifiers handed to the gateway are exactly those of
    the checks of every policy attached to the tenant, its configuration, the
    subscription, the model's entry in it and the model. *)

From S2P Require Import Prelude GoStrings Unstructured Guardrail GuardrailFacts GuardrailResolver.
From Stdlib Require String.
Local Open Scope string_scope.

Module GuardrailResolverFacts.
Import Guardrail GuardrailFacts GuardrailResolver.

Section Facts.
Context `{GR : GoRuntime} `{GA : GuardrailAccess}.

(** ** What an attachment item denotes *)

Definition denotes (item : JVal) (a : Attachment) : Prop :=
  ∃ m ref, item = JObj m ∧ get "ref" m = Some (JObj ref)
    ∧ get "name" ref = Some (JStr (att_Name a)) ∧ att_Name a ≠ ""
    ∧ match get "checks" m with
      | None => att_Checks a = []
      | Some v => v = JArr (map JStr (att_Checks a))
      end.

(** The items under [spec.guardrails]. *)
Definition items (obj : Object) : list JVal :=
  match NestedSliceE (Fields obj) ["spec"; "guardrails"] with Ok (Some l) => l | _ => [] end.

Lemma as_map_some v m : as_map (Some v) = Some m ↔ v = JObj m.
Proof. destruct v; naive_solver. Qed.

Lemma as_slice_some v l : as_slice (Some v) = Some l ↔ v = JArr l.
Proof. destruct v; naive_solver. Qed.

Lemma as_map_get k m r : as_map (get k m) = Some r ↔ get k m = Some (JObj r).
Proof. destruct (get k m) as [[]|]; naive_solver. Qed.

Lemma string_get k m s : string_or_empty (get k m) = s → s ≠ "" → get k m = Some (JStr s).
Proof. unfold string_or_empty. destruct (get k m) as [[]|]; naive_solver. Qed.

Lemma check_names_ok i l names : check_names i l = Ok names → l = map JStr names.
Proof.
  revert names. induction l as [|v l IH]; intros names; cbn [check_names]; [by intros [= <-]|].
  destruct v; try done. cbn [as_string]. intros (rest & ->%IH & [= <-])%res_bind_ok. done.
Qed.

Lemma attachment_of_ok i item a : attachment_of i item = Ok a → denotes item a.
Proof.
  unfold attachment_of. destruct (as_map (Some item)) as [m|] eqn:Em; [|done]. apply as_map_some in Em as ->.
  destruct (as_map (get "ref" m)) as [ref|] eqn:Er; [|done]. apply as_map_get in Er.
  destruct (String.eqb_spec (string_or_empty (get "name" ref)) "") as [|Hn]; [done|].
  pose proof (string_get _ _ _ eq_refl Hn) as Hname.
  destruct (get "checks" m) as [v|] eqn:Ec.
  - destruct (as_slice (Some v)) as [l|] eqn:El; [|done]. apply as_slice_some in El as ->.
    intros (names & Hl%check_names_ok & [= <-])%res_bind_ok. exists m, ref. rewrite Ec. cbn. by rewrite Hl.
  - intros [= <-]. exists m, ref. by rewrite Ec.
Qed.

Lemma attachments_ok obj l : attachments obj = Ok l → Forall2 denotes (items obj) l.
Proof.
  unfold attachments, items. destruct (NestedSliceE _ _) as [[its|]|]; cbn [map_err res_bind]; [| |done].
  - generalize 0%nat. revert l. induction its as [|it its IH]; intros l i; cbn [attachments_from].
    + intros [= <-]. constructor.
    + intros (a & Ha%attachment_of_ok & (rest & Hr & [= <-])%res_bind_ok)%res_bind_ok.
      constructor; [done|]. by eapply IH.
  - intros [= <-]. constructor.
Qed.

(** ** The entry of the model *)

(** The entries of a subscription that name the model. *)
Definition model_entries (subscription : Object) (namespace name : string) : list JMap :=
  match NestedSliceE (Fields subscription) ["spec"; "modelRefs"] with
  | Ok (Some l) => filter (λ entry, entry_is namespace name entry = true) (maps_of l)
  | _ => []
  end.

(** The object whose [spec.guardrails] are those of an entry. *)
Definition entry_object (entry : JMap) : Object := mkObject [("spec", JObj (entry_spec entry))].

Lemma maps_of_cons v l :
  maps_of (v :: l) = match as_map (Some v) with Some m => m :: maps_of l | None => maps_of l end.
Proof. done. Qed.

Lemma entry_scan_found namespace name e l r :
  entry_scan namespace name (Some e) l = Ok r →
  r = Some e ∧ filter (λ entry, entry_is namespace name entry = true) (maps_of l) = [].
Proof.
  revert r. induction l as [|v l IH]; intros r; cbn [entry_scan]; [by intros [= <-]|].
  rewrite maps_of_cons. destruct (as_map (Some v)) as [m|]; [|apply IH].
  destruct (entry_is namespace name m) eqn:E; [done|]. intros [-> Hf]%IH. split; [done|].
  rewrite filter_cons_False by congruence. exact Hf.
Qed.

Lemma entry_scan_none namespace name l e :
  entry_scan namespace name None l = Ok (Some e) →
  ∃ entry, filter (λ entry, entry_is namespace name entry = true) (maps_of l) = [entry]
    ∧ e_Namespace e = namespace ∧ e_Name e = name ∧ attachments (entry_object entry) = Ok (e_Guardrails e).
Proof.
  induction l as [|v l IH]; cbn [entry_scan]; [done|].
  rewrite maps_of_cons. destruct (as_map (Some v)) as [m|]; [|apply IH].
  destruct (entry_is namespace name m) eqn:E; cbn [negb].
  - intros (gs & Hgs & [He Hf]%entry_scan_found)%res_bind_ok. injection He as ->. exists m.
    rewrite filter_cons_True by done. by rewrite Hf.
  - intros (entry & Hf & ?)%IH. exists entry. rewrite filter_cons_False by congruence. done.
Qed.

Lemma model_entry_ok subscription namespace name e :
  modelEntrySelection subscription namespace name = Ok e →
  ∃ entry, model_entries subscription namespace name = [entry]
    ∧ e_Namespace e = namespace ∧ e_Name e = name ∧ attachments (entry_object entry) = Ok (e_Guardrails e).
Proof.
  unfold modelEntrySelection, model_entries. destruct (NestedSliceE _ _) as [[l|]|]; [|done..].
  intros ([?|] & Hs & [= <-])%res_bind_ok. by apply entry_scan_none.
Qed.

(** ** The selected checks *)

Variables phaseIn phaseOut : string.
Variable AttachmentResolver : (string → string → Res PolicyErr Policy) → string → Attachment → Res string ResolvedPolicy.
Variable CheckID : string → string → string → string.
Notation selected := (selected_map CheckID).
Notation check_id p c := (CheckID (rp_Namespace p) (rp_Name p) (chk_Name c)).
Definition sc_id (sc : SelectedCheck) : string :=
  CheckID (id_Namespace (sc_Policy sc)) (id_Name (sc_Policy sc)) (chk_Name (sc_Check sc)).

Lemma selected_map_lookup plan id b :
  selected plan !! id = Some b ↔ b = true ∧ ∃ sc, sc ∈ Checks plan ∧ sc_id sc = id.
Proof.
  unfold selected_map. destruct plan as [l]; cbn [Checks].
  induction l as [|sc l IH] using rev_ind; [cbn; rewrite lookup_empty; set_solver|].
  rewrite foldl_app. cbn [foldl]. rewrite lookup_insert_Some, IH. setoid_rewrite elem_of_app.
  setoid_rewrite list_elem_of_singleton. unfold sc_id at 2.
  destruct (decide (sc_id sc = id)) as [<-|Hne]; unfold sc_id in *; naive_solver.
Qed.

(** The objects whose attachments bear on a pair, with the namespace their
    policies are read from. *)
Definition scopes (target : string) (tenant config subscription : Object) (entry : JMap) (model : Object)
    : list (string * Object) :=
  [(target, tenant); (target, config); (target, subscription); (target, entry_object entry);
   (GetNamespace model, model)].

(** An item of one of the scopes. *)
Definition scope_items (l : list (string * Object)) : list (string * JVal) :=
  flat_map (λ sc, map (pair sc.1) (items sc.2)) l.

Lemma scope_items_elem l ns item :
  (ns, item) ∈ scope_items l ↔ ∃ obj, (ns, obj) ∈ l ∧ item ∈ items obj.
Proof.
  unfold scope_items. rewrite list_elem_of_In, in_flat_map. setoid_rewrite in_map_iff.
  setoid_rewrite <- list_elem_of_In. split.
  - intros ([ns' obj] & Hl & (? & [= <- <-] & ?)). by exists obj.
  - intros (obj & Hl & Hi). exists (ns, obj). split; [done|]. by exists item.
Qed.

(** Every item of the five scopes denotes an attachment of the composition. *)
Lemma bearing_items target tenant config subscription entry model ta ca sa ea ma mentry sub :
  attachments tenant = Ok ta → attachments config = Ok ca → attachments subscription = Ok sa →
  attachments (entry_object entry) = Ok ea → attachments model = Ok ma →
  e_Guardrails mentry = ea → sub_ref sub = resource_selection subscription sa →
  Forall2 (λ x a, x.1 = a.1 ∧ denotes x.2 a.2)
    (scope_items (scopes target tenant config subscription entry model))
    (bearing target (resource_selection tenant ta) (resource_selection config ca) sub mentry
       (resource_selection model ma)).
Proof.
  intros Ht%attachments_ok Hc%attachments_ok Hs%attachments_ok He%attachments_ok Hm%attachments_ok <- Hsub.
  unfold bearing, scopes, scope_items. rewrite Hsub. cbn [flat_map s_Guardrails s_Namespace resource_selection fst snd].
  rewrite app_nil_r, !map_app, <- !app_assoc.
  repeat apply Forall2_app; apply Forall2_fmap_2; (eapply Forall2_impl; [eassumption|done]).
Qed.

(** ** Composition over the items *)

Section Composed.
Variables (r : guardrailPlanResolver) (target : string) (tenant config s : Object) (entry : JMap) (m : Object).
Variables (e : ModelEntrySelection (Attachment := Attachment)) (ta ca sa ma : list Attachment).
Hypothesis Hta : attachments tenant = Ok ta.
Hypothesis Hca : attachments config = Ok ca.
Hypothesis Hsa : attachments s = Ok sa.
Hypothesis Hea : attachments (entry_object entry) = Ok (e_Guardrails e).
Hypothesis Hma : attachments m = Ok ma.
Variables (key : option SubscriptionModelKey) (plan : ExecutionPlan).
Notation resolve := (resolve_attachment AttachmentResolver r).
Notation sub := {| sub_ref := resource_selection s sa; sub_ModelRefs := [e] |}.
Hypothesis Hplan : ComposeSubscriptionModelPlan phaseIn phaseOut resolve true target
  (Some (resource_selection tenant ta)) (Some (resource_selection config ca)) (Some sub)
  (Some (resource_selection m ma)) (GetNamespace m) (GetName m) = (key, Ok plan).
Notation all_items := (scope_items (scopes target tenant config s entry m)).
Notation all_bearing := (bearing target (resource_selection tenant ta) (resource_selection config ca) sub e
  (resource_selection m ma)).

Lemma all_items_denote : Forall2 (λ x a, x.1 = a.1 ∧ denotes x.2 a.2) all_items all_bearing.
Proof. by eapply bearing_items. Qed.

(** The entry that composition finds is the one it was given. *)
Lemma only_entry : filter (λ ref, entry_matches (GetNamespace m) (GetName m) ref = true) [e] = [e].
Proof.
  destruct (composed_shape _ _ _ _ _ _ _ _ _ _ _ _ Hplan) as (_ & _ & e' & sels & He' & _).
  cbn [sub_ModelRefs] in He'. rewrite He'. f_equal.
  assert (H : e' ∈ filter (λ ref, entry_matches (GetNamespace m) (GetName m) ref = true) [e])
    by (rewrite He'; by left).
  apply list_elem_of_filter in H as [_ H]. by apply list_elem_of_singleton in H.
Qed.

Lemma composed_selects ns item :
  (ns, item) ∈ all_items →
  ∃ a p, denotes item a ∧ resolve ns a = Ok p ∧ ∀ c, c ∈ rp_Checks p → selected plan !! check_id p c = Some true.
Proof.
  intros (i & Hi)%list_elem_of_lookup.
  destruct (Forall2_lookup_l _ _ _ _ _ all_items_denote Hi) as ([ns' a] & Ha & [Hns Hd]). cbn in Hns, Hd. subst ns'.
  pose proof (composed_plan_complete _ _ _ _ _ _ _ _ _ _ _ _ Hplan) as (_ & _ & e' & He' & Hall).
  cbn [sub_ModelRefs] in He'. rewrite only_entry in He'. injection He' as <-.
  destruct (Hall (ns, a)) as (p & Hp & Hchecks); [by eapply list_elem_of_lookup_2|].
  exists a, p. split_and!; [done..|]. intros c Hc. destruct (Hchecks c Hc) as (sc & Hsc & Hpol & Hn).
  apply selected_map_lookup. split; [done|]. exists sc. split; [done|].
  unfold sc_id. rewrite Hpol. cbn. by destruct (normalized_fields _ _ _ _ Hn) as [-> _].
Qed.

Lemma composed_selected_only sc :
  sc ∈ Checks plan →
  ∃ ns item a p c, (ns, item) ∈ all_items ∧ denotes item a ∧ resolve ns a = Ok p ∧ c ∈ rp_Checks p
    ∧ sc_id sc = check_id p c.
Proof.
  intros Hsc.
  destruct (composed_plan_sound _ _ _ _ _ _ _ _ _ _ _ _ _ _ Hplan only_entry Hsc)
    as ([ns a] & p & c & Ha & Hp & Hc & Hpol & Hname).
  apply list_elem_of_lookup in Ha as (i & Hi).
  destruct (Forall2_lookup_r _ _ _ _ _ all_items_denote Hi) as ([ns' item] & Hx & [Hns Hd]). cbn in Hns, Hd. subst ns'.
  exists ns, item, a, p, c. split_and!; [by eapply list_elem_of_lookup_2|done..|].
  unfold sc_id. by rewrite Hpol, Hname.
Qed.

End Composed.

Notation run := (SelectedChecks phaseIn phaseOut AttachmentResolver CheckID).

(** What a successful resolution has read. *)
Lemma selected_checks_inv r subscription model sel :
  run (Some r) subscription model = Ok sel →
  ∃ s m getTenant getConfig tenant config target e ta ca sa ma key plan,
    subscription = Some s ∧ model = Some m ∧ tenantGetter r = Some getTenant ∧ tenantConfig r = Some getConfig
    ∧ getTenant (tenantNamespace r) (tenantName r) = Ok tenant
    ∧ NestedStringE (Fields tenant) ["status"; "tenantNamespace"] = Ok (Some target) ∧ target ≠ ""
    ∧ GetNamespace s = target
    ∧ NestedStringE (Fields m) ["status"; "resolvedTenantRef"] = Ok (Some (tenantName r))
    ∧ getConfig target defaultTenantConfigName = Ok config
    ∧ modelEntrySelection s (GetNamespace m) (GetName m) = Ok e
    ∧ attachments tenant = Ok ta ∧ attachments config = Ok ca ∧ attachments s = Ok sa ∧ attachments m = Ok ma
    ∧ ComposeSubscriptionModelPlan phaseIn phaseOut (resolve_attachment AttachmentResolver r) true target
        (Some (resource_selection tenant ta)) (Some (resource_selection config ca))
        (Some {| sub_ref := resource_selection s sa; sub_ModelRefs := [e] |}) (Some (resource_selection m ma))
        (GetNamespace m) (GetName m) = (key, Ok plan)
    ∧ sel = selected plan.
Proof.
  unfold SelectedChecks. destruct (tenantGetter r) as [getTenant|], (tenantConfig r) as [getConfig|]; try done.
  destruct subscription as [s|], model as [m|]; try done.
  intros (tenant & Htenant%map_err_ok & H)%res_bind_ok.
  destruct (NestedStringE (Fields tenant) _) as [[target|]|] eqn:Et; try done.
  destruct (String.eqb_spec target "") as [|Hne]; [done|].
  destruct (String.eqb_spec (GetNamespace s) target) as [Hs|]; [|done]. cbn [negb] in H.
  destruct (NestedStringE (Fields m) _) as [[ref|]|] eqn:Em; try done.
  destruct (String.eqb_spec ref (tenantName r)) as [->|]; [|done]. cbn [negb] in H.
  apply res_bind_ok in H as (config & Hconfig%map_err_ok & H).
  apply res_bind_ok in H as (e & He & H). apply res_bind_ok in H as (ta & Hta & H).
  apply res_bind_ok in H as (ca & Hca & H). apply res_bind_ok in H as (sa & Hsa & H).
  apply res_bind_ok in H as (ma & Hma & H). apply res_bind_ok in H as (plan & Hplan%map_err_ok & [= <-]).
  destruct (ComposeSubscriptionModelPlan _ _ _ _ _ _ _ _ _ _ _) as [key res] eqn:Ec. cbn [snd] in Hplan. subst res.
  do 14 eexists. split_and!; done.
Qed.

(** C4 No guardrail of a selected model is lost.  The gateway is handed check
    identifiers only when the AITenant and its configuration were read, the
    subscription lies in the tenant's namespace, the model is resolved to the
    tenant and the subscription lists the model exactly once.  Then every item
    attached to the tenant, its configuration, the subscription, the model's
    entry or the model denotes an attachment that resolves to a policy, each of
    whose checks is selected; and nothing else is selected. *)
Theorem selected_checks_exact r subscription model sel :
  run (Some r) subscription model = Ok sel →
  ∃ s m getTenant getConfig tenant config target entry,
    subscription = Some s ∧ model = Some m ∧ tenantGetter r = Some getTenant ∧ tenantConfig r = Some getConfig
    ∧ getTenant (tenantNamespace r) (tenantName r) = Ok tenant
    ∧ NestedStringE (Fields tenant) ["status"; "tenantNamespace"] = Ok (Some target) ∧ target ≠ ""
    ∧ GetNamespace s = target
    ∧ NestedStringE (Fields m) ["status"; "resolvedTenantRef"] = Ok (Some (tenantName r))
    ∧ getConfig target defaultTenantConfigName = Ok config
    ∧ model_entries s (GetNamespace m) (GetName m) = [entry]
    ∧ (∀ ns obj item, (ns, obj) ∈ scopes target tenant config s entry m → item ∈ items obj →
        ∃ a p, denotes item a ∧ resolve_attachment AttachmentResolver r ns a = Ok p
          ∧ ∀ c, c ∈ rp_Checks p → sel !! check_id p c = Some true)
    ∧ (∀ id b, sel !! id = Some b → b = true
        ∧ ∃ ns obj item a p c, (ns, obj) ∈ scopes target tenant config s entry m ∧ item ∈ items obj
            ∧ denotes item a ∧ resolve_attachment AttachmentResolver r ns a = Ok p
            ∧ c ∈ rp_Checks p ∧ id = check_id p c).
Proof.
  intros (s & m & getTenant & getConfig & tenant & config & target & e & ta & ca & sa & ma & key & plan & Hs & Hm
    & Hgt & Hgc & Ht & Htn & Hne & Hsn & Href & Hc & (entry & Hentry & Hens & Hen & Hea)%model_entry_ok
    & Hta & Hca & Hsa & Hma & Hplan & ->)%selected_checks_inv.
  exists s, m, getTenant, getConfig, tenant, config, target, entry. split_and!; [done..| |].
  - intros ns obj item Hsc Hitem.
    apply (composed_selects r target tenant config s entry m e ta ca sa ma Hta Hca Hsa Hea Hma key plan Hplan).
    apply scope_items_elem. by exists obj.
  - intros id b [-> (sc & Hsc & <-)]%selected_map_lookup. split; [done|].
    destruct (composed_selected_only r target tenant config s entry m e ta ca sa ma Hta Hca Hsa Hea Hma key plan
      Hplan sc Hsc) as (ns & item & a & p & c & (obj & ? & ?)%scope_items_elem & ?).
    by exists ns, obj, item, a, p, c.
Qed.

End Facts.
(** ** A concrete resolution

    A policy attached to the tenant and one attached to the model's entry, the
    second restricted to one check. *)

Section Demo.
#[local] Existing Instance documented_guardrail_access.
#[local] Existing Instance reference_runtime.

Definition meta (ns name : string) : string * JVal :=
  ("metadata", JObj [("namespace", JStr ns); ("name", JStr name); ("uid", JStr "u"); ("generation", JInt 1)]).
Definition attach (name : string) (checks : list (string * JVal)) : JVal :=
  JObj (("ref", JObj [("name", JStr name)]) :: checks).
Definition demo_tenant : Object := mkObject
  [meta "ai" "acme"; ("spec", JObj [("guardrails", JArr [attach "pii" []])]);
   ("status", JObj [("tenantNamespace", JStr "acme-ns")])].
Definition demo_config : Object := mkObject [meta "acme-ns" defaultTenantConfigName].
Definition demo_entry : JMap :=
  [("namespace", JStr "llm"); ("name", JStr "granite");
   ("guardrails", JArr [attach "abuse" [("checks", JArr [JStr "toxic"])]])].
Definition demo_gold : Object := mkObject
  [meta "acme-ns" "gold"; ("spec", JObj [("modelRefs", JArr [JNull; JObj demo_entry])])].
Definition demo_model : Object := mkObject
  [meta "llm" "granite"; ("status", JObj [("resolvedTenantRef", JStr "acme")])].
Definition policy_object (name : string) (checks : list string) : Object := mkObject
  [meta "acme-ns" name;
   ("spec", JObj [("checks", JArr (map (λ c, JObj [("name", JStr c); ("phases", JArr [JStr "input"])]) checks))]);
   ("status", JObj [("bindingRevision", JStr "r1")])].

Definition demo_policies : ResourceGetter := λ ns name,
  if negb (String.eqb ns "acme-ns") then Err NotFound else
  if String.eqb name "pii" then Ok (policy_object "pii" ["ssn"; "card"])
  else if String.eqb name "abuse" then Ok (policy_object "abuse" ["spam"; "toxic"])
  else Err NotFound.
(** A resolver that keeps the selected checks of a policy. *)
Definition demo_attachments (read : string → string → Res PolicyErr Policy) (ns : string) (a : Attachment)
    : Res string ResolvedPolicy :=
  match read ns (att_Name a) with
  | Err _ => Err "policy unavailable"
  | Ok p => Ok {| rp_Namespace := pol_Namespace p; rp_Name := pol_Name p; rp_UID := pol_UID p;
                  rp_Generation := pol_Generation p; rp_BindingRevision := pol_BindingRevision p;
                  rp_Checks := filter (λ c, bool_decide (att_Checks a = []) || bool_decide (chk_Name c ∈ att_Checks a) = true)
                                 (pol_Checks p) |}
  end.
Definition demo_check_id (ns name check : string) : string := ns +:+ "/" +:+ name +:+ "#" +:+ check.
Definition demo_resolver (policies : option ResourceGetter) : guardrailPlanResolver := {|
  tenantNamespace := "ai"; tenantName := "acme";
  tenantGetter := Some (λ _ _, Ok demo_tenant); tenantConfig := Some (λ _ _, Ok demo_config);
  policyGetter := policies |}.
Definition demo_run (policies : option ResourceGetter) : Res ResolveErr (gmap string bool) :=
  SelectedChecks "input" "output" demo_attachments demo_check_id (Some (demo_resolver policies))
    (Some demo_gold) (Some demo_model).

Example demo_selected :
  res_map (λ sel, map fst (map_to_list sel)) (demo_run (Some demo_policies))
  = Ok ["acme-ns/abuse#toxic"; "acme-ns/pii#ssn"; "acme-ns/pii#card"].
Proof. vm_compute. reflexivity. Qed.

Example demo_unavailable :
  demo_run None = Err (CompositionFailed (ResolveFailed "policy unavailable")).
Proof. vm_compute. reflexivity. Qed.

Lemma selected_checks_exact_witness :
  ∃ sel, demo_run (Some demo_policies) = Ok sel ∧ sel !! "acme-ns/abuse#toxic" = Some true.
Proof.
  destruct (demo_run (Some demo_policies)) as [sel|] eqn:E; [|by vm_compute in E].
  exists sel. split; [done|].
  destruct (selected_checks_exact "input" "output" demo_attachments demo_check_id _ _ _ _ E)
    as (s & m & gt & gc & tenant & config & target & entry & Hs & Hm & Hgt & Hgc & Ht & Htn & _ & _ & _ & Hc
        & Hentry & Hall & _).
  injection Hs as <-. injection Hm as <-. injection Hgt as <-. injection Hgc as <-.
  injection Ht as <-. injection Hc as <-. cbv in Htn. injection Htn as <-. cbv in Hentry. injection Hentry as <-.
  destruct (Hall "acme-ns" (entry_object demo_entry) (attach "abuse" [("checks", JArr [JStr "toxic"])]))
    as ([name checks] & p & (ma & ref & [= <-] & [= <-] & [= <-] & _ & Hck) & Hp & Hsel);
    [do 3 apply list_elem_of_further; apply list_elem_of_here|apply list_elem_of_here|].
  change (JArr [JStr "toxic"] = JArr (map JStr checks)) in Hck.
  destruct checks as [|c [|]]; [discriminate Hck| |discriminate Hck]. injection Hck as <-.
  injection Hp as <-.
  apply (Hsel {| chk_Name := "toxic"; SpecIndex := 1; Phases := ["input"] |}). apply list_elem_of_here.
Defined.

End Demo.
End GuardrailResolverFacts.
