(* ===== verification/RateTier.v ===== *)
(** * RateTier: the limits of a model's TokenRateLimitPolicy and the phase of a subscription

    Models, of [maas-controller/pkg/controller/maas]: the validation of a token
    rate limit, the rates of a model reference and the derivation of the final
    phase ([maassubscription_controller.go]), the collection of the
    subscriptions of one model (the loop of [reconcileTRLPForModel]), and
    [ratetier.go], which groups the subscriptions with equal rates into one
    limit.  A rate map [{"limit": n, "window": w}] is the record [TokenRate]:
    [modelRefTokenRates] is the only place that builds one, so the type
    assertions of [canonicalizeRates] always succeed.  A Go panic (indexing an
    empty member list) is [None]. *)

From S2P Require Import Prelude GoStrings Sha256 RateLimitId.
From Stdlib Require String.
Local Open Scope string_scope.

Module RateTier.

(** ** Data *)

Record TokenRate := { Limit : Z; Window : string }.
(** No checks attaches all of the policy. *)
Record GuardrailAttachment := { at_Name : string; at_Checks : list string }.
Record ModelSubscriptionRef := {
  mr_Name : string; mr_Namespace : string; TokenRateLimits : list TokenRate; Unlimited : bool;
  mr_Guardrails : list GuardrailAttachment;
}.
Record MaaSSubscription := {
  sub_Namespace : string; sub_Name : string; ModelRefs : list ModelSubscriptionRef;
  sub_Meta : Controller.SubMeta;
}.
Record subInfo := {
  subNamespace : string; subName : string; rates : list TokenRate; unlimited : bool;
  modelScoped : string; groupKey : string; legacy : bool;
}.
(** A limit of the policy's [limits] map; [None] rates are an absent key. *)
Record PolicyLimit := {
  pl_rates : option (list TokenRate); pl_predicate : string; pl_counters : list string;
}.

#[export] Instance TokenRate_eq_dec : EqDecision TokenRate.
Proof. solve_decision. Defined.
#[export] Instance PolicyLimit_eq_dec : EqDecision PolicyLimit.
Proof. solve_decision. Defined.

(** ** Validation of a rate *)

Definition maxTokenRateLimit : Z := 1000000000.
Definition maxWindowSeconds : Z := 366 * 24 * 3600.

Inductive RateErr :=
| ErrLimitNotPositive | ErrLimitTooLarge | ErrWindowFormat | ErrWindowValue | ErrWindowTooLong
| ErrNoTokenBudget.

Definition is_digit (c : ascii) : bool := in_range 48 57 c.
Definition is_unit (c : ascii) : bool :=
  Ascii.eqb c "s" || Ascii.eqb c "m" || Ascii.eqb c "h".

(** [windowPattern]: a non-zero digit, at most three more digits, one unit.
    The result is the text before the unit and the unit. *)
Fixpoint match_tail (n : nat) (s : string) : option (string * ascii) :=
  match s with
  | String c r =>
      if is_unit c then (if String.eqb r "" then Some ("", c) else None) else
      match n with
      | S n' => if is_digit c
                then match match_tail n' r with
                     | Some (num, u) => Some (String c num, u)
                     | None => None
                     end
                else None
      | O => None
      end
  | EmptyString => None
  end.
Definition windowPattern (s : string) : option (string * ascii) :=
  match s with
  | String c r =>
      if in_range 49 57 c
      then match match_tail 3 r with
           | Some (num, u) => Some (String c num, u)
           | None => None
           end
      else None
  | EmptyString => None
  end.

(** [strconv.ParseInt(s, 10, 64)] on a string of digits. *)
Fixpoint parse_digits (acc : Z) (s : string) : option Z :=
  match s with
  | EmptyString => if (acc <=? int64_max)%Z then Some acc else None
  | String c r => if is_digit c then parse_digits (acc * 10 + (byte_of c - 48)) r else None
  end.

Definition window_seconds (unit : ascii) (value : Z) : Z :=
  if Ascii.eqb unit "s" then value
  else if Ascii.eqb unit "m" then wrap64 (value * 60)
  else if Ascii.eqb unit "h" then wrap64 (value * 3600)
  else 0.

Definition validateTokenRateLimit (limit : Z) (window : string) : Res RateErr unit :=
  reject ErrLimitNotPositive when (limit <=? 0)%Z ;;
  reject ErrLimitTooLarge when (maxTokenRateLimit <? limit)%Z ;;
  match windowPattern window with
  | None => Err ErrWindowFormat
  | Some (numStr, unit) =>
      match parse_digits 0 numStr with
      | None => Err ErrWindowValue
      | Some value =>
          reject ErrWindowTooLong when (maxWindowSeconds <? window_seconds unit value)%Z ;; Ok tt
      end
  end.

(** [modelRefTokenRates]: the rates, or [unlimited]. *)
Definition modelRefTokenRates (mRef : ModelSubscriptionRef) : Res RateErr (list TokenRate * bool) :=
  match TokenRateLimits mRef with
  | [] => if Unlimited mRef then Ok ([], true) else Err ErrNoTokenBudget
  | trls =>
      rs <- fold_res (λ acc trl,
              _ <- validateTokenRateLimit (Limit trl) (Window trl) ;; Ok (acc ++ [trl])%list) [] trls ;;
      Ok (rs, false)
  end.

(** ** Canonical rates *)

Definition rate_key (r : TokenRate) : string := format_int (Limit r) +:+ "/" +:+ Window r.

Definition canon_step (st : gmap string TokenRate * list string) (r : TokenRate) :=
  let '(byKey, keys) := st in
  let key := rate_key r in
  match byKey !! key with
  | Some _ => (byKey, keys)
  | None => (<[key := r]> byKey, (keys ++ [key])%list)
  end.

(** The canonical list reads [byKey] at the sorted keys, which are all present. *)
Definition canonicalizeRates (rs : list TokenRate) : string * list TokenRate :=
  let '(byKey, keys) := fold_left canon_step rs (∅, []) in
  let keys := sort_strings keys in
  (join "," keys, omap (λ k, byKey !! k) keys).

Definition rateGroupKey (rs : list TokenRate) : string := fst (canonicalizeRates rs).
Definition canonicalRates (rs : list TokenRate) : list TokenRate := snd (canonicalizeRates rs).

(** [strings.NewReplacer("/", "-per-", ",", "-").Replace]. *)
Fixpoint replace_slashes (s : string) : string :=
  match s with
  | EmptyString => EmptyString
  | String c r =>
      if Ascii.eqb c "/" then "-per-" +:+ replace_slashes r
      else if Ascii.eqb c "," then String "-" (replace_slashes r)
      else String c (replace_slashes r)
  end.
Definition rateGroupLimitName (key : string) : string := "tokens-" +:+ replace_slashes key.

(** ** The limits of one policy *)

Definition quote : string := String "034" "".
Definition subscriptionSelectClause (si : subInfo) : string :=
  if legacy si
  then "auth.identity.selected_subscription_key == " +:+ quote +:+ modelScoped si +:+ quote
  else "auth.identity.selected_subscription_id == " +:+ quote
         +:+ Controller.SubscriptionRateLimitID (modelScoped si) +:+ quote.
Definition subscriptionCounterExpression (legacy : bool) : string :=
  if legacy then "auth.identity.selected_subscription_key"
  else "auth.identity.selected_subscription_id".

(** The exemption of the model listing. *)
Definition models_exempt : string :=
  " && !request.path.endsWith(" +:+ quote +:+ "/v1/models" +:+ quote +:+ ")".

Definition buildGroupLimit (members : list subInfo) : option PolicyLimit :=
  let clauses := sort_strings (map subscriptionSelectClause members) in
  match clauses, members with
  | c0 :: rest, m0 :: _ =>
      let predicate :=
        match rest with [] => c0 | _ => "(" +:+ join " || " clauses +:+ ")" end in
      Some {| pl_rates := Some (canonicalRates (rates m0));
              pl_predicate := predicate +:+ models_exempt;
              pl_counters := [subscriptionCounterExpression (legacy m0); "auth.identity.userid"] |}
  | _, _ => None
  end.

Definition unlimitedLimitName : string := "tokens-unlimited".
Definition unlimitedTokenLimit (members : list subInfo) : PolicyLimit :=
  let matches := sort_strings (map subscriptionSelectClause members) in
  {| pl_rates := None;
     pl_predicate := "(" +:+ join " || " matches +:+ ")" +:+ models_exempt;
     pl_counters := [] |}.

Definition addRateGroupLimits (limitsMap : gmap string PolicyLimit) (key : string)
    (members : list subInfo) : option (gmap string PolicyLimit) :=
  let short := filter (λ m, legacy m = false) members in
  let legacys := filter (λ m, legacy m = true) members in
  let name := rateGroupLimitName key in
  match short, legacys with
  | _ :: _, _ :: _ =>
      l ← buildGroupLimit legacys; s ← buildGroupLimit short;
      Some (<[name +:+ "-id" := s]> (<[name := l]> limitsMap))
  | [], _ :: _ => l ← buildGroupLimit legacys; Some (<[name := l]> limitsMap)
  | _ :: _, [] => s ← buildGroupLimit short; Some (<[name := s]> limitsMap)
  | [], [] => Some limitsMap
  end.

Definition qualifiedName (namespace name : string) : string :=
  if String.eqb namespace "" then name else namespace +:+ "/" +:+ name.

(** The variables of the first loop of [buildGroupedLimits]. *)
Record GroupState := {
  byGroup : gmap string (list subInfo); groupKeys : list string;
  seenSub : gset string; subNames : list string; unlimitedSubs : list subInfo;
}.
Definition group_init : GroupState :=
  {| byGroup := ∅; groupKeys := []; seenSub := ∅; subNames := []; unlimitedSubs := [] |}.

Definition group_step (st : GroupState) (si : subInfo) : GroupState :=
  let name := qualifiedName (subNamespace si) (subName si) in
  let seen := bool_decide (name ∈ seenSub st) in
  let seenSub' := if seen then seenSub st else {[name]} ∪ seenSub st in
  let subNames' := if seen then subNames st else (subNames st ++ [name])%list in
  if unlimited si
  then {| byGroup := byGroup st; groupKeys := groupKeys st; seenSub := seenSub';
          subNames := subNames'; unlimitedSubs := (unlimitedSubs st ++ [si])%list |}
  else {| byGroup := <[groupKey si := (default [] (byGroup st !! groupKey si) ++ [si])%list]> (byGroup st);
          groupKeys := match byGroup st !! groupKey si with
                       | Some _ => groupKeys st
                       | None => (groupKeys st ++ [groupKey si])%list
                       end;
          seenSub := seenSub'; subNames := subNames'; unlimitedSubs := unlimitedSubs st |}.

Fixpoint add_groups (limitsMap : gmap string PolicyLimit) (grp : gmap string (list subInfo))
    (keys : list string) : option (gmap string PolicyLimit) :=
  match keys with
  | [] => Some limitsMap
  | key :: keys' =>
      limitsMap' ← addRateGroupLimits limitsMap key (default [] (grp !! key));
      add_groups limitsMap' grp keys'
  end.

Definition buildGroupedLimits (subs : list subInfo)
    : option (gmap string PolicyLimit * list string) :=
  let st := fold_left group_step subs group_init in
  limitsMap ← add_groups ∅ (byGroup st) (sort_strings (groupKeys st));
  Some (match unlimitedSubs st with
        | [] => limitsMap
        | us => <[unlimitedLimitName := unlimitedTokenLimit us]> limitsMap
        end, sort_strings (subNames st)).

(** ** The subscriptions of one model *)

Section Collect.
Variable rateLimitIdentityEpoch : Z.

(** The inner loop over the model references: references to other models and
    references with an invalid budget are skipped, the first valid one is used. *)
Fixpoint sub_info_of (sub : MaaSSubscription) (modelNamespace modelName : string)
    (refs : list ModelSubscriptionRef) : option subInfo :=
  match refs with
  | [] => None
  | mRef :: refs' =>
      if negb (String.eqb (mr_Namespace mRef) modelNamespace)
         || negb (String.eqb (mr_Name mRef) modelName)
      then sub_info_of sub modelNamespace modelName refs'
      else match modelRefTokenRates mRef with
           | Err _ => sub_info_of sub modelNamespace modelName refs'
           | Ok (rs, unl) => Some {|
               subNamespace := sub_Namespace sub; subName := sub_Name sub;
               rates := rs; unlimited := unl;
               modelScoped := Controller.ModelScopedSubscriptionKey (sub_Namespace sub)
                                (sub_Name sub) (mr_Namespace mRef) (mr_Name mRef);
               groupKey := rateGroupKey rs;
               legacy := String.eqb
                 (Controller.classifiedRateLimitIdentity rateLimitIdentityEpoch (Some (sub_Meta sub)))
                 Controller.RateLimitIdentityLegacy |}
           end
  end.

Definition collect_subs (modelNamespace modelName : string) (allSubs : list MaaSSubscription)
    : list subInfo :=
  omap (λ sub, sub_info_of sub modelNamespace modelName (ModelRefs sub)) allSubs.
End Collect.

(** ** The phase of a subscription *)

Inductive Phase := PhaseActive | PhaseDegraded | PhaseFailed.
#[export] Instance Phase_eq_dec : EqDecision Phase.
Proof. solve_decision. Defined.

Inductive Reason :=
| ReasonValid | ReasonNotFound | ReasonGetFailed | ReasonBackendNotReady | ReasonOther (r : string).
#[export] Instance Reason_eq_dec : EqDecision Reason.
Proof. solve_decision. Defined.

Record ModelRefStatus := {
  ms_Name : string; ms_Namespace : string; ms_Ready : bool; ms_Reason : Reason; ms_Message : string;
}.
Record TRLPStatus := {
  ts_Name : string; ts_Namespace : string; ts_Ready : bool; ts_Reason : Reason; ts_Message : string;
  ts_Model : string;
}.

(** The loop of [Reconcile] that corrects stale model statuses; the map key is
    [namespace/name] and a later status overwrites an earlier one. *)
Definition backend_not_ready (trlpStatuses : list TRLPStatus) : gmap string string :=
  fold_left (λ m ts,
    if bool_decide (ts_Reason ts = ReasonBackendNotReady)
    then <[ts_Namespace ts +:+ "/" +:+ ts_Model ts := ts_Message ts]> m else m) trlpStatuses ∅.

Definition correct_stale (trlpStatuses : list TRLPStatus) (modelStatuses : list ModelRefStatus)
    : list ModelRefStatus :=
  map (λ s,
    if ms_Ready s
    then match backend_not_ready trlpStatuses !! (ms_Namespace s +:+ "/" +:+ ms_Name s) with
         | Some msg => {| ms_Name := ms_Name s; ms_Namespace := ms_Namespace s; ms_Ready := false;
                          ms_Reason := ReasonNotFound; ms_Message := msg |}
         | None => s
         end
    else s) modelStatuses.

Record ModelCounts := { validModelSet : gset string; validModels : Z; invalidModels : Z }.
Definition count_model (c : ModelCounts) (s : ModelRefStatus) : ModelCounts :=
  if ms_Ready s
  then {| validModelSet := {[ms_Name s]} ∪ validModelSet c; validModels := validModels c + 1;
          invalidModels := invalidModels c |}
  else {| validModelSet := validModelSet c; validModels := validModels c;
          invalidModels := invalidModels c + 1 |}.

Record TRLPCounts := { healthyTRLPs : Z; unhealthyTRLPs : Z; modelsWithBackendIssues : Z }.
Definition count_trlp (valid : gset string) (c : TRLPCounts) (s : TRLPStatus) : TRLPCounts :=
  if ts_Ready s
  then {| healthyTRLPs := healthyTRLPs c + 1; unhealthyTRLPs := unhealthyTRLPs c;
          modelsWithBackendIssues := modelsWithBackendIssues c |}
  else {| healthyTRLPs := healthyTRLPs c; unhealthyTRLPs := unhealthyTRLPs c + 1;
          modelsWithBackendIssues :=
            if bool_decide (ts_Reason s = ReasonBackendNotReady) && bool_decide (ts_Model s ∈ valid)
            then modelsWithBackendIssues c + 1 else modelsWithBackendIssues c |}.

(** The message of a derived phase, by its format. *)
Inductive PhaseMessage :=
| NoModelReferences | AllUnavailable (total : Z) | SomeUnavailable (bad total : Z)
| PoliciesNotAccepted (bad total : Z) | SuccessfullyReconciled.

Definition deriveFinalPhase (modelStatuses : list ModelRefStatus) (trlpStatuses : list TRLPStatus)
    : Phase * PhaseMessage :=
  match modelStatuses with
  | [] => (PhaseFailed, NoModelReferences)
  | _ =>
      let mc := fold_left count_model modelStatuses
                  {| validModelSet := ∅; validModels := 0; invalidModels := 0 |} in
      let tc := fold_left (count_trlp (validModelSet mc)) trlpStatuses
                  {| healthyTRLPs := 0; unhealthyTRLPs := 0; modelsWithBackendIssues := 0 |} in
      let effectiveValidModels := (validModels mc - modelsWithBackendIssues tc)%Z in
      let effectiveInvalidModels := (invalidModels mc + modelsWithBackendIssues tc)%Z in
      if (effectiveValidModels <=? 0)%Z
      then (PhaseFailed, AllUnavailable (Z.of_nat (length modelStatuses))) else
      if (0 <? effectiveInvalidModels)%Z
      then (PhaseDegraded, SomeUnavailable effectiveInvalidModels (Z.of_nat (length modelStatuses))) else
      let trlpOnlyIssues := (unhealthyTRLPs tc - modelsWithBackendIssues tc)%Z in
      if (0 <? trlpOnlyIssues)%Z
      then (PhaseDegraded, PoliciesNotAccepted trlpOnlyIssues (Z.of_nat (length trlpStatuses)))
      else (PhaseActive, SuccessfullyReconciled)
  end.

(** The statuses and the phase [Reconcile] writes. *)
Definition reconciled_phase (modelStatuses : list ModelRefStatus) (trlpStatuses : list TRLPStatus)
    : list ModelRefStatus * (Phase * PhaseMessage) :=
  let modelStatuses' := correct_stale trlpStatuses modelStatuses in
  (modelStatuses', deriveFinalPhase modelStatuses' trlpStatuses).

End RateTier.
