(* ===== verification/RateTierFacts.v ===== *)
(** * RateTierFacts: correctness of the grouped limits and of the derived phase

    Validation bounds; the canonical rates of a group and the injectivity of
    group keys and limit names on validated rates; the exact contents of the
    limits map of a model and its independence of the listing order; the exact
    conditions of each phase. *)

From stdpp Require Import pretty.
From S2P Require Import Prelude GoStrings Sha256 RateLimitId RateTier.
From Stdlib Require String.
Import RateTier.
Local Open Scope string_scope.

(** ** The characters of numbers and windows *)

Definition num_char (c : ascii) : bool := is_digit c || Ascii.eqb c "-".
(** The characters of a validated limit or window. *)
Definition plain_char (c : ascii) : bool := is_digit c || is_unit c.

Lemma str_all_weaken (p q : ascii → bool) s :
  (∀ c, p c = true → q c = true) → str_all p s = true → str_all q s = true.
Proof.
  intros H. induction s as [|c s IH]; simpl; [done|]. intros [? ?]%andb_true_iff.
  rewrite H, IH by done. done.
Qed.

Lemma pretty_N_go_digits x s :
  str_all is_digit s = true → str_all is_digit (pretty_N_go x s) = true.
Proof.
  revert s. induction (N.lt_wf_0 x) as [x _ IH]; intros s Hs.
  assert (x = 0 ∨ 0 < x)%N as [->|?] by lia; [by rewrite pretty_N_go_0|].
  rewrite pretty_N_go_step by done. apply IH; [by apply N.div_lt|].
  simpl. rewrite Hs. unfold pretty_N_char. by repeat case_match.
Qed.

Lemma pretty_N_digits (x : N) : str_all is_digit (pretty x) = true.
Proof.
  unfold pretty, pretty_N. case_decide; [done|]. by apply pretty_N_go_digits.
Qed.

Lemma format_int_pos z : (0 < z)%Z → str_all is_digit (format_int z) = true.
Proof. destruct z; try done. intros _. apply (pretty_N_digits (Npos p)). Qed.

Lemma format_int_num z : str_all num_char (format_int z) = true.
Proof.
  assert (∀ x : N, str_all num_char (pretty x) = true) as HN.
  { intros x. eapply str_all_weaken; [|apply pretty_N_digits].
    intros c Hc. unfold num_char. by rewrite Hc. }
  destruct z as [|p|p]; [done|apply (HN (Npos p))|].
  change (format_int (Zneg p)) with (String "-" (pretty (Npos p))). simpl. apply HN.
Qed.

#[export] Instance rate_key_inj : Inj (=) (=) rate_key.
Proof.
  intros [l1 w1] [l2 w2]. unfold rate_key. simpl. intros H.
  apply (str_split_unique "/") in H as [Hl ->].
  - by apply format_int_inj in Hl as ->.
  - eapply str_all_not_contains; [|apply format_int_num]. done.
  - eapply str_all_not_contains; [|apply format_int_num]. done.
Qed.

(** ** The window pattern *)

Lemma digit_range c : is_digit c = true → (48 ≤ byte_of c ≤ 57)%Z.
Proof. unfold is_digit, in_range. intros [? ?]%andb_true_iff. lia. Qed.

Lemma lead_is_digit c : in_range 49 57 c = true → is_digit c = true.
Proof.
  unfold is_digit, in_range. rewrite !andb_true_iff, !Z.leb_le. lia.
Qed.

Lemma unit_not_digit c : is_unit c = true → is_digit c = false.
Proof.
  unfold is_unit. intros H. repeat apply orb_true_iff in H as [H|H];
    try apply orb_true_iff in H as [H|H]; by apply Ascii.eqb_eq in H as ->.
Qed.

Lemma match_tail_spec n s num u :
  match_tail n s = Some (num, u) ↔
  s = num +:+ String u "" ∧ is_unit u = true ∧ str_all is_digit num = true
  ∧ (String.length num ≤ n)%nat.
Proof.
  revert s num. induction n as [|n IH]; intros [|c r] num; simpl.
  - split; [done|]. intros [H _]. by destruct num.
  - split.
    + destruct (is_unit c) eqn:Hu; [|done]. destruct (String.eqb_spec r ""); [|done].
      intros [= <- <-]. subst. eauto.
    + intros (H & Hu & _ & Hl). destruct num as [|d num]; simpl in *; [|lia].
      simplify_eq. by rewrite Hu.
  - split; [done|]. intros [H _]. by destruct num.
  - destruct (is_unit c) eqn:Hu.
    + split.
      * destruct (String.eqb_spec r ""); [|done]. intros [= <- <-]. subst. simpl. eauto with lia.
      * intros (H & Hu' & Hd & Hl). destruct num as [|d num]; simpl in *; simplify_eq; [done|].
        bool_hyps. by rewrite (unit_not_digit _ Hu) in *.
    + destruct (is_digit c) eqn:Hd.
      * split.
        -- destruct (match_tail n r) as [[num' u']|] eqn:E; [|done]. intros [= <- <-].
           apply IH in E as (-> & ? & ? & ?). simpl. rewrite Hd. repeat split; auto with lia.
        -- intros (H & Hu' & Hds & Hl). destruct num as [|d num]; simpl in *; simplify_eq; [congruence|].
           bool_hyps. by rewrite (proj2 (IH _ num)) by (repeat split; auto with lia).
      * split; [done|]. intros (H & Hu' & Hds & Hl). destruct num as [|d num]; simpl in *; simplify_eq; [congruence|].
        bool_hyps. congruence.
Qed.

(** The value of a digit string. *)
Fixpoint digits_value (acc : Z) (s : string) : Z :=
  match s with
  | EmptyString => acc
  | String c r => digits_value (acc * 10 + (byte_of c - 48)) r
  end.

Lemma digits_value_bound s acc :
  str_all is_digit s = true → (0 ≤ acc)%Z →
  (acc ≤ digits_value acc s < (acc + 1) * 10 ^ Z.of_nat (String.length s))%Z.
Proof.
  revert acc. induction s as [|c s IH]; intros acc; cbn [str_all digits_value String.length]; [lia|].
  intros [Hc%digit_range Hs]%andb_true_iff Ha.
  specialize (IH (acc * 10 + (byte_of c - 48))%Z Hs ltac:(lia)).
  rewrite Nat2Z.inj_succ, Z.pow_succ_r by lia.
  assert (0 < 10 ^ Z.of_nat (String.length s))%Z by lia. nia.
Qed.

Lemma parse_digits_value s acc :
  str_all is_digit s = true → (digits_value acc s ≤ int64_max)%Z →
  parse_digits acc s = Some (digits_value acc s).
Proof.
  revert acc. induction s as [|c s IH]; intros acc; simpl.
  - intros _ H. by rewrite (proj2 (Z.leb_le _ _) H).
  - intros [-> Hs]%andb_true_iff. by apply IH.
Qed.

(** ** Canonical rates *)

Lemma canon_fold rs :
  let st := fold_left canon_step rs (∅, []) in
  NoDup (snd st) ∧ (∀ k, k ∈ snd st ↔ ∃ r, r ∈ rs ∧ k = rate_key r) ∧
  (∀ k r, fst st !! k = Some r ↔ r ∈ rs ∧ k = rate_key r).
Proof.
  induction rs as [|r rs IH] using rev_ind; simpl.
  - split; [constructor|]. split; [set_solver|]. intros k r. rewrite lookup_empty. set_solver.
  - rewrite fold_left_app. simpl.
    destruct (fold_left canon_step rs (∅, [])) as [byKey keys]. simpl in IH.
    destruct IH as (Hnd & Hk & Hm). unfold canon_step.
    destruct (byKey !! rate_key r) as [r'|] eqn:E; simpl.
    + apply Hm in E as [Hr' Hkey]. apply (inj rate_key) in Hkey as <-. split; [done|]. split.
      * intros k. rewrite Hk. set_solver.
      * intros k r'. rewrite Hm. set_solver.
    + split; [|split].
      * apply nodup_snoc; [|done]. rewrite Hk. intros (x & Hx & Heq).
        rewrite (proj2 (Hm _ x) (conj Hx Heq)) in E. done.
      * intros k. rewrite elem_of_app, list_elem_of_singleton, Hk, exists_elem_snoc. done.
      * intros k x. rewrite lookup_insert_Some, Hm, elem_of_app, list_elem_of_singleton.
        split; [intros [[<- <-]|[? [? ?]]]; auto|].
        intros [[Hx| ->] ->]; [|by left].
        destruct (decide (x = r)) as [->|Hne]; [by left|].
        right. split; [|done]. intros Heq. by apply (inj rate_key) in Heq.
Qed.

(** The rates of a group: the keys of the canonical list are its sorted group key. *)
Lemma omap_keys (m : gmap string TokenRate) ks :
  (∀ k r, m !! k = Some r → k = rate_key r) → (∀ k, k ∈ ks → is_Some (m !! k)) →
  map rate_key (omap (λ k, m !! k) ks) = ks.
Proof.
  intros Hm. induction ks as [|k ks IH]; intros Hks; simpl; [done|].
  destruct (Hks k) as [r Hr]; [set_solver|]. rewrite Hr. simpl.
  f_equal; [by rewrite <- (Hm _ _ Hr)|apply IH; set_solver].
Qed.

Lemma canonical_spec rs :
  let keys := map rate_key (canonicalRates rs) in
  rateGroupKey rs = join "," keys ∧
  StronglySorted (not_after str_ltb) keys ∧ NoDup keys ∧
  (∀ r, r ∈ canonicalRates rs ↔ r ∈ rs).
Proof.
  unfold canonicalRates, rateGroupKey, canonicalizeRates.
  pose proof (canon_fold rs) as (Hnd & Hk & Hm).
  destruct (fold_left canon_step rs (∅, [])) as [byKey keys]. simpl in *.
  assert (Hkeys : map rate_key (omap (λ k, byKey !! k) (sort_strings keys)) = sort_strings keys).
  { apply omap_keys; [intros k r [_ ->]%Hm; done|].
    intros k. rewrite sort_strings_perm, Hk. intros (r & Hr & ->). exists r. by apply Hm. }
  rewrite Hkeys. split; [done|]. split; [apply isort_sorted, _|].
  split; [by rewrite sort_strings_perm|].
  intros r. rewrite list_elem_of_omap. setoid_rewrite sort_strings_perm. split.
  - intros (k & _ & [? _]%Hm). done.
  - intros Hr. exists (rate_key r). rewrite Hk, Hm. eauto.
Qed.

(** Equal sets of rates have equal canonical lists. *)
Lemma canonical_ext rs1 rs2 :
  (∀ r, r ∈ rs1 ↔ r ∈ rs2) → canonicalRates rs1 = canonicalRates rs2.
Proof.
  intros Heq. destruct (canonical_spec rs1) as (_ & Hs1 & Hn1 & Hm1).
  destruct (canonical_spec rs2) as (_ & Hs2 & Hn2 & Hm2).
  apply (inj (map rate_key)). apply (sorted_unique str_ltb).
  - intros ? ? _ _. apply st_tri.
  - done.
  - done.
  - apply Permutation_map, NoDup_Permutation;
      [by eapply NoDup_fmap_1|by eapply NoDup_fmap_1|].
    intros r. by rewrite Hm1, Hm2.
Qed.

Lemma group_key_ext rs1 rs2 :
  (∀ r, r ∈ rs1 ↔ r ∈ rs2) → rateGroupKey rs1 = rateGroupKey rs2.
Proof.
  intros Heq. destruct (canonical_spec rs1) as (-> & _), (canonical_spec rs2) as (-> & _).
  by rewrite (canonical_ext rs1 rs2).
Qed.

(** ** Injectivity of group keys and limit names *)

(** The rates [modelRefTokenRates] lets through. *)
Definition rate_ok (r : TokenRate) : Prop := validateTokenRateLimit (Limit r) (Window r) = Ok tt.

Lemma validated_window limit window :
  validateTokenRateLimit limit window = Ok tt →
  (1 ≤ limit ≤ maxTokenRateLimit)%Z ∧ ∃ d ds u,
    window = String d (ds +:+ String u "") ∧ in_range 49 57 d = true ∧
    str_all is_digit ds = true ∧ (String.length ds ≤ 3)%nat ∧ is_unit u = true ∧
    (window_seconds u (digits_value 0 (String d ds)) ≤ maxWindowSeconds)%Z.
Proof.
  unfold validateTokenRateLimit.
  destruct (Z.leb_spec limit 0); [done|]. destruct (Z.ltb_spec maxTokenRateLimit limit); [done|].
  intros H2. split; [lia|]. revert H2.
  destruct window as [|d r]; [done|]. cbn [windowPattern].
  destruct (in_range 49 57 d) eqn:Hd; [|done].
  destruct (match_tail 3 r) as [[num u]|] eqn:E; [|done].
  apply match_tail_spec in E as (-> & Hu & Hds & Hl).
  intros Hp. exists d, num, u. repeat split; auto.
  assert (Hdig : str_all is_digit (String d num) = true).
  { simpl. by rewrite Hds, (lead_is_digit _ Hd). }
  pose proof (digits_value_bound _ 0 Hdig ltac:(lia)) as Hb. cbn [String.length] in Hb.
  assert (10 ^ Z.of_nat (S (String.length num)) ≤ 10 ^ 4)%Z by (apply Z.pow_le_mono_r; lia).
  rewrite (parse_digits_value _ _ Hdig) in Hp by (unfold int64_max; lia).
  destruct (Z.ltb_spec maxWindowSeconds (window_seconds u (digits_value 0 (String d num)))); [done|].
  done.
Qed.

Lemma rate_key_chars r :
  rate_ok r → str_all (λ c, plain_char c || Ascii.eqb c "/") (rate_key r) = true ∧ rate_key r ≠ "".
Proof.
  intros [Hl (d & ds & u & Hw & Hd & Hds & _ & Hu & _)]%validated_window.
  unfold rate_key. rewrite Hw. split; [|by destruct (format_int _)].
  rewrite str_all_app. apply andb_true_iff. split.
  - eapply str_all_weaken; [|apply (format_int_pos (Limit r)); lia].
    intros c Hc. unfold plain_char. by rewrite Hc.
  - simpl. unfold plain_char at 1. rewrite (lead_is_digit _ Hd). simpl. rewrite str_all_app. apply andb_true_iff. split.
    + eapply str_all_weaken; [|apply Hds]. intros c Hc. unfold plain_char. by rewrite Hc.
    + simpl. unfold plain_char. by rewrite Hu, orb_true_r.
Qed.

(** [replace_slashes] is injective on strings without [-] and [p], such as keys. *)
Definition key_char (c : ascii) : bool := negb (Ascii.eqb c "-") && negb (Ascii.eqb c "p").

Lemma replace_slashes_inj s1 s2 :
  str_all key_char s1 = true → str_all key_char s2 = true →
  replace_slashes s1 = replace_slashes s2 → s1 = s2.
Proof.
  assert (Hp : ∀ s r, str_all key_char s = true → String "p" r ≠ replace_slashes s).
  { intros [|c s] r; simpl; [done|]. intros [Hc _]%andb_true_iff.
    destruct (Ascii.eqb_spec c "/") as [->|]; [done|]. destruct (Ascii.eqb_spec c ",") as [->|]; [done|].
    intros [= <- _]. done. }
  revert s2. induction s1 as [|c s1 IH]; intros [|d s2]; simpl; try done.
  - intros _ _. by destruct (Ascii.eqb d "/"), (Ascii.eqb d ",").
  - intros _ _. by destruct (Ascii.eqb c "/"), (Ascii.eqb c ",").
  - intros [Hc Hs1]%andb_true_iff [Hd Hs2]%andb_true_iff.
    destruct (Ascii.eqb_spec c "/") as [->|Hc1], (Ascii.eqb_spec d "/") as [->|Hd1].
    + intros [= H]. f_equal. by apply IH.
    + destruct (Ascii.eqb_spec d ",") as [->|Hd2].
      * intros [= H]. by destruct (Hp s2 _ Hs2 H).
      * intros [= <- _]. done.
    + destruct (Ascii.eqb_spec c ",") as [->|Hc2].
      * intros [= H]. symmetry in H. by destruct (Hp s1 _ Hs1 H).
      * intros [= -> _]. done.
    + destruct (Ascii.eqb_spec c ",") as [->|Hc2], (Ascii.eqb_spec d ",") as [->|Hd2].
      * intros [= H]. f_equal. by apply IH.
      * intros [= <- _]. done.
      * intros [= -> _]. done.
      * intros [= -> H]. f_equal. by apply IH.
Qed.

Lemma join_chars p ks :
  p ","%char = true → (∀ k, k ∈ ks → str_all p k = true) → str_all p (join "," ks) = true.
Proof.
  intros Hp. induction ks as [|k [|k' ks] IH]; intros Hks; [done| |].
  - apply Hks. set_solver.
  - change (str_all p (k +:+ String "," (join "," (k' :: ks))) = true).
    rewrite str_all_app, (Hks k) by set_solver.
    change (p ","%char && str_all p (join "," (k' :: ks)) = true).
    rewrite Hp. apply IH. set_solver.
Qed.

Lemma canonical_key_chars rs k :
  (∀ r, r ∈ rs → rate_ok r) → k ∈ map rate_key (canonicalRates rs) →
  str_all (λ c, plain_char c || Ascii.eqb c "/") k = true ∧ k ≠ "".
Proof.
  intros Hok (r & -> & Hr)%list_elem_of_fmap. apply rate_key_chars, Hok.
  by apply (canonical_spec rs).
Qed.

Lemma group_key_chars rs :
  (∀ r, r ∈ rs → rate_ok r) → str_all key_char (rateGroupKey rs) = true.
Proof.
  intros Hok. destruct (canonical_spec rs) as (-> & _). apply join_chars; [done|].
  intros k Hk. eapply str_all_weaken; [|by eapply canonical_key_chars].
  intros c Hc. unfold key_char. destruct (Ascii.eqb_spec c "-") as [->|]; [done|].
  by destruct (Ascii.eqb_spec c "p") as [->|].
Qed.

(** The characters of a group key leave no room for the other limit names. *)
Lemma group_key_plain c rs :
  (∀ r, r ∈ rs → rate_ok r) → plain_char c || Ascii.eqb c "/" || Ascii.eqb c "," = false →
  contains_char c (rateGroupKey rs) = false.
Proof.
  intros Hok Hc. destruct (canonical_spec rs) as (-> & _).
  apply (str_all_not_contains (λ c, plain_char c || Ascii.eqb c "/" || Ascii.eqb c ","));
    [done|]. apply join_chars; [done|].
  intros k Hk. eapply str_all_weaken; [|by eapply canonical_key_chars].
  intros d Hd. by rewrite Hd.
Qed.

Lemma replace_slashes_id k : replace_slashes (k +:+ ",id") = replace_slashes k +:+ "-id".
Proof.
  induction k as [|c k IH]; simpl; [done|]. rewrite IH.
  by destruct (Ascii.eqb c "/"), (Ascii.eqb c ",").
Qed.

Lemma limit_name_not_id rs1 rs2 :
  (∀ r, r ∈ rs1 → rate_ok r) → (∀ r, r ∈ rs2 → rate_ok r) →
  rateGroupLimitName (rateGroupKey rs1) ≠ rateGroupLimitName (rateGroupKey rs2) +:+ "-id".
Proof.
  intros H1 H2. unfold rateGroupLimitName. rewrite str_app_assoc, <- replace_slashes_id.
  intros H%str_app_inj_l. apply replace_slashes_inj in H.
  - pose proof (group_key_plain "i" rs1 H1 eq_refl) as Hi.
    rewrite H, contains_char_app in Hi. bool_hyps. done.
  - by apply group_key_chars.
  - rewrite str_all_app. by rewrite group_key_chars.
Qed.

Lemma limit_name_not_unlimited rs :
  (∀ r, r ∈ rs → rate_ok r) →
  rateGroupLimitName (rateGroupKey rs) ≠ unlimitedLimitName ∧
  rateGroupLimitName (rateGroupKey rs) +:+ "-id" ≠ unlimitedLimitName.
Proof.
  intros Hok. unfold rateGroupLimitName, unlimitedLimitName.
  rewrite str_app_assoc, <- replace_slashes_id.
  change "tokens-unlimited" with ("tokens-" +:+ replace_slashes "unlimited").
  split; intros H%str_app_inj_l; apply replace_slashes_inj in H; rewrite ?str_all_app;
    rewrite ?group_key_chars by done; try done.
  - pose proof (group_key_plain "u" rs Hok eq_refl) as Hu. by rewrite H in Hu.
  - assert (contains_char "," (rateGroupKey rs +:+ ",id") = true) as Hc
      by (rewrite contains_char_app; apply orb_true_r). by rewrite H in Hc.
Qed.

(** A group key determines the set of rates. *)
Lemma group_key_inj rs1 rs2 :
  (∀ r, r ∈ rs1 → rate_ok r) → (∀ r, r ∈ rs2 → rate_ok r) →
  rateGroupKey rs1 = rateGroupKey rs2 → canonicalRates rs1 = canonicalRates rs2.
Proof.
  intros H1 H2. destruct (canonical_spec rs1) as (-> & _), (canonical_spec rs2) as (-> & _).
  intros H. apply (inj (map rate_key)).
  apply join_inj in H; [done| |]; intros k Hk;
    (eapply canonical_key_chars in Hk as [Hc ?]; [|done]); (split; [|done]);
    (eapply str_all_not_contains; [|apply Hc]); done.
Qed.

Lemma limit_name_inj rs1 rs2 :
  (∀ r, r ∈ rs1 → rate_ok r) → (∀ r, r ∈ rs2 → rate_ok r) →
  rateGroupLimitName (rateGroupKey rs1) = rateGroupLimitName (rateGroupKey rs2) →
  rateGroupKey rs1 = rateGroupKey rs2.
Proof.
  intros H1 H2 H%str_app_inj_l. apply replace_slashes_inj in H; eauto using group_key_chars.
Qed.

(** ** The specification of the limits map *)

(** What the collecting loop guarantees of each entry. *)
Definition wf_info (si : subInfo) : Prop :=
  groupKey si = rateGroupKey (rates si) ∧ ∀ r, r ∈ rates si → rate_ok r.

Definition limited (subs : list subInfo) (key : string) : list subInfo :=
  filter (λ si, unlimited si = false ∧ groupKey si = key) subs.
Definition peers (subs : list subInfo) (key : string) (b : bool) : list subInfo :=
  filter (λ si, legacy si = b) (limited subs key).

Definition limit_name (subs : list subInfo) (si : subInfo) : string :=
  if unlimited si then unlimitedLimitName else
  if legacy si then rateGroupLimitName (groupKey si) else
  match peers subs (groupKey si) true with
  | [] => rateGroupLimitName (groupKey si)
  | _ => rateGroupLimitName (groupKey si) +:+ "-id"
  end.

(** The disjunction of the members' clauses, in sorted order. *)
Definition any_of (members : list subInfo) : string :=
  match sort_strings (map subscriptionSelectClause members) with
  | [c] => c
  | cs => "(" +:+ join " || " cs +:+ ")"
  end.

Definition class_limit (subs : list subInfo) (si : subInfo) : PolicyLimit :=
  if unlimited si
  then unlimitedTokenLimit (filter (λ s, unlimited s = true) subs)
  else {| pl_rates := Some (canonicalRates (rates si));
          pl_predicate := any_of (peers subs (groupKey si) (legacy si)) +:+ models_exempt;
          pl_counters := [subscriptionCounterExpression (legacy si); "auth.identity.userid"] |}.

Lemma elem_of_peers subs key b si :
  si ∈ peers subs key b ↔ si ∈ subs ∧ unlimited si = false ∧ groupKey si = key ∧ legacy si = b.
Proof. unfold peers, limited. rewrite !list_elem_of_filter. tauto. Qed.

Lemma build_group_limit subs key b si :
  (∀ s, s ∈ subs → wf_info s) → si ∈ peers subs key b →
  buildGroupLimit (peers subs key b) = Some (class_limit subs si).
Proof.
  intros Hwf Hsi. pose proof Hsi as (Hin & Hu & Hk & Hb)%elem_of_peers.
  destruct (peers subs key b) as [|m0 ms] eqn:E; [set_solver|].
  assert (m0 ∈ peers subs key b) as (Hin0 & _ & Hk0 & Hb0)%elem_of_peers by (rewrite E; set_solver).
  assert (canonicalRates (rates m0) = canonicalRates (rates si)) as Hr.
  { destruct (Hwf _ Hin0) as [H1 ?], (Hwf _ Hin) as [H2 ?]. apply group_key_inj; [done|done|congruence]. }
  unfold class_limit, any_of. rewrite Hu, Hk, Hb, E. unfold buildGroupLimit. rewrite Hr, Hb0.
  destruct (sort_strings (map subscriptionSelectClause (m0 :: ms))) as [|c cs] eqn:Es.
  - apply (f_equal length) in Es. by rewrite (Permutation_length (sort_strings_perm _)) in Es.
  - by destruct cs.
Qed.

Lemma name_id_ne s : s ≠ s +:+ "-id".
Proof.
  intros H%(f_equal String.length). rewrite str_length_app in H. simpl in H. lia.
Qed.

(** One rate group contributes exactly the limits of its classes. *)
Lemma group_spec subs key :
  (∀ s, s ∈ subs → wf_info s) →
  ∃ g, addRateGroupLimits ∅ key (limited subs key) = Some g ∧ ∀ n l, g !! n = Some l ↔
    ∃ si, si ∈ subs ∧ unlimited si = false ∧ groupKey si = key ∧
          n = limit_name subs si ∧ l = class_limit subs si.
Proof.
  intros Hwf.
  assert (Hcls : ∀ (P : subInfo → Prop),
    (∃ si, si ∈ subs ∧ unlimited si = false ∧ groupKey si = key ∧ P si) ↔
    (∃ si, si ∈ peers subs key true ∧ P si) ∨ (∃ si, si ∈ peers subs key false ∧ P si)).
  { intros P. setoid_rewrite elem_of_peers. split.
    - intros (si & ? & ? & ? & ?). destruct (legacy si) eqn:?; [left|right]; exists si; tauto.
    - intros [(si & ? & ?)|(si & ? & ?)]; exists si; tauto. }
  assert (Hone : ∀ b m0, m0 ∈ peers subs key b →
    buildGroupLimit (peers subs key b) = Some (class_limit subs m0) ∧
    ∀ nm n l, (∀ si, si ∈ peers subs key b → limit_name subs si = nm) →
      (n = nm ∧ l = class_limit subs m0) ↔
      ∃ si, si ∈ peers subs key b ∧ n = limit_name subs si ∧ l = class_limit subs si).
  { intros b m0 Hm0. pose proof (build_group_limit _ _ _ _ Hwf Hm0) as Hb. split; [done|].
    intros nm n l Hnm. split.
    - intros [-> ->]. exists m0. by rewrite Hnm.
    - intros (si & Hsi & -> & ->). rewrite Hnm by done. split; [done|].
      pose proof (build_group_limit _ _ _ _ Hwf Hsi). congruence. }
  assert (Hnl : ∀ si, si ∈ peers subs key true → limit_name subs si = rateGroupLimitName key).
  { intros si (_ & Hu & Hk & Hb)%elem_of_peers. unfold limit_name. by rewrite Hu, Hb, Hk. }
  assert (Hns : ∀ si, si ∈ peers subs key false → limit_name subs si =
    match peers subs key true with [] => rateGroupLimitName key
    | _ => rateGroupLimitName key +:+ "-id" end).
  { intros si (_ & Hu & Hk & Hb)%elem_of_peers. unfold limit_name. by rewrite Hu, Hb, Hk. }
  setoid_rewrite Hcls. unfold addRateGroupLimits. fold (peers subs key false) (peers subs key true).
  pose proof (λ m, Hone true m) as Hlt. pose proof (λ m, Hone false m) as Hst. clear Hone Hcls.
  destruct (peers subs key true) as [|lm lms], (peers subs key false) as [|sm sms].
  - exists ∅. split; [done|]. intros n l. rewrite lookup_empty. set_solver.
  - destruct (Hst sm) as [-> Hs]; [set_solver|]. simpl. eexists. split; [done|].
    intros n l. rewrite lookup_insert_Some, lookup_empty, <- (Hs _ n l Hns). set_solver.
  - destruct (Hlt lm) as [-> Hl]; [set_solver|]. simpl. eexists. split; [done|].
    intros n l. rewrite lookup_insert_Some, lookup_empty, <- (Hl _ n l Hnl). set_solver.
  - destruct (Hst sm) as [-> Hs]; [set_solver|]. destruct (Hlt lm) as [-> Hl]; [set_solver|].
    simpl. eexists. split; [done|].
    intros n l. rewrite !lookup_insert_Some, lookup_empty, <- (Hs _ n l Hns), <- (Hl _ n l Hnl).
    pose proof (name_id_ne (rateGroupLimitName key)). naive_solver.
Qed.

(** ** The loops *)

Lemma add_rate_union m key ms :
  addRateGroupLimits m key ms = (g ← addRateGroupLimits ∅ key ms; Some (g ∪ m)).
Proof.
  unfold addRateGroupLimits.
  destruct (filter _ ms) as [|s ss], (filter _ ms) as [|l ls]; simpl.
  - by rewrite (left_id ∅ (∪)).
  - destruct (buildGroupLimit _); simpl; [|done].
    by rewrite <- insert_union_l, (left_id ∅ (∪)).
  - destruct (buildGroupLimit _); simpl; [|done].
    by rewrite <- insert_union_l, (left_id ∅ (∪)).
  - destruct (buildGroupLimit (l :: ls)); simpl; [|done].
    destruct (buildGroupLimit _); simpl; [|done].
    by rewrite <- !insert_union_l, (left_id ∅ (∪)).
Qed.

(** The second loop unites the groups' limits, when their names are disjoint. *)
Lemma add_groups_spec (G : string → gmap string PolicyLimit) grp keys m :
  NoDup keys →
  (∀ k, k ∈ keys → addRateGroupLimits ∅ k (default [] (grp !! k)) = Some (G k)) →
  (∀ k1 k2 n, k1 ∈ keys → k2 ∈ keys → is_Some (G k1 !! n) → is_Some (G k2 !! n) → k1 = k2) →
  (∀ k n, k ∈ keys → is_Some (G k !! n) → m !! n = None) →
  ∃ m', add_groups m grp keys = Some m' ∧
    ∀ n l, m' !! n = Some l ↔ m !! n = Some l ∨ ∃ k, k ∈ keys ∧ G k !! n = Some l.
Proof.
  revert m. induction keys as [|k keys IH]; intros m Hnd HG Hdis Hm.
  { exists m. split; [done|]. set_solver. }
  apply NoDup_cons in Hnd as [Hk Hnd]. simpl. rewrite add_rate_union, HG by set_solver. simpl.
  destruct (IH (G k ∪ m) Hnd) as (m' & Hm' & Hl).
  - intros. apply HG. set_solver.
  - intros k1 k2 n H1 H2. apply Hdis; set_solver.
  - intros k' n Hk' Hn. apply lookup_union_None. split.
    + apply eq_None_not_Some. intros Hkn.
      assert (k = k') as -> by (apply (Hdis k k' n); [set_solver|set_solver|done|done]). done.
    + apply (Hm k' n); [set_solver|done].
  - exists m'. split; [done|]. intros n l. rewrite Hl, exists_elem_cons.
    rewrite lookup_union_Some. { tauto. }
    apply map_disjoint_spec. intros n' l1 l2 H1 H2.
    rewrite (Hm k n') in H2; [done|set_solver|by eexists].
Qed.

Lemma limited_snoc subs si k :
  limited (subs ++ [si])%list k =
  (limited subs k ++ (if unlimited si then [] else if decide (groupKey si = k) then [si] else []))%list.
Proof.
  unfold limited. rewrite filter_app. f_equal. rewrite filter_cons, filter_nil.
  destruct (unlimited si); repeat case_decide; naive_solver.
Qed.

(** The tracked names: distinct, and exactly the qualified names seen. *)
Definition names_of (subs : list subInfo) (seen : gset string) (ns : list string) : Prop :=
  (∀ n, n ∈ seen ↔ n ∈ ns) ∧ NoDup ns ∧
  (∀ n, n ∈ ns ↔ ∃ si, si ∈ subs ∧ n = qualifiedName (subNamespace si) (subName si)).

Lemma names_step subs st si :
  names_of subs (seenSub st) (subNames st) →
  names_of (subs ++ [si])%list (seenSub (group_step st si)) (subNames (group_step st si)).
Proof.
  intros (Hseen & Hns & Hn). unfold group_step. cbv zeta.
  set (q := qualifiedName (subNamespace si) (subName si)).
  assert (names_of (subs ++ [si])%list
    (if bool_decide (q ∈ seenSub st) then seenSub st else {[q]} ∪ seenSub st)
    (if bool_decide (q ∈ seenSub st) then subNames st else (subNames st ++ [q])%list)) as H;
    [|by destruct (unlimited si)].
  case_bool_decide as Hq; split_and!; try done.
  - intros n. rewrite exists_elem_snoc, Hn. apply Hseen, Hn in Hq as (s & ? & ?).
    split; [auto|]. intros [?| ->]; eauto.
  - set_solver.
  - apply nodup_snoc; [by rewrite <- Hseen|done].
  - intros n. rewrite exists_elem_snoc, elem_of_app, list_elem_of_singleton, Hn. done.
Qed.

(** The groups: every limited subscription under its key, every key listed once. *)
Definition groups_of (subs : list subInfo) (st : GroupState) : Prop :=
  (∀ k, byGroup st !! k = match limited subs k with [] => None | ms => Some ms end) ∧
  NoDup (groupKeys st) ∧ (∀ k, k ∈ groupKeys st ↔ limited subs k ≠ []) ∧
  unlimitedSubs st = filter (λ s, unlimited s = true) subs.

Lemma groups_step subs st si :
  groups_of subs st → groups_of (subs ++ [si])%list (group_step st si).
Proof.
  intros (Hbg & Hnd & Hgk & Hus). unfold groups_of, group_step. cbv zeta.
  setoid_rewrite limited_snoc.
  destruct (unlimited si) eqn:Hu; cbn [byGroup groupKeys unlimitedSubs].
  { setoid_rewrite app_nil_r. split_and!; try done.
    rewrite filter_app, filter_cons_True by done. by rewrite Hus. }
  rewrite Hbg. split_and!.
  - intros k. destruct (decide (groupKey si = k)) as [<-|Hne].
    + rewrite lookup_insert_eq. by destruct (limited subs (groupKey si)).
    + by rewrite lookup_insert_ne, Hbg, app_nil_r by done.
  - destruct (limited subs (groupKey si)) eqn:E; [|done].
    apply nodup_snoc; [|done]. rewrite Hgk, E. auto.
  - intros k. destruct (limited subs (groupKey si)) eqn:E.
    + rewrite elem_of_app, list_elem_of_singleton, Hgk.
      destruct (decide (groupKey si = k)) as [<-|Hne]; [rewrite E; simpl; naive_solver|].
      rewrite app_nil_r. naive_solver.
    + rewrite Hgk. destruct (decide (groupKey si = k)) as [<-|Hne]; [by rewrite E|].
      by rewrite app_nil_r.
  - rewrite filter_app, filter_cons_False, filter_nil, app_nil_r by (by rewrite Hu). done.
Qed.

(** The first loop partitions the subscriptions. *)
Lemma group_fold subs :
  let st := fold_left group_step subs group_init in
  groups_of subs st ∧ names_of subs (seenSub st) (subNames st).
Proof.
  induction subs as [|si subs IH] using rev_ind; simpl.
  - split; split_and!; try constructor; try set_solver; done.
  - rewrite fold_left_app. destruct IH. split; [by apply groups_step|by apply names_step].
Qed.

(** Two subscriptions with one limit name are in one class. *)
Lemma limit_name_class subs s1 s2 :
  (∀ s, s ∈ subs → wf_info s) → s1 ∈ subs → s2 ∈ subs →
  limit_name subs s1 = limit_name subs s2 →
  unlimited s1 = unlimited s2 ∧
  (unlimited s1 = false → groupKey s1 = groupKey s2 ∧ legacy s1 = legacy s2).
Proof.
  intros Hwf H1 H2. pose proof (Hwf _ H1) as [Hk1 Ho1]. pose proof (Hwf _ H2) as [Hk2 Ho2].
  pose proof (limit_name_not_unlimited _ Ho1) as [Hu1 Hu1']. rewrite <- Hk1 in Hu1, Hu1'.
  pose proof (limit_name_not_unlimited _ Ho2) as [Hu2 Hu2']. rewrite <- Hk2 in Hu2, Hu2'.
  pose proof (limit_name_inj _ _ Ho1 Ho2) as Hinj. rewrite <- Hk1, <- Hk2 in Hinj.
  pose proof (limit_name_not_id _ _ Ho1 Ho2) as Hid. rewrite <- Hk1, <- Hk2 in Hid.
  pose proof (limit_name_not_id _ _ Ho2 Ho1) as Hid'. rewrite <- Hk1, <- Hk2 in Hid'.
  assert (Hleg : ∀ s, s ∈ subs → unlimited s = false → legacy s = true → peers subs (groupKey s) true ≠ []).
  { intros s ? ? ? E. assert (s ∈ peers subs (groupKey s) true) as Hs by by apply elem_of_peers.
    rewrite E in Hs. set_solver. }
  assert (Hinj' : rateGroupLimitName (groupKey s1) +:+ "-id" = rateGroupLimitName (groupKey s2) +:+ "-id" →
    groupKey s1 = groupKey s2).
  { intros H. apply Hinj.
    destruct (str_app_inj_len (rateGroupLimitName (groupKey s1)) "-id"
                (rateGroupLimitName (groupKey s2)) "-id") as [? _]; [|done|done].
    apply (f_equal String.length) in H. rewrite !str_length_app in H. lia. }
  specialize (Hleg s1 H1) as Hleg1. specialize (Hleg s2 H2) as Hleg2. unfold limit_name.
  destruct (unlimited s1), (unlimited s2); try done.
  - destruct (legacy s2); [congruence|]. destruct (peers subs (groupKey s2) true); congruence.
  - destruct (legacy s1); [congruence|]. destruct (peers subs (groupKey s1) true); congruence.
  - intros H. split; [done|]. intros _. revert H.
    destruct (legacy s1) eqn:L1, (legacy s2) eqn:L2;
      destruct (peers subs (groupKey s1) true) eqn:P1; destruct (peers subs (groupKey s2) true) eqn:P2;
      intros H; try done; try (by destruct (Hleg1 eq_refl eq_refl)); try (by destruct (Hleg2 eq_refl eq_refl));
      try (split; [by auto|done]);
      first [by apply Hinj in H; rewrite H, ?P2 in P1 | done].
Qed.

Lemma collected_wf epoch ns m subs :
  ∀ s, s ∈ collect_subs epoch ns m subs → wf_info s.
Proof.
  unfold collect_subs. intros s (sub & _ & Hs)%list_elem_of_omap. revert Hs.
  induction (ModelRefs sub) as [|mRef refs IH]; simpl; [done|].
  destruct (negb _ || negb _); [done|].
  destruct (modelRefTokenRates mRef) as [[rs unl]|e] eqn:E; [|done].
  intros [= <-]. split; [done|]. simpl. revert E. unfold modelRefTokenRates.
  destruct (TokenRateLimits mRef) as [|trl trls].
  { destruct (Unlimited mRef); [|done]. intros [= <- <-]. set_solver. }
  intros (rs' & E & [= <- <-])%res_bind_ok.
  assert (Hgen : ∀ l acc out, fold_res (λ acc trl,
      _ <- validateTokenRateLimit (Limit trl) (Window trl) ;; Ok (acc ++ [trl])%list) acc l = Ok out →
      (∀ r, r ∈ acc → rate_ok r) → ∀ r, r ∈ out → rate_ok r).
  { induction l as [|x l IHl]; simpl; intros acc out; [by intros [= <-]|].
    intros (a & (u & Hu & [= <-])%res_bind_ok & Hf)%res_bind_ok Hacc.
    apply (IHl _ _ Hf). apply forall_elem_snoc. split; [done|]. destruct u. done. }
  apply (Hgen _ _ _ E). set_solver.
Qed.

(** The limits of the limited subscriptions. *)
Lemma limited_map_spec subs st :
  (∀ s, s ∈ subs → wf_info s) → groups_of subs st →
  ∃ m, add_groups ∅ (byGroup st) (sort_strings (groupKeys st)) = Some m ∧
    ∀ n l, m !! n = Some l ↔ ∃ si, si ∈ subs ∧ unlimited si = false ∧
      n = limit_name subs si ∧ l = class_limit subs si.
Proof.
  intros Hwf (Hbg & Hnd & Hgk & _).
  set (G := λ k, default ∅ (addRateGroupLimits ∅ k (limited subs k))).
  assert (HG : ∀ k, addRateGroupLimits ∅ k (limited subs k) = Some (G k) ∧ ∀ n l, G k !! n = Some l ↔
    ∃ si, si ∈ subs ∧ unlimited si = false ∧ groupKey si = k ∧
          n = limit_name subs si ∧ l = class_limit subs si).
  { intros k. unfold G. destruct (group_spec subs k Hwf) as (g & -> & Hg). done. }
  destruct (add_groups_spec G (byGroup st) (sort_strings (groupKeys st)) ∅) as (m & Hadd & Hm).
  - by rewrite sort_strings_perm.
  - intros k Hk. rewrite sort_strings_perm, Hgk in Hk. rewrite Hbg.
    destruct (HG k) as [<- _]. by destruct (limited subs k).
  - intros k1 k2 n _ _ [l1 Hl1] [l2 Hl2].
    apply HG in Hl1 as (s1 & Hs1 & Hu1 & <- & -> & _). apply HG in Hl2 as (s2 & Hs2 & _ & <- & Hnm & _).
    apply limit_name_class in Hnm as [_ Hc]; [|done..]. by apply Hc.
  - done.
  - exists m. split; [done|]. intros n l. rewrite Hm, lookup_empty. split.
    + intros [?|(k & _ & Hl)]; [done|]. apply HG in Hl as (si & ? & ? & _ & ? & ?). by exists si.
    + intros (si & Hsi & Hu & ? & ?). right. exists (groupKey si).
      rewrite sort_strings_perm, Hgk. split; [|apply HG; by exists si].
      intros E. assert (si ∈ limited subs (groupKey si)) as Hin by (by apply list_elem_of_filter).
      rewrite E in Hin. set_solver.
Qed.

(** Adding the shared limit of the unlimited subscriptions. *)
Lemma unlimited_insert_spec subs (m : gmap string PolicyLimit) :
  (∀ s, s ∈ subs → wf_info s) →
  (∀ n l, m !! n = Some l ↔ ∃ si, si ∈ subs ∧ unlimited si = false ∧
     n = limit_name subs si ∧ l = class_limit subs si) →
  ∀ n l, (match filter (λ s, unlimited s = true) subs with
          | [] => m
          | us => <[unlimitedLimitName := unlimitedTokenLimit us]> m
          end) !! n = Some l ↔
    ∃ si, si ∈ subs ∧ n = limit_name subs si ∧ l = class_limit subs si.
Proof.
  intros Hwf Hm n l.
  assert (Hel : ∀ s, s ∈ filter (λ s, unlimited s = true) subs ↔ unlimited s = true ∧ s ∈ subs)
    by (intros s; by rewrite list_elem_of_filter).
  destruct (filter (λ s, unlimited s = true) subs) as [|u us] eqn:Ef.
  - rewrite Hm. split; [intros (si & ? & _ & ? & ?); by exists si|].
    intros (si & Hsi & ? & ?). exists si. split_and!; try done.
    destruct (unlimited si) eqn:Hu; [|done]. pose proof (proj2 (Hel si) (conj Hu Hsi)) as Hno. by apply not_elem_of_nil in Hno.
  - rewrite <- Ef. destruct (proj1 (Hel u)) as [Huu Hu]; [by left|].
    rewrite lookup_insert_Some, Hm. split.
    + intros [[<- <-]|[_ (si & ? & _ & ? & ?)]]; [|by exists si].
      exists u. unfold limit_name, class_limit. by rewrite Huu.
    + intros (si & Hsi & -> & ->). destruct (unlimited si) eqn:Hus'.
      * left. unfold limit_name, class_limit. by rewrite Hus'.
      * right. split; [|by exists si]. intros Hnm.
        destruct (limit_name_class subs u si) as [? _]; [done..| |congruence].
        rewrite <- Hnm. unfold limit_name. by rewrite Huu.
Qed.

(** The result of [buildGroupedLimits] on well-formed entries. *)
Lemma grouped_limits_spec subs :
  (∀ s, s ∈ subs → wf_info s) →
  ∃ limits names, buildGroupedLimits subs = Some (limits, names) ∧
    (∀ n l, limits !! n = Some l ↔
      ∃ si, si ∈ subs ∧ n = limit_name subs si ∧ l = class_limit subs si) ∧
    StronglySorted (λ a b, str_ltb a b = true) names ∧
    (∀ n, n ∈ names ↔ ∃ si, si ∈ subs ∧ n = qualifiedName (subNamespace si) (subName si)).
Proof.
  intros Hwf. unfold buildGroupedLimits. destruct (group_fold subs) as [Hg (_ & Hns & Hn)].
  destruct (limited_map_spec subs _ Hwf Hg) as (m & -> & Hm). destruct Hg as (_ & _ & _ & ->).
  simpl. eexists _, _. split; [done|]. split; [by apply unlimited_insert_spec|]. split.
  - apply (sorted_strict (λ s : string, s) str_ltb); [by rewrite sort_strings_perm|].
    apply isort_sorted, _.
  - intros n. by rewrite sort_strings_perm, Hn.
Qed.

(** ** Properties of the limits map *)

(** the limits map of a model holds exactly one limit per class of its
    collected subscriptions: a limit with the class's canonical rates, the
    sorted disjunction of the match clauses of all members of the class and of
    nobody else, and the counter expression of the class; one limit without
    rates or counters for all unlimited subscriptions.  The build never panics,
    and the tracked names are the qualified subscription names, sorted and
    without duplicates. *)
Theorem grouped_limits_exact (epoch : Z) (modelNamespace modelName : string)
    (allSubs : list MaaSSubscription) :
  let subs := collect_subs epoch modelNamespace modelName allSubs in
  ∃ limits names, buildGroupedLimits subs = Some (limits, names) ∧
    (∀ n l, limits !! n = Some l ↔
      ∃ si, si ∈ subs ∧ n = limit_name subs si ∧ l = class_limit subs si) ∧
    StronglySorted (λ a b, str_ltb a b = true) names ∧
    (∀ n, n ∈ names ↔ ∃ si, si ∈ subs ∧ n = qualifiedName (subNamespace si) (subName si)).
Proof. intros subs. apply grouped_limits_spec, collected_wf. Qed.

(** two collected subscriptions of a model share a limit name exactly when
    both are unlimited, or both are limited with the same set of rates and the
    same identity scheme: names of different rate groups never collide, nor
    with the [-id] names, nor with [tokens-unlimited]. *)
Theorem limit_names_separate (epoch : Z) (modelNamespace modelName : string)
    (allSubs : list MaaSSubscription) :
  let subs := collect_subs epoch modelNamespace modelName allSubs in
  ∀ s1 s2, s1 ∈ subs → s2 ∈ subs →
    (limit_name subs s1 = limit_name subs s2 ↔
     unlimited s1 = unlimited s2 ∧
     (unlimited s1 = false → (∀ r, r ∈ rates s1 ↔ r ∈ rates s2) ∧ legacy s1 = legacy s2)).
Proof.
  intros subs s1 s2 H1 H2. assert (Hwf : ∀ s, s ∈ subs → wf_info s) by apply collected_wf.
  destruct (Hwf _ H1) as [Hk1 Ho1], (Hwf _ H2) as [Hk2 Ho2]. split.
  - intros H. destruct (limit_name_class subs s1 s2 Hwf H1 H2 H) as [Hu Hc].
    split; [done|]. intros Hf. destruct (Hc Hf) as [Hk Hl]. split; [|done].
    rewrite Hk1, Hk2 in Hk. apply group_key_inj in Hk; [|done..].
    intros r. rewrite <- (proj2 (proj2 (proj2 (canonical_spec (rates s1))))), Hk.
    apply canonical_spec.
  - intros [Hu Hc]. unfold limit_name. rewrite <- Hu. destruct (unlimited s1); [done|].
    destruct (Hc eq_refl) as [Hr <-]. rewrite Hk1, Hk2. by rewrite (group_key_ext _ _ Hr).
Qed.

Lemma any_of_perm l1 l2 : l1 ≡ₚ l2 → any_of l1 = any_of l2.
Proof.
  intros HP. unfold any_of.
  by rewrite (sort_strings_proper _ _ (Permutation_map subscriptionSelectClause HP)).
Qed.

Lemma peers_perm l1 l2 k b : l1 ≡ₚ l2 → peers l1 k b ≡ₚ peers l2 k b.
Proof. intros HP. unfold peers, limited. by rewrite HP. Qed.

Lemma class_perm l1 l2 si :
  l1 ≡ₚ l2 → limit_name l1 si = limit_name l2 si ∧ class_limit l1 si = class_limit l2 si.
Proof.
  intros HP. split.
  - unfold limit_name. pose proof (peers_perm _ _ (groupKey si) true HP) as Hp.
    destruct (peers l1 (groupKey si) true), (peers l2 (groupKey si) true); try done;
      apply Permutation_length in Hp; done.
  - unfold class_limit, unlimitedTokenLimit. rewrite (any_of_perm _ _ (peers_perm _ _ _ _ HP)).
    by rewrite (sort_strings_proper _ _ (Permutation_map subscriptionSelectClause
      (filter_Permutation (λ s, unlimited s = true) _ _ HP))).
Qed.

(** the limits and the tracked names do not depend on the order in which
    the API server lists the subscriptions, so an unchanged set of
    subscriptions reconciles to the same specification. *)
Theorem grouped_limits_order_independent (epoch : Z) (modelNamespace modelName : string)
    (all1 all2 : list MaaSSubscription) :
  all1 ≡ₚ all2 →
  buildGroupedLimits (collect_subs epoch modelNamespace modelName all1) =
  buildGroupedLimits (collect_subs epoch modelNamespace modelName all2).
Proof.
  intros HP.
  assert (HPc : collect_subs epoch modelNamespace modelName all1 ≡ₚ
                collect_subs epoch modelNamespace modelName all2)
    by (unfold collect_subs; by rewrite HP).
  assert (Hel : ∀ si, si ∈ collect_subs epoch modelNamespace modelName all1 ↔
                      si ∈ collect_subs epoch modelNamespace modelName all2)
    by (intros si; by rewrite HPc).
  destruct (grouped_limits_spec _ (collected_wf epoch modelNamespace modelName all1))
    as (m1 & n1 & -> & Hm1 & Hs1 & Hn1).
  destruct (grouped_limits_spec _ (collected_wf epoch modelNamespace modelName all2))
    as (m2 & n2 & -> & Hm2 & Hs2 & Hn2).
  f_equal. f_equal.
  - apply map_eq. intros n. apply option_eq. intros l. rewrite Hm1, Hm2.
    split; intros (si & Hsi & -> & ->); exists si; apply Hel in Hsi;
      destruct (class_perm _ _ si HPc) as [-> ->]; done.
  - apply (strict_sorted_unique str_ltb); [done..|].
    intros n. rewrite Hn1, Hn2. by setoid_rewrite Hel.
Qed.

(** ** Bounds of a validated rate *)

Definition unit_seconds (u : ascii) : Z :=
  if Ascii.eqb u "s" then 1 else if Ascii.eqb u "m" then 60 else 3600.

(** The window text [<value><unit>] and its length in seconds. *)
Definition window_denotes (window : string) (seconds : Z) : Prop :=
  ∃ value u, window = format_int value +:+ String u "" ∧ (1 ≤ value ≤ 9999)%Z ∧
    is_unit u = true ∧ seconds = (value * unit_seconds u)%Z.

Definition ten_digits : list ascii :=
  ["0"; "1"; "2"; "3"; "4"; "5"; "6"; "7"; "8"; "9"]%char.

(** All digit strings of at most [n] characters. *)
Fixpoint digit_strings (n : nat) : list string :=
  "" :: match n with
        | O => []
        | S n' => flat_map (λ s, map (λ c, String c s) ten_digits) (digit_strings n')
        end.

Lemma digit_char c : is_digit c = true →
  In c ten_digits.
Proof.
  intros Hc. assert (forallb (λ c, implb (is_digit c) (existsb (Ascii.eqb c)
    ten_digits))
    (map ascii_of_nat (seq 0 256)) = true) as Hall by by vm_compute.
  rewrite forallb_forall in Hall. specialize (Hall c). rewrite Hc in Hall. cbn [implb] in Hall.
  rewrite existsb_exists in Hall. destruct Hall as (d & Hd & ->%Ascii.eqb_eq); [|done].
  rewrite <- (ascii_nat_embedding c). apply in_map, in_seq.
  pose proof (nat_ascii_bounded c). lia.
Qed.

Lemma digit_strings_complete n s :
  str_all is_digit s = true → (String.length s ≤ n)%nat → In s (digit_strings n).
Proof.
  revert s. induction n as [|n IH]; intros [|c s]; cbn [digit_strings str_all String.length]; try (by left); [lia|].
  intros [Hc Hs]%andb_true_iff Hl. right. apply in_flat_map. exists s. split; [apply IH; auto with lia|].
  by apply (in_map (λ c, String c s)), digit_char.
Qed.

(** A decimal without leading zero is the formatting of its value, up to four digits. *)
Definition format_checks (d : ascii) (ds : string) : bool :=
  String.eqb (format_int (digits_value 0 (String d ds))) (String d ds)
  && (1 <=? digits_value 0 (String d ds))%Z && (digits_value 0 (String d ds) <=? 9999)%Z.

Lemma format_digits d ds :
  in_range 49 57 d = true → str_all is_digit ds = true → (String.length ds ≤ 3)%nat →
  format_int (digits_value 0 (String d ds)) = String d ds ∧
  (1 ≤ digits_value 0 (String d ds) ≤ 9999)%Z.
Proof.
  intros Hd Hds Hl.
  assert (forallb (λ d, implb (in_range 49 57 d) (forallb (format_checks d) (digit_strings 3)))
    ten_digits = true) as Hall by by vm_compute.
  rewrite forallb_forall in Hall. specialize (Hall d (digit_char _ (lead_is_digit _ Hd))).
  rewrite Hd in Hall. cbn [implb] in Hall. rewrite forallb_forall in Hall.
  specialize (Hall ds (digit_strings_complete 3 ds Hds Hl)). unfold format_checks in Hall.
  apply andb_true_iff in Hall as [[H1%String.eqb_eq H2%Z.leb_le]%andb_true_iff H3%Z.leb_le]. done.
Qed.

Lemma digits_of_value v :
  (1 ≤ v ≤ 9999)%Z → ∃ d ds, format_int v = String d ds ∧ in_range 49 57 d = true ∧
    str_all is_digit ds = true ∧ (String.length ds ≤ 3)%nat ∧ digits_value 0 (String d ds) = v.
Proof.
  intros Hv.
  assert (forallb (λ n, let v := Z.of_nat n in
    match format_int v with
    | String d ds => in_range 49 57 d && str_all is_digit ds && (String.length ds <=? 3)%nat
                     && (digits_value 0 (String d ds) =? v)%Z
    | _ => false
    end) (seq 1 (100 * 100 - 1)) = true) as Hall by by vm_compute.
  rewrite forallb_forall in Hall. specialize (Hall (Z.to_nat v)).
  rewrite in_seq in Hall. cbv zeta in Hall. rewrite Z2Nat.id in Hall by lia.
  specialize (Hall ltac:(lia)). destruct (format_int v) as [|d ds]; [done|].
  exists d, ds. bool_hyps. split_and!; try done. by apply Nat.leb_le.
Qed.

Lemma window_seconds_value u v :
  is_unit u = true → (1 ≤ v ≤ 9999)%Z → window_seconds u v = (v * unit_seconds u)%Z.
Proof.
  intros Hu Hv. unfold is_unit in Hu. unfold window_seconds, unit_seconds.
  assert (Hw : ∀ k, (k = 60 ∨ k = 3600)%Z → wrap64 (v * k) = (v * k)%Z).
  { intros k Hk. apply wrap64_id. unfold int64_min, int64_max. lia. }
  destruct (Ascii.eqb u "s"); [cbv iota; lia|]. destruct (Ascii.eqb u "m"); [by apply Hw; left|].
  destruct (Ascii.eqb u "h"); [by apply Hw; right|done].
Qed.

(** a token rate is accepted exactly when its limit is between one and a
    billion and its window is a decimal number from 1 to 9999 without leading
    zeros, followed by [s], [m] or [h], of at most 366 days: the regular
    expression, the parse (which never fails after it) and the conversion to
    seconds in 64-bit arithmetic decide nothing else. *)
Theorem token_rate_bounds (limit : Z) (window : string) :
  validateTokenRateLimit limit window = Ok tt ↔
  (1 ≤ limit ≤ 1000000000)%Z ∧
  ∃ seconds, window_denotes window seconds ∧ (seconds ≤ 366 * 24 * 3600)%Z.
Proof.
  split.
  - intros [Hl (d & ds & u & -> & Hd & Hds & Hlen & Hu & Hs)]%validated_window. split; [done|].
    destruct (format_digits d ds Hd Hds Hlen) as [Hf Hv].
    rewrite window_seconds_value in Hs by done. eexists. split; [|exact Hs].
    exists (digits_value 0 (String d ds)), u. by rewrite Hf.
  - intros (Hl & secs & (v & u & -> & Hv & Hu & ->) & Hs).
    destruct (digits_of_value v Hv) as (d & ds & -> & Hd & Hds & Hlen & Hval).
    unfold validateTokenRateLimit, maxTokenRateLimit, maxWindowSeconds.
    rewrite (proj2 (Z.leb_gt limit 0)), (proj2 (Z.ltb_ge 1000000000 limit)) by lia.
    simpl String.append. cbn [windowPattern]. rewrite Hd.
    rewrite (proj2 (match_tail_spec 3 _ ds u)) by done.
    rewrite parse_digits_value; [|by simpl; rewrite Hds, (lead_is_digit _ Hd)|rewrite Hval; unfold int64_max; lia].
    rewrite Hval, window_seconds_value by done.
    by rewrite (proj2 (Z.ltb_ge _ _) Hs).
Qed.

(** ** The derived phase *)

Definition ready_models (ms : list ModelRefStatus) : list ModelRefStatus :=
  filter (λ s, ms_Ready s = true) ms.
(** The policies that report an unavailable backend for the name of a ready model. *)
Definition backend_issues (ms : list ModelRefStatus) (ts : list TRLPStatus) : list TRLPStatus :=
  filter (λ t, ts_Ready t = false ∧ ts_Reason t = ReasonBackendNotReady ∧
               ts_Model t ∈ map ms_Name (ready_models ms)) ts.
Definition unhealthy (ts : list TRLPStatus) : list TRLPStatus :=
  filter (λ t, ts_Ready t = false) ts.

Lemma count_models ms :
  let c := fold_left count_model ms {| validModelSet := ∅; validModels := 0; invalidModels := 0 |} in
  validModels c = Z.of_nat (length (ready_models ms)) ∧
  (validModels c + invalidModels c)%Z = Z.of_nat (length ms) ∧
  ∀ n, n ∈ validModelSet c ↔ n ∈ map ms_Name (ready_models ms).
Proof.
  induction ms as [|s ms IH] using rev_ind; [simpl; set_solver|].
  rewrite fold_left_app. cbn [fold_left] in *. unfold ready_models in *.
  rewrite filter_app, length_app, map_app, filter_cons, filter_nil.
  destruct IH as (Hv & Hs & Hn). unfold count_model at 1 3 5 7. cbv zeta.
  destruct (ms_Ready s); cbn [validModels invalidModels validModelSet];
    (case_decide; [|done || congruence]) || (case_decide; [done|]); cbn [map length];
    rewrite ?length_app; cbn [length]; (split; [lia|split; [lia|]]); intros n.
  - rewrite elem_of_union, elem_of_singleton, elem_of_app, list_elem_of_singleton, Hn. tauto.
  - by rewrite app_nil_r, Hn.
Qed.

Lemma count_trlps valid ts :
  let c := fold_left (count_trlp valid) ts
             {| healthyTRLPs := 0; unhealthyTRLPs := 0; modelsWithBackendIssues := 0 |} in
  unhealthyTRLPs c = Z.of_nat (length (unhealthy ts)) ∧
  modelsWithBackendIssues c = Z.of_nat (length (filter (λ t, ts_Ready t = false ∧
    ts_Reason t = ReasonBackendNotReady ∧ ts_Model t ∈ valid) ts)).
Proof.
  induction ts as [|t ts IH] using rev_ind; [done|].
  rewrite fold_left_app. cbn [fold_left] in *. unfold unhealthy in *.
  rewrite !filter_app, !length_app, !filter_cons, !filter_nil. destruct IH as [Hu Hb].
  unfold count_trlp at 1 3. destruct (ts_Ready t) eqn:Hr.
  - rewrite !decide_False by naive_solver. cbn [unhealthyTRLPs modelsWithBackendIssues length]. lia.
  - rewrite decide_True by done. cbn [unhealthyTRLPs modelsWithBackendIssues].
    split; [cbn [length]; lia|]. repeat case_bool_decide; cbn [andb].
    + rewrite decide_True by done. cbn [length]. lia.
    + rewrite decide_False by naive_solver. cbn [length]. lia.
    + rewrite decide_False by naive_solver. cbn [length]. lia.
    + rewrite decide_False by naive_solver. cbn [length]. lia.
Qed.

Lemma issues_unhealthy ms ts : (length (backend_issues ms ts) ≤ length (unhealthy ts))%nat.
Proof.
  unfold backend_issues, unhealthy. induction ts as [|t ts IH]; [done|].
  rewrite !filter_cons. repeat case_decide; simpl; try lia. naive_solver.
Qed.

(** [deriveFinalPhase] by its counts. *)
Lemma phase_counts ms ts :
  fst (deriveFinalPhase ms ts) =
  match ms with
  | [] => PhaseFailed
  | _ =>
      if (length (ready_models ms) <=? length (backend_issues ms ts))%nat then PhaseFailed
      else if (length ms - length (ready_models ms) + length (unhealthy ts) =? 0)%nat
           then PhaseActive else PhaseDegraded
  end.
Proof.
  unfold deriveFinalPhase. destruct ms as [|s ms]; [done|].
  destruct (count_models (s :: ms)) as (Hv & Hsum & Hset). revert Hv Hsum Hset.
  generalize (s :: ms). intros l. generalize (fold_left count_model l
    {| validModelSet := ∅; validModels := 0; invalidModels := 0 |}). intros mc Hv Hsum Hset.
  destruct (count_trlps (validModelSet mc) ts) as [Hu Hb]. revert Hu Hb.
  generalize (fold_left (count_trlp (validModelSet mc)) ts
    {| healthyTRLPs := 0; unhealthyTRLPs := 0; modelsWithBackendIssues := 0 |}). intros tc Hu Hb.
  assert (modelsWithBackendIssues tc = Z.of_nat (length (backend_issues l ts))) as Hi.
  { rewrite Hb. f_equal. f_equal. unfold backend_issues. apply list_filter_iff.
    intros t. by rewrite Hset. }
  pose proof (issues_unhealthy l ts). pose proof (length_filter (λ s, ms_Ready s = true) l).
  fold (ready_models l) in *. cbv zeta.
  destruct (Nat.leb_spec (length (ready_models l)) (length (backend_issues l ts)));
    destruct (Z.leb_spec (validModels mc - modelsWithBackendIssues tc) 0); try lia; [done|].
  destruct (Nat.eqb_spec (length l - length (ready_models l) + length (unhealthy ts)) 0);
    destruct (Z.ltb_spec 0 (invalidModels mc + modelsWithBackendIssues tc)); try lia; try done;
    destruct (Z.ltb_spec 0 (unhealthyTRLPs tc - modelsWithBackendIssues tc)); try lia; done.
Qed.

Lemma filter_full {A} (P : A → Prop) `{!∀ x, Decision (P x)} l :
  (length l ≤ length (filter P l))%nat ↔ ∀ x, x ∈ l → P x.
Proof.
  induction l as [|x l IH]; [split; [set_solver|done]|].
  pose proof (length_filter P l). rewrite filter_cons, <- Forall_forall, Forall_cons, Forall_forall, <- IH.
  case_decide; simpl; [split; [intros; split; [done|lia]|intros [_ ?]; lia]|].
  split; [lia|naive_solver].
Qed.

Lemma unhealthy_none ts :
  length (unhealthy ts) = 0%nat ↔ ∀ t, t ∈ ts → ts_Ready t = true.
Proof.
  unfold unhealthy. induction ts as [|t ts IH]; [split; [set_solver|done]|].
  rewrite filter_cons, <- Forall_forall, Forall_cons, Forall_forall.
  case_decide as Ht; simpl.
  - split; [done|]. intros [H _]. congruence.
  - rewrite IH. destruct (ts_Ready t); [tauto|done].
Qed.

(** a subscription is reported Active exactly when it references a model,
    every model is ready and every policy is ready; it is reported Failed
    exactly when it references no model or the ready models are at most as
    many as the policies reporting an unavailable backend for a ready model's
    name.  In every other case it is Degraded. *)
Theorem final_phase_exact (ms : list ModelRefStatus) (ts : list TRLPStatus) :
  (fst (deriveFinalPhase ms ts) = PhaseActive ↔
     ms ≠ [] ∧ (∀ s, s ∈ ms → ms_Ready s = true) ∧ (∀ t, t ∈ ts → ts_Ready t = true)) ∧
  (fst (deriveFinalPhase ms ts) = PhaseFailed ↔
     ms = [] ∨ (length (ready_models ms) ≤ length (backend_issues ms ts))%nat).
Proof.
  rewrite phase_counts. destruct ms as [|s0 ms']; [naive_solver|].
  assert (Hne : s0 :: ms' ≠ []) by done. assert (Hlen : (0 < length (s0 :: ms'))%nat) by (simpl; lia).
  revert Hne Hlen. generalize (s0 :: ms'). intros ms Hne Hlen.
  pose proof (issues_unhealthy ms ts) as Hiu. pose proof (length_filter (λ s, ms_Ready s = true) ms) as Hf.
  fold (ready_models ms) in Hf.
  assert (Hall : (∀ s, s ∈ ms → ms_Ready s = true) ↔ (length ms ≤ length (ready_models ms))%nat)
    by (symmetry; apply filter_full).
  rewrite Hall, <- unhealthy_none.
  destruct (Nat.leb_spec (length (ready_models ms)) (length (backend_issues ms ts))).
  - split; [|by split; auto]. split; [done|]. intros (_ & ? & ?). lia.
  - destruct (Nat.eqb_spec (length ms - length (ready_models ms) + length (unhealthy ts)) 0).
    + split; (split; [|try done]); [intros _; split_and!; [done|lia..]|done|intros [?|?]; [done|lia]].
    + split; (split; [done|]); [intros (_ & ? & ?); lia|intros [?|?]; [done|lia]].
Qed.

(** when the referenced models have distinct names and each has one policy
    status, the subscription fails exactly when no reference is usable: each
    ready model's policy reports that its backend is not ready. *)
Theorem failed_iff_all_unavailable (ms : list ModelRefStatus) (ts : list TRLPStatus) :
  NoDup (map ms_Name ms) → NoDup (map ts_Model ts) →
  (fst (deriveFinalPhase ms ts) = PhaseFailed ↔
   ∀ s, s ∈ ms → ms_Ready s = true →
     ∃ t, t ∈ ts ∧ ts_Model t = ms_Name s ∧ ts_Ready t = false ∧ ts_Reason t = ReasonBackendNotReady).
Proof.
  intros Hms Hts. rewrite phase_counts.
  set (names := map ms_Name (ready_models ms)). set (issues := map ts_Model (backend_issues ms ts)).
  assert (Hnn : NoDup names).
  { unfold names, ready_models. apply (sublist_NoDup _ _ Hms).
    apply (fmap_sublist ms_Name), sublist_filter. }
  assert (Hni : NoDup issues).
  { unfold issues, backend_issues. apply (sublist_NoDup _ _ Hts).
    apply (fmap_sublist ts_Model), sublist_filter. }
  assert (Hsub : ∀ n, n ∈ issues → n ∈ names).
  { unfold issues, backend_issues. intros n (t & -> & Ht)%list_elem_of_fmap.
    by apply list_elem_of_filter in Ht as [(_ & _ & ?) _]. }
  assert (Hlen : (length names ≤ length issues)%nat ↔ ∀ n, n ∈ names → n ∈ issues).
  { split.
    - intros Hl n Hn. apply NoDup_submseteq in Hsub; [|done].
      by rewrite <- (submseteq_length_Permutation _ _ Hsub Hl) in Hn.
    - intros Hinc. by apply submseteq_length, NoDup_submseteq. }
  assert (H1 : length names = length (ready_models ms)) by apply length_map.
  assert (H2 : length issues = length (backend_issues ms ts)) by apply length_map.
  assert (Hspec : (∀ n, n ∈ names → n ∈ issues) ↔ ∀ s, s ∈ ms → ms_Ready s = true →
    ∃ t, t ∈ ts ∧ ts_Model t = ms_Name s ∧ ts_Ready t = false ∧ ts_Reason t = ReasonBackendNotReady).
  { unfold names, issues. split.
    - intros H s Hs Hr. destruct (proj1 (list_elem_of_fmap _ _ _) (H (ms_Name s)
        (list_elem_of_fmap_2 _ _ _ (proj2 (list_elem_of_filter _ _ _) (conj Hr Hs))))) as (t & Hn & Ht).
      apply list_elem_of_filter in Ht as [(? & ? & _) ?]. by exists t.
    - intros H n Hn. pose proof Hn as Hn'. apply list_elem_of_fmap in Hn as (s & -> & Hs).
      apply list_elem_of_filter in Hs as [Hr Hs]. destruct (H s Hs Hr) as (t & Ht & Hm & Hnr & Hre).
      rewrite <- Hm. apply list_elem_of_fmap_2, list_elem_of_filter. by rewrite Hm. }
  rewrite <- Hspec, <- Hlen, H1, H2. destruct ms as [|s0 ms']; [split; [simpl; lia|done]|].
  destruct (Nat.leb_spec (length (ready_models (s0 :: ms'))) (length (backend_issues (s0 :: ms') ts)));
    [split; [lia|done]|]. split; [by destruct (_ =? 0)%nat|lia].
Qed.

(** ** Concrete subscriptions and statuses *)

Definition demo_meta (identity : string) : Controller.SubMeta := {|
  Controller.spec_RateLimitIdentity := identity; Controller.status_RateLimitIdentity := "";
  Controller.annotation_RateLimitIdentity := ""; Controller.Finalizers := [];
  Controller.status_Phase := ""; Controller.n_Conditions := 0; Controller.CreationTimestamp := None |}.
Definition demo_sub (name : string) (trls : list TokenRate) (unl : bool) (identity : string)
    : MaaSSubscription := {|
  sub_Namespace := "team"; sub_Name := name;
  ModelRefs := [{| mr_Name := "granite"; mr_Namespace := "llm"; TokenRateLimits := trls; Unlimited := unl; mr_Guardrails := [] |}];
  sub_Meta := demo_meta identity |}.
Definition per_minute : TokenRate := {| Limit := 100; Window := "1m" |}.
Definition per_day : TokenRate := {| Limit := 5000; Window := "24h" |}.
Definition demo_subs : list MaaSSubscription :=
  [demo_sub "a" [per_minute; per_day] false "short"; demo_sub "b" [per_day; per_minute; per_day] false "legacy";
   demo_sub "c" [] true "short"; demo_sub "d" [{| Limit := 1; Window := "0h" |}] false "short"].

Example demo_limit_names :
  option_map (λ p, (map fst (map_to_list (fst p)), snd p))
    (buildGroupedLimits (collect_subs 0 "llm" "granite" demo_subs)) =
  Some (["tokens-unlimited"; "tokens-100-per-1m-5000-per-24h-id"; "tokens-100-per-1m-5000-per-24h"],
        ["team/a"; "team/b"; "team/c"]).
Proof. vm_compute. reflexivity. Qed.

Definition demo_entry (i : nat) : subInfo :=
  nth i (collect_subs 0 "llm" "granite" demo_subs)
    {| subNamespace := ""; subName := ""; rates := []; unlimited := true; modelScoped := "";
       groupKey := ""; legacy := false |}.

Lemma limit_names_separate_witness :
  let subs := collect_subs 0 "llm" "granite" demo_subs in
  limit_name subs (demo_entry 0) = limit_name subs (demo_entry 1) ↔
    unlimited (demo_entry 0) = unlimited (demo_entry 1) ∧
    (unlimited (demo_entry 0) = false →
       (∀ r, r ∈ rates (demo_entry 0) ↔ r ∈ rates (demo_entry 1)) ∧
       legacy (demo_entry 0) = legacy (demo_entry 1)).
Proof.
  apply (limit_names_separate 0 "llm" "granite" demo_subs (demo_entry 0) (demo_entry 1)).
  - apply (list_elem_of_lookup_2 _ 0). vm_compute. reflexivity.
  - apply (list_elem_of_lookup_2 _ 1). vm_compute. reflexivity.
Defined.

Lemma grouped_limits_order_independent_witness :
  buildGroupedLimits (collect_subs 0 "llm" "granite" demo_subs) =
  buildGroupedLimits (collect_subs 0 "llm" "granite" (rev demo_subs)).
Proof. apply grouped_limits_order_independent. apply Permutation_rev. Defined.

Definition demo_status (ns name : string) (ready : bool) : ModelRefStatus := {|
  ms_Name := name; ms_Namespace := ns; ms_Ready := ready; ms_Reason := ReasonValid; ms_Message := "" |}.
Definition demo_trlp (ns model : string) (ready : bool) : TRLPStatus := {|
  ts_Name := "maas-trlp-" +:+ model; ts_Namespace := ns; ts_Ready := ready;
  ts_Reason := if ready then ReasonOther "Accepted" else ReasonBackendNotReady;
  ts_Message := ""; ts_Model := model |}.

Lemma failed_iff_all_unavailable_witness :
  let ms := [demo_status "llm" "a" true; demo_status "llm" "b" false] in
  let ts := [demo_trlp "llm" "a" false; demo_trlp "llm" "b" false] in
  fst (deriveFinalPhase ms ts) = PhaseFailed ↔
  ∀ s, s ∈ ms → ms_Ready s = true →
    ∃ t, t ∈ ts ∧ ts_Model t = ms_Name s ∧ ts_Ready t = false ∧ ts_Reason t = ReasonBackendNotReady.
Proof.
  apply failed_iff_all_unavailable; simpl; repeat constructor; set_solver.
Defined.

(** Two references to models of one name in different namespaces, of which one
    has lost its route: the corrected statuses already count it as invalid, and
    [deriveFinalPhase] subtracts it again from the other namespace's model,
    because its set of valid models holds bare names.  The subscription is
    reported Failed although a model is ready and its policy accepted. *)
Example namesake_fails_subscription :
  let ms := [demo_status "east" "granite" true; demo_status "west" "granite" true] in
  let ts := [demo_trlp "east" "granite" false; demo_trlp "west" "granite" true] in
  map ms_Ready (fst (reconciled_phase ms ts)) = [false; true] ∧
  snd (reconciled_phase ms ts) = (PhaseFailed, AllUnavailable 2).
Proof. by vm_compute. Qed.
