(* ===== verification/Identity.v ===== *)
(** * Identity: the trusted identity of a request

    [maas-api/internal/token]: the bounded envelope that carries a verified SSO
    identity ([identity.go]), the legacy username and group headers, and the
    user context both produce ([handler.go]).  The text of a JSON value is read
    through [scan], the token stream of [encoding/json]'s decoder: everything
    the source does with tokens (depth, duplicate keys, trailing data) and with
    the decoded value is modelled.  [uuid_string] is [uuid.Parse] followed by
    [String] of [github.com/google/uuid]. *)

From S2P Require Import Prelude GoStrings KeyGen KeyService.
From Stdlib Require String.
Local Open Scope string_scope.

Module Identity.

Definition MaxIdentityEnvelopeBytes : nat := 16 * 1024.
Definition maxIdentityJSONDepth : nat := 6.
Definition maxIdentityGroups : nat := 128.
Definition maxOrganizationRoles : nat := 64.
Definition maxAudiences : nat := 16.

(** [UserContext] of [types.go]. *)
Record UserContext := {
  Username : string; Groups : list string; Tenant : string; OrganizationID : string;
}.

Record Audience := { Value : string; Items : option (list string) }.
Record VerifiedClaims := {
  Issuer : string; Subject : string; Aud : Audience; AuthorizedParty : string;
  Name : string; GivenName : string; FamilyName : string; PreferredUsername : string;
  Email : string; ClaimGroups : list string; OrgID : string; OrgName : string; Roles : list string;
  orgIDPresent : bool; orgNamePresent : bool; rolesPresent : bool;
}.
Record VerifiedIdentity := { Source : string; Claims : VerifiedClaims }.

Definition zero_claims : VerifiedClaims := {|
  Issuer := ""; Subject := ""; Aud := {| Value := ""; Items := None |}; AuthorizedParty := "";
  Name := ""; GivenName := ""; FamilyName := ""; PreferredUsername := ""; Email := "";
  ClaimGroups := []; OrgID := ""; OrgName := ""; Roles := [];
  orgIDPresent := false; orgNamePresent := false; rolesPresent := false |}.

Inductive IdentityErr :=
| errIdentityTooLarge | errIdentityDepth | errIdentityDuplicateKey | errIdentityTrailingData
| errIdentityMalformed | errClaim (why : string).

(** ** The shape pass *)

(** A decoded JSON value; an object lists its entries in order, duplicates included. *)
Inductive Scalar := SNull | SBool (b : bool) | SNumber (literal : string).
Inductive Json :=
| JString (s : string)
| JScalar (c : Scalar)
| JArray (l : list Json)
| JObject (m : list (string * Json)).

(** A token of [json.Decoder]: a delimiter, a string (a key or a value), or
    another scalar.  The decoder itself refuses a mismatched delimiter. *)
Inductive JTok := TOpen (obj : bool) | TClose (obj : bool) | TStr (s : string) | TScalar (c : Scalar).

(** [decoder.More()]: the next token does not close.  Past the tokens the
    stream ends or holds a syntax error; either way the closing [Token] fails. *)
Definition More (ts : list JTok) : bool :=
  match ts with [] => false | TClose _ :: _ => false | _ => true end.

(** [validateJSONValue]; its two loops are [obj_loop] and [arr_loop].  [None] is
    a run out of fuel. *)
Fixpoint validateJSONValue (fuel : nat) (ts : list JTok) (depth : nat)
    : option (Res IdentityErr (list JTok)) :=
  match fuel with
  | O => None
  | S fuel =>
      if (maxIdentityJSONDepth <? depth)%nat then Some (Err errIdentityDepth) else
      match ts with
      | [] => Some (Err errIdentityMalformed)
      | TStr _ :: ts | TScalar _ :: ts => Some (Ok ts)
      | TClose _ :: _ => Some (Err errIdentityMalformed)
      | TOpen true :: ts => obj_loop fuel [] ts depth
      | TOpen false :: ts => arr_loop fuel ts depth
      end
  end
with obj_loop (fuel : nat) (seenKeys : list string) (ts : list JTok) (depth : nat)
    : option (Res IdentityErr (list JTok)) :=
  match fuel with
  | O => None
  | S fuel =>
      if More ts then
        match ts with
        | TStr key :: ts =>
            if bool_decide (key ∈ seenKeys) then Some (Err errIdentityDuplicateKey) else
            match validateJSONValue fuel ts (S depth) with
            | None => None
            | Some (Err e) => Some (Err e)
            | Some (Ok ts) => obj_loop fuel (key :: seenKeys) ts depth
            end
        | _ => Some (Err errIdentityMalformed)
        end
      else match ts with TClose true :: ts => Some (Ok ts) | _ => Some (Err errIdentityMalformed) end
  end
with arr_loop (fuel : nat) (ts : list JTok) (depth : nat) : option (Res IdentityErr (list JTok)) :=
  match fuel with
  | O => None
  | S fuel =>
      if More ts then
        match validateJSONValue fuel ts (S depth) with
        | None => None
        | Some (Err e) => Some (Err e)
        | Some (Ok ts) => arr_loop fuel ts depth
        end
      else match ts with TClose false :: ts => Some (Ok ts) | _ => Some (Err errIdentityMalformed) end
  end.

(** Two per token: one for the value, one for its loop. *)
Definition shape_fuel (ts : list JTok) : nat := S (2 * length ts).

(** [validateJSONShape]; [clean] tells whether the tokens end at [io.EOF]. *)
Definition validateJSONShape (stream : list JTok * bool) : option (Res IdentityErr unit) :=
  let '(ts, clean) := stream in
  match validateJSONValue (shape_fuel ts) ts 0 with
  | None => None
  | Some (Err e) => Some (Err e)
  | Some (Ok rest) =>
      Some (if bool_decide (rest = []) && clean then Ok tt else Err errIdentityTrailingData)
  end.

(** ** The typed decode *)

(** The value a token stream starts with, and what follows it. *)
Fixpoint read_value (fuel : nat) (ts : list JTok) : option (Json * list JTok) :=
  match fuel with
  | O => None
  | S fuel =>
      match ts with
      | TStr s :: ts => Some (JString s, ts)
      | TScalar c :: ts => Some (JScalar c, ts)
      | TOpen true :: ts => match read_entries fuel ts with
                            | Some (m, ts) => Some (JObject m, ts)
                            | None => None
                            end
      | TOpen false :: ts => match read_items fuel ts with
                             | Some (l, ts) => Some (JArray l, ts)
                             | None => None
                             end
      | _ => None
      end
  end
with read_entries (fuel : nat) (ts : list JTok) : option (list (string * Json) * list JTok) :=
  match fuel with
  | O => None
  | S fuel =>
      match ts with
      | TClose true :: ts => Some ([], ts)
      | TStr k :: ts =>
          match read_value fuel ts with
          | None => None
          | Some (v, ts) => match read_entries fuel ts with
                            | Some (m, ts) => Some ((k, v) :: m, ts)
                            | None => None
                            end
          end
      | _ => None
      end
  end
with read_items (fuel : nat) (ts : list JTok) : option (list Json * list JTok) :=
  match fuel with
  | O => None
  | S fuel =>
      match ts with
      | TClose false :: ts => Some ([], ts)
      | _ => match read_value fuel ts with
             | None => None
             | Some (v, ts) => match read_items fuel ts with
                               | Some (l, ts) => Some (v :: l, ts)
                               | None => None
                               end
             end
      end
  end.

(** Decoding into a Go [string]: [null] leaves the zero value. *)
Definition dec_string (v : Json) : option string :=
  match v with JString s => Some s | JScalar SNull => Some "" | _ => None end.
(** Into a [[]string]. *)
Definition dec_strings (v : Json) : option (list string) :=
  match v with JArray l => mapM dec_string l | JScalar SNull => Some [] | _ => None end.

(** [Audience.UnmarshalJSON]. *)
Definition dec_audience (v : Json) : option Audience :=
  match dec_string v with
  | Some s => Some {| Value := s; Items := None |}
  | None => match v with
            | JArray l => items ← mapM dec_string l; Some {| Value := ""; Items := Some items |}
            | _ => None
            end
  end.

(** The entry of a decoded Go map: the last one of the key. *)
Fixpoint last_entry (key : string) (m : list (string * Json)) : option Json :=
  match m with
  | [] => None
  | (k, v) :: m => match last_entry key m with
                   | Some v' => Some v'
                   | None => if String.eqb k key then Some v else None
                   end
  end.

Definition claim_keys : list string :=
  ["iss"; "sub"; "aud"; "azp"; "name"; "given_name"; "family_name"; "preferred_username"; "email";
   "groups"; "org_id"; "org_name"; "roles"].
Definition is_null (v : option Json) : bool :=
  match v with Some (JScalar SNull) => true | _ => false end.
Definition present (v : option Json) : bool := match v with Some _ => true | None => false end.

(** A field of the claims: its zero value when the key is absent. *)
Definition field {A} (dec : Json → option A) (zero : A) (key : string) (m : list (string * Json)) : option A :=
  match last_entry key m with Some v => dec v | None => Some zero end.

(** [VerifiedClaims.UnmarshalJSON].  Every key is one of the listed ones, which
    are the JSON names of the fields, so the case-insensitive matching of
    [encoding/json] plays no part here. *)
Definition dec_claims (v : Json) : option VerifiedClaims :=
  match v with
  | JScalar SNull => Some zero_claims
  | JObject m =>
      if negb (forallb (λ kv, bool_decide (fst kv ∈ claim_keys)) m) then None else
      if existsb (λ k, is_null (last_entry k m)) ["org_id"; "org_name"; "roles"] then None else
      iss ← field dec_string "" "iss" m; sub ← field dec_string "" "sub" m;
      aud ← field dec_audience {| Value := ""; Items := None |} "aud" m;
      azp ← field dec_string "" "azp" m; name ← field dec_string "" "name" m;
      given ← field dec_string "" "given_name" m; family ← field dec_string "" "family_name" m;
      preferred ← field dec_string "" "preferred_username" m; email ← field dec_string "" "email" m;
      groups ← field dec_strings [] "groups" m; org ← field dec_string "" "org_id" m;
      orgname ← field dec_string "" "org_name" m; roles ← field dec_strings [] "roles" m;
      Some {| Issuer := iss; Subject := sub; Aud := aud; AuthorizedParty := azp; Name := name;
              GivenName := given; FamilyName := family; PreferredUsername := preferred; Email := email;
              ClaimGroups := groups; OrgID := org; OrgName := orgname; Roles := roles;
              orgIDPresent := present (last_entry "org_id" m);
              orgNamePresent := present (last_entry "org_name" m);
              rolesPresent := present (last_entry "roles" m) |}
  | _ => None
  end.

(** [encoding/json]'s folding of a field name: ASCII case, and the two
    non-ASCII runes that fold to an ASCII letter (U+017F and U+212A). *)
Fixpoint fold_name (s : string) : string :=
  match s with
  | EmptyString => EmptyString
  | String a (String b r as r1) =>
      if (byte_of a =? 197)%Z && (byte_of b =? 191)%Z then String "s" (fold_name r) else
      match r with
      | String c r' =>
          if (byte_of a =? 226)%Z && (byte_of b =? 132)%Z && (byte_of c =? 170)%Z
          then String "k" (fold_name r') else String (lower_char a) (fold_name r1)
      | EmptyString => String (lower_char a) (fold_name r1)
      end
  | String a r => String (lower_char a) (fold_name r)
  end.

(** One entry of the envelope object: field names match exactly or by folding,
    unknown ones are refused, a later entry overwrites an earlier one. *)
Definition dec_envelope_entry (id : VerifiedIdentity) (kv : string * Json) : option VerifiedIdentity :=
  let '(k, v) := kv in
  if String.eqb (fold_name k) "source"
  then match v with
       | JScalar SNull => Some id
       | _ => s ← dec_string v; Some {| Source := s; Claims := Claims id |}
       end
  else if String.eqb (fold_name k) "claims"
  then c ← dec_claims v; Some {| Source := Source id; Claims := c |}
  else None.

Fixpoint dec_entries (id : VerifiedIdentity) (m : list (string * Json)) : option VerifiedIdentity :=
  match m with
  | [] => Some id
  | kv :: m => id ← dec_envelope_entry id kv; dec_entries id m
  end.

Definition zero_identity : VerifiedIdentity := {| Source := ""; Claims := zero_claims |}.
Definition dec_identity (v : Json) : option VerifiedIdentity :=
  match v with
  | JScalar SNull => Some zero_identity
  | JObject m => dec_entries zero_identity m
  | _ => None
  end.

(** ** Validation *)

Definition nonEmptyBoundedString (value : string) (limit : nat) : bool :=
  negb (String.eqb value "") && (String.length value <=? limit)%nat.
Definition optionalBoundedString (value : string) (limit : nat) : bool :=
  String.eqb value "" || (String.length value <=? limit)%nat.

Section Identity.
(** [json.Decoder]'s token stream of a text, and whether it ends at [io.EOF]. *)
Variable scan : string → list JTok * bool.
(** [uuid.Parse] and the canonical text of its result. *)
Variable uuid_string : string → option string.

Definition audiences (a : Audience) : list string :=
  if negb (String.eqb (Value a) "") then [Value a] else default [] (Items a).

Definition validateOrganizationClaims (claims : VerifiedClaims) : Res IdentityErr unit :=
  if negb (orgIDPresent claims) then
    reject errClaim "organization claims require org_id"
      when orgNamePresent claims || rolesPresent claims ;;
    Ok tt
  else
    reject errClaim "invalid organization id"
      when negb (bool_decide (uuid_string (OrgID claims) = Some (OrgID claims))) ;;
    reject errClaim "duplicate organization group" when negb (bool_decide (NoDup (ClaimGroups claims))) ;;
    reject errClaim "invalid organization name claim" when negb (optionalBoundedString (OrgName claims) 256) ;;
    reject errClaim "too many organization roles" when (maxOrganizationRoles <? length (Roles claims))%nat ;;
    reject errClaim "invalid organization role"
      when negb (forallb (λ role, nonEmptyBoundedString role 128) (Roles claims)) ;;
    Ok tt.

Definition validate (identity : VerifiedIdentity) : Res IdentityErr unit :=
  reject errClaim "unsupported identity source" when negb (String.eqb (Source identity) "oidc") ;;
  let claims := Claims identity in
  reject errClaim "invalid issuer claim" when negb (nonEmptyBoundedString (Issuer claims) 2048) ;;
  reject errClaim "invalid subject claim" when negb (nonEmptyBoundedString (Subject claims) 256) ;;
  reject errClaim "invalid authorized party claim"
    when negb (nonEmptyBoundedString (AuthorizedParty claims) 256) ;;
  reject errClaim "invalid name claim" when negb (optionalBoundedString (Name claims) 256) ;;
  reject errClaim "invalid given name claim" when negb (optionalBoundedString (GivenName claims) 256) ;;
  reject errClaim "invalid family name claim" when negb (optionalBoundedString (FamilyName claims) 256) ;;
  reject errClaim "invalid preferred username claim"
    when negb (optionalBoundedString (PreferredUsername claims) 256) ;;
  reject errClaim "invalid email claim" when negb (optionalBoundedString (Email claims) 320) ;;
  let value := Value (Aud claims) in
  let items := default [] (Items (Aud claims)) in
  reject errClaim "missing audience claim" when String.eqb value "" && (length items =? 0)%nat ;;
  reject errClaim "audience claim has both representations"
    when negb (String.eqb value "") && negb (length items =? 0)%nat ;;
  reject errClaim "too many audiences" when (maxAudiences <? length (audiences (Aud claims)))%nat ;;
  reject errClaim "invalid audience claim"
    when negb (forallb (λ a, nonEmptyBoundedString a 256) (audiences (Aud claims))) ;;
  reject errClaim "too many groups" when (maxIdentityGroups <? length (ClaimGroups claims))%nat ;;
  reject errClaim "invalid group claim"
    when negb (forallb (λ g, nonEmptyBoundedString g 256) (ClaimGroups claims)) ;;
  validateOrganizationClaims claims.

(** [ParseIdentityEnvelope]; the shape pass has already accepted the tokens when
    they are decoded. *)
Definition ParseIdentityEnvelope (value : string) : option (Res IdentityErr VerifiedIdentity) :=
  if (MaxIdentityEnvelopeBytes <? String.length value)%nat then Some (Err errIdentityTooLarge) else
  let stream := scan value in
  match validateJSONShape stream with
  | None => None
  | Some (Err e) => Some (Err e)
  | Some (Ok _) =>
      match read_value (shape_fuel (fst stream)) (fst stream) with
      | None => Some (Err errIdentityMalformed)
      | Some (v, _) =>
          match dec_identity v with
          | None => Some (Err errIdentityMalformed)
          | Some identity => Some (_ <- validate identity ;; Ok identity)
          end
      end
  end.

(** [QualifiedGroups] of a non-nil identity. *)
Definition QualifiedGroups (identity : VerifiedIdentity) : list string :=
  if String.eqb (OrgID (Claims identity)) "" then ClaimGroups (Claims identity)
  else map (λ group, OrgID (Claims identity) +:+ "/" +:+ group) (ClaimGroups (Claims identity)).

(** ** Headers *)

(** [strings.Fields]. *)
Fixpoint fields_from (fuel : nat) (word : string) (s : string) : list string :=
  let emit := if String.eqb word "" then [] else [str_rev word] in
  match fuel with
  | O => emit
  | S fuel =>
      match s with
      | EmptyString => emit
      | String a s1 =>
          if space1 a then (emit ++ fields_from fuel "" s1)%list else
          match s1 with
          | String b s2 =>
              if space2 a b then (emit ++ fields_from fuel "" s2)%list else
              match s2 with
              | String c s3 => if space3 a b c then (emit ++ fields_from fuel "" s3)%list
                               else fields_from fuel (String a word) s1
              | EmptyString => fields_from fuel (String a word) s1
              end
          | EmptyString => fields_from fuel (String a word) s1
          end
      end
  end.
Definition Fields (s : string) : list string := fields_from (String.length s) "" s.

(** [json.Unmarshal] of a whole text into a [[]string]. *)
Definition unmarshal_strings (text : string) : option (list string) :=
  let '(ts, clean) := scan text in
  match read_value (shape_fuel ts) ts with
  | Some (v, []) => if clean then dec_strings v else None
  | _ => None
  end.

Inductive HeaderErr := HeaderEmpty | UnsupportedFormat | NoGroups.

Definition ends_with (c : ascii) (s : string) : bool :=
  match str_rev s with String d _ => Ascii.eqb c d | EmptyString => false end.

Definition ParseGroupsHeader (header : string) : Res HeaderErr (list string) :=
  reject HeaderEmpty when String.eqb header "" ;;
  let trimmed := trim_space header in
  if String.eqb trimmed "[]" then Ok [] else
  parsedGroups <- match unmarshal_strings header with
                  | Some gs => Ok gs
                  | None =>
                      if has_prefix "[" trimmed && ends_with "]" trimmed
                      then Ok (Fields (str_take (String.length trimmed - 2) (str_drop 1 trimmed)))
                      else Err UnsupportedFormat
                  end ;;
  let validGroups := filter (λ g, g ≠ "") parsedGroups in
  reject NoGroups when bool_decide (validGroups = []) ;;
  Ok validGroups.

(** ** The middlewares

    A middleware passes the request on with the values it set, or aborts it
    with a status. *)
Inductive Decision (A : Type) := Next (a : A) | AbortWith (status : Z).
Arguments Next {A} a.
Arguments AbortWith {A} status.

(** The "verified_identity" value of a request: absent, present with an
    unexpected type or nil ([Some None]), or an identity. *)
Definition CtxIdentity := option (option VerifiedIdentity).

(** [header.Values(HeaderIdentity)]. *)
Definition validateOptionalIdentityHeaders (values : list string) : bool :=
  match values with [] => true | [v] => negb (String.eqb v "") | _ => false end.
Definition validateTrustedIdentityHeaders (values : list string) : bool :=
  match values with [] => true | _ => false end.

Definition header_get (values : list string) : string := default "" (head values).

Definition ExtractVerifiedIdentityOptional (values : list string) : option (Decision CtxIdentity) :=
  if negb (validateOptionalIdentityHeaders values) then Some (AbortWith 401) else
  let value := header_get values in
  if String.eqb value "" then Some (Next None) else
  match ParseIdentityEnvelope value with
  | None => None
  | Some (Err _) => Some (AbortWith 401)
  | Some (Ok identity) => Some (Next (Some (Some identity)))
  end.

Definition ExtractVerifiedIdentity (values : list string) : option (Decision CtxIdentity) :=
  if negb (validateOptionalIdentityHeaders values) then Some (AbortWith 401) else
  let value := header_get values in
  if String.eqb value "" then Some (AbortWith 401) else
  match ParseIdentityEnvelope value with
  | None => None
  | Some (Err _) => Some (AbortWith 401)
  | Some (Ok identity) => Some (Next (Some (Some identity)))
  end.

Definition RejectTrustedIdentityHeaders (values : list string) : Decision unit :=
  if validateTrustedIdentityHeaders values then Next tt else AbortWith 401.

Variable tenantName : string.

Definition setUserContextFromVerifiedIdentity (value : option VerifiedIdentity) : Decision (option UserContext) :=
  match value with
  | None => AbortWith 500
  | Some identity =>
      let claims := Claims identity in
      let groups := if KeyService.AllValid (ClaimGroups claims) then QualifiedGroups identity else [] in
      let username := if String.eqb (PreferredUsername claims) "" then Subject claims
                      else PreferredUsername claims in
      Next (Some {| Username := username; Groups := "system:authenticated" :: groups;
                    Tenant := tenantName; OrganizationID := OrgID claims |})
  end.

(** The legacy identity headers. *)
Record LegacyHeaders := { h_Username : string; h_Group : string; h_OrganizationID : string }.

Definition ExtractUserInfo (value : CtxIdentity) (h : LegacyHeaders) : Decision (option UserContext) :=
  match value with
  | Some identity => setUserContextFromVerifiedIdentity identity
  | None =>
      let username := trim_space (h_Username h) in
      let organizationID := trim_space (h_OrganizationID h) in
      if String.eqb username "" then AbortWith 500 else
      if String.eqb (h_Group h) "" then AbortWith 500 else
      match ParseGroupsHeader (h_Group h) with
      | Err _ => AbortWith 500
      | Ok groups => Next (Some {| Username := username; Groups := groups; Tenant := tenantName;
                                   OrganizationID := organizationID |})
      end
  end.

Definition ExtractUserInfoOptional (value : CtxIdentity) (h : LegacyHeaders) : Decision (option UserContext) :=
  match value with
  | Some identity => setUserContextFromVerifiedIdentity identity
  | None =>
      let username := trim_space (h_Username h) in
      let organizationID := trim_space (h_OrganizationID h) in
      if String.eqb username "" || String.eqb (h_Group h) "" then Next None else
      match ParseGroupsHeader (h_Group h) with
      | Err _ => AbortWith 500
      | Ok groups => Next (Some {| Username := username; Groups := groups; Tenant := tenantName;
                                   OrganizationID := organizationID |})
      end
  end.

(** [hasInferenceAPIKeyCredential] on the values of the two headers. *)
Definition hasInferenceAPIKeyCredential (authorization apiKeys : list string) : bool :=
  existsb (λ a,
    match Fields a with
    | f0 :: (_ :: _) as rest =>
        String.eqb (to_lower f0) "bearer" && has_prefix KeyGen.KeyPrefix (join " " (tail rest))
    | _ => false
    end) authorization
  || existsb (λ k, has_prefix KeyGen.KeyPrefix (trim_space k)) apiKeys.

Record IdentityResponse := {
  r_Issuer : string; r_Subject : string; r_Name : string; r_GivenName : string; r_FamilyName : string;
  r_PreferredUsername : string; r_Email : string; r_Groups : list string; r_OrgID : string;
  r_OrgName : string; r_Roles : list string;
}.

(** [GetMe]; the user value is absent, or of another type or nil, or a context. *)
Definition GetMe (authorization apiKeys : list string) (value : CtxIdentity)
    (user : option (option UserContext)) : Decision IdentityResponse :=
  if hasInferenceAPIKeyCredential authorization apiKeys then AbortWith 401 else
  match value with
  | Some None => AbortWith 401
  | Some (Some identity) =>
      let c := Claims identity in
      Next {| r_Issuer := Issuer c; r_Subject := Subject c; r_Name := Name c; r_GivenName := GivenName c;
              r_FamilyName := FamilyName c; r_PreferredUsername := PreferredUsername c; r_Email := Email c;
              r_Groups := ClaimGroups c; r_OrgID := OrgID c; r_OrgName := OrgName c; r_Roles := Roles c |}
  | None =>
      match user with
      | Some (Some u) =>
          if String.eqb (Username u) "" then AbortWith 401 else
          Next {| r_Issuer := ""; r_Subject := Username u; r_Name := Username u; r_GivenName := "";
                  r_FamilyName := ""; r_PreferredUsername := Username u; r_Email := "";
                  r_Groups := Groups u; r_OrgID := ""; r_OrgName := ""; r_Roles := [] |}
      | _ => AbortWith 401
      end
  end.
End Identity.
Arguments Next {A} a.
Arguments AbortWith {A} status.
End Identity.
