(* ===== verification/IdentityFacts.v ===== *)
(** * IdentityFacts: what an accepted identity envelope guarantees

    The shape pass accepts exactly the token streams of one JSON value of
    bounded depth without duplicate keys, and always terminates; an accepted
    envelope is well formed; the groups of an identity with an organization
    are confined to it. *)

From S2P Require Import Prelude GoStrings KeyGen KeyService Identity.
From Stdlib Require String.
Import Identity.
Local Open Scope string_scope.

(** ** Reference printer and shape *)

Fixpoint tokens_of (v : Json) : list JTok :=
  match v with
  | JString s => [TStr s]
  | JScalar c => [TScalar c]
  | JArray l => TOpen false :: flat_map tokens_of l ++ [TClose false]
  | JObject m => TOpen true :: flat_map (λ kv, TStr (fst kv) :: tokens_of (snd kv)) m ++ [TClose true]
  end%list.
Definition entry_tokens (kv : string * Json) : list JTok := TStr (fst kv) :: tokens_of (snd kv).

Fixpoint shape_ok (depth : nat) (v : Json) : bool :=
  (depth <=? maxIdentityJSONDepth)%nat &&
  match v with
  | JArray l => forallb (shape_ok (S depth)) l
  | JObject m => bool_decide (NoDup (map fst m)) && forallb (λ kv, shape_ok (S depth) (snd kv)) m
  | _ => true
  end.

Lemma tokens_pos v : (1 ≤ length (tokens_of v))%nat.
Proof. destruct v; simpl; lia. Qed.

(** ** Soundness: accepted tokens print a value of the right shape *)

Definition val_sound (fuel : nat) : Prop :=
  ∀ ts d rest, validateJSONValue fuel ts d = Some (Ok rest) →
    ∃ v, ts = (tokens_of v ++ rest)%list ∧ shape_ok d v = true.

Lemma leb_depth d : (maxIdentityJSONDepth <? d)%nat = false → (d <=? maxIdentityJSONDepth)%nat = true.
Proof. rewrite Nat.ltb_ge, Nat.leb_le. done. Qed.

Lemma obj_sound fuel :
  (∀ n, (n < fuel)%nat → val_sound n) →
  ∀ seen ts d rest, obj_loop fuel seen ts d = Some (Ok rest) →
    ∃ m, ts = (flat_map entry_tokens m ++ TClose true :: rest)%list ∧
      NoDup (map fst m) ∧ (∀ k, k ∈ seen → k ∉ map fst m) ∧
      forallb (λ kv, shape_ok (S d) (snd kv)) m = true.
Proof.
  induction fuel as [|fuel IH]; [done|]. intros Hv seen ts d rest. cbn [obj_loop].
  destruct ts as [|[o|o|k|c] ts]; cbn [More]; try done.
  - destruct o; [|done]. intros [= <-]. exists []. split_and!; try done; [constructor|set_solver].
  - destruct (bool_decide (k ∈ seen)) eqn:Hk; [done|]. apply bool_decide_eq_false in Hk.
    destruct (validateJSONValue fuel ts (S d)) as [[ts'|]|] eqn:E; try done. intros H.
    apply (Hv fuel) in E as (v & -> & Hs); [|lia].
    apply IH in H as (m & -> & Hnd & Hseen & Hm); [|intros; apply Hv; lia].
    exists ((k, v) :: m). split_and!.
    + simpl. unfold entry_tokens at 2. simpl. by rewrite <- app_assoc.
    + simpl. constructor; [|done]. apply Hseen. by left.
    + simpl. intros k' Hk'. rewrite not_elem_of_cons. split; [congruence|]. apply Hseen. by right.
    + simpl. by rewrite Hs, Hm.
Qed.

Lemma arr_sound fuel :
  (∀ n, (n < fuel)%nat → val_sound n) →
  ∀ ts d rest, arr_loop fuel ts d = Some (Ok rest) →
    ∃ l, ts = (flat_map tokens_of l ++ TClose false :: rest)%list ∧ forallb (shape_ok (S d)) l = true.
Proof.
  induction fuel as [|fuel IH]; [done|]. intros Hv ts d rest. cbn [arr_loop].
  destruct (More ts) eqn:HM.
  - destruct (validateJSONValue fuel ts (S d)) as [[ts'|]|] eqn:E; try done. intros H.
    apply (Hv fuel) in E as (v & -> & Hs); [|lia].
    apply IH in H as (l & -> & Hl); [|intros; apply Hv; lia].
    exists (v :: l). simpl. rewrite <- app_assoc. by rewrite Hs, Hl.
  - destruct ts as [|[o|o|k|c] ts]; try done. destruct o; [done|]. intros [= <-]. by exists [].
Qed.

Lemma value_sound fuel : val_sound fuel.
Proof.
  induction fuel as [fuel IH] using lt_wf_ind. destruct fuel as [|fuel]; [done|].
  intros ts d rest. cbn [validateJSONValue].
  destruct (maxIdentityJSONDepth <? d)%nat eqn:Hd; [done|]. apply leb_depth in Hd.
  destruct ts as [|[[]|o|s|c] ts]; try done.
  - intros H. apply obj_sound in H as (m & -> & Hnd & _ & Hm); [|intros; apply IH; lia].
    exists (JObject m). simpl. rewrite Hd, Hm, bool_decide_eq_true_2 by done.
    by rewrite <- app_assoc.
  - intros H. apply arr_sound in H as (l & -> & Hl); [|intros; apply IH; lia].
    exists (JArray l). simpl. rewrite Hd, Hl. by rewrite <- app_assoc.
  - intros [= <-]. exists (JString s). simpl. by rewrite Hd.
  - intros [= <-]. exists (JScalar c). simpl. by rewrite Hd.
Qed.

(** ** Completeness, with the fuel that is enough *)

Definition val_complete (n : nat) : Prop :=
  ∀ v d fuel rest, (length (tokens_of v) ≤ n)%nat → shape_ok d v = true →
    (2 * length (tokens_of v) ≤ fuel)%nat →
    validateJSONValue fuel (tokens_of v ++ rest) d = Some (Ok rest).

Lemma tokens_more v rest : More (tokens_of v ++ rest)%list = true.
Proof. by destruct v. Qed.

Lemma obj_complete n d m rest :
  val_complete n →
  ∀ seen fuel, (length (flat_map entry_tokens m) ≤ S n)%nat →
    NoDup (map fst m) → (∀ k, k ∈ seen → k ∉ map fst m) →
    forallb (λ kv, shape_ok (S d) (snd kv)) m = true →
    (2 * length (flat_map entry_tokens m) + 1 ≤ fuel)%nat →
    obj_loop fuel seen (flat_map entry_tokens m ++ TClose true :: rest) d = Some (Ok rest).
Proof.
  intros Hv. induction m as [|[k v] m IH]; intros seen fuel Hn Hnd Hseen Hs Hf.
  - destruct fuel as [|fuel]; [simpl in Hf; lia|]. done.
  - cbn [flat_map] in Hn, Hf |- *. unfold entry_tokens at 1 in Hn. unfold entry_tokens at 1 in Hf.
    unfold entry_tokens at 1. cbn [fst snd app length] in Hn, Hf |- *.
    rewrite length_app in Hn, Hf. destruct fuel as [|fuel]; [lia|].
    cbn [obj_loop More]. rewrite bool_decide_eq_false_2 by (intros Hk; apply (Hseen k Hk); by left).
    simpl in Hs. apply andb_true_iff in Hs as [Hs1 Hs2].
    rewrite <- app_assoc, Hv by (try done; lia). apply NoDup_cons in Hnd as [Hk Hnd].
    apply IH; try done; try lia.
    intros k' [->|Hk']%elem_of_cons; [done|]. intros Hin. apply (Hseen k' Hk'). by right.
Qed.

Lemma arr_complete n d l rest :
  val_complete n →
  ∀ fuel, (length (flat_map tokens_of l) ≤ n)%nat → forallb (shape_ok (S d)) l = true →
    (2 * length (flat_map tokens_of l) + 1 ≤ fuel)%nat →
    arr_loop fuel (flat_map tokens_of l ++ TClose false :: rest) d = Some (Ok rest).
Proof.
  intros Hv. induction l as [|v l IH]; intros fuel Hn Hs Hf.
  - destruct fuel as [|fuel]; [simpl in Hf; lia|]. done.
  - cbn [flat_map] in Hn, Hf |- *. rewrite length_app in Hn, Hf. pose proof (tokens_pos v).
    destruct fuel as [|fuel]; [lia|]. cbn [arr_loop].
    simpl in Hs. apply andb_true_iff in Hs as [Hs1 Hs2].
    rewrite <- app_assoc, tokens_more, Hv by (try done; lia). apply IH; [lia|done|lia].
Qed.

Lemma value_complete n : val_complete n.
Proof.
  induction n as [|n IH]; intros v d fuel rest Hn Hs Hf.
  { pose proof (tokens_pos v). lia. }
  destruct fuel as [|fuel]; [pose proof (tokens_pos v); lia|].
  assert (Hd : (maxIdentityJSONDepth <? d)%nat = false).
  { destruct v; simpl in Hs; rewrite ?andb_true_iff, ?Nat.leb_le in Hs; apply Nat.ltb_ge; lia. }
  destruct v as [s|c|l|m]; cbn [validateJSONValue tokens_of app]; rewrite Hd; try done.
  - cbn [tokens_of length] in Hn, Hf. rewrite length_app in Hn, Hf. cbn [length] in Hn, Hf.
    rewrite <- app_assoc. cbn [app]. apply (arr_complete n); [done|lia| |lia].
    simpl in Hs. by apply andb_true_iff in Hs as [_ ?].
  - change (flat_map (λ kv, TStr (fst kv) :: tokens_of (snd kv)) m) with (flat_map entry_tokens m) in *.
    cbn [tokens_of length] in Hn, Hf.
    change (flat_map (λ kv, TStr (fst kv) :: tokens_of (snd kv)) m) with (flat_map entry_tokens m) in *.
    rewrite length_app in Hn, Hf. cbn [length] in Hn, Hf.
    rewrite <- app_assoc. cbn [app]. simpl in Hs. apply andb_true_iff in Hs as [_ [Hnd Hs]%andb_true_iff].
    apply bool_decide_eq_true in Hnd. apply (obj_complete n); [done|lia|done|set_solver|done|lia].
Qed.

(** ** Termination: the fuel given by [shape_fuel] is always enough *)

Definition val_total (n : nat) : Prop :=
  ∀ ts d fuel, (length ts ≤ n)%nat → (2 * length ts < fuel)%nat →
    ∃ r, validateJSONValue fuel ts d = Some r ∧ ∀ rest, r = Ok rest → (length rest < length ts)%nat.

Lemma obj_total n : val_total n →
  ∀ k ts seen d fuel, (k ≤ S n)%nat → (length ts ≤ k)%nat → (2 * length ts + 2 ≤ fuel)%nat →
    ∃ r, obj_loop fuel seen ts d = Some r ∧ ∀ rest, r = Ok rest → (length rest ≤ length ts)%nat.
Proof.
  intros Hv. induction k as [|k IH]; intros ts seen d fuel Hkn Hk Hf; destruct fuel as [|fuel]; try lia;
    cbn [obj_loop]; destruct ts as [|[o|[]|s|c] ts]; cbn [More length] in *; try lia;
    try (eexists; split; [done|]; intros ? [=]; subst; lia).
  destruct (bool_decide (s ∈ seen)); [eexists; split; [reflexivity|done]|].
  destruct (Hv ts (S d) fuel) as ([ts'|e] & -> & Hlen); [lia|lia| |eexists; split; [reflexivity|done]].
  specialize (Hlen ts' eq_refl). destruct (IH ts' (s :: seen) d fuel) as (r & -> & Hr); [lia..|].
  eexists. split; [done|]. intros rest Hrest. specialize (Hr rest Hrest). lia.
Qed.

Lemma arr_total n : val_total n →
  ∀ k ts d fuel, (k ≤ n)%nat → (length ts ≤ k)%nat → (2 * length ts + 2 ≤ fuel)%nat →
    ∃ r, arr_loop fuel ts d = Some r ∧ ∀ rest, r = Ok rest → (length rest ≤ length ts)%nat.
Proof.
  intros Hv. induction k as [|k IH]; intros ts d fuel Hkn Hk Hf; destruct fuel as [|fuel]; try lia;
    cbn [arr_loop].
  - destruct ts; [|simpl in Hk; lia]. eexists; split; [reflexivity|done].
  - destruct (More ts) eqn:HM.
    + destruct (Hv ts (S d) fuel) as ([ts'|e] & -> & Hlen); [lia|lia| |eexists; split; [reflexivity|done]].
      specialize (Hlen ts' eq_refl). destruct (IH ts' d fuel) as (r & -> & Hr); [lia..|].
      eexists. split; [done|]. intros rest Hrest. specialize (Hr rest Hrest). lia.
    + destruct ts as [|[o|[]|s|c] ts]; try (eexists; split; [reflexivity|done]).
      eexists. split; [done|]. intros ? [=]; subst. simpl. lia.
Qed.

Lemma value_total n : val_total n.
Proof.
  induction n as [|n IH]; intros ts d fuel Hn Hf; destruct fuel as [|fuel]; try lia;
    cbn [validateJSONValue]; (destruct (maxIdentityJSONDepth <? d)%nat; [eexists; split; [reflexivity|done]|]).
  - destruct ts; [|simpl in Hn; lia]. eexists; split; [reflexivity|done].
  - destruct ts as [|[[]|o|s|c] ts]; try (eexists; split; [reflexivity|done]); cbn [length] in *.
    + destruct (obj_total n IH n ts [] d fuel) as (r & -> & Hr); [lia..|].
      eexists. split; [done|]. intros rest Hrest. specialize (Hr rest Hrest). lia.
    + destruct (arr_total n IH n ts d fuel) as (r & -> & Hr); [lia..|].
      eexists. split; [done|]. intros rest Hrest. specialize (Hr rest Hrest). lia.
    + eexists. split; [done|]. intros ? [=]; subst. lia.
    + eexists. split; [done|]. intros ? [=]; subst. lia.
Qed.

Lemma shape_terminates ts : validateJSONValue (shape_fuel ts) ts 0 ≠ None.
Proof.
  destruct (value_total (length ts) ts 0 (shape_fuel ts)) as (r & -> & _); [done|unfold shape_fuel; lia|done].
Qed.

(** ** Reading a value back *)

Definition read_complete_at (n : nat) : Prop :=
  ∀ v fuel rest, (length (tokens_of v) ≤ n)%nat → (2 * length (tokens_of v) ≤ fuel)%nat →
    read_value fuel (tokens_of v ++ rest) = Some (v, rest).

Lemma entries_complete n m rest :
  read_complete_at n →
  ∀ fuel, (length (flat_map entry_tokens m) ≤ S n)%nat →
    (2 * length (flat_map entry_tokens m) + 1 ≤ fuel)%nat →
    read_entries fuel (flat_map entry_tokens m ++ TClose true :: rest) = Some (m, rest).
Proof.
  intros Hv. induction m as [|[k v] m IH]; intros fuel Hn Hf;
    (destruct fuel as [|fuel]; [simpl in Hf; lia|]); [done|].
  cbn [flat_map] in Hn, Hf |- *. unfold entry_tokens at 1 in Hn. unfold entry_tokens at 1 in Hf.
  unfold entry_tokens at 1. cbn [fst snd app length] in Hn, Hf |- *.
  rewrite length_app in Hn, Hf. cbn [read_entries]. rewrite <- app_assoc, Hv by lia.
  by rewrite IH by lia.
Qed.

Lemma items_complete n l rest :
  read_complete_at n →
  ∀ fuel, (length (flat_map tokens_of l) ≤ n)%nat →
    (2 * length (flat_map tokens_of l) + 1 ≤ fuel)%nat →
    read_items fuel (flat_map tokens_of l ++ TClose false :: rest) = Some (l, rest).
Proof.
  intros Hv. induction l as [|v l IH]; intros fuel Hn Hf;
    (destruct fuel as [|fuel]; [simpl in Hf; lia|]); [done|].
  cbn [flat_map] in Hn, Hf |- *. rewrite length_app in Hn, Hf. pose proof (tokens_pos v).
  assert (Hstep : ∀ ts, read_items (S fuel) (tokens_of v ++ ts) =
    match read_value fuel (tokens_of v ++ ts) with
    | None => None
    | Some (v, ts) => match read_items fuel ts with Some (l, ts) => Some (v :: l, ts) | None => None end
    end) by (intros ts; destruct v; reflexivity).
  rewrite <- app_assoc, Hstep, Hv by lia. by rewrite IH by lia.
Qed.

Lemma read_complete n : read_complete_at n.
Proof.
  induction n as [|n IH]; intros v fuel rest Hn Hf.
  { pose proof (tokens_pos v). lia. }
  destruct fuel as [|fuel]; [pose proof (tokens_pos v); lia|].
  destruct v as [s|c|l|m]; cbn [read_value tokens_of app]; try done.
  - cbn [tokens_of length] in Hn, Hf. rewrite length_app in Hn, Hf. cbn [length] in Hn, Hf.
    rewrite <- app_assoc. cbn [app]. by rewrite (items_complete n) by (try done; lia).
  - cbn [tokens_of length] in Hn, Hf.
    change (flat_map (λ kv, TStr (fst kv) :: tokens_of (snd kv)) m) with (flat_map entry_tokens m) in *.
    rewrite length_app in Hn, Hf. cbn [length] in Hn, Hf.
    rewrite <- app_assoc. cbn [app]. by rewrite (entries_complete n) by (try done; lia).
Qed.

Lemma shape_ok_read ts clean :
  validateJSONShape (ts, clean) = Some (Ok tt) ↔
  clean = true ∧ ∃ v, ts = tokens_of v ∧ shape_ok 0 v = true ∧
    read_value (shape_fuel ts) ts = Some (v, []).
Proof.
  unfold validateJSONShape. split.
  - destruct (validateJSONValue (shape_fuel ts) ts 0) as [[rest|]|] eqn:E; try done.
    case_bool_decide as Hr; [|done]. destruct clean; [|done]. intros _. subst rest. split; [done|].
    apply value_sound in E as (v & -> & Hs). exists v. rewrite app_nil_r. split_and!; try done.
    rewrite <- (app_nil_r (tokens_of v)) at 2.
    apply (read_complete (length (tokens_of v))); [done|unfold shape_fuel; lia].
  - intros (-> & v & -> & Hs & _). rewrite <- (app_nil_r (tokens_of v)) at 2.
    rewrite (value_complete (length (tokens_of v))); [done|done|done|unfold shape_fuel; lia].
Qed.

(** C40: the shape pass always terminates within its fuel, and accepts a token
    stream exactly when it is the printing of one JSON value, with no object
    holding a key twice and no value nested deeper than six levels, followed by
    the end of the text; that value is then the one the typed decode reads. *)
Theorem shape_pass_exact (ts : list JTok) (clean : bool) :
  validateJSONShape (ts, clean) ≠ None ∧
  (validateJSONShape (ts, clean) = Some (Ok tt) ↔
   clean = true ∧ ∃ v, ts = tokens_of v ∧ shape_ok 0 v = true ∧
     read_value (shape_fuel ts) ts = Some (v, [])).
Proof.
  split; [|apply shape_ok_read]. unfold validateJSONShape. pose proof (shape_terminates ts) as Ht.
  by destruct (validateJSONValue _ _ _) as [[]|].
Qed.

(** ** Well-formed identities *)

Definition bounded (limit : nat) (s : string) : Prop := (String.length s ≤ limit)%nat.
Definition nonempty_bounded (limit : nat) (s : string) : Prop := s ≠ "" ∧ bounded limit s.

(** The contract of an accepted identity. *)
Record wf_identity (uuid_string : string → option string) (id : VerifiedIdentity) : Prop := {
  wf_source : Source id = "oidc";
  wf_issuer : nonempty_bounded 2048 (Issuer (Claims id));
  wf_subject : nonempty_bounded 256 (Subject (Claims id));
  wf_azp : nonempty_bounded 256 (AuthorizedParty (Claims id));
  wf_profile : Forall (bounded 256) [Name (Claims id); GivenName (Claims id); FamilyName (Claims id);
                                     PreferredUsername (Claims id)];
  wf_email : bounded 320 (Email (Claims id));
  wf_audience : audiences (Aud (Claims id)) ≠ [] ∧
    (length (audiences (Aud (Claims id))) ≤ 16)%nat ∧
    Forall (nonempty_bounded 256) (audiences (Aud (Claims id))) ∧
    (Value (Aud (Claims id)) = "" ∨ default [] (Items (Aud (Claims id))) = []);
  wf_groups : (length (ClaimGroups (Claims id)) ≤ 128)%nat ∧
    Forall (nonempty_bounded 256) (ClaimGroups (Claims id));
  wf_organization :
    if orgIDPresent (Claims id)
    then uuid_string (OrgID (Claims id)) = Some (OrgID (Claims id)) ∧
         NoDup (ClaimGroups (Claims id)) ∧ bounded 256 (OrgName (Claims id)) ∧
         (length (Roles (Claims id)) ≤ 64)%nat ∧ Forall (nonempty_bounded 128) (Roles (Claims id))
    else orgNamePresent (Claims id) = false ∧ rolesPresent (Claims id) = false;
}.

Lemma reject_ok {E} (e : E) (b : bool) (k : Res E unit) :
  (if b then Err e else k) = Ok tt ↔ b = false ∧ k = Ok tt.
Proof. destruct b; naive_solver. Qed.

Lemma nonempty_bounded_iff s n : nonEmptyBoundedString s n = true ↔ nonempty_bounded n s.
Proof.
  unfold nonEmptyBoundedString, nonempty_bounded, bounded.
  rewrite andb_true_iff, negb_true_iff, String.eqb_neq, Nat.leb_le. done.
Qed.
Lemma optional_bounded_iff s n : optionalBoundedString s n = true ↔ bounded n s.
Proof.
  unfold optionalBoundedString, bounded. rewrite orb_true_iff, Nat.leb_le.
  split; [|tauto]. intros [->%String.eqb_eq|?]; [simpl; lia|done].
Qed.
Lemma forallb_bounded l n :
  forallb (λ s, nonEmptyBoundedString s n) l = true ↔ Forall (nonempty_bounded n) l.
Proof.
  induction l as [|s l IH]; simpl; [split; [constructor|done]|].
  by rewrite andb_true_iff, nonempty_bounded_iff, IH, Forall_cons.
Qed.

Lemma validate_iff uuid_string id :
  validate uuid_string id = Ok tt ↔ wf_identity uuid_string id.
Proof.
  unfold validate, validateOrganizationClaims. cbv zeta.
  rewrite !reject_ok, !negb_false_iff, !nonempty_bounded_iff, !optional_bounded_iff,
    !forallb_bounded, !Nat.ltb_ge, String.eqb_eq.
  assert (Haud : (String.eqb (Value (Aud (Claims id))) "" &&
       (length (default [] (Items (Aud (Claims id)))) =? 0)%nat = false ∧
     negb (String.eqb (Value (Aud (Claims id))) "") &&
       negb (length (default [] (Items (Aud (Claims id)))) =? 0)%nat = false) ↔
    audiences (Aud (Claims id)) ≠ [] ∧
    (Value (Aud (Claims id)) = "" ∨ default [] (Items (Aud (Claims id))) = [])).
  { unfold audiences. destruct (String.eqb_spec (Value (Aud (Claims id))) "") as [->|Hne];
      destruct (default [] (Items (Aud (Claims id)))); simpl; naive_solver. }
  destruct (orgIDPresent (Claims id)) eqn:Ho; cbn [negb].
  - rewrite !reject_ok, !negb_false_iff, optional_bounded_iff, forallb_bounded, Nat.ltb_ge,
      !bool_decide_eq_true. split.
    + intros H. decompose [and] H. split; try tauto; [rewrite !Forall_cons, Forall_nil; tauto|rewrite Ho; tauto].
    + intros []. rewrite Ho in *. rewrite !Forall_cons in *. tauto.
  - rewrite !reject_ok, orb_false_iff. split.
    + intros H. decompose [and] H. split; try tauto; [rewrite !Forall_cons, Forall_nil; tauto|rewrite Ho; tauto].
    + intros []. rewrite Ho in *. rewrite !Forall_cons in *. tauto.
Qed.

(** ** Decoded identities *)

Lemma claims_org_present v c : dec_claims v = Some c → OrgID c ≠ "" → orgIDPresent c = true.
Proof.
  destruct v as [s|[]|l|m]; simpl; try done; [by intros [= <-]|].
  destruct (negb _); [done|]. destruct (_ || _); [done|]. intros H.
  repeat match type of H with
  | (_ ≫= _) = Some _ => apply bind_Some in H as (? & ? & H)
  end.
  injection H as <-. cbn. unfold field, present in *.
  destruct (last_entry "org_id" m); [done|]. naive_solver.
Qed.

Lemma entries_org_present m id id' :
  (OrgID (Claims id) ≠ "" → orgIDPresent (Claims id) = true) →
  dec_entries id m = Some id' → OrgID (Claims id') ≠ "" → orgIDPresent (Claims id') = true.
Proof.
  revert id. induction m as [|[k v] m IH]; intros id Hid; simpl; [by intros [= <-]|].
  intros (id1 & H1 & Hm)%bind_Some. apply (IH id1); [|done]. revert H1.
  destruct (String.eqb _ _).
  - destruct v as [s|[]|l|mm]; simpl; try done; intros [= <-]; done.
  - destruct (String.eqb _ _); [|done]. intros (c & Hc & [= <-])%bind_Some. cbn.
    by apply (claims_org_present v).
Qed.

Lemma identity_org_present v id :
  dec_identity v = Some id → OrgID (Claims id) ≠ "" → orgIDPresent (Claims id) = true.
Proof.
  destruct v as [s|[]|l|m]; simpl; try done; [by intros [= <-]|].
  apply entries_org_present. done.
Qed.

Lemma parse_ok scan uuid_string text id :
  ParseIdentityEnvelope scan uuid_string text = Some (Ok id) →
  (String.length text ≤ MaxIdentityEnvelopeBytes)%nat ∧ snd (scan text) = true ∧
  (∃ v, fst (scan text) = tokens_of v ∧ shape_ok 0 v = true ∧ dec_identity v = Some id) ∧
  wf_identity uuid_string id.
Proof.
  unfold ParseIdentityEnvelope. destruct (Nat.ltb_spec MaxIdentityEnvelopeBytes (String.length text)); [done|].
  destruct (validateJSONShape (scan text)) as [[[]|]|] eqn:Hs; try done.
  destruct (scan text) as [ts clean]. apply shape_ok_read in Hs as (-> & v & -> & Hv & Hread).
  cbn [fst snd]. rewrite Hread.
  destruct (dec_identity v) as [id'|] eqn:Hd; [|done].
  destruct (validate uuid_string id') as [[]|] eqn:Hval; [|done]. intros [= <-].
  split_and!; [exact H|done|by exists v|by apply validate_iff].
Qed.

(** ** Properties of accepted envelopes *)

(** C39: an envelope is accepted only when its text is at most 16 KiB and prints
    one JSON value of the right shape, whose typed reading is the identity
    returned; and that identity then meets the whole contract: source [oidc],
    bounded non-empty issuer, subject, authorized party and audiences, bounded
    profile claims, at most 128 bounded groups, and organization claims only
    together with a canonical UUID, distinct groups and bounded roles. *)
Theorem accepted_identity_well_formed (scan : string → list JTok * bool)
    (uuid_string : string → option string) (text : string) (id : VerifiedIdentity) :
  ParseIdentityEnvelope scan uuid_string text = Some (Ok id) →
  (String.length text ≤ MaxIdentityEnvelopeBytes)%nat ∧
  (∃ v, scan text = (tokens_of v, true) ∧ shape_ok 0 v = true ∧ dec_identity v = Some id) ∧
  wf_identity uuid_string id.
Proof.
  intros (Hl & Hc & (v & Hts & Hs & Hd) & Hwf)%parse_ok. split_and!; [done| |done].
  exists v. destruct (scan text). simpl in *. by subst.
Qed.

(** an accepted identity of an organization yields a user context whose
    groups, the common [system:authenticated] apart, all carry the prefix of
    that organization and come from its claims: it can never hold a group of
    another organization.  The hypothesis is the canonical text of a UUID,
    which has hexadecimal digits and dashes only. *)
Theorem organization_groups_confined (scan : string → list JTok * bool)
    (uuid_string : string → option string) (tenant text : string) (id : VerifiedIdentity) (u : UserContext) :
  (∀ s t, uuid_string s = Some t → contains_char "/" t = false) →
  ParseIdentityEnvelope scan uuid_string text = Some (Ok id) → OrgID (Claims id) ≠ "" →
  setUserContextFromVerifiedIdentity tenant (Some id) = Next (Some u) →
  OrganizationID u = OrgID (Claims id) ∧
  (∀ g, g ∈ Groups u → g = "system:authenticated" ∨
     ∃ g', g' ∈ ClaimGroups (Claims id) ∧ g = OrgID (Claims id) +:+ "/" +:+ g') ∧
  (∀ other g, contains_char "/" other = false → other ≠ OrgID (Claims id) →
     other +:+ "/" +:+ g ∉ Groups u).
Proof.
  intros Huuid (_ & _ & (v & _ & _ & Hd) & Hwf)%parse_ok Horg [= <-]. cbn.
  assert (Hslash : contains_char "/" (OrgID (Claims id)) = false).
  { pose proof (wf_organization _ _ Hwf) as Ho.
    rewrite (identity_org_present _ _ Hd Horg) in Ho. destruct Ho as [Ho _]. eauto. }
  assert (Hin : ∀ g, g ∈ (if KeyService.AllValid (ClaimGroups (Claims id)) then QualifiedGroups id else []) →
    ∃ g', g' ∈ ClaimGroups (Claims id) ∧ g = OrgID (Claims id) +:+ "/" +:+ g').
  { intros g. destruct (KeyService.AllValid _); [|set_solver]. unfold QualifiedGroups.
    apply String.eqb_neq in Horg as ->. intros (g' & -> & ?)%list_elem_of_fmap. by exists g'. }
  split; [done|]. split.
  - intros g [->|Hg]%elem_of_cons; [by left|right]. by apply Hin.
  - intros other g Ho Hne [H|Hg]%elem_of_cons.
    + assert (contains_char "/" "system:authenticated" = true) as Hc; [|done].
      rewrite <- H, contains_char_app. simpl. apply orb_true_r.
    + apply Hin in Hg as (g' & _ & Heq). apply (str_split_unique "/") in Heq as [? _]; done.
Qed.

(** ** A concrete envelope *)

Definition demo_org : string := "6ba7b810-9dad-11d1-80b4-00c04fd430c8".
Definition demo_claims : list (string * Json) :=
  [("iss", JString "https://sso.example"); ("sub", JString "42"); ("aud", JString "maas");
   ("azp", JString "web"); ("preferred_username", JString "alice");
   ("groups", JArray [JString "ai-grid-users"; JString "ml"]); ("org_id", JString demo_org)].
Definition demo_envelope : Json :=
  JObject [("source", JString "oidc"); ("claims", JObject demo_claims)].
Definition demo_scan (v : Json) (text : string) : list JTok * bool := (tokens_of v, true).
Definition demo_uuid (s : string) : option string := if String.eqb s demo_org then Some demo_org else None.
Definition demo_identity : VerifiedIdentity := default zero_identity (dec_identity demo_envelope).

Lemma accepted_identity_well_formed_witness :
  ParseIdentityEnvelope (demo_scan demo_envelope) demo_uuid "{}" = Some (Ok demo_identity) ∧
  wf_identity demo_uuid demo_identity.
Proof.
  assert (H : ParseIdentityEnvelope (demo_scan demo_envelope) demo_uuid "{}" = Some (Ok demo_identity))
    by (vm_compute; reflexivity).
  split; [exact H|]. apply (accepted_identity_well_formed _ _ _ _ H).
Defined.

Lemma organization_groups_confined_witness :
  ∃ u, setUserContextFromVerifiedIdentity "tenant" (Some demo_identity) = Next (Some u) ∧
    Groups u = ["system:authenticated"; demo_org +:+ "/ai-grid-users"; demo_org +:+ "/ml"] ∧
    OrganizationID u = OrgID (Claims demo_identity) ∧
    ∀ other g, contains_char "/" other = false → other ≠ OrgID (Claims demo_identity) →
      other +:+ "/" +:+ g ∉ Groups u.
Proof.
  eexists. split; [reflexivity|]. split; [reflexivity|].
  destruct (organization_groups_confined (demo_scan demo_envelope) demo_uuid "tenant" "{}" demo_identity
    {| Username := "alice"; Groups := ["system:authenticated"; demo_org +:+ "/ai-grid-users"; demo_org +:+ "/ml"];
       Tenant := "tenant"; OrganizationID := demo_org |}) as (Ho & _ & Hc).
  - intros s t. unfold demo_uuid. destruct (String.eqb s demo_org); [|discriminate]. intros [= <-]. reflexivity.
  - vm_compute. reflexivity.
  - discriminate.
  - reflexivity.
  - split; [exact Ho|exact Hc].
Defined.

(** The shape pass compares keys exactly while the decoder matches the two
    envelope fields up to case, so an envelope naming its source twice, once as
    [Source], is accepted and the last one counts. *)
Example case_variant_source_accepted :
  option_map is_ok (ParseIdentityEnvelope (demo_scan
    (JObject [("source", JString "untrusted"); ("claims", JObject demo_claims); ("Source", JString "oidc")]))
    demo_uuid "{}") = Some true.
Proof. vm_compute. reflexivity. Qed.
