(* ===== verification/AdminAuth.v ===== *)
(** * AdminAuth: who may administer, and the cache in front of the question

    [maas-api/internal/auth]: the cached admin checker as steps of concurrent
    requests over one map and one clock, the SubjectAccessReview checker behind
    it, and the decisions of the two authenticating middlewares.  The
    Kubernetes API is a parameter: a review is an argument of the definitions
    that create one. *)

From stdpp Require Import relations.
From S2P Require Import Prelude GoStrings KeyGen KeyService Identity.
From Stdlib Require String.
Local Open Scope string_scope.

Module AdminAuth.
Import Identity.

(** ** Reviews of the Kubernetes API *)

(** The subject and the attributes of a SubjectAccessReview. *)
Record Review := {
  rv_User : string; rv_Groups : list string; rv_Namespace : string;
  rv_Verb : string; rv_Group : string; rv_Resource : string;
}.

(** The status of a TokenReview. *)
Record TokenStatus := { Authenticated : bool; tr_Username : string; tr_Groups : list string }.

Section Reviews.
Variable subject_access_review : Review → Res string bool.
Variable token_review : string → Res string TokenStatus.

(** [SARAdminChecker.IsAdmin] on a checker with a client; [None] is a nil user. *)
Definition sar_IsAdmin (namespace : string) (user : option UserContext) : Res string bool :=
  match user with
  | None => Ok false
  | Some user =>
      if String.eqb (Username user) "" then Ok false else
      map_err (λ e, "SAR admin check: " +:+ e)
        (subject_access_review {|
           rv_User := Username user; rv_Groups := Groups user; rv_Namespace := namespace;
           rv_Verb := "create"; rv_Group := "maas.opendatahub.io"; rv_Resource := "maasauthpolicies" |})
  end.

(** What a middleware does with a request: pass it on, or abort with a status. *)
Inductive Decision := Next | AbortWith (status : Z).

Definition bearer_prefix : string := "Bearer ".

(** [TenantAuthMiddleware] on the Authorization header. *)
Definition TenantAuthMiddleware (authHeader : string) : Decision :=
  if String.eqb authHeader "" || negb (has_prefix bearer_prefix authHeader) then AbortWith 401 else
  let token := str_drop 7 authHeader in
  match token_review token with
  | Err _ => AbortWith 401
  | Ok st =>
      if negb (Authenticated st) then AbortWith 401 else
      match subject_access_review {|
              rv_User := tr_Username st; rv_Groups := tr_Groups st; rv_Namespace := "";
              rv_Verb := "create"; rv_Group := "authorization.k8s.io";
              rv_Resource := "selfsubjectaccessreviews" |} with
      | Err _ => AbortWith 500
      | Ok false => AbortWith 403
      | Ok true => Next
      end
  end.

(** [CleanupAuthMiddleware] for one service account. *)
Definition CleanupAuthMiddleware (serviceAccountName namespace authHeader : string) : Decision :=
  let expectedUsername := "system:serviceaccount:" +:+ namespace +:+ ":" +:+ serviceAccountName in
  match cut " " (trim_space authHeader) with
  | None => AbortWith 401
  | Some (scheme, bearerToken) =>
      if negb (String.eqb (to_lower scheme) "bearer") || String.eqb (trim_space bearerToken) ""
      then AbortWith 401 else
      match token_review (trim_space bearerToken) with
      | Err _ => AbortWith 401
      | Ok st =>
          if negb (Authenticated st) then AbortWith 401 else
          if negb (String.eqb (tr_Username st) expectedUsername) then AbortWith 403 else Next
      end
  end.
End Reviews.

(** ** The cached admin checker *)

Record cacheEntry := { isAdmin : bool; expiresAt : Z }.

Definition nul : string := String "000" "".

(** [cacheKey]. *)
Definition cacheKey (user : UserContext) : string :=
  Username user +:+ nul +:+ join nul (sort_strings (Groups user)).

Record CachedAdminChecker := { ttl : Z; negativeTTL : Z; maxSize : nat }.

(** [NewCachedAdminChecker] panics on a non-positive bound. *)
Definition NewCachedAdminChecker (ttl negativeTTL maxSize : Z) : option CachedAdminChecker :=
  if (ttl <=? 0)%Z then None else
  if (negativeTTL <=? 0)%Z then None else
  if (maxSize <=? 0)%Z then None else
  Some {| ttl := ttl; negativeTTL := negativeTTL; maxSize := Z.to_nat maxSize |}.

Definition entry_ttl (c : CachedAdminChecker) (result : bool) : Z :=
  if result then ttl c else negativeTTL c.

(** [evictExpiredLocked]. *)
Definition evictExpiredLocked (now : Z) (cache : gmap string cacheEntry) : gmap string cacheEntry :=
  filter (λ kv, ¬ (expiresAt (snd kv) < now)%Z) cache.

(** Where a request is inside [IsAdmin]; [PStore] holds the clock read before the lock. *)
Inductive Proc :=
| PLookup (user : UserContext) (now : Z)
| PCall (user : UserContext) (now : Z)
| PReplied (user : UserContext) (now : Z) (result : bool)
| PStore (user : UserContext) (now : Z) (result : bool) (storeTime : Z).

(** A finished call: its user, the clock it read first, and what it returned. *)
Record Answer := { a_user : UserContext; a_now : Z; a_result : Res string bool; a_hit : bool }.

(** [replies] and [answers] are histories; no code reads them. *)
Record Sys := {
  clock : Z;
  cache : gmap string cacheEntry;
  procs : gmap nat Proc;
  replies : list (UserContext * bool * Z);
  answers : list Answer;
}.

Inductive Event :=
| Tick (d : Z)
| Start (pid : nat) (user : UserContext) (ctxErr : bool)
| Lookup (pid : nat)
| Reply (pid : nat) (reply : Res string bool) (ctxErr : bool)
| ReadTime (pid : nat)
| Store (pid : nat).

Definition finish (s : Sys) (pid : nat) (user : UserContext) (now : Z) (r : Res string bool)
    (hit : bool) : Sys := {|
  clock := clock s; cache := cache s; procs := delete pid (procs s); replies := replies s;
  answers := {| a_user := user; a_now := now; a_result := r; a_hit := hit |} :: answers s |}.
Definition goto (s : Sys) (pid : nat) (p : Proc) : Sys := {|
  clock := clock s; cache := cache s; procs := <[pid := p]> (procs s); replies := replies s;
  answers := answers s |}.
Definition with_cache (s : Sys) (m : gmap string cacheEntry) : Sys := {|
  clock := clock s; cache := m; procs := procs s; replies := replies s; answers := answers s |}.
Definition record_reply (s : Sys) (user : UserContext) (b : bool) : Sys := {|
  clock := clock s; cache := cache s; procs := procs s;
  replies := (user, b, clock s) :: replies s; answers := answers s |}.

(** One step of [IsAdmin] of request [pid], or the clock; [None] where the step
    does not apply. *)
Definition step (c : CachedAdminChecker) (s : Sys) (e : Event) : option Sys :=
  match e with
  | Tick d => if (0 <=? d)%Z then Some {| clock := clock s + d; cache := cache s; procs := procs s;
                                           replies := replies s; answers := answers s |} else None
  | Start pid user ctxErr =>
      match procs s !! pid with
      | Some _ => None
      | None =>
          if String.eqb (Username user) "" then Some (finish s pid user (clock s) (Ok false) false)
          else if ctxErr then Some (finish s pid user (clock s) (Err "context") false)
          else Some (goto s pid (PLookup user (clock s)))
      end
  | Lookup pid =>
      match procs s !! pid with
      | Some (PLookup user now) =>
          match cache s !! cacheKey user with
          | Some entry => if (now <? expiresAt entry)%Z
                          then Some (finish s pid user now (Ok (isAdmin entry)) true)
                          else Some (goto s pid (PCall user now))
          | None => Some (goto s pid (PCall user now))
          end
      | _ => None
      end
  | Reply pid reply ctxErr =>
      match procs s !! pid with
      | Some (PCall user now) =>
          match reply with
          | Err e => Some (finish s pid user now (Err e) false)
          | Ok b =>
              let s := record_reply s user b in
              if ctxErr then Some (finish s pid user now (Err "context") false)
              else Some (goto s pid (PReplied user now b))
          end
      | _ => None
      end
  | ReadTime pid =>
      match procs s !! pid with
      | Some (PReplied user now b) => Some (goto s pid (PStore user now b (clock s)))
      | _ => None
      end
  | Store pid =>
      match procs s !! pid with
      | Some (PStore user now b storeTime) =>
          let m := evictExpiredLocked storeTime (cache s) in
          let m := if bool_decide (size m < maxSize c)%nat
                   then <[cacheKey user := {| isAdmin := b; expiresAt := storeTime + entry_ttl c b |}]> m
                   else m in
          Some (finish (with_cache s m) pid user now (Ok b) false)
      | _ => None
      end
  end.

Fixpoint run (c : CachedAdminChecker) (s : Sys) (es : list Event) : option Sys :=
  match es with
  | [] => Some s
  | e :: es' => match step c s e with Some s' => run c s' es' | None => None end
  end.

Definition initial (now : Z) : Sys :=
  {| clock := now; cache := ∅; procs := ∅; replies := []; answers := [] |}.

(** ** Invariant of the concurrent cache *)

(** Some request of the same cache key was answered [b] by the delegate, at
    time [t], no later than [latest]. *)
Definition told (s : Sys) (key : string) (b : bool) (t : Z) : Prop :=
  ∃ u, (u, b, t) ∈ replies s ∧ cacheKey u = key.

(** A stored answer: given by the delegate before it was stored. *)
Definition entry_ok (c : CachedAdminChecker) (s : Sys) (key : string) (e : cacheEntry) : Prop :=
  ∃ t stored, told s key (isAdmin e) t ∧ (t ≤ stored ≤ clock s)%Z ∧
    expiresAt e = (stored + entry_ttl c (isAdmin e))%Z.

Definition proc_ok (s : Sys) (p : Proc) : Prop :=
  match p with
  | PLookup u now | PCall u now => (now ≤ clock s)%Z
  | PReplied u now b => ∃ t, (u, b, t) ∈ replies s ∧ (now ≤ t ≤ clock s)%Z
  | PStore u now b st => ∃ t, (u, b, t) ∈ replies s ∧ (now ≤ t ≤ st)%Z ∧ (st ≤ clock s)%Z
  end.

(** What justifies a returned answer: on a miss the delegate's reply to this
    very request, after it started; on a hit a reply for the same key, stored
    at a time whose lifetime the request started within. *)
Definition justified (c : CachedAdminChecker) (s : Sys) (a : Answer) (b : bool) : Prop :=
  if a_hit a
  then ∃ t stored, told s (cacheKey (a_user a)) b t ∧ (t ≤ stored)%Z ∧
         (a_now a < stored + entry_ttl c b)%Z
  else ∃ t, (a_user a, b, t) ∈ replies s ∧ (a_now a ≤ t)%Z.

Record sys_ok (c : CachedAdminChecker) (s : Sys) : Prop := {
  ok_cache : ∀ k e, cache s !! k = Some e → entry_ok c s k e;
  ok_size : (size (cache s) ≤ maxSize c)%nat;
  ok_procs : ∀ pid p, procs s !! pid = Some p → proc_ok s p;
  ok_answers : ∀ a b, a ∈ answers s → a_result a = Ok b → Username (a_user a) ≠ "" → justified c s a b;
}.

(** A later state: the clock did not go back and no history was lost. *)
Definition later (s s' : Sys) : Prop := (clock s ≤ clock s')%Z ∧ ∀ r, r ∈ replies s → r ∈ replies s'.

Lemma told_later s s' k b t : later s s' → told s k b t → told s' k b t.
Proof. intros [_ H] (u & Hu & ?). exists u. auto. Qed.

Lemma entry_later c s s' k e : later s s' → entry_ok c s k e → entry_ok c s' k e.
Proof.
  intros Hl (t & st & Ht & Hle & He). exists t, st. split; [by eapply told_later|].
  destruct Hl. split; [lia|done].
Qed.

Lemma proc_later s s' p : later s s' → proc_ok s p → proc_ok s' p.
Proof.
  intros [Hc Hr]. destruct p; cbn; try lia.
  - intros (t & ? & ?). exists t. split; [auto|lia].
  - intros (t & ? & ? & ?). exists t. split; [auto|lia].
Qed.

Lemma justified_later c s s' a b : later s s' → justified c s a b → justified c s' a b.
Proof.
  intros Hl. unfold justified. destruct (a_hit a).
  - intros (t & st & ? & ?). exists t, st. eauto using told_later.
  - destruct Hl as [_ Hr]. intros (t & ? & ?). exists t. auto.
Qed.

(** A step that touches no cache entry: it may advance the histories, move one
    request to [p], and add an answer. *)
Lemma step_frame c s s' :
  sys_ok c s → later s s' → cache s' = cache s →
  (∀ pid p, procs s' !! pid = Some p → procs s !! pid = Some p ∨ proc_ok s' p) →
  (∀ a b, a ∈ answers s' → a_result a = Ok b → Username (a_user a) ≠ "" →
     a ∈ answers s ∨ justified c s' a b) →
  sys_ok c s'.
Proof.
  intros [Hc Hs Hp Ha] Hl Hcache Hprocs Hans. split.
  - rewrite Hcache. intros k e Hk. eapply entry_later; eauto.
  - by rewrite Hcache.
  - intros pid p Hpid. destruct (Hprocs _ _ Hpid); [eapply proc_later; eauto|done].
  - intros a b Hin Hr Hu. destruct (Hans a b Hin Hr Hu); [eapply justified_later; eauto|done].
Qed.

Lemma later_refl s s' : clock s' = clock s → replies s' = replies s → later s s'.
Proof. intros Hc Hr. split; [lia|]. by rewrite Hr. Qed.

Lemma finish_ok c s pid user now r hit :
  sys_ok c s → (∀ b, r = Ok b → Username user ≠ "" →
    justified c s {| a_user := user; a_now := now; a_result := r; a_hit := hit |} b) →
  sys_ok c (finish s pid user now r hit).
Proof.
  intros Hok Hj. apply (step_frame c s); [done|by apply later_refl|done| |].
  - intros pid' p. cbn. intros [_ ?]%lookup_delete_Some. by left.
  - cbn. intros a b [->|Hin]%elem_of_cons Hr Hu; [right|by left]. by apply Hj.
Qed.

Lemma goto_ok c s pid p : sys_ok c s → proc_ok s p → sys_ok c (goto s pid p).
Proof.
  intros Hok Hp. apply (step_frame c s); [done|by apply later_refl|done| |by left].
  cbn. intros pid' p' [[<- <-]|[_ ?]]%lookup_insert_Some; [right|by left]. by destruct p.
Qed.

Lemma record_ok c s user b : sys_ok c s → sys_ok c (record_reply s user b).
Proof.
  intros Hok. apply (step_frame c s); try done; [|by left|by left].
  split; [cbn; lia|]. cbn. intros r Hr. by right.
Qed.

Lemma store_ok c s user b st t :
  sys_ok c s → (user, b, t) ∈ replies s → (t ≤ st)%Z → (st ≤ clock s)%Z →
  let m := evictExpiredLocked st (cache s) in
  sys_ok c (with_cache s
    (if bool_decide (size m < maxSize c)%nat
     then <[cacheKey user := {| isAdmin := b; expiresAt := st + entry_ttl c b |}]> m else m)).
Proof.
  intros [Hc Hs Hp Ha] Hr Ht Hst m.
  assert (Hsub : m ⊆ cache s) by apply map_filter_subseteq.
  assert (Hm : ∀ k e, m !! k = Some e → entry_ok c s k e)
    by (intros k e Hk; eapply Hc, lookup_weaken; eauto).
  split; cbn; [| |done|done].
  - case_bool_decide; [|done]. intros k e [[<- <-]|[_ ?]]%lookup_insert_Some; [|by apply Hm].
    exists t, st. split; [by exists user|]. cbn. lia.
  - pose proof (map_subseteq_size _ _ Hsub). case_bool_decide; [|lia].
    destruct (m !! cacheKey user) eqn:E; [rewrite map_size_insert_Some by eauto; lia|].
    rewrite map_size_insert_None by done. lia.
Qed.

Lemma step_ok c s e s' : step c s e = Some s' → sys_ok c s → sys_ok c s'.
Proof.
  intros Hs Hok. destruct e as [d|pid user ce|pid|pid r ce|pid|pid]; cbn [step] in Hs.
  - destruct (Z.leb_spec 0 d); simplify_eq.
    apply (step_frame c s); try done; [|by left|by left]. split; [cbn; lia|done].
  - destruct (procs s !! pid); [done|].
    destruct (String.eqb_spec (Username user) ""); simplify_eq; [by apply finish_ok|].
    destruct ce; simplify_eq; [by apply finish_ok|]. apply goto_ok; [done|]. cbn. lia.
  - destruct (procs s !! pid) as [[user now| | |]|] eqn:Ep; try done.
    pose proof (ok_procs _ _ Hok _ _ Ep) as Hp. cbn in Hp.
    destruct (cache s !! cacheKey user) as [e|] eqn:Ec; [|simplify_eq; by apply goto_ok].
    destruct (Z.ltb_spec now (expiresAt e)); simplify_eq; [|by apply goto_ok].
    apply finish_ok; [done|]. intros b [= <-] _. unfold justified. cbn.
    destruct (ok_cache _ _ Hok _ _ Ec) as (t & st & Ht & Hle & He).
    exists t, st. split; [done|]. lia.
  - destruct (procs s !! pid) as [[|user now| |]|] eqn:Ep; try done.
    pose proof (ok_procs _ _ Hok _ _ Ep) as Hp. cbn in Hp.
    destruct r as [b|e]; simplify_eq; [|by apply finish_ok].
    pose proof (record_ok c s user b Hok) as Hok'. destruct ce; simplify_eq; [by apply finish_ok|].
    apply goto_ok; [done|]. cbn. exists (clock s). split; [by left|lia].
  - destruct (procs s !! pid) as [[| |user now b|]|] eqn:Ep; try done. simplify_eq.
    apply goto_ok; [done|]. destruct (ok_procs _ _ Hok _ _ Ep) as (t & ? & ?).
    exists t. split; [done|lia].
  - destruct (procs s !! pid) as [[| | |user now b st]|] eqn:Ep; try done. simplify_eq.
    destruct (ok_procs _ _ Hok _ _ Ep) as (t & ? & ? & ?).
    apply finish_ok; [eapply store_ok; eauto; lia|]. intros b' [= <-] _. exists t. split; [done|cbn; lia].
Qed.

Lemma run_ok c es s s' : run c s es = Some s' → sys_ok c s → sys_ok c s'.
Proof.
  revert s. induction es as [|e es IH]; cbn; intros s; [by intros [= <-]|].
  destruct (step c s e) as [s1|] eqn:E; [|done]. eauto using step_ok.
Qed.

(** ** Cache keys *)

Definition nul_free (s : string) : Prop := contains_char "000" s = false.
(** The names of a request; an HTTP header value has no NUL byte. *)
Definition user_nul_free (u : UserContext) : Prop :=
  nul_free (Username u) ∧ ∀ g, g ∈ Groups u → nul_free g ∧ g ≠ "".

Lemma join_sorted_nul_free u :
  user_nul_free u → ∀ g, g ∈ sort_strings (Groups u) → contains_char "000" g = false ∧ g ≠ "".
Proof. intros [_ Hg] g. rewrite sort_strings_perm. apply Hg. Qed.

Lemma cacheKey_identity u u' :
  user_nul_free u → user_nul_free u' →
  cacheKey u = cacheKey u' ↔ Username u = Username u' ∧ Groups u ≡ₚ Groups u'.
Proof.
  intros Hu Hu'. unfold cacheKey, nul. split.
  - intros [Hn Hj]%str_split_unique; [|exact (proj1 Hu)|exact (proj1 Hu')].
    split; [done|]. cbn in Hj. apply join_inj in Hj; [|by apply join_sorted_nul_free..].
    by rewrite <- (sort_strings_perm (Groups u)), Hj, sort_strings_perm.
  - intros [-> HP]. by rewrite (sort_strings_proper _ _ HP).
Qed.

(** ** Properties *)

(** C38: however the concurrent calls of [IsAdmin] interleave, each answer is
    one the delegate gave: on a miss to this very call, after it started; on a
    hit to a call of the same cache key, whose answer was stored within the
    lifetime of that answer (the shorter one for a refusal) before this call
    started.  Errors are never cached, the cache never outgrows its bound, and
    for names without NUL bytes the key identifies the user name and the
    multiset of groups. *)
Theorem cached_admin_answers (c : CachedAdminChecker) (now : Z) (es : list Event) (s : Sys) :
  run c (initial now) es = Some s →
  (∀ a b, a ∈ answers s → a_result a = Ok b → Username (a_user a) ≠ "" → justified c s a b) ∧
  (size (cache s) ≤ maxSize c)%nat ∧
  (∀ u u', user_nul_free u → user_nul_free u' →
     cacheKey u = cacheKey u' ↔ Username u = Username u' ∧ Groups u ≡ₚ Groups u').
Proof.
  intros Hr. assert (Hok : sys_ok c s).
  { eapply run_ok; [exact Hr|]. split; cbn; [done|rewrite map_size_empty; lia|done|set_solver]. }
  split; [apply Hok|]. split; [apply Hok|]. apply cacheKey_identity.
Qed.

Definition alice : UserContext :=
  {| Username := "alice"; Groups := ["b"; "a"]; Tenant := "t"; OrganizationID := "" |}.
Definition alice' : UserContext :=
  {| Username := "alice"; Groups := ["a"; "b"]; Tenant := "t"; OrganizationID := "" |}.
Definition demo_checker : CachedAdminChecker := {| ttl := 60; negativeTTL := 5; maxSize := 10 |}.
(** Two overlapping calls: the second hits what the first has stored. *)
Definition demo_events : list Event :=
  [Start 1 alice false; Lookup 1; Tick 3; Reply 1 (Ok true) false; Tick 1; ReadTime 1; Store 1;
   Tick 50; Start 2 alice' false; Lookup 2].

Lemma cached_admin_answers_witness :
  ∃ s, run demo_checker (initial 100) demo_events = Some s ∧
    map a_hit (answers s) = [true; false] ∧
    ∀ a b, a ∈ answers s → a_result a = Ok b → Username (a_user a) ≠ "" → justified demo_checker s a b.
Proof.
  destruct (run demo_checker (initial 100) demo_events) as [s|] eqn:E; [|vm_compute in E; discriminate].
  exists s. split; [reflexivity|]. split.
  - assert (option_map (λ s, map a_hit (answers s)) (run demo_checker (initial 100) demo_events) =
      Some [true; false]) as H by (vm_compute; reflexivity). rewrite E in H. by injection H.
  - apply (cached_admin_answers demo_checker 100 demo_events s E).
Defined.

(** the two middlewares let a request through only for a bearer token that
    the API server authenticates; the clean-up middleware only for the one
    configured service account, the tenant middleware only for a subject the
    API server allows to review its own access. *)
Theorem middlewares_fail_closed (sar : Review → Res string bool) (tr : string → Res string TokenStatus)
    (account namespace header : string) :
  (CleanupAuthMiddleware tr account namespace header = Next →
   ∃ token st, token ≠ "" ∧ tr token = Ok st ∧ Authenticated st = true ∧
     tr_Username st = "system:serviceaccount:" +:+ namespace +:+ ":" +:+ account) ∧
  (TenantAuthMiddleware sar tr header = Next →
   ∃ token st, header = "Bearer " +:+ token ∧ tr token = Ok st ∧ Authenticated st = true ∧
     ∃ rv, sar rv = Ok true ∧ rv_User rv = tr_Username st ∧ rv_Groups rv = tr_Groups st ∧
       rv_Resource rv = "selfsubjectaccessreviews" ∧ rv_Verb rv = "create").
Proof.
  split.
  - unfold CleanupAuthMiddleware. destruct (cut _ _) as [[scheme bt]|]; [|done].
    destruct (String.eqb_spec (trim_space bt) ""); [by rewrite orb_true_r|]. rewrite orb_false_r.
    destruct (negb _); [done|]. destruct (tr (trim_space bt)) as [st|] eqn:E; [|done].
    destruct (Authenticated st) eqn:Ea; [|done].
    destruct (String.eqb_spec (tr_Username st)
      ("system:serviceaccount:" +:+ namespace +:+ ":" +:+ account)); [|done].
    intros _. exists (trim_space bt), st. done.
  - unfold TenantAuthMiddleware. destruct (String.eqb header ""); [done|]. cbn [orb].
    destruct (has_prefix bearer_prefix header) eqn:Hp; [|done].
    apply has_prefix_spec in Hp as [t ->]. cbn [negb].
    rewrite (str_drop_app bearer_prefix t : str_drop 7 (bearer_prefix +:+ t) = t).
    destruct (tr t) as [st|] eqn:E; [|done]. destruct (Authenticated st) eqn:Ea; [|done].
    cbn [negb]. destruct (sar _) as [[]|] eqn:Es; [|done..]. intros _. exists t, st.
    split_and!; try done. eexists. split; [exact Es|done].
Qed.

Definition demo_review (t : string) : Res string TokenStatus :=
  if String.eqb t "secret"
  then Ok {| Authenticated := true; tr_Username := "system:serviceaccount:maas:cleanup"; tr_Groups := [] |}
  else Err "invalid".

Lemma middlewares_fail_closed_witness :
  CleanupAuthMiddleware demo_review "cleanup" "maas" " bearer secret" = Next ∧
  ∃ token st, token ≠ "" ∧ demo_review token = Ok st ∧ Authenticated st = true ∧
    tr_Username st = "system:serviceaccount:" +:+ "maas" +:+ ":" +:+ "cleanup".
Proof.
  split; [vm_compute; reflexivity|].
  apply (middlewares_fail_closed (λ _, Ok true) demo_review "cleanup" "maas" " bearer secret").
  vm_compute. reflexivity.
Defined.

End AdminAuth.
