(* ===== verification/LokiProxy.v ===== *)
(** * LokiProxy: the read-only log proxy confined to the caller's organization

    [maas-api/internal/lokiproxy].  The LogQL parser, its syntax trees and their
    printer are [github.com/observatorium/api/logql/v2]: they are the fields of
    the class [LogQL], whose one law is what [Walk] is documented to do, namely
    to call the callback on every stream selector.  The upstream exchange itself
    is HTTP; the model ends with the request the proxy sends. *)

From S2P Require Import Prelude GoStrings KeyGen KeyService Identity.
From Stdlib Require String.
Local Open Scope string_scope.

Module LokiProxy.

(** [labels.Matcher] of Prometheus. *)
Inductive MatchType := MatchEqual | MatchNotEqual | MatchRegexp | MatchNotRegexp.
#[export] Instance MatchType_eq_dec : EqDecision MatchType.
Proof. solve_decision. Defined.
Record Matcher := { m_Type : MatchType; m_Name : string; m_Value : string }.
#[export] Instance Matcher_eq_dec : EqDecision Matcher.
Proof. solve_decision. Defined.

Class LogQL := {
  Expr : Type;
  ParseExpr : string → option Expr;
  print : Expr → string;
  (** The matcher lists of the stream selectors of an expression. *)
  selectors : Expr → list (list Matcher);
  (** [expr.Walk] with a callback that replaces the matchers of each selector. *)
  walk : (list Matcher → list Matcher) → Expr → Expr;
  (** [StreamMatcherExpr] with the given matchers. *)
  stream : list Matcher → Expr;
  walk_sets : ∀ f e sel, sel ∈ selectors (walk f e) → ∃ ms, sel = f ms;
  stream_selectors : ∀ ms, selectors (stream ms) = [ms];
}.

(** [url.Values]. *)
Notation Values := (gmap string (list string)).
Definition Get (key : string) (v : Values) : string :=
  match v !! key with Some (x :: _) => x | _ => "" end.
Definition SetValue (key value : string) (v : Values) : Values := <[key := [value]]> v.
Definition Del (key : string) (v : Values) : Values := delete key v.

Definition queryParam : string := "query".
Definition organizationLabel : string := "organization_id".
Definition userLabel : string := "user_id".
Definition adminGroupSuffix : string := "/ai-grid-admins".
Definition userGroupSuffix : string := "/ai-grid-users".
Definition onlyUserParam : string := "only_user".
Definition upstreamQueryRange : string := "/loki/api/v1/query_range".
Definition upstreamLabels : string := "/loki/api/v1/labels".
Definition upstreamLabelValues (name : string) : string := "/loki/api/v1/label/" +:+ name +:+ "/values".

Section Proxy.
Context `{GR : GoRuntime} `{QL : LogQL}.

(** ** Query rewriting *)

Definition put (m : gmap string Matcher) (x : Matcher) : gmap string Matcher := <[m_Name x := x]> m.

(** [combineLabelMatchers]: one map by label name, client matchers first; its
    entries in iteration order. *)
Definition combineLabelMatchers (queryMatchers requiredMatchers : list Matcher) : list Matcher :=
  map snd (range_map (fold_left put requiredMatchers (fold_left put queryMatchers ∅))).

Definition enforceQueryMatchers (v : Values) (required : list Matcher) (queryEndpoint : bool)
    : option Values :=
  let paramValue := Get queryParam v in
  if String.eqb paramValue "" then
    if queryEndpoint then Some v
    else Some (SetValue queryParam (print (stream required)) v)
  else match ParseExpr paramValue with
       | None => None
       | Some expr =>
           let expr := walk (λ ms, combineLabelMatchers ms required) expr in
           Some (SetValue queryParam (print expr) v)
       end.

(** ** Label names *)

Definition isAlpha (c : ascii) : bool := in_range 97 122 c || in_range 65 90 c.
Definition isDigit (c : ascii) : bool := in_range 48 57 c.
(** A rune outside ASCII is refused; its bytes are too. *)
Definition isLabelNameRune (c : ascii) (allowDigit : bool) : bool :=
  if Ascii.eqb c "_" || isAlpha c then true else if isDigit c then allowDigit else false.
Definition isValidLabelName (name : string) : bool :=
  match name with
  | EmptyString => false
  | String c r => isLabelNameRune c false && str_all (λ d, isLabelNameRune d true) r
  end.

(** ** Authorization and forwarding *)

(** [strconv.ParseBool]. *)
Definition ParseBool (s : string) : option bool :=
  if bool_decide (s ∈ ["1"; "t"; "T"; "true"; "TRUE"; "True"]) then Some true
  else if bool_decide (s ∈ ["0"; "f"; "F"; "false"; "FALSE"; "False"]) then Some false
  else None.

Inductive Outcome :=
| Abort (status : Z)
| Forward (path : string) (values : Values) (authorization : option string).

Definition containsGroup (groups : list string) (group : string) : bool := bool_decide (group ∈ groups).

(** [authorize]; the user value is absent, of another type or nil ([Some None]),
    or a context.  [Err] is the status of the error response. *)
Definition authorize (user : option (option Identity.UserContext)) (onlyUser : bool)
    : Res Z (string * string) :=
  match user with
  | Some (Some user) =>
      if String.eqb (Identity.OrganizationID user) "" then Err 401 else
      let isAdmin := containsGroup (Identity.Groups user) (Identity.OrganizationID user +:+ adminGroupSuffix) in
      if onlyUser then
        reject 403
          when negb isAdmin && negb (containsGroup (Identity.Groups user)
                                       (Identity.OrganizationID user +:+ userGroupSuffix)) ;;
        Ok (Identity.OrganizationID user, Identity.Username user)
      else
        reject 403 when negb isAdmin ;;
        Ok (Identity.OrganizationID user, "")
  | _ => Err 401
  end%Z.

Definition required_matchers (organizationID scopedUsername : string) (onlyUser : bool) : list Matcher :=
  {| m_Type := MatchEqual; m_Name := organizationLabel; m_Value := organizationID |} ::
  if onlyUser then [{| m_Type := MatchEqual; m_Name := userLabel; m_Value := scopedUsername |}] else [].

(** [strings.TrimSuffix(path, "/")]. *)
Definition trim_slash (path : string) : string :=
  match str_rev path with String c r => if Ascii.eqb c "/" then str_rev r else path | _ => path end.

(** The service account token sent upstream. *)
Record Handler := { upstream_Path : string; h_token : string }.

Definition proxyHandler (h : Handler) (upstreamPath : string) (queryEndpoint : bool) (query : Values)
    (user : option (option Identity.UserContext)) : Outcome :=
  let raw := Get onlyUserParam query in
  match (if String.eqb raw "" then Some false else ParseBool raw) with
  | None => Abort 400
  | Some onlyUser =>
      match authorize user onlyUser with
      | Err status => Abort status
      | Ok (organizationID, scopedUsername) =>
          let values := Del onlyUserParam query in
          let required := required_matchers organizationID scopedUsername onlyUser in
          match enforceQueryMatchers values required queryEndpoint with
          | None => Abort 400
          | Some values =>
              Forward (trim_slash (upstream_Path h) +:+ upstreamPath) values
                (if String.eqb (h_token h) "" then None else Some ("Bearer " +:+ h_token h))
          end
      end
  end.

Definition proxyToLabelValues (h : Handler) (name : string) (query : Values)
    (user : option (option Identity.UserContext)) : Outcome :=
  if negb (isValidLabelName name) then Abort 400
  else proxyHandler h (upstreamLabelValues name) false query user.

(** The three registered routes. *)
Inductive Route := QueryRange | Labels | LabelValues (name : string).
Definition serve (h : Handler) (r : Route) (query : Values)
    (user : option (option Identity.UserContext)) : Outcome :=
  match r with
  | QueryRange => proxyHandler h upstreamQueryRange true query user
  | Labels => proxyHandler h upstreamLabels false query user
  | LabelValues name => proxyToLabelValues h name query user
  end.

(** ** Combined matchers *)

Lemma put_lookup ms m n x :
  fold_left put ms m !! n = Some x ↔
  (∃ l1 l2, ms = (l1 ++ x :: l2)%list ∧ m_Name x = n ∧ n ∉ map m_Name l2) ∨
  (m !! n = Some x ∧ n ∉ map m_Name ms).
Proof.
  revert m. induction ms as [|y ms IH]; intros m; cbn [fold_left map].
  - split; [intros ?; right; split; [done|set_solver]|].
    intros [(l1 & l2 & H & _)|[? _]]; [by destruct l1|done].
  - rewrite IH. unfold put at 1. rewrite lookup_insert_Some, not_elem_of_cons. split.
    + intros [(l1 & l2 & -> & Hx & Hn)|[[[<- <-]|[Hne Hm]] Hn]].
      * left. by exists (y :: l1), l2.
      * left. by exists [], ms.
      * right. auto.
    + intros [(l1 & l2 & H & Hx & Hn)|[Hm [Hne Hn]]].
      * destruct l1 as [|z l1]; simplify_eq/=; [right; auto|left; by exists l1, l2].
      * right. auto.
Qed.

Lemma combine_members q r x :
  x ∈ combineLabelMatchers q r ↔
  (∃ l1 l2, r = (l1 ++ x :: l2)%list ∧ m_Name x ∉ map m_Name l2) ∨
  (m_Name x ∉ map m_Name r ∧ ∃ l1 l2, q = (l1 ++ x :: l2)%list ∧ m_Name x ∉ map m_Name l2).
Proof.
  unfold combineLabelMatchers. rewrite range_map_perm, list_elem_of_fmap. split.
  - intros ([n y] & -> & Hy). cbn [snd]. apply elem_of_map_to_list in Hy.
    apply put_lookup in Hy as [(l1 & l2 & -> & <- & Hn)|[Hy Hn]]; [left; by exists l1, l2|].
    apply put_lookup in Hy as [(l1 & l2 & -> & <- & Hq)|[Hy _]]; [right; split; [done|by exists l1, l2]|].
    by rewrite lookup_empty in Hy.
  - intros H. exists (m_Name x, x). split; [done|]. apply elem_of_map_to_list, put_lookup.
    destruct H as [(l1 & l2 & -> & Hn)|[Hr (l1 & l2 & -> & Hn)]]; [left; by exists l1, l2|].
    right. split; [|done]. apply put_lookup. left. by exists l1, l2.
Qed.

Lemma combine_names q r : NoDup (map m_Name (combineLabelMatchers q r)).
Proof.
  unfold combineLabelMatchers. rewrite range_map_perm.
  assert (Hk : ∀ n x, fold_left put r (fold_left put q ∅) !! n = Some x → m_Name x = n).
  { intros n x [(? & ? & _ & Hx & _)|[Hx _]]%put_lookup; [done|].
    apply put_lookup in Hx as [(? & ? & _ & Hx & _)|[Hx _]]; [done|]. by rewrite lookup_empty in Hx. }
  revert Hk. generalize (fold_left put r (fold_left put q ∅)). intros m Hk.
  assert (map m_Name (map snd (map_to_list m)) = map fst (map_to_list m)) as ->.
  { assert (Hall : ∀ kv, kv ∈ map_to_list m → m_Name (snd kv) = fst kv).
    { intros [n x] Hin%elem_of_map_to_list. by apply Hk. }
    induction (map_to_list m) as [|kv l IH]; [done|]. simpl. f_equal; [apply Hall; by left|].
    apply IH. intros. apply Hall. by right. }
  apply NoDup_fst_map_to_list.
Qed.

(** ** Properties *)

(** A selector shows only what the required matchers allow: it holds each of
    them, and no other matcher for their labels. *)
Definition confined (required : list Matcher) (sel : list Matcher) : Prop :=
  (∀ r, r ∈ required → r ∈ sel) ∧
  (∀ x, x ∈ sel → m_Name x ∈ map m_Name required → x ∈ required).

Lemma combine_confined q r : NoDup (map m_Name r) → confined r (combineLabelMatchers q r).
Proof.
  intros Hnd. split.
  - intros x Hx. apply combine_members. left. apply list_elem_of_split in Hx as (l1 & l2 & ->).
    exists l1, l2. split; [done|]. rewrite map_app, map_cons in Hnd.
    apply NoDup_app in Hnd as (_ & _ & Hnd). by apply NoDup_cons in Hnd as [? _].
  - intros x Hx Hin. apply combine_members in Hx as [(l1 & l2 & -> & _)|[Hn _]]; [|done].
    rewrite elem_of_app. right. by left.
Qed.

Lemma required_nodup org u only : NoDup (map m_Name (required_matchers org u only)).
Proof. destruct only; cbn; repeat constructor; set_solver. Qed.

Lemma enforce_confined v required qe v' :
  NoDup (map m_Name required) → enforceQueryMatchers v required qe = Some v' →
  (qe = true ∧ Get queryParam v = "" ∧ v' = v) ∨
  ∃ e, Get queryParam v' = print e ∧ Forall (confined required) (selectors e) ∧
    ∀ k, k ≠ queryParam → v' !! k = v !! k.
Proof.
  intros Hnd. unfold enforceQueryMatchers.
  assert (Hset : ∀ e, Forall (confined required) (selectors e) →
    ∃ e', Get queryParam (SetValue queryParam (print e) v) = print e' ∧
      Forall (confined required) (selectors e') ∧
      ∀ k, k ≠ queryParam → SetValue queryParam (print e) v !! k = v !! k).
  { intros e He. exists e. unfold Get, SetValue. rewrite lookup_insert_eq. split_and!; try done.
    intros k Hk. by rewrite lookup_insert_ne. }
  destruct (String.eqb_spec (Get queryParam v) "").
  - destruct qe; intros [= <-]; [by left|right]. apply Hset. rewrite stream_selectors, Forall_singleton.
    split; [done|]. intros x Hx _. done.
  - destruct (ParseExpr _) as [e|]; [|done]. intros [= <-]. right. apply Hset.
    apply Forall_forall. intros sel (ms & ->)%walk_sets. by apply combine_confined.
Qed.

(** C37: whatever the client sends, a request reaches the log store only for a
    caller whose organization is known and who belongs to its admin group, or
    to its user group when asking for its own logs only; every stream selector
    of the query sent then holds the organization matcher (and, for own logs,
    the caller's user matcher) as its only matcher for that label.  A query
    endpoint passes an absent query on untouched.  The [only_user] flag is not
    forwarded and the other parameters are unchanged. *)
Theorem proxied_query_confined (h : Handler) (r : Route) (query : Values)
    (user : option (option Identity.UserContext)) (path : string) (values : Values) (auth : option string) :
  serve h r query user = Forward path values auth →
  ∃ u onlyUser, user = Some (Some u) ∧ Identity.OrganizationID u ≠ "" ∧
    (Identity.OrganizationID u +:+ adminGroupSuffix ∈ Identity.Groups u ∨
     (onlyUser = true ∧ Identity.OrganizationID u +:+ userGroupSuffix ∈ Identity.Groups u)) ∧
    ((r = QueryRange ∧ Get queryParam values = "") ∨
     ∃ e, Get queryParam values = print e ∧
       Forall (confined (required_matchers (Identity.OrganizationID u) (Identity.Username u) onlyUser))
         (selectors e)) ∧
    values !! onlyUserParam = None ∧
    ∀ k, k ≠ queryParam → k ≠ onlyUserParam → values !! k = query !! k.
Proof.
  assert (Hp : ∀ up qe, proxyHandler h up qe query user = Forward path values auth →
    (qe = true → r = QueryRange) →
    ∃ u onlyUser, user = Some (Some u) ∧ Identity.OrganizationID u ≠ "" ∧
    (Identity.OrganizationID u +:+ adminGroupSuffix ∈ Identity.Groups u ∨
     (onlyUser = true ∧ Identity.OrganizationID u +:+ userGroupSuffix ∈ Identity.Groups u)) ∧
    ((r = QueryRange ∧ Get queryParam values = "") ∨
     ∃ e, Get queryParam values = print e ∧
       Forall (confined (required_matchers (Identity.OrganizationID u) (Identity.Username u) onlyUser))
         (selectors e)) ∧
    values !! onlyUserParam = None ∧
    ∀ k, k ≠ queryParam → k ≠ onlyUserParam → values !! k = query !! k).
  { intros up qe H Hqe. unfold proxyHandler in H.
    destruct (if String.eqb _ _ then _ else _) as [only|]; [|done].
    destruct (authorize user only) as [[org name]|] eqn:Ha; [|done].
    destruct (enforceQueryMatchers _ _ qe) as [v'|] eqn:He; [|done]. injection H as _ <- _.
    unfold authorize, containsGroup in Ha. destruct user as [[u|]|]; try done.
    destruct (String.eqb_spec (Identity.OrganizationID u) ""); [done|].
    exists u, only. split; [done|]. split; [done|]. split.
    { destruct only; cbn in Ha; repeat case_bool_decide; simplify_eq/=; auto. }
    assert (Hreq : required_matchers org name only =
      required_matchers (Identity.OrganizationID u) (Identity.Username u) only).
    { destruct only; cbn in Ha; repeat case_bool_decide; simplify_eq/=; auto. }
    rewrite Hreq in He. apply enforce_confined in He; [|apply required_nodup].
    destruct He as [(-> & Hq & ->)|(e & Hq & He & Hk)].
    - split; [left; auto|]. split; [apply lookup_delete_eq|]. intros. by apply lookup_delete_ne.
    - split; [right; by exists e|]. split; [rewrite Hk by done; apply lookup_delete_eq|].
      intros k ? ?. rewrite Hk by done. by apply lookup_delete_ne. }
  destruct r as [| |name]; cbn [serve].
  - intros H. by apply (Hp _ _ H).
  - intros H. by apply (Hp _ _ H).
  - unfold proxyToLabelValues. destruct (negb _); [done|]. intros H. by apply (Hp _ _ H).
Qed.

(** Of several client matchers for one label only the last one survives, even
    though no required matcher concerns that label: the rewritten query selects
    more streams than the client asked for. *)
Lemma earlier_client_matcher_lost (org : string) (x y : Matcher) :
  m_Name x = m_Name y → x ≠ y → m_Name x ≠ organizationLabel →
  let sel := combineLabelMatchers [x; y] (required_matchers org "" false) in
  x ∉ sel ∧ y ∈ sel.
Proof.
  intros Hn Hne Ho sel. split.
  - intros [(l1 & l2 & H & _)|(_ & l1 & l2 & H & Hl)]%combine_members.
    + destruct l1 as [|z [|? ?]]; [|done..]. injection H as <- _. by apply Ho.
    + destruct l1 as [|z [|z' [|? ?]]]; [| |done..].
      * injection H as <-. apply Hl. rewrite Hn. by left.
      * injection H as _ Hxy _. by apply Hne.
  - apply combine_members. right. cbn. rewrite <- Hn, list_elem_of_singleton.
    split; [done|]. exists [x], []. split; [done|]. apply not_elem_of_nil.
Qed.

End Proxy.

(** ** A concrete LogQL: an expression is a list of selectors *)

Definition demo_logql (parsed : list (list Matcher)) : LogQL.
Proof.
  refine {| Expr := list (list Matcher); ParseExpr := λ _, Some parsed; print := λ _, "query";
            selectors := λ e, e; walk := λ f e, map f e; stream := λ ms, [ms] |}.
  - intros f e sel (ms & -> & _)%list_elem_of_fmap. by exists ms.
  - done.
Defined.

Definition demo_user : Identity.UserContext := {|
  Identity.Username := "alice"; Identity.Groups := ["acme/ai-grid-users"]; Identity.Tenant := "t";
  Identity.OrganizationID := "acme" |}.
Definition demo_handler : Handler := {| upstream_Path := "/api/logs/"; h_token := "" |}.
Definition foreign : Matcher := {| m_Type := MatchEqual; m_Name := "organization_id"; m_Value := "evil" |}.
Definition demo_query : Values := {["query" := ["x"]; "only_user" := ["true"]; "limit" := ["5"]]}.

Lemma proxied_query_confined_witness :
  ∃ values, serve (GR := reference_runtime) (QL := demo_logql [[foreign]]) demo_handler QueryRange demo_query
      (Some (Some demo_user)) = Forward "/api/logs/loki/api/v1/query_range" values None ∧
    values !! onlyUserParam = None.
Proof.
  eexists. split; [vm_compute; reflexivity|].
  destruct (proxied_query_confined (GR := reference_runtime) (QL := demo_logql [[foreign]])
    demo_handler QueryRange demo_query (Some (Some demo_user)) "/api/logs/loki/api/v1/query_range"
    {["query" := ["query"]; "limit" := ["5"]]} None) as (u & only & _ & _ & _ & _ & Hd & _).
  - vm_compute. reflexivity.
  - exact Hd.
Defined.

End LokiProxy.
