(* ===== verification/AdminResolver.v ===== *)
(** * AdminResolver: administration of an organization's subscriptions

    [maas-api/internal/subscription/admin_resolver.go], which decides what a
    verified organization administrator may act on, and the inventory of
    [selector.go] ([ListInventory]), which merges the subscriptions a caller
    owns with those it administers.  [uuid_string] is [uuid.Parse] followed by
    [String]; the subject inventory of the access policies is an argument, as
    the source takes it through an interface. *)

From S2P Require Import Prelude GoStrings Unstructured KeyGen KeyService Identity Subscription RateLimitId Selector SelectorFacts AuthPolicy.
From Stdlib Require String.
Local Open Scope string_scope.

Module AdminResolver.
Import AuthPolicy Subscription Selector.

Definition organizationAdminRole : string := "admins".

Inductive AdminErr :=
| SubscriptionAdminError (code message : string)
| AdminLoadFailed (cause : string)
| OrganizationNotCanonical.

Record AdminScope := {
  sc_Tenant : string; sc_Namespace : string; sc_Subscription : string; sc_OrganizationID : string;
}.

(** [parseSubscriptionTarget]: namespace, name, and whether a namespace was given. *)
Definition parseSubscriptionTarget (requestedSubscription : string) : option (string * string * bool) :=
  if String.eqb requestedSubscription ""
     || negb (String.eqb (trim_space requestedSubscription) requestedSubscription) then None else
  if (1 <? count_char "/" requestedSubscription)%nat then None else
  match cut "/" requestedSubscription with
  | Some (namespace, name) =>
      if String.eqb namespace "" || String.eqb name "" then None else Some (namespace, name, true)
  | None => Some ("", requestedSubscription, false)
  end.

Definition identityHasOrganizationAdmin (identity : Identity.VerifiedIdentity) (organizationID : string) : bool :=
  String.eqb (Identity.Source identity) "oidc"
  && String.eqb (Identity.OrgID (Identity.Claims identity)) organizationID
  && contains (Identity.Roles (Identity.Claims identity)) organizationAdminRole.

Section Admin.
Context `{GR : GoRuntime} `{KA : K8sAccess}.
Variable parseSubscriptionHeaders : string → Res string (gmap string (list string)).
Variable uuid_string : string → option string.
(** [subjectInventory.ModelAccessSubjects]; [None] when it is not configured. *)
Variable subjectInventory :
  option (list ModelKey → string → Res string (gmap ModelKey ModelAccessSubjects)).

Definition canonicalOrganizationID (organizationID : string) : option string :=
  if bool_decide (uuid_string organizationID = Some organizationID) then Some organizationID else None.

Definition loadAdminSubscriptions (s : Selector) : Res string (list subscription) :=
  objects <- lister s ;;
  Ok (omap (λ object,
    if negb (String.eqb (subscriptionNamespace s) "")
       && negb (String.eqb (GetNamespace object) (subscriptionNamespace s)) then None else
    match parseSubscription parseSubscriptionHeaders object with
    | Err _ => None
    | Ok parsed => Some parsed
    end) objects).

Definition target_matches (namespace name : string) (qualified : bool) (candidate : subscription) : bool :=
  if qualified
  then String.eqb (Namespace candidate) namespace && String.eqb (Name candidate) name
  else String.eqb (Name candidate) name.

Definition adminSubscriptionTarget (s : Selector) (requestedSubscription : string) : Res AdminErr subscription :=
  if String.eqb requestedSubscription ""
  then Err (SubscriptionAdminError "bad_request" "requestedSubscription is required") else
  match parseSubscriptionTarget requestedSubscription with
  | None => Err (SubscriptionAdminError "bad_request" "requestedSubscription is invalid")
  | Some (namespace, name, qualified) =>
      subscriptions <- map_err AdminLoadFailed (loadAdminSubscriptions s) ;;
      match filter (λ c, target_matches namespace name qualified c = true) subscriptions with
      | [] => Err (SubscriptionAdminError "not_found" "requested subscription was not found")
      | [target] => Ok target
      | _ => Err (SubscriptionAdminError "ambiguous_subscription" "requested subscription name is ambiguous")
      end
  end.

Definition CanonicalizeSubscription (s : Selector) (requestedSubscription : string) : Res AdminErr string :=
  res_map Name (adminSubscriptionTarget s requestedSubscription).

Definition scope_of (s : Selector) (sub : subscription) (organizationID : string) : AdminScope := {|
  sc_Tenant := tenantName s; sc_Namespace := Namespace sub; sc_Subscription := Name sub;
  sc_OrganizationID := organizationID |}.

Definition ResolveSubscriptionAdmin (s : Selector) (identity : option Identity.VerifiedIdentity)
    (requestedSubscription : string) : Res AdminErr AdminScope :=
  match identity with
  | None => Err (SubscriptionAdminError "invalid_identity" "trusted identity is required")
  | Some identity =>
      target <- adminSubscriptionTarget s requestedSubscription ;;
      reject SubscriptionAdminError "unresolved_association" "subscription organization association is required"
        when String.eqb (AssociatedOrganizationID target) "" ;;
      match canonicalOrganizationID (AssociatedOrganizationID target) with
      | None => Err (SubscriptionAdminError "unresolved_association"
                       "subscription organization association is invalid")
      | Some organizationID =>
          reject SubscriptionAdminError "access_denied" "organization administration is denied"
            when negb (identityHasOrganizationAdmin identity organizationID) ;;
          reject SubscriptionAdminError "internal_error" "tenant is not configured"
            when String.eqb (tenantName s) "" ;;
          Ok (scope_of s target organizationID)
      end
  end.

(** The organization of a subscription that the identity administers. *)
Definition administeredOrganizationID (sub : subscription) (identity : Identity.VerifiedIdentity) : string :=
  if String.eqb (AssociatedOrganizationID sub) "" then "" else
  match canonicalOrganizationID (AssociatedOrganizationID sub) with
  | None => ""
  | Some organizationID => if identityHasOrganizationAdmin identity organizationID then organizationID else ""
  end.

Definition admin_scope (s : Selector) (identity : Identity.VerifiedIdentity) (candidate : subscription)
    : option AdminScope :=
  if String.eqb (AssociatedOrganizationID candidate) "" then None else
  match canonicalOrganizationID (AssociatedOrganizationID candidate) with
  | None => None
  | Some organizationID =>
      if identityHasOrganizationAdmin identity organizationID
      then Some (scope_of s candidate organizationID) else None
  end.

Definition ResolveSubscriptionAdminScopes (s : Selector) (identity : option Identity.VerifiedIdentity)
    : Res AdminErr (list AdminScope) :=
  match identity with
  | None => Ok []
  | Some identity =>
      if negb (String.eqb (Identity.Source identity) "oidc") then Ok [] else
      let organizationID := Identity.OrgID (Identity.Claims identity) in
      if String.eqb organizationID "" then Ok [] else
      match canonicalOrganizationID organizationID with
      | None => Err OrganizationNotCanonical
      | Some organizationID =>
          if negb (identityHasOrganizationAdmin identity organizationID) then Ok [] else
          reject SubscriptionAdminError "internal_error" "tenant is not configured"
            when String.eqb (tenantName s) "" ;;
          subscriptions <- map_err AdminLoadFailed (loadAdminSubscriptions s) ;;
          Ok (omap (admin_scope s identity) subscriptions)
      end
  end.

(** ** The inventory *)

Definition ownerInventoryVisible (sub : subscription) : bool :=
  (String.eqb (Phase sub) PhaseActive || String.eqb (Phase sub) PhaseDegraded)
  && negb (subscriptionIsDeleting sub).

Definition loadInventorySubscriptions (s : Selector) : Res string (list subscription) :=
  objects <- lister s ;;
  let modelIndex := buildModelIndex s in
  Ok (omap (λ object,
    if negb (String.eqb (subscriptionNamespace s) "")
       && negb (String.eqb (GetNamespace object) (subscriptionNamespace s)) then None else
    match parseSubscription parseSubscriptionHeaders object with
    | Err _ => None
    | Ok parsed => Some (with_ModelRefs parsed (enrichModelRefs (ModelRefs parsed) modelIndex))
    end) objects).

Definition administeredOrganizationIDs (subscriptions : list subscription)
    (identity : Identity.VerifiedIdentity) : gset string :=
  list_to_set (filter (λ o, o ≠ "") (map (λ sub, administeredOrganizationID sub identity) subscriptions)).

Definition hasOwnerInventoryCandidates (subscriptions : list subscription) (username : string)
    (groups : list string) (identity : Identity.VerifiedIdentity) : bool :=
  existsb (λ sub, userHasAccess sub username groups
                  && String.eqb (administeredOrganizationID sub identity) ""
                  && ownerInventoryVisible sub) subscriptions.

(** The model references of the subscriptions of an administered organization. *)
Definition organization_refs (subscriptions : list subscription) (organizationID : string) : list ModelKey :=
  flat_map (λ sub,
    if bool_decide (canonicalOrganizationID (AssociatedOrganizationID sub) = Some organizationID)
    then map ref_key (filter (λ ref, ref_Namespace ref ≠ "" ∧ ref_Name ref ≠ "") (ModelRefs sub))
    else []) subscriptions.

Definition buildAdminInventories (subscriptions : list subscription) (adminOrganizationIDs : gset string)
    : Res SelErr (gmap string (gmap ModelKey ModelAccessSubjects)) :=
  if bool_decide (adminOrganizationIDs = ∅) then Ok ∅ else
  match subjectInventory with
  | None => Err (LoadFailed "model-access subject inventory is unavailable")
  | Some inventory =>
      fold_res (λ inventories organizationID,
        inv <- map_err LoadFailed (inventory (organization_refs subscriptions organizationID) organizationID) ;;
        Ok (<[organizationID := inv]> inventories)) ∅
        (map fst (range_map (set_to_map (λ o, (o, tt)) adminOrganizationIDs)))
  end.

Definition ref_with_Subjects (ref : ModelRefInfo) (subjects : option SubjectInventory) : ModelRefInfo := {|
  ref_Name := ref_Name ref; ref_Namespace := ref_Namespace ref; ref_ModelName := ref_ModelName ref;
  ref_DisplayName := ref_DisplayName ref; ref_Description := ref_Description ref;
  ref_Source := ref_Source ref; TokenRateLimits := TokenRateLimits ref; Unlimited := Unlimited ref;
  BillingRate := BillingRate ref; Subjects := subjects |}.

(** Groups are compared and sorted by name, their only field. *)
Definition ref_subjects (sub : subscription) (inventory : gmap ModelKey ModelAccessSubjects)
    (ref : ModelRefInfo) : ModelRefInfo :=
  let subjects := default no_subjects (inventory !! ref_key ref) in
  let groups := filter (λ g, g ∈ Groups sub) (map gr_Name (mas_Groups subjects)) in
  let users := filter (λ u, u ∈ Users sub) (mas_Users subjects) in
  match groups, users with
  | [], [] => ref
  | _, _ => ref_with_Subjects ref
              (Some {| inv_Groups := sort_slice str_ltb groups; inv_Users := sort_strings users |})
  end.
Definition modelRefSubjects (sub : subscription) (inventory : gmap ModelKey ModelAccessSubjects)
    : list ModelRefInfo := map (ref_subjects sub inventory) (ModelRefs sub).

Definition add_new (l : list string) (x : string) : list string :=
  if bool_decide (x ∈ l) then l else (l ++ [x])%list.
Definition ownerInventory (refs : list ModelRefInfo) : option SubjectInventory :=
  let subjects := omap Subjects refs in
  let groups := fold_left add_new (flat_map inv_Groups subjects) [] in
  let users := fold_left add_new (flat_map inv_Users subjects) [] in
  match groups, users with
  | [], [] => None
  | _, _ => Some {| inv_Groups := sort_slice str_ltb groups; inv_Users := sort_strings users |}
  end.

Definition info_with (info : SubscriptionInfo) (namespace : string) (refs : list ModelRefInfo)
    (roles : list string) (organizationID : string) (owner : option SubjectInventory) : SubscriptionInfo := {|
  SubscriptionIDHeader := SubscriptionIDHeader info; info_Namespace := namespace;
  SubscriptionDescription := SubscriptionDescription info; info_DisplayName := info_DisplayName info;
  info_Priority := info_Priority info; info_ModelRefs := refs; Roles := roles;
  info_OrganizationID := organizationID; info_CostCenter := info_CostCenter info;
  info_Labels := info_Labels info; Owner := owner |}.

(** One subscription of the inventory, once it is known not to be a duplicate. *)
Definition inventory_entry (s : Selector) (username : string) (groups : list string)
    (identity : Identity.VerifiedIdentity)
    (adminInventories : gmap string (gmap ModelKey ModelAccessSubjects))
    (authorizedModels : option AuthorizedSet) (sub : subscription) : option SubscriptionInfo :=
  let owner := userHasAccess sub username groups in
  let ownerVisible := owner && ownerInventoryVisible sub in
  let adminOrganizationID := administeredOrganizationID sub identity in
  let admin := negb (String.eqb adminOrganizationID "") in
  if negb ownerVisible && negb admin then None else
  let info := ResponseToSubscriptionInfo (toResponse sub) in
  let roles := if owner && admin then ["owner"; "admin"] else if admin then ["admin"] else Roles info in
  if admin then
    let refs := modelRefSubjects sub (default ∅ (adminInventories !! adminOrganizationID)) in
    Some (info_with info (Namespace sub) refs roles adminOrganizationID (ownerInventory refs))
  else match accessChecker s with
       | Some _ =>
           match filterAuthorizedModels (ModelRefs sub) (default ∅ authorizedModels) with
           | [] => None
           | refs => Some (info_with info (Namespace sub) refs roles (info_OrganizationID info) None)
           end
       | None => Some (info_with info (Namespace sub) (info_ModelRefs info) roles
                         (info_OrganizationID info) None)
       end.

(** [sub.Namespace + "\x00" + sub.Name]. *)
Definition inventory_key (sub : subscription) : string :=
  Namespace sub +:+ String "000" "" +:+ Name sub.

Fixpoint inventory_loop (entry : subscription → option SubscriptionInfo) (seen : gset string)
    (subscriptions : list subscription) : list SubscriptionInfo :=
  match subscriptions with
  | [] => []
  | sub :: subs =>
      if bool_decide (inventory_key sub ∈ seen) then inventory_loop entry seen subs else
      match entry sub with
      | None => inventory_loop entry seen subs
      | Some info => info :: inventory_loop entry ({[inventory_key sub]} ∪ seen) subs
      end
  end.

Definition info_less (a b : SubscriptionInfo) : bool :=
  if negb (String.eqb (info_Namespace a) (info_Namespace b))
  then str_ltb (info_Namespace a) (info_Namespace b)
  else str_ltb (SubscriptionIDHeader a) (SubscriptionIDHeader b).

Definition buildInventoryResponse (s : Selector) (subscriptions : list subscription) (username : string)
    (groups : list string) (identity : Identity.VerifiedIdentity)
    (adminInventories : gmap string (gmap ModelKey ModelAccessSubjects))
    (authorizedModels : option AuthorizedSet) : list SubscriptionInfo :=
  sort_slice info_less
    (inventory_loop (inventory_entry s username groups identity adminInventories authorizedModels) ∅ subscriptions).

Definition listOwnerInventory (s : Selector) (groups : list string) (username : string)
    : Res SelErr (list SubscriptionInfo) :=
  res_map (map ResponseToSubscriptionInfo) (GetAllAccessible parseSubscriptionHeaders s groups username).

Definition ListInventory (s : Selector) (groups : list string) (username : string)
    (identity : option Identity.VerifiedIdentity) : Res SelErr (list SubscriptionInfo) :=
  match identity with
  | None => listOwnerInventory s groups username
  | Some identity =>
      subscriptions <- map_err LoadFailed (loadInventorySubscriptions s) ;;
      let adminOrganizationIDs := administeredOrganizationIDs subscriptions identity in
      authorized <- (if hasOwnerInventoryCandidates subscriptions username groups identity
                     then authorizedModels s groups username else Ok None) ;;
      adminInventories <- buildAdminInventories subscriptions adminOrganizationIDs ;;
      Ok (buildInventoryResponse s subscriptions username groups identity adminInventories authorized)
  end.

End Admin.
End AdminResolver.
