(* ===== verification/AdminResolverFacts.v ===== *)
(** * AdminResolverFacts: who administers what, and what an inventory shows

    The theorems about [AdminResolver]: the scope a single request resolves to
    is one of the scopes listed for the same identity, and the inventory of a
    verified caller holds each subscription once, in order, and only those it
    administers or owns. *)

From S2P Require Import Prelude GoStrings Unstructured KeyGen KeyService Identity Subscription RateLimitId Selector SelectorFacts AuthPolicy AdminResolver.
From Stdlib Require String.
Local Open Scope string_scope.

Module AdminResolverFacts.
Import AuthPolicy Subscription Selector SelectionSafety AdminResolver.

(** ** Auxiliary lemmas *)

Lemma count_char_app c a b : count_char c (a +:+ b) = (count_char c a + count_char c b)%nat.
Proof. induction a as [|d a IH]; simpl; [done|]. rewrite IH. lia. Qed.

Lemma count_char_none c s : contains_char c s = false → count_char c s = 0%nat.
Proof.
  induction s as [|d s IH]; simpl; [done|]. intros [H1 H2]%orb_false_iff.
  rewrite (IH H2). by rewrite H1.
Qed.

Lemma parse_qualified ns name :
  ns ≠ "" → name ≠ "" → contains_char "/" ns = false → contains_char "/" name = false →
  trim_space (ns +:+ "/" +:+ name) = ns +:+ "/" +:+ name →
  parseSubscriptionTarget (ns +:+ "/" +:+ name) = Some (ns, name, true).
Proof.
  intros Hns Hname Hs Hn Ht. unfold parseSubscriptionTarget. rewrite Ht, String.eqb_refl.
  assert (E : String.eqb (ns +:+ "/" +:+ name) "" = false) by (by apply String.eqb_neq; destruct ns).
  rewrite E. cbn [negb orb]. rewrite !count_char_app, (count_char_none _ _ Hs), (count_char_none _ _ Hn).
  replace (cut "/" (ns +:+ "/" +:+ name)) with (Some (ns, name)) by (symmetry; by apply cut_some).
  apply String.eqb_neq in Hns as ->. apply String.eqb_neq in Hname as ->. done.
Qed.

Lemma contains_elem l x : contains l x = true ↔ x ∈ l.
Proof. apply bool_decide_eq_true. Qed.

#[export] Instance info_less_weak : StrictWeak info_less.
Proof.
  eapply (strict_weak_ext _ (by_key info_Namespace str_ltb (on_key SubscriptionIDHeader str_ltb)));
    [|apply _].
  intros a b. unfold info_less, by_key, on_key.
  destruct (String.eqb_spec (info_Namespace a) (info_Namespace b)), (decide _); done.
Qed.

Definition info_id (info : SubscriptionInfo) : string * string :=
  (info_Namespace info, SubscriptionIDHeader info).

Lemma info_less_ties a b : info_less a b = false → info_less b a = false → info_id a = info_id b.
Proof.
  unfold info_less, info_id. rewrite (String.eqb_sym (info_Namespace b)).
  destruct (String.eqb_spec (info_Namespace a) (info_Namespace b)) as [->|Hne]; cbn [negb]; intros H1 H2.
  - by rewrite (st_tri _ _ H1 H2).
  - destruct Hne. by apply st_tri.
Qed.

(** A sorted slice whose identities are distinct is strictly sorted. *)
Lemma info_sorted_strict l :
  NoDup (map info_id l) → StronglySorted (not_after info_less) l →
  StronglySorted (λ a b, info_less a b = true) l.
Proof.
  intros Hnd HS. induction HS as [|x l HS IH Hall]; [constructor|].
  cbn in Hnd. apply NoDup_cons in Hnd as [Hx Hnd]. constructor; [by apply IH|].
  rewrite Forall_forall in Hall |- *. intros y Hy. specialize (Hall y Hy).
  destruct (info_less x y) eqn:E; [done|]. destruct Hx.
  rewrite (info_less_ties _ _ E Hall). by apply list_elem_of_fmap_2.
Qed.

Section Resolver.
Context `{GR : GoRuntime} `{KA : K8sAccess}.
Variable parseSubscriptionHeaders : string → Res string (gmap string (list string)).
Variable uuid_string : string → option string.
Variable subjectInventory :
  option (list ModelKey → string → Res string (gmap ModelKey ModelAccessSubjects)).

Notation load := (loadAdminSubscriptions parseSubscriptionHeaders).
Notation resolve := (ResolveSubscriptionAdmin parseSubscriptionHeaders uuid_string).
Notation scopes := (ResolveSubscriptionAdminScopes parseSubscriptionHeaders uuid_string).

(** [sub] belongs to the one organization the identity administers. *)
Definition administers (identity : Identity.VerifiedIdentity) (sub : subscription) : Prop :=
  Identity.Source identity = "oidc"
  ∧ organizationAdminRole ∈ Identity.Roles (Identity.Claims identity)
  ∧ AssociatedOrganizationID sub = Identity.OrgID (Identity.Claims identity)
  ∧ AssociatedOrganizationID sub ≠ ""
  ∧ uuid_string (AssociatedOrganizationID sub) = Some (AssociatedOrganizationID sub).

Lemma canonical_some o o' :
  canonicalOrganizationID uuid_string o = Some o' ↔ o' = o ∧ uuid_string o = Some o.
Proof. unfold canonicalOrganizationID. case_bool_decide; naive_solver. Qed.

Lemma has_admin_spec identity o :
  identityHasOrganizationAdmin identity o = true ↔
  Identity.Source identity = "oidc" ∧ Identity.OrgID (Identity.Claims identity) = o
  ∧ organizationAdminRole ∈ Identity.Roles (Identity.Claims identity).
Proof.
  unfold identityHasOrganizationAdmin. rewrite !andb_true_iff, !String.eqb_eq, contains_elem. tauto.
Qed.

(** The administration test, which the source writes out three times. *)
Lemma administers_cases {A} identity sub (k : string → A) (d : A) :
  let r := if String.eqb (AssociatedOrganizationID sub) "" then d else
    match canonicalOrganizationID uuid_string (AssociatedOrganizationID sub) with
    | None => d
    | Some o => if identityHasOrganizationAdmin identity o then k o else d
    end in
  administers identity sub ∧ r = k (AssociatedOrganizationID sub) ∨ ¬ administers identity sub ∧ r = d.
Proof.
  cbn. unfold administers. destruct (String.eqb_spec (AssociatedOrganizationID sub) ""); [right; tauto|].
  destruct (canonicalOrganizationID _ _) as [o|] eqn:E.
  - apply canonical_some in E as [-> Hu].
    destruct (identityHasOrganizationAdmin _ _) eqn:E; [apply has_admin_spec in E; left; naive_solver|].
    right. split; [|done]. intros (? & ? & ? & _). apply not_true_iff_false in E. destruct E.
    by apply has_admin_spec.
  - right. split; [|done]. intros (? & ? & ? & ? & Hu).
    assert (canonicalOrganizationID uuid_string (AssociatedOrganizationID sub)
      = Some (AssociatedOrganizationID sub)) by by apply canonical_some. congruence.
Qed.

Lemma admin_scope_spec s identity sub sc :
  admin_scope uuid_string s identity sub = Some sc ↔
  administers identity sub ∧ sc = scope_of s sub (AssociatedOrganizationID sub).
Proof.
  unfold admin_scope.
  destruct (administers_cases identity sub (λ o, Some (scope_of s sub o)) None) as [[? ->]|[? ->]]; naive_solver.
Qed.

Lemma administered_cases sub identity :
  administers identity sub ∧ administeredOrganizationID uuid_string sub identity = AssociatedOrganizationID sub
  ∨ ¬ administers identity sub ∧ administeredOrganizationID uuid_string sub identity = "".
Proof. apply (administers_cases identity sub id ""). Qed.

(** An error branch of [ResolveSubscriptionAdmin] admits no target. *)
Ltac no_target :=
  split; [done|]; intros (? & ? & ? & ? & ? & ? & ? & Hf & Ha & ? & ?); simplify_eq; try congruence;
  try match goal with Hspec : ∀ sc, _ ↔ _, Ef : filter _ _ = _ |- _ =>
    rewrite Ef in Hf; injection Hf as <-; by pose proof (proj2 (Hspec _) (conj Ha eq_refl)) end.

(** What one request resolves to, read off the loaded subscriptions. *)
Lemma resolve_ok s identity requested sc :
  resolve s (Some identity) requested = Ok sc ↔
  ∃ subs ns name qualified target,
    load s = Ok subs ∧ parseSubscriptionTarget requested = Some (ns, name, qualified)
    ∧ filter (λ c, target_matches ns name qualified c = true) subs = [target]
    ∧ administers identity target ∧ tenantName s ≠ ""
    ∧ sc = scope_of s target (AssociatedOrganizationID target).
Proof.
  unfold ResolveSubscriptionAdmin, adminSubscriptionTarget.
  destruct (String.eqb_spec requested "") as [->|_].
  { split; [done|]. by intros (? & ? & ? & ? & ? & _ & Hp & _). }
  destruct (parseSubscriptionTarget requested) as [[[ns name] qualified]|]; [|no_target].
  destruct (load s) as [subs|e]; cbn [map_err res_bind]; [|no_target].
  destruct (filter _ subs) as [|target [|]] eqn:Ef; cbn [res_bind]; [no_target| |no_target].
  pose proof (admin_scope_spec s identity target) as Hspec. unfold admin_scope in Hspec.
  destruct (String.eqb (AssociatedOrganizationID target) ""); [no_target|].
  destruct (canonicalOrganizationID _ _) as [o|]; [|no_target].
  destruct (identityHasOrganizationAdmin identity o); cbn [negb]; [|no_target].
  destruct (Hspec (scope_of s target o)) as [[Ha Ho] _]; [done|].
  clear Hspec. destruct (String.eqb_spec (tenantName s) "") as [Ht|Ht].
  { split; [done|]. by intros (? & ? & ? & ? & ? & ? & ? & ? & ? & ? & _). }
  rewrite Ho.
  split; [intros [= <-]; by exists subs, ns, name, qualified, target|].
  intros (? & ? & ? & ? & ? & ? & ? & Hf & _ & _ & ->). simplify_eq. congruence.
Qed.

Lemma scopes_ok s identity subs o :
  tenantName s ≠ "" → load s = Ok subs → Identity.Source identity = "oidc" →
  organizationAdminRole ∈ Identity.Roles (Identity.Claims identity) →
  Identity.OrgID (Identity.Claims identity) = o → o ≠ "" → uuid_string o = Some o →
  scopes s (Some identity) = Ok (omap (admin_scope uuid_string s identity) subs).
Proof.
  intros Ht Hl Hs Hr Ho Hne Hu. unfold ResolveSubscriptionAdminScopes. rewrite Hs, Ho, Hl.
  apply String.eqb_neq in Ht, Hne. rewrite Hne, Ht. cbn [negb String.eqb].
  replace (canonicalOrganizationID uuid_string o) with (Some o) by (symmetry; by apply canonical_some).
  replace (identityHasOrganizationAdmin identity o) with true by (symmetry; by apply has_admin_spec).
  done.
Qed.

Lemma scopes_elem s identity listed sc :
  scopes s (Some identity) = Ok listed → sc ∈ listed →
  ∃ subs sub, load s = Ok subs ∧ sub ∈ subs ∧ admin_scope uuid_string s identity sub = Some sc
    ∧ tenantName s ≠ "".
Proof.
  unfold ResolveSubscriptionAdminScopes. intros Hok Hin.
  destruct (negb _); [by simplify_eq; apply not_elem_of_nil in Hin|].
  destruct (String.eqb _ ""); [by simplify_eq; apply not_elem_of_nil in Hin|].
  destruct (canonicalOrganizationID _ _); [|done].
  destruct (negb _); [by simplify_eq; apply not_elem_of_nil in Hin|].
  destruct (String.eqb_spec (tenantName s) ""); [done|].
  destruct (load s) as [subs|]; [|done]. injection Hok as <-.
  apply list_elem_of_omap in Hin as (sub & ? & ?). by exists subs, sub.
Qed.

(** A request to administer a subscription resolves exactly to the listed
    scopes of the identity.  Whatever spelling a request uses, the scope
    [ResolveSubscriptionAdmin] returns is in the list
    [ResolveSubscriptionAdminScopes] gives for the same identity, and that
    identity comes from OIDC, carries the administrator role and the
    subscription's own organization, in canonical form.  Conversely, when a
    listed subscription is the only one of its namespace and name, asking for
    [namespace/name] resolves to its scope. *)
Theorem admin_resolution_listed s identity :
  (∀ requested sc, resolve s (Some identity) requested = Ok sc →
     Identity.Source identity = "oidc" ∧ organizationAdminRole ∈ Identity.Roles (Identity.Claims identity)
     ∧ sc_OrganizationID sc = Identity.OrgID (Identity.Claims identity)
     ∧ uuid_string (sc_OrganizationID sc) = Some (sc_OrganizationID sc)
     ∧ sc_Tenant sc = tenantName s ∧ tenantName s ≠ ""
     ∧ ∃ listed, scopes s (Some identity) = Ok listed ∧ sc ∈ listed)
  ∧ (∀ listed sc subs, scopes s (Some identity) = Ok listed → sc ∈ listed → load s = Ok subs →
     sc_Namespace sc ≠ "" → sc_Subscription sc ≠ "" →
     contains_char "/" (sc_Namespace sc) = false → contains_char "/" (sc_Subscription sc) = false →
     let requested := sc_Namespace sc +:+ "/" +:+ sc_Subscription sc in
     trim_space requested = requested →
     (∃ target, filter (λ c, Namespace c = sc_Namespace sc ∧ Name c = sc_Subscription sc) subs = [target]) →
     resolve s (Some identity) requested = Ok sc).
Proof.
  split.
  - intros requested sc (subs & ns & name & q & target & Hl & Hp & Hf & Ha & Ht & ->)%resolve_ok.
    pose proof Ha as (Hs & Hr & Ho & Hne & Hu). split_and!; try done.
    exists (omap (admin_scope uuid_string s identity) subs).
    split; [by apply (scopes_ok s identity subs (AssociatedOrganizationID target))|].
    apply list_elem_of_omap. exists target. split; [|by apply admin_scope_spec].
    assert (Hin : target ∈ filter (λ c, target_matches ns name q c = true) subs) by (rewrite Hf; apply list_elem_of_here).
    by apply list_elem_of_filter in Hin as [_ ?].
  - intros listed sc subs Hlist Hin Hl Hns Hname Cns Cname requested Htrim [target Huniq].
    destruct (scopes_elem s identity listed sc Hlist Hin) as (subs' & sub & Hl' & Hsub & Hsc & Ht).
    rewrite Hl in Hl'. injection Hl' as <-. apply admin_scope_spec in Hsc as [Ha ->]. cbn in *.
    assert (sub = target) as ->.
    { apply list_elem_of_singleton. rewrite <- Huniq. by apply list_elem_of_filter. }
    apply resolve_ok. exists subs, (Namespace target), (Name target), true, target.
    split_and!; try done; [by apply parse_qualified|]. rewrite <- Huniq. apply list_filter_iff.
    intros c. cbn. by rewrite andb_true_iff, !String.eqb_eq.
Qed.

(** ** The inventory *)

Definition info_key (info : SubscriptionInfo) : string :=
  info_Namespace info +:+ String "000" "" +:+ SubscriptionIDHeader info.

Lemma info_ids_nodup l : NoDup (map info_key l) → NoDup (map info_id l).
Proof.
  induction l as [|i l IH]; cbn; [constructor|]. intros [Hn H]%NoDup_cons. constructor; [|by apply IH].
  intros (j & E & Hj)%list_elem_of_fmap. apply Hn, list_elem_of_fmap. exists j. split; [|done].
  unfold info_id in E. unfold info_key. by injection E as -> ->.
Qed.

(** The loop keeps the first entry of each key. *)
Lemma inventory_loop_spec entry seen subs :
  (∀ sub info, entry sub = Some info → info_key info = inventory_key sub) →
  NoDup (map info_key (inventory_loop entry seen subs))
  ∧ (∀ info, info ∈ inventory_loop entry seen subs →
      info_key info ∉ seen ∧ ∃ sub, sub ∈ subs ∧ entry sub = Some info)
  ∧ (∀ sub, sub ∈ subs → is_Some (entry sub) →
      inventory_key sub ∈ seen ∨ ∃ info, info ∈ inventory_loop entry seen subs ∧ info_key info = inventory_key sub).
Proof.
  intros He. revert seen. induction subs as [|sub subs IH]; intros seen; cbn [inventory_loop].
  - split_and!; [constructor|by intros info ?%not_elem_of_nil|by intros sub ?%not_elem_of_nil].
  - case_bool_decide as Hseen; [|destruct (entry sub) as [info|] eqn:E].
    + destruct (IH seen) as (H1 & H2 & H3). split_and!; [done| |].
      * intros i Hi. destruct (H2 i Hi) as (? & s' & ? & ?). split; [done|]. exists s'. by rewrite elem_of_cons; auto.
      * intros s' [->|Hs']%elem_of_cons; [by left|]. by apply H3.
    + destruct (IH ({[inventory_key sub]} ∪ seen)) as (H1 & H2 & H3). split_and!.
      * cbn [map]. constructor; [|done]. intros (i & Hk & Hi)%list_elem_of_fmap.
        apply H2 in Hi as [Hi _]. rewrite (He _ _ E) in Hk. rewrite <- Hk in Hi. apply Hi. by apply elem_of_union_l, elem_of_singleton.
      * intros i [->|Hi]%elem_of_cons.
        -- rewrite (He _ _ E). split; [done|]. exists sub. split; [apply list_elem_of_here|done].
        -- destruct (H2 i Hi) as (Hn & s' & ? & ?). split; [by intros ?; apply Hn, elem_of_union_r|].
           exists s'. by rewrite elem_of_cons; auto.
      * intros s' [->|Hs']%elem_of_cons Hsome.
        -- right. exists info. split; [apply list_elem_of_here|by apply He].
        -- destruct (H3 s' Hs' Hsome) as [[Hk%elem_of_singleton|Hk]%elem_of_union|(i & ? & ?)].
           ++ right. exists info. split; [apply list_elem_of_here|]. rewrite Hk. by apply He.
           ++ by left.
           ++ right. exists i. rewrite elem_of_cons. auto.
    + destruct (IH seen) as (H1 & H2 & H3). split_and!; [done| |].
      * intros i Hi. destruct (H2 i Hi) as (? & s' & ? & ?). split; [done|]. exists s'. by rewrite elem_of_cons; auto.
      * intros s' [->|Hs']%elem_of_cons Hsome; [by destruct Hsome; congruence|]. by apply H3.
Qed.

(** What an inventory may say about one model reference of [sub]. *)
Definition ref_shown (sub : subscription) (ref : ModelRefInfo) : Prop :=
  ∃ ref0, ref0 ∈ ModelRefs sub ∧ ref_key ref = ref_key ref0 ∧
    (Subjects ref = Subjects ref0 ∨ ∃ inv, Subjects ref = Some inv ∧
       (∀ g, g ∈ inv_Groups inv → g ∈ Groups sub) ∧ (∀ u, u ∈ inv_Users inv → u ∈ Users sub)).

Lemma model_refs_shown sub inventory ref : ref ∈ modelRefSubjects sub inventory → ref_shown sub ref.
Proof.
  unfold modelRefSubjects, ref_subjects. intros (ref0 & -> & Hin)%list_elem_of_fmap.
  exists ref0. split; [done|].
  set (gs := filter _ (map _ _)). set (us := filter _ (mas_Users _)).
  assert (Hg : ∀ g, g ∈ sort_slice str_ltb gs → g ∈ Groups sub).
  { intros g. rewrite sort_slice_perm. by intros [? _]%list_elem_of_filter. }
  assert (Hu : ∀ u, u ∈ sort_strings us → u ∈ Users sub).
  { intros u. rewrite sort_strings_perm. by intros [? _]%list_elem_of_filter. }
  destruct gs, us; (split; [done|]); [by left|right; by eexists..].
Qed.

(** What an entry [info] of a verified caller's inventory says about [sub]. *)
Record entry_ok (s : Selector) (groups : list string) (username : string)
    (identity : Identity.VerifiedIdentity) (sub : subscription) (info : SubscriptionInfo) : Prop := {
  eo_key : info_Namespace info = Namespace sub ∧ SubscriptionIDHeader info = Name sub;
  eo_kind :
    administers identity sub ∧ "admin" ∈ Roles info
      ∧ ("owner" ∈ Roles info ↔ userHasAccess sub username groups = true)
      ∧ info_OrganizationID info = Identity.OrgID (Identity.Claims identity)
      ∧ (∀ ref, ref ∈ info_ModelRefs info → ref_shown sub ref)
    ∨ ¬ administers identity sub ∧ Roles info = [] ∧ Owner info = None
      ∧ userHasAccess sub username groups = true ∧ ownerInventoryVisible sub = true
      ∧ (accessChecker s ≠ None → ∃ a, authorizedModels s groups username = Ok (Some a)
           ∧ info_ModelRefs info = filterAuthorizedModels (ModelRefs sub) a ∧ info_ModelRefs info ≠ [])
}.

Notation entry s := (inventory_entry uuid_string s).

Lemma entry_sound s username groups identity inventories authorizedSet sub info :
  (accessChecker s ≠ None → ¬ administers identity sub → userHasAccess sub username groups = true →
   ownerInventoryVisible sub = true →
   ∃ a, authorizedModels s groups username = Ok (Some a) ∧ authorizedSet = Some a) →
  entry s username groups identity inventories authorizedSet sub = Some info →
  entry_ok s groups username identity sub info.
Proof.
  intros Hauth. unfold inventory_entry.
  destruct (administered_cases sub identity) as [[Ha E]|[Ha E]]; rewrite E.
  - pose proof Ha as (_ & _ & Ho & Hne & _). apply String.eqb_neq in Hne as ->.
    cbn [negb]. rewrite andb_false_r, andb_true_r. cbn [negb]. intros [= <-]. split; [done|]. left. cbn.
    split_and!; [done|destruct (userHasAccess _ _ _); rewrite !elem_of_cons; auto|destruct (userHasAccess _ _ _)|done|].
    + split; [done|]. intros _. apply list_elem_of_here.
    + split; [|done]. intros [Hx|Hx%not_elem_of_nil]%elem_of_cons; [by inversion Hx|done].
    + apply model_refs_shown.
  - cbn [String.eqb negb]. rewrite andb_true_r, andb_false_r.
    destruct (userHasAccess sub username groups && ownerInventoryVisible sub) eqn:Hv; [|done]. cbn [negb].
    apply andb_true_iff in Hv as [Hu Hv].
    destruct (accessChecker s) as [chk|] eqn:Hc.
    + destruct Hauth as (a & Haa & ->); [done..|]. change (default ∅ (Some a)) with a.
      destruct (filterAuthorizedModels (ModelRefs sub) a) as [|r rs] eqn:Ef; [done|].
      intros [= <-]. split; [done|]. right. cbn. split_and!; try done. intros _. exists a. by rewrite Ef.
    + intros [= <-]. split; [done|]. right. cbn. by split_and!.
Qed.

Lemma entry_administered s username groups identity inventories authorizedSet sub :
  administers identity sub → is_Some (entry s username groups identity inventories authorizedSet sub).
Proof.
  intros Ha. unfold inventory_entry.
  destruct (administered_cases sub identity) as [[_ ->]|[]]; [|done].
  destruct Ha as (_ & _ & _ & Hne & _). apply String.eqb_neq in Hne as ->. cbn [negb].
  rewrite andb_false_r. by eexists.
Qed.

(** The inventory of a verified caller is confined and complete.  It is
    strictly sorted by namespace and name, so no subscription appears twice.
    Every entry is one of the loaded subscriptions: either the caller
    administers its organization, and then the entry shows that organization
    and, of the policies' subjects, only groups and users that own the
    subscription; or the caller owns it without administering it, and then it
    is Active or Degraded, not being deleted, and shows only models the access
    policies allow.  And every subscription of the administered organization
    is there, under its namespace and name. *)
Theorem inventory_confined s groups username identity infos :
  ListInventory parseSubscriptionHeaders uuid_string subjectInventory s groups username (Some identity) = Ok infos →
  StronglySorted (λ a b, info_less a b = true) infos
  ∧ ∃ subs, loadInventorySubscriptions parseSubscriptionHeaders s = Ok subs
    ∧ (∀ info, info ∈ infos → ∃ sub, sub ∈ subs ∧ entry_ok s groups username identity sub info)
    ∧ (∀ sub, sub ∈ subs → administers identity sub →
        ∃ info, info ∈ infos ∧ info_key info = inventory_key sub).
Proof.
  unfold ListInventory. intros (subs & Hl%map_err_ok & H)%res_bind_ok.
  apply res_bind_ok in H as (authorizedSet & Hauth & H).
  apply res_bind_ok in H as (inventories & _ & [= <-]).
  assert (He : ∀ sub info, sub ∈ subs →
    entry s username groups identity inventories authorizedSet sub = Some info →
    entry_ok s groups username identity sub info).
  { intros sub info Hsub. apply entry_sound. intros Hc Hn Hu Hv.
    destruct (administered_cases sub identity) as [[]|[_ E]]; [done|].
    assert (Hcand : hasOwnerInventoryCandidates uuid_string subs username groups identity = true).
    { apply existsb_elem. exists sub. split; [done|]. by rewrite Hu, Hv, E. }
    rewrite Hcand in Hauth. destruct authorizedSet as [a|]; [by exists a|].
    unfold authorizedModels in Hauth. destruct (accessChecker s); [|done]. by repeat case_match. }
  destruct (inventory_loop_spec (entry s username groups identity inventories authorizedSet) ∅ subs)
    as (Hnd & Hel & Hall).
  { intros sub info Hsome. unfold inventory_entry in Hsome. repeat case_match; by simplify_eq. }
  unfold buildInventoryResponse. split.
  - apply info_sorted_strict; [|by apply sort_slice_sorted, _].
    apply info_ids_nodup. by rewrite (fmap_Permutation info_key _ _ (sort_slice_perm _ _ _)).
  - exists subs. split_and!; [done| |].
    + intros info. rewrite sort_slice_perm. intros (_ & sub & ? & ?)%Hel. exists sub. auto.
    + intros sub Hsub Ha. destruct (Hall sub Hsub) as [?%not_elem_of_empty|(info & ? & ?)]; [|done|].
      { by apply entry_administered. }
      exists info. by rewrite sort_slice_perm.
Qed.

End Resolver.

(** ** A concrete organization *)

Definition org_admin : Identity.VerifiedIdentity := {|
  Identity.Source := "oidc";
  Identity.Claims := {|
    Identity.Issuer := "iss"; Identity.Subject := "42";
    Identity.Aud := {| Identity.Value := "maas"; Identity.Items := None |}; Identity.AuthorizedParty := "web";
    Identity.Name := ""; Identity.GivenName := ""; Identity.FamilyName := ""; Identity.PreferredUsername := "alice";
    Identity.Email := ""; Identity.ClaimGroups := []; Identity.OrgID := "o-1"; Identity.OrgName := "";
    Identity.Roles := ["admins"]; Identity.orgIDPresent := true; Identity.orgNamePresent := false;
    Identity.rolesPresent := true |} |}.
Definition org_uuid (s : string) : option string := if String.eqb s "o-1" then Some "o-1" else None.

(** A subscription of the organization [o-1], which the caller does not own. *)
Definition org_sub (name : string) : Object :=
  mkObject [
    ("metadata", JObj [("name", JStr name); ("namespace", JStr "maas")]);
    ("spec", JObj [
      ("organization", JObj [("id", JStr "o-1")]);
      ("owner", JObj [("groups", JArr [JObj [("name", JStr "eng")]])]);
      ("modelRefs", JArr [json_ref "llm" "granite"])])].
Definition org_cluster : Selector :=
  cluster [json_sub "mine" "Active" 1 [json_ref "llm" "granite"] []; org_sub "eng-b"; org_sub "eng-a"] [granite].
Definition org_subjects (_ : list ModelKey) (_ : string) : Res string (gmap ModelKey ModelAccessSubjects) :=
  Ok {[ granite := {| mas_Groups := [{| gr_Name := "eng" |}; {| gr_Name := "other" |}]; mas_Users := ["bob"] |} ]}.

Lemma admin_resolution_listed_witness :
  ResolveSubscriptionAdmin (KA:=documented_access) no_headers org_uuid org_cluster (Some org_admin) "eng-a"
    = Ok {| sc_Tenant := "t"; sc_Namespace := "maas"; sc_Subscription := "eng-a"; sc_OrganizationID := "o-1" |}
  ∧ ∃ listed, ResolveSubscriptionAdminScopes (KA:=documented_access) no_headers org_uuid org_cluster (Some org_admin)
      = Ok listed ∧ {| sc_Tenant := "t"; sc_Namespace := "maas"; sc_Subscription := "eng-a";
                       sc_OrganizationID := "o-1" |} ∈ listed.
Proof.
  assert (H : ResolveSubscriptionAdmin (KA:=documented_access) no_headers org_uuid org_cluster (Some org_admin) "eng-a"
    = Ok {| sc_Tenant := "t"; sc_Namespace := "maas"; sc_Subscription := "eng-a"; sc_OrganizationID := "o-1" |})
    by (vm_compute; reflexivity).
  split; [exact H|].
  apply (proj1 (admin_resolution_listed (KA:=documented_access) no_headers org_uuid org_cluster org_admin) _ _ H).
Defined.

Lemma inventory_confined_witness :
  ∃ infos, ListInventory (GR:=reference_runtime) (KA:=documented_access) no_headers org_uuid (Some org_subjects)
      org_cluster ["dev"] "u" (Some org_admin) = Ok infos
    ∧ map SubscriptionIDHeader infos = ["eng-a"; "eng-b"; "mine"]
    ∧ StronglySorted (λ a b, info_less a b = true) infos.
Proof.
  destruct (ListInventory (GR:=reference_runtime) (KA:=documented_access) no_headers org_uuid (Some org_subjects)
    org_cluster ["dev"] "u" (Some org_admin)) as [infos|e] eqn:E.
  2: { exfalso. assert (Hok : is_ok (ListInventory (GR:=reference_runtime) (KA:=documented_access) no_headers
         org_uuid (Some org_subjects) org_cluster ["dev"] "u" (Some org_admin)) = true) by (vm_compute; reflexivity).
       rewrite E in Hok. discriminate. }
  exists infos. split; [reflexivity|]. split.
  - assert (Hn : res_map (map SubscriptionIDHeader) (ListInventory (GR:=reference_runtime) (KA:=documented_access)
      no_headers org_uuid (Some org_subjects) org_cluster ["dev"] "u" (Some org_admin))
      = Ok ["eng-a"; "eng-b"; "mine"]) by (vm_compute; reflexivity).
    rewrite E in Hn. injection Hn as Hn. exact Hn.
  - apply (proj1 (inventory_confined (GR:=reference_runtime) (KA:=documented_access) no_headers org_uuid
      (Some org_subjects) org_cluster ["dev"] "u" org_admin infos E)).
Defined.

End AdminResolverFacts.
