(* ===== verification/SelectHandler.v ===== *)
(** * SelectHandler: the gateway's subscription callback and the listings

    [maas-api/internal/subscription/handler.go].  The gateway asks on every
    request which subscription serves it ([select]) or whether an organization
    administrator may act ([subscription-admin]); both answers share one
    response type, whose two grants must not be confused.  Gin is the record of
    what a handler reads and the [Reply] it makes; decoding one JSON value into
    a request is the parameter [decode_request], and the selector, the
    administration and the identity envelope are those of [Selector],
    [AdminResolver] and [Identity].  Log lines are not modelled. *)

From S2P Require Import Prelude GoStrings Unstructured Identity Subscription Selector AdminResolver AuthPolicy.
From Stdlib Require String.
Local Open Scope string_scope.

Module SelectHandler.
Import Subscription Selector AdminResolver AuthPolicy.

(** ** Requests and responses *)

Definition PurposeSelect : string := "select".
Definition PurposeSubscriptionAdmin : string := "subscription-admin".
Definition maxSelectRequestBodyBytes : Z := Z.shiftl 1 20.

Record SelectRequest := {
  Purpose : string; req_Groups : list string; req_Username : string;
  RequestedSubscription : string; RequestedModel : string; req_Identity : string;
}.

Record AdminDecision := { Allowed : bool; Scope : option AdminScope; Reason : string }.

(** The Go [SelectResponse]: what a selection fills ([Selection], with its
    [AccessAllowed] and [Phase]) and the other fields. *)
Record Callback := {
  cb_Purpose : string; Selection : SelectResponse; Admin : option AdminDecision;
  Error : string; Message : string;
}.

(** The zero response, with a phase. *)
Definition phase_only (phase : string) : SelectResponse := {|
  resp_Name := ""; resp_Namespace := ""; resp_DisplayName := ""; resp_Description := "";
  resp_Priority := 0; resp_ModelRefs := []; resp_OrganizationID := "";
  resp_AssociatedOrganizationID := ""; resp_CostCenter := ""; resp_Labels := ∅;
  resp_Headers := ∅; ResolvedModel := ""; RateLimitID := ""; Objective := "";
  FairnessID := ""; SelectedGuardrailChecks := None; AccessAllowed := false; resp_Phase := phase;
  resp_Ready := false; resp_DeletionTimestamp := "" |}.
Definition zero_selection : SelectResponse := phase_only "".

(** [SelectResponse{Error: code, Message: message}]. *)
Definition refusal (code message : string) : Callback := {|
  cb_Purpose := ""; Selection := zero_selection; Admin := None; Error := code; Message := message |}.
Definition admin_refusal (reason code message : string) : Callback := {|
  cb_Purpose := PurposeSubscriptionAdmin; Selection := zero_selection;
  Admin := Some {| Allowed := false; Scope := None; Reason := reason |};
  Error := code; Message := message |}.

Definition RejectionRateLimited : string := "rate-limited".
Definition RejectionUnauthorized : string := "unauthorized".
Definition RejectionNoCapacity : string := "no-capacity".
Definition RejectionQuotaExceeded : string := "quota-exceeded".
Definition RejectionGuardrailUnavailable : string := "guardrail-unavailable".

Inductive Body :=
| CallbackBody (c : Callback)
| ListBody (l : list SubscriptionInfo)
| ErrorBody (message type : string).

(** What a handler leaves behind: the response, the rejections it counted, the
    organization it put on the request context and whether the response may be
    stored. *)
Record Reply := {
  status : Z; body : Body; rejections : list string; organizationID : option string; no_store : bool;
}.

(** A value of the request context: absent, of an unexpected type, a nil
    pointer, or a value. *)
Inductive CtxValue (A : Type) := Absent | OtherType | NilPointer | Value (a : A).
Arguments Absent {A}.
Arguments OtherType {A}.
Arguments NilPointer {A}.
Arguments Value {A} a.

Record Handler := { selector : Selector; has_metrics : bool }.

Definition recordRejection (h : Handler) (reason : string) : list string :=
  if has_metrics h then [reason] else [].

Definition recordUnhealthyRejection (h : Handler) (phase reason : string) : list string :=
  if String.eqb reason "RateLimitNotEnforced" then recordRejection h RejectionRateLimited
  else if String.eqb phase PhaseFailed then recordRejection h RejectionQuotaExceeded
  else recordRejection h RejectionNoCapacity.

(** [token.SetOrganizationID]: what it puts on the context. *)
Definition SetOrganizationID (organizationID : string) : option string :=
  if String.eqb (trim_space organizationID) "" then None else Some (trim_space organizationID).

Definition callback (c : Callback) (rejections : list string) : Reply := {|
  status := 200; body := CallbackBody c; rejections := rejections; organizationID := None; no_store := false |}.
Definition listing (status : Z) (b : Body) : Reply := {|
  status := status; body := b; rejections := []; organizationID := None; no_store := true |}.
Definition internal_error : Reply := listing 500 (ErrorBody "Internal server error" "server_error").

(** [Error()] of the errors that [SelectWithContext] makes. *)
Definition sel_error_text (e : SelErr) : string :=
  match e with
  | IdentityMissing => "either groups or username must be provided"
  | LoadFailed cause => "failed to load subscriptions: " +:+ cause
  | AuthorizationFailed cause => "failed to determine authorized models: " +:+ cause
  | AuthorizationNil => "failed to determine authorized models: checker returned nil"
  | NoSubscriptionError => "no matching subscription found for user"
  | SubscriptionNotFoundError _ => "requested subscription not found"
  | AccessDeniedError _ => "access denied to requested subscription"
  | MultipleSubscriptionsError _ =>
      "user has access to multiple subscriptions, must specify subscription using X-MaaS-Subscription header"
  | ModelNotInSubscriptionError sub model => "subscription " +:+ sub +:+ " does not include model " +:+ model
  | ModelUnhealthyError _ _ _ _ => "requested model is unhealthy in subscription"
  | GuardrailResolutionError _ => "selected guardrails could not be resolved"
  end.

(** The [errors.As] cascade of [SelectSubscription]. *)
Definition select_failed (h : Handler) (err : SelErr) : Reply :=
  let text := sel_error_text err in
  match err with
  | NoSubscriptionError | SubscriptionNotFoundError _ =>
      callback (refusal "not_found" text) (recordRejection h RejectionNoCapacity)
  | AccessDeniedError _ => callback (refusal "access_denied" text) (recordRejection h RejectionUnauthorized)
  | MultipleSubscriptionsError _ => callback (refusal "multiple_subscriptions" text) []
  | ModelNotInSubscriptionError _ _ =>
      callback (refusal "model_not_in_subscription" text) (recordRejection h RejectionNoCapacity)
  | ModelUnhealthyError _ phase reason message =>
      callback {| cb_Purpose := ""; Selection := phase_only phase; Admin := None;
                  Error := "model_unhealthy"; Message := message |}
        (recordUnhealthyRejection h phase reason)
  | GuardrailResolutionError _ =>
      callback (refusal "guardrail_unavailable" "selected guardrails are unavailable")
        (recordRejection h RejectionGuardrailUnavailable)
  | IdentityMissing | LoadFailed _ | AuthorizationFailed _ | AuthorizationNil =>
      callback (refusal "internal_error" ("failed to select subscription: " +:+ text)) []
  end.

(** White space between JSON values. *)
Fixpoint json_blank (s : string) : bool :=
  match s with
  | EmptyString => true
  | String c r => (Ascii.eqb c " " || Ascii.eqb c "009" || Ascii.eqb c "010" || Ascii.eqb c "013") && json_blank r
  end.

Section Handlers.
Context `{GR : GoRuntime} `{KA : K8sAccess}.
Variable parseSubscriptionHeaders : string → Res string (gmap string (list string)).
Variable scan : string → list Identity.JTok * bool.
Variable uuid_string : string → option string.
Variable subjectInventory :
  option (list ModelKey → string → Res string (gmap ModelKey ModelAccessSubjects)).
(** [Decode(&request)] with unknown fields disallowed: the request and the
    text that follows its value. *)
Variable decode_request : string → option (SelectRequest * string).

(** A body over the limit always fails: the second [Decode] has to read past
    the end of the value, up to the limit at least. *)
Definition decodeSelectRequest (text : string) : option SelectRequest :=
  if (maxSelectRequestBodyBytes <? Z.of_nat (String.length text))%Z then None else
  match decode_request text with
  | None => None
  | Some (request, trailing) => if json_blank trailing then Some request else None
  end.

(** [None] is the fuel of the envelope's shape pass, which never runs out. *)
Definition handleSubscriptionAdmin (h : Handler) (request : SelectRequest) : option Reply :=
  if negb (String.eqb (req_Username request) "") || match req_Groups request with [] => false | _ => true end
     || negb (String.eqb (RequestedModel request) "")
  then Some (callback (admin_refusal "bad_request" "bad_request"
         "legacy selection fields are not accepted for subscription-admin") []) else
  if String.eqb (req_Identity request) ""
  then Some (callback (admin_refusal "invalid_identity" "invalid_identity" "trusted identity is required") []) else
  if (Identity.MaxIdentityEnvelopeBytes <? String.length (req_Identity request))%nat
  then Some (callback (admin_refusal "invalid_identity" "invalid_identity" "trusted identity is too large") []) else
  match Identity.ParseIdentityEnvelope scan uuid_string (req_Identity request) with
  | None => None
  | Some (Err _) =>
      Some (callback (admin_refusal "invalid_identity" "invalid_identity" "trusted identity is invalid") [])
  | Some (Ok identity) =>
      if String.eqb (RequestedSubscription request) ""
      then Some (callback (admin_refusal "bad_request" "bad_request" "requestedSubscription is required") []) else
      match ResolveSubscriptionAdmin parseSubscriptionHeaders uuid_string (selector h) (Some identity)
              (RequestedSubscription request) with
      | Err (SubscriptionAdminError code message) => Some (callback (admin_refusal code code message) [])
      | Err _ => Some (callback (admin_refusal "internal_error" "internal_error"
                         "failed to resolve subscription administration") [])
      | Ok scope =>
          Some (callback {| cb_Purpose := PurposeSubscriptionAdmin; Selection := zero_selection;
                            Admin := Some {| Allowed := true; Scope := Some scope; Reason := "" |};
                            Error := ""; Message := "" |} [])
      end
  end.

(** The body of [SelectSubscription] once the request is decoded. *)
Definition dispatch (h : Handler) (req : SelectRequest) : option Reply :=
  if String.eqb (Purpose req) "" || String.eqb (Purpose req) PurposeSelect then
    if String.eqb (req_Username req) ""
    then Some (callback (refusal "bad_request" "username is required") []) else
    if negb (String.eqb (req_Identity req) "")
    then Some (callback (refusal "bad_request" "identity is not accepted for subscription selection") []) else
    match SelectWithContext parseSubscriptionHeaders (selector h) (req_Groups req) (req_Username req)
            (RequestedSubscription req) (RequestedModel req) with
    | Err err => Some (select_failed h err)
    | Ok response =>
        Some {| status := 200;
                body := CallbackBody {| cb_Purpose := ""; Selection := response; Admin := None;
                                        Error := ""; Message := "" |};
                rejections := []; organizationID := SetOrganizationID (resp_OrganizationID response);
                no_store := false |}
    end
  else if String.eqb (Purpose req) PurposeSubscriptionAdmin then handleSubscriptionAdmin h req
  else Some (callback (refusal "bad_purpose" "unknown callback purpose") []).

Definition SelectSubscription (h : Handler) (text : string) : option Reply :=
  match decodeSelectRequest text with
  | None => Some (callback (refusal "bad_request" "invalid request body") [])
  | Some req => dispatch h req
  end.

(** ** Listings *)

Definition list_inventory (h : Handler) (groups : list string) (username : string)
    (identity : option Identity.VerifiedIdentity) : Reply :=
  match ListInventory parseSubscriptionHeaders uuid_string subjectInventory (selector h) groups username identity with
  | Err _ => listing 500 (ErrorBody "Failed to list subscriptions" "server_error")
  | Ok accessible => listing 200 (ListBody accessible)
  end.

Definition ListSubscriptions (h : Handler) (verified_identity : CtxValue Identity.VerifiedIdentity)
    (user : CtxValue Identity.UserContext) : Reply :=
  match verified_identity, user with
  | OtherType, _ => internal_error
  | Absent, Absent => listing 200 (ListBody [])
  | _, OtherType => internal_error
  | _, _ =>
      let identity := match verified_identity with Value identity => Some identity | _ => None end in
      match user with
      | Value u => list_inventory h (Identity.Groups u) (Identity.Username u) identity
      | _ => list_inventory h [] "" identity
      end
  end.

(** [None] is the nil dereference of a nil user. *)
Definition ListSubscriptionsForModel (h : Handler) (user : CtxValue Identity.UserContext) (modelID : string)
    : option Reply :=
  match user with
  | Absent => Some (listing 200 (ListBody []))
  | OtherType => Some internal_error
  | _ =>
      if String.eqb modelID "" then Some (listing 400 (ErrorBody "model-id is required" "invalid_request_error")) else
      match user with
      | Value u =>
          match ListAccessibleForModel parseSubscriptionHeaders (selector h) (Identity.Username u)
                  (Identity.Groups u) modelID with
          | Err _ => Some (listing 500 (ErrorBody "Failed to list subscriptions" "server_error"))
          | Ok subs => Some (listing 200 (ListBody subs))
          end
      | _ => None
      end
  end.

End Handlers.
End SelectHandler.
