(* ===== verification/SelectHandlerFacts.v ===== *)
(** * SelectHandlerFacts: the two grants of the callback are separate

    Theorems about [SelectHandler]: every callback is answered, an inference
    grant comes from inference selection only, and an administration grant from
    a verified administrator of the one subscription asked for only. *)

From S2P Require Import Prelude GoStrings Unstructured Identity IdentityFacts Subscription Selector AdminResolver AdminResolverFacts AuthPolicy SelectHandler SelectorFacts.
From Stdlib Require String.
Local Open Scope string_scope.

Module SelectHandlerFacts.
Import Subscription Selector AdminResolver AdminResolverFacts AuthPolicy SelectHandler.

Lemma parse_total scan uuid_string text : Identity.ParseIdentityEnvelope scan uuid_string text ≠ None.
Proof.
  unfold Identity.ParseIdentityEnvelope. destruct (_ <? _)%nat; [done|].
  assert (Hs : Identity.validateJSONShape (scan text) ≠ None).
  { unfold Identity.validateJSONShape. destruct (scan text) as [ts clean].
    pose proof (shape_terminates ts) as Ht. destruct (Identity.validateJSONValue _ _ _) as [[]|]; [|done..].
    repeat case_match; done. }
  destruct (Identity.validateJSONShape _) as [[]|]; [|done..].
  destruct (Identity.read_value _ _) as [[v r]|]; [|done]. by destruct (Identity.dec_identity v).
Qed.

Section Handlers.
Context `{GR : GoRuntime} `{KA : K8sAccess}.
Variable parseSubscriptionHeaders : string → Res string (gmap string (list string)).
Variable scan : string → list Identity.JTok * bool.
Variable uuid_string : string → option string.
Variable decode_request : string → option (SelectRequest * string).
Notation decode := (decodeSelectRequest decode_request).
Notation select := (SelectSubscription parseSubscriptionHeaders scan uuid_string decode_request).
Notation parse := (Identity.ParseIdentityEnvelope scan uuid_string).
Notation admin_callback := (handleSubscriptionAdmin parseSubscriptionHeaders scan uuid_string).

(** What an inference grant rests on. *)
Definition selected_by (h : Handler) (req : SelectRequest) (c : Callback) : Prop :=
  (Purpose req = "" ∨ Purpose req = PurposeSelect) ∧ req_Username req ≠ "" ∧ req_Identity req = ""
  ∧ Admin c = None ∧ Error c = ""
  ∧ SelectWithContext parseSubscriptionHeaders (selector h) (req_Groups req) (req_Username req)
      (RequestedSubscription req) (RequestedModel req) = Ok (Selection c).

(** What an administration grant rests on. *)
Definition administered_by (h : Handler) (req : SelectRequest) (c : Callback) (d : AdminDecision) : Prop :=
  Purpose req = PurposeSubscriptionAdmin
  ∧ req_Username req = "" ∧ req_Groups req = [] ∧ RequestedModel req = ""
  ∧ Selection c = zero_selection ∧ Error c = ""
  ∧ ∃ identity subs ns name qualified target,
      (String.length (req_Identity req) ≤ Identity.MaxIdentityEnvelopeBytes)%nat
      ∧ parse (req_Identity req) = Some (Ok identity)
      ∧ loadAdminSubscriptions parseSubscriptionHeaders (selector h) = Ok subs
      ∧ parseSubscriptionTarget (RequestedSubscription req) = Some (ns, name, qualified)
      ∧ filter (λ c, target_matches ns name qualified c = true) subs = [target]
      ∧ administers uuid_string identity target
      ∧ Scope d = Some (scope_of (selector h) target (AssociatedOrganizationID target)).

(** The answer to a decoded request. *)
Definition answers (h : Handler) (req : SelectRequest) (r : Reply) (c : Callback) : Prop :=
  status r = 200%Z ∧ body r = CallbackBody c
  ∧ (AccessAllowed (Selection c) = true → selected_by h req c)
  ∧ (∀ d, Admin c = Some d → Allowed d = true → administered_by h req c d)
  ∧ (length (rejections r) ≤ 1)%nat ∧ (rejections r ≠ [] → Error c ≠ "")
  ∧ (organizationID r ≠ None → Error c = "" ∧ Admin c = None).

Lemma refusal_answers h req c rej :
  Selection c = zero_selection → (∀ d, Admin c = Some d → Allowed d = false) → Error c ≠ "" →
  (length rej ≤ 1)%nat → answers h req (callback c rej) c.
Proof.
  intros Hs Ha He Hr. split_and!; try done; [rewrite Hs; done|].
  intros d Hd Hall. by rewrite (Ha d Hd) in Hall.
Qed.

Lemma refused h req code message :
  code ≠ "" → ∃ r c, Some (callback (refusal code message) []) = Some r ∧ answers h req r c.
Proof. intros Hc. do 2 eexists. split; [done|]. apply refusal_answers; cbn; [done|done|done|lia]. Qed.

Lemma admin_refused h req reason code message :
  code ≠ "" → ∃ r c, Some (callback (admin_refusal reason code message) []) = Some r ∧ answers h req r c.
Proof.
  intros Hc. do 2 eexists. split; [done|]. apply refusal_answers; cbn; [done| |done|lia]. by intros d [= <-].
Qed.

(** Administration errors carry a code. *)
Lemma resolve_code s identity requested code message :
  ResolveSubscriptionAdmin parseSubscriptionHeaders uuid_string s identity requested
    = Err (SubscriptionAdminError code message) → code ≠ "".
Proof.
  unfold ResolveSubscriptionAdmin, adminSubscriptionTarget.
  destruct identity as [identity|]; [|by intros [= <- _]].
  destruct (String.eqb requested ""); [by intros [= <- _]|].
  destruct (parseSubscriptionTarget requested) as [[[ns name] qualified]|]; [|by intros [= <- _]].
  destruct (loadAdminSubscriptions _ _) as [subs|]; [|done]. cbn [map_err res_bind].
  destruct (filter _ subs) as [|target [|]]; [by intros [= <- _]| |by intros [= <- _]]. cbn [res_bind].
  destruct (String.eqb _ ""); [by intros [= <- _]|].
  destruct (canonicalOrganizationID _ _); [|by intros [= <- _]].
  destruct (negb _); [by intros [= <- _]|]. destruct (String.eqb _ ""); [by intros [= <- _]|done].
Qed.

Lemma record_one h reason : (length (recordRejection h reason) ≤ 1)%nat.
Proof. unfold recordRejection. destruct (has_metrics h); simpl; lia. Qed.

Lemma failed_answers h req err : ∃ c, answers h req (select_failed h err) c.
Proof.
  assert (Hu : ∀ phase reason, (length (recordUnhealthyRejection h phase reason) ≤ 1)%nat).
  { intros phase reason. unfold recordUnhealthyRejection. repeat case_match; apply record_one. }
  destruct err; eexists; cbn [select_failed];
    try (apply refusal_answers; cbn; [done|by intros ?|done|first [apply record_one|lia]]).
  split_and!; try done. apply Hu.
Qed.

Lemma admin_answers h req :
  Purpose req = PurposeSubscriptionAdmin → ∃ r c, admin_callback h req = Some r ∧ answers h req r c.
Proof.
  intros Hp. unfold handleSubscriptionAdmin.
  destruct (String.eqb_spec (req_Username req) "") as [Hu|]; [|by apply admin_refused].
  destruct (req_Groups req) eqn:Hg; [|by apply admin_refused].
  destruct (String.eqb_spec (RequestedModel req) "") as [Hm|]; [|by apply admin_refused]. cbn [negb orb].
  destruct (String.eqb_spec (req_Identity req) "") as [|Hi]; [by apply admin_refused|].
  destruct (Nat.ltb_spec Identity.MaxIdentityEnvelopeBytes (String.length (req_Identity req))); [by apply admin_refused|].
  pose proof (parse_total scan uuid_string (req_Identity req)) as Ht.
  destruct (parse (req_Identity req)) as [[identity|]|] eqn:Hparse; [|by apply admin_refused|done].
  destruct (String.eqb_spec (RequestedSubscription req) "") as [|Hr]; [by apply admin_refused|].
  destruct (ResolveSubscriptionAdmin _ _ _ _ _) as [scope|[code message| |]] eqn:Hres; [| |by apply admin_refused..].
  - do 2 eexists. split; [done|]. split_and!; try done; [|cbn; lia]. intros d [= <-] _.
    apply resolve_ok in Hres as (subs & ns & name & qualified & target & Hl & Hpt & Hf & Ha & _ & ->).
    split_and!; try done. by exists identity, subs, ns, name, qualified, target.
  - apply admin_refused. by eapply resolve_code.
Qed.

Lemma dispatch_answers h req :
  ∃ r c, dispatch parseSubscriptionHeaders scan uuid_string h req = Some r ∧ answers h req r c.
Proof.
  unfold dispatch. destruct (String.eqb (Purpose req) "" || _) eqn:Hp.
  - destruct (String.eqb_spec (req_Username req) "") as [|Hu]; [by apply refused|].
    destruct (String.eqb_spec (req_Identity req) "") as [Hi|]; [|by apply refused]. cbn [negb].
    destruct (SelectWithContext _ _ _ _ _ _) as [response|err] eqn:Hsel.
    + do 2 eexists. split; [done|]. split_and!; try done; [|cbn; lia]. intros _.
      rewrite orb_true_iff, !String.eqb_eq in Hp. by split_and!.
    + destruct (failed_answers h req err) as (c & Hc). by exists (select_failed h err), c.
  - destruct (String.eqb_spec (Purpose req) PurposeSubscriptionAdmin); [by apply admin_answers|by apply refused].
Qed.

(** C2 The callback's two grants cannot be confused.  Every body is answered
    with status 200; [accessAllowed] is set only in the select mode, by inference
    selection of the named user, without an identity envelope; an administration
    grant is made only in the subscription-admin mode, without any of the fields
    of selection, to the bearer of a valid bounded envelope who administers the
    one loaded subscription that the request names, and its scope is that
    subscription's; a body that does not decode, is too large, has trailing
    data or an unknown purpose grants neither.  At most one rejection is counted,
    and none for a request that succeeds. *)
Theorem callback_grants_separate h text :
  ∃ r c, select h text = Some r ∧ status r = 200%Z ∧ body r = CallbackBody c
  ∧ (AccessAllowed (Selection c) = true → ∃ req, decode text = Some req ∧ selected_by h req c)
  ∧ (∀ d, Admin c = Some d → Allowed d = true → ∃ req, decode text = Some req ∧ administered_by h req c d)
  ∧ (decode text = None → Error c ≠ "")
  ∧ (length (rejections r) ≤ 1)%nat ∧ (rejections r ≠ [] → Error c ≠ "")
  ∧ (organizationID r ≠ None → Error c = "" ∧ Admin c = None).
Proof.
  unfold SelectSubscription. destruct (decode text) as [req|].
  2:{ do 2 eexists. split; [done|]. split_and!; try done. cbn; lia. }
  destruct (dispatch_answers h req) as (r & c & Hr & Hs & Hb & Ha & Hd & Hl & Hre & Ho).
  exists r, c. split_and!; try done; [intros H; exists req; auto|intros d H1 H2; exists req; auto].
Qed.

End Handlers.
(** ** Both grants, and a request that mixes the modes *)

Section Demo.
#[local] Existing Instance documented_access.
#[local] Existing Instance reference_runtime.

Definition admin_envelope : Identity.Json := Identity.JObject [
  ("source", Identity.JString "oidc");
  ("claims", Identity.JObject [
    ("iss", Identity.JString "https://sso.example"); ("sub", Identity.JString "42");
    ("aud", Identity.JString "maas"); ("azp", Identity.JString "web");
    ("org_id", Identity.JString "o-1"); ("org_name", Identity.JString "Acme");
    ("roles", Identity.JArray [Identity.JString "admins"])])].
Definition demo_scan (_ : string) : list Identity.JTok * bool := (tokens_of admin_envelope, true).
Definition demo_requests (text : string) : option (SelectRequest * string) :=
  if String.eqb text "select" then
    Some ({| Purpose := ""; req_Groups := ["dev"]; req_Username := "u"; RequestedSubscription := "gold";
             RequestedModel := "llm/granite"; req_Identity := "" |}, " ")
  else if String.eqb text "admin" then
    Some ({| Purpose := PurposeSubscriptionAdmin; req_Groups := []; req_Username := "";
             RequestedSubscription := "eng-a"; RequestedModel := ""; req_Identity := "{}" |}, "")
  else if String.eqb text "mixed" then
    Some ({| Purpose := PurposeSelect; req_Groups := ["dev"]; req_Username := "u"; RequestedSubscription := "gold";
             RequestedModel := "llm/granite"; req_Identity := "{}" |}, "")
  else if String.eqb text "twice" then
    Some ({| Purpose := ""; req_Groups := ["dev"]; req_Username := "u"; RequestedSubscription := "gold";
             RequestedModel := "llm/granite"; req_Identity := "" |}, " {}")
  else None.
Definition demo_handler (objects : Selector) : Handler := {| selector := objects; has_metrics := true |}.
Definition demo_answer (objects : Selector) (text : string) : option (bool * option bool * string) :=
  match SelectSubscription SelectionSafety.no_headers demo_scan org_uuid demo_requests (demo_handler objects) text with
  | Some {| body := CallbackBody c |} =>
      Some (AccessAllowed (Selection c), option_map Allowed (Admin c), Error c)
  | _ => None
  end.

Example both_grants :
  demo_answer SelectionSafety.two_subs "select" = Some (true, None, "")
  ∧ demo_answer org_cluster "admin" = Some (false, Some true, "")
  ∧ demo_answer SelectionSafety.two_subs "mixed" = Some (false, None, "bad_request")
  ∧ demo_answer SelectionSafety.two_subs "twice" = Some (false, None, "bad_request").
Proof. vm_compute. done. Qed.

End Demo.
End SelectHandlerFacts.
