(* ===== verification/ModelCatalog.v ===== *)
(** * ModelCatalog: the models a caller is shown

    GET /v1/models: [maas-api/internal/models/maasmodelref.go] and
    [discovery.go] (a MaaSModelRef as a model of the OpenAI API, and the filter
    of ready models), [maas-api/internal/handlers/models.go] (authentication
    checks, the subscriptions that apply, aggregation over them).  The goroutine
    per subscription is the order in which results arrive ([ProbeRuntime]); the
    cache of MaaSModelRefs is an argument, [net/url] and [encoding/json] are the
    classes [NetURL] and [JSONStrings].  The second module proves what the
    listing holds. *)

From S2P Require Import Prelude GoStrings Unstructured Identity Subscription Selector SelectorFacts SelectHandler.
From Stdlib Require String.
Local Open Scope string_scope.

Module ModelCatalog.
Import Subscription Selector SelectHandler.

(** ** Models *)

(** [url.URL]; [u_Rest] is the opaque part and the user. *)
Record URL := {
  Scheme : string; Host : string; Path : string; RawPath : string; RawQuery : string; ForceQuery : bool;
  Fragment : string; RawFragment : string; u_Rest : string;
}.
#[export] Instance URL_eq_dec : EqDecision URL.
Proof. solve_decision. Defined.

Class NetURL := { Parse : string → option URL; URL_String : URL → string }.
(** [json.Unmarshal] into a [[]string]. *)
Class JSONStrings := { unmarshal_strings : string → option (list string) }.
(** [GetCreationTimestamp]: Unix seconds, [None] for the zero time. *)
Class CreationTime := { GetCreationTimestamp : Object → option Z }.

Record Details := {
  GenAIUseCase : string; Description : string; DisplayName : string; ContextWindow : string;
  ModelCapabilities : list string;
}.
(** [models.SubscriptionInfo]; [Model] leaves out the constant [Object] and [Aliases], which nothing sets. *)
Record Provider := { pv_Name : string; pv_DisplayName : string; pv_Description : string }.
Record Model := {
  ID : string; Created : Z; OwnedBy : string; Kind : string; ModelURL : option URL; Ready : bool;
  ModelDetails : option Details; Subscriptions : list Provider;
}.

Definition kindExternalModel : string := "ExternalModel".
Definition kindLLMISvc : string := "llmisvc".
Definition kindLLMISvcAlternate : string := "LLMInferenceService".

Definition AnnotationGenAIUseCase : string := "opendatahub.io/genai-use-case".
Definition AnnotationContextWindow : string := "opendatahub.io/context-window".
Definition AnnotationModelCapabilities : string := "opendatahub.io/model-capabilities".

Section Conversion.
Context {KA : K8sAccess} {NU : NetURL} {JS : JSONStrings} {CT : CreationTime}.

Definition nested (u : Object) (path : list string) : string := default "" (NestedString (Fields u) path).

Definition model_id (u : Object) (kind : string) : string :=
  let alias := nested u ["status"; "resolvedModelAlias"] in
  let modelRefName := nested u ["spec"; "modelRef"; "name"] in
  if String.eqb kind kindExternalModel then
    if negb (String.eqb alias "") then alias
    else if negb (String.eqb modelRefName "") then modelRefName else GetName u
  else if negb (String.eqb alias "") then alias else GetName u.

Definition details_of (annotations : gmap string string) : option Details :=
  let value key := default "" (annotations !! key) in
  let raw := value AnnotationModelCapabilities in
  let d := {|
    GenAIUseCase := value AnnotationGenAIUseCase; Description := value AnnotationDescription;
    DisplayName := value AnnotationDisplayName; ContextWindow := value AnnotationContextWindow;
    ModelCapabilities := if String.eqb raw "" then [] else default [] (unmarshal_strings raw) |} in
  if negb (String.eqb (DisplayName d) "") || negb (String.eqb (Description d) "")
     || negb (String.eqb (GenAIUseCase d) "") || negb (String.eqb (ContextWindow d) "")
     || match ModelCapabilities d with [] => false | _ => true end
  then Some d else None.

Definition normalized_endpoint (endpoint : string) : string :=
  if has_prefix "//" endpoint then "https:" +:+ endpoint
  else if negb (contains_str "://" endpoint) && negb (has_prefix "/" endpoint) then "https://" +:+ endpoint
  else endpoint.

(** Only the scheme and the authority of the endpoint are published. *)
Definition base_url (parsed : URL) : URL := {|
  Scheme := if String.eqb (to_lower (Scheme parsed)) "http" then "https" else Scheme parsed;
  Host := Host parsed; Path := ""; RawPath := ""; RawQuery := ""; ForceQuery := false; Fragment := "";
  RawFragment := ""; u_Rest := u_Rest parsed |}.

Definition model_url (u : Object) : option URL :=
  match NestedStringSlice (Fields u) ["status"; "httpRouteHostnames"] with
  | Some (host :: _) => Parse ("https://" +:+ host)
  | _ =>
      let endpoint := nested u ["status"; "endpoint"] in
      if String.eqb endpoint "" then None else base_url <$> Parse (normalized_endpoint endpoint)
  end.

Definition maasModelRefToModel (u : option Object) : option Model :=
  match u with
  | None => None
  | Some u =>
      let kind := nested u ["spec"; "modelRef"; "kind"] in
      let kind := if String.eqb kind "" then kindLLMISvc else kind in
      Some {|
        ID := model_id u kind;
        Created := default 0%Z (GetCreationTimestamp u);
        OwnedBy := GetNamespace u +:+ "/" +:+ GetName u;
        Kind := kind;
        ModelURL := model_url u;
        Ready := String.eqb (nested u ["status"; "phase"]) "Ready";
        ModelDetails := match GetAnnotations u with Some a => details_of a | None => None end;
        Subscriptions := [] |}
  end.

(** A nil lister lists nothing. *)
Definition ListFromMaaSModelRefLister (lister : option (Res string (list (option Object))))
    : Res string (list Model) :=
  match lister with
  | None => Ok []
  | Some listed => items <- listed ;; Ok (omap maasModelRefToModel items)
  end.

(** ** Filters *)

Definition known_kind (kind : string) : bool :=
  String.eqb kind kindExternalModel
  || (String.eqb kind kindLLMISvc || String.eqb kind kindLLMISvcAlternate || String.eqb kind "").

Definition FilterModelsByAccess (models : list Model) : list Model :=
  List.filter (fun m => known_kind (Kind m) && Ready m) models.

Definition allowed_keys (modelRefs : list ModelRefInfo) : gset string :=
  list_to_set (map (fun ref => ref_Namespace ref +:+ "/" +:+ ref_Name ref) modelRefs).
Definition filterModelsBySubscription (modelList : list Model) (modelRefs : list ModelRefInfo) : list Model :=
  List.filter (fun m => bool_decide (OwnedBy m ∈ allowed_keys modelRefs)) modelList.

(** ** Aggregation *)

(** The results of the goroutines in the order they are received: which
    subscription, and whether the goroutine ran before the request was
    cancelled. *)
Class ProbeRuntime := {
  arrivals : list SelectResponse → list (SelectResponse * bool);
  arrivals_perm subs : (arrivals subs).*1 ≡ₚ subs;
}.

(** [modelKey]. *)
Definition ModelKeyT : Type := string * string * string.
Definition model_key (m : Model) : ModelKeyT :=
  (ID m, match ModelURL m with Some u => URL_String u | None => "" end, OwnedBy m).
Definition key_less : ModelKeyT → ModelKeyT → bool :=
  by_key (fun k : ModelKeyT => k.1.1) str_ltb
    (by_key (fun k : ModelKeyT => k.1.2) str_ltb (on_key (fun k : ModelKeyT => k.2) str_ltb)).

Definition with_subscriptions (m : Model) (l : list Provider) : Model := {|
  ID := ID m; Created := Created m; OwnedBy := OwnedBy m; Kind := Kind m; ModelURL := ModelURL m;
  Ready := Ready m; ModelDetails := ModelDetails m; Subscriptions := l |}.

Definition addSubscriptionIfNew (model : Model) (subInfo : Provider) : Model :=
  if existsb (fun existingSub => String.eqb (pv_Name existingSub) (pv_Name subInfo)) (Subscriptions model)
  then model else with_subscriptions model (Subscriptions model ++ [subInfo])%list.

Definition provider (sub : SelectResponse) : Provider := {|
  pv_Name := resp_Name sub; pv_DisplayName := resp_DisplayName sub; pv_Description := resp_Description sub |}.

Definition probe (list_ : list Model) (arrival : SelectResponse * bool) : list Model :=
  if arrival.2 then FilterModelsByAccess (filterModelsBySubscription list_ (resp_ModelRefs arrival.1)) else [].

Definition add_model (modelsByKey : gmap ModelKeyT Model) (found : Provider * Model) : gmap ModelKeyT Model :=
  let key := model_key found.2 in
  match modelsByKey !! key with
  | Some existingModel => <[key := addSubscriptionIfNew existingModel found.1]> modelsByKey
  | None => <[key := with_subscriptions found.2 [found.1]]> modelsByKey
  end.

Definition add_result (list_ : list Model) (modelsByKey : gmap ModelKeyT Model) (arrival : SelectResponse * bool)
    : gmap ModelKeyT Model :=
  foldl add_model modelsByKey (map (pair (provider arrival.1)) (probe list_ arrival)).

Context `{GR : GoRuntime} {PR : ProbeRuntime}.

Definition aggregateModelsFromSubscriptions (list_ : list Model) (subscriptionsToUse : list SelectResponse)
    : list Model :=
  let modelsByKey := foldl (add_result list_) ∅ (arrivals subscriptionsToUse) in
  omap (fun k => modelsByKey !! k) (sort_slice key_less (map fst (range_map modelsByKey))).

(** ** The handler *)

Inductive ListBody :=
| Page (data : list Model)
| Refused (message type : string).

(** [checked_at] tells whether X-Access-Checked-At is set. *)
Record ListReply := {
  l_status : Z; l_body : ListBody; l_rejections : list string; l_no_store : bool; checked_at : bool;
}.
Definition refuse (status : Z) (message type : string) (rejections : list string) (no_store : bool) : ListReply := {|
  l_status := status; l_body := Refused message type; l_rejections := rejections; l_no_store := no_store;
  checked_at := false |}.
Definition page (data : list Model) : ListReply := {|
  l_status := 200; l_body := Page data; l_rejections := []; l_no_store := true; checked_at := true |}.

Record ModelsHandler := {
  subscriptionSelector : option Selector;
  maasModelRefLister : option (Res string (list (option Object)));
  h_metrics : bool;
}.

(** What the handler reads of a request. *)
Record ListRequest := {
  Authorization : string; XMaasSubscription : list string; user : CtxValue Identity.UserContext;
}.

Definition api_key_prefix : string := "Bearer sk-oai-".

(** The last X-MaaS-Subscription value that is not blank. *)
Definition requested_subscription (values : list string) : string :=
  default "" (head (List.filter (fun v => negb (String.eqb v "")) (map trim_space (rev values)))).

(** The authorization header, the requested subscription and whether the
    request carries an API key. *)
Definition extractAndValidateAuth (h : ModelsHandler) (r : ListRequest) : Res ListReply (string * string * bool) :=
  let authHeader := trim_space (Authorization r) in
  if String.eqb authHeader "" then
    Err (refuse 401 "Authorization required" "authentication_error"
           (if h_metrics h then [RejectionUnauthorized] else []) false) else
  let isAPIKeyRequest := has_prefix api_key_prefix authHeader in
  let requestedSubscription := requested_subscription (XMaasSubscription r) in
  if isAPIKeyRequest && String.eqb requestedSubscription "" then
    Err (refuse 403 "API key has no subscription bound" "permission_error" [] false) else
  Ok (authHeader, requestedSubscription, isAPIKeyRequest).

Definition handleSubscriptionSelectionError (e : SelErr) : ListReply :=
  match e with
  | MultipleSubscriptionsError _ => refuse 403 "API key has no subscription bound" "permission_error" [] true
  | AccessDeniedError _ | SubscriptionNotFoundError _ =>
      refuse 403 "access denied to requested subscription" "permission_error" [] true
  | NoSubscriptionError => refuse 403 (sel_error_text e) "permission_error" [] true
  | _ => refuse 500 "Failed to select subscription" "server_error" [] true
  end.

(** [SelectResponse{Name: name}]. *)
Definition named_only (name : string) : SelectResponse := {|
  resp_Name := name; resp_Namespace := ""; resp_DisplayName := ""; resp_Description := "";
  resp_Priority := 0; resp_ModelRefs := []; resp_OrganizationID := "";
  resp_AssociatedOrganizationID := ""; resp_CostCenter := ""; resp_Labels := ∅;
  resp_Headers := ∅; ResolvedModel := ""; RateLimitID := ""; Objective := ""; FairnessID := "";
  SelectedGuardrailChecks := None; AccessAllowed := false; resp_Phase := "";
  resp_Ready := false; resp_DeletionTimestamp := "" |}.

Variable parseSubscriptionHeaders : string → Res string (gmap string (list string)).

(** A handler with a selector has a user here. *)
Definition selectSubscriptionsForListing (h : ModelsHandler) (groups : list string) (username : string)
    (requestedSubscription : string) (returnAllModels : bool) : Res ListReply (list SelectResponse) :=
  match subscriptionSelector h with
  | Some s =>
      if returnAllModels then
        map_err (fun _ => refuse 500 "Failed to get subscriptions" "server_error" [] true)
          (GetAllAccessible parseSubscriptionHeaders s groups username)
      else
        result <- map_err handleSubscriptionSelectionError
                    (Select parseSubscriptionHeaders s groups username requestedSubscription "") ;;
        Ok [result]
  | None =>
      if returnAllModels then Err (refuse 500 "Subscription system not configured" "server_error" [] true)
      else if String.eqb requestedSubscription "" then Ok []
      else Ok [named_only requestedSubscription]
  end.

(** The rest of [ListLLMs] once the subscriptions are known. *)
Definition list_models (h : ModelsHandler) (subscriptionsToUse : list SelectResponse) : ListReply :=
  match maasModelRefLister h with
  | None => page []
  | Some _ =>
      match ListFromMaaSModelRefLister (maasModelRefLister h) with
      | Err _ => refuse 500 "Failed to list models" "server_error" [] true
      | Ok models =>
          page (match subscriptionsToUse, subscriptionSelector h with
                | [], None => FilterModelsByAccess models
                | [], Some _ => []
                | _, _ => aggregateModelsFromSubscriptions models subscriptionsToUse
                end)
      end
  end.

(** [ListLLMs]; [None] is the nil dereference of a nil user. *)
Definition ListLLMs (h : ModelsHandler) (r : ListRequest) : option ListReply :=
  match user r with
  | Absent => Some (page [])
  | u =>
      match extractAndValidateAuth h r with
      | Err reply => Some reply
      | Ok (_, requestedSubscription, isAPIKeyRequest) =>
          let returnAllModels := negb isAPIKeyRequest && String.eqb requestedSubscription "" in
          let go groups username :=
            Some (match selectSubscriptionsForListing h groups username requestedSubscription returnAllModels with
                  | Err reply => reply
                  | Ok subs => list_models h subs
                  end) in
          match subscriptionSelector h, u with
          | None, _ => go [] ""
          | Some _, Value u => go (Identity.Groups u) (Identity.Username u)
          | Some _, NilPointer => None
          | Some _, _ => Some (refuse 500 "Internal server error" "server_error" [] false)
          end
      end
  end.

End Conversion.
End ModelCatalog.

(** ** What the listing holds *)
Module ModelCatalogFacts.
Import Subscription Selector SelectorFacts SelectionSafety SelectHandler ModelCatalog.

Section Facts.
Context {KA : K8sAccess} {NU : NetURL} {JS : JSONStrings} {CT : CreationTime}.
Context `{GR : GoRuntime} {PR : ProbeRuntime}.

Definition names (m : Model) : list string := map pv_Name (Subscriptions m).
(** The subscription offers the model. *)
Definition offers (sub : SelectResponse) (m : Model) : Prop :=
  Ready m = true ∧ known_kind (Kind m) = true ∧ OwnedBy m ∈ allowed_keys (resp_ModelRefs sub).

Lemma probe_elem list_ sub reached m :
  m ∈ probe list_ (sub, reached) ↔ reached = true ∧ m ∈ list_ ∧ offers sub m.
Proof.
  unfold probe, FilterModelsByAccess, filterModelsBySubscription, offers. cbn. destruct reached.
  - rewrite list_elem_of_In, !List.filter_In, andb_true_iff, bool_decide_eq_true, <- list_elem_of_In. tauto.
  - split; [by intros ?%not_elem_of_nil|by intros []].
Qed.

(** *** The fold over the results *)

Definition found_by (list_ : list Model) (a : SelectResponse * bool) : list (Provider * Model) :=
  map (pair (provider a.1)) (probe list_ a).

Lemma results_flat list_ arr m :
  foldl (add_result list_) m arr = foldl add_model m (concat (map (found_by list_) arr)).
Proof.
  revert m. induction arr as [|a arr IH]; intros m; cbn; [done|]. by rewrite IH, foldl_app.
Qed.

Lemma found_elem list_ arr p m :
  (p, m) ∈ concat (map (found_by list_) arr) ↔
  ∃ sub, (sub, true) ∈ arr ∧ p = provider sub ∧ m ∈ list_ ∧ offers sub m.
Proof.
  rewrite list_elem_of_In, in_concat. split.
  - intros (l & Hl & Hin). apply in_map_iff in Hl as ([sub reached] & <- & Ha).
    unfold found_by in Hin. apply in_map_iff in Hin as (m' & [= <- <-] & Hp).
    apply list_elem_of_In, probe_elem in Hp as (-> & Hm & Ho). exists sub. split; [by apply list_elem_of_In|done].
  - intros (sub & Ha & -> & Hm & Ho). exists (found_by list_ (sub, true)). split.
    + by apply in_map, list_elem_of_In.
    + unfold found_by. apply in_map, list_elem_of_In. by apply probe_elem.
Qed.

(** What the map says of a key after the findings [l]. *)
Definition describes (l : list (Provider * Model)) (k : ModelKeyT) (o : option Model) : Prop :=
  match o with
  | None => ∀ f, f ∈ l → model_key f.2 ≠ k
  | Some r => model_key r = k
      ∧ (∃ f, f ∈ l ∧ r = with_subscriptions f.2 (Subscriptions r))
      ∧ NoDup (names r)
      ∧ ∀ n, n ∈ names r ↔ ∃ f, f ∈ l ∧ model_key f.2 = k ∧ pv_Name f.1 = n
  end.

Lemma key_with_subscriptions m l : model_key (with_subscriptions m l) = model_key m.
Proof. done. Qed.

Lemma add_new_names r p :
  names (addSubscriptionIfNew r p) = (if bool_decide (pv_Name p ∈ names r) then names r else names r ++ [pv_Name p])%list
  ∧ (∀ m, r = with_subscriptions m (Subscriptions r) →
      addSubscriptionIfNew r p = with_subscriptions m (Subscriptions (addSubscriptionIfNew r p))).
Proof.
  unfold addSubscriptionIfNew.
  assert (Hb : existsb (fun e => String.eqb (pv_Name e) (pv_Name p)) (Subscriptions r) = bool_decide (pv_Name p ∈ names r)).
  { apply eq_true_iff_eq. rewrite existsb_exists, bool_decide_eq_true. unfold names. rewrite list_elem_of_In, in_map_iff.
    split; intros (e & H1 & H2); exists e; [by apply String.eqb_eq in H2|by rewrite H1, String.eqb_refl]. }
  rewrite Hb. split.
  - case_bool_decide; [done|]. unfold names. cbn. by rewrite map_app.
  - intros m Hr. case_bool_decide; [done|]. cbn. rewrite Hr. done.
Qed.

Lemma describes_other l k o f : model_key f.2 ≠ k → describes l k o → describes (l ++ [f])%list k o.
Proof.
  intros Hne. unfold describes. destruct o as [r|].
  - intros (Hk & (g & Hg & Hr) & Hnd & Hn). split; [done|]. split; [exists g; split; [set_solver|done]|].
    split; [done|]. intros n. rewrite Hn. split; intros (g' & Hg' & Hk' & Hn'); exists g'.
    + split; [set_solver|done].
    + split; [|done]. apply elem_of_app in Hg' as [?|Hg']; [done|].
      apply list_elem_of_singleton in Hg' as ->. congruence.
  - intros Hn g Hg. apply elem_of_app in Hg as [Hg|Hg]; [by apply Hn|]. by apply list_elem_of_singleton in Hg as ->.
Qed.

Lemma describes_add l f o :
  describes l (model_key f.2) o →
  describes (l ++ [f])%list (model_key f.2)
    (Some (match o with Some r => addSubscriptionIfNew r f.1 | None => with_subscriptions f.2 [f.1] end)).
Proof.
  unfold describes. destruct o as [r|].
  - intros (Hk & (g & Hg & Hr) & Hnd & Hn). destruct (add_new_names r f.1) as [Hnames Hsame].
    pose proof (Hsame _ Hr) as Hw. split; [|split; [|split]].
    + rewrite Hw, key_with_subscriptions. by rewrite Hr, key_with_subscriptions in Hk.
    + exists g. split; [set_solver|exact Hw].
    + rewrite Hnames. case_bool_decide as Hin; [done|]. apply NoDup_app. split; [done|].
      split; [|apply NoDup_singleton]. intros x Hx ->%list_elem_of_singleton. done.
    + intros n. rewrite Hnames. trans (n ∈ names r ∨ n = pv_Name f.1).
      { case_bool_decide as Hin; [naive_solver|]. by rewrite elem_of_app, list_elem_of_singleton. }
      rewrite Hn. split.
      * intros [(g' & ? & ? & ?)| ->]; [exists g'|exists f]; (split; [apply elem_of_app; rewrite ?list_elem_of_singleton; auto|done]).
      * intros (g' & Hg' & Hk' & <-). apply elem_of_app in Hg' as [Hg'|Hg']; [left; by exists g'|].
        apply list_elem_of_singleton in Hg' as ->. by right.
  - intros Hn. split; [done|]. split; [exists f; split; [set_solver|done]|]. split; [apply NoDup_singleton|].
    intros n. cbn. rewrite list_elem_of_singleton. split.
    + intros ->. exists f. set_solver.
    + intros (g & Hg & Hk & <-). apply elem_of_app in Hg as [Hg|Hg]; [by destruct (Hn g Hg)|].
      by apply list_elem_of_singleton in Hg as ->.
Qed.

Lemma fold_describes l k : describes l k (foldl add_model ∅ l !! k).
Proof.
  induction l as [|f l IH] using rev_ind; [cbn; rewrite lookup_empty; by intros f ?%not_elem_of_nil|].
  rewrite foldl_app. cbn. set (m := foldl add_model ∅ l) in *. unfold add_model.
  destruct (decide (model_key f.2 = k)) as [<-|Hne].
  - pose proof (describes_add l f _ IH) as Hd. by destruct (m !! model_key f.2); rewrite lookup_insert_eq.
  - destruct (m !! model_key f.2); rewrite lookup_insert_ne by done; by apply describes_other.
Qed.

(** *** The sorted list *)

#[local] Instance key_less_weak : StrictWeak key_less.
Proof. unfold key_less. apply _. Qed.

Lemma omap_lookup (m : gmap ModelKeyT Model) ks :
  (∀ k r, m !! k = Some r → model_key r = k) → (∀ k, k ∈ ks → is_Some (m !! k)) →
  map model_key (omap (fun k => m !! k) ks) = ks.
Proof.
  intros Hm Hks. induction ks as [|k ks IH]; [done|]. cbn.
  destruct (Hks k ltac:(by left)) as [r Hr]. rewrite Hr. cbn. rewrite (Hm k r Hr).
  f_equal. apply IH. intros k' Hk'. apply Hks. by right.
Qed.

Definition all_found (list_ : list Model) (subs : list SelectResponse) : list (Provider * Model) :=
  concat (map (found_by list_) (arrivals subs)).
Definition index (list_ : list Model) (subs : list SelectResponse) : gmap ModelKeyT Model :=
  foldl add_model ∅ (all_found list_ subs).

Lemma index_key list_ subs k r : index list_ subs !! k = Some r → model_key r = k.
Proof. intros Hr. pose proof (fold_describes (all_found list_ subs) k) as Hd. unfold index in Hr. rewrite Hr in Hd. apply Hd. Qed.

Lemma sorted_keys_elem list_ subs k :
  k ∈ sort_slice key_less (map fst (range_map (index list_ subs))) ↔ is_Some (index list_ subs !! k).
Proof.
  rewrite sort_slice_perm, range_map_perm, list_elem_of_fmap. split.
  - intros ([k' r] & -> & Hin%elem_of_map_to_list). by exists r.
  - intros [r Hr]. exists (k, r). by rewrite elem_of_map_to_list.
Qed.

Lemma aggregate_keys list_ subs :
  map model_key (aggregateModelsFromSubscriptions list_ subs) =
  sort_slice key_less (map fst (range_map (index list_ subs))).
Proof.
  unfold aggregateModelsFromSubscriptions. rewrite results_flat. apply omap_lookup.
  - apply index_key.
  - intros k Hk. by apply sorted_keys_elem in Hk.
Qed.

Lemma aggregate_elem list_ subs r :
  r ∈ aggregateModelsFromSubscriptions list_ subs ↔ index list_ subs !! model_key r = Some r.
Proof.
  unfold aggregateModelsFromSubscriptions. rewrite results_flat, list_elem_of_omap. fold (all_found list_ subs) (index list_ subs). split.
  - intros (k & _ & Hr). by rewrite (index_key _ _ _ _ Hr).
  - intros Hr. exists (model_key r). split; [by apply sorted_keys_elem|done].
Qed.

Lemma arrival_sub subs sub : (sub, true) ∈ arrivals subs → sub ∈ subs.
Proof. intros Hin. rewrite <- (arrivals_perm subs). by apply list_elem_of_fmap_2 with (f := fst) in Hin. Qed.

Lemma all_found_elem list_ subs p m :
  (p, m) ∈ all_found list_ subs → ∃ sub, sub ∈ subs ∧ p = provider sub ∧ m ∈ list_ ∧ offers sub m.
Proof. intros (sub & Ha%arrival_sub & ?)%found_elem. by exists sub. Qed.

(** No request was cancelled. *)
Lemma all_found_elem_iff list_ subs p m :
  (∀ a, a ∈ arrivals subs → a.2 = true) →
  (p, m) ∈ all_found list_ subs ↔ ∃ sub, sub ∈ subs ∧ p = provider sub ∧ m ∈ list_ ∧ offers sub m.
Proof.
  intros Hrun. split; [apply all_found_elem|]. intros (sub & Hin & ?). apply found_elem. exists sub.
  split; [|done]. rewrite <- (arrivals_perm subs) in Hin. apply list_elem_of_fmap in Hin as ([sub' reached] & -> & Ha).
  by rewrite (Hrun _ Ha : reached = true) in Ha.
Qed.

(** C19 What the aggregation lists, and for whom: when the request is not cancelled,
    the keys of the listed models are sorted and distinct, and are those of the
    ready models some subscription offers; every entry is a listed MaaSModelRef
    carrying, once each, the names of exactly the subscriptions that offer a
    model of its key.  The order in which the goroutines answer matters to
    neither. *)
Theorem catalogue_exact list_ subs :
  (∀ a, a ∈ arrivals subs → a.2 = true) →
  let out := aggregateModelsFromSubscriptions list_ subs in
  StronglySorted (not_after key_less) (map model_key out) ∧ NoDup (map model_key out)
  ∧ (∀ k, k ∈ map model_key out ↔ ∃ m sub, m ∈ list_ ∧ sub ∈ subs ∧ offers sub m ∧ model_key m = k)
  ∧ ∀ r, r ∈ out →
      (∃ m, m ∈ list_ ∧ r = with_subscriptions m (Subscriptions r)) ∧ NoDup (names r)
      ∧ ∀ n, n ∈ names r ↔
          ∃ m sub, m ∈ list_ ∧ sub ∈ subs ∧ offers sub m ∧ model_key m = model_key r ∧ resp_Name sub = n.
Proof.
  intros Hrun out. pose proof (fold_describes (all_found list_ subs)) as Hd. fold (index list_ subs) in Hd.
  unfold out. rewrite aggregate_keys. split_and!.
  - apply sort_slice_sorted, _.
  - rewrite sort_slice_perm, range_map_perm. apply NoDup_fst_map_to_list.
  - intros k. rewrite sorted_keys_elem. specialize (Hd k). split.
    + intros [r Hr]. rewrite Hr in Hd. destruct Hd as (Hk & ([p m] & Hf & Hm) & _).
      apply all_found_elem in Hf as (sub & ? & _ & ? & ?). exists m, sub. split_and!; [done..|].
      by rewrite <- Hk, Hm.
    + intros (m & sub & Hm & Hs & Ho & Hk). destruct (index list_ subs !! k) as [r|]; [by exists r|].
      destruct (Hd (provider sub, m)); [|done]. apply all_found_elem_iff; [done|by exists sub].
  - intros r Hr%aggregate_elem. specialize (Hd (model_key r)). rewrite Hr in Hd.
    destruct Hd as (_ & ([p m] & Hf & Hm) & Hnd & Hn). split_and!; [|done|].
    + apply all_found_elem in Hf as (_ & _ & _ & ? & _). by exists m.
    + intros n. rewrite Hn. split.
      * intros ([p' m'] & (sub & ? & -> & ? & ?)%all_found_elem & ? & ?). by exists m', sub.
      * intros (m' & sub & ? & ? & ? & ? & ?). exists (provider sub, m').
        split; [|done]. apply all_found_elem_iff; [done|by exists sub].
Qed.

(** ** The handler *)
Variable parseSubscriptionHeaders : string → Res string (gmap string (list string)).

(** [r] answers for one of [subs], a live subscription of the caller, with
    models of it that [a] authorizes. *)
Definition granted (a : AuthorizedSet) (subs : list subscription) (u : Identity.UserContext) (requested : string)
    (r : SelectResponse) : Prop :=
  ∃ sub, sub ∈ subs ∧ subscriptionIsDeleting sub = false
    ∧ userHasAccess sub (Identity.Username u) (Identity.Groups u) = true
    ∧ (requested ≠ "" → requested = Namespace sub +:+ "/" +:+ Name sub ∨ requested = Name sub)
    ∧ resp_Name r = Name sub
    ∧ ∀ ref, ref ∈ resp_ModelRefs r → ref ∈ ModelRefs sub ∧ authorized a (ref_key ref) = true.

Section Caller.
Variables (s : Selector) (check : list string → string → Res string (option AuthorizedSet)) (u : Identity.UserContext).
Hypothesis checked : accessChecker s = Some check.
#[local] Notation all_granted requested resps :=
  (∃ a subs, check (Identity.Groups u) (Identity.Username u) = Ok (Some a)
     ∧ loadSubscriptions parseSubscriptionHeaders s = Ok subs
     ∧ ∀ r, r ∈ resps → granted a subs u requested r).

Lemma authorized_models_ok groups username auth :
  authorizedModels s groups username = Ok auth → ∃ a, auth = Some a ∧ check groups username = Ok (Some a).
Proof.
  unfold authorizedModels. rewrite checked. destruct (check groups username) as [[a|]|]; [|done..].
  intros [= <-]. by exists a.
Qed.

Lemma all_accessible_granted resps :
  GetAllAccessible parseSubscriptionHeaders s (Identity.Groups u) (Identity.Username u) = Ok resps →
  all_granted "" resps.
Proof.
  intros Hg. unfold GetAllAccessible in Hg. destruct (_ && _) in Hg; [done|].
  apply res_bind_ok in Hg as (subs & Hl%map_err_ok & Hg). cbn zeta in Hg.
  apply res_bind_ok in Hg as (auth & (a & -> & Ha)%authorized_models_ok & [= <-]).
  exists a, subs. split_and!; [done..|]. intros r Hr.
  rewrite sort_slice_perm, list_elem_of_filter in Hr.
  destruct Hr as [_ (r1 & -> & (sub & -> & [Hok Hin]%list_elem_of_filter)%list_elem_of_fmap)%list_elem_of_fmap].
  apply andb_true_iff in Hok as [[Hu _]%andb_true_iff Hd%negb_true_iff].
  exists sub. split_and!; try done. intros ref Href. by apply filter_authorized_elem in Href.
Qed.

Lemma selected_granted requested r :
  requested ≠ "" →
  Select parseSubscriptionHeaders s (Identity.Groups u) (Identity.Username u) requested "" = Ok r →
  all_granted requested [r].
Proof.
  intros Hreq Hr. unfold Select, SelectWithContext in Hr. destruct (_ && _) in Hr; [done|].
  apply res_bind_ok in Hr as (subs & Hl%map_err_ok & Hr). cbn zeta in Hr.
  destruct (match subs with [] => true | _ => false end); [done|].
  apply res_bind_ok in Hr as (auth & (a & -> & Ha)%authorized_models_ok & Hr).
  rewrite (proj2 (String.eqb_neq requested "") Hreq) in Hr. cbn [negb] in Hr.
  destruct (select_explicit_ok _ _ _ _ _ _ _ _ Hr) as (matches & Hs & Hm).
  apply (select_first_ok parseSubscriptionHeaders) in Hs as (sub & Hin & Hmatch & ? & ? & Hans).
  rewrite sort_subs_elem in Hin. exists a, subs. split_and!; [done..|]. intros r' ->%list_elem_of_singleton.
  exists sub. split_and!; try done; [by intros _; apply Hm|exact (ans_name _ _ _ _ _ Hans)|exact (ans_refs _ _ _ _ _ Hans)].
Qed.

(** The subscriptions of a listing are the caller's. *)
Lemma selection_granted h requested api_key resps :
  subscriptionSelector h = Some s → (api_key = true → requested ≠ "") →
  selectSubscriptionsForListing parseSubscriptionHeaders h (Identity.Groups u) (Identity.Username u) requested
    (negb api_key && String.eqb requested "") = Ok resps →
  all_granted requested resps.
Proof.
  intros Hs Hkey Hsel. unfold selectSubscriptionsForListing in Hsel. rewrite Hs in Hsel.
  destruct (String.eqb_spec requested "") as [->|Hne].
  - destruct api_key; [by destruct Hkey|]. by apply map_err_ok, all_accessible_granted in Hsel.
  - rewrite andb_false_r in Hsel. apply res_bind_ok in Hsel as (r & Hr%map_err_ok & [= <-]). by apply selected_granted.
Qed.

End Caller.

(** A provider of a listed model is one of the subscriptions, and offers it. *)
Lemma listed_provider list_ subs r p :
  r ∈ aggregateModelsFromSubscriptions list_ subs → p ∈ Subscriptions r →
  ∃ sub, sub ∈ subs ∧ pv_Name p = resp_Name sub ∧ OwnedBy r ∈ allowed_keys (resp_ModelRefs sub).
Proof.
  intros Hr%aggregate_elem Hp. pose proof (fold_describes (all_found list_ subs) (model_key r)) as Hd.
  fold (index list_ subs) in Hd. rewrite Hr in Hd. destruct Hd as (_ & _ & _ & Hn).
  destruct (proj1 (Hn (pv_Name p))) as ([q m] & Hf & Hk & Hname).
  { unfold names. by apply list_elem_of_fmap_2. }
  apply all_found_elem in Hf as (sub & ? & -> & _ & _ & _ & Ho). exists sub. split_and!; [done..|].
  injection Hk as _ _ Hown. by rewrite <- Hown.
Qed.

Lemma listed_ready list_ subs r :
  r ∈ aggregateModelsFromSubscriptions list_ subs → Ready r = true ∧ Subscriptions r ≠ [].
Proof.
  intros Hr%aggregate_elem. pose proof (fold_describes (all_found list_ subs) (model_key r)) as Hd.
  fold (index list_ subs) in Hd. rewrite Hr in Hd. destruct Hd as (_ & ([p m] & Hf & Hm) & _ & Hn).
  split; [apply all_found_elem in Hf as (_ & _ & _ & _ & Ho & _); by rewrite Hm|].
  intros Hnil. assert (Hp : pv_Name p ∈ names r).
  { apply Hn. exists (p, m). split_and!; [done|by rewrite Hm|done]. }
  unfold names in Hp. rewrite Hnil in Hp. by apply not_elem_of_nil in Hp.
Qed.

Lemma selection_refused h groups username requested all e data :
  selectSubscriptionsForListing parseSubscriptionHeaders h groups username requested all = Err e → l_body e ≠ Page data.
Proof.
  unfold selectSubscriptionsForListing. destruct (subscriptionSelector h) as [s|]; destruct all.
  - destruct (GetAllAccessible _ _ _ _); [done|by intros [= <-]].
  - destruct (Select _ _ _ _ _ _) as [|err]; [done|]. cbn. intros [= <-]. by destruct err.
  - by intros [= <-].
  - by destruct (String.eqb _ _).
Qed.

Lemma list_models_page h subs data m :
  l_body (list_models h subs) = Page data → m ∈ data →
  (subs = [] ∧ subscriptionSelector h = None) ∨ ∃ list_, m ∈ aggregateModelsFromSubscriptions list_ subs.
Proof.
  unfold list_models. destruct (maasModelRefLister h) as [l|]; [|by intros [= <-] ?%not_elem_of_nil].
  destruct (ListFromMaaSModelRefLister _) as [models|]; [|done].
  destruct subs as [|sub subs], (subscriptionSelector h); intros [= <-] Hm;
    [by apply not_elem_of_nil in Hm|by left|right; by exists models..].
Qed.

(** What the handler lists when it lists something. *)
Lemma listing_cases h r reply data m :
  ListLLMs parseSubscriptionHeaders h r = Some reply → l_body reply = Page data → m ∈ data →
  let header := trim_space (Authorization r) in
  let requested := requested_subscription (XMaasSubscription r) in
  let api_key := has_prefix api_key_prefix header in
  header ≠ "" ∧ (api_key = true → requested ≠ "")
  ∧ ∃ groups username subs,
      selectSubscriptionsForListing parseSubscriptionHeaders h groups username requested
        (negb api_key && String.eqb requested "") = Ok subs
      ∧ l_body (list_models h subs) = Page data
      ∧ match subscriptionSelector h with
        | None => True
        | Some _ => ∃ u, user r = Value u ∧ groups = Identity.Groups u ∧ username = Identity.Username u
        end.
Proof.
  intros Hr Hb Hm header requested api_key. unfold ListLLMs, extractAndValidateAuth in Hr. cbn zeta in Hr.
  fold header in Hr. fold requested in Hr. fold api_key in Hr.
  assert (Habs : user r ≠ Absent).
  { intros Hu. rewrite Hu in Hr. injection Hr as <-. injection Hb as <-. by apply not_elem_of_nil in Hm. }
  destruct (String.eqb_spec header "") as [|He]; [by destruct (user r); simplify_eq|].
  destruct (api_key && String.eqb requested "") eqn:Hkey; [by destruct (user r); simplify_eq|].
  split; [done|]. split.
  { intros Ha. rewrite Ha in Hkey. by apply String.eqb_neq. }
  destruct (subscriptionSelector h) as [s|] eqn:Hs.
  - destruct (user r) as [| | |u] eqn:Hu; simplify_eq.
    destruct (selectSubscriptionsForListing _ _ _ _ _ _) as [subs|e] eqn:Hsel in Hb; [|by destruct (selection_refused _ _ _ _ _ _ _ Hsel Hb)].
    exists (Identity.Groups u), (Identity.Username u), subs. split_and!; [done|done|by exists u].
  - assert (Hgo : ∃ subs, selectSubscriptionsForListing parseSubscriptionHeaders h [] "" requested (negb api_key && String.eqb requested "") = Ok subs ∧ l_body (list_models h subs) = Page data).
    { destruct (user r); simplify_eq;
        (destruct (selectSubscriptionsForListing _ _ _ _ _ _) as [subs|e] eqn:Hsel in Hb; [by exists subs|by destruct (selection_refused _ _ _ _ _ _ _ Hsel Hb)]). }
    destruct Hgo as (subs & ? & ?). by exists [], "", subs.
Qed.

(** C18 The listing is confined to what the caller may use: when a selector is
    configured, a model is listed only to an identified caller with an
    Authorization header (and, for an API key, a bound subscription); it is
    ready, has a provider, and every provider is a loaded subscription of the
    caller that is not being deleted, is the requested one when one is requested, and
    has this model among those the access checker authorizes. *)
Theorem listing_confined h s check r reply data m :
  subscriptionSelector h = Some s → accessChecker s = Some check →
  ListLLMs parseSubscriptionHeaders h r = Some reply → l_body reply = Page data → m ∈ data →
  let requested := requested_subscription (XMaasSubscription r) in
  ∃ u a subs, user r = Value u ∧ trim_space (Authorization r) ≠ ""
    ∧ (has_prefix api_key_prefix (trim_space (Authorization r)) = true → requested ≠ "")
    ∧ check (Identity.Groups u) (Identity.Username u) = Ok (Some a)
    ∧ loadSubscriptions parseSubscriptionHeaders s = Ok subs
    ∧ Ready m = true ∧ Subscriptions m ≠ []
    ∧ ∀ p, p ∈ Subscriptions m → ∃ sub ref,
        sub ∈ subs ∧ pv_Name p = Name sub ∧ subscriptionIsDeleting sub = false
        ∧ userHasAccess sub (Identity.Username u) (Identity.Groups u) = true
        ∧ (requested ≠ "" → requested = Namespace sub +:+ "/" +:+ Name sub ∨ requested = Name sub)
        ∧ ref ∈ ModelRefs sub ∧ authorized a (ref_key ref) = true
        ∧ OwnedBy m = ref_Namespace ref +:+ "/" +:+ ref_Name ref.
Proof.
  intros Hs Hc Hr Hb Hm requested.
  destruct (listing_cases _ _ _ _ _ Hr Hb Hm) as (Hauth & Hkey & groups & username & resps & Hsel & Hlist & Hu).
  rewrite Hs in Hu. destruct Hu as (u & Hu & -> & ->).
  destruct (selection_granted s check u Hc h _ _ _ Hs Hkey Hsel) as (a & subs & Ha & Hl & Hg).
  destruct (list_models_page _ _ _ _ Hlist Hm) as [[_ Hno]|[list_ Hin]]; [by rewrite Hs in Hno|].
  destruct (listed_ready _ _ _ Hin) as [Hready Hprov].
  exists u, a, subs. split_and!; [done..|]. intros p Hp.
  destruct (listed_provider _ _ _ _ Hin Hp) as (resp & Hresp & Hname & Hown).
  destruct (Hg _ Hresp) as (sub & ? & ? & ? & ? & Hn & Hrefs).
  unfold allowed_keys in Hown. apply elem_of_list_to_set, list_elem_of_fmap in Hown as (ref & Hown & Href).
  destruct (Hrefs _ Href) as [? ?]. exists sub, ref. rewrite Hname. by split_and!.
Qed.

(** Without a selector nothing is ever listed: a token request is refused
    before the "legacy case" that would show every ready model, and the
    synthetic subscription of a named one lists no model refs. *)
Theorem no_selector_lists_nothing h r reply data :
  subscriptionSelector h = None → ListLLMs parseSubscriptionHeaders h r = Some reply →
  l_body reply = Page data → data = [].
Proof.
  intros Hs Hr Hb. destruct data as [|m data]; [done|]. exfalso.
  destruct (listing_cases _ _ _ _ m Hr Hb) as (_ & Hkey & groups & username & subs & Hsel & Hlist & _); [by left|].
  unfold selectSubscriptionsForListing in Hsel. rewrite Hs in Hsel.
  destruct (String.eqb_spec (requested_subscription (XMaasSubscription r)) "") as [He|Hne].
  - destruct (has_prefix _ _); [by destruct Hkey|done].
  - rewrite andb_false_r in Hsel. injection Hsel as <-.
    destruct (list_models_page _ _ _ m Hlist) as [[? _]|[list_ Hin]]; [by left|done|].
    destruct (listed_ready _ _ _ Hin) as [_ Hp]. destruct (Subscriptions m) as [|p l] eqn:E; [done|].
    destruct (listed_provider list_ _ m p Hin) as (sub & ->%list_elem_of_singleton & _ & Hown); [rewrite E; by left|].
    unfold allowed_keys in Hown. cbn in Hown. by apply elem_of_empty in Hown.
Qed.

End Facts.
End ModelCatalogFacts.

(** ** A small cluster *)
Module ModelCatalogDemo.
Import Subscription Selector SelectorFacts SelectionSafety SelectHandler ModelCatalog ModelCatalogFacts.

(** URLs kept as text, no capability list decoded, no creation time. *)
#[export] Instance text_urls : NetURL := {
  Parse s := Some {| Scheme := "https"; Host := s; Path := ""; RawPath := ""; RawQuery := ""; ForceQuery := false;
                     Fragment := ""; RawFragment := ""; u_Rest := "" |};
  URL_String u := Host u }.
#[export] Instance no_strings : JSONStrings := { unmarshal_strings _ := None }.
#[export] Instance no_times : CreationTime := { GetCreationTimestamp _ := None }.
#[export] Program Instance in_order : ProbeRuntime := { arrivals subs := map (fun sub => (sub, true)) subs }.
Next Obligation. intros subs. induction subs as [|sub subs IH]; [done|]. cbn. by rewrite IH. Qed.

Definition model_object (ns name phase : string) : Object := mkObject [
  ("metadata", JObj [("name", JStr name); ("namespace", JStr ns)]);
  ("spec", JObj [("modelRef", JObj [("kind", JStr "LLMInferenceService"); ("name", JStr name)])]);
  ("status", JObj [("phase", JStr phase); ("endpoint", JStr "models.example.com/v1")])].

(** The caller of [two_subs] owns both subscriptions and may use granite only;
    "private" is ready and in the caller's subscription, but not authorized. *)
Definition demo_handler (s : option Selector) : ModelsHandler := {|
  subscriptionSelector := s;
  maasModelRefLister := Some (Ok [Some (model_object "llm" "private" "Ready"); None;
                                  Some (model_object "llm" "granite" "Ready");
                                  Some (model_object "llm" "other" "Failed")]);
  h_metrics := true |}.
Definition demo_request (token : string) (requested : list string) : ListRequest := {|
  Authorization := token; XMaasSubscription := requested;
  user := Value {| Identity.Username := "u"; Identity.Groups := ["dev"]; Identity.Tenant := ""; Identity.OrganizationID := "" |} |}.

Definition listed (reply : ListReply) : list (string * list string) :=
  match l_body reply with Page data => map (fun m => (OwnedBy m, names m)) data | _ => [] end.

Definition demo_reply (s : option Selector) (r : ListRequest) : option ListReply :=
  ListLLMs (KA:=documented_access) (GR:=reference_runtime) no_headers (demo_handler s) r.

Example token_lists_granite :
  listed <$> demo_reply (Some two_subs) (demo_request "Bearer tok" []) = Some [("llm/granite", ["gold"])].
Proof. by vm_compute. Qed.

Lemma listing_confined_witness :
  ∃ reply m, demo_reply (Some two_subs) (demo_request "Bearer tok" []) = Some reply ∧ l_body reply = Page [m]
    ∧ Ready m = true ∧ Subscriptions m ≠ [].
Proof.
  destruct (demo_reply (Some two_subs) (demo_request "Bearer tok" [])) as [reply|] eqn:E; [|by vm_compute in E].
  assert (H : match l_body reply with Page [_] => true | _ => false end = true).
  { assert (Hl : match demo_reply (Some two_subs) (demo_request "Bearer tok" []) with
                 | Some r => match l_body r with Page [_] => true | _ => false end | None => false end = true)
      by by vm_compute.
    by rewrite E in Hl. }
  destruct (l_body reply) as [[|m [|? ?]]|] eqn:Hb; try done.
  destruct (listing_confined (KA:=documented_access) (GR:=reference_runtime) no_headers
    (demo_handler (Some two_subs)) two_subs (allow_all_of [granite]) (demo_request "Bearer tok" []) reply [m] m
    eq_refl eq_refl E Hb) as (u & a & subs & _ & _ & _ & _ & _ & Hready & Hprov & _); [by left|].
  by exists reply, m.
Defined.

Lemma catalogue_exact_witness :
  let sub := {| resp_Name := "gold"; resp_Namespace := ""; resp_DisplayName := ""; resp_Description := "";
    resp_Priority := 0; resp_ModelRefs := [model_ref "llm" "granite" "" true]; resp_OrganizationID := "";
    resp_AssociatedOrganizationID := ""; resp_CostCenter := ""; resp_Labels := ∅;
    resp_Headers := ∅; ResolvedModel := ""; RateLimitID := ""; Objective := ""; FairnessID := "";
    SelectedGuardrailChecks := None; AccessAllowed := false; resp_Phase := "";
    resp_Ready := false; resp_DeletionTimestamp := "" |} in
  let m := {| ID := "granite"; Created := 0; OwnedBy := "llm/granite"; Kind := kindLLMISvc; ModelURL := None;
    Ready := true; ModelDetails := None; Subscriptions := [] |} in
  ("granite", "", "llm/granite") ∈ map model_key (aggregateModelsFromSubscriptions (GR:=reference_runtime) [m] [sub]).
Proof.
  intros sub m.
  destruct (catalogue_exact (GR:=reference_runtime) [m] [sub]) as (_ & _ & Hk & _).
  { intros a Ha. cbn in Ha. by apply list_elem_of_singleton in Ha as ->. }
  apply Hk. exists m, sub. split_and!; [by left|by left| |done].
  split_and!; [done|done|]. unfold allowed_keys. apply elem_of_list_to_set. by left.
Defined.

Lemma no_selector_lists_nothing_witness :
  ∃ reply, demo_reply None (demo_request "Bearer tok" ["gold"]) = Some reply ∧ l_body reply = Page [].
Proof.
  eexists. split; [reflexivity|].
  destruct (l_body _) as [data|] eqn:E in |- *; [|done].
  by rewrite (no_selector_lists_nothing (KA:=documented_access) (GR:=reference_runtime) no_headers
    (demo_handler None) (demo_request "Bearer tok" ["gold"]) _ data eq_refl eq_refl E).
Defined.

(** "We return 403 Forbidden for all subscription-related errors": a key bound
    to a subscription that failed is answered 500, where an unknown
    subscription is answered 403. *)
Theorem failed_subscription_listing_500 :
  l_status <$> demo_reply (Some failed_only) (demo_request "Bearer sk-oai-k" ["broken"]) = Some 500%Z
  ∧ l_status <$> demo_reply (Some failed_only) (demo_request "Bearer sk-oai-k" ["absent"]) = Some 403%Z.
Proof. by vm_compute. Qed.
End ModelCatalogDemo.
