(* ===== verification/KeyHandler.v ===== *)
(** * KeyHandler: the HTTP handlers of API key management

    [maas-api/internal/api_keys/handler.go].  A handler is a function of the
    request's parts to the store it leaves, the audit and metric records it
    emits, and its response.  What the handlers call through an interface is a
    parameter: the administrator check, and the resolution of subscription
    administration ([SubscriptionAdminResolver], which [selector_resolver]
    implements with [AdminResolver]).  A request body arrives decoded: [Err]
    is the text of a decoding error. *)

From S2P Require Import Prelude GoStrings KeyGen KeyTable KeyStore Unstructured Subscription Selector KeyService Identity.
From S2P Require Import AuthPolicy AdminResolver Redaction.
From Stdlib Require String.
Local Open Scope string_scope.

(** ** The resolver interface

    Its pointers may be nil. *)
Record SubscriptionAdminResolver := {
  ra_ResolveSubscriptionAdmin : Identity.VerifiedIdentity → string →
    Res AdminResolver.AdminErr (option AdminResolver.AdminScope);
  ra_ResolveSubscriptionAdminScopes : Identity.VerifiedIdentity →
    Res AdminResolver.AdminErr (list (option AdminResolver.AdminScope));
  ra_CanonicalizeSubscription : string → Res AdminResolver.AdminErr string;
}.

Module KeyHandler.
Import KeyStore KeyService AdminResolver.

Notation UserContext := Identity.UserContext.
Notation VerifiedIdentity := Identity.VerifiedIdentity.

(** The resolver the server wires in. *)
Definition selector_resolver `{KA : K8sAccess}
    (parseSubscriptionHeaders : string → Res string (gmap string (list string)))
    (uuid_string : string → option string) (s : Selector.Selector) : SubscriptionAdminResolver := {|
  ra_ResolveSubscriptionAdmin identity requested :=
    res_map Some (ResolveSubscriptionAdmin parseSubscriptionHeaders uuid_string s (Some identity) requested);
  ra_ResolveSubscriptionAdminScopes identity :=
    res_map (map Some) (ResolveSubscriptionAdminScopes parseSubscriptionHeaders uuid_string s (Some identity));
  ra_CanonicalizeSubscription := CanonicalizeSubscription parseSubscriptionHeaders s;
|}.

(** ** Requests, records and responses *)

(** The ["user"] value of the Gin context. *)
Inductive UserValue := NoUser | OtherType | NilUser | TheUser (u : UserContext).

(** The values of the two credential headers, in the order received. *)
Record Credentials := { cred_Authorization : list string; cred_APIKey : list string }.
(** [c.GetHeader]: the first value. *)
Definition GetHeader (values : list string) : string := default "" (head values).

Record delegatedAdminAuditEvent := {
  AuthorizationPath : string; Action : string; Outcome : string; Reason : string; DryRun : bool;
  au_User : UserContext; au_Identity : VerifiedIdentity;
  Scope : option AdminScope; Scopes : list AdminScope;
  au_KeyID : string; TargetUsername : string; TargetSubscription : string;
}.

(** The text of a log field. *)
Inductive FieldValue := Text (s : string) | Texts (l : list string) | Flag (b : bool) | Number (z : Z).
Notation FieldList := (list (string * FieldValue)).

Inductive Record_ :=
| Audit (event : delegatedAdminAuditEvent)
| AuditFields (message : string) (fields : FieldList)
| TokenMint (tenant result : string)
| KeyValidation (tenant result : string)
| Rejection (reason : string).

Inductive Body :=
| NoBody
| ErrorText (error : string)
| ErrorCode (error code : string)
| ServiceError (e : ServiceErr)
| KeyConfig (max_expiration_days : Z) (ephemeral_max_expiration : string)
| KeyBody (key : ApiKey)
| CreatedKey (result : CreateAPIKeyResponse)
| ValidationBody (result : ValidationResult)
| KeyList (data : list ApiKey) (has_more : bool)
| BulkRevoked (revoked : nat) (message : string) (dryRun : bool)
| LifecycleRevoked (revoked deleted : nat) (deletedAt message : string)
| CleanupCount (deleted : nat) (message : string).

(** A response written, none written, or a nil dereference. *)
Inductive Response := Respond (status : Z) (body : Body) | Silent | Panics.

Record CreateAPIKeyRequest := {
  cq_Name : string; cq_Description : string; cq_Subscription : string; cq_ExpiresIn : option Z;
  cq_Ephemeral : bool; cq_Labels : gmap string string;
}.

(** [SearchFilters] as a client can send them: [SubscriptionNames] is not decoded. *)
Record FilterRequest := {
  fr_Username : string; fr_Status : list string; fr_Subscription : option string;
  fr_IncludeEphemeral : option bool; fr_LabelsContain : gmap string string;
}.
Definition no_filters : FilterRequest := {|
  fr_Username := ""; fr_Status := []; fr_Subscription := None; fr_IncludeEphemeral := None;
  fr_LabelsContain := ∅ |}.
Record SearchAPIKeysRequest := {
  Filters : option FilterRequest; Sort : option SortParams; Pagination : option PaginationParams;
}.
Record BulkRevokeRequest := { br_Username : string; br_Subscription : string; br_DryRun : bool }.

Definition DefaultLimit : Z := 50.
Definition ValidStatuses : list string := ["active"; "revoked"; "expired"].
Definition MaxLabelsEntries : nat := 50.
Definition MaxLabelKeyLength : nat := 128.
Definition MaxLabelValueLength : nat := 1024.
Definition RejectionUnauthorized : string := "unauthorized".
Definition apiKeySubscriptionResolutionErrCode : string := "invalid_subscription".
Definition apiKeySubscriptionResolutionErrMsg : string := "Unable to resolve a subscription for this API key".

(** ** Names and labels *)

Definition between (lo hi : Z) (c : ascii) : bool := in_range lo hi c.
Definition continuation (c : ascii) : bool := in_range 128 191 c.

(** The bytes of the first rune after its leading byte [b0]; an invalid byte is
    a rune of its own. *)
Definition rune_tail (b0 : Z) (s : string) : nat :=
  let two (p : ascii → bool) := match s with String a _ => if p a then 1%nat else 0%nat | _ => 0%nat end in
  let three (p : ascii → bool) := match s with
                 | String a (String b _) => if p a && continuation b then 2%nat else 0%nat | _ => 0%nat end in
  let four (p : ascii → bool) := match s with
                | String a (String b (String c _)) =>
                    if p a && continuation b && continuation c then 3%nat else 0%nat
                | _ => 0%nat end in
  if (b0 <? 194)%Z then 0%nat
  else if (b0 <? 224)%Z then two continuation
  else if (b0 =? 224)%Z then three (between 160 191)
  else if (b0 =? 237)%Z then three (between 128 159)
  else if (b0 <? 240)%Z then three continuation
  else if (b0 =? 240)%Z then four (between 144 191)
  else if (b0 <? 244)%Z then four continuation
  else if (b0 =? 244)%Z then four (between 128 143)
  else 0%nat.

(** [utf8.RuneCountInString]; [skip] bytes still belong to the last rune. *)
Fixpoint runes_from (skip : nat) (s : string) : nat :=
  match s with
  | EmptyString => 0
  | String c r =>
      match skip with
      | S skip => runes_from skip r
      | O => S (runes_from (rune_tail (byte_of c) r) r)
      end
  end.
Definition RuneCountInString (s : string) : nat := runes_from 0 s.

(** [[\x00-\x1F\x7F]]. *)
Definition control (c : ascii) : bool := in_range 0 31 c || (byte_of c =? 127)%Z.
Definition invalidKeyNameCharsPattern (s : string) : bool := negb (str_all (λ c, negb (control c)) s).
Definition invalidLabelCharsPattern (s : string) : bool := invalidKeyNameCharsPattern s.

Definition alnum (c : ascii) : bool := in_range 48 57 c || in_range 65 90 c || in_range 97 122 c.
(** [[a-zA-Z0-9]([...]*[a-zA-Z0-9])?] with the inner class [p]. *)
Fixpoint ends_alnum (p : ascii → bool) (s : string) : bool :=
  match s with
  | EmptyString => false
  | String c EmptyString => alnum c
  | String c r => p c && ends_alnum p r
  end.
Definition label_segment (p : ascii → bool) (s : string) : bool :=
  match s with
  | EmptyString => false
  | String c EmptyString => alnum c
  | String c r => alnum c && ends_alnum p r
  end.
(** [validLabelKeyPattern]: an optional prefix before the one slash. *)
Definition validLabelKeyPattern (s : string) : bool :=
  let prefix_char c := alnum c || Ascii.eqb c "." || Ascii.eqb c "-" in
  let name_char c := alnum c || Ascii.eqb c "." || Ascii.eqb c "_" || Ascii.eqb c "-" in
  match cut "/" s with
  | Some (prefix, name) => label_segment prefix_char prefix && label_segment name_char name
  | None => label_segment name_char s
  end.

Definition label_error (key value : string) : option string :=
  if String.eqb key "" then Some "label keys cannot be empty" else
  if (MaxLabelKeyLength <? String.length key)%nat
  then Some ("label key '" +:+ key +:+ "' exceeds 128 characters") else
  if negb (validLabelKeyPattern key)
  then Some ("label key '" +:+ key +:+ "' contains invalid characters (only alphanumerics, dots, underscores, hyphens allowed)") else
  if String.eqb value "" then Some ("label value for key '" +:+ key +:+ "' cannot be empty") else
  if (MaxLabelValueLength <? String.length value)%nat
  then Some ("label value for key '" +:+ key +:+ "' exceeds 1024 characters") else
  if invalidLabelCharsPattern value
  then Some ("label value for key '" +:+ key +:+ "' contains invalid control characters") else None.

(** The first error of a list of entries. *)
Fixpoint first_error (entries : list (string * string)) : option string :=
  match entries with
  | [] => None
  | (key, value) :: r => match label_error key value with Some e => Some e | None => first_error r end
  end.

(** [applySearchAPIKeysDefaults]. *)
Definition applySearchAPIKeysDefaults (req : SearchAPIKeysRequest)
    : FilterRequest * SortParams * PaginationParams :=
  (default no_filters (Filters req),
   default {| By := DefaultSortBy; Order := DefaultSortOrder |} (Sort req),
   default {| Limit := DefaultLimit; Offset := 0 |} (Pagination req)).

(** ** Credentials *)

Definition isAPIKeyBearer (authorization : string) : bool :=
  match Identity.Fields authorization with
  | scheme :: ((_ :: _) as rest) =>
      String.eqb (to_lower scheme) "bearer" && has_prefix KeyGen.KeyPrefix (join " " rest)
  | _ => false
  end.
Definition hasAPIKeyCredential (c : Credentials) : bool :=
  isAPIKeyBearer (GetHeader (cred_Authorization c)) || has_prefix KeyGen.KeyPrefix (trim_space (GetHeader (cred_APIKey c))).

(** The reply of a handler: the store, the records and the response. *)
Notation Reply W := (W * list Record_ * Response)%type.

Section Handler.
Context `{GR : GoRuntime} {W : Type} `{ST : MetadataStore W}.
Variable uuid_parse : string → bool.
(** [logger.RedactValue] of this process. *)
Variable redact : string → string.
Variable adminChecker : UserContext → Res string bool.
Variable resolver : SubscriptionAdminResolver.
Variable s : Service.

Definition validateLabels (labels : gmap string string) : option string :=
  if (MaxLabelsEntries <? size labels)%nat then Some "labels cannot exceed 50 key-value pairs"
  else first_error (range_map labels).

(** [verifiedIdentity]: [None] is an invalid value. *)
Definition verifiedIdentity (value : Identity.CtxIdentity) : option (option VerifiedIdentity) :=
  match value with
  | None => Some None
  | Some None => None
  | Some (Some identity) => Some (Some identity)
  end.

(** ** Subscription administration *)

Definition denied : string * string := ("access_denied", "organization administration is denied").

Definition in_scope (user : UserContext) (scope : AdminScope) : bool :=
  String.eqb (sc_Tenant scope) (Identity.Tenant user) && negb (String.eqb (sc_Subscription scope) "").

(** The scope, or the bounded administration error; [Err] is any other failure. *)
Definition resolveSubscriptionAdmin (identity : option VerifiedIdentity) (requestedSubscription : string)
    (user : UserContext) : Res AdminErr (option AdminScope * option (string * string)) :=
  match identity with
  | None => Ok (None, None)
  | Some identity =>
      if String.eqb requestedSubscription "" then Ok (None, None) else
      match ra_ResolveSubscriptionAdmin resolver identity requestedSubscription with
      | Err (SubscriptionAdminError code message) => Ok (None, Some (code, message))
      | Err e => Err e
      | Ok None => Ok (None, Some denied)
      | Ok (Some scope) => Ok (if in_scope user scope then (Some scope, None) else (None, Some denied))
      end
  end.

Definition resolveSubscriptionAdminScopes (identity : VerifiedIdentity) (user : UserContext)
    : Res AdminErr (list AdminScope * option (string * string)) :=
  scopes <- ra_ResolveSubscriptionAdminScopes resolver identity ;;
  Ok (match mapM (λ scope, scope ← scope; if in_scope user scope then Some scope else None) scopes with
      | Some scopes => (scopes, None)
      | None => ([], Some denied)
      end).

Definition canonicalizeSubscription (requestedSubscription : string)
    : Res AdminErr (string * option (string * string)) :=
  match ra_CanonicalizeSubscription resolver requestedSubscription with
  | Err (SubscriptionAdminError code message) => Ok ("", Some (code, message))
  | Err e => Err e
  | Ok canonicalSubscription =>
      Ok (if String.eqb canonicalSubscription ""
          then ("", Some ("internal_error", "subscription canonicalization is invalid"))
          else (canonicalSubscription, None))
  end.

(** ** Audit records *)

Definition audit_event (action outcome reason : string) (user : UserContext) (identity : VerifiedIdentity)
    (scope : option AdminScope) (scopes : list AdminScope) (keyID targetUsername targetSubscription : string)
    : delegatedAdminAuditEvent := {|
  AuthorizationPath := ""; Action := action; Outcome := outcome; Reason := reason; DryRun := false;
  au_User := user; au_Identity := identity; Scope := scope; Scopes := scopes; au_KeyID := keyID;
  TargetUsername := targetUsername; TargetSubscription := targetSubscription |}.

Definition with_result (outcome reason : string) (e : delegatedAdminAuditEvent) : delegatedAdminAuditEvent := {|
  AuthorizationPath := AuthorizationPath e; Action := Action e;
  Outcome := if String.eqb outcome "" then Outcome e else outcome;
  Reason := if String.eqb reason "" then Reason e else reason;
  DryRun := DryRun e; au_User := au_User e; au_Identity := au_Identity e; Scope := Scope e;
  Scopes := Scopes e; au_KeyID := au_KeyID e; TargetUsername := TargetUsername e;
  TargetSubscription := TargetSubscription e |}.
(** The fall-back to another authorization path, which succeeded. *)
Definition fallback (reason path targetSubscription : string) (e : delegatedAdminAuditEvent)
    : delegatedAdminAuditEvent := {|
  AuthorizationPath := path; Action := Action e; Outcome := "allowed"; Reason := reason;
  DryRun := DryRun e; au_User := au_User e; au_Identity := au_Identity e; Scope := Scope e;
  Scopes := Scopes e; au_KeyID := au_KeyID e; TargetUsername := TargetUsername e;
  TargetSubscription := targetSubscription |}.
Definition dry_run (e : delegatedAdminAuditEvent) : delegatedAdminAuditEvent := {|
  AuthorizationPath := AuthorizationPath e; Action := Action e; Outcome := Outcome e; Reason := Reason e;
  DryRun := true; au_User := au_User e; au_Identity := au_Identity e; Scope := Scope e;
  Scopes := Scopes e; au_KeyID := au_KeyID e; TargetUsername := TargetUsername e;
  TargetSubscription := TargetSubscription e |}.

Definition text_field (name value : string) : FieldList :=
  if String.eqb value "" then [] else [(name, Text value)].
Definition redacted_field (name value : string) : FieldList :=
  if String.eqb value "" then [] else [(name, Text (redact value))].

Definition delegatedAdminAuditFields (event : delegatedAdminAuditEvent) (requestID : string) : FieldList :=
  let '(tenant, namespace, subscription, organizationID) :=
    match Scope event with
    | Some scope => (sc_Tenant scope, sc_Namespace scope, sc_Subscription scope, sc_OrganizationID scope)
    | None => (Identity.Tenant (au_User event), "", TargetSubscription event, "")
    end in
  let authorizationPath := if String.eqb (AuthorizationPath event) "" then "delegated-subscription-admin"
                           else AuthorizationPath event in
  let claims := Identity.Claims (au_Identity event) in
  ([("audit.action", Text (Action event)); ("audit.authorizationPath", Text authorizationPath);
    ("audit.actor", Text (redact (Identity.Username (au_User event)))); ("audit.tenant", Text tenant);
    ("audit.scope", Text "subscription-admin"); ("audit.outcome", Text (Outcome event));
    ("audit.actorIssuer", Text (Identity.Issuer claims));
    ("audit.actorSubject", Text (redact (Identity.Subject claims)))]
   ++ text_field "audit.namespace" namespace
   ++ redacted_field "audit.targetSubscription" subscription
   ++ text_field "audit.organizationId" organizationID
   ++ match Scopes event with
      | [] => []
      | scopes => [("audit.targetSubscriptions", Texts (map (λ sc, redact (sc_Subscription sc)) scopes));
                   ("audit.organizationIds", Texts (map sc_OrganizationID scopes))]
      end
   ++ redacted_field "audit.targetUser" (TargetUsername event)
   ++ text_field "audit.keyId" (au_KeyID event)
   ++ text_field "audit.reason" (Reason event)
   ++ (if DryRun event then [("audit.dryRun", Flag true)] else [])
   ++ text_field "audit.requestId" requestID)%list.

Definition emitDelegatedAdminAudit (event : option delegatedAdminAuditEvent) : list Record_ :=
  match event with Some e => [Audit e] | None => [] end.
Definition emitDelegatedAdminAuditResult (event : option delegatedAdminAuditEvent) (outcome reason : string)
    : list Record_ := emitDelegatedAdminAudit (with_result outcome reason <$> event).

(** ** One key *)

(** Its last step: the platform administrator check. *)
Definition platform_access (user : UserContext) (key : ApiKey) (audit : option delegatedAdminAuditEvent)
    : option delegatedAdminAuditEvent * Res unit bool :=
  match adminChecker user with
  | Err _ => (with_result "error" "admin_status_error" <$> audit, Err tt)
  | Ok true => (fallback "platform_admin_fallback" "platform-admin-fallback" (k_Subscription key) <$> audit, Ok true)
  | Ok false => (audit, Ok false)
  end.

Definition isAuthorizedForKey (user : UserContext) (identity : option VerifiedIdentity) (key : ApiKey)
    (action : string) : option delegatedAdminAuditEvent * Res unit bool :=
  if negb (String.eqb (Identity.Tenant user) (Tenant key)) then (None, Ok false) else
  if String.eqb (Identity.Username user) (Username key) then (None, Ok true) else
  match identity with
  | Some id =>
      if String.eqb (k_Subscription key) "" then platform_access user key None else
      let event outcome reason scope target :=
        audit_event action outcome reason user id scope [] (ID key) (Username key) target in
      match resolveSubscriptionAdmin identity (k_Subscription key) user with
      | Err _ => (Some (event "error" "resolution_error" None (k_Subscription key)), Err tt)
      | Ok (scope, _) =>
          let refused := platform_access user key (Some (event "denied" "subscription_scope_denied" None (k_Subscription key))) in
          match scope with
          | Some scope => if String.eqb (sc_Subscription scope) (k_Subscription key)
                          then (Some (event "allowed" "" (Some scope) ""), Ok true) else refused
          | None => refused
          end
      end
  | None => platform_access user key None
  end.

Definition error (w : W) (status : Z) (text : string) : Reply W := (w, [], Respond status (ErrorText text)).

(** [getUserContext], which answers itself when it has no user to give. *)
Definition with_user (user : UserValue) (w : W) (k : UserContext → Reply W) : Reply W :=
  match user with
  | NoUser => error w 500 "User context not found"
  | OtherType => error w 500 "Invalid user context type"
  | NilUser => (w, [], Silent)
  | TheUser u => k u
  end.
Definition with_identity (value : Identity.CtxIdentity) (w : W) (k : option VerifiedIdentity → Reply W) : Reply W :=
  match verifiedIdentity value with
  | None => error w 500 "Invalid verified identity context type"
  | Some identity => k identity
  end.
(** [rejectAPIKeyManagement]. *)
Definition managing (cred : Credentials) (w : W) (k : Reply W) : Reply W :=
  if hasAPIKeyCredential cred then error w 403 "API keys cannot manage API keys" else k.

Definition key_not_found : Response := Respond 404 (ErrorText "API key not found").

Definition GetAPIKeyConfig (cred : Credentials) (w : W) : Reply W :=
  managing cred w (w, [], Respond 200 (KeyConfig (GetMaxExpirationDays s) "1h0m0s")).

Definition GetAPIKey (env : Env) (cred : Credentials) (tokenID : string) (user : UserValue)
    (identity : Identity.CtxIdentity) (w : W) : Reply W :=
  managing cred w (
  if String.eqb tokenID "" then error w 400 "Token ID required" else
  with_user user w (λ user, with_identity identity w (λ identity,
  let '(w, found) := KeyService.GetAPIKey env tokenID w in
  match found with
  | Err ErrKeyNotFound => (w, [], key_not_found)
  | Err _ => error w 500 "Failed to retrieve API key"
  | Ok tok =>
      let '(audit, authorized) := isAuthorizedForKey user identity tok "api-key-get" in
      (w, emitDelegatedAdminAudit audit,
       match authorized with
       | Ok true => Respond 200 (KeyBody tok)
       | _ => key_not_found
       end)
  end))).

(** Its three store calls run in [e1], [e2] and [e3]. *)
Definition RevokeAPIKey (e1 e2 e3 : Env) (cred : Credentials) (keyID : string) (user : UserValue)
    (identity : Identity.CtxIdentity) (w : W) : Reply W :=
  managing cred w (
  if String.eqb keyID "" then error w 400 "API key ID required" else
  with_user user w (λ user, with_identity identity w (λ identity,
  let '(w, found) := KeyService.GetAPIKey e1 keyID w in
  match found with
  | Err ErrKeyNotFound => (w, [], key_not_found)
  | Err _ => error w 500 "Failed to retrieve API key"
  | Ok keyMetadata =>
      let '(audit, authorized) := isAuthorizedForKey user identity keyMetadata "api-key-revoke" in
      match authorized with
      | Ok true =>
          let '(w, revoked) := KeyService.RevokeAPIKey e2 keyID w in
          match revoked with
          | Err e =>
              (w, emitDelegatedAdminAuditResult audit "error" "request_failed",
               match e with
               | ErrKeyNotFound => key_not_found
               | _ => Respond 500 (ErrorText "Failed to revoke API key")
               end)
          | Ok _ =>
              let audit := with_result "allowed" "" <$> audit in
              let '(w, reread) := KeyService.GetAPIKey e3 keyID w in
              match reread with
              | Err _ => (w, emitDelegatedAdminAuditResult audit "allowed" "metadata_retrieval_failed",
                          Respond 500 (ErrorText "Key revoked but failed to retrieve metadata"))
              | Ok revokedKey => (w, emitDelegatedAdminAudit audit, Respond 200 (KeyBody revokedKey))
              end
          end
      | _ => (w, emitDelegatedAdminAudit audit, key_not_found)
      end
  end))).

(** ** Creating and validating *)

(** The name to store, or the refusal; [nanos] is the clock. *)
Definition key_name (req : CreateAPIKeyRequest) (nanos : Z) : Res string string :=
  if cq_Ephemeral req && String.eqb (cq_Name req) "" then Ok ("ephemeral-" +:+ format_int nanos) else
  let name := trim_space (cq_Name req) in
  reject "key name cannot be whitespace only" when (String.length name =? 0)%nat ;;
  reject "key name cannot exceed 128 characters" when (128 <? RuneCountInString name)%nat ;;
  reject "key name contains invalid control characters" when invalidKeyNameCharsPattern name ;;
  Ok name.

(** The response to an error of [Service.CreateAPIKey], and the metric result. *)
Definition creation_error (e : ServiceErr) : string * Response :=
  match e with
  | ErrExpirationNotPositive | ErrExpirationExceedsMax | ErrInvalidGroupName _ =>
      ("rejected", Respond 400 (ServiceError e))
  | SelectionFailed (Selector.SubscriptionNotFoundError _) | SelectionFailed (Selector.AccessDeniedError _)
  | SelectionFailed Selector.NoSubscriptionError | SelectionFailed (Selector.MultipleSubscriptionsError _)
  | SelectionFailed (Selector.ModelNotInSubscriptionError _ _) =>
      ("rejected", Respond 400 (ErrorCode apiKeySubscriptionResolutionErrMsg apiKeySubscriptionResolutionErrCode))
  | SelectionFailed (Selector.ModelUnhealthyError _ phase _ message) =>
      ("rejected", Respond (if String.eqb phase "Failed" then 403 else 400)
                     (ErrorCode message "subscription_not_ready"))
  | _ => ("failure", Respond 500 (ErrorText "Failed to create API key"))
  end.

Definition CreateAPIKey (sel : SubscriptionSelector) (env : Env) (readID readSecret : Res string (list Byte.byte))
    (uuid_new : string) (nanos : Z) (cred : Credentials) (body : Res string CreateAPIKeyRequest)
    (user : UserValue) (w : W) : Reply W :=
  if hasAPIKeyCredential cred
  then (w, [TokenMint (GetTenantName s) "rejected"],
        Respond 403 (ErrorText "API keys cannot create API keys")) else
  match body with
  | Err e => error w 400 e
  | Ok req =>
  with_user user w (λ user,
  if negb (cq_Ephemeral req) && String.eqb (cq_Name req) ""
  then error w 400 "name is required for non-ephemeral keys" else
  match validateLabels (cq_Labels req) with
  | Some e => error w 400 e
  | None =>
  match key_name req nanos with
  | Err e => error w 400 e
  | Ok name =>
      let expiresIn := match cq_ExpiresIn req with
                       | Some d => Some d
                       | None => if cq_Ephemeral req then Some Hour else None
                       end in
      let '(w, result) :=
        KeyService.CreateAPIKey s sel env readID readSecret uuid_new (Identity.Username user)
          (Identity.Groups user) name (cq_Description req) expiresIn (cq_Ephemeral req)
          (trim_space (cq_Subscription req)) (Identity.Tenant user) (cq_Labels req) w in
      match result with
      | Err e => let '(metric, response) := creation_error e in
                 (w, [TokenMint (Identity.Tenant user) metric], response)
      | Ok result => (w, [TokenMint (Identity.Tenant user) "success"], Respond 201 (CreatedKey result))
      end
  end end)
  end.

(** [ValidateAPIKeyHandler]; an absent or empty key fails to bind.  The store,
    the debounce map and the update left running are those of the service. *)
Definition ValidateAPIKeyHandler (env : Env) (body : option string) (st : State)
    : State * option (string * option Z) * list Record_ * Response :=
  match body with
  | None => (st, None, [], Respond 400 (ErrorText "key is required"))
  | Some key =>
      let '(st, pending, result) := ValidateAPIKey uuid_parse s env key st in
      match result with
      | Err _ => (st, pending, [KeyValidation (GetTenantName s) "error"],
                  Respond 500 (ErrorText "validation failed"))
      | Ok result =>
          (st, pending,
           KeyValidation (vr_Tenant result) (if Valid result then "valid" else "invalid")
             :: (if Valid result then [] else [Rejection RejectionUnauthorized]),
           Respond 200 (ValidationBody result))
      end
  end.

(** ** Search *)

(** [validateSearchAPIKeysRequest]: the normalised sort and page. *)
Definition validateSearchAPIKeysRequest (filters : FilterRequest) (sort : SortParams) (page : PaginationParams)
    : Res string (SortParams * PaginationParams) :=
  match List.find (λ status, negb (bool_decide (trim_space status ∈ ValidStatuses))) (fr_Status filters) with
  | Some status => Err ("invalid status '" +:+ status +:+ "': must be active, revoked, or expired")
  | None =>
      reject "invalid sort.by: must be one of: created_at, expires_at, last_used_at, name"
        when negb (String.eqb (By sort) "") && negb (bool_decide (By sort ∈ ValidSortFields)) ;;
      let orderLower := to_lower (trim_space (Order sort)) in
      reject "invalid sort.order: must be asc or desc"
        when negb (String.eqb (Order sort) "") && negb (bool_decide (orderLower ∈ ValidSortOrders)) ;;
      reject "pagination.limit must be at least 1" when (Limit page <? 1)%Z ;;
      reject "pagination.offset must be non-negative" when (Offset page <? 0)%Z ;;
      match validateLabels (fr_LabelsContain filters) with
      | Some e => Err e
      | None => Ok ({| By := By sort; Order := if String.eqb (Order sort) "" then "" else orderLower |},
                    {| Limit := if (Limit page >? MaxLimit)%Z then MaxLimit else Limit page;
                       Offset := Offset page |})
      end
  end.

Definition store_filters (f : FilterRequest) (subscription : option string) (names : list string)
    : SearchFilters := {|
  f_Status := fr_Status f; f_Subscription := subscription; SubscriptionNames := names;
  IncludeEphemeral := fr_IncludeEphemeral f; LabelsContain := fr_LabelsContain f |}.

(** What authorization has decided about a search. *)
Record SearchAuth := {
  delegatedAdmin : bool; platformAdmin : bool; searchAudit : option delegatedAdminAuditEvent;
  searchSubscription : option string; searchNames : list string;
}.

(** [applyExplicitSubscriptionAdmin]. *)
Definition applyExplicitSubscriptionAdmin (identity : VerifiedIdentity) (user : UserContext)
    (targetUsername requestedSubscription : string) : Res AdminErr SearchAuth :=
  resolved <- resolveSubscriptionAdmin (Some identity) requestedSubscription user ;;
  let '(scope, adminErr) := resolved in
  Ok (match scope with
      | Some scope => {|
          delegatedAdmin := true; platformAdmin := false;
          searchAudit := Some (audit_event "api-key-search" "allowed" "" user identity (Some scope) [] ""
                                 targetUsername "");
          searchSubscription := Some (sc_Subscription scope); searchNames := [] |}
      | None => {|
          delegatedAdmin := false; platformAdmin := false;
          searchAudit := Some (audit_event "api-key-search" "denied"
            (match adminErr with Some (code, _) => code | None => "subscription_admin_denied" end)
            user identity None [] "" targetUsername requestedSubscription);
          searchSubscription := Some requestedSubscription; searchNames := [] |}
      end).

(** [applySubscriptionAdminUnion]; [Err] is the bounded administration error. *)
Definition applySubscriptionAdminUnion (identity : VerifiedIdentity) (user : UserContext)
    (targetUsername : string) : Res AdminErr (Res (string * string) SearchAuth) :=
  resolved <- resolveSubscriptionAdminScopes identity user ;;
  Ok (match resolved with
      | (_, Some adminErr) => Err adminErr
      | ([], None) => Ok {| delegatedAdmin := false; platformAdmin := false; searchAudit := None;
                            searchSubscription := None; searchNames := [] |}
      | (scopes, None) => Ok {|
          delegatedAdmin := true; platformAdmin := false;
          searchAudit := Some (audit_event "api-key-search" "allowed" "" user identity None scopes ""
                                 targetUsername "");
          searchSubscription := None;
          searchNames := fold_left add_new (map sc_Subscription scopes) [] |}
      end).

(** [applySelfServiceSearchScope]: the user name to search for, or a refusal. *)
Definition applySelfServiceSearchScope (delegatedAdmin isAdmin : bool) (targetUsername : string)
    (user : UserContext) : option string :=
  if delegatedAdmin || isAdmin then Some targetUsername else
  if negb (String.eqb targetUsername "") && negb (String.eqb targetUsername (Identity.Username user))
  then None else Some (Identity.Username user).

Definition auth_failed (status : Z) : Response := Respond status (ErrorText "Failed to check authorization").
Definition no_delegation (subscription : option string) : SearchAuth := {|
  delegatedAdmin := false; platformAdmin := false; searchAudit := None;
  searchSubscription := subscription; searchNames := [] |}.
Definition with_admin (isAdmin : bool) (a : SearchAuth) : SearchAuth := {|
  delegatedAdmin := delegatedAdmin a; platformAdmin := isAdmin; searchAudit := searchAudit a;
  searchSubscription := searchSubscription a; searchNames := searchNames a |}.
Definition with_canonical (canonicalSubscription : string) (a : SearchAuth) : SearchAuth := {|
  delegatedAdmin := delegatedAdmin a; platformAdmin := platformAdmin a;
  searchAudit := (if platformAdmin a
                  then fallback "platform_admin_fallback" "platform-admin-fallback" canonicalSubscription
                  else fallback "owner_fallback" "owner-fallback" canonicalSubscription) <$> searchAudit a;
  searchSubscription := Some canonicalSubscription; searchNames := searchNames a |}.

(** The authorization of a search: an early reply, or who may be searched for
    and under which subscription filters. *)
Notation Early := (list Record_ * Response)%type.

(** The explicit request of a verified identity, then the platform check. *)
Definition explicit_auth (identity : option VerifiedIdentity) (user : UserContext)
    (targetUsername requestedSubscription : string) : Res Early SearchAuth :=
  let failed_resolution id :=
    ([Audit (audit_event "api-key-search" "error" "resolution_error" user id None [] "" targetUsername
               requestedSubscription)], auth_failed 500) in
  a <- match identity with
       | Some id =>
           if String.eqb requestedSubscription "" then Ok (no_delegation None) else
           map_err (λ _, failed_resolution id)
             (applyExplicitSubscriptionAdmin id user targetUsername requestedSubscription)
       | None => Ok (no_delegation (if String.eqb requestedSubscription "" then None
                                    else Some requestedSubscription))
       end ;;
  if delegatedAdmin a then Ok a else
  match adminChecker user with
  | Err _ => Err (emitDelegatedAdminAuditResult (searchAudit a) "error" "admin_status_error", auth_failed 500)
  | Ok isAdmin => Ok (with_admin isAdmin a)
  end.

(** Without an explicit subscription, the union of the administered ones. *)
Definition union_auth (identity : option VerifiedIdentity) (user : UserContext)
    (targetUsername requestedSubscription : string) (a : SearchAuth) : Res Early SearchAuth :=
  match identity with
  | Some id =>
      if negb (String.eqb requestedSubscription "") || platformAdmin a then Ok a else
      let failed outcome reason status :=
        Err ([Audit (audit_event "api-key-search" outcome reason user id None [] "" targetUsername "")],
             auth_failed status) in
      match applySubscriptionAdminUnion id user targetUsername with
      | Err _ => failed "error" "resolution_error" 500%Z
      | Ok (Err (code, _)) => failed "denied" code 403%Z
      | Ok (Ok u) => Ok u
      end
  | None => Ok a
  end.

(** Self-service scope, then the canonical name of an explicit subscription. *)
Definition scope_auth (user : UserContext) (targetUsername requestedSubscription : string) (a : SearchAuth)
    : Res Early (string * SearchAuth) :=
  match applySelfServiceSearchScope (delegatedAdmin a) (platformAdmin a) targetUsername user with
  | None => Err (emitDelegatedAdminAudit (searchAudit a),
                 Respond 403 (ErrorText "non-admin users can only search their own API keys"))
  | Some targetUsername =>
      if delegatedAdmin a || String.eqb requestedSubscription "" then Ok (targetUsername, a) else
      match canonicalizeSubscription requestedSubscription with
      | Err _ => Err (emitDelegatedAdminAuditResult (searchAudit a) "error" "subscription_canonicalization_error",
                      auth_failed 500)
      | Ok (_, Some _) =>
          if platformAdmin a
          then Err (emitDelegatedAdminAuditResult (searchAudit a) "error" "subscription_canonicalization_failed",
                    Respond 400 (ErrorCode apiKeySubscriptionResolutionErrMsg apiKeySubscriptionResolutionErrCode))
          else Err (emitDelegatedAdminAudit (searchAudit a), Respond 200 (KeyList [] false))
      | Ok (canonicalSubscription, None) => Ok (targetUsername, with_canonical canonicalSubscription a)
      end
  end.

Definition authorize_search (identity : option VerifiedIdentity) (user : UserContext)
    (targetUsername requestedSubscription : string) : Res Early (string * SearchAuth) :=
  a <- explicit_auth identity user targetUsername requestedSubscription ;;
  a <- union_auth identity user targetUsername requestedSubscription a ;;
  scope_auth user targetUsername requestedSubscription a.

Definition SearchAPIKeys (env : Env) (cred : Credentials) (body : Res string SearchAPIKeysRequest)
    (user : UserValue) (identity : Identity.CtxIdentity) (w : W) : Reply W :=
  managing cred w (
  match user with
  | NoUser => (w, [], Respond 200 (KeyList [] false))
  | _ =>
  match body with
  | Err e => error w 400 e
  | Ok req =>
  match user with
  | NoUser | OtherType => error w 500 "Invalid user context type"
  | NilUser | TheUser _ =>
  with_identity identity w (λ identity,
  let '(filters, sort, page) := applySearchAPIKeysDefaults req in
  match validateSearchAPIKeysRequest filters sort page with
  | Err e => error w 400 e
  | Ok (sort, page) =>
  match user with
  | TheUser user =>
      let targetUsername := trim_space (fr_Username filters) in
      let requestedSubscription := match fr_Subscription filters with Some x => trim_space x | None => "" end in
      match authorize_search identity user targetUsername requestedSubscription with
      | Err (records, response) => (w, records, response)
      | Ok (targetUsername, a) =>
          let '(w, result) :=
            Search env targetUsername (store_filters filters (searchSubscription a) (searchNames a)) sort page w in
          match result with
          | Err _ => (w, emitDelegatedAdminAuditResult (searchAudit a) "error" "request_failed",
                      Respond 500 (ErrorText "Failed to search API keys"))
          | Ok result => (w, emitDelegatedAdminAudit (searchAudit a),
                          Respond 200 (KeyList (Keys result) (HasMore result)))
          end
      end
  | _ => (w, [], Panics)
  end end)
  end end end).

(** ** Lifecycle *)

Definition CleanupExpiredEphemeralKeys (e1 e2 : Env) (w : W) : Reply W :=
  let '(w, ephemeral) := CleanupExpiredEphemeral e1 w in
  match ephemeral with
  | Err _ => error w 500 "Failed to cleanup expired ephemeral keys"
  | Ok count =>
      let '(w, retained) := CleanupSoftDeleted s e2 w in
      match retained with
      | Err _ => error w 500 "Failed to cleanup retained API keys"
      | Ok retainedCount =>
          let message :=
            if (0 <? retainedCount)%nat
            then "Successfully deleted " +:+ format_int (Z.of_nat count) +:+ " expired ephemeral and "
                 +:+ format_int (Z.of_nat retainedCount) +:+ " retained API key(s)"
            else "Successfully deleted " +:+ format_int (Z.of_nat count) +:+ " expired ephemeral key(s)" in
          (w, [], Respond 200 (CleanupCount (count + retainedCount) message))
      end
  end.

(** [emitLifecycleCleanupAudit]; the time stamp is that of the response. *)
Definition emitLifecycleCleanupAudit (scope tenant subscription : string) (count : nat)
    (deletedAt initiator : string) : Record_ :=
  AuditFields "AUDIT API-key lifecycle cleanup"
    [("audit.action", Text "api-key-soft-delete"); ("audit.scope", Text scope); ("audit.tenant", Text tenant);
     ("audit.subscription", Text (redact subscription)); ("audit.deletedCount", Number (Z.of_nat count));
     ("audit.deletedAt", Text deletedAt); ("audit.initiator", Text initiator)].

Definition RevokeTenantAPIKeys (env : Env) (deletedAt : string) (param : string) (w : W) : Reply W :=
  let tenant := trim_space param in
  let '(w, result) := KeyService.RevokeTenantAPIKeys s env tenant w in
  match result with
  | Err ErrTenantRequired => (w, [], Respond 400 (ServiceError ErrTenantRequired))
  | Err ErrServiceTenantMismatch | Err (StoreFailed ErrTenantMismatch) =>
      (w, [], Respond 400 (ServiceError ErrServiceTenantMismatch))
  | Err _ => error w 500 "Failed to revoke tenant API keys"
  | Ok count =>
      (w, [emitLifecycleCleanupAudit "tenant" tenant "" count deletedAt "aitenant-controller"],
       Respond 200 (LifecycleRevoked count count deletedAt
         ("Successfully invalidated " +:+ format_int (Z.of_nat count) +:+ " API key(s) for tenant " +:+ tenant)))
  end.

Definition RevokeSubscriptionAPIKeys (env : Env) (deletedAt : string) (tenantParam subscriptionParam : string)
    (w : W) : Reply W :=
  let tenant := trim_space tenantParam in
  let subscription := trim_space subscriptionParam in
  let '(w, result) := KeyService.RevokeSubscriptionAPIKeys s env tenant subscription w in
  match result with
  | Err ErrTenantRequired | Err ErrServiceTenantMismatch | Err (StoreFailed ErrTenantMismatch) =>
      (w, [], Respond 400 (match result with Err e => ServiceError e | Ok _ => NoBody end))
  | Err _ => error w 500 "Failed to revoke subscription API keys"
  | Ok count =>
      (w, [emitLifecycleCleanupAudit "subscription" tenant subscription count deletedAt
             "maassubscription-controller"],
       Respond 200 (LifecycleRevoked count count deletedAt
         ("Successfully invalidated " +:+ format_int (Z.of_nat count) +:+ " API key(s) for subscription "
          +:+ subscription)))
  end.

(** ** Bulk revocation *)

Definition bulkRevokeScopeDescription (username subscription : string) : string :=
  if negb (String.eqb username "") && negb (String.eqb subscription "")
  then "user " +:+ username +:+ " in subscription " +:+ subscription
  else if negb (String.eqb subscription "") then "subscription " +:+ subscription
  else "user " +:+ username.

Definition emitBulkRevokeAudit (user : UserContext) (username subscription : string) (count : nat) : Record_ :=
  AuditFields "AUDIT bulk-revoke"
    [("audit.action", Text "bulk-revoke"); ("audit.actor", Text (redact (Identity.Username user)));
     ("audit.tenant", Text (Identity.Tenant user)); ("audit.targetUser", Text (redact username));
     ("audit.targetSubscription", Text (redact subscription));
     ("audit.revokedCount", Number (Z.of_nat count))].

(** The subscription name to revoke under, and the audit record; or a refusal. *)
Definition authorize_bulk (identity : option VerifiedIdentity) (user : UserContext)
    (username subscription : string) : Res Early (string * option delegatedAdminAuditEvent) :=
  let needsAdmin := negb (String.eqb subscription "")
    || (negb (String.eqb username "") && negb (String.eqb username (Identity.Username user))) in
  if negb needsAdmin then Ok (subscription, None) else
  let event outcome reason id scope target :=
    audit_event "api-key-bulk-revoke" outcome reason user id scope [] "" username target in
  delegated <- match identity with
               | Some id =>
                   if String.eqb subscription "" then Ok (None, None) else
                   match resolveSubscriptionAdmin identity subscription user with
                   | Err _ => Err ([Audit (event "error" "resolution_error" id None subscription)], auth_failed 500)
                   | Ok (Some scope, _) =>
                       Ok (Some (sc_Subscription scope),
                           Some (event "allowed" "" id (Some scope) (sc_Subscription scope)))
                   | Ok (None, _) =>
                       Ok (None, Some (event "denied" "subscription_admin_denied" id None subscription))
                   end
               | None => Ok (None, None)
               end ;;
  let '(canonical, audit) := delegated in
  match canonical with
  | Some name => Ok (name, audit)
  | None =>
      match adminChecker user with
      | Err _ => Err (emitDelegatedAdminAuditResult audit "error" "admin_status_error", auth_failed 500)
      | Ok false =>
          Err (emitDelegatedAdminAudit audit,
               Respond 403 (ErrorText "Access denied: admin privileges required for this bulk revoke operation"))
      | Ok true =>
          if String.eqb subscription "" then Ok (subscription, audit) else
          match canonicalizeSubscription subscription with
          | Err _ => Err (emitDelegatedAdminAuditResult audit "error" "subscription_canonicalization_error",
                          auth_failed 500)
          | Ok (_, Some (_, message)) =>
              Err (emitDelegatedAdminAuditResult audit "error" "subscription_canonicalization_failed",
                   Respond 400 (ErrorText message))
          | Ok (name, None) =>
              Ok (name, fallback "platform_admin_fallback" "platform-admin-fallback" name <$> audit)
          end
      end
  end.

Definition BulkRevokeAPIKeys (env : Env) (cred : Credentials) (body : Res string BulkRevokeRequest)
    (user : UserValue) (identity : Identity.CtxIdentity) (w : W) : Reply W :=
  managing cred w (
  match body with
  | Err e => error w 400 e
  | Ok req =>
      let username := trim_space (br_Username req) in
      let subscription := trim_space (br_Subscription req) in
      if String.eqb username "" && String.eqb subscription ""
      then error w 400 "at least one of username or subscription is required" else
      with_user user w (λ user, with_identity identity w (λ identity,
      match authorize_bulk identity user username subscription with
      | Err (records, response) => (w, records, response)
      | Ok (subscription, audit) =>
          let '(w, result) :=
            KeyService.BulkRevokeAPIKeys env username subscription (Identity.Tenant user) (br_DryRun req) w in
          let scopeDesc := bulkRevokeScopeDescription username subscription in
          match result with
          | Err _ =>
              (w, emitDelegatedAdminAuditResult audit "error" "request_failed",
               Respond 500 (ErrorText (if br_DryRun req then "Failed to perform dry-run"
                                       else "Failed to revoke API keys")))
          | Ok count =>
              if br_DryRun req then
                (w, emitDelegatedAdminAuditResult (dry_run <$> audit) "allowed" "",
                 Respond 200 (BulkRevoked count
                   ("Dry run: " +:+ format_int (Z.of_nat count) +:+ " active key(s) would be revoked for " +:+ scopeDesc)
                   true))
              else
                (w, emitBulkRevokeAudit user username subscription count :: emitDelegatedAdminAudit audit,
                 Respond 200 (BulkRevoked count
                   ("Successfully revoked " +:+ format_int (Z.of_nat count) +:+ " active API key(s) for " +:+ scopeDesc)
                   false))
          end
      end))
  end).

End Handler.
End KeyHandler.
