(* ===== verification/KeyHandlerFacts.v ===== *)
(** * KeyHandlerFacts: who may read and revoke which keys

    The theorems about the handlers of [KeyHandler].  What they need of a
    store is the class [KeyReads]; [postgres_reads] shows that the PostgreSQL
    store meets it, with or without a replica and whatever fails. *)

From stdpp Require Import relations.
From S2P Require Import Prelude GoStrings KeyGen KeyTable KeyStore KeyStoreFacts KeyStoreSpecs Unstructured.
From S2P Require Import Subscription Selector KeyService KeyServiceFacts Identity AuthPolicy AdminResolver Redaction KeyHandler.
From Stdlib Require String.
Local Open Scope string_scope.

Module KeyHandlerFacts.
Import KeyTable KeyStore KeyStoreFacts KeyStoreSpecs KeyService KeyServiceFacts AdminResolver KeyHandler.

(** ** What a read may return *)

(** The filters a returned key satisfies. *)
Record in_filters (username : string) (f : SearchFilters) (k : ApiKey) : Prop := {
  if_user : username ≠ "" → Username k = username;
  if_subscription : ∀ x, f_Subscription f = Some x → trim_space x ≠ "" → k_Subscription k = trim_space x;
  if_names : SubscriptionNames f ≠ [] → k_Subscription k ∈ map trim_space (SubscriptionNames f);
}.

Class KeyReads (W : Type) `{ST : MetadataStore W} (tenant : string) := {
  kr_get : ∀ env id w w' k, st_Get env id w = (w', Ok k) → ID k = id ∧ Tenant k = tenant;
  kr_search : ∀ env u f sort p w w' res k, st_Search env u f sort p w = (w', Ok res) → k ∈ Keys res →
    Tenant k = tenant ∧ in_filters u f k;
}.

Section Postgres.
Context `{GR : GoRuntime} `{CL : Collation}.

Lemma search_where_key s now u f r :
  search_where s now u f r = true → Tenant (get_key now r) = tenantName s ∧ in_filters u f (get_key now r).
Proof.
  unfold search_where, subscription_where. rewrite !andb_true_iff, !orb_true_iff.
  intros [[[[[[Ht _] _] Hu] _] [Hs Hn]] _]. apply String.eqb_eq in Ht. split; [done|]. split; cbn.
  - intros Hne. destruct Hu as [Hu|Hu]; apply String.eqb_eq in Hu; done.
  - intros x Hx Hne. rewrite Hx in Hs. destruct Hs as [Hs|Hs]; apply String.eqb_eq in Hs; done.
  - intros Hne. destruct Hn as [Hn|Hn]; [by destruct (SubscriptionNames f)|]. by apply bool_decide_eq_true in Hn.
Qed.

Lemma take_elem {A} n (l : list A) x : x ∈ take n l → x ∈ l.
Proof. intros Hx. rewrite <- (take_drop n l). apply elem_of_app. by left. Qed.

Lemma page_elem p (l : list Row) project k :
  k ∈ Keys (paginate p (map project (fetch p l))) → ∃ r, r ∈ l ∧ k = project r.
Proof.
  intros H. assert (Hk : k ∈ map project (fetch p l)).
  { unfold paginate in H. cbn [Keys] in H. destruct (_ >? _)%Z; [|done]. by apply take_elem in H. }
  apply list_elem_of_fmap in Hk as (r & -> & Hr). exists r. split; [|done].
  apply take_elem in Hr. rewrite <- (take_drop (Z.to_nat (Offset p)) l). apply elem_of_app. by right.
Qed.

Lemma query_row_ok s env w p where_ r :
  query_row s env w p where_ = Ok (Some r) → where_ r = true.
Proof.
  unfold query_row. destruct (pool_fault env p) as [[] [] []]; try done. intros [= H].
  assert (Hr : r ∈ select_where where_ (pool_table s w p)).
  { destruct (select_where _ _) as [|x l]; [done|]. cbn in H. injection H as ->. apply list_elem_of_here. }
  by apply select_where_elem in Hr as [_ ?].
Qed.

#[export] Instance postgres_reads s : KeyReads World (ST:=postgres_store s) (tenantName s).
Proof.
  split.
  - intros env id w w' k. cbn [st_Get postgres_store]. unfold Get. intros H.
    assert (Hk : ∃ p w0 r, query_row s env w0 p (id_where s id) = Ok (Some r) ∧ k = get_key (db_now env) r).
    { set (w1 := recordQuery _ _ _) in H. destruct (query_row s env w1 ReadPool _) as [[r|]|e] eqn:E.
      - injection H as _ <-. eauto.
      - done.
      - destruct (negb (hasReadReplica s) || ctx_done env); [done|].
        set (w2 := recordQuery _ _ _) in H. destruct (query_row s env w2 WritePool _) as [[r|]|] eqn:E2; [|done..].
        injection H as _ <-. eauto. }
    destruct Hk as (p & w0 & r & Hr%query_row_ok & ->). unfold id_where in Hr.
    apply andb_true_iff in Hr as [Hi%String.eqb_eq Ht%String.eqb_eq]. done.
  - intros env u f sort p w w' res k. cbn [st_Search postgres_store]. unfold KeyStore.Search. intros H Hk.
    destruct (bad_page p); [done|].
    apply (f_equal snd), query_rows_ok in H as (t & w0 & _ & H); [|intros; apply rtc_refl].
    cbn [collect_page snd] in H. injection H as <-.
    apply page_elem in Hk as (r & Hr & ->). unfold search_rows in Hr. rewrite sort_slice_perm in Hr.
    apply select_where_elem in Hr as [_ Hr]. by apply search_where_key with (u := u) in Hr.
Qed.

End Postgres.

Section Handlers.
Set Default Proof Using "Type".
Context `{GR : GoRuntime} {W : Type} `{ST : MetadataStore W} (tenant : string) `{KR : !KeyReads W tenant}.
Variable adminChecker : UserContext → Res string bool.
Variable resolver : SubscriptionAdminResolver.

(** [scope] is a scope the resolver gives the identity, within the caller's tenant. *)
Definition delegated (user : UserContext) (identity : option VerifiedIdentity) (scope : AdminScope) : Prop :=
  ∃ id, identity = Some id ∧ sc_Tenant scope = Identity.Tenant user ∧ sc_Subscription scope ≠ "" ∧
    ((∃ requested, ra_ResolveSubscriptionAdmin resolver id requested = Ok (Some scope)) ∨
     (∃ listed, ra_ResolveSubscriptionAdminScopes resolver id = Ok listed ∧ Some scope ∈ listed)).

Lemma in_scope_spec user scope :
  in_scope user scope = true ↔ sc_Tenant scope = Identity.Tenant user ∧ sc_Subscription scope ≠ "".
Proof.
  unfold in_scope. rewrite andb_true_iff, negb_true_iff, String.eqb_eq.
  by rewrite <- not_true_iff_false, String.eqb_eq.
Qed.

Lemma resolve_scope identity requested user scope adminErr :
  resolveSubscriptionAdmin resolver identity requested user = Ok (Some scope, adminErr) →
  requested ≠ "" ∧ in_scope user scope = true ∧
  ∃ id, identity = Some id ∧ ra_ResolveSubscriptionAdmin resolver id requested = Ok (Some scope).
Proof.
  unfold resolveSubscriptionAdmin. destruct identity as [id|]; [|done].
  destruct (String.eqb_spec requested ""); [done|].
  destruct (ra_ResolveSubscriptionAdmin resolver id requested) as [[sc|]|[]] eqn:E; try done.
  destruct (in_scope user sc) eqn:Es; [|done]. intros [= -> <-]. eauto.
Qed.

Lemma resolve_delegated identity requested user scope adminErr :
  resolveSubscriptionAdmin resolver identity requested user = Ok (Some scope, adminErr) →
  delegated user identity scope.
Proof.
  intros (_ & Hs & id & -> & Hr)%resolve_scope. apply in_scope_spec in Hs as [? ?]. exists id.
  split_and!; [done..|]. left. by exists requested.
Qed.

(** ** One key *)

(** The delegated path: the identity administers the key's own subscription. *)
Definition delegated_key (user : UserContext) (identity : option VerifiedIdentity) (key : ApiKey) : Prop :=
  ∃ id scope, identity = Some id ∧ k_Subscription key ≠ ""
    ∧ ra_ResolveSubscriptionAdmin resolver id (k_Subscription key) = Ok (Some scope)
    ∧ in_scope user scope = true ∧ sc_Subscription scope = k_Subscription key.
(** The resolver failed without an administration decision. *)
Definition resolution_failed (identity : option VerifiedIdentity) (key : ApiKey) : Prop :=
  ∃ id e, identity = Some id ∧ k_Subscription key ≠ ""
    ∧ ra_ResolveSubscriptionAdmin resolver id (k_Subscription key) = Err e
    ∧ ∀ code message, e ≠ SubscriptionAdminError code message.

(** Who may read or revoke a key. *)
Definition may_access (user : UserContext) (identity : option VerifiedIdentity) (key : ApiKey) : Prop :=
  Identity.Tenant user = Tenant key
  ∧ (Identity.Username user = Username key ∨ delegated_key user identity key
     ∨ (¬ resolution_failed identity key ∧ adminChecker user = Ok true)).

Notation authorized := (isAuthorizedForKey adminChecker resolver).

Lemma authorized_spec user identity key action :
  (authorized user identity key action).2 = Ok true ↔ may_access user identity key.
Proof.
  unfold isAuthorizedForKey, may_access.
  destruct (String.eqb_spec (Identity.Tenant user) (Tenant key)) as [Ht|Ht]; cbn [negb]; [|by split; [|intros []]].
  destruct (String.eqb_spec (Identity.Username user) (Username key)) as [Hu|Hu]; [by split; auto|].
  assert (Hp : ∀ audit, (platform_access adminChecker user key audit).2 = Ok true ↔ adminChecker user = Ok true)
    by (intros audit; unfold platform_access; by destruct (adminChecker user) as [[]|]).
  assert (Hplatform : ∀ audit, ¬ delegated_key user identity key → ¬ resolution_failed identity key →
    (platform_access adminChecker user key audit).2 = Ok true ↔
    Identity.Tenant user = Tenant key
    ∧ (Identity.Username user = Username key ∨ delegated_key user identity key
       ∨ (¬ resolution_failed identity key ∧ adminChecker user = Ok true)))
    by (intros audit; rewrite Hp; tauto).
  destruct identity as [id|]; [|apply Hplatform; [by intros (? & ? & ? & _)|by intros (? & ? & ? & _)]].
  destruct (String.eqb_spec (k_Subscription key) "") as [Hs|Hs];
    [apply Hplatform; [by intros (? & ? & _ & ? & _)|by intros (? & ? & _ & ? & _)]|].
  unfold resolveSubscriptionAdmin. rewrite (proj2 (String.eqb_neq _ _) Hs).
  destruct (ra_ResolveSubscriptionAdmin resolver id (k_Subscription key)) as [[scope|]|e] eqn:E.
  - assert (Hnf : ¬ resolution_failed (Some id) key) by (intros (? & ? & [= <-] & _ & He & _); congruence).
    destruct (in_scope user scope) eqn:Es;
      [destruct (String.eqb_spec (sc_Subscription scope) (k_Subscription key))|].
    + split; [|done]. intros _. split; [done|]. right. left. by exists id, scope.
    + apply Hplatform; [|done]. intros (? & ? & [= <-] & _ & He & _ & ?). congruence.
    + apply Hplatform; [|done]. intros (? & ? & [= <-] & _ & He & Hi & _). congruence.
  - apply Hplatform; [intros (? & ? & [= <-] & _ & He & _)|intros (? & ? & [= <-] & _ & He & _)]; congruence.
  - assert (Hnd : ¬ delegated_key user (Some id) key) by (intros (? & ? & [= <-] & _ & He & _); congruence).
    destruct e as [code message|cause|].
    + apply Hplatform; [done|]. intros (? & ? & [= <-] & _ & He & Hne). apply (Hne code message). congruence.
    + split; [done|]. intros (_ & [?|[?|[Hf _]]]); [done..|]. destruct Hf. by exists id, (AdminLoadFailed cause).
    + split; [done|]. intros (_ & [?|[?|[Hf _]]]); [done..|]. destruct Hf. by exists id, OrganizationNotCanonical.
Qed.

Notation get := (KeyHandler.GetAPIKey adminChecker resolver).
Notation revoke := (KeyHandler.RevokeAPIKey adminChecker resolver).

(** A handler that went past its preamble. *)
Lemma past_preamble {W'} cred user idv (w : W') (k : UserContext → option VerifiedIdentity → W' * list Record_ * Response)
    w' recs resp :
  managing cred w (with_user user w (λ u, with_identity idv w (k u))) = (w', recs, resp) →
  (w' = w ∧ recs = [] ∧ ∀ b, resp ≠ Respond 200 b) ∨
  ∃ u identity, hasAPIKeyCredential cred = false ∧ user = TheUser u ∧ verifiedIdentity idv = Some identity
    ∧ k u identity = (w', recs, resp).
Proof.
  unfold managing, with_user, with_identity, error.
  destruct (hasAPIKeyCredential cred); [intros [= <- <- <-]; by left|].
  destruct user as [| | |u]; [intros [= <- <- <-]; by left..|].
  destruct (verifiedIdentity idv) as [identity|]; [|intros [= <- <- <-]; by left].
  intros H. right. by exists u, identity.
Qed.

Lemma managing_early {W'} cred (b : bool) (w : W') (e k : W' * list Record_ * Response) :
  managing cred w (if b then e else k) = if b then managing cred w e else managing cred w k.
Proof. by destruct b. Qed.

Lemma get_cases env cred id user idv w w' recs resp :
  get env cred id user idv w = (w', recs, resp) →
  (∀ b, resp ≠ Respond 200 b) ∨
  ∃ u identity k, user = TheUser u ∧ verifiedIdentity idv = Some identity
    ∧ st_Get env id w = (w', Ok k) ∧ may_access u identity k ∧ resp = Respond 200 (KeyBody k).
Proof.
  unfold KeyHandler.GetAPIKey. rewrite managing_early. destruct (String.eqb id "").
  { unfold managing, error. destruct (hasAPIKeyCredential cred); intros [= <- <- <-]; by left. }
  intros [(_ & _ & H)|(u & identity & _ & -> & Hi & H)]%past_preamble; [by left|].
  unfold KeyService.GetAPIKey in H. destruct (st_Get env id w) as [w1 [k|e]] eqn:E.
  - pose proof (authorized_spec u identity k "api-key-get") as Hspec.
    destruct (authorized u identity k "api-key-get") as [audit [[]|]]; injection H as <- <- <-; try by left.
    right. exists u, identity, k. split_and!; try done. by apply Hspec.
  - left. by destruct e; injection H as <- <- <-.
Qed.

Lemma revoke_cases e1 e2 e3 cred id user idv w w' recs resp :
  revoke e1 e2 e3 cred id user idv w = (w', recs, resp) →
  w' = w ∨ w' = (st_Get e1 id w).1 ∨
  ∃ u identity k, user = TheUser u ∧ verifiedIdentity idv = Some identity
    ∧ (st_Get e1 id w).2 = Ok k ∧ may_access u identity k.
Proof.
  unfold KeyHandler.RevokeAPIKey. rewrite managing_early. destruct (String.eqb id "").
  { unfold managing, error. destruct (hasAPIKeyCredential cred); intros [= <- <- <-]; by left. }
  intros [(-> & _ & H)|(u & identity & _ & -> & Hi & H)]%past_preamble; [by left|]. right.
  unfold KeyService.GetAPIKey in H. destruct (st_Get e1 id w) as [w1 [k|e]] eqn:E; cbn [fst snd].
  - pose proof (authorized_spec u identity k "api-key-revoke") as Hspec.
    destruct (authorized u identity k "api-key-revoke") as [audit [[]|]]; [|injection H as <- <- <-; by left..].
    right. exists u, identity, k. split_and!; try done. by apply Hspec.
  - left. by destruct e; injection H as <- <- <-.
Qed.

(** What a caller who may not access a key is told. *)
Lemma refused_response e1 e2 e3 cred id u idv identity w k :
  hasAPIKeyCredential cred = false → id ≠ "" → verifiedIdentity idv = Some identity →
  (st_Get e1 id w).2 = Err ErrKeyNotFound ∨ (st_Get e1 id w).2 = Ok k ∧ ¬ may_access u identity k →
  (get e1 cred id (TheUser u) idv w).2 = key_not_found
  ∧ (revoke e1 e2 e3 cred id (TheUser u) idv w).2 = key_not_found.
Proof.
  intros Hc Hid Hi Hcase. unfold KeyHandler.GetAPIKey, KeyHandler.RevokeAPIKey, managing, with_user, with_identity.
  rewrite Hc, Hi, (proj2 (String.eqb_neq _ _) Hid). unfold KeyService.GetAPIKey.
  destruct (st_Get e1 id w) as [w1 r]. cbn [snd] in Hcase.
  destruct Hcase as [->|[-> Hno]]; [done|].
  pose proof (authorized_spec u identity k "api-key-get") as Hg.
  pose proof (authorized_spec u identity k "api-key-revoke") as Hr.
  destruct (authorized u identity k "api-key-get") as [? [[]|]], (authorized u identity k "api-key-revoke") as [? [[]|]];
    cbn in *; tauto.
Qed.

(** C29 Access to one key.  [GetAPIKey] shows a key only to a caller of the
    key's tenant who owns it, administers the organization of its
    subscription, or is a platform administrator (asked only when the
    organization check did not fail); [RevokeAPIKey] goes beyond the lookup
    only for such a caller; and a caller without access cannot tell the key
    from one that does not exist. *)
Theorem one_key_access :
  (∀ env cred id user idv w w' recs b,
     get env cred id user idv w = (w', recs, Respond 200 b) →
     ∃ u identity k, user = TheUser u ∧ verifiedIdentity idv = Some identity ∧ b = KeyBody k
       ∧ ID k = id ∧ Tenant k = tenant ∧ may_access u identity k)
  ∧ (∀ e1 e2 e3 cred id user idv w w' recs resp,
     revoke e1 e2 e3 cred id user idv w = (w', recs, resp) → w' ≠ w → w' ≠ (st_Get e1 id w).1 →
     ∃ u identity k, user = TheUser u ∧ verifiedIdentity idv = Some identity
       ∧ (st_Get e1 id w).2 = Ok k ∧ may_access u identity k)
  ∧ (∀ e1 e2 e3 cred id u idv identity w w0 k,
     hasAPIKeyCredential cred = false → id ≠ "" → verifiedIdentity idv = Some identity →
     (st_Get e1 id w).2 = Ok k → ¬ may_access u identity k → (st_Get e1 id w0).2 = Err ErrKeyNotFound →
     (get e1 cred id (TheUser u) idv w).2 = (get e1 cred id (TheUser u) idv w0).2
     ∧ (revoke e1 e2 e3 cred id (TheUser u) idv w).2 = (revoke e1 e2 e3 cred id (TheUser u) idv w0).2).
Proof using KR.
  split_and!.
  - intros env cred id user idv w w' recs b [H|(u & identity & k & -> & Hi & Hg & Hm & [= ->])]%get_cases;
      [by destruct (H b)|]. exists u, identity, k. destruct (kr_get _ _ _ _ _ Hg). by split_and!.
  - intros e1 e2 e3 cred id user idv w w' recs resp H Hw Hg.
    destruct (revoke_cases _ _ _ _ _ _ _ _ _ _ _ H) as [?|[?|?]]; done.
  - intros e1 e2 e3 cred id u idv identity w w0 k Hc Hid Hi Hg Hno Hg0.
    destruct (refused_response e1 e2 e3 cred id u idv identity w k) as [-> ->]; auto.
    destruct (refused_response e1 e2 e3 cred id u idv identity w0 k) as [-> ->]; auto.
Qed.

(** ** Search *)

Lemma add_new_elem l x y : y ∈ add_new l x ↔ y ∈ l ∨ y = x.
Proof.
  unfold add_new. case_bool_decide as Hx.
  { split; [by left|]. by intros [?| ->]. }
  by rewrite elem_of_app, list_elem_of_singleton.
Qed.

Lemma fold_add_new_elem l acc y : y ∈ fold_left add_new l acc ↔ y ∈ acc ∨ y ∈ l.
Proof.
  revert acc. induction l as [|x l IH]; intros acc; cbn [fold_left].
  { split; [by left|]. by intros [?|?%not_elem_of_nil]. }
  rewrite IH, add_new_elem, elem_of_cons. tauto.
Qed.

Lemma resolved_scopes identity user scopes adminErr scope :
  resolveSubscriptionAdminScopes resolver identity user = Ok (scopes, adminErr) → scope ∈ scopes →
  delegated user (Some identity) scope.
Proof.
  unfold resolveSubscriptionAdminScopes. intros (listed & Hl & H)%res_bind_ok Hin.
  destruct (mapM _ listed) as [scopes'|] eqn:E; injection H as <- <-; [|by apply not_elem_of_nil in Hin].
  apply mapM_Some in E. destruct (proj1 (list_elem_of_lookup _ _) Hin) as [i Hi].
  destruct (Forall2_lookup_r _ _ _ _ _ E Hi) as ([sc|] & Hli & Hsc); cbn in Hsc; [|done].
  destruct (in_scope user sc) eqn:Es; [|done]. injection Hsc as ->. apply in_scope_spec in Es as [Ht Hne].
  exists identity. split_and!; try done. right. exists listed. split; [done|]. by apply list_elem_of_lookup_2 in Hli.
Qed.

(** The filters of a delegated search name administered subscriptions only. *)
Definition delegated_filters (user : UserContext) (identity : option VerifiedIdentity) (a : SearchAuth) : Prop :=
  (∃ scope, delegated user identity scope ∧ searchSubscription a = Some (sc_Subscription scope)) ∨
  (searchNames a ≠ [] ∧ ∀ name, name ∈ searchNames a → ∃ scope, delegated user identity scope
     ∧ name = sc_Subscription scope).

(** What an authorization has established. *)
Record auth_ok (user : UserContext) (identity : option VerifiedIdentity) (a : SearchAuth) : Prop := {
  ao_admin : platformAdmin a = true → adminChecker user = Ok true;
  ao_delegated : delegatedAdmin a = true → delegated_filters user identity a
    ∧ ∃ e, searchAudit a = Some e ∧ Outcome e = "allowed";
}.

Lemma explicit_ok identity user target requested a :
  explicit_auth adminChecker resolver identity user target requested = Ok a → auth_ok user identity a.
Proof.
  unfold explicit_auth. intros (a0 & H0 & H)%res_bind_ok.
  assert (Hd : delegatedAdmin a0 = true → platformAdmin a0 = false ∧ delegated_filters user identity a0
    ∧ ∃ e, searchAudit a0 = Some e ∧ Outcome e = "allowed").
  { destruct identity as [id|]; [|by injection H0 as <-].
    destruct (String.eqb requested ""); [by injection H0 as <-|]. apply map_err_ok in H0.
    unfold applyExplicitSubscriptionAdmin in H0. apply res_bind_ok in H0 as ([[scope|] adminErr] & Hr & [= <-]); [|done].
    intros _. split; [done|]. split; [left|by eexists]. exists scope. split; [by eapply resolve_delegated|done]. }
  destruct (delegatedAdmin a0) eqn:Ed.
  - injection H as <-. destruct Hd as (Hp & Hf & He); [done|]. split; [congruence|auto].
  - destruct (adminChecker user) as [b|] eqn:Ea; [|done]. injection H as <-.
    split; cbn; [intros ->; done|congruence].
Qed.

Lemma union_ok identity user target requested a a' :
  auth_ok user identity a → union_auth resolver identity user target requested a = Ok a' → auth_ok user identity a'.
Proof.
  intros Ha. unfold union_auth. destruct identity as [id|]; [|by intros [= <-]].
  destruct (_ || _); [by intros [= <-]|].
  destruct (applySubscriptionAdminUnion resolver id user target) as [[u|[]]|] eqn:E; try done. intros [= <-].
  unfold applySubscriptionAdminUnion in E. apply res_bind_ok in E as ([scopes adminErr] & Hr & E).
  destruct scopes as [|sc scopes]; destruct adminErr; simplify_eq/=; (split; cbn; [done|]); [done|].
  intros _. split; [right|by eexists].
  assert (Hel : ∀ name, name ∈ fold_left add_new (map sc_Subscription scopes) [sc_Subscription sc] →
    ∃ scope, delegated user (Some id) scope ∧ name = sc_Subscription scope).
  { intros name [->%list_elem_of_singleton|(scope & -> & Hin)%list_elem_of_fmap]%fold_add_new_elem.
    - exists sc. split; [|done]. eapply resolved_scopes; [exact Hr|apply list_elem_of_here].
    - exists scope. split; [|done]. eapply resolved_scopes; [exact Hr|by apply list_elem_of_further]. }
  cbn [searchNames]. split; [|exact Hel].
  intros Hnil. assert (Hin : sc_Subscription sc ∈ fold_left add_new (map sc_Subscription scopes) [sc_Subscription sc])
    by (apply fold_add_new_elem; left; apply list_elem_of_here).
  change (add_new [] (sc_Subscription sc)) with [sc_Subscription sc] in Hnil. rewrite Hnil in Hin.
  by apply not_elem_of_nil in Hin.
Qed.

Lemma scope_ok user identity target requested a target' a' :
  auth_ok user identity a → scope_auth resolver user target requested a = Ok (target', a') →
  auth_ok user identity a'
  ∧ (delegatedAdmin a' = false → platformAdmin a' = false → target' = Identity.Username user).
Proof.
  intros Ha. unfold scope_auth, applySelfServiceSearchScope.
  destruct (delegatedAdmin a || platformAdmin a) eqn:Ed.
  - destruct (delegatedAdmin a || String.eqb requested "") eqn:Er.
    + intros [= <- <-]. split; [done|]. intros H1 H2. by rewrite H1, H2 in Ed.
    + apply orb_false_iff in Er as [Hd _].
      destruct (canonicalizeSubscription resolver requested) as [[name [e|]]|]; [by destruct (platformAdmin a)| |done].
      intros [= <- <-]. rewrite Hd in Ed. cbn in Ed. split; [|cbn; congruence].
      split; cbn; [apply Ha|congruence].
  - apply orb_false_iff in Ed as [Hd Hp]. destruct (negb _ && negb _); [done|]. rewrite Hd. cbn [orb].
    destruct (String.eqb requested ""); [by intros [= <- <-]|].
    destruct (canonicalizeSubscription resolver requested) as [[name [e|]]|]; [by destruct (platformAdmin a)| |done].
    intros [= <- <-]. split; [|done]. split; cbn; congruence.
Qed.

Lemma authorize_search_ok identity user target requested target' a :
  authorize_search adminChecker resolver identity user target requested = Ok (target', a) →
  auth_ok user identity a
  ∧ (delegatedAdmin a = false → platformAdmin a = false → target' = Identity.Username user).
Proof.
  unfold authorize_search. intros (a1 & H1 & H)%res_bind_ok. apply res_bind_ok in H as (a2 & H2 & H).
  eapply scope_ok; [|exact H]. eapply union_ok; [|exact H2]. by eapply explicit_ok.
Qed.

(** An early reply with status 200 is the empty list. *)
Lemma search_refused identity u target requested recs b :
  authorize_search adminChecker resolver identity u target requested = Err (recs, Respond 200 b) →
  b = KeyList [] false.
Proof.
  unfold authorize_search. intros Ea.
  destruct (explicit_auth _ _ _ _ _ _) as [a1|e1] eqn:E1; cbn [res_bind] in Ea.
  - destruct (union_auth _ _ _ _ _ _) as [a2|e2] eqn:E2; cbn [res_bind] in Ea.
    + unfold scope_auth in Ea. destruct (applySelfServiceSearchScope _ _ _ _); [|done].
      destruct (_ || _); [done|].
      destruct (canonicalizeSubscription _ _) as [[name [e|]]|]; [|done..].
      destruct (platformAdmin a2); [done|]. by injection Ea.
    + injection Ea as ->. unfold union_auth in E2. destruct identity; [|done]. destruct (_ || _); [done|].
      by destruct (applySubscriptionAdminUnion _ _ _ _) as [[|[]]|].
  - injection Ea as ->. unfold explicit_auth in E1.
    destruct identity as [id|]; [destruct (String.eqb requested "")|]; cbn [res_bind delegatedAdmin no_delegation] in E1.
    + by destruct (adminChecker u).
    + destruct (applyExplicitSubscriptionAdmin _ _ _ _ _) as [a1|]; cbn [map_err res_bind] in E1; [|done].
      destruct (delegatedAdmin a1); [done|]. by destruct (adminChecker u).
    + by destruct (adminChecker u).
Qed.

(** A successful search: either nothing was searched, or these are the results
    of the store under an authorization. *)
Lemma search_cases env cred body user idv w w' recs b :
  KeyHandler.SearchAPIKeys adminChecker resolver env cred body user idv w = (w', recs, Respond 200 b) →
  b = KeyList [] false ∨
  ∃ u identity target target' requested a filters sort page w1 res, user = TheUser u ∧ verifiedIdentity idv = Some identity
    ∧ authorize_search adminChecker resolver identity u target requested = Ok (target', a)
    ∧ st_Search env target' (store_filters filters (searchSubscription a) (searchNames a)) sort page w = (w1, Ok res)
    ∧ b = KeyList (Keys res) (HasMore res) ∧ recs = emitDelegatedAdminAudit (searchAudit a).
Proof.
  unfold KeyHandler.SearchAPIKeys, managing, error, with_identity.
  destruct (hasAPIKeyCredential cred); [done|]. destruct user as [| | |u]; [intros [= _ _ <-]; by left| | |];
    (destruct body as [req|]; [|done]); [done|..]; (destruct (verifiedIdentity idv) as [identity|]; [|done]);
    destruct (applySearchAPIKeysDefaults req) as [[filters sort] page];
    (destruct (validateSearchAPIKeysRequest filters sort page) as [[sort' page']|]; [|done]); [done|].
  match goal with |- context [authorize_search _ _ _ _ ?x ?y] => set (target := x); set (requested := y) end.
  destruct (authorize_search adminChecker resolver identity u target requested) as [[target' a]|[recs0 resp0]] eqn:Ea.
  - unfold KeyService.Search. destruct (st_Search _ _ _ _ _ w) as [w1 [res|]] eqn:Es; [|done].
    intros [= <- <- <-]. right. by exists u, identity, target, target', requested, a, filters, sort', page', w1, res.
  - intros [= <- <- ->]. left. by eapply search_refused.
Qed.

(** C30 A search shows a caller only keys of the tenant, and of those only its
    own, unless it is a platform administrator or a delegated one; a delegated
    administrator sees only keys of subscriptions that the resolver says it
    administers, and such a search leaves an audit record.  Without a user, or
    when a caller without administration names a subscription that does not
    resolve, the answer is the empty list. *)
Theorem search_confined env cred body user idv w w' recs b :
  (∀ u identity scope, delegated u identity scope → trim_space (sc_Subscription scope) = sc_Subscription scope) →
  KeyHandler.SearchAPIKeys adminChecker resolver env cred body user idv w = (w', recs, Respond 200 b) →
  ∃ data more, b = KeyList data more ∧ (data = [] ∨
    ∃ u identity, user = TheUser u ∧ verifiedIdentity idv = Some identity ∧
      (Identity.Username u ≠ "" → ∀ k, k ∈ data → Tenant k = tenant ∧
        (Username k = Identity.Username u ∨ adminChecker u = Ok true ∨
         ∃ scope e, delegated u identity scope ∧ k_Subscription k = sc_Subscription scope
           ∧ Audit e ∈ recs ∧ Outcome e = "allowed"))).
Proof using KR.
  intros Htrim [->|(u & identity & target & target' & requested & a & filters & sort & page & w1 & res & -> & Hi & Ha
    & Hs & -> & ->)]%search_cases; [by eexists _, _; split; [done|left]|].
  exists (Keys res), (HasMore res). split; [done|]. right. exists u, identity. split; [done|]. split; [done|].
  intros Hu k Hk. destruct (kr_search _ _ _ _ _ _ _ _ _ Hs Hk) as [Ht [Hkey Hsub Hnames]]. split; [done|].
  apply authorize_search_ok in Ha as [[Hadm Hdel] Hself].
  destruct (delegatedAdmin a) eqn:Ed.
  - right. right. destruct Hdel as (Hf & e & He & Ho); [done|]. rewrite He.
    destruct Hf as [(scope & Hd & Hsc)|[Hne Hall]].
    + exists scope, e. pose proof Hd as (_ & _ & _ & Hn & _). split_and!; [done| |apply list_elem_of_here|done].
      rewrite (Hsub _ Hsc); by rewrite (Htrim _ _ _ Hd).
    + destruct (proj1 (list_elem_of_fmap _ _ _) (Hnames Hne)) as (name & Hk' & Hin).
      destruct (Hall name Hin) as (scope & Hd & ->). exists scope, e.
      split_and!; [done| |apply list_elem_of_here|done]. by rewrite Hk', (Htrim _ _ _ Hd).
  - destruct (platformAdmin a); [right; left; auto|]. left. rewrite Hself in Hkey by done. auto.
Qed.

(** ** Bulk revocation *)

Lemma authorize_bulk_ok identity user username subscription subscription' audit :
  authorize_bulk adminChecker resolver identity user username subscription = Ok (subscription', audit) →
  (subscription = "" ∧ subscription' = "" ∧ (username = "" ∨ username = Identity.Username user))
  ∨ adminChecker user = Ok true
  ∨ ∃ scope e, delegated user identity scope ∧ subscription' = sc_Subscription scope ∧ audit = Some e
      ∧ Scope e = Some scope.
Proof.
  unfold authorize_bulk. destruct (negb (negb (String.eqb subscription "") || _)) eqn:En.
  { intros [= <- <-]. apply negb_true_iff, orb_false_iff in En as [Hs Hu].
    apply negb_false_iff, String.eqb_eq in Hs. left. split_and!; [done..|].
    destruct (String.eqb_spec username ""); [by left|right]. cbn in Hu. by apply negb_false_iff, String.eqb_eq in Hu. }
  intros ([canonical audit0] & Hd & H)%res_bind_ok.
  destruct canonical as [name|].
  - injection H as <- <-. right. right. destruct identity as [id|]; [|done].
    destruct (String.eqb subscription ""); [done|].
    destruct (resolveSubscriptionAdmin resolver (Some id) subscription user) as [[[scope|] adminErr]|] eqn:E; [|done..].
    injection Hd as <- <-. exists scope. eexists. split; [by eapply resolve_delegated|]. by split_and!.
  - right. left. by destruct (adminChecker user) as [[]|].
Qed.

End Handlers.

Section PostgresBulk.
Context `{GR : GoRuntime} `{CL : Collation}.
Variable redact : string → string.
Variable adminChecker : UserContext → Res string bool.
Variable resolver : SubscriptionAdminResolver.
Variable s : PostgresStore.

(** A row that bulk revocation changed. *)
Lemma bulk_changed env username subscription tenant dry w id r :
  primary w !! id = Some r → primary (BulkRevoke s env username subscription tenant dry w).1 !! id ≠ Some r →
  dry = false ∧ tenant = tenantName s ∧ bulkRevokeWhereClause s (db_now env) username subscription r = true
  ∧ primary (BulkRevoke s env username subscription tenant dry w).1 !! id = Some (set_status StatusRevoked r).
Proof.
  intros Hr. unfold BulkRevoke. destruct (_ && _); [done|].
  destruct (String.eqb_spec tenant (tenantName s)) as [->|]; cbn [negb]; [|done].
  destruct dry; [done|]. unfold exec_write, updating. set (p := bulkRevokeWhereClause _ _ _ _).
  assert (Hu : update_where p (set_status StatusRevoked) (primary w) !! id
    = Some (if p r then set_status StatusRevoked r else r)) by (unfold update_where; by rewrite lookup_fmap, Hr).
  destruct (write_fault env); cbn [fst primary with_primary recordQuery]; [|done|];
    rewrite Hu; destruct (p r); done.
Qed.

Notation bulk := (KeyHandler.BulkRevokeAPIKeys (ST:=postgres_store s) redact adminChecker resolver).

(** Bulk revocation is confined.  A stored key that one request changes is
    an active key of the caller's tenant, it becomes revoked, and the request
    was no dry run and carried no API key; the caller owns the key, or is a
    platform administrator, or administers the organization of the key's
    subscription, and then an audit record names that scope. *)
Theorem bulk_revoke_confined env cred req user idv w w' recs resp id r :
  bulk env cred (Ok req) user idv w = (w', recs, resp) →
  primary w !! id = Some r → primary w' !! id ≠ Some r →
  hasAPIKeyCredential cred = false ∧ br_DryRun req = false
  ∧ primary w' !! id = Some (set_status StatusRevoked r) ∧ r_status r = StatusActive
  ∧ ∃ u identity, user = TheUser u ∧ verifiedIdentity idv = Some identity
    ∧ r_tenant r = Identity.Tenant u
    ∧ (r_username r = Identity.Username u ∨ adminChecker u = Ok true ∨
       ∃ scope e, delegated resolver u identity scope ∧ r_subscription r = sc_Subscription scope
         ∧ Audit e ∈ recs ∧ Scope e = Some scope).
Proof.
  intros H Hr Hchg. unfold KeyHandler.BulkRevokeAPIKeys, managing, with_identity, error in H.
  destruct (hasAPIKeyCredential cred); [by simplify_eq|].
  set (username := trim_space (br_Username req)) in H. set (subscription := trim_space (br_Subscription req)) in H.
  destruct (String.eqb username "" && String.eqb subscription "") eqn:Ene; [by simplify_eq|].
  destruct user as [| | |u]; cbn [with_user] in H; unfold error in H; [by simplify_eq..|].
  destruct (verifiedIdentity idv) as [identity|] eqn:Hi; [|by simplify_eq].
  destruct (authorize_bulk _ _ _ _ _ _) as [[subscription' audit]|[]] eqn:Ea; [|by simplify_eq].
  unfold KeyService.BulkRevokeAPIKeys, store_err in H.
  destruct (String.eqb username "" && String.eqb subscription' "") eqn:Ene'.
  { cbn in H. by simplify_eq. }
  cbn [st_BulkRevoke postgres_store fst snd] in H.
  pose proof (bulk_changed env username subscription' (Identity.Tenant u) (br_DryRun req) w id r Hr) as Hb.
  destruct (BulkRevoke s env username subscription' (Identity.Tenant u) (br_DryRun req) w) as [w1 res] eqn:Eb.
  cbn [fst snd] in H, Hb.
  assert (w' = w1) as -> by (destruct (map_err StoreFailed res), (br_DryRun req); by simplify_eq).
  destruct (Hb Hchg) as (Hdry & Ht & Hw & Hnew). rewrite Hdry in *.
  split; [done|]. split; [done|]. split; [done|].
  unfold bulkRevokeWhereClause in Hw. rewrite !andb_true_iff, !orb_true_iff, !String.eqb_eq in Hw.
  destruct Hw as [[[[[Hrt Ha] _] _] Hun] Hsub]. split; [by destruct (r_status r)|].
  exists u, identity. split; [done|]. split; [done|]. split; [congruence|].
  apply authorize_bulk_ok in Ea as [(Hs & -> & Hself)|[?|(scope & e & Hd & -> & -> & Hsc)]];
    [left|right; by left|].
  - rewrite Hs in Ene. destruct (String.eqb_spec username "") as [|Hne]; [done|].
    destruct Hself as [?|Hself]; [done|]. destruct Hun as [?|Hun]; [done|]. congruence.
  - right. right. exists scope.
    assert (Hrs : r_subscription r = sc_Subscription scope)
      by (destruct Hd as (_ & _ & _ & Hne & _); by destruct Hsub).
    destruct (map_err StoreFailed res); injection H as <- _.
    + exists e. split_and!; [done..|apply list_elem_of_further, list_elem_of_here|done].
    + exists (with_result "error" "request_failed" e). split_and!; [done..|apply list_elem_of_here|done].
Qed.

End PostgresBulk.
End KeyHandlerFacts.
