(* ===== verification/Kube.v ===== *)
(** * Kube: objects of the cluster and programs that call the API server

    What the controllers of [maas-controller] share: the objects they read and
    write, the calls of the [client.Client] they are given, and the finite
    trees of calls ([Prog]) their reconcilers are.  The API server itself is
    not modelled: [safe] quantifies over every reply it may give, and [run]
    takes it as an argument. *)

From S2P Require Import Prelude GoStrings Unstructured RateLimitId RateTier.
From Stdlib Require String.
Local Open Scope string_scope.

Module Kube.

(** ** Object metadata *)

Record OwnerReference := {
  or_APIVersion : string; or_Kind : string; or_Name : string; or_UID : string; or_Controller : option bool;
}.

(** A map that is nil and an empty one are not distinguished. *)
Record ObjectMeta := {
  Name : string; Namespace : string; UID : string; ResourceVersion : string; Generation : Z;
  Labels : gmap string string; Annotations : gmap string string; Finalizers : list string;
  CreationTimestamp : option Z; DeletionTimestamp : option Z; OwnerReferences : list OwnerReference;
}.
Notation Key := (string * string)%type.

(** [metav1.Condition] without its transition time, which
    [apimeta.SetStatusCondition] keeps unless the status changes. *)
Record Condition := {
  c_Type : string; c_Status : string; c_Reason : string; c_Message : string; c_ObservedGeneration : Z;
}.
Definition ConditionTrue : string := "True".
Definition ConditionFalse : string := "False".
Definition ConditionUnknown : string := "Unknown".

#[export] Instance owner_reference_eq_dec : EqDecision OwnerReference. Proof. solve_decision. Defined.
#[export] Instance object_meta_eq_dec : EqDecision ObjectMeta. Proof. solve_decision. Defined.
#[export] Instance condition_eq_dec : EqDecision Condition. Proof. solve_decision. Defined.

(** ** Kinds *)

(** A part of an object that is only copied and compared, as its text. *)
Notation Opaque := string.

Record TenantGatewayRef := { gr_Namespace : string; gr_Name : string }.
Notation GuardrailAttachment := RateTier.GuardrailAttachment.
Record TenantExternalOIDCConfig := {
  IssuerURL : string; ClientID : string; Audience : string;
  AccessTokenPurposeClaim : string; AccessTokenPurpose : string; TTL : Z;
}.
Record AITenantSpec := {
  sp_Gateway : option string; sp_OIDC : option TenantExternalOIDCConfig; sp_Guardrails : list GuardrailAttachment;
}.
Record AITenantStatus := {
  Phase : string; TenantNamespace : string; GatewayRef : TenantGatewayRef; Conditions : list Condition;
}.
Record AITenantBody := { Spec : AITenantSpec; Status : AITenantStatus }.
(** [MaasTenantConfig]. *)
Record TenantConfigBody := {
  tc_APIKeys : option Opaque; tc_Telemetry : option Opaque; tc_Guardrails : list GuardrailAttachment;
  tc_Conditions : list Condition;
}.
(** The deprecated [Tenant]. *)
Record LegacyTenantBody := {
  lt_ExternalOIDC : option TenantExternalOIDCConfig; lt_GatewayRef : TenantGatewayRef;
  lt_APIKeys : option Opaque; lt_Telemetry : option Opaque;
}.
(** A Job: the parts of its specification that vary, and its conditions. *)
Record JobBody := {
  job_BackoffLimit : Z; job_ActiveDeadlineSeconds : Z; job_TTLSecondsAfterFinished : Z;
  job_ServiceAccountName : string; job_Image : string; job_Args : string;
  job_Conditions : list (string * string);
}.
Record RouteNamespaces := { From : option string; Selector : option (gmap string string) }.
Record Listener := { li_Name : string; li_Hostname : option string; AllowedNamespaces : option RouteNamespaces }.
(** The listeners of a Gateway and the addresses of its status, each with its
    type. *)
Record GatewayBody := { Listeners : list Listener; gw_Addresses : list (option string * string) }.
Record PolicyRule := {
  APIGroups : list string; Resources : list string; ResourceNames : list string; Verbs : list string;
}.


(** A reference of an HTTPRoute to its parent, and what the parent reports. *)
Record ParentReference := {
  pr_Group : option string; pr_Kind : option string; pr_Namespace : option string; pr_Name : string;
}.
Record RouteParentStatus := { ParentRef : ParentReference; parent_Conditions : list Condition }.
Record HTTPRouteBody := {
  ParentRefs : list ParentReference; Hostnames : list string; Parents : list RouteParentStatus;
}.

(** [MaaSModelRef]. *)
Record MaaSModelStatus := {
  mo_Phase : string; Endpoint : string; HTTPRouteName : string; HTTPRouteNamespace : string;
  HTTPRouteGatewayName : string; HTTPRouteGatewayNamespace : string; HTTPRouteHostnames : list string;
  ResolvedTenantRef : string; ResolvedModelAlias : string; mo_Conditions : list Condition;
}.
Record MaaSModelBody := {
  ModelKind : string; ModelName : string; EndpointOverride : string; TenantRef : string;
  mo_Guardrails : list GuardrailAttachment; mo_Status : MaaSModelStatus;
}.

(** [MaaSSubscription]; [ss_Rest] is the owner, the organization and the token
    metadata, "" when none is set. *)
Record PoolRef := { pool_Group : string; pool_Kind : string; pool_Name : string }.
Record ModelFlowControlStatus := {
  fc_Name : string; fc_Namespace : string; fc_InferencePool : option PoolRef; fc_ObjectiveName : string;
  fc_Ready : bool; fc_Reason : string; fc_Message : string;
}.
Record MaaSSubscriptionSpec := {
  ss_ModelRefs : list RateTier.ModelSubscriptionRef; ss_Priority : Z; ss_InferencePriority : option Z;
  ss_RateLimitIdentity : string; ss_Guardrails : list GuardrailAttachment; ss_Rest : Opaque;
}.
Record MaaSSubscriptionStatus := {
  ss_Phase : string; ss_Conditions : list Condition; ss_StatusIdentity : string;
  ModelRefStatuses : list RateTier.ModelRefStatus; TokenRateLimitStatuses : list RateTier.TRLPStatus;
  FlowControlStatuses : list ModelFlowControlStatus;
}.
Record MaaSSubscriptionBody := { ss_Spec : MaaSSubscriptionSpec; ss_Status : MaaSSubscriptionStatus }.

(** Kuadrant's [TokenRateLimitPolicy], unstructured: a specification of the
    shape the controller generates, or any other. *)
Record TRLPSpec := { TargetRoute : string; Limits : gmap string RateTier.PolicyLimit }.
Inductive PolicySpec := NoSpec | Generated (s : TRLPSpec) | Foreign (text : Opaque).
Record TRLPBody := { tp_Spec : PolicySpec; tp_Status : option JMap }.

(** llm-d's [InferenceObjective]. *)
Record InferenceObjectiveBody := { io_Priority : option Z; io_PoolRef : PoolRef }.

(** KServe's [LLMInferenceService]. *)
Record RoutingGroup := { rg_Name : string; rg_Members : list (bool * Z) }.
Record ObservedPool := { op_Ref : PoolRef; op_Namespace : option string }.
Record RouterStatus := { rs_Group : option RoutingGroup; rs_InferencePool : option ObservedPool }.
(** A URL without user, query or fragment; [Host] holds the port, if any. *)
Record URL := { Scheme : string; Host : string; Path : string }.
Record ServiceAddress := { sa_Name : option string; sa_URL : option URL; sa_Models : list string }.
Record LLMInferenceServiceBody := {
  ll_ModelName : option string; ll_Conditions : list Condition; ll_Router : option RouterStatus;
  ll_Addresses : list ServiceAddress; ll_URL : option URL;
}.

(** [MaaSAuthPolicy]: the models it refers to, the rest of its specification
    ("" when nothing is set) and its status. *)
Record AuthPolicyRefStatus := {
  rf_Name : string; rf_Namespace : string; rf_Ready : bool; rf_Reason : string; rf_Message : string;
  rf_Model : string; rf_ModelNamespace : string;
}.
Record MaaSAuthPolicyStatus := {
  ap_Phase : string; ap_AuthPolicies : list AuthPolicyRefStatus; ap_Conditions : list Condition;
}.
Record MaaSAuthPolicyBody := { ap_ModelRefs : list Key; ap_Rest : Opaque; ap_Status : MaaSAuthPolicyStatus }.

(** Kuadrant's [AuthPolicy], unstructured: its [spec] and [status] maps. *)
Record AuthPolicyBody := { au_Spec : option JMap; au_Status : option JMap }.

(** A slice of the endpoints of a Service: its ports and whether each endpoint
    is ready. *)
Record EndpointSliceBody := { es_Ports : list (option Z); es_Ready : list (option bool) }.

(** [AIGuardrail] of ai-gateway-controller. *)
Record AIGuardrailBody := {
  gd_Checks : list (string * list string); gd_BindingRevision : string; gd_Conditions : list Condition;
}.

(** [ExternalModel] of [inference.opendatahub.io], unstructured: its
    [status.httpRouteName], "" when absent, its [status.gateways] as the
    converter decodes them, empty when it cannot, and its
    [spec.externalProviderRefs]. *)
Record GatewayResult := {
  ga_Name : string; ga_Namespace : string; ga_HTTPRouteRef : option (string * string); ga_Conditions : list Condition;
}.
Record ExternalModelBody := { em_ModelName : option string; em_HTTPRouteName : string; em_Gateways : list GatewayResult;
  em_ProviderRefs : option (list JVal) }.

#[export] Instance gateway_ref_eq_dec : EqDecision TenantGatewayRef. Proof. solve_decision. Defined.
#[export] Instance guardrail_attachment_eq_dec : EqDecision GuardrailAttachment. Proof. solve_decision. Defined.
#[export] Instance oidc_config_eq_dec : EqDecision TenantExternalOIDCConfig. Proof. solve_decision. Defined.
#[export] Instance policy_ref_status_eq_dec : EqDecision AuthPolicyRefStatus. Proof. solve_decision. Defined.
#[export] Instance auth_policy_status_eq_dec : EqDecision MaaSAuthPolicyStatus. Proof. solve_decision. Defined.
#[export] Instance aitenant_spec_eq_dec : EqDecision AITenantSpec. Proof. solve_decision. Defined.
#[export] Instance aitenant_status_eq_dec : EqDecision AITenantStatus. Proof. solve_decision. Defined.
#[export] Instance aitenant_body_eq_dec : EqDecision AITenantBody. Proof. solve_decision. Defined.
#[export] Instance tenant_config_body_eq_dec : EqDecision TenantConfigBody. Proof. solve_decision. Defined.
#[export] Instance legacy_tenant_body_eq_dec : EqDecision LegacyTenantBody. Proof. solve_decision. Defined.
#[export] Instance policy_rule_eq_dec : EqDecision PolicyRule. Proof. solve_decision. Defined.
#[export] Instance job_body_eq_dec : EqDecision JobBody. Proof. solve_decision. Defined.
#[export] Existing Instance RateTier.TokenRate_eq_dec.
#[export] Existing Instance RateTier.PolicyLimit_eq_dec.
#[export] Existing Instance RateTier.Reason_eq_dec.
#[export] Existing Instance RateTier.Phase_eq_dec.
#[export] Instance token_rate_limit_ref_eq_dec : EqDecision RateTier.ModelSubscriptionRef. Proof. solve_decision. Defined.
#[export] Instance model_ref_status_eq_dec : EqDecision RateTier.ModelRefStatus. Proof. solve_decision. Defined.
#[export] Instance trlp_status_eq_dec : EqDecision RateTier.TRLPStatus. Proof. solve_decision. Defined.
#[export] Instance pool_ref_eq_dec : EqDecision PoolRef. Proof. solve_decision. Defined.
#[export] Instance flow_control_status_eq_dec : EqDecision ModelFlowControlStatus. Proof. solve_decision. Defined.
#[export] Instance subscription_spec_eq_dec : EqDecision MaaSSubscriptionSpec. Proof. solve_decision. Defined.
#[export] Instance subscription_status_eq_dec : EqDecision MaaSSubscriptionStatus. Proof. solve_decision. Defined.
#[export] Instance trlp_spec_eq_dec : EqDecision TRLPSpec. Proof. solve_decision. Defined.
#[export] Instance policy_spec_eq_dec : EqDecision PolicySpec. Proof. solve_decision. Defined.
#[export] Instance inference_objective_eq_dec : EqDecision InferenceObjectiveBody. Proof. solve_decision. Defined.
#[export] Instance model_status_eq_dec : EqDecision MaaSModelStatus. Proof. solve_decision. Defined.

Inductive Kind :=
| KAITenant | KTenantConfig | KLegacyTenant | KConfig | KJob | KServiceAccount | KService | KDeployment
| KNamespace | KGateway | KConfigMap | KRole | KRoleBinding | KAuthPolicy
| KSubscription | KModelRef | KTRLP | KHTTPRoute | KInferenceObjective | KLLMInferenceService | KExternalModel
| KMaaSAuthPolicy | KLegacyExternalModel | KEndpointSlice | KAIGuardrail.
#[export] Instance kind_eq_dec : EqDecision Kind. Proof. solve_decision. Defined.

(** What the controllers use of an object beyond its metadata: a Deployment's
    available replicas, a Namespace's phase, a ConfigMap's data. *)
Definition Body (k : Kind) : Type :=
  match k with
  | KAITenant => AITenantBody
  | KTenantConfig => TenantConfigBody
  | KLegacyTenant => LegacyTenantBody
  | KJob => JobBody
  | KDeployment => Z
  | KNamespace => string
  | KGateway => GatewayBody
  | KConfigMap => gmap string string
  | KRole => list PolicyRule
  | KSubscription => MaaSSubscriptionBody
  | KModelRef => MaaSModelBody
  | KTRLP => TRLPBody
  | KHTTPRoute => HTTPRouteBody
  | KInferenceObjective => InferenceObjectiveBody
  | KLLMInferenceService => LLMInferenceServiceBody
  | KExternalModel => ExternalModelBody
  | KMaaSAuthPolicy => MaaSAuthPolicyBody
  | KAuthPolicy => AuthPolicyBody
  | KEndpointSlice => EndpointSliceBody
  | KAIGuardrail => AIGuardrailBody
  | KConfig | KServiceAccount | KService | KRoleBinding | KLegacyExternalModel => unit
  end.

Record Object (B : Type) := { meta : ObjectMeta; body : B }.
Arguments meta {B} o.
Arguments body {B} o.
Arguments Build_Object {B} meta body.
Notation Obj k := (Object (Body k)).
#[export] Instance object_eq_dec {B} `{EqDecision B} : EqDecision (Object B). Proof. solve_decision. Defined.

Notation AITenant := (Object AITenantBody).
Notation MaasTenantConfig := (Object TenantConfigBody).
Notation Job := (Object JobBody).
Notation MaaSSubscription := (Object (Body KSubscription)).
Notation MaaSModelRef := (Object (Body KModelRef)).
Notation HTTPRoute := (Object (Body KHTTPRoute)).
Notation TRLP := (Object (Body KTRLP)).

(** [client.ObjectKeyFromObject]. *)
Definition key_of {B} (o : Object B) : Key := (Namespace (meta o), Name (meta o)).

Definition with_meta {B} (f : ObjectMeta → ObjectMeta) (o : Object B) : Object B :=
  {| meta := f (meta o); body := body o |}.
Definition set_labels (l : gmap string string) (m : ObjectMeta) : ObjectMeta := {|
  Name := Name m; Namespace := Namespace m; UID := UID m; ResourceVersion := ResourceVersion m;
  Generation := Generation m; Labels := l; Annotations := Annotations m; Finalizers := Finalizers m;
  CreationTimestamp := CreationTimestamp m; DeletionTimestamp := DeletionTimestamp m; OwnerReferences := OwnerReferences m |}.
Definition set_annotations (a : gmap string string) (m : ObjectMeta) : ObjectMeta := {|
  Name := Name m; Namespace := Namespace m; UID := UID m; ResourceVersion := ResourceVersion m;
  Generation := Generation m; Labels := Labels m; Annotations := a; Finalizers := Finalizers m;
  CreationTimestamp := CreationTimestamp m; DeletionTimestamp := DeletionTimestamp m; OwnerReferences := OwnerReferences m |}.
Definition set_finalizers (f : list string) (m : ObjectMeta) : ObjectMeta := {|
  Name := Name m; Namespace := Namespace m; UID := UID m; ResourceVersion := ResourceVersion m;
  Generation := Generation m; Labels := Labels m; Annotations := Annotations m; Finalizers := f;
  CreationTimestamp := CreationTimestamp m; DeletionTimestamp := DeletionTimestamp m; OwnerReferences := OwnerReferences m |}.
Definition set_version (v : string) (m : ObjectMeta) : ObjectMeta := {|
  Name := Name m; Namespace := Namespace m; UID := UID m; ResourceVersion := v;
  Generation := Generation m; Labels := Labels m; Annotations := Annotations m; Finalizers := Finalizers m;
  CreationTimestamp := CreationTimestamp m; DeletionTimestamp := DeletionTimestamp m; OwnerReferences := OwnerReferences m |}.
Definition set_owners (r : list OwnerReference) (m : ObjectMeta) : ObjectMeta := {|
  Name := Name m; Namespace := Namespace m; UID := UID m; ResourceVersion := ResourceVersion m;
  Generation := Generation m; Labels := Labels m; Annotations := Annotations m; Finalizers := Finalizers m;
  CreationTimestamp := CreationTimestamp m; DeletionTimestamp := DeletionTimestamp m; OwnerReferences := r |}.
(** The metadata of an object to create. *)
Definition new_meta (namespace name : string) : ObjectMeta := {|
  Name := name; Namespace := namespace; UID := ""; ResourceVersion := ""; Generation := 0;
  Labels := ∅; Annotations := ∅; Finalizers := []; CreationTimestamp := None;
  DeletionTimestamp := None; OwnerReferences := [] |}.

(** The value of a Go map, "" when the key is absent. *)
Definition value (m : gmap string string) (key : string) : string := default "" (m !! key).

(** ** Errors *)

(** [ReasonNoMatch]: the kind is not served ([apimeta.IsNoMatchError]). *)
Inductive Reason :=
| ReasonNotFound | ReasonAlreadyExists | ReasonConflict | ReasonNoMatch
| ReasonTooManyRequests | ReasonTimeout | ReasonServerTimeout | ReasonServiceUnavailable | ReasonOther.
#[export] Instance reason_eq_dec : EqDecision Reason. Proof. solve_decision. Defined.
(** An error status of the API server; [ae_Kind] is the kind its details name. *)
Record ApiErr := { ae_Reason : Reason; ae_Kind : string; ae_Text : string }.

(** What a wrapped Go error can be recognised as. *)
Inductive Sentinel :=
| ErrModelNotFound | ErrHTTPRouteNotFound | ErrHTTPRouteNotOnTenantGateway | ErrDiscoveredTenantConfigNotFound
| ErrTenantResolutionPending | ErrKindNotImplemented.
#[export] Instance sentinel_eq_dec : EqDecision Sentinel. Proof. solve_decision. Defined.
Inductive Cause := FromApi (e : ApiErr) | JobFailed | Wraps (s : Sentinel) | Plain.
Record GoErr := { etext : string; cause : Cause }.
Definition plain (text : string) : GoErr := {| etext := text; cause := Plain |}.
Definition of_api (e : ApiErr) : GoErr := {| etext := ae_Text e; cause := FromApi e |}.
(** [fmt.Errorf("...: %w", err)]. *)
Definition wrap (text : string) (e : ApiErr) : GoErr :=
  {| etext := text +:+ ": " +:+ ae_Text e; cause := FromApi e |}.
Definition wrap_err (text : string) (e : GoErr) : GoErr :=
  {| etext := text +:+ ": " +:+ etext e; cause := cause e |}.

Definition isNotFound (e : ApiErr) : bool := bool_decide (ae_Reason e = ReasonNotFound).
Definition isAlreadyExists (e : ApiErr) : bool := bool_decide (ae_Reason e = ReasonAlreadyExists).
Definition isConflict (e : ApiErr) : bool := bool_decide (ae_Reason e = ReasonConflict).

Definition isNoMatch (e : ApiErr) : bool := bool_decide (ae_Reason e = ReasonNoMatch).
(** [errors.Is] and the predicates of [apierrors] on a wrapped error. *)
Definition is_sentinel (s : Sentinel) (e : GoErr) : bool :=
  match cause e with Wraps s' => bool_decide (s' = s) | _ => false end.
Definition err_is (p : ApiErr → bool) (e : GoErr) : bool := match cause e with FromApi a => p a | _ => false end.

(** [client.IgnoreNotFound]. *)
Definition ignore_not_found {A} (a : A) (r : Res ApiErr A) : Res ApiErr A :=
  match r with Err e => if isNotFound e then Ok a else Err e | Ok a => Ok a end.

(** ** Calls and programs *)

(** [Get true] reads the informer cache, [Get false] the API server.  A patch
    carries the object it was computed from.  [ListBy] has the informer cache
    as a parameter, [ListAll] reads with the client of its component. *)
(** What a list call selects: everything, a namespace, labels, or the value of
    a field index. *)
Inductive ListOptions :=
| Everywhere | InNamespace (namespace : string) | MatchingLabels (labels : gmap string string)
| MatchingField (index value : string).

Inductive Call : Type → Type :=
| Get (cached : bool) (k : Kind) (key : Key) : Call (Res ApiErr (Obj k))
| ListAll (k : Kind) (namespace : string) (labels : gmap string string) : Call (Res ApiErr (list (Obj k)))
| Create (k : Kind) (o : Obj k) : Call (Res ApiErr (Obj k))
| Update (k : Kind) (o : Obj k) : Call (Res ApiErr (Obj k))
| UpdateStatus (k : Kind) (o : Obj k) : Call (Res ApiErr (Obj k))
| Patch (k : Kind) (base o : Obj k) (lock : bool) : Call (Res ApiErr (Obj k))
| Delete (k : Kind) (o : Obj k) (precondition : bool) : Call (Res ApiErr unit)
| Eventf (kind reason action note : string) : Call unit
| ListBy (cached : bool) (k : Kind) (selector : ListOptions) : Call (Res ApiErr (list (Obj k))).

Inductive Prog (A : Type) : Type :=
| Ret (a : A)
| Vis {X : Type} (c : Call X) (k : X → Prog A).
Arguments Ret {A} a.
Arguments Vis {A X} c k.

#[export] Instance prog_ret : MRet Prog := @Ret.
#[export] Instance prog_bind : MBind Prog := λ A B f,
  fix go (p : Prog A) : Prog B :=
    match p with
    | Ret a => f a
    | Vis c k => Vis c (λ x, go (k x))
    end.
#[export] Instance prog_fmap : FMap Prog := λ A B f p, p ≫= λ a, Ret (f a).
Definition call {X} (c : Call X) : Prog X := Vis c Ret.

(** The rest of a function after a call whose error it returns. *)
Definition bind_ok {E A B} (p : Prog (Res E A)) (k : A → Prog (Res E B)) : Prog (Res E B) :=
  r ← p; match r with Ok a => k a | Err e => Ret (Err e) end.
Notation "x <-! p ;; k" := (bind_ok p (fun x => k))
  (at level 100, p at next level, right associativity) : maas_scope.
(** A call whose error is wrapped. *)
Definition try {A} (text : string) (p : Prog (Res ApiErr A)) : Prog (Res GoErr A) :=
  r ← p; Ret (map_err (wrap text) r).

(** Loops over a list: one that collects, one that stops at the first error. *)
Fixpoint for_each {A B} (f : A → Prog B) (l : list A) : Prog (list B) :=
  match l with
  | [] => Ret []
  | a :: l => b ← f a; bs ← for_each f l; Ret (b :: bs)
  end.
Fixpoint for_each_ok {E A} (f : A → Prog (Res E unit)) (l : list A) : Prog (Res E unit) :=
  match l with
  | [] => Ret (Ok tt)
  | a :: l => _ <-! f a ;; for_each_ok f l
  end.

Fixpoint run {A S} (serve : ∀ X, Call X → S → S * X) (p : Prog A) (s : S) : S * A :=
  match p with
  | Ret a => (s, a)
  | Vis c k => let '(s, x) := serve _ c s in run serve (k x) s
  end.

Lemma run_bind {A B S} (serve : ∀ X, Call X → S → S * X) (p : Prog A) (f : A → Prog B) s :
  run serve (p ≫= f) s = let '(s, a) := run serve p s in run serve (f a) s.
Proof.
  revert s. induction p as [a|X c k IH]; intros s; [done|].
  cbn. destruct (serve X c s) as [s1 x]. apply IH.
Qed.

(** ** Programs that only read *)

Definition is_read {X} (c : Call X) : bool :=
  match c with Get _ _ _ | ListAll _ _ _ | ListBy _ _ _ | Eventf _ _ _ _ => true | _ => false end.
Fixpoint only_reads {A} (p : Prog A) : Prop :=
  match p with Ret _ => True | Vis c k => is_read c = true ∧ ∀ x, only_reads (k x) end.

Lemma only_reads_bind {A B} (p : Prog A) (f : A → Prog B) :
  only_reads p → (∀ a, only_reads (f a)) → only_reads (p ≫= f).
Proof. intros Hp Hf. induction p as [a|X c k IH]; cbn; [apply Hf|]. destruct Hp as [Hc Hk]. split; [exact Hc|]. intros x. apply IH, Hk. Qed.
Lemma only_reads_bind_ok {E A B} (p : Prog (Res E A)) (f : A → Prog (Res E B)) :
  only_reads p → (∀ a, only_reads (f a)) → only_reads (bind_ok p f).
Proof. intros Hp Hf. apply only_reads_bind; [exact Hp|]. by intros [a|e]. Qed.
Lemma only_reads_try {A} text (p : Prog (Res ApiErr A)) : only_reads p → only_reads (try text p).
Proof. intros Hp. by apply only_reads_bind. Qed.
Lemma only_reads_for_each {A B} (f : A → Prog B) l : (∀ a, only_reads (f a)) → only_reads (for_each f l).
Proof.
  intros Hf. induction l as [|a l IH]; cbn [for_each]; [done|].
  apply only_reads_bind; [apply Hf|]. intros b. by apply only_reads_bind.
Qed.
Create HintDb only_reads.
#[export] Hint Resolve only_reads_bind only_reads_bind_ok only_reads_try only_reads_for_each : only_reads.
(** Walks through binds, calls and case distinctions. *)
Ltac solve_reads :=
  repeat first
    [ progress intros
    | exact I
    | progress (cbv zeta)
    | solve [auto with only_reads nocore]
    | match goal with
      | |- only_reads (Ret _) => exact I
      | |- only_reads (call _) => split; [reflexivity|intros; exact I]
      | |- only_reads (try _ _) => apply only_reads_try
      | |- only_reads (bind_ok _ _) => apply only_reads_bind_ok
      | |- only_reads (for_each _ _) => apply only_reads_for_each
      | |- only_reads (mbind _ _) => apply only_reads_bind
      | |- only_reads (if ?b then _ else _) => destruct b
      | |- only_reads (match ?x with _ => _ end) => destruct x
      end ].

(** ** Safety for every reply

    A monitor watches the calls of a program and their replies, and may forbid
    a call.  [safe p m Q]: whatever the replies, [p] started with the monitor
    in [m] makes only allowed calls and ends with a value and a monitor in [Q]. *)
Section Safe.
Context {M : Type}.
Variable allowed : ∀ X, Call X → M → Prop.
Variable observe : ∀ X, Call X → X → M → M.

Fixpoint safe {A} (p : Prog A) (m : M) (Q : A → M → Prop) : Prop :=
  match p with
  | Ret a => Q a m
  | Vis c k => allowed _ c m ∧ ∀ x, safe (k x) (observe _ c x m) Q
  end.

Lemma safe_mono {A} (p : Prog A) m (Q Q' : A → M → Prop) :
  safe p m Q → (∀ a m', Q a m' → Q' a m') → safe p m Q'.
Proof.
  intros Hp HQ. revert m Hp. induction p as [a|X c k IH]; intros m; cbn; [apply HQ|].
  intros [Hc Hk]. split; [done|]. intros x. by apply IH.
Qed.

Lemma safe_bind {A B} (p : Prog A) (f : A → Prog B) m Q :
  safe p m (λ a m', safe (f a) m' Q) → safe (p ≫= f) m Q.
Proof.
  revert m. induction p as [a|X c k IH]; intros m; cbn; [done|].
  intros [Hc Hk]. split; [done|]. intros x. by apply IH.
Qed.

Lemma safe_call {X} (c : Call X) m Q :
  allowed _ c m → (∀ x, Q x (observe _ c x m)) → safe (call c) m Q.
Proof. done. Qed.

Lemma safe_bind_ok {E A B} (p : Prog (Res E A)) (f : A → Prog (Res E B)) m Q :
  safe p m (λ r m', match r with Ok a => safe (f a) m' Q | Err e => Q (Err e) m' end) →
  safe (bind_ok p f) m Q.
Proof.
  intros H. apply safe_bind. eapply safe_mono; [exact H|]. by intros [a|e] m'.
Qed.

Lemma safe_try {A} text (p : Prog (Res ApiErr A)) m Q :
  safe p m (λ r m', Q (map_err (wrap text) r) m') → safe (try text p) m Q.
Proof. intros H. apply safe_bind. exact H. Qed.

(** A loop keeps what every step keeps. *)
Lemma safe_for_each {A B} (f : A → Prog B) l (I : M → Prop) m :
  (∀ a m, a ∈ l → I m → safe (f a) m (λ _, I)) → I m → safe (for_each f l) m (λ _, I).
Proof.
  intros Hf. revert m. induction l as [|a l IH]; intros m HI; cbn [for_each]; [exact HI|].
  apply safe_bind. eapply safe_mono; [apply Hf; [left|exact HI]|]. intros b m' HI'.
  apply safe_bind. eapply safe_mono; [apply IH; [|exact HI']|]; [|done].
  intros a' m'' Ha'. apply Hf. by right.
Qed.
Lemma safe_for_each_ok {E A} (f : A → Prog (Res E unit)) l (I : M → Prop) m :
  (∀ a m, a ∈ l → I m → safe (f a) m (λ _, I)) → I m → safe (for_each_ok f l) m (λ _, I).
Proof.
  intros Hf. revert m. induction l as [|a l IH]; intros m HI; cbn [for_each_ok]; [exact HI|].
  apply safe_bind_ok. eapply safe_mono; [apply Hf; [left|exact HI]|]. intros [[]|e] m' HI'; [|exact HI'].
  apply IH; [|exact HI']. intros a' m'' Ha'. apply Hf. by right.
Qed.

(** A program that only reads is safe under a monitor that lets it, and keeps
    what every read keeps. *)
Lemma safe_only_reads {A} (p : Prog A) m (I : M → Prop) :
  only_reads p → (∀ X (c : Call X) m, is_read c = true → I m → allowed _ c m ∧ ∀ x, I (observe _ c x m)) →
  I m → safe p m (λ _, I).
Proof.
  intros Hp HI. revert m. induction p as [a|X c k IH]; intros m Hm; cbn; [exact Hm|].
  destruct Hp as [Hc Hk]. destruct (HI X c m Hc Hm) as [Ha Ho]. split; [exact Ha|]. intros x. by apply IH.
Qed.

(** The calls a run makes and the replies it gets are one of those [safe]
    ranges over: an invariant the server keeps along the monitor holds at the
    end. *)
Lemma safe_run {A S} (serve : ∀ X, Call X → S → S * X) (I : S → M → Prop) (p : Prog A) m s Q :
  (∀ X (c : Call X) s m, I s m → allowed _ c m → I (serve _ c s).1 (observe _ c (serve _ c s).2 m)) →
  safe p m Q → I s m → ∃ m', Q (run serve p s).2 m' ∧ I (run serve p s).1 m'.
Proof.
  intros Hserve. revert m s. induction p as [a|X c k IH]; intros m s; cbn; [by eauto|].
  intros [Hc Hk] HI. pose proof (Hserve X c s m HI Hc) as H.
  destruct (serve X c s) as [s1 x]. by eapply IH.
Qed.
End Safe.

(** ** Conditions

    [apimeta] of [k8s.io/apimachinery] is an interface here, with its
    documented behaviour as laws and an instance that has it. *)
Class StatusConditions := {
  SetStatusCondition : Condition → list Condition → list Condition;
  RemoveStatusCondition : string → list Condition → list Condition;
  FindStatusCondition : list Condition → string → option Condition;
}.
Class StatusConditionLaws `{SC : StatusConditions} : Prop := {
  find_set_eq c l : FindStatusCondition (SetStatusCondition c l) (c_Type c) = Some c;
  find_set_ne c l t : t ≠ c_Type c → FindStatusCondition (SetStatusCondition c l) t = FindStatusCondition l t;
  find_remove_eq t l : FindStatusCondition (RemoveStatusCondition t l) t = None;
  find_remove_ne t t' l : t ≠ t' → FindStatusCondition (RemoveStatusCondition t' l) t = FindStatusCondition l t;
}.

(** [apimeta.IsStatusConditionTrue]. *)
Definition condition_true `{StatusConditions} (l : list Condition) (t : string) : bool :=
  match FindStatusCondition l t with Some c => String.eqb (c_Status c) ConditionTrue | None => false end.

Lemma condition_true_set_ne `{SL : StatusConditionLaws} c l t :
  t ≠ c_Type c → condition_true (SetStatusCondition c l) t = condition_true l t.
Proof. intros Ht. unfold condition_true. by rewrite find_set_ne. Qed.
Lemma condition_true_set_eq `{SL : StatusConditionLaws} c l :
  condition_true (SetStatusCondition c l) (c_Type c) = String.eqb (c_Status c) ConditionTrue.
Proof. unfold condition_true. by rewrite find_set_eq. Qed.

(** Conditions listed in order, one of each type. *)
Fixpoint put_condition (c : Condition) (l : list Condition) : list Condition :=
  match l with
  | [] => [c]
  | d :: r => if String.eqb (c_Type d) (c_Type c) then c :: r else d :: put_condition c r
  end.
Definition listed_conditions : StatusConditions := {|
  SetStatusCondition := put_condition;
  RemoveStatusCondition t := List.filter (λ d, negb (String.eqb (c_Type d) t));
  FindStatusCondition l t := List.find (λ d, String.eqb (c_Type d) t) l |}.

Lemma listed_conditions_laws : StatusConditionLaws (SC := listed_conditions).
Proof.
  split; cbn.
  - intros c l. induction l as [|d l IH]; cbn; [by rewrite String.eqb_refl|].
    destruct (String.eqb (c_Type d) (c_Type c)) eqn:E; cbn; [by rewrite String.eqb_refl|by rewrite E].
  - intros c l t Ht. induction l as [|d l IH]; cbn.
    + destruct (String.eqb_spec (c_Type c) t); [congruence|done].
    + destruct (String.eqb_spec (c_Type d) (c_Type c)) as [E|E]; cbn; [|by rewrite IH].
      rewrite E. by destruct (String.eqb_spec (c_Type c) t); [congruence|].
  - intros t l. induction l as [|d l IH]; cbn; [done|].
    destruct (String.eqb (c_Type d) t) eqn:E; cbn; [done|by rewrite E].
  - intros t t' l Ht. induction l as [|d l IH]; cbn; [done|].
    destruct (String.eqb_spec (c_Type d) t') as [E|E]; cbn; rewrite IH; [|done].
    destruct (String.eqb_spec (c_Type d) t); [congruence|done].
Qed.

(** ** Finalizers and owners

    [controllerutil] of controller-runtime, an interface in the same way.
    [SetControllerReference owner kind] refuses an object another owner
    controls. *)
Class ControllerUtil := {
  contains_finalizer : list string → string → bool;
  add_finalizer : string → list string → list string;
  remove_finalizer : string → list string → list string;
  SetControllerReference : string → ObjectMeta → ObjectMeta → Res string ObjectMeta;
}.

(** The API version the scheme registers the kinds of owners under. *)
Definition api_version (kind : string) : string :=
  if String.eqb kind "HTTPRoute" then "gateway.networking.k8s.io/v1" else "maas.opendatahub.io/v1alpha1".

(** The reference is the controller's. *)
Definition controls (ref : OwnerReference) : bool := bool_decide (or_Controller ref = Some true).
Class ControllerUtilLaws `{CU : ControllerUtil} : Prop := {
  contains_finalizer_spec l f : contains_finalizer l f = true ↔ f ∈ l;
  add_finalizer_spec f l g : g ∈ add_finalizer f l ↔ g = f ∨ g ∈ l;
  remove_finalizer_spec f l g : g ∈ remove_finalizer f l ↔ g ≠ f ∧ g ∈ l;
  set_controller_reference kind owner m m' : SetControllerReference kind owner m = Ok m' →
    m' = set_owners (OwnerReferences m') m ∧
    ∃ ref, List.find controls (OwnerReferences m') = Some ref ∧ or_Kind ref = kind
      ∧ or_APIVersion ref = api_version kind ∧ or_Name ref = Name owner ∧ or_UID ref = UID owner;
  set_controller_unique kind owner m m' ref : SetControllerReference kind owner m = Ok m' →
    List.find controls (OwnerReferences m) = Some ref → or_Kind ref = kind ∧ or_Name ref = Name owner;
  set_controller_free kind owner m : Namespace owner = Namespace m → List.find controls (OwnerReferences m) = None →
    ∃ m', SetControllerReference kind owner m = Ok m';
}.

(** Finalizers in order; a reference replaces the one to the same object, which
    is recognised by its kind and name. *)
Definition same_object (a b : OwnerReference) : bool :=
  String.eqb (or_Kind a) (or_Kind b) && String.eqb (or_Name a) (or_Name b).
Fixpoint put_reference (ref : OwnerReference) (l : list OwnerReference) : list OwnerReference :=
  match l with
  | [] => [ref]
  | r :: l => if same_object r ref then ref :: l else r :: put_reference ref l
  end.
Definition controller_reference (kind : string) (owner : ObjectMeta) : OwnerReference :=
  {| or_APIVersion := api_version kind; or_Kind := kind; or_Name := Name owner; or_UID := UID owner;
     or_Controller := Some true |}.
Definition listed_finalizers : ControllerUtil := {|
  contains_finalizer l f := existsb (String.eqb f) l;
  add_finalizer f l := if existsb (String.eqb f) l then l else (l ++ [f])%list;
  remove_finalizer f l := List.filter (λ g, negb (String.eqb g f)) l;
  SetControllerReference kind owner m :=
    let ref := controller_reference kind owner in
    match List.find controls (OwnerReferences m) with
    | Some r => if same_object r ref then Ok (set_owners (put_reference ref (OwnerReferences m)) m)
                else Err "already owned by another controller"
    | None => Ok (set_owners (put_reference ref (OwnerReferences m)) m)
    end |}.

Lemma put_reference_controls ref l :
  controls ref = true → (∀ r, List.find controls l = Some r → same_object r ref = true) →
  List.find controls (put_reference ref l) = Some ref.
Proof.
  intros Hc. induction l as [|r l IH]; cbn; intros Hl; [by rewrite Hc|].
  destruct (same_object r ref) eqn:E; cbn; [by rewrite Hc|].
  destruct (controls r); [|by apply IH]. rewrite (Hl r eq_refl) in E. done.
Qed.

Lemma listed_finalizers_laws : ControllerUtilLaws (CU := listed_finalizers).
Proof.
  split; cbn.
  - intros l f. rewrite existsb_elem. split; [intros (x & Hx & ->%String.eqb_eq); done|].
    intros Hf. exists f. by rewrite String.eqb_refl.
  - intros f l g. destruct (existsb (String.eqb f) l) eqn:E.
    + apply existsb_elem in E as (x & Hx & <-%String.eqb_eq). naive_solver.
    + rewrite elem_of_app, list_elem_of_singleton. naive_solver.
  - intros f l g. rewrite list_elem_of_In, filter_In, <- list_elem_of_In, negb_true_iff, String.eqb_neq. naive_solver.
  - intros kind owner m m' H. set (ref := controller_reference kind owner) in *.
    assert (m' = set_owners (put_reference ref (OwnerReferences m)) m
      ∧ ∀ r, List.find controls (OwnerReferences m) = Some r → same_object r ref = true) as [-> Hl].
    { destruct (List.find controls (OwnerReferences m)) as [r|].
      - destruct (same_object r ref) eqn:E; [|done]. injection H as <-. split; [done|]. by intros r' [= <-].
      - injection H as <-. by split. }
    split; [done|]. exists ref. split_and!; [by apply put_reference_controls|done..].
  - intros kind owner m m' ref. destruct (List.find _ _) as [r|]; [|done].
    destruct (same_object r _) eqn:E; [|done]. intros _ [= <-].
    unfold same_object, controller_reference in E. cbn in E. by apply andb_true_iff in E as [->%String.eqb_eq ->%String.eqb_eq].
  - intros kind owner m _ ->. by eexists.
Qed.

End Kube.
