(* ===== verification/JsonMatch.v ===== *)
(** * JsonMatch: comparing a live spec with the desired one

    [pkg/controller/maas/maasauthpolicy_controller.go] decides whether the
    gateway AuthPolicy must be written by comparing the spec it wants with the
    spec the API server returns, ignoring what the server added and the empty
    collections it dropped.  The Go code edits the two decoded maps in place;
    each step here returns the edited map.  A float is kept as its literal and
    the literal of an integral float64 is its plain decimal text. *)

From S2P Require Import Prelude GoStrings Unstructured.
Local Open Scope string_scope.

(** ** JSON values *)

(** Induction on decoded JSON, through the entries of objects and arrays. *)
Lemma JVal_nested_ind (P : JVal → Prop) :
  P JNull → (∀ b, P (JBool b)) → (∀ z, P (JInt z)) → (∀ l, P (JFloat l)) →
  (∀ s, P (JStr s)) → (∀ l, Forall P l → P (JArr l)) →
  (∀ m, Forall (fun kv => P kv.2) m → P (JObj m)) → ∀ v, P v.
Proof.
  intros Hn Hb Hi Hf Hs Ha Ho. fix IH 1.
  intros [ |b|z|f|s|l|m]; [exact Hn|exact (Hb b)|exact (Hi z)|exact (Hf f)|exact (Hs s)| | ].
  - apply Ha. induction l as [|x l IHl]; constructor; [apply IH|exact IHl].
  - apply Ho. induction m as [|[k x] m IHm]; constructor; [apply IH|exact IHm].
Qed.

(** A Go map holds one entry per key. *)
Inductive wf : JVal → Prop :=
| wf_null : wf JNull
| wf_bool b : wf (JBool b)
| wf_int z : wf (JInt z)
| wf_float l : wf (JFloat l)
| wf_str s : wf (JStr s)
| wf_arr l : Forall wf l → wf (JArr l)
| wf_obj m : NoDup m.*1 → Forall (fun kv => wf kv.2) m → wf (JObj m).

(** The float64 nearest to an integer (ties to even): 53 significant bits. *)
Definition float64_of (z : Z) : Z :=
  let a := Z.abs z in
  if (a <=? 2 ^ 53)%Z then z
  else
    let u := (2 ^ (Z.log2 a - 52))%Z in
    let q := (a / u)%Z in
    let r := (a mod u)%Z in
    let q' := if (u <? 2 * r)%Z then (q + 1)%Z
              else if (2 * r =? u)%Z then (q + q mod 2)%Z else q in
    (Z.sgn z * (q' * u))%Z.

(** [json.Marshal] followed by [json.Unmarshal] into [any]: every number comes
    back as a float64. *)
Fixpoint json_norm (v : JVal) : JVal :=
  match v with
  | JInt z => JFloat (format_int (float64_of z))
  | JArr l => JArr (json_norm <$> l)
  | JObj m => JObj ((fun kv => (kv.1, json_norm kv.2)) <$> m)
  | _ => v
  end.

(** Editing a map entry by entry: [None] deletes the entry. *)
Definition map_entries (f : string → JVal → option JVal) (m : JMap) : JMap :=
  omap (fun kv => pair kv.1 <$> f kv.1 kv.2) m.

(** ** [reflect.DeepEqual] on decoded JSON *)
Section Elements.
Variable eqv : JVal → JVal → bool.
Definition maps_equal (a b : JMap) : bool :=
  (length a =? length b)%nat &&
  forallb (fun kv => match get kv.1 b with Some w => eqv kv.2 w | None => false end) a.
Fixpoint slices_equal (a b : list JVal) : bool :=
  match a, b with
  | [], [] => true
  | x :: a', y :: b' => eqv x y && slices_equal a' b'
  | _, _ => false
  end.
End Elements.

Fixpoint DeepEqual (a b : JVal) : bool :=
  match a, b with
  | JNull, JNull => true
  | JBool x, JBool y => Bool.eqb x y
  | JInt x, JInt y => (x =? y)%Z
  | JFloat x, JFloat y | JStr x, JStr y => String.eqb x y
  | JArr x, JArr y => slices_equal DeepEqual x y
  | JObj x, JObj y => maps_equal DeepEqual x y
  | _, _ => false
  end.

(** ** The comparison *)

Definition isEmptyCollection (v : JVal) : bool :=
  match v with
  | JObj [] | JArr [] => true
  | _ => false
  end.

Section StripExtra.
(** The treatment of one value of [current] beside its desired counterpart. *)
Variable strip : JVal → JVal → JVal.
Definition strip_fields (current desired : JMap) : JMap :=
  map_entries (fun k cv => match get k desired with
                           | None => None
                           | Some dv => Some (strip cv dv)
                           end) current.
Fixpoint strip_slice (current desired : list JVal) : list JVal :=
  match current, desired with
  | c :: cs, d :: ds => strip c d :: strip_slice cs ds
  | _, _ => current
  end.
End StripExtra.

Fixpoint strip_extra (cv dv : JVal) : JVal :=
  match cv, dv with
  | JObj cMap, JObj dMap => JObj (strip_fields strip_extra cMap dMap)
  | JArr cSlice, JArr dSlice => JArr (strip_slice strip_extra cSlice dSlice)
  | _, _ => cv
  end.

Definition stripExtraFields (current desired : JMap) : JMap :=
  strip_fields strip_extra current desired.
Definition stripExtraFieldsSlice (current desired : list JVal) : list JVal :=
  strip_slice strip_extra current desired.

Section StripEmpty.
Variable strip : JVal → JMap → JVal.
Definition strip_empty_fields (desired current : JMap) : JMap :=
  map_entries (fun k dv =>
    let cMap := default [] (as_map (get k current)) in
    let dv' := strip dv cMap in
    match get k current with
    | None => if isEmptyCollection dv' then None else Some dv'
    | Some _ => Some dv'
    end) desired.
End StripEmpty.

Fixpoint strip_empty (dv : JVal) (cMap : JMap) : JVal :=
  match dv with
  | JObj dMap => JObj (strip_empty_fields strip_empty dMap cMap)
  | _ => dv
  end.

Definition stripEmptyDesiredFields (desired current : JMap) : JMap :=
  strip_empty_fields strip_empty desired current.

Definition norm_map (m : JMap) : JMap := (fun kv => (kv.1, json_norm kv.2)) <$> m.

(** [current] is [nil] when the object has no [spec] map: a nil map is
    marshalled to [null] and never equals the desired, non-nil map. *)
Definition specMatchesDesired (desired : JMap) (current : option JMap) : bool :=
  match current with
  | None => false
  | Some c =>
      let desiredNorm := norm_map desired in
      let currentNorm := stripExtraFields (norm_map c) desiredNorm in
      let desiredNorm := stripEmptyDesiredFields desiredNorm currentNorm in
      DeepEqual (JObj desiredNorm) (JObj currentNorm)
  end.

(** ** What the comparison decides *)

(** A value the API server may drop: a collection with nothing in it but such
    values. *)
Inductive vanishing : JVal → Prop :=
| van_arr : vanishing (JArr [])
| van_obj m : (∀ k v, get k m = Some v → vanishing v) → vanishing (JObj m).

(** [within drop d c]: everything [d] asks for is in [c].  Objects of [c] may
    hold further keys, at any depth; arrays agree element by element; where
    [drop] holds (outside arrays) a key of [d] with a vanishing value may be
    missing in [c]. *)
Inductive within (drop : bool) : JVal → JVal → Prop :=
| wi_null : within drop JNull JNull
| wi_bool b : within drop (JBool b) (JBool b)
| wi_int z : within drop (JInt z) (JInt z)
| wi_float l : within drop (JFloat l) (JFloat l)
| wi_str s : within drop (JStr s) (JStr s)
| wi_arr l l' : Forall2 (within false) l l' → within drop (JArr l) (JArr l')
| wi_obj m m' :
    (∀ k v, get k m = Some v →
       (∃ w, get k m' = Some w ∧ within drop v w) ∨
       (get k m' = None ∧ drop = true ∧ vanishing v)) →
    within drop (JObj m) (JObj m').

(** ** Entries of a map *)

Lemma get_in k v m : get k m = Some v → (k, v) ∈ m.
Proof.
  induction m as [|[k' w] m IH]; simpl; [done|].
  destruct (String.eqb_spec k' k) as [->|]; [intros [= ->]; left|intros; right; auto].
Qed.

Lemma get_some_key k v m : get k m = Some v → k ∈ m.*1.
Proof. intros H%get_in. apply list_elem_of_fmap. exists (k, v). done. Qed.

Lemma get_none_key k m : get k m = None ↔ k ∉ m.*1.
Proof.
  induction m as [|[k' w] m IH]; simpl; [split; [intros _ H; inversion H|done]|].
  destruct (String.eqb_spec k' k) as [->|Hk].
  - split; [done|]. intros H. destruct H. left.
  - rewrite IH, not_elem_of_cons. naive_solver.
Qed.

Lemma get_of_in k v m : NoDup m.*1 → (k, v) ∈ m → get k m = Some v.
Proof.
  induction m as [|[k' w] m IH]; simpl; [intros _ H; inversion H|].
  intros [Hn Hd]%NoDup_cons [[= -> ->]|H]%elem_of_cons.
  - by rewrite String.eqb_refl.
  - destruct (String.eqb_spec k' k) as [->|]; [|auto].
    destruct Hn. apply list_elem_of_fmap. by exists (k, v).
Qed.

Lemma get_wf k v m : wf (JObj m) → get k m = Some v → wf v.
Proof.
  intros Hw H%get_in. inversion Hw as [| | | | | |? Hd Hf]; subst.
  rewrite Forall_forall in Hf. exact (Hf _ H).
Qed.

Lemma map_entries_keys f m : (map_entries f m).*1 `sublist_of` m.*1.
Proof.
  induction m as [|[k v] m IH]; simpl; [constructor|].
  unfold map_entries; simpl. destruct (f k v); simpl; by constructor.
Qed.

Lemma map_entries_nodup f m : NoDup m.*1 → NoDup (map_entries f m).*1.
Proof. intros H. exact (sublist_NoDup _ _ H (map_entries_keys f m)). Qed.

Lemma get_map_entries f m k :
  NoDup m.*1 → get k (map_entries f m) = get k m ≫= f k.
Proof.
  induction m as [|[k' v] m IH]; simpl; [done|]. intros [Hn Hd]%NoDup_cons.
  unfold map_entries in *; simpl. destruct (f k' v) eqn:E; simpl.
  - destruct (String.eqb_spec k' k) as [->|]; simpl; [done|auto].
  - rewrite IH by done. destruct (String.eqb_spec k' k) as [->|]; simpl; [|done].
    rewrite E. by rewrite (proj2 (get_none_key _ _) Hn).
Qed.

Lemma get_norm_map m k : get k (norm_map m) = json_norm <$> get k m.
Proof.
  induction m as [|[k' v] m IH]; simpl; [done|].
  by destruct (String.eqb k' k).
Qed.

(** Maps are compared key by key. *)
Lemma maps_equal_iff eqv a b :
  NoDup a.*1 → NoDup b.*1 →
  maps_equal eqv a b = true ↔
  (∀ k, match get k a, get k b with
        | Some v, Some w => eqv v w = true
        | None, None => True
        | _, _ => False
        end).
Proof.
  intros Ha Hb. unfold maps_equal. rewrite andb_true_iff, forallb_forall, Nat.eqb_eq.
  split.
  - intros [Hl Hall]. assert (Hsub : a.*1 ⊆ b.*1).
    { intros k Hk. apply list_elem_of_fmap in Hk as ([k' v] & -> & Hin).
      apply list_elem_of_In in Hin. specialize (Hall _ Hin). simpl in *.
      destruct (get k' b) eqn:E; [|done]. eapply get_some_key; eauto. }
    assert (Hp : a.*1 ≡ₚ b.*1).
    { apply submseteq_length_Permutation; [by apply NoDup_submseteq|].
      rewrite !length_fmap. lia. }
    intros k. destruct (get k a) as [v|] eqn:E.
    + apply get_in, list_elem_of_In in E. specialize (Hall _ E); simpl in Hall.
      by destruct (get k b).
    + apply get_none_key in E. rewrite Hp in E. apply get_none_key in E. by rewrite E.
  - intros H. split.
    + rewrite <- !(length_fmap fst). apply Permutation_length, NoDup_Permutation; [done..|].
      intros k. specialize (H k).
      destruct (get k a) eqn:E1, (get k b) eqn:E2; try done.
      * split; intros _; eapply get_some_key; eauto.
      * apply get_none_key in E1, E2. tauto.
    + intros [k v] Hin. apply list_elem_of_In in Hin. specialize (H k). simpl.
      rewrite (get_of_in _ _ _ Ha Hin) in H. by destruct (get k b).
Qed.

Lemma map_entries_nil f m :
  NoDup m.*1 →
  map_entries f m = [] ↔ ∀ k v, get k m = Some v → f k v = None.
Proof.
  intros Hd. split.
  - intros H k v E. pose proof (get_map_entries f m k Hd) as G.
    rewrite H, E in G. simpl in G. done.
  - intros H. destruct (map_entries f m) as [|[k v] r] eqn:E; [done|].
    assert (G : get k (map_entries f m) = Some v).
    { rewrite E. simpl. by rewrite String.eqb_refl. }
    rewrite get_map_entries in G by done.
    destruct (get k m) as [w|] eqn:Ew; [|done]. simpl in G. by rewrite (H _ _ Ew) in G.
Qed.

Lemma wf_keys m : wf (JObj m) → NoDup m.*1.
Proof. by inversion 1. Qed.

Lemma norm_wf v : wf v → wf (json_norm v).
Proof.
  induction v as [ | | | | |l IH|m IH] using JVal_nested_ind; intros Hw; simpl; try constructor.
  - inversion Hw as [| | | | |? Hl|]; subst. apply Forall_fmap.
    rewrite Forall_forall in *. intros x Hx. apply (IH x Hx), (Hl x Hx).
  - rewrite <- list_fmap_compose. by apply wf_keys.
  - inversion Hw as [| | | | | |? Hd Hf]; subst. apply Forall_fmap.
    rewrite Forall_forall in *. intros x Hx. apply (IH x Hx), (Hf x Hx).
Qed.

Lemma norm_map_wf m : wf (JObj m) → wf (JObj (norm_map m)).
Proof. exact (norm_wf (JObj m)). Qed.

Create HintDb json.
#[export] Hint Resolve wf_keys norm_map_wf map_entries_nodup : json.

Lemma get_strip_fields c d k :
  wf (JObj c) →
  get k (stripExtraFields c d) =
    (dv ← get k d; cv ← get k c; Some (strip_extra cv dv)).
Proof.
  intros Hw. unfold stripExtraFields, strip_fields. rewrite get_map_entries by auto with json.
  by destruct (get k c), (get k d).
Qed.

Lemma strip_fields_nodup c d : wf (JObj c) → NoDup (stripExtraFields c d).*1.
Proof. intros H. apply map_entries_nodup. auto with json. Qed.

Lemma within_arr drop l l' : within drop (JArr l) (JArr l') ↔ Forall2 (within false) l l'.
Proof. split; [by inversion 1|by constructor]. Qed.

Lemma within_obj drop m m' :
  within drop (JObj m) (JObj m') ↔
  ∀ k v, get k m = Some v →
    (∃ w, get k m' = Some w ∧ within drop v w) ∨
    (get k m' = None ∧ drop = true ∧ vanishing v).
Proof. split; [by inversion 1|by constructor]. Qed.

Lemma wf_arr_inv l : wf (JArr l) → Forall wf l.
Proof. by inversion 1. Qed.

(** Values that differ in kind are never equal and never within. *)
Ltac by_kind :=
  split; [try discriminate|inversion 1; subst; auto].

Lemma slices_match ds cs :
  Forall (fun d => ∀ c, wf d → wf c → DeepEqual d (strip_extra c d) = true ↔ within false d c) ds →
  Forall wf ds → Forall wf cs →
  slices_equal DeepEqual ds (strip_slice strip_extra cs ds) = true ↔ Forall2 (within false) ds cs.
Proof.
  intros IH. revert cs. induction IH as [|d ds Hd _ IHds]; intros [|c cs] Hwd Hwc; simpl.
  - split; [constructor|done].
  - split; [done|by inversion 1].
  - split; [done|by inversion 1].
  - apply Forall_cons in Hwd as [? ?], Hwc as [? ?].
    rewrite andb_true_iff, (Hd c), (IHds cs) by done. by rewrite Forall2_cons.
Qed.

Lemma strict_fields d c :
  Forall (fun kv => ∀ w, wf kv.2 → wf w → DeepEqual kv.2 (strip_extra w kv.2) = true ↔ within false kv.2 w) d →
  wf (JObj d) → wf (JObj c) →
  maps_equal DeepEqual d (stripExtraFields c d) = true ↔ within false (JObj d) (JObj c).
Proof.
  intros IH Hd Hc. rewrite within_obj.
  rewrite maps_equal_iff by auto using strip_fields_nodup with json.
  rewrite Forall_forall in IH. split; intros H k; specialize (H k);
    rewrite ?(get_strip_fields _ _ _ Hc) in *.
  - intros v E. rewrite E in H. simpl in H. left.
    destruct (get k c) as [w|] eqn:Ew; simpl in H; [|done]. exists w; split; [done|].
    apply (IH (k, v)); eauto using get_in, get_wf.
  - destruct (get k d) as [v|] eqn:E; simpl; [|done].
    destruct (H v eq_refl) as [(w & Ew & Hin) | (_ & [=] & _)]. rewrite Ew; simpl.
    apply (IH (k, v)); eauto using get_in, get_wf.
Qed.

(** Below the top level the comparison allows further keys and nothing else. *)
Lemma strict_match d c :
  wf d → wf c → DeepEqual d (strip_extra c d) = true ↔ within false d c.
Proof.
  revert c. induction d as [ |b|z|f|s|l IH|m IH] using JVal_nested_ind; intros c Hd Hc.
  1-5: destruct c; simpl; by_kind.
  - intros _. constructor.
  - intros ->%Bool.eqb_true_iff. constructor.
  - by destruct b0.
  - intros ->%Z.eqb_eq. constructor.
  - apply Z.eqb_refl.
  - intros ->%String.eqb_eq. constructor.
  - apply String.eqb_refl.
  - intros ->%String.eqb_eq. constructor.
  - apply String.eqb_refl.
  - destruct c; simpl; try (by_kind; fail).
    rewrite within_arr. apply slices_match; auto using wf_arr_inv.
  - destruct c; simpl; try (by_kind; fail). by apply strict_fields.
Qed.

Lemma vanishing_arr l : vanishing (JArr l) ↔ l = [].
Proof. split; [by inversion 1|intros ->; constructor]. Qed.

Lemma vanishing_obj m : vanishing (JObj m) ↔ ∀ k v, get k m = Some v → vanishing v.
Proof. split; [by inversion 1|by constructor]. Qed.

(** A key the live spec lacks is dropped from the desired one exactly when its
    value is vanishing. *)
Lemma drops_vanishing d :
  wf d → isEmptyCollection (strip_empty d []) = true ↔ vanishing d.
Proof.
  induction d as [ | | | | |l _|m IH] using JVal_nested_ind; intros Hd; simpl.
  1-5: by_kind.
  - rewrite vanishing_arr. by destruct l.
  - rewrite vanishing_obj. rewrite Forall_forall in IH.
    assert (Hnil : strip_empty_fields strip_empty m [] = [] ↔
                   ∀ k v, get k m = Some v → vanishing v).
    { unfold strip_empty_fields. rewrite map_entries_nil by auto with json.
      apply forall_proper; intros k. apply forall_proper; intros v.
      apply forall_proper; intros E. simpl.
      rewrite <- (IH (k, v)) by eauto using get_in, get_wf. simpl.
      by destruct (isEmptyCollection (strip_empty v [])). }
    rewrite <- Hnil. by destruct (strip_empty_fields strip_empty m []).
Qed.

Lemma get_strip_empty d c k :
  wf (JObj d) →
  get k (stripEmptyDesiredFields d c) =
    (dv ← get k d;
     match get k c with
     | None => if isEmptyCollection (strip_empty dv []) then None else Some (strip_empty dv [])
     | Some cv => Some (strip_empty dv (default [] (as_map (Some cv))))
     end).
Proof.
  intros Hd. unfold stripEmptyDesiredFields, strip_empty_fields.
  rewrite get_map_entries by auto with json. destruct (get k d); simpl; [|done].
  by destruct (get k c).
Qed.

(** The two edits followed by the comparison, on one value. *)
Definition value_matches (d c : JVal) : bool :=
  let c' := strip_extra c d in
  DeepEqual (strip_empty d (default [] (as_map (Some c')))) c'.

Lemma fields_match d c :
  Forall (fun kv => ∀ w, wf kv.2 → wf w → value_matches kv.2 w = true ↔ within true kv.2 w) d →
  wf (JObj d) → wf (JObj c) →
  value_matches (JObj d) (JObj c) = true ↔ within true (JObj d) (JObj c).
Proof.
  intros IH Hd Hc. rewrite within_obj. unfold value_matches. simpl.
  fold (stripExtraFields c d). fold (stripEmptyDesiredFields d (stripExtraFields c d)).
  rewrite maps_equal_iff.
  2:{ apply map_entries_nodup. auto with json. }
  2:{ by apply strip_fields_nodup. }
  rewrite Forall_forall in IH. split; intros H k; specialize (H k);
    rewrite ?(get_strip_empty _ _ _ Hd), ?(get_strip_fields _ _ _ Hc) in *.
  - intros v E. rewrite E in H. simpl in H. destruct (get k c) as [w|] eqn:Ew; simpl in H.
    + left. exists w. split; [done|]. apply (IH (k, v)); eauto using get_in, get_wf.
    + right. split_and!; [done..|]. apply drops_vanishing; [eauto using get_wf|].
      by destruct (isEmptyCollection (strip_empty v [])).
  - destruct (get k d) as [v|] eqn:E; simpl; [|by destruct (get k c)].
    destruct (H v eq_refl) as [(w & Ew & Hin) | (Ew & _ & Hv)]; rewrite Ew; simpl.
    + apply (IH (k, v)); eauto using get_in, get_wf.
    + apply drops_vanishing in Hv; [|eauto using get_wf]. by rewrite Hv.
Qed.

Lemma value_match d c : wf d → wf c → value_matches d c = true ↔ within true d c.
Proof.
  revert c. induction d as [ |b|z|f|s|l _|m IH] using JVal_nested_ind; intros c Hd Hc.
  1-6: unfold value_matches; simpl strip_empty; rewrite strict_match by done;
    split; inversion 1; subst; by constructor.
  destruct c; try (split; [done|by inversion 1]). by apply fields_match.
Qed.

(** The comparison, as a relation. *)
Lemma matches_within desired current :
  wf (JObj desired) → wf (JObj current) →
  specMatchesDesired desired (Some current) = true ↔
  within true (json_norm (JObj desired)) (json_norm (JObj current)).
Proof.
  intros Hd Hc. rewrite <- value_match by (apply norm_wf; done). reflexivity.
Qed.

(** C26: the comparison is exact.  For any two specifications whose maps have
    one entry per key, the live one is left alone exactly when everything the
    desired one asks for is in it, up to what an API server may do: keys it
    added in any object, at any depth, and keys it dropped whose values hold
    nothing but empty collections.  Elements of arrays are never added, dropped
    or reordered, and numbers are compared as float64. *)
Theorem spec_match_exact desired current :
  wf (JObj desired) → wf (JObj current) →
  specMatchesDesired desired (Some current) = true ↔
  within true (json_norm (JObj desired)) (json_norm (JObj current)).
Proof. apply matches_within. Qed.

(** A live spec with a default added by the server and an empty map dropped. *)
Definition wanted_spec : JMap :=
  [("rules", JObj [("ttl", JInt 60); ("extra", JObj [("none", JArr [])])]); ("names", JArr [JStr "a"; JObj []])].
Definition live_spec : JMap :=
  [("names", JArr [JStr "a"; JObj [("added", JBool true)]]); ("rules", JObj [("ttl", JFloat "60"); ("strategy", JStr "atomic")])].
Lemma wanted_wf : wf (JObj wanted_spec).
Proof. repeat (constructor; cbn); rewrite ?elem_of_cons; set_unfold; naive_solver. Qed.
Lemma live_wf : wf (JObj live_spec).
Proof. repeat (constructor; cbn); rewrite ?elem_of_cons; set_unfold; naive_solver. Qed.
Theorem spec_match_exact_witness :
  specMatchesDesired wanted_spec (Some live_spec) = true ∧
  within true (json_norm (JObj wanted_spec)) (json_norm (JObj live_spec)).
Proof.
  assert (E : specMatchesDesired wanted_spec (Some live_spec) = true) by (vm_compute; reflexivity).
  split; [exact E|]. exact (proj1 (spec_match_exact wanted_spec live_spec wanted_wf live_wf) E).
Defined.

(** A path into an object: keys, and indexes of arrays. *)
Fixpoint at_path (v : JVal) (path : list (string + nat)) : option JVal :=
  match path with
  | [] => Some v
  | inl k :: path => match v with JObj m => w ← get k m; at_path w path | _ => None end
  | inr i :: path => match v with JArr l => w ← l !! i; at_path w path | _ => None end
  end.

(** A text the desired spec sets is set to the same text in a live one that
    covers it. *)
Lemma within_text drop d c path s :
  within drop d c → at_path d path = Some (JStr s) → at_path c path = Some (JStr s).
Proof.
  revert drop d c. induction path as [|[k|i] path IH]; intros drop d c H; cbn.
  - intros [= ->]. inversion H; subst. done.
  - destruct d as [ | | | | | |m]; try done. destruct c as [ | | | | | |m']; try (by inversion H).
    destruct (get k m) as [v|] eqn:E; [|done]. cbn. intros Hp.
    pose proof (proj1 (within_obj drop m m') H k v E) as [(w & -> & Hw)|(_ & _ & Hv)]; [by apply (IH drop v w)|].
    exfalso. clear -Hv Hp. revert v Hv Hp. induction path as [|[k'|i] path IHp]; intros v Hv; cbn.
    + intros [= ->]. inversion Hv.
    + destruct v as [ | | | | | |m]; try done. destruct (get k' m) as [x|] eqn:Ex; [|done]. cbn.
      apply IHp. exact (proj1 (vanishing_obj m) Hv _ _ Ex).
    + destruct v as [ | | | | |l|]; try done. apply vanishing_arr in Hv as ->. done.
  - destruct d as [ | | | | |l|]; try done. destruct c as [ | | | | |l'|]; try (by inversion H).
    apply within_arr in H. destruct (l !! i) as [v|] eqn:E; [|done]. cbn. intros Hp.
    destruct (Forall2_lookup_l _ _ _ _ _ H E) as (w & -> & Hw). by apply (IH false v w).
Qed.
