(* ===== verification/GatewaySpec.v ===== *)
(** * GatewaySpec: the AuthPolicy of a Gateway

    [maas-controller/pkg/controller/maas/maasauthpolicy_controller.go] (the
    expressions, [buildGatewayAuthPolicySpec] and its helpers),
    [maasauthpolicy_identity.go] and [maas-controller/pkg/authpolicy/oidc.go]:
    the specification Authorino enforces on every request of a tenant's
    Gateway, as the object the controller builds.  The CEL and Rego texts are
    the controller's, character by character; their evaluation belongs to
    Authorino. *)

From S2P Require Import Prelude GoStrings Unstructured JsonMatch.
From Stdlib Require String.
Local Open Scope string_scope.

Module GatewaySpec.

(** ** Text *)

(** A Go raw string: a backquote, which a raw string cannot hold, stands for
    the double quote. *)
Fixpoint raw (s : string) : string :=
  match s with
  | EmptyString => EmptyString
  | String c s => String (if Ascii.eqb c "`" then "034" else c) (raw s)
  end.
Definition dq : string := String "034" "".
Definition newline : string := String "010" "".

Definition hex_digit (n : Z) : string := str_take 1 (str_drop (Z.to_nat n) "0123456789abcdef").
Definition hex2 (n : Z) : string := hex_digit (n / 16) +:+ hex_digit (n mod 16).
Fixpoint escape_with (esc : ascii → string) (s : string) : string :=
  match s with
  | EmptyString => EmptyString
  | String c s => esc c +:+ escape_with esc s
  end.

(** [strconv.Quote] and [%q]; text beyond ASCII is taken to be printable. *)
Definition quote_char (c : ascii) : string :=
  let n := byte_of c in
  if (n =? 34)%Z then "\" +:+ dq else if (n =? 92)%Z then "\\"
  else if (n =? 7)%Z then "\a" else if (n =? 8)%Z then "\b" else if (n =? 12)%Z then "\f"
  else if (n =? 10)%Z then "\n" else if (n =? 13)%Z then "\r" else if (n =? 9)%Z then "\t"
  else if (n =? 11)%Z then "\v"
  else if ((n <? 32) || (n =? 127))%Z then "\x" +:+ hex2 n else String c "".
Definition Quote (s : string) : string := dq +:+ escape_with quote_char s +:+ dq.

(** [json.Marshal] of a list of strings; text beyond ASCII is taken to be valid
    UTF-8 without line separators. *)
Definition json_char (c : ascii) : string :=
  let n := byte_of c in
  if (n =? 34)%Z then "\" +:+ dq else if (n =? 92)%Z then "\\"
  else if (n =? 8)%Z then "\b" else if (n =? 12)%Z then "\f"
  else if (n =? 10)%Z then "\n" else if (n =? 13)%Z then "\r" else if (n =? 9)%Z then "\t"
  else if ((n <? 32) || (n =? 60) || (n =? 62) || (n =? 38))%Z then "\u00" +:+ hex2 n else String c "".
Definition marshal_strings (l : list string) : string :=
  "[" +:+ join "," (map (fun s => dq +:+ escape_with json_char s +:+ dq) l) +:+ "]".

(** ** Maps updated in place *)

(** [m[key] = v]. *)
Fixpoint put (key : string) (v : JVal) (m : JMap) : JMap :=
  match m with
  | [] => [(key, v)]
  | (k, w) :: r => if String.eqb k key then (k, v) :: r else (k, w) :: put key v r
  end.

(** [requiredMap] followed by an update of the map it returns; [None] is its
    panic. *)
Fixpoint requiredMap (f : JMap → JMap) (value : JMap) (fields : list string) : option JMap :=
  match fields with
  | [] => Some (f value)
  | field :: fields =>
      match get field value with
      | Some (JObj next) => next' ← requiredMap f next fields; Some (put field (JObj next') value)
      | _ => None
      end
  end.

(** ** Configuration *)

(** The fields of [MaaSAuthPolicyReconciler] the specification depends on. *)
Class GatewaySettings := {
  InfraNamespace : string; ClusterAudience : string; MetadataCacheTTL : Z; AuthzCacheTTL : Z;
}.
Record oidcConfig := {
  IssuerURL : string; ClientID : string; Audience : string;
  AccessTokenPurposeClaim : string; AccessTokenPurpose : string; TTL : Z;
}.
Record guardrailHeader := { gh_ID : string; gh_Name : string }.

(** ** CEL expressions *)

Definition celUserID : string :=
  "(has(auth.metadata) && has(auth.metadata.apiKeyValidation)) ? auth.metadata.apiKeyValidation.userId : (has(auth.identity.preferred_username) ? auth.identity.preferred_username : (has(auth.identity.sub) ? auth.identity.sub : auth.identity.user.username))".

Definition celUsername : string :=
  "(has(auth.metadata) && has(auth.metadata.apiKeyValidation)) ? auth.metadata.apiKeyValidation.username : (has(auth.identity.preferred_username) ? auth.identity.preferred_username : (has(auth.identity.sub) ? auth.identity.sub : auth.identity.user.username))".

Definition safeGroupNamePattern : string :=
  "^[A-Za-z0-9:#._/ -]+$".

Definition celOIDCGroupsSafe : string :=
  "auth.identity.groups.all(g, type(g) == string && g.matches('" +:+ safeGroupNamePattern +:+ "'))".

Definition celCanonicalOrganizationID : string :=
  "^[0-9a-f]{8}-[0-9a-f]{4}-[0-9a-f]{4}-[0-9a-f]{4}-[0-9a-f]{12}".

Definition celCanonicalOrganizationIDPattern : string :=
  celCanonicalOrganizationID +:+ "$".

Definition celOrganizationQualifiedGroup : string :=
  celCanonicalOrganizationID +:+ "/".

Definition celOIDCOrganizationIDSafe : string :=
  raw "type(auth.identity[`org_id`]) == string && auth.identity[`org_id`].matches('"
    +:+ celCanonicalOrganizationIDPattern +:+ "')".

Definition celOIDCLegacyGroupsSafe : string :=
  celOIDCGroupsSafe +:+ " && auth.identity.groups.all(g, !g.matches('"
    +:+ celOrganizationQualifiedGroup +:+ "'))".

Definition celTokenReviewGroupsSafe : string :=
  "auth.identity.user.groups.all(g, type(g) == string && g.matches('" +:+ safeGroupNamePattern
    +:+ "') && !g.matches('" +:+ celOrganizationQualifiedGroup +:+ "'))".

Definition celOIDCFlatGroupsSafe : string :=
  "size(auth.identity.groups) <= 128 && auth.identity.groups.all(g, type(g) == string && g.matches('"
    +:+ safeGroupNamePattern +:+ "') && !g.matches('" +:+ celOrganizationQualifiedGroup +:+ "'))".

Definition celOIDCTransportGroups : string :=
  raw "(`org_id` in auth.identity ? (" +:+ celOIDCOrganizationIDSafe
    +:+ " && (!has(auth.identity.groups) || " +:+ celOIDCFlatGroupsSafe
    +:+ raw ") ? (has(auth.identity.groups) ? auth.identity.groups.map(g, auth.identity[`org_id`] + `/` + g) : []) : []) : (has(auth.identity.groups) && "
    +:+ celOIDCLegacyGroupsSafe +:+ " ? auth.identity.groups : []))".

Definition celTokenReviewGroups : string :=
  "(has(auth.identity.user.groups) && " +:+ celTokenReviewGroupsSafe
    +:+ " ? auth.identity.user.groups : [])".

Definition celNonAPIKeyGroups : string :=
  "(has(auth.identity.iss) ? " +:+ celOIDCTransportGroups +:+ " : " +:+ celTokenReviewGroups +:+ ")".

Definition celGroups : string :=
  "(has(auth.metadata) && has(auth.metadata.apiKeyValidation)) ? auth.metadata.apiKeyValidation.groups : "
    +:+ celNonAPIKeyGroups.

Definition celAPIKeyGroupsHeaderJSON : string :=
  raw "(has(auth.metadata.apiKeyValidation.groupsJSON) ? auth.metadata.apiKeyValidation.groupsJSON : (has(auth.metadata.apiKeyValidation.groups) ? (size(auth.metadata.apiKeyValidation.groups) > 0 ? '[`' + auth.metadata.apiKeyValidation.groups.join('`,`') + '`]' : '[]') : '[]'))".

Definition celIdentityOrganizationID : string :=
  raw "(has(auth.metadata) && has(auth.metadata.apiKeyValidation)) ? `` : (`org_id` in auth.identity && "
    +:+ celOIDCOrganizationIDSafe +:+ raw " ? auth.identity[`org_id`] : ``)".

Definition celTokenGroupsHeaderJSON : string :=
  "size(" +:+ celNonAPIKeyGroups +:+ raw ") > 0 ? '[`system:authenticated`,`' + "
    +:+ celNonAPIKeyGroups +:+ raw ".join('`,`') + '`]' : '[`system:authenticated`]'".

Definition celSubscription : string :=
  raw "(has(auth.metadata) && has(auth.metadata.apiKeyValidation)) ? auth.metadata.apiKeyValidation.subscription : (`x-maas-subscription` in request.headers ? request.headers[`x-maas-subscription`] : ``)".

Definition celPathParts : string :=
  raw "request.path.split(`/`).filter(x, x != ``)".

Definition celPathModelIdentityAvailable : string :=
  "size(" +:+ celPathParts +:+ ") >= 2 && " +:+ celPathParts +:+ raw "[0] != `v1` && "
    +:+ celPathParts +:+ raw "[0] != `maas-api`".

Definition celModelIdentityAvailable : string :=
  "(" +:+ celPathModelIdentityAvailable +:+ raw " || `x-gateway-model-name` in request.headers)".

Definition celModelIdentity : string :=
  "(" +:+ celPathModelIdentityAvailable +:+ " ? " +:+ celPathParts +:+ raw "[0] + `/` + "
    +:+ celPathParts
    +:+ raw "[1] : (`x-gateway-model-name` in request.headers   ? request.headers[`x-gateway-model-name`]   : ``))".

Definition celResolvedModelIdentity : string :=
  raw "(has(auth.metadata[`subscription-info`].resolvedModel) && auth.metadata[`subscription-info`].resolvedModel != `` ? auth.metadata[`subscription-info`].resolvedModel : "
    +:+ celModelIdentity +:+ ")".


Definition subscriptionInfoFieldExpr (field : string) : string :=
  raw "has(auth.metadata) && `subscription-info` in auth.metadata && has(auth.metadata[`subscription-info`]." +:+ field +:+ raw ") ? auth.metadata[`subscription-info`]." +:+ field +:+ raw " : ``".

Definition apiKeyCELPredicates (xAPIKeyEnabled : bool) : string * string * string :=
  if negb xAPIKeyEnabled then
    (raw "request.headers.authorization.matches(`^Bearer sk-oai-.*`)",
     raw "!request.headers.authorization.startsWith(`Bearer sk-oai-`)",
     raw "request.headers.authorization.replace(`Bearer `, ``)")
  else
    let authorizationAPIKey := raw "(`authorization` in request.headers && request.headers[`authorization`].matches(`^Bearer sk-oai-.*`))" in
    let xAPIKey := raw "(`x-api-key` in request.headers && request.headers[`x-api-key`].matches(`^sk-oai-.*`))" in
    let isAPIKey := authorizationAPIKey +:+ " || " +:+ xAPIKey in
    (isAPIKey, "!(" +:+ isAPIKey +:+ ")", "(" +:+ authorizationAPIKey +:+ raw " ? request.headers[`authorization`].replace(`Bearer `, ``) : " +:+ xAPIKey +:+ raw " ? request.headers[`x-api-key`] : ``)").

Definition subscriptionGatewayCacheKeySelector : string :=
  let apiKey := "(has(auth.metadata) && has(auth.metadata.apiKeyValidation))" in
  let identitySource := "(" +:+ apiKey +:+ raw " ? `api-key` : (has(auth.identity.iss) ? `oidc` : `token-review`))" in
  let apiKeyID := "(" +:+ apiKey +:+ raw " && `keyId` in auth.metadata.apiKeyValidation ? auth.metadata.apiKeyValidation.keyId : ``)" in
  let issuer := "(!" +:+ apiKey +:+ raw " && has(auth.identity.iss) ? auth.identity.iss : ``)" in
  let subject := "(!" +:+ apiKey +:+ raw " && has(auth.identity.sub) ? auth.identity.sub : ``)" in
  let requestedSubscription := raw "(`x-maas-subscription` in request.headers ? request.headers[`x-maas-subscription`] : ``)" in
  let groupList := "(" +:+ celGroups +:+ ")" in
  let groups := "string(size(" +:+ groupList +:+ raw ")) + `:` + " +:+ groupList +:+ raw ".map(g, string(size(g)) + `:` + g).join(``)" in
  let model := "(" +:+ celModelIdentity +:+ ")" in
  let values := [identitySource; celUserID; apiKeyID; celUsername; issuer; subject; celIdentityOrganizationID;
                 groups; celSubscription; requestedSubscription; model] in
  join " + " (map (fun value => "string(size(" +:+ value +:+ raw ")) + `:` + (" +:+ value +:+ ")") values).

(** ** [authpolicy/oidc.go] *)

Definition externalJWTShape : string :=
  raw "request.headers.authorization.matches(`^Bearer [^.]+\\.[^.]+\\.[^.]+$`)".
Definition OIDCTokenBoundWhen (notAPIKeyPredicate : string) : list JVal :=
  [JObj [("predicate", JStr (notAPIKeyPredicate +:+ " && " +:+ externalJWTShape +:+ " && has(auth.identity.iss)"))]].

Definition claim_equals (selector value : string) : JVal :=
  JObj [("selector", JStr selector); ("operator", JStr "eq"); ("value", JStr value)].
Definition OIDCTokenBoundPatterns (issuerURL clientID audience purposeClaim purposeValue : string) : list JVal :=
  ([claim_equals "auth.identity.iss" issuerURL; claim_equals "auth.identity.azp" clientID]
   ++ (if negb (String.eqb audience "")
       then [JObj [("predicate", JStr ("has(auth.identity.aud) && (auth.identity.aud == " +:+ Quote audience
                                       +:+ " || " +:+ Quote audience +:+ " in auth.identity.aud)"))]]
       else [])
   ++ (if negb (String.eqb purposeClaim "") && negb (String.eqb purposeValue "")
       then [claim_equals ("auth.identity." +:+ purposeClaim) purposeValue] else []))%list.

(** ** [maasauthpolicy_identity.go] *)

Definition managementIdentityRoutePredicate : string :=
  raw "request.path == `/v1/me` ||
request.path == `/maas-api/v1/me` ||
request.path == `/v1/subscriptions` ||
request.path.startsWith(`/v1/subscriptions/`) ||
	request.path == `/v1/models` ||
	request.path.startsWith(`/v1/model/`) && request.path.endsWith(`/subscriptions`) ||
	request.path.startsWith(`/v1/api-keys`) ||
	request.path.startsWith(`/v1/logs`) ||
	request.path.startsWith(`/maas-api/v1/subscriptions`) ||
	request.path == `/maas-api/v1/models` ||
	request.path.startsWith(`/maas-api/v1/model/`) && request.path.endsWith(`/subscriptions`) ||
	request.path.startsWith(`/maas-api/v1/api-keys`) ||
	request.path.startsWith(`/maas-api/v1/logs`)".

Definition optional_claim (name : string) : string * string :=
  (name, "has(auth.identity." +:+ name +:+ ") ? auth.identity." +:+ name +:+ " : " +:+ dq +:+ dq).
Definition verifiedIdentityClaims : list (string * string) :=
  [("iss", "auth.identity.iss"); ("sub", "auth.identity.sub"); ("aud", "auth.identity.aud"); ("azp", "auth.identity.azp");
   optional_claim "name"; optional_claim "given_name"; optional_claim "family_name";
   optional_claim "preferred_username"; optional_claim "email";
   ("groups", "has(auth.identity.groups) ? auth.identity.groups : []")].
Definition claim_entry (claim : string * string) : string := Quote claim.1 +:+ ": " +:+ claim.2.
Definition verifiedIdentityClaimsExpression : string :=
  let entries := map claim_entry verifiedIdentityClaims in
  let organizationEntries := (entries ++ map claim_entry
    [("org_id", raw "auth.identity[`org_id`]");
     ("org_name", raw "`org_name` in auth.identity ? auth.identity[`org_name`] : ``");
     ("roles", raw "`roles` in auth.identity ? auth.identity[`roles`] : []")])%list in
  let baseClaims := "{" +:+ join ", " entries +:+ "}" in
  let organizationClaims := "{" +:+ join ", " organizationEntries +:+ "}" in
  raw "`org_id` in auth.identity ? " +:+ organizationClaims +:+ " : " +:+ baseClaims.

Definition verifiedIdentityContractConfigured (oidc : option oidcConfig) : bool :=
  match oidc with
  | Some o => negb (String.eqb (IssuerURL o) "") && negb (String.eqb (ClientID o) "")
  | None => false
  end.

Definition externalOIDCPredicate (notAPIKeyPredicate : string) : string :=
  match OIDCTokenBoundWhen notAPIKeyPredicate with
  | [clause] =>
      match as_map (Some clause) with
      | Some clause =>
          match as_string (get "predicate" clause) with
          | Some predicate => if String.eqb predicate "" then "false" else predicate
          | None => "false"
          end
      | None => "false"
      end
  | _ => "false"
  end.

Definition verifiedIdentityHeader (oidc : option oidcConfig) (notAPIKeyPredicate : string) : JVal :=
  let predicate :=
    if verifiedIdentityContractConfigured oidc
    then "(" +:+ managementIdentityRoutePredicate +:+ ") && (" +:+ externalOIDCPredicate notAPIKeyPredicate +:+ ")"
    else "false" in
  JObj [
    ("when", JArr [JObj [("predicate", JStr predicate)]]);
    ("json", JObj [
      ("properties", JObj [
        ("source", JObj [("value", JStr "oidc")]);
        ("claims", JObj [("expression", JStr verifiedIdentityClaimsExpression)])])]);
    ("metrics", JBool false);
    ("priority", JInt 0)].

(** ** Response headers *)

Definition subscriptionInfoStringHeader (jsonField : string) : JVal :=
  let path := raw "auth.metadata[`subscription-info`]." +:+ jsonField in
  JObj [
    ("when", JArr [JObj [("predicate", JStr ("has(" +:+ path +:+ ") && " +:+ path +:+ raw " != ``"))]]);
    ("plain", JObj [("expression", JStr path)]);
    ("metrics", JBool false);
    ("priority", JInt 0)].

Definition subscriptionInfoHeader (field : string) : JVal :=
  JObj [
    ("plain", JObj [("expression", JStr (subscriptionInfoFieldExpr field))]);
    ("metrics", JBool false);
    ("priority", JInt 0)].

Definition selectedGuardrailHeader (checkID : string) : JVal :=
  let selected := raw "auth.metadata[`subscription-info`].selectedGuardrailChecks" in
  JObj [
    ("when", JArr [JObj [("predicate", JStr celModelIdentityAvailable)]]);
    ("plain", JObj [
      ("expression", JStr ("(has(" +:+ selected +:+ ") && " +:+ Quote checkID +:+ " in " +:+ selected +:+ " && " +:+ selected +:+ "[" +:+ Quote checkID +:+ raw "] == true) ? `true` : `false`"))]);
    ("metrics", JBool false);
    ("priority", JInt 0)].

Definition selectedGuardrailChecksRego (headers : list guardrailHeader) : string :=
  let encodedIDs := marshal_strings (map gh_ID headers) in
  raw "import future.keywords.every

allow {
  selected := object.get(input.auth.metadata[`subscription-info`], `selectedGuardrailChecks`, null)
  selected != null
  every id, value in selected {
    id in " +:+ encodedIDs +:+ "
    value == true
  }
}
".

Section Spec.
Context `{GS : GatewaySettings}.

(** ** Caching *)

(** The smaller of the two, neither below 0. *)
Definition authzCacheTTL : Z :=
  let metadata := if (MetadataCacheTTL <? 0)%Z then 0%Z else MetadataCacheTTL in
  let authz := if (AuthzCacheTTL <? 0)%Z then 0%Z else AuthzCacheTTL in
  if (authz <? metadata)%Z then authz else metadata.
Definition ValidateCacheTTLs : Res string unit :=
  if (MetadataCacheTTL <? 0)%Z
  then Err ("metadata cache TTL must be non-negative, got " +:+ format_int MetadataCacheTTL)
  else if (AuthzCacheTTL <? 0)%Z
  then Err ("authorization cache TTL must be non-negative, got " +:+ format_int AuthzCacheTTL)
  else Ok tt.

(** ** The specification *)

Definition maasAPIServiceName (tenantID : string) : string :=
  if negb (String.eqb tenantID "") then "maas-api-" +:+ tenantID else "maas-api".
Definition apiKeyValidationURL (maasAPIServiceName : string) : string :=
  "https://" +:+ maasAPIServiceName +:+ "." +:+ InfraNamespace +:+ ".svc.cluster.local:8443/internal/v1/api-keys/validate".
Definition subscriptionSelectorURL (maasAPIServiceName : string) : string :=
  "https://" +:+ maasAPIServiceName +:+ "." +:+ InfraNamespace +:+ ".svc.cluster.local:8443/internal/v1/subscriptions/select".
Definition subscriptionInfoBody : string :=
  raw "{
  `groups`: " +:+ celGroups +:+ raw ",
  `username`: " +:+ celUsername +:+ raw ",
  `requestedSubscription`: " +:+ celSubscription +:+ raw ",
  `requestedModel`: " +:+ celModelIdentity +:+ "
}".

Definition x_api_key_method : JVal :=
  JObj [
    ("plain", JObj [("expression", JStr (raw "request.headers[`x-api-key`]"))]);
    ("when", JArr [
      JObj [
        ("selector", JStr "request.headers.x-api-key");
        ("operator", JStr "matches");
        ("value", JStr "^sk-oai-.*")]]);
    ("metrics", JBool false);
    ("priority", JInt 1)].
Definition oidc_method (o : oidcConfig) (celIsNotAPIKey : string) : JVal :=
  JObj [
    ("jwt", JObj [("issuerUrl", JStr (IssuerURL o)); ("ttl", JInt (TTL o))]);
    ("when", JArr [
      JObj [
        ("predicate", JStr (celIsNotAPIKey +:+ raw " && request.headers.authorization.matches(`^Bearer [^.]+\\.[^.]+\\.[^.]+$`)"))]]);
    ("metrics", JBool false);
    ("priority", JInt 1)].
Definition authenticationRules (oidc : option oidcConfig) (xAPIKeyEnabled : bool) (celIsNotAPIKey : string) : JMap :=
  let rules :=
  [
      ("api-keys", JObj [
        ("plain", JObj [("selector", JStr "request.headers.authorization")]);
        ("when", JArr [
          JObj [
            ("selector", JStr "request.headers.authorization");
            ("operator", JStr "matches");
            ("value", JStr "^Bearer sk-oai-.*")]]);
        ("metrics", JBool false);
        ("priority", JInt 0)]);
      ("openshift-identities", JObj [
        ("kubernetesTokenReview", JObj [("audiences", JArr [JStr ClusterAudience])]);
        ("metrics", JBool false);
        ("priority", JInt 2)])] in
  let rules := if xAPIKeyEnabled then put "api-keys-x-api-key" x_api_key_method rules else rules in
  match oidc with Some o => put "oidc-identities" (oidc_method o celIsNotAPIKey) rules | None => rules end.

Definition requireGroupMembershipRego : string :=
  raw "allow {
  object.get(input.auth.metadata[`subscription-info`], `accessAllowed`, false) == true
}".
Definition base_authorization (celIsAPIKey authValidCacheKey : string) : JMap :=
  [
    ("deny-api-key-management", JObj [
      ("when", JArr [
        JObj [
          ("predicate", JStr ("(" +:+ celIsAPIKey +:+ raw ") && (request.path == `/maas-api/v1/api-keys` || request.path.startsWith(`/maas-api/v1/api-keys/`))"))]]);
      ("metrics", JBool false);
      ("priority", JInt 0);
      ("patternMatching", JObj [("patterns", JArr [JObj [("predicate", JStr "false")]])])]);
    ("deny-client-identity-headers", JObj [
      ("metrics", JBool false);
      ("priority", JInt 0);
      ("patternMatching", JObj [
        ("patterns", JArr [
          JObj [("predicate", JStr (raw "!(`x-maas-username` in request.headers)"))];
          JObj [("predicate", JStr (raw "!(`x-maas-group` in request.headers)"))];
          JObj [("predicate", JStr (raw "!(`x-maas-exact-groups` in request.headers)"))];
          JObj [("predicate", JStr (raw "!(`x-maas-keyname` in request.headers)"))];
          JObj [
            ("predicate", JStr (raw "!(`x-maas-subscription-rate-limit-id` in request.headers)"))];
          JObj [("predicate", JStr (raw "!(`x-maas-organization-id` in request.headers)"))];
          JObj [("predicate", JStr (raw "!(`x-maas-cost-center` in request.headers)"))];
          JObj [("predicate", JStr (raw "!(`x-maas-identity` in request.headers)"))];
          JObj [("predicate", JStr (raw "!(`x-maas-admin-scope` in request.headers)"))];
          JObj [
            ("predicate", JStr (raw "request.headers.all(name, !name.startsWith(`x-aigateway-guardrail-`))"))]])])]);
    ("auth-valid", JObj [
      ("metrics", JBool false);
      ("priority", JInt 0);
      ("opa", JObj [
        ("rego", JStr (raw "allow {
  object.get(input.auth.metadata, `apiKeyValidation`, {})
  input.auth.metadata.apiKeyValidation.valid == true
}
allow {
  not input.auth.metadata.apiKeyValidation
}"))]);
      ("cache", JObj [("key", JObj [("selector", JStr authValidCacheKey)]); ("ttl", JInt authzCacheTTL)])]);
    ("subscription-valid", JObj [
      ("when", JArr [JObj [("predicate", JStr celModelIdentityAvailable)]]);
      ("metrics", JBool false);
      ("priority", JInt 0);
      ("opa", JObj [
        ("rego", JStr (raw "allow {
	object.get(input.auth.metadata[`subscription-info`], `name`, ``) != ``
	object.get(input.auth.metadata[`subscription-info`], `error`, ``) == ``
	phase := object.get(input.auth.metadata[`subscription-info`], `phase`, ``)
	any([phase == `Active`, phase == `Degraded`])
	object.get(input.auth.metadata[`subscription-info`], `deletionTimestamp`, ``) == ``
}"))]);
      ("cache", JObj [
        ("key", JObj [("selector", JStr subscriptionGatewayCacheKeySelector)]);
        ("ttl", JInt authzCacheTTL)])]);
    ("require-group-membership", JObj [
      ("when", JArr [JObj [("predicate", JStr celModelIdentityAvailable)]]);
      ("metrics", JBool false);
      ("priority", JInt 0);
      ("opa", JObj [("rego", JStr requireGroupMembershipRego)]);
      ("cache", JObj [
        ("key", JObj [("selector", JStr subscriptionGatewayCacheKeySelector)]);
        ("ttl", JInt authzCacheTTL)])])].

Definition guardrail_rule (headers : list guardrailHeader) : JVal :=
  JObj [
    ("when", JArr [JObj [("predicate", JStr celModelIdentityAvailable)]]);
    ("metrics", JBool false);
    ("priority", JInt 0);
    ("opa", JObj [("rego", JStr (selectedGuardrailChecksRego headers))])].
Definition oidc_groups_rule (celIsNotAPIKey : string) : JVal :=
  JObj [
    ("when", JArr [
      JObj [
        ("predicate", JStr (celIsNotAPIKey +:+ raw " && has(auth.identity.iss) && (`org_id` in auth.identity || (has(auth.identity.groups) && size(auth.identity.groups) > 0))"))]]);
    ("metrics", JBool false);
    ("priority", JInt 0);
    ("opa", JObj [
      ("rego", JStr (raw "unsafe_group[`invalid_type`] {
	g := input.auth.identity.groups[_]
	not is_string(g)
}

unsafe_group[g] {
	org_id := input.auth.identity.org_id
	is_string(org_id)
	g := input.auth.identity.groups[_]
	is_string(g)
	g == ``
}

unsafe_group[g] {
	org_id := input.auth.identity.org_id
	is_string(org_id)
	g := input.auth.identity.groups[_]
	is_string(g)
	encoded := base64.encode(g)
	count(encoded) > 344
}

unsafe_group[g] {
	org_id := input.auth.identity.org_id
	is_string(org_id)
	g := input.auth.identity.groups[_]
	is_string(g)
	encoded := base64.encode(g)
	count(encoded) == 344
	not regex.match(`==$`, encoded)
}

unsafe_group[g] {
	org_id := input.auth.identity.org_id
	is_string(org_id)
	g := input.auth.identity.groups[_]
	is_string(g)
	not regex.match(`" +:+ safeGroupNamePattern +:+ raw "`, g)
}

unsafe_group[g] {
	org_id := input.auth.identity.org_id
	is_string(org_id)
	g := input.auth.identity.groups[_]
	is_string(g)
	regex.match(`" +:+ celOrganizationQualifiedGroup +:+ raw "`, g)
}

unsafe_group[g] {
	g := input.auth.identity.groups[_]
	is_string(g)
	not input.auth.identity.org_id
	not regex.match(`" +:+ safeGroupNamePattern +:+ raw "`, g)
}

unsafe_group[g] {
	g := input.auth.identity.groups[_]
	is_string(g)
	not input.auth.identity.org_id
	regex.match(`" +:+ celOrganizationQualifiedGroup +:+ raw "`, g)
}

invalid_org_id {
	org_id := input.auth.identity.org_id
	not is_string(org_id)
}

invalid_org_id {
	org_id := input.auth.identity.org_id
	is_string(org_id)
	not regex.match(`" +:+ celCanonicalOrganizationIDPattern +:+ raw "`, org_id)
}

invalid_group_list {
	object.keys(input.auth.identity)[_] == `groups`
	not is_array(input.auth.identity.groups)
}

invalid_group_list {
	groups := input.auth.identity.groups
	is_array(groups)
	count(groups) > 128
}

duplicate_group {
	org_id := input.auth.identity.org_id
	is_string(org_id)
	groups := input.auth.identity.groups
	is_array(groups)
	count(groups) <= 128
	count({g | g := groups[_]}) != count(groups)
}

allow {
	count(unsafe_group) == 0
	not invalid_org_id
	not invalid_group_list
	not duplicate_group
}"))])].
Definition oidc_client_rule (o : oidcConfig) (celIsNotAPIKey : string) : JVal :=
  JObj [
    ("when", JArr (OIDCTokenBoundWhen celIsNotAPIKey));
    ("metrics", JBool false);
    ("priority", JInt 1);
    ("patternMatching", JObj [
      ("patterns", JArr (OIDCTokenBoundPatterns (IssuerURL o) (ClientID o) (Audience o)
                           (AccessTokenPurposeClaim o) (AccessTokenPurpose o)))])].
(** [None] is the nil catalogue of the base policy. *)
Definition authorizationRules (oidc : option oidcConfig) (guardrailHeaders : option (list guardrailHeader))
    (celIsAPIKey celIsNotAPIKey celExtractKey : string) : JMap :=
  let authValidCacheKey := raw "`api-key|` + (" +:+ celExtractKey +:+ raw ") + `|` + " +:+ celModelIdentity in
  let rules := base_authorization celIsAPIKey authValidCacheKey in
  let rules := match guardrailHeaders with
               | Some headers => put "guardrail-checks-known" (guardrail_rule headers) rules
               | None => rules
               end in
  match oidc with
  | Some o => put "oidc-client-bound" (oidc_client_rule o celIsNotAPIKey)
                (put "oidc-groups-safe" (oidc_groups_rule celIsNotAPIKey) rules)
  | None => rules
  end.

Definition metadata_rules (apiKeyValidationURL subscriptionSelectorURL : string) : JVal :=
  JObj [
      ("apiKeyValidation", JObj [
        ("when", JArr [JObj [("predicate", JStr (raw "auth.identity.matches(`^(Bearer )?sk-oai-.*`)"))]]);
        ("http", JObj [
          ("url", JStr apiKeyValidationURL);
          ("contentType", JStr "application/json");
          ("method", JStr "POST");
          ("body", JObj [("expression", JStr (raw "{`key`: auth.identity.replace(`Bearer `, ``)}"))])]);
        ("cache", JObj [
          ("key", JObj [("selector", JStr (raw "auth.identity.replace(`Bearer `, ``)"))]);
          ("ttl", JInt MetadataCacheTTL)]);
        ("metrics", JBool false);
        ("priority", JInt 0)]);
      ("subscription-info", JObj [
        ("when", JArr [JObj [("predicate", JStr celModelIdentityAvailable)]]);
        ("http", JObj [
          ("url", JStr subscriptionSelectorURL);
          ("contentType", JStr "application/json");
          ("method", JStr "POST");
          ("body", JObj [("expression", JStr subscriptionInfoBody)])]);
        ("cache", JObj [
          ("key", JObj [("selector", JStr subscriptionGatewayCacheKeySelector)]);
          ("ttl", JInt MetadataCacheTTL)]);
        ("metrics", JBool false);
        ("priority", JInt 1)])].

Definition success_headers (oidc : option oidcConfig) (celIsAPIKey celIsNotAPIKey : string) : JMap :=
  [
          ("X-MaaS-Username", JObj [
            ("when", JArr [JObj [("predicate", JStr celIsAPIKey)]]);
            ("plain", JObj [("selector", JStr "auth.metadata.apiKeyValidation.username")]);
            ("metrics", JBool false);
            ("priority", JInt 0)]);
          ("X-MaaS-Username-Token", JObj [
            ("when", JArr [JObj [("predicate", JStr celIsNotAPIKey)]]);
            ("plain", JObj [
              ("expression", JStr "has(auth.identity.preferred_username) ? auth.identity.preferred_username : (has(auth.identity.sub) ? auth.identity.sub : auth.identity.user.username)")]);
            ("key", JStr "X-MaaS-Username");
            ("metrics", JBool false);
            ("priority", JInt 1)]);
          ("X-MaaS-Group", JObj [
            ("when", JArr [JObj [("predicate", JStr celIsAPIKey)]]);
            ("plain", JObj [("expression", JStr celAPIKeyGroupsHeaderJSON)]);
            ("metrics", JBool false);
            ("priority", JInt 0)]);
          ("X-MaaS-Group-Token", JObj [
            ("when", JArr [
              JObj [
                ("predicate", JStr (celIsNotAPIKey +:+ raw " && !(`org_id` in auth.identity)"))]]);
            ("plain", JObj [("expression", JStr celTokenGroupsHeaderJSON)]);
            ("key", JStr "X-MaaS-Group");
            ("metrics", JBool false);
            ("priority", JInt 1)]);
          ("X-MaaS-Subscription", JObj [
            ("when", JArr [
              JObj [
                ("predicate", JStr (raw "has(auth.metadata) && has(auth.metadata.apiKeyValidation) && auth.metadata.apiKeyValidation.subscription != ``"))]]);
            ("plain", JObj [("expression", JStr celSubscription)]);
            ("metrics", JBool false);
            ("priority", JInt 0)]);
          ("X-MaaS-Subscription-Rate-Limit-Id", JObj [
            ("when", JArr [
              JObj [
                ("predicate", JStr (raw "has(auth.metadata[`subscription-info`].rateLimitId) && auth.metadata[`subscription-info`].rateLimitId != ``"))]]);
            ("plain", JObj [("expression", JStr (raw "auth.metadata[`subscription-info`].rateLimitId"))]);
            ("metrics", JBool false);
            ("priority", JInt 0)]);
          ("X-MaaS-KeyName", JObj [
            ("when", JArr [JObj [("predicate", JStr celIsAPIKey)]]);
            ("plain", JObj [("expression", JStr "auth.metadata.apiKeyValidation.keyName")]);
            ("key", JStr "x-maas-keyname");
            ("metrics", JBool false);
            ("priority", JInt 0)]);
          ("x-llm-d-inference-objective", subscriptionInfoHeader "objective");
          ("x-gateway-inference-objective", subscriptionInfoHeader "objective");
          ("x-llm-d-inference-fairness-id", subscriptionInfoHeader "fairnessId");
          ("x-gateway-inference-fairness-id", subscriptionInfoHeader "fairnessId");
          ("x-maas-organization-id", subscriptionInfoHeader "organizationId");
          ("X-MaaS-Cost-Center", subscriptionInfoStringHeader "costCenter");
          ("X-MaaS-Identity", verifiedIdentityHeader oidc celIsNotAPIKey)].

Definition success_filters : JVal :=
  JObj [
          ("identity", JObj [
            ("when", JArr [JObj [("predicate", JStr celModelIdentityAvailable)]]);
            ("json", JObj [
              ("properties", JObj [
                ("groups", JObj [("expression", JStr celGroups)]);
                ("groups_str", JObj [("expression", JStr ("(" +:+ celGroups +:+ raw ").join(`,`)"))]);
                ("userid", JObj [("expression", JStr celUsername)]);
                ("keyId", JObj [
                  ("expression", JStr (raw "(has(auth.metadata) && has(auth.metadata.apiKeyValidation)) ? auth.metadata.apiKeyValidation.keyId : ``"))]);
                ("keyName", JObj [
                  ("expression", JStr (raw "(has(auth.metadata) && has(auth.metadata.apiKeyValidation)) ? auth.metadata.apiKeyValidation.keyName : ``"))]);
                ("selected_subscription", JObj [
                  ("expression", JStr (raw "has(auth.metadata[`subscription-info`].name) ? auth.metadata[`subscription-info`].name : ``"))]);
                ("selected_subscription_key", JObj [
                  ("expression", JStr (raw "(has(auth.metadata[`subscription-info`].namespace) && has(auth.metadata[`subscription-info`].name)) ? auth.metadata[`subscription-info`].namespace + `/` + auth.metadata[`subscription-info`].name + `@` + " +:+ celResolvedModelIdentity +:+ raw " : ``"))]);
                ("selected_subscription_id", JObj [
                  ("expression", JStr (raw "has(auth.metadata[`subscription-info`].rateLimitId) ? auth.metadata[`subscription-info`].rateLimitId : ``"))]);
                ("subscription_info", JObj [
                  ("expression", JStr (raw "has(auth.metadata[`subscription-info`].name) ? auth.metadata[`subscription-info`] : {}"))]);
                ("subscription_error", JObj [
                  ("expression", JStr (raw "has(auth.metadata[`subscription-info`].error) ? auth.metadata[`subscription-info`].error : ``"))]);
                ("subscription_error_message", JObj [
                  ("expression", JStr (raw "has(auth.metadata[`subscription-info`].message) ? auth.metadata[`subscription-info`].message : ``"))])])]);
            ("metrics", JBool true);
            ("priority", JInt 0)])].

Definition unauthenticated_response : JVal :=
  JObj [
        ("code", JInt 401);
        ("message", JObj [("value", JStr "Authentication required")]);
        ("body", JObj [
          ("value", JStr (raw "{`error`:{`message`:`Authentication required`,`type`:`authentication_error`,`code`:401}}"))]);
        ("headers", JObj [("content-type", JObj [("value", JStr "application/json")])])].

Definition unauthorized_response : JVal :=
  JObj [
        ("code", JInt 403);
        ("body", JObj [
          ("expression", JStr (raw "'{`error`:{`message`:`' + (has(auth.metadata[`subscription-info`].message) ? auth.metadata[`subscription-info`].message.replace('\\', '\\\\').replace('`', '\\`').replace('\n', '\\n').replace('\r', '\\r').replace('\t', '\\t') : `Access denied`) + '`,`type`:`authorization_error`,`code`:403}}'"))]);
        ("headers", JObj [
          ("x-ext-auth-reason", JObj [
            ("expression", JStr (raw "has(auth.metadata[`subscription-info`].error) ? auth.metadata[`subscription-info`].error : `unauthorized`"))]);
          ("content-type", JObj [("value", JStr "application/json")])])].

(** The loop over the catalogue. *)
Definition add_guardrail_headers (headers : list guardrailHeader) (successHeaders : JMap) : JMap :=
  fold_left (fun m header => put (gh_Name header) (selectedGuardrailHeader (gh_ID header)) m) headers successHeaders.

(** [tenantName] and [gatewayNamespace] are not used. *)
Definition buildGatewayAuthPolicySpec (oidc : option oidcConfig) (xAPIKeyEnabled : bool)
    (tenantID tenantName gatewayNamespace gatewayName : string) (guardrailHeaders : option (list guardrailHeader))
    : option JMap :=
  let service := maasAPIServiceName tenantID in
  let '(celIsAPIKey, celIsNotAPIKey, celExtractKey) := apiKeyCELPredicates xAPIKeyEnabled in
  let defaultsRules : JMap := [
    ("metadata", metadata_rules (apiKeyValidationURL service) (subscriptionSelectorURL service));
    ("authentication", JObj (authenticationRules oidc xAPIKeyEnabled celIsNotAPIKey));
    ("authorization", JObj (authorizationRules oidc guardrailHeaders celIsAPIKey celIsNotAPIKey celExtractKey));
    ("response", JObj [
      ("success", JObj [
        ("headers", JObj (success_headers oidc celIsAPIKey celIsNotAPIKey));
        ("filters", success_filters)]);
      ("unauthenticated", unauthenticated_response);
      ("unauthorized", unauthorized_response)])] in
  rules ← requiredMap (add_guardrail_headers (default [] guardrailHeaders)) defaultsRules ["response"; "success"; "headers"];
  Some [
    ("targetRef", JObj [
      ("group", JStr "gateway.networking.k8s.io");
      ("kind", JStr "Gateway");
      ("name", JStr gatewayName)]);
    ("defaults", JObj [
      ("when", JArr [JObj [("predicate", JStr (raw "request.path != `/maas-api/health` || request.method != `GET`"))]]);
      ("rules", JObj rules)])].

End Spec.
End GatewaySpec.
