(* ===== verification/GatewayMetadata.v ===== *)
(** * GatewayMetadata: where a tenant's Gateway answers

    [maas-discovery/internal/gateway/metadata.go]: the endpoint of a Gateway as
    the discovery service publishes it, read from the Gateway's listeners and
    addresses and, for a Gateway that only knows its Service, from the OpenShift
    Routes to that Service.  The facts at the end characterise the listener
    chosen, the Route chosen and the URL built. *)

From S2P Require Import Prelude GoStrings Unstructured.
From Stdlib Require String.
Local Open Scope string_scope.

Module GatewayMetadata.

Definition protocolHTTPS : string := "HTTPS".
Definition protocolTLS : string := "TLS".
Definition protocolHTTP : string := "HTTP".
Definition schemeHTTPS : string := "https".
Definition schemeHTTP : string := "http".

(** Externally reachable Route endpoint of a Gateway Service. *)
Record RouteHostInfo := mkRouteHost { rh_Host : string; rh_Scheme : string; rh_Port : Z }.

(** [types.GatewayMetadata]. *)
Record Metadata := mkMetadata {
  Name : string; Namespace : string; Protocol : string; ExternalURL : string; Port : Z;
}.
#[export] Instance Metadata_eq_dec : EqDecision Metadata.
Proof. solve_decision. Defined.

Inductive MetadataErr :=
| NoSpec | NoStatus | NoSpecListeners | NoStatusListeners | NoReadyListener | NoHostname
| InternalHostname (host : string).

(** ** Numbers *)

Definition digit_value (c : ascii) : option Z :=
  if in_range 48 57 c then Some (byte_of c - 48)%Z else None.

(** The digits at the front of a literal: value, how many, the rest. *)
Fixpoint digits (acc : Z) (n : Z) (s : string) : Z * Z * string :=
  match s with
  | EmptyString => (acc, n, s)
  | String c r =>
      match digit_value c with
      | Some d => digits (acc * 10 + d) (n + 1) r
      | None => (acc, n, s)
      end
  end%Z.

(** The unsigned JSON number [s] as [m * 10 ^ e]. *)
Definition decimal (s : string) : Z * Z :=
  let '(whole, _, s) := digits 0 0 s in
  let '(m, places, s) :=
    match s with
    | String "." s => digits whole 0 s
    | _ => (whole, 0%Z, s)
    end in
  let exponent :=
    match s with
    | String "e" s | String "E" s =>
        match s with
        | String "-" s => (- (digits 0 0 s).1.1)%Z
        | String "+" s => (digits 0 0 s).1.1
        | _ => (digits 0 0 s).1.1
        end
    | _ => 0%Z
    end in
  (m, exponent - places)%Z.

(** The nearest integer, ties to even. *)
Definition round_half_even (n d : Z) : Z :=
  let q := (n / d)%Z in
  match (2 * (n mod d) ?= d)%Z with
  | Lt => q
  | Gt => q + 1
  | Eq => if Z.even q then q else q + 1
  end%Z.

(** The integer part of the float64 nearest to [n / d]: 53 significant bits. *)
Definition truncated_float64 (n d : Z) : Z :=
  if (n <=? 0)%Z then 0%Z else
  let k := (Z.log2 n - Z.log2 d - 52)%Z in
  let k := if (n * 2 ^ Z.max 0 (- k) <? 2 ^ 52 * d * 2 ^ Z.max 0 k)%Z then (k - 1)%Z else k in
  let q := round_half_even (n * 2 ^ Z.max 0 (- k)) (d * 2 ^ Z.max 0 k) in
  ((q * 2 ^ Z.max 0 k) / 2 ^ Z.max 0 (- k))%Z.

(** [int64(f)] of the float64 a JSON literal denotes.  Out of range the
    language leaves the result open; it is amd64's here. *)
Definition float_to_int64 (literal : string) : Z :=
  let '(negative, s) := match literal with String "-" s => (true, s) | _ => (false, literal) end in
  let '(m, e) := decimal s in
  let magnitude := truncated_float64 (m * 10 ^ Z.max 0 e) (10 ^ Z.max 0 (- e)) in
  let z := (if negative then - magnitude else magnitude)%Z in
  if ((z <? int64_min) || (int64_max <? z))%Z then int64_min else z.

(** [toInt64]; decoded objects hold no other integer type. *)
Definition toInt64 (v : option JVal) : Z :=
  match v with
  | Some (JInt n) => n
  | Some (JFloat literal) => float_to_int64 literal
  | _ => 0%Z
  end.

(** ** Routes *)

Definition routeUsesTLS (routeSpec : JMap) : bool := bool_decide (is_Some (as_map (get "tls" routeSpec))).

Definition admitted_condition (cond : JMap) : bool :=
  String.eqb (string_or_empty (get "type" cond)) "Admitted"
  && String.eqb (string_or_empty (get "status" cond)) "True".

Definition routeAdmitted (route : JMap) : bool :=
  match as_map (get "status" route) with
  | None => false
  | Some status =>
      match as_slice (get "ingress" status) with
      | None => false
      | Some ingresses =>
          existsb (fun ingressMap =>
            match as_slice (get "conditions" ingressMap) with
            | None => false
            | Some conditions => existsb admitted_condition (maps_of conditions)
            end) (maps_of ingresses)
      end
  end.

(** The endpoint one Route offers, and the Service it leads to. *)
Definition route_endpoint (route : Object) : option (string * RouteHostInfo) :=
  if negb (routeAdmitted (Fields route)) then None else
  match as_map (get "spec" (Fields route)) with
  | None => None
  | Some spec =>
      let host := string_or_empty (get "host" spec) in
      if String.eqb host "" then None else
      match as_map (get "to" spec) with
      | None => None
      | Some to =>
          let svcName := string_or_empty (get "name" to) in
          if String.eqb svcName "" then None else
          let '(scheme, port) := if routeUsesTLS spec then (schemeHTTPS, 443%Z) else (schemeHTTP, 80%Z) in
          Some (svcName, mkRouteHost host scheme port)
      end
  end.

(** One turn of the loop: a TLS endpoint already found stays. *)
Definition add_route (m : gmap string RouteHostInfo) (route : Object) : gmap string RouteHostInfo :=
  match route_endpoint route with
  | None => m
  | Some (svcName, info) =>
      match m !! svcName with
      | Some existing => if String.eqb (rh_Scheme existing) schemeHTTPS then m else <[svcName := info]> m
      | None => <[svcName := info]> m
      end
  end.

Definition BuildRouteHostMap (routes : list Object) : gmap string RouteHostInfo :=
  foldl add_route ∅ routes.

(** ** Listeners *)

Definition listenerSchemeAndPort (listenerProtocol : string) (listenerPort : Z) : string * Z :=
  (if String.eqb listenerProtocol protocolHTTP then schemeHTTP else schemeHTTPS, listenerPort).

Record Listener := mkListener { l_port : Z; l_protocol : string; l_hostname : string }.

(** The body of the loop up to the choice: [None] is [continue]. *)
Definition ready_listener (statusByName : gmap string JMap) (l : JVal) : option Listener :=
  match as_map (Some l) with
  | None => None
  | Some specListener =>
      match statusByName !! string_or_empty (get "name" specListener) with
      | None => None
      | Some statusListener =>
          if (toInt64 (get "attachedRoutes" statusListener) =? 0)%Z then None else
          Some {| l_port := let p := toInt64 (get "port" specListener) in if (p =? 0)%Z then 443%Z else p;
                  l_protocol := default protocolHTTPS (as_string (get "protocol" specListener));
                  l_hostname := string_or_empty (get "hostname" specListener) |}
      end
  end.

Definition secure (l : Listener) : bool :=
  String.eqb (l_protocol l) protocolHTTPS || String.eqb (l_protocol l) protocolTLS.
Definition plain (l : Listener) : bool := String.eqb (l_protocol l) protocolHTTP.

(** [selectBestListener]: [http] is the first plain listener met so far. *)
Fixpoint select_listener (http : option Listener) (specListeners : list JVal)
    (statusByName : gmap string JMap) : option Listener :=
  match specListeners with
  | [] => http
  | l :: rest =>
      match ready_listener statusByName l with
      | None => select_listener http rest statusByName
      | Some r =>
          if secure r then Some r else
          let http := match http with
                      | None => if plain r then Some r else None
                      | Some _ => http
                      end in
          select_listener http rest statusByName
      end
  end.
Definition selectBestListener (specListeners : list JVal) (statusByName : gmap string JMap) : option Listener :=
  select_listener None specListeners statusByName.

Definition status_by_name (statusListeners : list JVal) : gmap string JMap :=
  foldl (fun m statusListener =>
    match as_string (get "name" statusListener) with
    | Some n => <[n := statusListener]> m
    | None => m
    end) ∅ (maps_of statusListeners).

(** ** Metadata *)

(** The host of [status.addresses[0].value]. *)
Definition first_address (status : JMap) : string :=
  match as_slice (get "addresses" status) with
  | Some (a :: _) =>
      match as_map (Some a) with Some addr => string_or_empty (get "value" addr) | None => "" end
  | _ => ""
  end.

Definition external_url (scheme host : string) (port : Z) : string :=
  let url := scheme +:+ "://" +:+ host in
  if (String.eqb scheme schemeHTTPS && negb (port =? 443)%Z)
     || (String.eqb scheme schemeHTTP && negb (port =? 80)%Z)
  then url +:+ ":" +:+ format_int port else url.

Definition published (name namespace scheme host : string) (port : Z) : Metadata :=
  {| Name := name; Namespace := namespace; Protocol := scheme;
     ExternalURL := external_url scheme host port; Port := port |}.

(** The first of the maps that knows the Service. *)
Fixpoint find_route (svcName : string) (routeHosts : list (gmap string RouteHostInfo)) : option RouteHostInfo :=
  match routeHosts with
  | [] => None
  | rh :: rest => match rh !! svcName with Some info => Some info | None => find_route svcName rest end
  end.

Definition internal_suffix : string := ".svc.cluster.local".

(** [strings.Cut(host, ".")], the part in front. *)
Definition first_label (host : string) : string :=
  match cut "." host with Some (s, _) => s | None => host end.

(** [hostname], or where it is empty the first address. *)
Definition own_host (status : JMap) (l : Listener) : string :=
  if String.eqb (l_hostname l) "" then first_address status else l_hostname l.

Definition ExtractMetadata (gateway : JMap) (name namespace : string)
    (routeHosts : list (gmap string RouteHostInfo)) : Res MetadataErr Metadata :=
  match as_map (get "spec" gateway) with
  | None => Err NoSpec
  | Some spec =>
  match as_map (get "status" gateway) with
  | None => Err NoStatus
  | Some status =>
  match as_slice (get "listeners" spec) with
  | None | Some [] => Err NoSpecListeners
  | Some specListeners =>
  match as_slice (get "listeners" status) with
  | None | Some [] => Err NoStatusListeners
  | Some statusListeners =>
  match selectBestListener specListeners (status_by_name statusListeners) with
  | None => Err NoReadyListener
  | Some l =>
      let externalHost := own_host status l in
      if String.eqb externalHost "" then Err NoHostname else
      let '(scheme, port) := listenerSchemeAndPort (l_protocol l) (l_port l) in
      if has_suffix internal_suffix externalHost then
        match find_route (first_label externalHost) routeHosts with
        | Some info =>
            let scheme := if String.eqb (rh_Scheme info) "" then scheme else rh_Scheme info in
            let port := if (rh_Port info =? 0)%Z then port else rh_Port info in
            Ok (published name namespace scheme (rh_Host info) port)
        | None => Err (InternalHostname externalHost)
        end
      else Ok (published name namespace scheme externalHost port)
  end end end end end.

(** ** Facts *)

(** The listener chosen is that of two passes over the ready listeners: the
    first secure one, else the first plain one. *)
Definition first_that {A} (p : A → bool) (l : list A) : option A := head (List.filter p l).

Lemma select_listener_spec http specs sb :
  select_listener http specs sb =
  match first_that secure (omap (ready_listener sb) specs) with
  | Some r => Some r
  | None => match http with Some h => Some h | None => first_that plain (omap (ready_listener sb) specs) end
  end.
Proof.
  revert http. induction specs as [|l specs IH]; intros http; cbn.
  { by destruct http. }
  destruct (ready_listener sb l) as [r|]; [|apply IH]. cbn. unfold first_that in *. cbn [List.filter].
  destruct (secure r); cbn; [done|]. rewrite IH.
  destruct http, (head (List.filter secure _)), (plain r); done.
Qed.

Lemma secure_not_plain l : secure l = true → plain l = false.
Proof.
  unfold secure, plain. destruct (String.eqb_spec (l_protocol l) protocolHTTP) as [->|]; [|done]. done.
Qed.

(** What the map holds of a Service: an endpoint of one of its admitted Routes. *)
Lemma route_hosts_sound routes svc info :
  BuildRouteHostMap routes !! svc = Some info →
  ∃ route, route ∈ routes ∧ route_endpoint route = Some (svc, info).
Proof.
  unfold BuildRouteHostMap.
  enough (H : ∀ m, foldl add_route m routes !! svc = Some info →
    m !! svc = Some info ∨ ∃ route, route ∈ routes ∧ route_endpoint route = Some (svc, info)).
  { intros Hm. apply H in Hm as [Hm|Hm]; [|done]. by rewrite lookup_empty in Hm. }
  induction routes as [|r routes IH]; intros m Hm; cbn in Hm; [by left|].
  apply IH in Hm as [Hm|(route & Hin & He)]; [|right; exists route; split; [by right|done]].
  unfold add_route in Hm. destruct (route_endpoint r) as [[s i]|] eqn:Er; [|by left].
  assert (Hi : <[s := i]> m !! svc = Some info →
    m !! svc = Some info ∨ ∃ route, route ∈ r :: routes ∧ route_endpoint route = Some (svc, info)).
  { intros [[-> ->]|[_ ?]]%lookup_insert_Some; [|by left]. right. exists r. split; [by left|done]. }
  destruct (m !! s); [case_match; [by left|]|]; by apply Hi.
Qed.

Lemma route_hosts_keep_tls routes m svc info :
  m !! svc = Some info → rh_Scheme info = schemeHTTPS → foldl add_route m routes !! svc = Some info.
Proof.
  intros Hm Hs. revert m Hm. induction routes as [|r routes IH]; intros m Hm; cbn; [done|].
  apply IH. unfold add_route. destruct (route_endpoint r) as [[s i]|]; [|done].
  destruct (decide (s = svc)) as [->|Hne].
  - rewrite Hm, Hs. by rewrite String.eqb_refl.
  - destruct (m !! s); [case_match; [done|]|]; by rewrite lookup_insert_ne.
Qed.

Lemma add_route_dom m r svc i :
  route_endpoint r = Some (svc, i) →
  ∃ info, add_route m r !! svc = Some info ∧ (rh_Scheme i = schemeHTTPS → rh_Scheme info = schemeHTTPS).
Proof.
  unfold add_route. intros ->. destruct (m !! svc) as [e|] eqn:Em.
  - destruct (String.eqb_spec (rh_Scheme e) schemeHTTPS) as [He|_].
    + by exists e.
    + exists i. by rewrite lookup_insert_eq.
  - exists i. by rewrite lookup_insert_eq.
Qed.

(** A Service with a TLS Route is reached over TLS, wherever the Route stands. *)
Lemma route_hosts_prefer_tls routes route svc i :
  route ∈ routes → route_endpoint route = Some (svc, i) → rh_Scheme i = schemeHTTPS →
  ∃ info, BuildRouteHostMap routes !! svc = Some info ∧ rh_Scheme info = schemeHTTPS.
Proof.
  intros (l1 & l2 & ->)%list_elem_of_split He Hs. unfold BuildRouteHostMap. rewrite foldl_app. cbn.
  destruct (add_route_dom (foldl add_route ∅ l1) route svc i He) as (info & Hl & Hi).
  exists info. split; [apply route_hosts_keep_tls; auto|auto].
Qed.

Lemma route_endpoint_spec route svc i :
  route_endpoint route = Some (svc, i) →
  rh_Host i ≠ "" ∧ (rh_Scheme i = schemeHTTPS ∧ rh_Port i = 443%Z ∨ rh_Scheme i = schemeHTTP ∧ rh_Port i = 80%Z).
Proof.
  unfold route_endpoint. intros H. split_cases; (split; [by apply String.eqb_neq|by eauto]).
Qed.

(** Where the host, scheme and port of an endpoint come from. *)
Inductive EndpointOf (status : JMap) (routes : list Object) (l : Listener) : string → string → Z → Prop :=
| DirectEndpoint :
    has_suffix internal_suffix (own_host status l) = false →
    EndpointOf status routes l (own_host status l) (if plain l then schemeHTTP else schemeHTTPS) (l_port l)
| RouteEndpoint route info :
    has_suffix internal_suffix (own_host status l) = true → route ∈ routes →
    route_endpoint route = Some (first_label (own_host status l), info) →
    EndpointOf status routes l (rh_Host info) (rh_Scheme info) (rh_Port info).

(** C21 The endpoint the discovery service publishes for a Gateway is real: it
    carries the Gateway's own name, its URL is [scheme://host], with the port
    where the port is not the scheme's, over a non-empty host, and the host,
    scheme and port are those of the best ready listener (the first HTTPS or
    TLS listener with attached routes, and only without one the first plain
    HTTP listener) unless that host is a cluster-internal Service name, which
    is never published: they are then those of an admitted Route to that
    Service. *)
Theorem endpoint_is_real gateway name namespace routes m :
  ExtractMetadata gateway name namespace [BuildRouteHostMap routes] = Ok m →
  Name m = name ∧ Namespace m = namespace ∧
  ∃ spec status ls sls l host,
    as_map (get "spec" gateway) = Some spec ∧ as_map (get "status" gateway) = Some status ∧
    as_slice (get "listeners" spec) = Some ls ∧ as_slice (get "listeners" status) = Some sls ∧
    let ready := omap (ready_listener (status_by_name sls)) ls in
    (first_that secure ready = Some l ∨ List.filter secure ready = [] ∧ first_that plain ready = Some l) ∧
    EndpointOf status routes l host (Protocol m) (Port m) ∧ host ≠ "" ∧
    ExternalURL m = external_url (Protocol m) host (Port m).
Proof.
  unfold ExtractMetadata. intros H.
  destruct (as_map (get "spec" gateway)) as [spec|]; [|done].
  destruct (as_map (get "status" gateway)) as [status|] eqn:Est; [|done].
  destruct (as_slice (get "listeners" spec)) as [[|l0 ls]|] eqn:El; [done| |done].
  destruct (as_slice (get "listeners" status)) as [[|s0 sls]|] eqn:Es; [done| |done].
  destruct (selectBestListener _ _) as [l|] eqn:Esel; [|done].
  unfold selectBestListener in Esel. rewrite select_listener_spec in Esel.
  destruct (String.eqb_spec (own_host status l) "") as [|Hne]; [done|].
  assert (Hl : let ready := omap (ready_listener (status_by_name (s0 :: sls))) (l0 :: ls) in
    first_that secure ready = Some l ∨ List.filter secure ready = [] ∧ first_that plain ready = Some l).
  { cbn zeta. destruct (first_that secure _) eqn:Ef; [left; congruence|]. right. split; [|done].
    unfold first_that in Ef. by destruct (List.filter secure _). }
  unfold listenerSchemeAndPort in H. fold (plain l) in H.
  destruct (has_suffix internal_suffix (own_host status l)) eqn:Ei.
  - cbn in H. destruct (BuildRouteHostMap routes !! _) as [info|] eqn:Er; [|done]. simplify_eq/=.
    apply route_hosts_sound in Er as (route & Hin & He).
    pose proof (route_endpoint_spec _ _ _ He) as [Hh [[Hs Hp]|[Hs Hp]]]; rewrite Hs, Hp;
      (do 2 (split; [done|]); exists spec, status, (l0 :: ls), (s0 :: sls), l, (rh_Host info);
       do 5 (split; [done|]); split; [|done]; cbn; rewrite <- Hs, <- Hp; by econstructor).
  - simplify_eq/=. do 2 (split; [done|]). exists spec, status, (l0 :: ls), (s0 :: sls), l, (own_host status l).
    do 5 (split; [done|]). split; [|done]. by econstructor.
Qed.

End GatewayMetadata.
