(* ===== verification/DiscoveryCache.v ===== *)
(** * DiscoveryCache: the tenant cache of the discovery service

    [maas-discovery/internal/cache/informer.go] and the types it serves
    ([maas-discovery/internal/types]): the tenant list and the index of who may
    see which tenant, as pure functions of the informer stores and as operations
    on the cache; then the goroutines that keep the cache up to date, the two
    rebuild loops and the event handlers, as steps over one shared state.  A
    critical section of the source's mutex is one step, and so is one read of an
    informer store; everything else interleaves.  The order in which a store is
    listed is the runtime's, so a step may read any permutation. *)

From stdpp Require Import relations.
From S2P Require Import Prelude GoStrings Unstructured GatewayMetadata.
From Stdlib Require String.
Local Open Scope string_scope.

Module DiscoveryCache.
Import GatewayMetadata.

Definition defaultTenantNS : string := "models-as-a-service".

(** [types.TenantInfo]. *)
Record TenantInfo := mkTenantInfo { ti_Name : string; ti_Gateway : Metadata }.
#[export] Instance TenantInfo_eq_dec : EqDecision TenantInfo.
Proof. solve_decision. Defined.

(** What an informer hands to an event handler. *)
Inductive EventObj :=
| ObjEvent (o : Object)
| FinalStateUnknown (key : string).

(** Third-party accessors the cache uses beside [K8sAccess]. *)
Class CacheAccess := {
  GetDeletionTimestamp : Object → option string;
  DeletionHandlingMetaNamespaceKeyFunc : EventObj → option string;
  SplitMetaNamespaceKey : string → option (string * string);
}.

(** Their documented behaviour. *)
Definition documented_cache_access : CacheAccess := {|
  GetDeletionTimestamp o := as_string (nested_field (Fields o) ["metadata"; "deletionTimestamp"]);
  DeletionHandlingMetaNamespaceKeyFunc e :=
    match e with
    | ObjEvent o =>
        let '(ns, name) := (@GetNamespace documented_access o, @GetName documented_access o) in
        Some (if String.eqb ns "" then name else ns +:+ "/" +:+ name)
    | FinalStateUnknown key => Some key
    end;
  SplitMetaNamespaceKey key :=
    match split_char "/" key with
    | [name] => Some ("", name)
    | [ns; name] => Some (ns, name)
    | _ => None
    end;
|}.

Section Access.
Context {K : K8sAccess} {CA : CacheAccess}.

(** ** Subjects *)

Definition userSubjectKey (username : string) : string :=
  let username := trim_space username in
  if String.eqb username "" then "" else "u:" +:+ username.
Definition groupSubjectKey (group : string) : string :=
  let group := trim_space group in
  if String.eqb group "" then "" else "g:" +:+ group.

Definition non_empty (s : string) : bool := negb (String.eqb s "").

Definition makeCallerSubjects (username : string) (groups : list string) : list string :=
  (let user := userSubjectKey username in if non_empty user then [user] else [])
  ++ List.filter non_empty (map groupSubjectKey groups).

Definition userSubjects (raw : option JVal) : list string :=
  match as_slice raw with
  | None => []
  | Some items => List.filter non_empty (map userSubjectKey (omap (fun v => as_string (Some v)) items))
  end.
Definition groupSubjects (raw : option JVal) : list string :=
  match as_slice raw with
  | None => []
  | Some items =>
      List.filter non_empty (map (fun g => groupSubjectKey (string_or_empty (get "name" g))) (maps_of items))
  end.

(** [nil] is the empty set: the source only asks for the length. *)
Definition modelRefKeys (raw : option JVal) : gset string :=
  match as_slice raw with
  | None => ∅
  | Some items =>
      foldl (fun out modelRef =>
        let name := trim_space (string_or_empty (get "name" modelRef)) in
        let namespace := trim_space (string_or_empty (get "namespace" modelRef)) in
        if String.eqb name "" || String.eqb namespace "" then out
        else {[namespace +:+ "/" +:+ name]} ∪ out) ∅ (maps_of items)
  end.

(** ** Entitlements *)

Record tenantEntitlement := mkEntitlement { policyModelsBySubject : gmap string (gset string) }.

Definition addSubjectModelRefs (subjectModels : gmap string (gset string)) (subject : string)
    (modelRefs : gset string) : gmap string (gset string) :=
  if String.eqb subject "" || bool_decide (modelRefs = ∅) then subjectModels
  else <[subject := default ∅ (subjectModels !! subject) ∪ modelRefs]> subjectModels.

(** The namespace an AITenant is in charge of, and the AITenant. *)
Definition namespace_entry (tenant : Object) : option (string * string) :=
  let tenantName := trim_space (GetName tenant) in
  if String.eqb tenantName "" then None else
  let nsName := trim_space (default "" (NestedString (Fields tenant) ["status"; "tenantNamespace"])) in
  if String.eqb nsName "" then None else Some (nsName, tenantName).

Definition buildNamespaceTenantMap (tenants : list Object) : gmap string string :=
  let out := foldl (fun out kv => <[kv.1 := kv.2]> out) ∅ (omap namespace_entry tenants) in
  match out !! defaultTenantNS with
  | Some _ => out
  | None => <[defaultTenantNS := defaultTenantNS]> out
  end.

(** [namespaceToTenant[ns]]: a missing entry reads as the empty string. *)
Definition tenant_at (namespaceToTenant : gmap string string) (ns : string) : string :=
  default "" (namespaceToTenant !! ns).

(** The turn of the loop for one policy of the tenant. *)
Definition add_policy (models : gmap string (gset string)) (policy : Object) : gmap string (gset string) :=
  match as_map (get "spec" (Fields policy)) with
  | None => models
  | Some spec =>
      let policyModelRefs := modelRefKeys (get "modelRefs" spec) in
      if bool_decide (policyModelRefs = ∅) then models else
      match as_map (get "subjects" spec) with
      | None => models
      | Some subjects =>
          let models := foldl (fun m key => addSubjectModelRefs m key policyModelRefs) models
                          (userSubjects (get "users" subjects)) in
          foldl (fun m key => addSubjectModelRefs m key policyModelRefs) models
            (groupSubjects (get "groups" subjects))
      end
  end.

Definition computeTenantEntitlement (tenantName : string) (policies : list Object)
    (namespaceToTenant : gmap string string) : tenantEntitlement :=
  mkEntitlement (foldl (fun models policy =>
    if bool_decide (GetDeletionTimestamp policy ≠ None) then models else
    if negb (String.eqb (tenant_at namespaceToTenant (GetNamespace policy)) tenantName) then models else
    add_policy models policy) ∅ policies).

Definition entitlementIsVisibleCandidate (e : tenantEntitlement) : bool :=
  bool_decide (policyModelsBySubject e ≠ ∅).
Definition entitlementSubjects (e : tenantEntitlement) : gset string := dom (policyModelsBySubject e).

Definition callerHasTenantAccess (e : tenantEntitlement) (callerSubjects : list string) : bool :=
  existsb (fun subject => bool_decide (default ∅ (policyModelsBySubject e !! subject) ≠ ∅)) callerSubjects.

(** ** The tenant list *)

Definition resolveGatewayName (tenant : Object) : string :=
  match as_map (get "spec" (Fields tenant)) with
  | None => GetName tenant
  | Some spec =>
      match as_map (get "gateway" spec) with
      | None => GetName tenant
      | Some gw =>
          match as_string (get "name" gw) with
          | None => GetName tenant
          | Some name => if String.eqb name "" then GetName tenant else name
          end
      end
  end.

Definition gateways_by_name (gateways : list Object) : gmap string Object :=
  foldl (fun m g => <[GetName g := g]> m) ∅ gateways.

Definition tenant_info (gwByName : gmap string Object) (routeHosts : gmap string RouteHostInfo)
    (gatewayNamespace : string) (t : Object) : TenantInfo :=
  let gwName := resolveGatewayName t in
  let partial := {| GatewayMetadata.Name := gwName; Namespace := gatewayNamespace;
                    Protocol := ""; ExternalURL := ""; Port := 0 |} in
  {| ti_Name := GetName t;
     ti_Gateway :=
       match gwByName !! gwName with
       | None => partial
       | Some gw =>
           match ExtractMetadata (Fields gw) gwName gatewayNamespace [routeHosts] with
           | Ok meta => meta
           | Err _ => partial
           end
       end |}.

Definition BuildTenantInfos (tenants gateways routes : list Object) (gatewayNamespace : string)
    : list TenantInfo :=
  map (tenant_info (gateways_by_name gateways) (BuildRouteHostMap routes) gatewayNamespace) tenants.

(** ** The cache *)

(** The fields the mutex guards; a missing inner map is [nil]. *)
Record InformerCache := {
  tenants : list TenantInfo;
  entitlementsByTenant : gmap string tenantEntitlement;
  tenantsBySubject : gmap string (gset string);
  dirtyTenants : gset string;
}.

(** [NewInformerCache]. *)
Definition NewInformerCache : InformerCache :=
  {| tenants := []; entitlementsByTenant := ∅; tenantsBySubject := ∅; dirtyTenants := ∅ |}.

Definition set_tenants (c : InformerCache) (l : list TenantInfo) : InformerCache :=
  {| tenants := l; entitlementsByTenant := entitlementsByTenant c; tenantsBySubject := tenantsBySubject c;
     dirtyTenants := dirtyTenants c |}.
Definition set_dirty (c : InformerCache) (d : gset string) : InformerCache :=
  {| tenants := tenants c; entitlementsByTenant := entitlementsByTenant c;
     tenantsBySubject := tenantsBySubject c; dirtyTenants := d |}.

(** [List]. *)
Definition List_ (c : InformerCache) : list TenantInfo := tenants c.

(** The second loop's test. *)
Definition tenant_visible (c : InformerCache) (callerSubjects : list string) (tenant : string) : bool :=
  match entitlementsByTenant c !! tenant with
  | None => false
  | Some entitlement => callerHasTenantAccess entitlement callerSubjects
  end.

Definition ListForSubjects (c : InformerCache) (username : string) (groups : list string) : list TenantInfo :=
  let callerSubjects := makeCallerSubjects username groups in
  if bool_decide (callerSubjects = []) then [] else
  let candidateTenants : gset string :=
    ⋃ map (fun subject => default ∅ (tenantsBySubject c !! subject)) callerSubjects in
  let visibleByTenant : gset string :=
    filter (fun tenant => tenant_visible c callerSubjects tenant = true) candidateTenants in
  if bool_decide (visibleByTenant = ∅) then [] else
  List.filter (fun info => bool_decide (ti_Name info ∈ visibleByTenant)) (tenants c).

Definition markTenantDirty (tenantName : string) (c : InformerCache) : InformerCache :=
  let tenantName := trim_space tenantName in
  if String.eqb tenantName "" then c else set_dirty c ({[tenantName]} ∪ dirtyTenants c).

Definition markAllTenantsDirty (c : InformerCache) : InformerCache :=
  set_dirty c (list_to_set (map ti_Name (tenants c)) ∪ dom (entitlementsByTenant c) ∪ dirtyTenants c).

Definition namespaceFromObject (obj : EventObj) : option string :=
  match DeletionHandlingMetaNamespaceKeyFunc obj with
  | None => None
  | Some key =>
      match SplitMetaNamespaceKey key with
      | None => None
      | Some (namespace, _) => Some (trim_space namespace)
      end
  end.

Definition tenantNameForNamespace (tenantObjs : list Object) (namespace : string) : string :=
  tenant_at (buildNamespaceTenantMap tenantObjs) (trim_space namespace).

(** What [markTenantDirtyFromObject] marks: one tenant, or all ([None]). *)
Definition dirty_target (tenantObjs : list Object) (obj : EventObj) : option string :=
  match namespaceFromObject obj with
  | None => None
  | Some ns =>
      if String.eqb ns "" then None else
      let tenantName := tenantNameForNamespace tenantObjs ns in
      if String.eqb tenantName "" then None else Some tenantName
  end.
Definition mark_target (target : option string) (c : InformerCache) : InformerCache :=
  match target with None => markAllTenantsDirty c | Some t => markTenantDirty t c end.
Definition markTenantDirtyFromObject (tenantObjs : list Object) (obj : EventObj) (c : InformerCache)
    : InformerCache := mark_target (dirty_target tenantObjs obj) c.

(** [takeDirtyTenants]; the source lists the set in the order of its runtime. *)
Definition takeDirtyTenants (c : InformerCache) : gset string * InformerCache :=
  (dirtyTenants c, set_dirty c ∅).

Definition unindex (tenantName subject : string) (m : gmap string (gset string)) : gmap string (gset string) :=
  let left := default ∅ (m !! subject) ∖ {[tenantName]} in
  if bool_decide (left = ∅) then delete subject m else <[subject := left]> m.
Definition index (tenantName subject : string) (m : gmap string (gset string)) : gmap string (gset string) :=
  <[subject := {[tenantName]} ∪ default ∅ (m !! subject)]> m.

Definition applyTenantEntitlement (tenantName : string) (e : tenantEntitlement) (c : InformerCache)
    : InformerCache :=
  let oldSubjects :=
    match entitlementsByTenant c !! tenantName with Some old => entitlementSubjects old | None => ∅ end in
  let cleared := set_fold (unindex tenantName) (tenantsBySubject c) oldSubjects in
  if negb (entitlementIsVisibleCandidate e) then
    {| tenants := tenants c; entitlementsByTenant := delete tenantName (entitlementsByTenant c);
       tenantsBySubject := cleared; dirtyTenants := dirtyTenants c |}
  else
    {| tenants := tenants c; entitlementsByTenant := <[tenantName := e]> (entitlementsByTenant c);
       tenantsBySubject := set_fold (index tenantName) cleared (entitlementSubjects e);
       dirtyTenants := dirtyTenants c |}.

End Access.
End DiscoveryCache.

(** ** DiscoveryLoops: the goroutines of the tenant cache

    [Start], [rebuildFromInformers] and [rebuildDirtyEntitlements] of
    [maas-discovery/internal/cache/informer.go] as program counters over one
    shared state, with the event handlers that feed them.  A channel of capacity
    one is a flag.  [internal] is what the service does by itself, [outside]
    what the cluster does to its informer stores. *)
Module DiscoveryLoops.
Import DiscoveryCache.

(** The stores of the informers. *)
Record Stores := mkStores {
  tenantStore : list Object; gatewayStore : list Object; routeStore : list Object; policyStore : list Object;
}.

(** The goroutine that rebuilds the tenant list, which [Start] is until the
    cache is synced. *)
Inductive MetadataLoop :=
| MWait
| MDrain
| MListTenants
| MListGateways (ts : list Object)
| MListRoutes (ts gs : list Object)
| MPublish (result : list TenantInfo)
| MMarkAll
| MTrigger
| MFirstRebuild.

(** The goroutine that rebuilds entitlements. *)
Inductive EntitlementLoop :=
| EWait
| EDrain
| ETake
| EListPolicies (dirty : list string)
| EListTenants (dirty : list string) (policies : list Object)
| EApply (dirty : list string) (policies : list Object) (namespaceToTenant : gmap string string).

(** The handler of the policy informer's events. *)
Inductive PolicyHandler :=
| HReady
| HMark (target : option string)
| HTrigger.

(** [notices] are the events of the other informers, of which the handlers use
    nothing but the fact; [events] are those of the policy informer. *)
Record Sys := mkSys {
  stores : Stores; cache : InformerCache; synced : bool;
  rebuildCh : bool; entitlementRebuildCh : bool;
  notices : nat; events : list EventObj;
  metadata : MetadataLoop; entitlement : EntitlementLoop; handler : PolicyHandler;
}.

Definition with_cache (s : Sys) (c : InformerCache) : Sys :=
  mkSys (stores s) c (synced s) (rebuildCh s) (entitlementRebuildCh s) (notices s) (events s)
    (metadata s) (entitlement s) (handler s).
Definition with_synced (s : Sys) : Sys :=
  mkSys (stores s) (cache s) true (rebuildCh s) (entitlementRebuildCh s) (notices s) (events s)
    (metadata s) (entitlement s) (handler s).
Definition with_stores (s : Sys) (st : Stores) : Sys :=
  mkSys st (cache s) (synced s) (rebuildCh s) (entitlementRebuildCh s) (notices s) (events s)
    (metadata s) (entitlement s) (handler s).
Definition with_rebuild (s : Sys) (b : bool) : Sys :=
  mkSys (stores s) (cache s) (synced s) b (entitlementRebuildCh s) (notices s) (events s)
    (metadata s) (entitlement s) (handler s).
Definition with_entitlement_rebuild (s : Sys) (b : bool) : Sys :=
  mkSys (stores s) (cache s) (synced s) (rebuildCh s) b (notices s) (events s)
    (metadata s) (entitlement s) (handler s).
Definition with_notices (s : Sys) (n : nat) : Sys :=
  mkSys (stores s) (cache s) (synced s) (rebuildCh s) (entitlementRebuildCh s) n (events s)
    (metadata s) (entitlement s) (handler s).
Definition with_events (s : Sys) (l : list EventObj) : Sys :=
  mkSys (stores s) (cache s) (synced s) (rebuildCh s) (entitlementRebuildCh s) (notices s) l
    (metadata s) (entitlement s) (handler s).
Definition at_metadata (s : Sys) (m : MetadataLoop) : Sys :=
  mkSys (stores s) (cache s) (synced s) (rebuildCh s) (entitlementRebuildCh s) (notices s) (events s)
    m (entitlement s) (handler s).
Definition at_entitlement (s : Sys) (e : EntitlementLoop) : Sys :=
  mkSys (stores s) (cache s) (synced s) (rebuildCh s) (entitlementRebuildCh s) (notices s) (events s)
    (metadata s) e (handler s).
Definition at_handler (s : Sys) (h : PolicyHandler) : Sys :=
  mkSys (stores s) (cache s) (synced s) (rebuildCh s) (entitlementRebuildCh s) (notices s) (events s)
    (metadata s) (entitlement s) h.

Section Access.
Context {K : K8sAccess} {CA : CacheAccess}.
Variable gatewayNamespace : string.
(** Whether the Route informer is in use. *)
Variable routeInformer : bool.

(** [rebuildFromInformers] and the code around it in the loop: one step each
    for a read of a store, the publication, [markAllTenantsDirty] and the
    trigger.  Before the cache is synced the steps are [Start]'s, which calls
    [rebuildDirtyEntitlements] itself and waits for it. *)
Inductive metadata_step (s : Sys) : Sys → Prop :=
| m_receive : metadata s = MWait → rebuildCh s = true →
    metadata_step s (at_metadata (with_rebuild s false) MDrain)
| m_coalesce : metadata s = MDrain → rebuildCh s = true →
    metadata_step s (with_rebuild s false)
| m_timer : metadata s = MDrain →
    metadata_step s (at_metadata s MListTenants)
| m_tenants ts : metadata s = MListTenants → ts ≡ₚ tenantStore (stores s) →
    metadata_step s (at_metadata s (MListGateways ts))
| m_gateways ts gs : metadata s = MListGateways ts → gs ≡ₚ gatewayStore (stores s) →
    metadata_step s (at_metadata s (MListRoutes ts gs))
| m_routes ts gs rs : metadata s = MListRoutes ts gs → rs ≡ₚ (if routeInformer then routeStore (stores s) else []) →
    metadata_step s (at_metadata s (MPublish (BuildTenantInfos ts gs rs gatewayNamespace)))
| m_publish result : metadata s = MPublish result →
    metadata_step s (at_metadata (with_cache s (set_tenants (cache s) result)) MMarkAll)
| m_mark : metadata s = MMarkAll → synced s = true →
    metadata_step s (at_metadata (with_cache s (markAllTenantsDirty (cache s))) MTrigger)
| m_trigger : metadata s = MTrigger →
    metadata_step s (at_metadata (with_entitlement_rebuild s true) MWait)
| m_start : metadata s = MMarkAll → synced s = false →
    metadata_step s
      (at_entitlement (at_metadata (with_cache s (markAllTenantsDirty (cache s))) MFirstRebuild) ETake)
| m_started : metadata s = MFirstRebuild → entitlement s = EWait →
    metadata_step s (at_metadata (with_synced s) MWait).

(** The entitlement loop around [rebuildDirtyEntitlements]: the dirty set is
    taken and listed in any order, then the stores are read, then one tenant
    after the other is recomputed from what was read. *)
Inductive entitlement_step (s : Sys) : Sys → Prop :=
| e_receive : entitlement s = EWait → synced s = true → entitlementRebuildCh s = true →
    entitlement_step s (at_entitlement (with_entitlement_rebuild s false) EDrain)
| e_coalesce : entitlement s = EDrain → entitlementRebuildCh s = true →
    entitlement_step s (with_entitlement_rebuild s false)
| e_timer : entitlement s = EDrain →
    entitlement_step s (at_entitlement s ETake)
| e_nothing : entitlement s = ETake → (takeDirtyTenants (cache s)).1 = ∅ →
    entitlement_step s (at_entitlement s EWait)
| e_take dirty : entitlement s = ETake → (takeDirtyTenants (cache s)).1 ≠ ∅ →
    dirty ≡ₚ elements (takeDirtyTenants (cache s)).1 →
    entitlement_step s (at_entitlement (with_cache s (takeDirtyTenants (cache s)).2) (EListPolicies dirty))
| e_policies dirty ps : entitlement s = EListPolicies dirty → ps ≡ₚ policyStore (stores s) →
    entitlement_step s (at_entitlement s (EListTenants dirty ps))
| e_tenants dirty ps ts : entitlement s = EListTenants dirty ps → ts ≡ₚ tenantStore (stores s) →
    entitlement_step s (at_entitlement s (EApply dirty ps (buildNamespaceTenantMap ts)))
| e_apply tenantName dirty ps ns : entitlement s = EApply (tenantName :: dirty) ps ns →
    entitlement_step s
      (at_entitlement
        (with_cache s (applyTenantEntitlement tenantName (computeTenantEntitlement tenantName ps ns) (cache s)))
        (EApply dirty ps ns))
| e_done ps ns : entitlement s = EApply [] ps ns →
    entitlement_step s (at_entitlement s EWait).

(** The handlers.  Of a policy event, the handler first resolves the tenant
    against the AITenant store, then marks, then triggers. *)
Inductive handler_step (s : Sys) : Sys → Prop :=
| h_notice n : notices s = S n →
    handler_step s (with_rebuild (with_notices s n) true)
| h_resolve obj rest ts : handler s = HReady → events s = obj :: rest → ts ≡ₚ tenantStore (stores s) →
    handler_step s (at_handler (with_events s rest) (HMark (dirty_target ts obj)))
| h_mark target : handler s = HMark target →
    handler_step s (at_handler (with_cache s (mark_target target (cache s))) HTrigger)
| h_trigger : handler s = HTrigger →
    handler_step s (at_handler (with_entitlement_rebuild s true) HReady).

Definition internal (s s' : Sys) : Prop :=
  metadata_step s s' ∨ entitlement_step s s' ∨ handler_step s s'.

(** ** The cluster *)

(** One change of a store: an object arrives, is replaced by another of the
    same key, or goes; the third index is the object the event is about. *)
Inductive store_change : list Object → list Object → Object → Prop :=
| Added l o : store_change l (o :: l) o
| Updated l1 old o l2 : GetName old = GetName o → GetNamespace old = GetNamespace o →
    store_change (l1 ++ old :: l2) (l1 ++ o :: l2) o
| Deleted l1 o l2 : store_change (l1 ++ o :: l2) (l1 ++ l2) o.

(** An event about [o]: its key, if it has one, names the namespace of [o]. *)
Definition event_about (o : Object) (e : EventObj) : Prop :=
  ∀ ns, namespaceFromObject e = Some ns → ns = trim_space (GetNamespace o).

(** AITenants are in charge of different namespaces, and have names without
    surrounding space. *)
Record tenants_ok (l : list Object) : Prop := {
  distinct_namespaces : NoDup (omap namespace_entry l).*1;
  named : ∀ o, o ∈ l → GetName o ≠ "" ∧ trim_space (GetName o) = GetName o;
}.

(** Every change of a store queues its event, and only then may be seen. *)
Inductive outside (s : Sys) : Sys → Prop :=
| o_tenant l o : store_change (tenantStore (stores s)) l o → tenants_ok l →
    outside s (with_notices (with_stores s
      (mkStores l (gatewayStore (stores s)) (routeStore (stores s)) (policyStore (stores s)))) (S (notices s)))
| o_gateway l o : store_change (gatewayStore (stores s)) l o →
    outside s (with_notices (with_stores s
      (mkStores (tenantStore (stores s)) l (routeStore (stores s)) (policyStore (stores s)))) (S (notices s)))
| o_route l o : store_change (routeStore (stores s)) l o →
    outside s (with_notices (with_stores s
      (mkStores (tenantStore (stores s)) (gatewayStore (stores s)) l (policyStore (stores s)))) (S (notices s)))
| o_policy l o e : store_change (policyStore (stores s)) l o → event_about o e →
    trim_space (GetNamespace o) = GetNamespace o →
    outside s (with_events (with_stores s
      (mkStores (tenantStore (stores s)) (gatewayStore (stores s)) (routeStore (stores s)) l)) (events s ++ [e])).

(** [Start] once the informers are synced and both channels are drained; the
    handlers may have anything left to do. *)
Definition started (s : Sys) : Prop :=
  tenants_ok (tenantStore (stores s)) ∧ entitlementsByTenant (cache s) = ∅ ∧ tenantsBySubject (cache s) = ∅ ∧
  tenants (cache s) = [] ∧ synced s = false ∧ rebuildCh s = false ∧ entitlementRebuildCh s = false ∧
  metadata s = MListTenants ∧ entitlement s = EWait.

Definition moves (s s' : Sys) : Prop := internal s s' ∨ outside s s'.
Definition reachable (s : Sys) : Prop := ∃ s0, started s0 ∧ rtc moves s0 s.

End Access.
End DiscoveryLoops.
