(* ===== verification/DiscoveryFacts.v ===== *)
(** * DiscoveryFacts: what the tenant cache computes

    Facts about the pure part of the discovery service's cache: what an
    entitlement holds, that it does not depend on the order in which the stores
    are listed, and that the subject index is the inverse of the entitlements,
    so that looking tenants up through it finds exactly those a scan of all
    entitlements finds. *)

From stdpp Require Import relations.
From S2P Require Import Prelude GoStrings Unstructured GatewayMetadata DiscoveryCache.
From Stdlib Require String.
Local Open Scope string_scope.

Module DiscoveryFacts.
Import GatewayMetadata DiscoveryCache.

(** ** Entitlements *)

(** Maps of sets that do not tell an empty set from a missing one. *)
Definition at_key (m : gmap string (gset string)) (s : string) : gset string := default ∅ (m !! s).
Definition no_empty (m : gmap string (gset string)) : Prop := ∀ s, m !! s ≠ Some ∅.

Lemma no_empty_dom m s : no_empty m → s ∈ dom m ↔ at_key m s ≠ ∅.
Proof.
  intros Hm. unfold at_key. rewrite elem_of_dom. destruct (m !! s) as [x|] eqn:E; cbn.
  - split; [|done]. intros _ ->. by apply (Hm s).
  - split; [by intros []|done].
Qed.

Lemma no_empty_eq m1 m2 : no_empty m1 → no_empty m2 → (∀ s, at_key m1 s = at_key m2 s) → m1 = m2.
Proof.
  intros H1 H2 He. apply map_eq. intros s. specialize (He s). specialize (H1 s). specialize (H2 s).
  unfold at_key in He. destruct (m1 !! s), (m2 !! s); cbn in *; congruence.
Qed.

Section Access.
Context {K : K8sAccess} {CA : CacheAccess}.

(** The subjects a policy names and the models it grants them. *)
Definition policy_keys (policy : Object) : list string :=
  match as_map (get "spec" (Fields policy)) with
  | None => []
  | Some spec =>
      match as_map (get "subjects" spec) with
      | None => []
      | Some subjects => userSubjects (get "users" subjects) ++ groupSubjects (get "groups" subjects)
      end
  end.
Definition policy_refs (policy : Object) : gset string :=
  match as_map (get "spec" (Fields policy)) with
  | None => ∅
  | Some spec => modelRefKeys (get "modelRefs" spec)
  end.
Definition policy_grant (s : string) (policy : Object) : gset string :=
  if bool_decide (s ∈ policy_keys policy) then policy_refs policy else ∅.

Lemma subjects_non_empty raw s : s ∈ userSubjects raw ∨ s ∈ groupSubjects raw → s ≠ "".
Proof.
  unfold userSubjects, groupSubjects. intros [H|H]; revert H; (destruct (as_slice raw) as [items|]; [|by intros ?%not_elem_of_nil]);
    intros [_ H]%list_elem_of_In%List.filter_In ->; done.
Qed.

Lemma add_subjects_at keys refs m s :
  refs ≠ ∅ → (∀ k, k ∈ keys → k ≠ "") →
  at_key (foldl (fun m key => addSubjectModelRefs m key refs) m keys) s
  = at_key m s ∪ (if bool_decide (s ∈ keys) then refs else ∅).
Proof.
  intros Hr. revert m. induction keys as [|k keys IH]; intros m Hk; cbn [foldl].
  { rewrite bool_decide_false by apply not_elem_of_nil. set_solver. }
  rewrite IH by (intros k' Hk'; apply Hk; by right). unfold addSubjectModelRefs.
  assert (Hke : String.eqb k "" = false) by (apply String.eqb_neq, Hk; by left).
  rewrite Hke, bool_decide_false by done. cbn [orb]. unfold at_key at 1.
  destruct (decide (s = k)) as [->|Hne].
  - rewrite lookup_insert_eq. cbn. rewrite (bool_decide_true (k ∈ k :: keys)) by (by left).
    fold (at_key m k). case_bool_decide; set_solver.
  - rewrite lookup_insert_ne by done. fold (at_key m s).
    by rewrite (bool_decide_ext (s ∈ k :: keys) (s ∈ keys)) by (rewrite elem_of_cons; naive_solver).
Qed.

Lemma add_subjects_no_empty keys refs m :
  no_empty m → no_empty (foldl (fun m key => addSubjectModelRefs m key refs) m keys).
Proof.
  revert m. induction keys as [|k keys IH]; intros m Hm; cbn; [done|]. apply IH.
  unfold addSubjectModelRefs. destruct (String.eqb k ""); cbn [orb]; [done|].
  case_bool_decide as Hr; [done|]. intros s.
  destruct (decide (s = k)) as [->|Hne]; [rewrite lookup_insert_eq|by rewrite lookup_insert_ne].
  intros [= H]. apply Hr. set_solver.
Qed.

Lemma add_policy_at m policy s : at_key (add_policy m policy) s = at_key m s ∪ policy_grant s policy.
Proof.
  unfold add_policy, policy_grant, policy_keys, policy_refs.
  destruct (as_map (get "spec" (Fields policy))) as [spec|].
  2:{ rewrite bool_decide_false by apply not_elem_of_nil. set_solver. }
  case_bool_decide as Hr; [rewrite Hr; case_match; set_solver|].
  destruct (as_map (get "subjects" spec)) as [subjects|].
  2:{ rewrite bool_decide_false by apply not_elem_of_nil. set_solver. }
  rewrite !add_subjects_at by (try done; intros k Hk; eapply subjects_non_empty; eauto).
  rewrite (bool_decide_ext (s ∈ (_ ++ _)%list) (s ∈ userSubjects (get "users" subjects) ∨ s ∈ groupSubjects (get "groups" subjects)))
    by apply elem_of_app.
  repeat case_bool_decide; try tauto; set_solver.
Qed.

Lemma add_policy_no_empty m policy : no_empty m → no_empty (add_policy m policy).
Proof.
  intros Hm. unfold add_policy. repeat (case_match; try done). by do 2 apply add_subjects_no_empty.
Qed.

(** The policies an entitlement is made of. *)
Definition of_tenant (t : string) (ns : gmap string string) (policy : Object) : Prop :=
  GetDeletionTimestamp policy = None ∧ tenant_at ns (GetNamespace policy) = t.
#[export] Instance of_tenant_dec t ns policy : Decision (of_tenant t ns policy).
Proof. unfold of_tenant. apply _. Defined.

Lemma compute_fold t ps ns :
  policyModelsBySubject (computeTenantEntitlement t ps ns) = foldl add_policy ∅ (filter (of_tenant t ns) ps).
Proof.
  unfold computeTenantEntitlement. cbn. generalize (∅ : gmap string (gset string)).
  induction ps as [|p ps IH]; intros m; [done|]. cbn [foldl]. rewrite IH, filter_cons. unfold of_tenant.
  case_bool_decide as Hd.
  { rewrite decide_False by tauto. done. }
  destruct (String.eqb_spec (tenant_at ns (GetNamespace p)) t) as [Ht|Ht]; cbn [negb].
  - by rewrite decide_True by done.
  - by rewrite decide_False by tauto.
Qed.

Lemma compute_no_empty t ps ns : no_empty (policyModelsBySubject (computeTenantEntitlement t ps ns)).
Proof.
  rewrite compute_fold. generalize (filter (of_tenant t ns) ps). intros l.
  enough (H : ∀ m, no_empty m → no_empty (foldl add_policy m l)) by (apply H; by intros s; rewrite lookup_empty).
  induction l as [|p l IH]; intros m Hm; cbn; [done|]. by apply IH, add_policy_no_empty.
Qed.

Lemma compute_at t ps ns s :
  at_key (policyModelsBySubject (computeTenantEntitlement t ps ns)) s
  = ⋃ (policy_grant s <$> filter (of_tenant t ns) ps).
Proof.
  rewrite compute_fold. generalize (filter (of_tenant t ns) ps). intros l.
  enough (H : ∀ m, at_key (foldl add_policy m l) s = at_key m s ∪ ⋃ (policy_grant s <$> l)).
  { rewrite H. unfold at_key. rewrite lookup_empty. set_solver. }
  induction l as [|p l IH]; intros m; cbn; [set_solver|]. rewrite IH, add_policy_at. set_solver.
Qed.

Lemma entitlement_eq t ps ns t' ps' ns' :
  (∀ s, ⋃ (policy_grant s <$> filter (of_tenant t ns) ps)
        = (⋃ (policy_grant s <$> filter (of_tenant t' ns') ps') : gset string)) →
  computeTenantEntitlement t ps ns = computeTenantEntitlement t' ps' ns'.
Proof.
  intros H. enough (policyModelsBySubject (computeTenantEntitlement t ps ns)
    = policyModelsBySubject (computeTenantEntitlement t' ps' ns')).
  { by destruct (computeTenantEntitlement t ps ns), (computeTenantEntitlement t' ps' ns'); cbn in *; subst. }
  apply no_empty_eq; [apply compute_no_empty..|]. intros s. by rewrite !compute_at.
Qed.

(** The order of the policies does not matter, nor do policies of others. *)
Lemma compute_perm t ps ps' ns :
  ps ≡ₚ ps' → computeTenantEntitlement t ps ns = computeTenantEntitlement t ps' ns.
Proof.
  intros Hp. apply entitlement_eq. intros s. apply leibniz_equiv. by rewrite Hp.
Qed.

Lemma compute_filter t ps ps' ns :
  filter (of_tenant t ns) ps = filter (of_tenant t ns) ps' →
  computeTenantEntitlement t ps ns = computeTenantEntitlement t ps' ns.
Proof. intros Hf. apply entitlement_eq. intros s. by rewrite Hf. Qed.

(** ** The map of namespaces *)

Lemma insert_all_reverse (l : list (string * string)) :
  foldl (fun out kv => <[kv.1 := kv.2]> out) (∅ : gmap string string) l = list_to_map (reverse l).
Proof.
  induction l as [|kv l IH] using rev_ind; [done|]. rewrite foldl_app, reverse_app. cbn. by rewrite IH.
Qed.

Lemma namespace_map_perm ts ts' :
  NoDup (omap namespace_entry ts).*1 → ts ≡ₚ ts' → buildNamespaceTenantMap ts = buildNamespaceTenantMap ts'.
Proof.
  intros Hnd Hp. unfold buildNamespaceTenantMap. rewrite !insert_all_reverse.
  enough (list_to_map (reverse (omap namespace_entry ts)) = (list_to_map (reverse (omap namespace_entry ts')) : gmap string string))
    as -> by done.
  apply list_to_map_proper.
  - by rewrite reverse_Permutation.
  - by rewrite !reverse_Permutation, Hp.
Qed.

(** What the map says of a namespace. *)
Lemma namespace_map_lookup ts ns t :
  NoDup (omap namespace_entry ts).*1 →
  buildNamespaceTenantMap ts !! ns = Some t ↔
  (ns, t) ∈ omap namespace_entry ts
  ∨ ns = defaultTenantNS ∧ t = defaultTenantNS ∧ defaultTenantNS ∉ (omap namespace_entry ts).*1.
Proof.
  intros Hnd. unfold buildNamespaceTenantMap. rewrite insert_all_reverse.
  set (l := omap namespace_entry ts) in *.
  assert (Hl : ∀ k v, (list_to_map (reverse l) : gmap string string) !! k = Some v ↔ (k, v) ∈ l).
  { intros k v. rewrite <- elem_of_list_to_map by (by rewrite fmap_reverse, reverse_Permutation).
    by rewrite elem_of_reverse. }
  destruct (list_to_map (reverse l) !! defaultTenantNS) as [d|] eqn:Ed.
  - rewrite Hl. split; [by left|]. intros [?|(_ & _ & Hn)]; [done|]. destruct Hn.
    apply list_elem_of_fmap. exists (defaultTenantNS, d). split; [done|]. by apply Hl.
  - assert (Hn : defaultTenantNS ∉ l.*1).
    { intros ([k v] & Hk & Hin)%list_elem_of_fmap. cbn in Hk. subst k. apply Hl in Hin. congruence. }
    rewrite lookup_insert_Some, Hl. split; [naive_solver|]. intros [Hin|(-> & -> & _)]; [|by left].
    right. split; [|done]. intros <-. apply Hn, list_elem_of_fmap. by exists (defaultTenantNS, t).
Qed.

(** A tenant of the map has a name that trimming leaves alone, wherever the
    AITenants' names are. *)
Lemma namespace_map_name ts ns t :
  (∀ o, o ∈ ts → GetName o ≠ "" ∧ trim_space (GetName o) = GetName o) →
  buildNamespaceTenantMap ts !! ns = Some t → t ≠ "" ∧ trim_space t = t.
Proof.
  intros Hnm. unfold buildNamespaceTenantMap. rewrite insert_all_reverse.
  assert (Hl : ∀ k v, (list_to_map (reverse (omap namespace_entry ts)) : gmap string string) !! k = Some v →
    v ≠ "" ∧ trim_space v = v).
  { intros k v Hin%elem_of_list_to_map_2. rewrite elem_of_reverse, list_elem_of_omap in Hin.
    destruct Hin as (o & Ho & He). unfold namespace_entry in He. destruct (Hnm o Ho) as [Hne Ht].
    rewrite Ht in He. split_cases. }
  destruct (_ !! defaultTenantNS); [by apply Hl|].
  intros [[_ <-]|[_ H]]%lookup_insert_Some; [|by apply Hl in H]. split; [done|]. by vm_compute.
Qed.

End Access.
End DiscoveryFacts.

(** ** DiscoveryIndex: the index from subjects to tenants

    The invariant of the discovery service's cache, that [tenantsBySubject] is
    the inverse of [entitlementsByTenant] and neither holds an empty entry; that
    every operation keeps it; and what it buys: [ListForSubjects], which goes
    through the index, answers as a scan of all entitlements would. *)
Module DiscoveryIndex.
Import DiscoveryCache DiscoveryFacts.

(** ** Folding an index *)

Lemma unindex_at t k m s :
  at_key (unindex t k m) s = if decide (s = k) then at_key m s ∖ {[t]} else at_key m s.
Proof.
  unfold unindex. fold (at_key m k). destruct (decide (s = k)) as [->|Hne].
  - unfold at_key at 1. case_bool_decide as He; [by rewrite lookup_delete_eq, He|by rewrite lookup_insert_eq].
  - unfold at_key at 1. case_bool_decide; [by rewrite lookup_delete_ne|by rewrite lookup_insert_ne].
Qed.

Lemma index_at t k m s :
  at_key (index t k m) s = if decide (s = k) then {[t]} ∪ at_key m s else at_key m s.
Proof.
  unfold index. unfold at_key at 1. destruct (decide (s = k)) as [->|Hne];
    [by rewrite lookup_insert_eq|by rewrite lookup_insert_ne].
Qed.

Lemma unindex_no_empty t k m : no_empty m → no_empty (unindex t k m).
Proof.
  intros Hm s. unfold unindex. case_bool_decide as He.
  - intros [_ H]%lookup_delete_Some. by apply (Hm s).
  - intros [[_ H]|[_ H]]%lookup_insert_Some; [done|by apply (Hm s)].
Qed.

Lemma index_no_empty t k m : no_empty m → no_empty (index t k m).
Proof.
  intros Hm s. unfold index. intros [[_ H]|[_ H]]%lookup_insert_Some; [set_solver|by apply (Hm s)].
Qed.

Lemma unindex_all t m (ks : gset string) :
  (∀ s, at_key (set_fold (unindex t) m ks) s = if decide (s ∈ ks) then at_key m s ∖ {[t]} else at_key m s)
  ∧ (no_empty m → no_empty (set_fold (unindex t) m ks)).
Proof.
  revert ks. apply (set_fold_ind_L (λ r ks, (∀ s, at_key r s = if decide (s ∈ ks) then at_key m s ∖ {[t]} else at_key m s)
    ∧ (no_empty m → no_empty r))).
  { split; [|done]. intros s. by rewrite decide_False by apply not_elem_of_empty. }
  intros k ks r _ [IH1 IH2]. split; [|auto using unindex_no_empty].
  intros s. rewrite unindex_at, IH1. repeat case_decide; set_solver.
Qed.

Lemma index_all t m (ks : gset string) :
  (∀ s, at_key (set_fold (index t) m ks) s = if decide (s ∈ ks) then {[t]} ∪ at_key m s else at_key m s)
  ∧ (no_empty m → no_empty (set_fold (index t) m ks)).
Proof.
  revert ks. apply (set_fold_ind_L (λ r ks, (∀ s, at_key r s = if decide (s ∈ ks) then {[t]} ∪ at_key m s else at_key m s)
    ∧ (no_empty m → no_empty r))).
  { split; [|done]. intros s. by rewrite decide_False by apply not_elem_of_empty. }
  intros k ks r _ [IH1 IH2]. split; [|auto using index_no_empty].
  intros s. rewrite index_at, IH1. repeat case_decide; set_solver.
Qed.

(** ** The invariant *)

Section Access.
Context {K : K8sAccess} {CA : CacheAccess}.

Record indexed (c : InformerCache) : Prop := {
  index_inverse : ∀ s t, t ∈ at_key (tenantsBySubject c) s ↔
    ∃ e, entitlementsByTenant c !! t = Some e ∧ s ∈ entitlementSubjects e;
  index_lean : no_empty (tenantsBySubject c);
  entitlements_lean : ∀ t e, entitlementsByTenant c !! t = Some e → no_empty (policyModelsBySubject e);
}.

Lemma new_indexed : indexed NewInformerCache.
Proof.
  split; cbn.
  - intros s t. unfold at_key. setoid_rewrite lookup_empty. cbn. split; [set_solver|naive_solver].
  - intros s. by rewrite lookup_empty.
  - intros t e. by rewrite lookup_empty.
Qed.

(** The operations that touch neither map keep it. *)
Lemma indexed_frame c c' :
  entitlementsByTenant c' = entitlementsByTenant c → tenantsBySubject c' = tenantsBySubject c →
  indexed c → indexed c'.
Proof. intros H1 H2 [I L E]. split; rewrite ?H1, ?H2; done. Qed.

Lemma mark_target_frame target c :
  entitlementsByTenant (mark_target target c) = entitlementsByTenant c
  ∧ tenantsBySubject (mark_target target c) = tenantsBySubject c
  ∧ tenants (mark_target target c) = tenants c.
Proof. destruct target; cbn; [|done]. unfold markTenantDirty. by case_match. Qed.

Lemma apply_indexed t e c :
  indexed c → no_empty (policyModelsBySubject e) → indexed (applyTenantEntitlement t e c).
Proof.
  intros [I L E] He. unfold applyTenantEntitlement. set (old := match entitlementsByTenant c !! t with Some old => _ | None => _ end).
  destruct (unindex_all t (tenantsBySubject c) old) as [Hu Hul]. specialize (Hul L).
  set (cleared := set_fold (unindex t) (tenantsBySubject c) old) in *.
  assert (Hc : ∀ s t', t' ∈ at_key cleared s ↔ t' ≠ t ∧ t' ∈ at_key (tenantsBySubject c) s).
  { intros s t'. rewrite Hu. case_decide as Hs; [set_solver|]. split; [|naive_solver]. intros Hin. split; [|done].
    intros ->. apply Hs. apply I in Hin as (o & Ho & Hs'). subst old. by rewrite Ho. }
  unfold entitlementIsVisibleCandidate. case_bool_decide as Hne; cbn.
  - destruct (index_all t cleared (entitlementSubjects e)) as [Hi Hil]. split; cbn.
    + intros s t'. rewrite Hi. destruct (decide (t' = t)) as [->|Hne'].
      * setoid_rewrite lookup_insert_eq. case_decide; [|rewrite Hc]; set_solver.
      * setoid_rewrite lookup_insert_ne; [|done..]. rewrite <- I. case_decide; [|rewrite Hc; tauto].
        rewrite elem_of_union, Hc. set_solver.
    + auto.
    + intros t' e'. intros [[-> ->]|[_ H]]%lookup_insert_Some; eauto.
  - split; cbn.
    + intros s t'. rewrite Hc. destruct (decide (t' = t)) as [->|Hne'].
      * setoid_rewrite lookup_delete_eq. naive_solver.
      * setoid_rewrite lookup_delete_ne; [|done..]. rewrite <- I. tauto.
    + done.
    + intros t' e' [_ H]%lookup_delete_Some; eauto.
Qed.

(** ** Looking tenants up *)

(** Access, by the subjects an entitlement lists. *)
Lemma access_spec e callerSubjects :
  no_empty (policyModelsBySubject e) →
  callerHasTenantAccess e callerSubjects = true ↔ ∃ s, s ∈ callerSubjects ∧ s ∈ entitlementSubjects e.
Proof.
  intros He. unfold callerHasTenantAccess. rewrite existsb_exists. apply exist_proper. intros s.
  rewrite <- list_elem_of_In. unfold entitlementSubjects. rewrite no_empty_dom by done.
  by rewrite bool_decide_eq_true.
Qed.

(** The scan of all entitlements [ListForSubjects] avoids. *)
Definition scan (c : InformerCache) (username : string) (groups : list string) : list TenantInfo :=
  List.filter (fun info => tenant_visible c (makeCallerSubjects username groups) (ti_Name info)) (tenants c).

Lemma filter_nothing {A} (p : A → bool) l : (∀ x, p x = false) → List.filter p l = [].
Proof. intros H. induction l as [|x l IH]; cbn; [done|]. by rewrite H. Qed.

Lemma list_is_scan c username groups : indexed c → ListForSubjects c username groups = scan c username groups.
Proof.
  intros [I L E]. unfold ListForSubjects, scan. set (subs := makeCallerSubjects username groups).
  case_bool_decide as Hs.
  { symmetry. apply filter_nothing. intros x. unfold tenant_visible. rewrite Hs. by case_match. }
  set (cand := ⋃ map _ subs : gset string).
  assert (Hv : ∀ t, t ∈ filter (λ t, tenant_visible c subs t = true) cand ↔ tenant_visible c subs t = true).
  { intros t. rewrite elem_of_filter. split; [by intros []|]. intros Ht. split; [done|].
    unfold tenant_visible in Ht. destruct (entitlementsByTenant c !! t) as [e|] eqn:Ee; [|done].
    apply access_spec in Ht as (s & Hin & Hd); [|by eapply E].
    apply elem_of_union_list. exists (at_key (tenantsBySubject c) s). split.
    - apply list_elem_of_fmap. by exists s.
    - apply I. eauto. }
  assert (Hb : ∀ info, bool_decide (ti_Name info ∈ filter (λ t, tenant_visible c subs t = true) cand)
    = tenant_visible c subs (ti_Name info)).
  { intros info. apply eq_true_iff_eq. by rewrite bool_decide_eq_true, Hv. }
  case_bool_decide as Hn.
  - symmetry. apply filter_nothing. intros info. rewrite <- Hb, Hn. by apply bool_decide_eq_false, not_elem_of_empty.
  - apply List.filter_ext, Hb.
Qed.

End Access.
End DiscoveryIndex.

(** ** DiscoveryConvergence: the discovery service settles on the truth

    What holds of the tenant cache while its goroutines interleave with each
    other and with the cluster: its index is exact in every reachable state, no
    change of the cluster is ever lost (it is noticed, marked, being recomputed
    or already recomputed), and whenever the cluster leaves it alone the service
    comes to rest, having published what the cluster holds. *)
Module DiscoveryConvergence.
Import DiscoveryCache DiscoveryLoops DiscoveryFacts DiscoveryIndex.

(** Lexicographic descent. *)
Lemma lex_wf {X} (R S : X → X → Prop) (f : X → nat) :
  (∀ x y, R y x → (f y < f x)%nat ∨ f y = f x ∧ S y x) → well_founded S → well_founded R.
Proof.
  intros HR HS x. remember (f x) as n eqn:Hn. revert x Hn.
  induction n as [n IHn] using lt_wf_ind. intros x. induction (HS x) as [x _ IHx]. intros ->.
  constructor. intros y [Hlt|[He HSy]]%HR.
  - by apply (IHn (f y)).
  - apply IHx; [done|]. by rewrite He.
Qed.

Ltac fields :=
  unfold with_cache, with_synced, with_stores, with_rebuild, with_entitlement_rebuild, with_notices,
    with_events, at_metadata, at_entitlement, at_handler in *;
  cbn [stores cache synced rebuildCh entitlementRebuildCh notices events metadata entitlement handler
       tenantStore gatewayStore routeStore policyStore] in *.

Section Access.
Context {K : K8sAccess} {CA : CacheAccess}.
Variable gatewayNamespace : string.
Variable routeInformer : bool.

Notation T s := (tenantStore (stores s)).
Notation P s := (policyStore (stores s)).
Notation metadata_step := (DiscoveryLoops.metadata_step gatewayNamespace routeInformer).
Notation internal := (DiscoveryLoops.internal gatewayNamespace routeInformer).
Notation reachable := (DiscoveryLoops.reachable gatewayNamespace routeInformer).

(** ** The tenant list *)

Definition will_reread (s : Sys) : Prop :=
  notices s ≠ O ∨ rebuildCh s = true ∨ metadata s = MDrain ∨ metadata s = MListTenants.

(** A list made of what the stores hold now. *)
Definition built (s : Sys) (result : list TenantInfo) : Prop :=
  ∃ ts gs rs, ts ≡ₚ T s ∧ gs ≡ₚ gatewayStore (stores s)
    ∧ rs ≡ₚ (if routeInformer then routeStore (stores s) else [])
    ∧ result = BuildTenantInfos ts gs rs gatewayNamespace.

Definition list_current (s : Sys) : Prop :=
  will_reread s ∨
  match metadata s with
  | MListGateways ts => ts ≡ₚ T s
  | MListRoutes ts gs => ts ≡ₚ T s ∧ gs ≡ₚ gatewayStore (stores s)
  | MPublish result => built s result
  | _ => built s (tenants (cache s))
  end.

Lemma built_names s result o : built s result → o ∈ T s → GetName o ∈ map ti_Name result.
Proof.
  intros (ts & gs & rs & Ht & _ & _ & ->) Ho. unfold BuildTenantInfos. rewrite map_map. cbn.
  apply list_elem_of_fmap. exists o. by rewrite Ht.
Qed.

(** ** The entitlements *)

Definition todo (e : EntitlementLoop) : list string :=
  match e with EListPolicies d | EListTenants d _ | EApply d _ _ => d | _ => [] end.

(** The entitlement the stores call for now, and the one the cache has. *)
Definition fresh (s : Sys) (t : string) : tenantEntitlement :=
  computeTenantEntitlement t (P s) (buildNamespaceTenantMap (T s)).
Definition stored (c : InformerCache) (t : string) : tenantEntitlement :=
  default (mkEntitlement ∅) (entitlementsByTenant c !! t).

Definition snapshot_ok (s : Sys) (t : string) : Prop :=
  match entitlement s with
  | EListTenants _ ps => computeTenantEntitlement t ps (buildNamespaceTenantMap (T s)) = fresh s t
  | EApply _ ps ns => computeTenantEntitlement t ps ns = fresh s t
  | _ => True
  end.

Definition unmarked (m : MetadataLoop) : Prop :=
  match m with MListGateways _ | MListRoutes _ _ | MPublish _ | MMarkAll => True | _ => False end.
Definition hits (target : option string) (t : string) : Prop := target = None ∨ target = Some t.
(** Something is on its way that will look at the dirty set. *)
Definition dirty_seen (s : Sys) : Prop :=
  entitlementRebuildCh s = true ∨ handler s = HTrigger ∨ metadata s = MTrigger
  ∨ entitlement s = EDrain ∨ entitlement s = ETake.

(** Why the entitlement of [t] is right, or will be. *)
Inductive covered (s : Sys) (t : string) : Prop :=
| by_reread : will_reread s → covered s t
| by_marking : unmarked (metadata s) → covered s t
| by_event e : e ∈ events s → hits (dirty_target (T s) e) t → covered s t
| by_handler g : handler s = HMark g → hits g t → covered s t
| by_dirty : t ∈ dirtyTenants (cache s) → dirty_seen s → covered s t
| by_rebuild : t ∈ todo (entitlement s) → snapshot_ok s t → covered s t
| by_value : t ∉ todo (entitlement s) → stored (cache s) t = fresh s t → covered s t.

Record invariant (s : Sys) : Prop := {
  inv_tenants : tenants_ok (T s);
  inv_list : list_current s;
  inv_covered : ∀ o, o ∈ T s → covered s (GetName o);
  inv_indexed : indexed (cache s);
  inv_start : synced s = false → metadata s ≠ MWait ∧ metadata s ≠ MTrigger;
}.

(** *** What the operations do to one tenant *)

Lemma stored_apply t e c : stored (applyTenantEntitlement t e c) t = e.
Proof.
  unfold applyTenantEntitlement, stored, entitlementIsVisibleCandidate. case_bool_decide as He; cbn.
  - by rewrite lookup_insert_eq.
  - rewrite lookup_delete_eq. cbn. destruct e. cbn in *. by f_equal.
Qed.

Lemma stored_apply_ne t t' e c : t' ≠ t → stored (applyTenantEntitlement t e c) t' = stored c t'.
Proof.
  intros Hne. unfold applyTenantEntitlement, stored, entitlementIsVisibleCandidate. case_bool_decide; cbn.
  - by rewrite lookup_insert_ne.
  - by rewrite lookup_delete_ne.
Qed.

Lemma apply_frame t e c :
  dirtyTenants (applyTenantEntitlement t e c) = dirtyTenants c ∧ tenants (applyTenantEntitlement t e c) = tenants c.
Proof. unfold applyTenantEntitlement. by case_match. Qed.

Lemma mark_grows target c t : t ∈ dirtyTenants c → t ∈ dirtyTenants (mark_target target c).
Proof. destruct target; cbn; [unfold markTenantDirty; case_match; [done|]|]; cbn; set_solver. Qed.

Lemma mark_all_hits c t : t ∈ map ti_Name (tenants c) → t ∈ dirtyTenants (markAllTenantsDirty c).
Proof. intros Ht. cbn. set_solver. Qed.

Lemma mark_one_hits c t : t ≠ "" → trim_space t = t → t ∈ dirtyTenants (markTenantDirty t c).
Proof.
  intros Hne Ht. unfold markTenantDirty. rewrite Ht. apply String.eqb_neq in Hne. rewrite Hne. cbn. set_solver.
Qed.

Lemma dirty_target_perm ts ts' e : tenants_ok ts → ts' ≡ₚ ts → dirty_target ts' e = dirty_target ts e.
Proof.
  intros [Hd _] Hp. unfold dirty_target, tenantNameForNamespace. by rewrite (namespace_map_perm ts ts').
Qed.

(** ** The rebuild loops and the handlers keep the invariant *)

Ltac by_field := unfold will_reread, dirty_seen in *; fields; intuition congruence.

Lemma reread_or_built s : invariant s → will_reread s ∨ unmarked (metadata s) ∨ built s (tenants (cache s)).
Proof. intros [_ [Hl|Hl] _ _ _]; [by left|]. destruct (metadata s); cbn; auto. Qed.

(** Marking every tenant marks those of the store, once their list is current. *)
Lemma mark_all_covers s o :
  invariant s → o ∈ T s → will_reread s ∨ unmarked (metadata s) ∨ GetName o ∈ dirtyTenants (markAllTenantsDirty (cache s)).
Proof.
  intros Hi Ho. destruct (reread_or_built s Hi) as [?|[?|Hb]]; [by left|by right; left|]. right. right.
  by apply mark_all_hits, built_names with s.
Qed.

Lemma mark_loop_covers s o :
  invariant s → o ∈ T s → metadata s = MMarkAll →
  will_reread s ∨ GetName o ∈ dirtyTenants (markAllTenantsDirty (cache s)).
Proof.
  intros Hi Ho Hm. destruct (inv_list s Hi) as [?|Hl]; [by left|right]. rewrite Hm in Hl.
  by apply mark_all_hits, built_names with s.
Qed.

Lemma metadata_covered s s' o : metadata_step s s' → invariant s → o ∈ T s → covered s' (GetName o).
Proof.
  intros Hstep Hi Ho. pose proof (inv_covered s Hi o Ho) as Hc. destruct Hstep as
    [Hm Hr|Hm Hr|Hm|ts Hm Hp|ts gs Hm Hp|ts gs rs Hm Hp|r Hm|Hm Hy|Hm|Hm Hy|Hm He].
  - apply by_reread. by_field.
  - apply by_reread. by_field.
  - apply by_reread. by_field.
  - by apply by_marking.
  - by apply by_marking.
  - by apply by_marking.
  - by apply by_marking.
  - pose proof (mark_loop_covers s o Hi Ho Hm) as Hd.
    destruct Hd as [?|?]; [apply by_reread; by_field|apply by_dirty; by_field].
  - destruct Hc as [?|Hu|e He Hh|g Hg Hh|Hd Hs|Ht Hs|Ht Hs].
    + apply by_reread. by_field.
    + by rewrite Hm in Hu.
    + by eapply by_event.
    + by eapply by_handler.
    + apply by_dirty; by_field.
    + by apply by_rebuild.
    + by apply by_value.
  - pose proof (mark_loop_covers s o Hi Ho Hm) as Hd.
    destruct Hd as [?|?]; [apply by_reread; by_field|apply by_dirty; by_field].
  - destruct Hc as [?|Hu|e Hin Hh|g Hg Hh|Hd Hs|Ht Hs|Ht Hs].
    + apply by_reread. by_field.
    + by rewrite Hm in Hu.
    + by eapply by_event.
    + by eapply by_handler.
    + apply by_dirty; by_field.
    + by apply by_rebuild.
    + by apply by_value.
Qed.

Lemma entitlement_covered s s' o : entitlement_step s s' → invariant s → o ∈ T s → covered s' (GetName o).
Proof.
  intros Hstep Hi Ho. pose proof (inv_covered s Hi o Ho) as Hc.
  destruct (inv_tenants s Hi) as [Hdist _].
  destruct Hc as [Hr|Hu|e Hin Hh|g Hg Hh|Hd Hs|Ht Hs|Ht Hs];
    [by destruct Hstep; apply by_reread; by_field|by destruct Hstep; apply by_marking
    |by destruct Hstep; eapply by_event|by destruct Hstep; eapply by_handler|..];
    destruct Hstep as [He Hy Hch|He Hch|He|He Hn|d He Hn Hp|d ps He Hp|d ps ts He Hp|t d ps ns He|ps ns He];
    rewrite ?He in *; cbn [todo] in *; try (by apply not_elem_of_nil in Ht).
  - apply by_dirty; by_field.
  - apply by_dirty; by_field.
  - apply by_dirty; by_field.
  - cbn in Hn. rewrite Hn in Hd. by apply not_elem_of_empty in Hd.
  - apply by_rebuild; [|done]. cbn. rewrite Hp. by apply elem_of_elements.
  - apply by_dirty; by_field.
  - apply by_dirty; by_field.
  - apply by_dirty; [fields; by destruct (apply_frame t (computeTenantEntitlement t ps ns) (cache s)) as [-> _]|by_field].
  - apply by_dirty; by_field.
  - apply by_rebuild; [done|]. unfold snapshot_ok, fresh. fields. by apply compute_perm.
  - apply by_rebuild; [done|]. unfold snapshot_ok, fresh in *. rewrite He in Hs. fields. rewrite <- Hs.
    by rewrite (namespace_map_perm (T s) ts).
  - unfold snapshot_ok in Hs. rewrite He in Hs. destruct (decide (GetName o ∈ d)) as [Hd|Hd].
    { by apply by_rebuild. }
    apply by_value; [done|]. apply elem_of_cons in Ht as [Ht|]; [|done]. fields. rewrite Ht, stored_apply. by rewrite <- Ht.
  - by apply by_value.
  - apply by_value; [fields; by rewrite He|done].
  - by apply by_value.
  - by apply by_value.
  - destruct (decide (GetName o ∈ dirtyTenants (cache s))) as [Hd|Hd].
    + apply by_rebuild; [|done]. cbn. rewrite Hp. by apply elem_of_elements.
    + apply by_value; [|done]. cbn. rewrite Hp. cbn. by rewrite elem_of_elements.
  - by apply by_value.
  - by apply by_value.
  - apply by_value; [cbn; set_solver|]. fields. rewrite stored_apply_ne; [done|]. set_solver.
  - by apply by_value; [apply not_elem_of_nil|].
Qed.

Lemma handler_covered s s' o : handler_step s s' → invariant s → o ∈ T s → covered s' (GetName o).
Proof.
  intros Hstep Hi Ho. pose proof (inv_covered s Hi o Ho) as Hc.
  destruct Hstep as [n Hn|obj rest ts Hh He Hp|g Hh|Hh]; [apply by_reread; by_field|..];
    destruct Hc as [Hr|Hu|e Hin Hhit|g' Hg Hhit|Hd Hs|Ht Hs|Ht Hs];
    try (by apply by_marking); try (by apply by_rebuild); try (by apply by_reread; by_field).
  - rewrite He in Hin. apply elem_of_cons in Hin as [->|Hin]; [|by apply (by_event _ _ e)].
    apply (by_handler _ _ (dirty_target ts obj)); [done|].
    by rewrite (dirty_target_perm (T s)) by (done || apply inv_tenants, Hi).
  - apply by_dirty; by_field.
  - by apply by_value.
  - by apply (by_event _ _ e).
  - rewrite Hg in Hh. injection Hh as ->. destruct Hhit as [->| ->].
    + destruct (mark_all_covers s o Hi Ho) as [?|[?|?]];
        [apply by_reread; by_field|by apply by_marking|apply by_dirty; by_field].
    + destruct (named _ (inv_tenants s Hi) o Ho) as [Hne Ht].
      apply by_dirty; [fields; by apply mark_one_hits|by_field].
  - apply by_dirty; [fields; by apply mark_grows|by_field].
  - apply by_value; [done|]. fields. unfold stored in *. by destruct (mark_target_frame g (cache s)) as (-> & _ & _).
  - by apply (by_event _ _ e).
  - apply by_dirty; by_field.
  - by apply by_value.
Qed.

(** ** The cluster cannot break it *)

(** A change of the policies is about [t] only if its event reaches [t]. *)
Lemma policy_change_reaches ts ps l o e t :
  store_change ps l o → event_about o e → trim_space (GetNamespace o) = GetNamespace o → t ≠ "" →
  hits (dirty_target ts e) t
  ∨ computeTenantEntitlement t l (buildNamespaceTenantMap ts) = computeTenantEntitlement t ps (buildNamespaceTenantMap ts).
Proof.
  intros Hch Hev Htrim Hne. set (ns := buildNamespaceTenantMap ts).
  destruct (decide (tenant_at ns (GetNamespace o) = t)) as [Ht|Ht].
  - left. unfold hits, dirty_target. destruct (namespaceFromObject e) as [n|] eqn:En; [|by left].
    apply Hev in En. rewrite Htrim in En. subst n. case_match; [by left|]. right.
    unfold tenantNameForNamespace. rewrite Htrim. fold ns. rewrite Ht. by apply String.eqb_neq in Hne as ->.
  - right. apply compute_filter.
    assert (Hf : ∀ x, tenant_at ns (GetNamespace x) ≠ t → ∀ r, filter (of_tenant t ns) (x :: r) = filter (of_tenant t ns) r).
    { intros x Hx r. rewrite filter_cons, decide_False; [done|]. by intros [_ ?]. }
    destruct Hch as [l o|l1 old o l2 _ Hns|l1 o l2]; rewrite ?filter_app, ?Hf; try done. by rewrite Hns.
Qed.

Lemma outside_covered s s' o : outside s s' → invariant s → o ∈ T s' → covered s' (GetName o).
Proof.
  intros Hstep Hi Ho. destruct Hstep as [l x Hch Hok|l x Hch|l x Hch|l x e Hch Hev Htrim];
    [by apply by_reread; left..|].
  fields. pose proof (inv_covered s Hi o Ho) as Hc. destruct (named _ (inv_tenants s Hi) o Ho) as [Hne _].
  destruct (policy_change_reaches (T s) _ _ _ _ _ Hch Hev Htrim Hne) as [Hhit|Hsame].
  { apply (by_event _ _ e); [|done]. fields. set_solver. }
  destruct Hc as [Hr|Hu|e' Hin Hhit|g Hg Hhit|Hd Hs|Ht Hs|Ht Hs].
  - by apply by_reread.
  - by apply by_marking.
  - apply (by_event _ _ e'); [|done]. fields. set_solver.
  - by eapply by_handler.
  - by apply by_dirty.
  - apply by_rebuild; [done|]. unfold snapshot_ok, fresh in *. fields. rewrite Hsame. done.
  - apply by_value; [done|]. unfold fresh in *. fields. by rewrite Hsame.
Qed.

(** ** The invariant *)

Lemma metadata_list s s' : metadata_step s s' → invariant s → list_current s'.
Proof.
  intros Hstep Hi. pose proof (inv_list s Hi) as Hl. unfold list_current in *.
  destruct Hstep as [Hm Hr|Hm Hr|Hm|ts Hm Hp|ts gs Hm Hp|ts gs rs Hm Hp|r Hm|Hm Hy|Hm|Hm Hy|Hm He];
    rewrite ?Hm in Hl; try (by left; by_field);
    (destruct Hl as [Hl|Hl]; [try (by left; by_field)|]); try (by right).
  - destruct Hl as [Ht Hg]. right. fields. by exists ts, gs, rs.
Qed.

Lemma others_list s s' : entitlement_step s s' ∨ handler_step s s' → invariant s → list_current s'.
Proof.
  intros Hstep Hi. pose proof (inv_list s Hi) as Hl. unfold list_current in *.
  assert (Hs : will_reread s' ∨ (will_reread s → will_reread s') ∧ metadata s' = metadata s ∧ stores s' = stores s
    ∧ tenants (cache s') = tenants (cache s)).
  { destruct Hstep as [Hstep|Hstep]; destruct Hstep; try (by left; by_field); right; (split; [by_field|]); fields;
      (split; [done|]); (split; [done|]); try done.
    - apply apply_frame.
    - apply mark_target_frame. }
  destruct Hs as [?|(Hr & Hm & Hst & Hc)]; [by left|]. destruct Hl as [Hl|Hl]; [by left; apply Hr|]. right.
  rewrite Hm. unfold built in *. by rewrite Hst, Hc.
Qed.

Lemma outside_list s s' : outside s s' → invariant s → list_current s'.
Proof.
  intros Hstep Hi. pose proof (inv_list s Hi) as Hl. unfold list_current in *.
  destruct Hstep; [by left; left..|]. destruct Hl as [Hl|Hl]; [by left|by right].
Qed.

Lemma internal_indexed s s' : internal s s' → indexed (cache s) → indexed (cache s').
Proof.
  intros [Hstep|[Hstep|Hstep]] Hi; destruct Hstep; fields; try done; try by apply (indexed_frame (cache s)).
  - apply apply_indexed; [done|]. apply compute_no_empty.
  - by apply (indexed_frame (cache s)); [apply mark_target_frame..|].
Qed.

Lemma internal_invariant s s' : internal s s' → invariant s → invariant s'.
Proof.
  intros Hstep Hi. assert (Hst : stores s' = stores s).
  { by destruct Hstep as [Hstep|[Hstep|Hstep]]; destruct Hstep. }
  split.
  - rewrite Hst. apply Hi.
  - destruct Hstep as [Hstep|Hstep]; [by eapply metadata_list|by eapply others_list].
  - intros o. rewrite Hst. intros Ho. destruct Hstep as [Hstep|[Hstep|Hstep]];
      [by eapply metadata_covered|by eapply entitlement_covered|by eapply handler_covered].
  - eapply internal_indexed; [done|]. apply Hi.
  - pose proof (inv_start s Hi). destruct Hstep as [Hstep|[Hstep|Hstep]]; destruct Hstep; fields; intuition congruence.
Qed.

Lemma outside_invariant s s' : outside s s' → invariant s → invariant s'.
Proof.
  intros Hstep Hi. split.
  - destruct Hstep; fields; [done|apply Hi..].
  - by eapply outside_list.
  - intros o. by eapply outside_covered.
  - destruct Hstep; apply Hi.
  - destruct Hstep; apply Hi.
Qed.

Lemma started_invariant s : started s → invariant s.
Proof.
  intros (Ht & He & Hx & Hl & Hy & _ & _ & Hm & _). assert (Hr : will_reread s) by by_field. split.
  - done.
  - by left.
  - intros o _. by apply by_reread.
  - split; rewrite ?He, ?Hx.
    + intros x t. unfold at_key. setoid_rewrite lookup_empty. cbn. split; [set_solver|naive_solver].
    + intros x. by rewrite lookup_empty.
    + intros t e. by rewrite lookup_empty.
  - intros _. rewrite Hm. done.
Qed.

Lemma reachable_invariant s : reachable s → invariant s.
Proof.
  intros (s0 & Hs & Hrtc). apply started_invariant in Hs. induction Hrtc as [|x y z [Hxy|Hxy] _ IH]; [done|..];
    apply IH; [by eapply internal_invariant|by eapply outside_invariant].
Qed.

(** ** Coming to rest *)

Definition metadata_weight (s : Sys) : nat :=
  21 * notices s + (if rebuildCh s then 20 else 0) +
  match metadata s with
  | MWait => 0 | MFirstRebuild | MTrigger => 1 | MMarkAll => 2 | MPublish _ => 3 | MListRoutes _ _ => 4
  | MListGateways _ => 5 | MListTenants => 6 | MDrain => 7
  end.
Definition handler_weight (s : Sys) : nat :=
  3 * length (events s) + match handler s with HReady => 0 | HTrigger => 1 | HMark _ => 2 end.
Definition channel_weight (s : Sys) : nat := if entitlementRebuildCh s then 1 else 0.
Definition entitlement_weight (s : Sys) : nat :=
  match entitlement s with
  | EWait => 0 | EApply d _ _ => 1 + length d | EListTenants d _ => 2 + length d
  | EListPolicies d => 3 + length d | ETake => 4 + size (dirtyTenants (cache s))
  | EDrain => 5 + size (dirtyTenants (cache s))
  end.

Lemma internal_descends s s' : internal s s' →
  (metadata_weight s' < metadata_weight s)%nat ∨ metadata_weight s' = metadata_weight s ∧
  ((handler_weight s' < handler_weight s)%nat ∨ handler_weight s' = handler_weight s ∧
   ((channel_weight s' < channel_weight s)%nat ∨ channel_weight s' = channel_weight s ∧
    (entitlement_weight s' < entitlement_weight s)%nat)).
Proof.
  intros [Hstep|[Hstep|Hstep]].
  - left. destruct Hstep as [Hm Hr|Hm Hr|Hm|ts Hm Hp|ts gs Hm Hp|ts gs rs Hm Hp|r Hm|Hm Hy|Hm|Hm Hy|Hm He];
      unfold metadata_weight; fields; rewrite ?Hm, ?Hr; destruct (rebuildCh s); lia.
  - right. destruct Hstep as [He Hy Hch|He Hch|He|He Hn|d He Hn Hp|d ps He Hp|d ps ts He Hp|t d ps ns He|ps ns He];
      (split; [done|]); right; (split; [done|]); unfold channel_weight, entitlement_weight; fields; rewrite ?He, ?Hch; cbn [length]; try lia.
    rewrite Hp. right. split; [done|]. unfold size, set_size. cbn. lia.
  - destruct Hstep as [n Hn|obj rest ts Hh He Hp|g Hh|Hh].
    + left. unfold metadata_weight. fields. rewrite Hn. destruct (rebuildCh s); lia.
    + right. split; [done|]. left. unfold handler_weight. fields. rewrite He, Hh. cbn [length]. lia.
    + right. split; [done|]. left. unfold handler_weight. fields. rewrite Hh. lia.
    + right. split; [done|]. left. unfold handler_weight. fields. rewrite Hh. lia.
Qed.

Lemma internal_wf : well_founded (flip internal).
Proof.
  eapply (lex_wf _ _ metadata_weight); [intros x y; apply internal_descends|].
  eapply (lex_wf _ _ handler_weight); [intros x y H; exact H|].
  eapply (lex_wf _ _ channel_weight); [intros x y H; exact H|]. apply well_founded_ltof.
Qed.

(** At rest nothing is left to do. *)
Lemma at_rest s : invariant s → (∀ s', ¬ internal s s') →
  synced s = true ∧ notices s = O ∧ rebuildCh s = false ∧ entitlementRebuildCh s = false ∧ events s = []
  ∧ handler s = HReady ∧ metadata s = MWait ∧ entitlement s = EWait.
Proof.
  intros Hi Hq.
  assert (He : entitlement s = EWait).
  { destruct (entitlement s) as [| | |d|d ps|[|t d] ps ns] eqn:E; [done|exfalso..];
      [|destruct (decide (dirtyTenants (cache s) = ∅)) as [Hd|Hd]|..]; eapply Hq; right; left;
      [by apply e_timer|by apply e_nothing|by eapply e_take|by eapply e_policies|by eapply e_tenants
      |by eapply e_done|by eapply e_apply]. }
  assert (Hm : metadata s = MWait).
  { destruct (metadata s) eqn:E; [done|exfalso..]; [..|destruct (synced s) eqn:Ey| |]; eapply Hq; left;
      [by apply m_timer|by eapply m_tenants|by eapply m_gateways|by eapply m_routes|by eapply m_publish
      |by apply m_mark|by apply m_start|by apply m_trigger|by apply m_started]. }
  assert (Hy : synced s = true) by
    (destruct (synced s) eqn:Ey; [done|]; destruct (inv_start s Hi Ey) as [H _]; by rewrite Hm in H).
  assert (Hn : notices s = O) by
    (destruct (notices s) as [|n] eqn:E; [done|]; exfalso; eapply Hq; right; right; by eapply h_notice).
  assert (Hh : handler s = HReady) by
    (destruct (handler s) eqn:E; [done|exfalso; eapply Hq; right; right..]; [by eapply h_mark|by apply h_trigger]).
  assert (Hev : events s = []) by
    (destruct (events s) eqn:E; [done|]; exfalso; eapply Hq; right; right; by eapply h_resolve).
  assert (Hr : rebuildCh s = false) by
    (destruct (rebuildCh s) eqn:E; [|done]; exfalso; eapply Hq; left; by apply m_receive).
  assert (Hc : entitlementRebuildCh s = false) by
    (destruct (entitlementRebuildCh s) eqn:E; [|done]; exfalso; eapply Hq; right; left; by apply e_receive).
  done.
Qed.

End Access.
End DiscoveryConvergence.
