(* ===== verification/DiscoveryHandler.v ===== *)
(** * DiscoveryHandler: who asks, and what is answered

    [maas-discovery/internal/auth/token_review.go] and
    [maas-discovery/internal/handler/handler.go]: the middleware that
    authenticates a request by TokenReview and SubjectAccessReview, and the
    endpoints.  The reviews are answers of the Kubernetes API, hence
    parameters, as in [AdminAuth], whose records of a review this file shares. *)

From stdpp Require Import relations.
From S2P Require Import Prelude GoStrings Unstructured Subscription AuthPolicy AdminAuth GatewayMetadata DiscoveryCache DiscoveryFacts.
From Stdlib Require String.
Local Open Scope string_scope.

Module DiscoveryHandler.
Import AdminAuth DiscoveryCache DiscoveryLoops DiscoveryFacts DiscoveryIndex DiscoveryConvergence.

(** What the middleware leaves in the request's context. *)
Record Caller := { ctx_Username : string; ctx_Groups : list string; ctx_IsAdmin : bool }.

Section Reviews.
Variable subject_access_review : Review → Res string bool.
Variable token_review : string → Res string TokenStatus.

(** May the subject use the cluster at all? *)
Definition user_review (st : TokenStatus) : Review := {|
  rv_User := tr_Username st; rv_Groups := tr_Groups st; rv_Namespace := "";
  rv_Verb := "create"; rv_Group := "authorization.k8s.io"; rv_Resource := "selfsubjectaccessreviews" |}.

(** May the subject list AITenants? *)
Definition admin_review (aitenantNamespace : string) (st : TokenStatus) : Review := {|
  rv_User := tr_Username st; rv_Groups := tr_Groups st; rv_Namespace := aitenantNamespace;
  rv_Verb := "list"; rv_Group := "maas.opendatahub.io"; rv_Resource := "aitenants" |}.

Definition admin_visible (aitenantNamespace : string) (st : TokenStatus) : bool :=
  if String.eqb aitenantNamespace "" then false else
  match subject_access_review (admin_review aitenantNamespace st) with
  | Err _ => false
  | Ok allowed => allowed
  end.

(** [TokenReviewMiddleware]: the context it sets, or the status it aborts with. *)
Definition TokenReviewMiddleware (aitenantNamespace authHeader : string) : Res Z Caller :=
  if String.eqb authHeader "" || negb (has_prefix bearer_prefix authHeader) then Err 401%Z else
  let token := str_drop 7 authHeader in
  match token_review token with
  | Err _ => Err 401%Z
  | Ok st =>
      if negb (Authenticated st) then Err 401%Z else
      match subject_access_review (user_review st) with
      | Err _ => Err 500%Z
      | Ok false => Err 403%Z
      | Ok true =>
          Ok {| ctx_Username := tr_Username st; ctx_Groups := tr_Groups st;
                ctx_IsAdmin := admin_visible aitenantNamespace st |}
      end
  end.

(** [ListTenants] on the context of the request; without the middleware there
    is none. *)
Definition ListTenants (c : InformerCache) (ctx : option Caller) : list TenantInfo :=
  let user := match ctx with Some x => ctx_Username x | None => "" end in
  let groups := match ctx with Some x => ctx_Groups x | None => [] end in
  let isAdmin := match ctx with Some x => ctx_IsAdmin x | None => false end in
  if isAdmin then List_ c else ListForSubjects c user groups.

Definition Healthz : Z := 200.
Definition Readyz (s : Sys) : Z := if synced s then 200 else 503.

(** GET /v1/tenants as [RegisterRoutes] wires it. *)
Definition get_tenants (aitenantNamespace : string) (c : InformerCache) (authHeader : string)
    : Res Z (list TenantInfo) :=
  caller <- TokenReviewMiddleware aitenantNamespace authHeader ;;
  Ok (ListTenants c (Some caller)).

Section Access.
Context {K : K8sAccess} {CA : CacheAccess}.

(** A subject of the caller is named by the tenant's entitlement. *)
Definition named_in (c : InformerCache) (st : TokenStatus) (t : string) : Prop :=
  ∃ e s, entitlementsByTenant c !! t = Some e ∧ s ∈ entitlementSubjects e
    ∧ s ∈ makeCallerSubjects (tr_Username st) (tr_Groups st).

Lemma scan_elem c username groups info : indexed c →
  info ∈ scan c username groups ↔ info ∈ tenants c ∧
    ∃ e s, entitlementsByTenant c !! ti_Name info = Some e ∧ s ∈ entitlementSubjects e
      ∧ s ∈ makeCallerSubjects username groups.
Proof.
  intros Hi. unfold scan. rewrite !list_elem_of_In, List.filter_In. apply and_iff_compat_l.
  unfold tenant_visible. destruct (entitlementsByTenant c !! ti_Name info) as [e|] eqn:Ee; [|naive_solver].
  rewrite access_spec by by eapply (entitlements_lean c Hi). naive_solver.
Qed.

(** C16 Tenant discovery fails closed.  In whatever state the service is, a
    request is answered with tenants only if its bearer token passed the
    TokenReview and its identity the SubjectAccessReview; every tenant shown is
    then one of the published list, and either the API server lets that
    identity list AITenants, in which case all are shown, or the tenant's
    entitlement names a subject of that identity, in which case every such
    tenant is shown.  A review that fails, or a service without an AITenant
    namespace, makes no administrator. *)
Theorem discovery_fails_closed gatewayNamespace routeInformer s aitenantNamespace authHeader infos :
  reachable gatewayNamespace routeInformer s →
  get_tenants aitenantNamespace (cache s) authHeader = Ok infos →
  ∃ token st,
    authHeader = bearer_prefix +:+ token ∧ token_review token = Ok st ∧ Authenticated st = true ∧
    subject_access_review (user_review st) = Ok true ∧
    ((aitenantNamespace ≠ "" ∧ subject_access_review (admin_review aitenantNamespace st) = Ok true
      ∧ infos = tenants (cache s))
     ∨ (admin_visible aitenantNamespace st = false
        ∧ ∀ info, info ∈ infos ↔ info ∈ tenants (cache s) ∧ named_in (cache s) st (ti_Name info))).
Proof.
  intros Hs%reachable_invariant. unfold get_tenants, TokenReviewMiddleware.
  destruct (has_prefix bearer_prefix authHeader) eqn:Hp; [|by rewrite orb_true_r].
  apply has_prefix_spec in Hp as [token ->]. change (str_drop 7 (bearer_prefix +:+ token)) with token.
  change (String.eqb (bearer_prefix +:+ token) "") with false. cbn [orb negb].
  destruct (token_review token) as [st|] eqn:Ht; [|done].
  destruct (Authenticated st) eqn:Ha; cbn [negb]; [|done].
  destruct (subject_access_review (user_review st)) as [[]|] eqn:Hu; [|done..].
  intros [= <-]. exists token, st. do 4 (split; [done|]).
  unfold ListTenants, List_. cbn [ctx_IsAdmin ctx_Username ctx_Groups].
  destruct (admin_visible aitenantNamespace st) eqn:Hadm; [left|right].
  - unfold admin_visible in Hadm. destruct (String.eqb_spec aitenantNamespace "") as [|Hne]; [done|].
    split; [done|]. split; [|done]. by destruct (subject_access_review (admin_review _ _)) as [[]|].
  - split; [done|]. intros info. pose proof (inv_indexed _ _ s Hs) as Hi.
    rewrite list_is_scan by done. by apply scan_elem.
Qed.

End Access.
End Reviews.
End DiscoveryHandler.

(** ** DiscoveryVisibility: which tenants a caller is shown

    What the discovery service answers: in every reachable state exactly what
    its entitlements say, and once it is at rest exactly what the MaaSAuthPolicy
    objects of the cluster say, which covers everyone the maas-api authorizes. *)
Module DiscoveryVisibility.
Import DiscoveryCache DiscoveryLoops DiscoveryFacts DiscoveryIndex DiscoveryConvergence.

Section Access.
Context {K : K8sAccess} {CA : CacheAccess}.

(** What the cluster says: some policy, not being deleted, in the namespace of
    the tenant, grants at least one model and names one of the subjects. *)
Definition entitles (ts : list Object) (callerSubjects : list string) (t : string) (p : Object) : bool :=
  bool_decide (of_tenant t (buildNamespaceTenantMap ts) p) && bool_decide (policy_refs p ≠ ∅)
  && existsb (fun s => bool_decide (s ∈ policy_keys p)) callerSubjects.
Definition entitled (ts ps : list Object) (callerSubjects : list string) (t : string) : bool :=
  existsb (entitles ts callerSubjects t) ps.

Lemma policy_grant_spec s p : policy_grant s p ≠ ∅ ↔ policy_refs p ≠ ∅ ∧ s ∈ policy_keys p.
Proof. unfold policy_grant. case_bool_decide; naive_solver. Qed.

Lemma access_entitled ts ps subs t :
  callerHasTenantAccess (computeTenantEntitlement t ps (buildNamespaceTenantMap ts)) subs = entitled ts ps subs t.
Proof.
  apply eq_true_iff_eq. rewrite access_spec by apply compute_no_empty. unfold entitlementSubjects.
  setoid_rewrite no_empty_dom; [|apply compute_no_empty]. setoid_rewrite compute_at.
  unfold entitled, entitles. rewrite existsb_exists. split.
  - intros (s & Hs & Hne). apply set_choose_L in Hne as [m Hm]. apply elem_of_union_list in Hm as (g & Hg & Hm).
    apply list_elem_of_fmap in Hg as (p & -> & Hp). apply list_elem_of_filter in Hp as [Ht Hp].
    assert (Hgr : policy_grant s p ≠ ∅) by set_solver. apply policy_grant_spec in Hgr as [Hr Hk].
    exists p. split; [by apply list_elem_of_In|]. rewrite !bool_decide_true by done. cbn.
    apply existsb_exists. exists s. split; [by apply list_elem_of_In|by apply bool_decide_eq_true].
  - intros (p & Hp & He). bool_hyps. apply existsb_exists in H0 as (s & Hs & Hk%bool_decide_eq_true).
    exists s. split; [by apply list_elem_of_In|].
    assert (Hgr : policy_grant s p ≠ ∅) by by apply policy_grant_spec.
    apply set_choose_L in Hgr as [m Hm]. intros Hnone.
    enough (m ∈ (∅ : gset string)) by set_solver. rewrite <- Hnone. apply elem_of_union_list.
    exists (policy_grant s p). split; [|done]. apply list_elem_of_fmap. exists p. split; [done|].
    apply list_elem_of_filter. split; [done|by apply list_elem_of_In].
Qed.

Lemma visible_stored c subs t : tenant_visible c subs t = callerHasTenantAccess (stored c t) subs.
Proof.
  unfold tenant_visible, stored. destruct (entitlementsByTenant c !! t); cbn; [done|].
  symmetry. unfold callerHasTenantAccess. cbn [policyModelsBySubject].
  induction subs as [|s subs IH]; [done|]. cbn [existsb]. by rewrite lookup_empty, IH.
Qed.

Section Cluster.
Variable gatewayNamespace : string.
Variable routeInformer : bool.
Notation internal := (DiscoveryLoops.internal gatewayNamespace routeInformer).
Notation reachable := (DiscoveryLoops.reachable gatewayNamespace routeInformer).

(** The state publishes what the cluster holds: every AITenant with its
    Gateway's endpoint, and each to exactly those the policies entitle. *)
Definition exact (s : Sys) : Prop :=
  ∃ ts gs rs,
    ts ≡ₚ tenantStore (stores s) ∧ gs ≡ₚ gatewayStore (stores s)
    ∧ rs ≡ₚ (if routeInformer then routeStore (stores s) else [])
    ∧ List_ (cache s) = BuildTenantInfos ts gs rs gatewayNamespace
    ∧ ∀ username groups, ListForSubjects (cache s) username groups
        = List.filter (fun info => entitled (tenantStore (stores s)) (policyStore (stores s))
                                     (makeCallerSubjects username groups) (ti_Name info))
            (BuildTenantInfos ts gs rs gatewayNamespace).

Lemma rest_exact s : invariant gatewayNamespace routeInformer s → (∀ s', ¬ internal s s') → exact s.
Proof.
  intros Hi Hq. destruct (at_rest _ _ s Hi Hq) as (Hy & Hn & Hr & Hc & Hev & Hh & Hm & He).
  assert (Hnr : ¬ will_reread s) by (unfold will_reread; intuition congruence).
  destruct (inv_list _ _ s Hi) as [?|Hl]; [done|]. rewrite Hm in Hl.
  pose proof Hl as (ts & gs & rs & Ht & Hg & Hrs & Hb). exists ts, gs, rs. do 4 (split; [done|]).
  intros username groups. rewrite list_is_scan by apply (inv_indexed _ _ s Hi). unfold scan. rewrite <- Hb.
  apply filter_ext_in. intros info Hin. rewrite visible_stored. rewrite <- access_entitled. f_equal.
  rewrite Hb in Hin. unfold BuildTenantInfos in Hin. apply in_map_iff in Hin as (o & <- & Ho). cbn.
  assert (Ho' : o ∈ tenantStore (stores s)) by (rewrite <- Ht; by apply list_elem_of_In).
  destruct (inv_covered _ _ s Hi o Ho') as [?|Hu|e Hin _|g Hg' _|_ Hs|Htd _|_ Hv].
  - done.
  - by rewrite Hm in Hu.
  - rewrite Hev in Hin. by apply not_elem_of_nil in Hin.
  - congruence.
  - unfold dirty_seen in Hs. intuition congruence.
  - rewrite He in Htd. by apply not_elem_of_nil in Htd.
  - exact Hv.
Qed.

(** C15 The discovery service converges, whatever happened before.  From every
    state its goroutines and the cluster can reach together, its own steps
    come to an end, in whatever order they interleave and however the stores
    are listed; and where they end, the cache is synced, the tenant list is
    that of the AITenants, Gateways and Routes of the cluster, and a caller is
    shown exactly the tenants in whose namespace a MaaSAuthPolicy that is not
    being deleted grants a model to one of the caller's subjects: no change of
    the cluster is lost between the handlers, the channels and the loops. *)
Theorem discovery_converges s :
  reachable s →
  Acc (flip internal) s ∧
  ∀ s', rtc internal s s' → (∀ s'', ¬ internal s' s'') → synced s' = true ∧ exact s'.
Proof.
  intros Hs. split; [apply internal_wf|]. intros s' Hrtc Hq.
  assert (Hi : invariant gatewayNamespace routeInformer s').
  { apply reachable_invariant in Hs. induction Hrtc as [|x y z Hxy _ IH]; [done|]. apply IH; [|done].
    by eapply internal_invariant. }
  split; [by apply at_rest in Hq as [? _]|by apply rest_exact].
Qed.

(** The subject index never lies, even while everything is changing: in
    every reachable state a tenant is filed under a subject exactly when the
    tenant's entitlement names the subject, no entry is empty, and the answer
    the service reads off the index is the one a scan of the entitlement of
    every tenant gives. *)
Theorem subject_index_exact s :
  reachable s →
  (∀ subject tenant, tenant ∈ at_key (tenantsBySubject (cache s)) subject ↔
     ∃ e, entitlementsByTenant (cache s) !! tenant = Some e ∧ subject ∈ entitlementSubjects e) ∧
  no_empty (tenantsBySubject (cache s)) ∧
  ∀ username groups, ListForSubjects (cache s) username groups = scan (cache s) username groups.
Proof.
  intros Hs%reachable_invariant. pose proof (inv_indexed _ _ s Hs) as Hi. split; [apply Hi|]. split; [apply Hi|].
  intros username groups. by apply list_is_scan.
Qed.

End Cluster.

(** ** The authorization of the maas-api *)

Lemma caller_user username groups :
  trim_space username ≠ "" → userSubjectKey username ∈ makeCallerSubjects username groups.
Proof.
  intros Hu. unfold makeCallerSubjects, userSubjectKey. apply String.eqb_neq in Hu. rewrite Hu.
  apply elem_of_app. left. cbn. by left.
Qed.

Lemma caller_group username groups g :
  g ∈ groups → trim_space g ≠ "" → groupSubjectKey g ∈ makeCallerSubjects username groups.
Proof.
  intros Hg Ht. unfold makeCallerSubjects. apply elem_of_app. right.
  apply list_elem_of_In, List.filter_In. split; [by apply in_map, list_elem_of_In|].
  unfold groupSubjectKey. apply String.eqb_neq in Ht. rewrite Ht. done.
Qed.

Lemma model_ref_key raw items m :
  as_slice raw = Some items → JObj m ∈ items →
  trim_space (string_or_empty (get "name" m)) ≠ "" → trim_space (string_or_empty (get "namespace" m)) ≠ "" →
  modelRefKeys raw ≠ ∅.
Proof.
  intros Hr Hm Hn Hns. unfold modelRefKeys. rewrite Hr. apply AuthPolicy.maps_of_elem in Hm. revert Hm.
  generalize (maps_of items) as ms. intros ms Hm.
  enough (H : ∀ out : gset string, m ∈ ms ∨ out ≠ ∅ → foldl (fun out modelRef =>
        if String.eqb (trim_space (string_or_empty (get "name" modelRef))) ""
           || String.eqb (trim_space (string_or_empty (get "namespace" modelRef))) "" then out
        else {[trim_space (string_or_empty (get "namespace" modelRef)) +:+ "/"
               +:+ trim_space (string_or_empty (get "name" modelRef))]} ∪ out) out ms ≠ ∅) by (apply H; by left).
  clear Hm. induction ms as [|x ms IH]; intros out [Hx|Ho]; cbn [foldl]; [by apply not_elem_of_nil in Hx|done|..].
  - apply elem_of_cons in Hx as [<-|Hx]; [|by apply IH; left]. apply String.eqb_neq in Hn as ->, Hns as ->.
    cbn [orb]. apply IH. right. set_solver.
  - apply IH. right. case_match; [done|set_solver].
Qed.

Lemma key_of_user username items subjects groups :
  as_slice (get "users" subjects) = Some items → JStr username ∈ items → trim_space username ≠ "" →
  userSubjectKey username ∈ (userSubjects (get "users" subjects) ++ groupSubjects groups)%list.
Proof.
  intros Hs Hin Hne. apply elem_of_app. left. unfold userSubjects. rewrite Hs.
  apply list_elem_of_In, List.filter_In. split.
  - apply in_map, list_elem_of_In, list_elem_of_omap. by exists (JStr username).
  - unfold userSubjectKey. apply String.eqb_neq in Hne. by rewrite Hne.
Qed.

Lemma key_of_group g m items subjects users :
  as_slice (get "groups" subjects) = Some items → JObj m ∈ items → string_or_empty (get "name" m) = g →
  trim_space g ≠ "" → groupSubjectKey g ∈ (userSubjects users ++ groupSubjects (get "groups" subjects))%list.
Proof.
  intros Hs Hin <- Hne. apply elem_of_app. right. unfold groupSubjects. rewrite Hs.
  apply list_elem_of_In, List.filter_In. split.
  - apply (in_map (fun g => groupSubjectKey (string_or_empty (get "name" g)))).
    by apply list_elem_of_In, AuthPolicy.maps_of_elem.
  - unfold groupSubjectKey. apply String.eqb_neq in Hne. by rewrite Hne.
Qed.

(** A policy that authorizes, not being deleted, entitles. *)
Lemma permitted_entitled ts ps username groups p k :
  p ∈ ps → AuthPolicy.permits groups username k p → GetDeletionTimestamp p = None →
  trim_space (key_name k) ≠ "" → trim_space (key_namespace k) ≠ "" →
  trim_space username ≠ "" → (∀ g, g ∈ groups → trim_space g ≠ "") →
  entitled ts ps (makeCallerSubjects username groups) (tenant_at (buildNamespaceTenantMap ts) (GetNamespace p)) = true.
Proof.
  intros Hp Hper Hdel Hn Hns Hu Hg.
  destruct Hper as (spec & Hspec & (subjects & Hsub & Hsubj) & _ & refs & m & Hr & Hm & <-).
  unfold AuthPolicy.policy_spec in Hspec.
  apply existsb_exists. exists p. split; [by apply list_elem_of_In|]. unfold entitles.
  rewrite !bool_decide_true; cycle 1.
  { unfold policy_refs. rewrite Hspec. by eapply model_ref_key. }
  { by split. }
  cbn [andb]. apply existsb_exists. unfold policy_keys. rewrite Hspec, Hsub.
  destruct Hsubj as [[_ (users & Hus & Hin)]|(gs & gm & Hgs & Hin & Hname)].
  - exists (userSubjectKey username). split; [by apply list_elem_of_In, caller_user|].
    by apply bool_decide_eq_true, key_of_user with users.
  - exists (groupSubjectKey (string_or_empty (get "name" gm))). split.
    + apply list_elem_of_In, caller_group; [done|by apply Hg].
    + apply bool_decide_eq_true. eapply key_of_group; eauto.
Qed.

(** C17 Discovery covers authorization.  At rest, in every reachable state: when
    the maas-api, on the MaaSAuthPolicies discovery stores, authorizes a caller
    for a model, some stored policy does so, and for every stored policy that
    does, discovery shows that caller the tenant of the policy's namespace
    whenever it publishes it, unless the policy is being deleted, which the
    maas-api does not look at.  The user
    name, the groups and the two names of the model are more than space. *)
Theorem discovery_covers_authorization gatewayNamespace routeInformer s c username groups a k :
  reachable gatewayNamespace routeInformer s → (∀ s', ¬ internal gatewayNamespace routeInformer s s') →
  AuthPolicy.lister c = Some (Ok (policyStore (stores s))) → AuthPolicy.AuthorizedModels c groups username = Ok a →
  a !! k = Some true → trim_space (key_name k) ≠ "" → trim_space (key_namespace k) ≠ "" →
  trim_space username ≠ "" → (∀ g, g ∈ groups → trim_space g ≠ "") →
  (∃ p, p ∈ policyStore (stores s) ∧ AuthPolicy.permits groups username k p)
  ∧ ∀ p, p ∈ policyStore (stores s) → AuthPolicy.permits groups username k p →
      GetDeletionTimestamp p ≠ None
      ∨ ∀ info, info ∈ List_ (cache s) →
          ti_Name info = tenant_at (buildNamespaceTenantMap (tenantStore (stores s))) (GetNamespace p) →
          info ∈ ListForSubjects (cache s) username groups.
Proof.
  intros Hs Hq Hl Ha Hk Hn Hns Hu Hg.
  pose proof (AuthPolicy.authorized_models_elem c groups username _ a k Hl Ha) as Hiff. rewrite Hk in Hiff.
  split; [exact (proj1 Hiff eq_refl)|]. intros p Hp Hper.
  destruct (GetDeletionTimestamp p) eqn:Hdel; [by left|right]. intros info Hin Ht.
  destruct (rest_exact gatewayNamespace routeInformer s (reachable_invariant _ _ _ Hs) Hq) as (ts & gs & rs & _ & _ & _ & Hlist & Hshow).
  rewrite Hshow. apply list_elem_of_In, List.filter_In. rewrite Hlist in Hin. split; [by apply list_elem_of_In|].
  rewrite Ht. by eapply permitted_entitled.
Qed.

End Access.
End DiscoveryVisibility.

(** ** DiscoveryDemo: the discovery service on a small cluster

    Two tenants, one Gateway behind an OpenShift Route, one policy: the service
    starts, settles and answers.  The hypotheses of the theorems about it hold
    here, with the third-party accessors at their documented behaviour. *)
Module DiscoveryDemo.
Import AdminAuth DiscoveryCache DiscoveryLoops DiscoveryFacts DiscoveryIndex DiscoveryConvergence DiscoveryVisibility.

#[local] Existing Instances documented_access documented_cache_access.

Definition aitenant (name ns : string) : Object :=
  mkObject [("metadata", JObj [("name", JStr name); ("namespace", JStr "tenants")]);
            ("status", JObj [("tenantNamespace", JStr ns)])].
Definition gateway_a : Object :=
  mkObject [("metadata", JObj [("name", JStr "team-a"); ("namespace", JStr "ingress")]);
            ("spec", JObj [("listeners", JArr [
               JObj [("name", JStr "web"); ("protocol", JStr "HTTP"); ("port", JInt 80)];
               JObj [("name", JStr "tls"); ("protocol", JStr "HTTPS"); ("port", JInt 8443)]])]);
            ("status", JObj [
               ("listeners", JArr [JObj [("name", JStr "web"); ("attachedRoutes", JInt 2)];
                                   JObj [("name", JStr "tls"); ("attachedRoutes", JFloat "1")]]);
               ("addresses", JArr [JObj [("value", JStr "gw-a.ingress.svc.cluster.local")]])])].
Definition route_a : Object :=
  mkObject [("spec", JObj [("host", JStr "maas.example.com"); ("to", JObj [("name", JStr "gw-a")]); ("tls", JObj [])]);
            ("status", JObj [("ingress", JArr [JObj [("conditions", JArr [
               JObj [("type", JStr "Admitted"); ("status", JStr "True")]])]])])].
Definition policy_a : Object :=
  mkObject [("metadata", JObj [("name", JStr "devs"); ("namespace", JStr "ns-a")]);
            ("spec", JObj [
               ("modelRefs", JArr [JObj [("name", JStr "llama"); ("namespace", JStr "ns-a")]]);
               ("subjects", JObj [("users", JArr [JStr "alice"]);
                                  ("groups", JArr [JObj [("name", JStr "devs")]])])])].

(** The endpoint of the Gateway is that of its Route. *)
Lemma endpoint_is_real_witness :
  let routes := [route_a] in
  let m := GatewayMetadata.mkMetadata "team-a" "ingress" "https" "https://maas.example.com" 443 in
  GatewayMetadata.ExtractMetadata (Fields gateway_a) "team-a" "ingress" [GatewayMetadata.BuildRouteHostMap routes] = Ok m
  ∧ ∃ l host, GatewayMetadata.l_hostname l = "" ∧ host ≠ "" ∧
      GatewayMetadata.ExternalURL m = GatewayMetadata.external_url "https" host 443.
Proof.
  split; [vm_compute; reflexivity|].
  destruct (GatewayMetadata.endpoint_is_real (Fields gateway_a) "team-a" "ingress" [route_a]
    (GatewayMetadata.mkMetadata "team-a" "ingress" "https" "https://maas.example.com" 443)) as
    (_ & _ & spec & status & ls & sls & l & host & Hspec & Hstatus & Hls & Hsls & Hbest & _ & Hne & Hurl).
  { vm_compute. reflexivity. }
  exists l, host. split; [|split; [exact Hne|exact Hurl]].
  cbn in Hspec, Hstatus. injection Hspec as <-. injection Hstatus as <-. cbn in Hls, Hsls.
  injection Hls as <-. injection Hsls as <-. destruct Hbest as [Hb|[Hb _]]; vm_compute in Hb; [|discriminate].
  injection Hb as <-. reflexivity.
Defined.

Definition cluster : Stores :=
  mkStores [aitenant "team-a" "ns-a"; aitenant "team-b" "ns-b"] [gateway_a] [route_a] [policy_a].
Definition s0 : Sys := mkSys cluster NewInformerCache false false false 1 [ObjEvent policy_a] MListTenants EWait HReady.

Lemma s0_started : started s0.
Proof.
  split; [|repeat (split; [reflexivity|]); reflexivity]. split.
  - vm_compute. apply (bool_decide_eq_true_1 _). vm_compute. reflexivity.
  - intros o Ho. apply elem_of_cons in Ho as [->|Ho]; [by vm_compute|].
    apply elem_of_cons in Ho as [->|Ho]; [by vm_compute|by apply not_elem_of_nil in Ho].
Qed.

(** One run to rest. *)
Notation internal := (DiscoveryLoops.internal "ingress" true).
Ltac by_metadata t := eapply rtc_l; [left; t; reflexivity|fields].
Ltac by_entitlement t := eapply rtc_l; [right; left; t; reflexivity|fields].
Ltac by_handler t := eapply rtc_l; [right; right; t; reflexivity|fields].
Ltac list_and_publish :=
  by_metadata ltac:(eapply m_tenants); by_metadata ltac:(eapply m_gateways);
  by_metadata ltac:(eapply m_routes); by_metadata ltac:(eapply m_publish).
Ltac rebuild :=
  eapply rtc_l;
    [right; left; apply (e_take _ ["team-a"; "team-b"]);
     [reflexivity|vm_compute; discriminate|vm_compute; reflexivity]|fields];
  by_entitlement ltac:(eapply e_policies); by_entitlement ltac:(eapply e_tenants);
  by_entitlement ltac:(eapply e_apply); by_entitlement ltac:(eapply e_apply); by_entitlement ltac:(eapply e_done).

Definition idle (s : Sys) : Prop :=
  notices s = O ∧ rebuildCh s = false ∧ entitlementRebuildCh s = false ∧ events s = []
  ∧ handler s = HReady ∧ metadata s = MWait ∧ entitlement s = EWait.

Lemma idle_rests s s' : idle s → ¬ internal s s'.
Proof.
  intros (Hn & Hr & Hc & He & Hh & Hm & Hx) [Hstep|[Hstep|Hstep]]; destruct Hstep; congruence.
Qed.

(** Whom the state shows which tenants. *)
Definition shown (s : Sys) (username : string) (groups : list string) : list string :=
  map ti_Name (ListForSubjects (cache s) username groups).

Lemma run_to_rest : ∃ s, rtc internal s0 s ∧ idle s ∧ stores s = cluster ∧
  shown s "alice" [] = ["team-a"] ∧ shown s "bob" ["devs"] = ["team-a"] ∧ shown s "bob" ["others"] = [].
Proof.
  eexists. split.
  - unfold s0. list_and_publish. by_metadata ltac:(eapply m_start). rebuild. by_metadata ltac:(eapply m_started).
    by_handler ltac:(eapply h_notice). by_metadata ltac:(eapply m_receive). by_metadata ltac:(eapply m_timer).
    list_and_publish. by_handler ltac:(eapply h_resolve). by_handler ltac:(eapply h_mark).
    by_metadata ltac:(eapply m_mark). by_metadata ltac:(eapply m_trigger). by_handler ltac:(eapply h_trigger).
    by_entitlement ltac:(eapply e_receive). by_entitlement ltac:(eapply e_timer). rebuild. apply rtc_refl.
  - split; [repeat split|]. split; [reflexivity|]. repeat split; vm_compute; reflexivity.
Qed.

Lemma s0_reachable : reachable "ingress" true s0.
Proof. exists s0. split; [exact s0_started|apply rtc_refl]. Qed.

Lemma discovery_converges_witness :
  ∃ s, rtc internal s0 s ∧ (∀ s', ¬ internal s s') ∧ shown s "alice" [] = ["team-a"] ∧ shown s "bob" ["others"] = []
    ∧ Acc (flip internal) s0 ∧ synced s = true ∧ exact "ingress" true s.
Proof.
  destruct run_to_rest as (s & Hrun & Hidle & _ & Ha & _ & Hb).
  destruct (discovery_converges "ingress" true s0 s0_reachable) as [Hacc Hrest].
  exists s. split; [exact Hrun|]. split; [intros s'; by apply idle_rests|]. split; [exact Ha|]. split; [exact Hb|].
  split; [exact Hacc|]. apply Hrest; [exact Hrun|]. intros s'. by apply idle_rests.
Defined.

Lemma run_reachable s : rtc internal s0 s → reachable "ingress" true s.
Proof.
  intros Hrun. exists s0. split; [exact s0_started|].
  eapply (rtc_subrel internal); [intros x y H; by left|exact Hrun].
Qed.

Lemma subject_index_exact_witness :
  ∃ s, reachable "ingress" true s ∧ shown s "bob" ["devs"] = ["team-a"]
    ∧ no_empty (tenantsBySubject (cache s)) ∧ ListForSubjects (cache s) "bob" ["devs"] = scan (cache s) "bob" ["devs"].
Proof.
  destruct run_to_rest as (s & Hrun & _ & _ & _ & Hb & _). exists s.
  destruct (subject_index_exact "ingress" true s (run_reachable s Hrun)) as (_ & Hne & Hscan).
  split; [exact (run_reachable s Hrun)|]. split; [exact Hb|]. split; [exact Hne|apply Hscan].
Defined.

(** *** One caller *)

Definition carol : TokenStatus := {| Authenticated := true; tr_Username := "carol"; tr_Groups := ["devs"] |}.
Definition known_token (token : string) : Res string TokenStatus :=
  if String.eqb token "t0ken" then Ok carol else Err "unknown".
Definition any_user (r : Review) : Res string bool := Ok (String.eqb (rv_Verb r) "create").

Lemma discovery_fails_closed_witness :
  ∃ s infos, reachable "ingress" true s ∧
    DiscoveryHandler.get_tenants any_user known_token "tenants" (cache s) "Bearer t0ken" = Ok infos ∧
    ∃ token st, "Bearer t0ken" = bearer_prefix +:+ token ∧ known_token token = Ok st ∧ Authenticated st = true.
Proof.
  destruct run_to_rest as (s & Hrun & _). exists s.
  destruct (DiscoveryHandler.get_tenants any_user known_token "tenants" (cache s) "Bearer t0ken") as [infos|] eqn:E;
    [|discriminate E].
  exists infos. split; [exact (run_reachable s Hrun)|]. split; [reflexivity|].
  destruct (DiscoveryHandler.discovery_fails_closed any_user known_token "ingress" true s "tenants" "Bearer t0ken" infos
    (run_reachable s Hrun) E) as (token & st & Htok & Hst & Hauth & _).
  exists token, st. split; [exact Htok|]. split; [exact Hst|exact Hauth].
Defined.

(** The checker of the maas-api on the same policies. *)
Definition checker : AuthPolicy.Checker := {| AuthPolicy.lister := Some (Ok [policy_a]) |}.
Definition llama : ModelKey := mkModelKey "ns-a" "llama".

Lemma discovery_covers_authorization_witness :
  ∃ s a p, AuthPolicy.AuthorizedModels checker ["devs"] "carol" = Ok a ∧ a !! llama = Some true
    ∧ p ∈ policyStore (stores s) ∧ ∀ info, info ∈ List_ (cache s) →
        ti_Name info = tenant_at (buildNamespaceTenantMap (tenantStore (stores s))) (GetNamespace p) →
        info ∈ ListForSubjects (cache s) "carol" ["devs"].
Proof.
  destruct (AuthPolicy.AuthorizedModels checker ["devs"] "carol") as [a|] eqn:E; [|discriminate E].
  assert (Ha : a !! llama = Some true).
  { injection E as <-. vm_compute. reflexivity. }
  destruct run_to_rest as (s & Hrun & Hidle & Hstores & _).
  destruct (discovery_covers_authorization "ingress" true s checker "carol" ["devs"] a llama) as ((p & Hp & Hper) & Ht).
  - exact (run_reachable s Hrun).
  - intros s'. by apply idle_rests.
  - rewrite Hstores. reflexivity.
  - exact E.
  - exact Ha.
  - vm_compute. discriminate.
  - vm_compute. discriminate.
  - vm_compute. discriminate.
  - intros g Hg. apply list_elem_of_singleton in Hg as ->. vm_compute. discriminate.
  - exists s, a, p. split; [reflexivity|]. split; [exact Ha|]. split; [exact Hp|].
    destruct (Ht p Hp Hper) as [Hdel|Hshown]; [|exact Hshown]. rewrite Hstores in Hp. apply list_elem_of_singleton in Hp as ->. by destruct Hdel.
Defined.

(** A policy that is being deleted still authorizes at the maas-api, while
    discovery no longer shows its tenant. *)
Definition leaving : Object :=
  mkObject [("metadata", JObj [("name", JStr "devs"); ("namespace", JStr "ns-a");
                               ("deletionTimestamp", JStr "2026-01-01T00:00:00Z")]);
            ("spec", default (JObj []) (get "spec" (Fields policy_a)))].
Theorem deleting_policy_still_authorizes :
  ∃ a, AuthPolicy.AuthorizedModels {| AuthPolicy.lister := Some (Ok [leaving]) |} ["devs"] "carol" = Ok a
    ∧ a !! llama = Some true
    ∧ entitled (tenantStore cluster) [leaving] (makeCallerSubjects "carol" ["devs"]) "team-a" = false
    ∧ entitled (tenantStore cluster) [policy_a] (makeCallerSubjects "carol" ["devs"]) "team-a" = true.
Proof. eexists. split; [reflexivity|]. repeat split; vm_compute; reflexivity. Qed.

End DiscoveryDemo.
