(* ===== verification/SubscriptionHeaders.v ===== *)
(** * SubscriptionHeaders: the headers a subscription may set

    The annotation of a MaaSSubscription that configures [x-grid-] headers is
    read twice: by [maas-api/internal/subscription/subscription_headers.go],
    whose result a selection returns, and by
    [maas-controller/pkg/controller/maas/subscription_headers.go], which adds
    the names to the AuthPolicy of the Gateway.  [encoding/json]'s decoding of
    the annotation and the checks of [golang.org/x/net/http/httpguts] are
    parameters. *)

From S2P Require Import Prelude GoStrings Unstructured RateTier Kube GuardrailResolver JsonMatch GatewaySpec.
From Stdlib Require String.
Local Open Scope string_scope.

(** [json.Unmarshal] into a [map[string][]string]: [None] is the nil map of a
    JSON null, a value of [None] a nil slice. *)
Class HeaderCodec := {
  unmarshal_headers : string → Res string (option (gmap string (option (list string))));
  ValidHeaderFieldName : string → bool;
  ValidHeaderFieldValue : string → bool;
}.

Definition subscriptionHeadersAnnotation : string := "experimental.maas.opendatahub.io/headers".

(** ** [maas-api] *)

Module ApiHeaders.
Section Parser.
Context `{GR : GoRuntime} `{HC : HeaderCodec}.

Definition validSubscriptionHeaderName (name : string) : bool :=
  if negb (ValidHeaderFieldName name) then false else has_prefix "x-grid-" (to_lower name).
Definition validSubscriptionHeaderValue (value : string) : bool := ValidHeaderFieldValue value.

(** The body of the first loop. *)
Definition check_header (header : string * option (list string)) : Res string unit :=
  let '(name, values) := header in
  if negb (validSubscriptionHeaderName name) then Err ("invalid header name " +:+ GatewaySpec.Quote name) else
  match values with
  | None => Err ("null values for header " +:+ GatewaySpec.Quote name)
  | Some values =>
      if forallb validSubscriptionHeaderValue values then Ok tt
      else Err ("invalid value for header " +:+ GatewaySpec.Quote name)
  end.
(** The body of the second. *)
Definition normalize_header (normalized : gmap string (list string)) (header : string * option (list string))
    : Res string (gmap string (list string)) :=
  let lowerName := to_lower header.1 in
  match normalized !! lowerName with
  | Some _ => Err ("duplicate case-insensitive header name " +:+ GatewaySpec.Quote lowerName)
  | None => Ok (<[lowerName := default [] header.2]> normalized)
  end.

(** A nil map is not distinguished from an empty one. *)
Definition parseSubscriptionHeaders (value : string) : Res string (gmap string (list string)) :=
  if String.eqb value "" then Ok ∅ else
  headers <- unmarshal_headers value ;;
  match headers with
  | None => Err "subscription headers must be a JSON object"
  | Some headers =>
      _ <- fold_res (fun _ header => check_header header) tt (range_map headers) ;;
      fold_res normalize_header ∅ (range_map headers)
  end.

End Parser.
End ApiHeaders.

(** ** [maas-controller] *)

Module GatewayHeaders.
Import Kube GatewaySpec.

(** The accessors of [unstructured], with an error distinguished from an
    absent field, and the setters. *)
Class NestedFields := {
  NestedMapE : JMap → list string → Res string (option JMap);
  NestedSliceE : JMap → list string → Res string (option (list JVal));
  SetNestedMap : JMap → JMap → list string → Res string JMap;
  SetNestedSlice : JMap → list JVal → list string → Res string JMap;
}.

(** The documented behaviour: missing parents are made, a parent of another
    type is an error. *)
Fixpoint set_nested (m : JMap) (v : JVal) (path : list string) : Res string JMap :=
  match path with
  | [] => Err "accessor error: empty path"
  | [k] => Ok (put k v m)
  | k :: ks =>
      match get k m with
      | None => sub <- set_nested [] v ks ;; Ok (put k (JObj sub) m)
      | Some (JObj child) => sub <- set_nested child v ks ;; Ok (put k (JObj sub) m)
      | Some _ => Err "accessor error: not a map"
      end
  end.
Class NestedFieldsLaws `{NF : NestedFields} : Prop := {
  nested_map_documented m path : NestedMapE m path = GuardrailResolver.typed_field as_map m path;
  nested_slice_documented m path : NestedSliceE m path = GuardrailResolver.typed_field as_slice m path;
  set_map_documented m v path : SetNestedMap m v path = set_nested m (JObj v) path;
  set_slice_documented m v path : SetNestedSlice m v path = set_nested m (JArr v) path;
}.
Definition documented_fields : NestedFields := {|
  NestedMapE := GuardrailResolver.typed_field as_map;
  NestedSliceE := GuardrailResolver.typed_field as_slice;
  SetNestedMap m v path := set_nested m (JObj v) path;
  SetNestedSlice m v path := set_nested m (JArr v) path |}.
Lemma documented_fields_laws : NestedFieldsLaws (NF := documented_fields).
Proof. by split. Qed.

Definition headers_path : list string := ["defaults"; "rules"; "response"; "success"; "headers"].
Definition patterns_path : list string :=
  ["defaults"; "rules"; "authorization"; "deny-client-identity-headers"; "patternMatching"; "patterns"].

Definition managedSubscriptionHeaderName (name : string) : bool := has_prefix "x-grid-" (to_lower name).
Definition managedSubscriptionHeaderNames (names : list string) : gset string := list_to_set names.
(** The test of both loops over the headers of a policy. *)
Definition unmanaged_now (names : list string) (name : string) : bool :=
  let lowerName := to_lower name in
  managedSubscriptionHeaderName lowerName && negb (bool_decide (lowerName ∈ managedSubscriptionHeaderNames names)).

Definition subscriptionHeadersDenyPredicate (names : list string) : string :=
  match names with
  | [] => raw "request.headers.all(name, !name.startsWith(`x-grid-`))"
  | _ => raw "request.headers.all(name, !name.startsWith(`x-grid-`) || name in " +:+ marshal_strings names +:+ ")"
  end.

Definition subscriptionInfoHeadersExpr (name : string) : JVal :=
  let encodedName := Quote name in
  JObj [
    ("plain", JObj [
      ("expression", JStr (raw "has(auth.metadata) && `subscription-info` in auth.metadata && `headers` in auth.metadata[`subscription-info`] && "
         +:+ encodedName +:+ raw " in auth.metadata[`subscription-info`].headers ? auth.metadata[`subscription-info`].headers["
         +:+ encodedName +:+ raw "].join(`, `) : ``"))]);
    ("metrics", JBool false);
    ("priority", JInt 0)].

Section Headers.
Context `{GR : GoRuntime} `{HC : HeaderCodec} `{NF : NestedFields}.

Definition validSubscriptionHeaderName (name : string) : bool :=
  if negb (ValidHeaderFieldName name) then false else has_prefix "x-grid-" (to_lower name).
Definition validSubscriptionHeaderValue (value : string) : bool := ValidHeaderFieldValue value.
Definition check_header (header : string * option (list string)) : Res string unit :=
  let '(name, values) := header in
  if negb (validSubscriptionHeaderName name) then Err ("invalid header name " +:+ Quote name) else
  match values with
  | None => Err ("null values for header " +:+ Quote name)
  | Some values =>
      if forallb validSubscriptionHeaderValue values then Ok tt
      else Err ("invalid value for header " +:+ Quote name)
  end.
Definition normalize_header (normalized : gmap string (list string)) (header : string * option (list string))
    : Res string (gmap string (list string)) :=
  let lowerName := to_lower header.1 in
  match normalized !! lowerName with
  | Some _ => Err ("duplicate case-insensitive header name " +:+ Quote lowerName)
  | None => Ok (<[lowerName := default [] header.2]> normalized)
  end.
Definition parseSubscriptionHeaders (value : string) : Res string (gmap string (list string)) :=
  if String.eqb value "" then Ok ∅ else
  headers <- unmarshal_headers value ;;
  match headers with
  | None => Err "subscription headers must be a JSON object"
  | Some headers =>
      _ <- fold_res (fun _ header => check_header header) tt (range_map headers) ;;
      fold_res normalize_header ∅ (range_map headers)
  end.

(** ** The names the Gateway lets through *)

(** [has_recorder]: [r.Recorder != nil]. *)
Definition warnInvalidSubscriptionHeaders (has_recorder : bool) (parseErr : string) : Prog unit :=
  if has_recorder
  then call (Eventf "Warning" "InvalidSubscriptionHeaders" "SubscriptionHeaderNames"
               ("Ignoring invalid subscription headers annotation: " +:+ parseErr))
  else Ret tt.

Fixpoint collect_names (has_recorder : bool) (names : gset string) (subscriptions : list MaaSSubscription)
    : Prog (gset string) :=
  match subscriptions with
  | [] => Ret names
  | s :: subscriptions =>
      match parseSubscriptionHeaders (value (Annotations (meta s)) subscriptionHeadersAnnotation) with
      | Err e => _ ← warnInvalidSubscriptionHeaders has_recorder e; collect_names has_recorder names subscriptions
      | Ok headers =>
          collect_names has_recorder (names ∪ list_to_set (map (fun header => to_lower header.1) (range_map headers)))
            subscriptions
      end
  end.
Definition subscriptionHeaderNames (has_recorder : bool) (namespace : string) : Prog (Res GoErr (list string)) :=
  subscriptions <-! try ("list MaaSSubscriptions in " +:+ namespace +:+ " for header configuration")
                      (call (ListBy true KSubscription (InNamespace namespace))) ;;
  names ← collect_names has_recorder ∅ subscriptions;
  Ret (Ok (sort_strings (elements (names : gset string)))).

(** ** The policy with those names *)

Definition applySubscriptionHeaders (spec : JMap) (names : list string) : Res string JMap :=
  headers <- map_err (fun e => "read gateway response headers: " +:+ e) (NestedMapE spec headers_path) ;;
  match headers with
  | None => Err "gateway response headers are missing"
  | Some headers =>
      let kept := List.filter (fun header => negb (unmanaged_now names header.1)) headers in
      let headers := fold_left (fun m name => put name (subscriptionInfoHeadersExpr name) m) names kept in
      spec <- SetNestedMap spec headers headers_path ;;
      patterns <- map_err (fun e => "read gateway identity-header deny patterns: " +:+ e) (NestedSliceE spec patterns_path) ;;
      match patterns with
      | None => Err "gateway identity-header deny patterns are missing"
      | Some patterns =>
          SetNestedSlice spec (patterns ++ [JObj [("predicate", JStr (subscriptionHeadersDenyPredicate names))]])%list
            patterns_path
      end
  end.

Definition basePolicyHasStaleSubscriptionHeaderFields (current : option JMap) (names : list string) : bool :=
  match NestedMapE (default [] current) headers_path with
  | Ok (Some headers) => existsb (fun header => unmanaged_now names header.1) headers
  | _ => false
  end.

(** [basePolicyHasStaleGuardrailFields]. *)
Definition basePolicyHasStaleGuardrailFields (current : option JMap) : bool :=
  let stale_rule :=
    match NestedMapE (default [] current) ["defaults"; "rules"; "authorization"] with
    | Ok (Some authorization) => bool_decide (is_Some (get "guardrail-checks-known" authorization))
    | _ => false
    end in
  if stale_rule then true else
  match NestedMapE (default [] current) headers_path with
  | Ok (Some headers) => existsb (fun header => has_prefix "x-aigateway-guardrail-" (to_lower header.1)) headers
  | _ => false
  end.

End Headers.
End GatewayHeaders.
