(* ===== verification/AITenant.v ===== *)
(** * AITenant: names and ownership of a tenant

    [maas-controller/pkg/controller/maas/aitenant_controller.go]: what the
    AITenant controller calls the objects of a tenant, how it marks and
    recognises those it owns, and the Job that revokes a tenant's API keys. *)

From S2P Require Import Prelude GoStrings Sha256 Kube.
From Stdlib Require String.
Local Open Scope string_scope.

(** A double quote, which [%q] puts around a plain name. *)
Definition dquote : string := String "034" "".

Module AITenant.
Import Kube.

(** ** Constants *)

Definition aitenantFinalizer : string := "maas.opendatahub.io/aitenant-cleanup".
Definition tenantFinalizer : string := "maas.opendatahub.io/tenant-cleanup".
Definition legacyTenantFinalizer : string := "maas.opendatahub.io/tenant-finalizer".
Definition aitenantManagedLabel : string := "maas.opendatahub.io/managed-by-aitenant".
Definition aiGatewayTenantLabel : string := "ai-gateway.opendatahub.io/tenant".
Definition LabelTenantName : string := "maas.opendatahub.io/tenant-name".
Definition LabelTenantNamespace : string := "maas.opendatahub.io/tenant-namespace".
Definition LabelGatewayAccess : string := "maas.opendatahub.io/gateway-access".
Definition ComponentName : string := "modelsasservice".
Definition aitenantNameAnnotation : string := "maas.opendatahub.io/aitenant-name".
Definition aitenantNamespaceAnnotation : string := "maas.opendatahub.io/aitenant-namespace".
Definition aitenantCreatedAnnotation : string := "maas.opendatahub.io/created-by-aitenant".
Definition aitenantUIDAnnotation : string := "maas.opendatahub.io/aitenant-uid".
Definition legacyDeprecatedByAnnotation : string := "maas.opendatahub.io/deprecated-by".
Definition legacyMigratedToAnnotation : string := "maas.opendatahub.io/migrated-to".
Definition aitenantAPIKeysRevokedAnnotation : string := "maas.opendatahub.io/api-keys-revoked".
Definition aitenantAPIKeysRevokedCondition : string := "APIKeysRevoked".
Definition gatewayLabelsAnnotation : string := "maas.opendatahub.io/gateway-selector-labels".
Definition AITenantConditionReady : string := "Ready".
Definition DefaultAITenantName : string := "models-as-a-service".
Definition DefaultAITenantNamespace : string := "ai-tenants".
Definition MaasTenantConfigInstanceName : string := "default-tenant".
Definition TenantInstanceName : string := "default-tenant".
Definition aitenantAPIKeyCleanupServiceAccountName : string := "maas-api-cleanup".
Definition DNS1123LabelMaxLength : Z := 63.

(** ** Names *)

Definition resourceNameForTenant (baseName tenantID : string) : string :=
  if String.eqb tenantID "" then baseName else baseName +:+ "-" +:+ tenantID.
Definition MaaSAPIServiceName (tenantID : string) : string := resourceNameForTenant "maas-api" tenantID.
Definition MaaSAPIDeploymentName (tenantID : string) : string := resourceNameForTenant "maas-api" tenantID.

Definition TenantNamespaceForAITenant (name defaultTenantNamespace : string) : string :=
  if String.eqb name DefaultAITenantName
     || (negb (String.eqb defaultTenantNamespace "") && String.eqb name defaultTenantNamespace)
  then if negb (String.eqb defaultTenantNamespace "") then defaultTenantNamespace else DefaultAITenantName
  else "ai-tenant-" +:+ name.

(** [strings.Trim(s, "-.")] and [strings.TrimSuffix(s, "-")]. *)
Definition dash_or_dot (c : ascii) : bool := Ascii.eqb c "-" || Ascii.eqb c ".".
Fixpoint trim_left_set (p : ascii → bool) (s : string) : string :=
  match s with
  | EmptyString => EmptyString
  | String c r => if p c then trim_left_set p r else s
  end.
Definition trim_set (p : ascii → bool) (s : string) : string :=
  str_rev (trim_left_set p (str_rev (trim_left_set p s))).
Definition trim_suffix_dash (s : string) : string :=
  match str_rev s with String c r => if Ascii.eqb c "-" then str_rev r else s | EmptyString => s end.

Definition len (s : string) : Z := Z.of_nat (String.length s).

Definition aitenantBoundedName (prefix aitenantName suffix : string) (maxLength : Z) : string :=
  let name := prefix +:+ aitenantName +:+ suffix in
  if (len name <=? maxLength)%Z then name else
  let hash := str_take 8 (sha256_hex aitenantName) in
  let budget := (maxLength - len prefix - len suffix - len hash - 1)%Z in
  if (budget <? 1)%Z then
    let fallback := trim_suffix_dash prefix +:+ "-" +:+ hash +:+ suffix in
    if (len fallback <=? maxLength)%Z then fallback else trim_suffix_dash prefix +:+ "-" +:+ hash
  else
    let trimmed := trim_set dash_or_dot (str_take (Z.to_nat budget) aitenantName) in
    let trimmed := if String.eqb trimmed "" then hash else trimmed in
    prefix +:+ trimmed +:+ suffix +:+ "-" +:+ hash.

Definition aitenantChildName (aitenantName suffix : string) : string :=
  aitenantBoundedName "aitenant-" aitenantName ("-" +:+ suffix) DNS1123LabelMaxLength.
Definition tenantAdminRoleName (t : AITenant) : string := aitenantChildName (Name (meta t)) "tenant-admin".
Definition aitenantAccessRoleName (t : AITenant) : string := aitenantChildName (Name (meta t)) "object-admin".
Definition aitenantAPIKeyRevocationJobName (aitenantName : string) : string :=
  aitenantBoundedName "maas-api-revoke-keys-" aitenantName "" (DNS1123LabelMaxLength - 6).

(** ** Ownership *)

Definition ownedByAITenant (m : ObjectMeta) (t : AITenant) : bool :=
  String.eqb (value (Annotations m) aitenantNameAnnotation) (Name (meta t))
  && String.eqb (value (Annotations m) aitenantNamespaceAnnotation) (Namespace (meta t))
  && negb (bool_decide (Annotations m = ∅)).

Definition hasAITenantOwnerAnnotations (m : ObjectMeta) : bool :=
  negb (String.eqb (value (Annotations m) aitenantNameAnnotation) "")
  || negb (String.eqb (value (Annotations m) aitenantNamespaceAnnotation) "").

Definition isManaged (m : ObjectMeta) : bool :=
  match Annotations m !! "opendatahub.io/managed" with None => true | Some val => negb (String.eqb val "false") end.

Definition applyAITenantMetadata (t : AITenant) (tenantNamespace : string) (m : ObjectMeta) : ObjectMeta :=
  let labels :=
    <["app.kubernetes.io/managed-by" := "maas-controller"]>
    (<["app.kubernetes.io/part-of" := ComponentName]>
    (<[aitenantManagedLabel := "true"]>
    (<[aiGatewayTenantLabel := Name (meta t)]>
    (<[LabelTenantName := Name (meta t)]>
    (<[LabelTenantNamespace := tenantNamespace]>
    (<[LabelGatewayAccess := "true"]> (Labels m))))))) in
  let annotations :=
    <[aitenantNameAnnotation := Name (meta t)]>
    (<[aitenantNamespaceAnnotation := Namespace (meta t)]> (Annotations m)) in
  set_annotations annotations (set_labels labels m).

Definition removeMapValueIfEqual (key v : string) (m : gmap string string) : gmap string string :=
  if String.eqb (value m key) v then delete key m else m.

Definition removeAITenantMetadata (t : AITenant) (tenantNamespace : string) (m : ObjectMeta) : ObjectMeta :=
  let labels :=
    removeMapValueIfEqual LabelGatewayAccess "true"
    (removeMapValueIfEqual LabelTenantNamespace tenantNamespace
    (removeMapValueIfEqual LabelTenantName (Name (meta t))
    (removeMapValueIfEqual aiGatewayTenantLabel (Name (meta t))
    (removeMapValueIfEqual aitenantManagedLabel "true"
    (removeMapValueIfEqual "app.kubernetes.io/part-of" ComponentName
    (removeMapValueIfEqual "app.kubernetes.io/managed-by" "maas-controller" (Labels m))))))) in
  let annotations :=
    removeMapValueIfEqual aitenantCreatedAnnotation "true"
    (removeMapValueIfEqual aitenantNamespaceAnnotation (Namespace (meta t))
    (removeMapValueIfEqual aitenantNameAnnotation (Name (meta t)) (Annotations m))) in
  set_annotations annotations (set_labels labels m).

(** ** The revocation Job *)

(** [url.PathEscape]. *)
Definition path_char (c : ascii) : bool :=
  in_range 48 57 c || in_range 65 90 c || in_range 97 122 c
  || existsb (Ascii.eqb c) ["-"; "_"; "."; "~"; "$"; "&"; "+"; "="; ":"; "@"]%char.
Definition upper_hex (n : Z) : ascii :=
  ascii_of_N (Z.to_N (if (n <? 10)%Z then 48 + n else 55 + n)).
Fixpoint PathEscape (s : string) : string :=
  match s with
  | EmptyString => EmptyString
  | String c r =>
      if path_char c then String c (PathEscape r)
      else String "%" (String (upper_hex (Z.shiftr (byte_of c) 4))
             (String (upper_hex (Z.land (byte_of c) 15)) (PathEscape r)))
  end.

(** [net.JoinHostPort]. *)
Definition JoinHostPort (host port : string) : string :=
  if contains_char ":" host then "[" +:+ host +:+ "]:" +:+ port else host +:+ ":" +:+ port.

Definition revocation_endpoint (serviceName namespace tenantName subscription : string) : string :=
  let serviceHost := serviceName +:+ "." +:+ namespace +:+ ".svc" in
  if negb (String.eqb subscription "")
  then "https://" +:+ JoinHostPort serviceHost "8443" +:+ "/internal/v1/tenants/" +:+ tenantName
       +:+ "/subscriptions/" +:+ PathEscape subscription +:+ "/api-keys"
  else "https://" +:+ JoinHostPort serviceHost "8443" +:+ "/internal/v1/tenants/" +:+ tenantName +:+ "/api-keys".

Definition aitenantAPIKeyCleanupOpenShiftCAPath : string := "/etc/pki/maas-api/openshift/service-ca.crt".
Definition aitenantAPIKeyCleanupXKSCAPath : string := "/etc/pki/maas-api/xks/service-ca.crt".
Definition cleanupCommand (endpoint : string) : string :=
  let q := dquote in
  "if [ -s " +:+ aitenantAPIKeyCleanupOpenShiftCAPath +:+ " ]; then CA_BUNDLE="
  +:+ aitenantAPIKeyCleanupOpenShiftCAPath +:+ "; elif [ -s " +:+ aitenantAPIKeyCleanupXKSCAPath
  +:+ " ]; then CA_BUNDLE=" +:+ aitenantAPIKeyCleanupXKSCAPath
  +:+ "; else echo 'no MaaS API CA bundle found' >&2; exit 1; fi "
  +:+ "&& TOKEN=" +:+ q +:+ "$(cat /var/run/secrets/kubernetes.io/serviceaccount/token)" +:+ q +:+ " "
  +:+ "&& exec curl --fail --silent --show-error --max-time 30 "
  +:+ "--cacert " +:+ q +:+ "${CA_BUNDLE}" +:+ q +:+ " -H " +:+ q +:+ "Authorization: Bearer ${TOKEN}" +:+ q
  +:+ " -X DELETE " +:+ endpoint.

(** [relatedImage] is the environment's [RELATED_IMAGE_UBI_MINIMAL_IMAGE]; of
    the pod only the parts that vary or that the controller reads are kept. *)
Definition apiKeyRevocationJob (relatedImage jobName ownerName ownerNamespace ownerUID tenantName subscription
    tenantID namespace : string) : Job := {|
  meta :=
    set_annotations
      (<[aitenantNameAnnotation := ownerName]> (<[aitenantNamespaceAnnotation := ownerNamespace]>
      (<[aitenantUIDAnnotation := ownerUID]>
      {[ "maas.opendatahub.io/cleanup-scope" := if String.eqb subscription "" then "tenant" else "subscription" ]})))
    (set_labels
      (<["app" := "maas-api-cleanup"]> (<["app.kubernetes.io/component" := "api"]>
      (<["app.kubernetes.io/managed-by" := "maas-controller"]> (<["app.kubernetes.io/name" := "maas-api"]>
      (<["app.kubernetes.io/part-of" := "models-as-a-service"]> {[ LabelTenantName := tenantName ]})))))
    (new_meta namespace jobName));
  body := {|
    job_BackoffLimit := 2; job_ActiveDeadlineSeconds := 120; job_TTLSecondsAfterFinished := 300;
    job_ServiceAccountName := aitenantAPIKeyCleanupServiceAccountName;
    job_Image := if String.eqb relatedImage "" then "registry.redhat.io/ubi9/ubi-minimal:9.7" else relatedImage;
    job_Args := cleanupCommand (revocation_endpoint (MaaSAPIServiceName tenantID) namespace tenantName subscription);
    job_Conditions := [] |} |}.

Definition tenantIDForRevocation (t : AITenant) : string :=
  if String.eqb (Name (meta t)) DefaultAITenantName then "" else Name (meta t).

Definition tenantAPIKeyRevocationJob (relatedImage : string) (t : AITenant) (namespace : string) : Job :=
  apiKeyRevocationJob relatedImage (aitenantAPIKeyRevocationJobName (Name (meta t)))
    (Name (meta t)) (Namespace (meta t)) (UID (meta t)) (Name (meta t)) "" (tenantIDForRevocation t) namespace.

Definition apiKeyRevocationJobMatchesUID (job : Job) (uid : string) : bool :=
  negb (bool_decide (Annotations (meta job) = ∅))
  && String.eqb (value (Annotations (meta job)) aitenantUIDAnnotation) uid.
Definition tenantAPIKeyRevocationJobMatchesAITenant (job : Job) (t : AITenant) : bool :=
  apiKeyRevocationJobMatchesUID job (UID (meta t)).

Definition job_has (type : string) (job : Job) : bool :=
  existsb (λ c, String.eqb c.1 type && String.eqb c.2 ConditionTrue) (job_Conditions (body job)).
Definition jobComplete (job : Job) : bool := job_has "Complete" job.
Definition jobFailed (job : Job) : bool := job_has "Failed" job.

End AITenant.
