(* ===== verification/TenantLookup.v ===== *)
(** * TenantLookup: the tenant a namespace belongs to

    [maas-controller/pkg/controller/maas/helpers.go], [providers.go] and
    [maas-controller/pkg/platform/tenantreconcile/platform_context.go]: whether
    a namespace is a tenant's, the tenant configuration it holds, and the
    Gateway that configuration resolves to. *)

From S2P Require Import Prelude GoStrings Kube AITenant.
From Stdlib Require String.
Local Open Scope string_scope.

Module TenantLookup.
Import Kube AITenant.

(** What every controller that looks tenants up is configured with. *)
Class TenantScope := {
  DefaultTenantNamespace : string; TenantNamespaceDiscoveryEnabled : bool;
  FallbackGatewayName : string; FallbackGatewayNamespace : string;
}.

(** ** The identity of a tenant configuration *)

Definition managed_by_aitenant (m : ObjectMeta) : bool := String.eqb (value (Labels m) aitenantManagedLabel) "true".
Definition tenant_object (m : ObjectMeta) : string := Namespace m +:+ "/" +:+ Name m.
Definition missing_name (m : ObjectMeta) : GoErr :=
  plain ("tenant " +:+ tenant_object m +:+ " has " +:+ aitenantManagedLabel +:+ "=true but "
         +:+ LabelTenantName +:+ " is missing or empty").
Definition default_named (m : ObjectMeta) : string :=
  "tenant config " +:+ tenant_object m +:+ " has " +:+ LabelTenantName +:+ "="
  +:+ dquote +:+ DefaultAITenantName +:+ dquote +:+ " but ".

Definition TenantIdentifierFor (m : ObjectMeta) : Res GoErr string :=
  if managed_by_aitenant m then
    let tenantName := value (Labels m) LabelTenantName in
    if String.eqb tenantName "" then Err (missing_name m) else
    if String.eqb tenantName DefaultAITenantName then
      if negb (String.eqb (Name m) MaasTenantConfigInstanceName)
      then Err (plain (default_named m +:+ "is not the default tenant config resource "
                       +:+ dquote +:+ MaasTenantConfigInstanceName +:+ dquote)) else
      if String.eqb (value (Labels m) LabelTenantNamespace) ""
         || negb (String.eqb (value (Labels m) LabelTenantNamespace) (Namespace m))
      then Err (plain (default_named m +:+ LabelTenantNamespace +:+ " must match the tenant config namespace"))
      else Ok ""
    else Ok tenantName
  else Ok "".

(** [None] is a nil object. *)
Definition TenantNameFor (m : option ObjectMeta) : Res GoErr string :=
  match m with
  | Some m =>
      if managed_by_aitenant m then
        let tenantName := value (Labels m) LabelTenantName in
        if String.eqb tenantName "" then Err (missing_name m) else Ok tenantName
      else Ok "models-as-a-service"
  | None => Ok "models-as-a-service"
  end.

(** ** The configuration of a namespace *)

(** [tenantForNamespaceResult], of which exactly one field is set. *)
Inductive TenantForNamespace := FoundConfig (c : MaasTenantConfig) | FoundLegacy (t : Obj KLegacyTenant).
Definition found_meta (t : TenantForNamespace) : ObjectMeta :=
  match t with FoundConfig c => meta c | FoundLegacy t => meta t end.
Definition identifier (t : TenantForNamespace) : Res GoErr string := TenantIdentifierFor (found_meta t).
Definition tenant_name (t : TenantForNamespace) : Res GoErr string := TenantNameFor (Some (found_meta t)).

Definition fetchTenantForNamespace (namespace : string) : Prog (Res ApiErr TenantForNamespace) :=
  config ← call (Get true KTenantConfig (namespace, MaasTenantConfigInstanceName));
  match config with
  | Ok c => Ret (Ok (FoundConfig c))
  | Err e =>
      if negb (isNotFound e) then Ret (Err e) else
      legacy ← call (Get true KLegacyTenant (namespace, TenantInstanceName));
      Ret (res_map FoundLegacy legacy)
  end.

(** ** Its platform context *)

Record PlatformContext := {
  pc_GatewayRef : TenantGatewayRef; pc_ExternalOIDC : option TenantExternalOIDCConfig; pc_SkipIPP : bool; pc_Source : string;
}.
Definition no_gateway : TenantGatewayRef := {| gr_Namespace := ""; gr_Name := "" |}.
Definition incomplete (r : TenantGatewayRef) : bool :=
  String.eqb (gr_Name r) "" || String.eqb (gr_Namespace r) "".

Definition AnnotationPayloadProcessingType : string := "maas.opendatahub.io/payload-processing-type".
Definition resolveSkipIPP (m : ObjectMeta) : bool :=
  negb (String.eqb (value (Annotations m) AnnotationPayloadProcessingType) "ipp").

Definition config_missing (m : ObjectMeta) (key : string) : GoErr :=
  plain ("AITenant-managed tenant config " +:+ tenant_object m +:+ " is missing " +:+ key).

Definition resolveAITenantPlatformContext (m : ObjectMeta) : Prog (Res GoErr PlatformContext) :=
  if String.eqb (value (Labels m) LabelTenantName) "" then Ret (Err (config_missing m LabelTenantName)) else
  let aitenantName := value (Annotations m) aitenantNameAnnotation in
  if String.eqb aitenantName "" then Ret (Err (config_missing m aitenantNameAnnotation)) else
  let aitenantNamespace := value (Annotations m) aitenantNamespaceAnnotation in
  if String.eqb aitenantNamespace "" then Ret (Err (config_missing m aitenantNamespaceAnnotation)) else
  aitenant <-! try ("get owning AITenant " +:+ aitenantNamespace +:+ "/" +:+ aitenantName
                    +:+ " for tenant config " +:+ tenant_object m)
                 (call (Get true KAITenant (aitenantNamespace, aitenantName))) ;;
  let ref := GatewayRef (Status (body aitenant)) in
  if incomplete ref
  then Ret (Err (plain ("AITenant " +:+ tenant_object (meta aitenant) +:+ " status.gatewayRef is not ready"))) else
  Ret (Ok {| pc_GatewayRef := ref; pc_ExternalOIDC := sp_OIDC (Spec (body aitenant));
             pc_SkipIPP := resolveSkipIPP m; pc_Source := "aitenant" |}).

Definition ResolvePlatformContext (tenant : option TenantForNamespace) (fallbackGatewayRef : TenantGatewayRef)
    : Prog (Res GoErr PlatformContext) :=
  let from ref oidc source :=
    Ret (Ok {| pc_GatewayRef := ref; pc_ExternalOIDC := oidc; pc_SkipIPP := false; pc_Source := source |}) in
  match tenant with
  | None => from fallbackGatewayRef None "default"
  | Some t =>
      if managed_by_aitenant (found_meta t) then resolveAITenantPlatformContext (found_meta t) else
      match t with
      | FoundLegacy legacy =>
          let ref := lt_GatewayRef (body legacy) in
          if String.eqb (gr_Name ref) "" && String.eqb (gr_Namespace ref) ""
          then from fallbackGatewayRef (lt_ExternalOIDC (body legacy)) "legacy-tenant-spec"
          else if incomplete ref
          then Ret (Err (plain ("tenant " +:+ tenant_object (meta legacy)
                                +:+ " spec.gatewayRef must set both name and namespace")))
          else from ref (lt_ExternalOIDC (body legacy)) "legacy-tenant-spec"
      | FoundConfig _ => from fallbackGatewayRef None "tenant-config"
      end
  end.

Definition fallbackTenantGatewayRef (name namespace : string) : TenantGatewayRef :=
  if String.eqb name "" || String.eqb namespace "" then no_gateway
  else {| gr_Namespace := namespace; gr_Name := name |}.

(** ** Tenant namespaces *)

Definition namespaceHasTenantDiscoveryLabel (labels : gmap string string) : bool :=
  negb (String.eqb (value labels aiGatewayTenantLabel) "") || String.eqb (value labels aitenantManagedLabel) "true".

Section Scope.
Context `{TS : TenantScope}.

Definition tenantNamespaceAllowed (ns : string) : Prog (Res GoErr bool) :=
  if String.eqb DefaultTenantNamespace "" || String.eqb ns DefaultTenantNamespace then Ret (Ok true) else
  if negb TenantNamespaceDiscoveryEnabled then Ret (Ok false) else
  namespace ← call (Get true KNamespace ("", ns));
  Ret (match namespace with
       | Ok n => Ok (namespaceHasTenantDiscoveryLabel (Labels (meta n)))
       | Err e => if isNotFound e then Ok false
                  else Err (wrap ("failed to read namespace " +:+ ns +:+ " for tenant discovery") e)
       end).

Definition isTenantNamespace (ns : string) : Prog bool :=
  ok ← tenantNamespaceAllowed ns;
  Ret (match ok with Ok b => b | Err _ => false end).

(** [filterSubscriptionsByTenantNamespace] and [filterAuthPoliciesByTenantNamespace]:
    each namespace is looked up once. *)
Fixpoint filter_tenants {B} (allowed : gmap string bool) (l : list (Object B)) : Prog (list (Object B)) :=
  match l with
  | [] => Ret []
  | o :: rest =>
      let ns := Namespace (meta o) in
      ok ← match allowed !! ns with Some ok => Ret ok | None => isTenantNamespace ns end;
      kept ← filter_tenants (<[ns := ok]> allowed) rest;
      Ret (if (ok : bool) then o :: kept else kept)
  end.
Definition filterSubscriptionsByTenantNamespace (l : list MaaSSubscription) : Prog (list MaaSSubscription) :=
  filter_tenants ∅ l.

Definition fallback_gateway : TenantGatewayRef := fallbackTenantGatewayRef FallbackGatewayName FallbackGatewayNamespace.

Definition tenantGatewayRefForNamespace (tenantNamespace : string) : Prog (Res GoErr TenantGatewayRef) :=
  tenant ← fetchTenantForNamespace tenantNamespace;
  match tenant with
  | Ok t => ctx <-! ResolvePlatformContext (Some t) fallback_gateway ;; Ret (Ok (pc_GatewayRef ctx))
  | Err e =>
      if negb (isNotFound e) then Ret (Err (of_api e)) else
      if String.eqb tenantNamespace DefaultTenantNamespace || negb TenantNamespaceDiscoveryEnabled
      then Ret (Ok fallback_gateway) else
      allowed <-! tenantNamespaceAllowed tenantNamespace ;;
      if negb allowed then Ret (Ok fallback_gateway) else
      Ret (Err {| etext := "discovered tenant namespace missing MaasTenantConfig: MaasTenantConfig " +:+ tenantNamespace
                           +:+ "/" +:+ MaasTenantConfigInstanceName +:+ " not found for discovered tenant namespace";
                  cause := Wraps ErrDiscoveredTenantConfigNotFound |})
  end.

End Scope.
End TenantLookup.
