(* ===== verification/GuardrailCatalog.v ===== *)
(** * GuardrailCatalog: the checks a tenant's Gateway may enforce

    [maas-controller/pkg/controller/maas/guardrail_headers.go]: the AIGuardrail
    checks that some subscription of a tenant selects for some model, composed
    as [maas-api] composes them at selection ([Guardrail]), and the header each
    is enforced under.  The attachment resolver, the identifiers and the header
    names belong to ai-gateway-controller and are parameters; the policy reader
    handed to that resolver is modelled here. *)

From S2P Require Import Prelude GoStrings Guardrail GuardrailResolver RateTier Kube GatewaySpec AITenant TenantLookup.
From Stdlib Require String.
Local Open Scope string_scope.

Module GuardrailCatalog.
Import Kube AITenant TenantLookup GatewaySpec.
Notation Attachment := GuardrailResolver.Attachment.
Notation Policy := GuardrailResolver.Policy.
Notation PolicyErr := GuardrailResolver.PolicyErr.

#[export] Instance attachment_eq_dec : EqDecision Attachment. Proof. solve_decision. Defined.

(** The API of ai-gateway-controller; [compose_error_text] is the text of an
    error of the composition, which is only shown. *)
Class GuardrailAPI := {
  AttachmentResolver : (string → string → Prog (Res PolicyErr Policy)) → string → Attachment →
                       Prog (Res string Guardrail.ResolvedPolicy);
  CheckID : string → string → string → string;
  CheckHeaderName : string → string → string → string;
  GuardrailPhaseInput : string;
  GuardrailPhaseOutput : string;
  ConditionAccepted : string;
  compose_error_text : Guardrail.ComposeErr → string;
}.
(** The resolver reads policies, and nothing else, through its reader. *)
Class GuardrailAPILaws `{GA : GuardrailAPI} : Prop := {
  resolver_reads reader ns a : (∀ ns name, only_reads (reader ns name)) → only_reads (AttachmentResolver reader ns a);
}.

(** ** When an AIGuardrail matters *)

Record guardrailResolutionState := {
  bindingRevision : string; acceptedFound : bool; acceptedStatus : string; acceptedGeneration : Z;
}.
#[export] Instance resolution_state_eq_dec : EqDecision guardrailResolutionState. Proof. solve_decision. Defined.

Section Catalog.
Context `{GR : GoRuntime} `{TS : TenantScope} `{GA : GuardrailAPI}.

Definition guardrailResolutionStateFor (policy : Obj KAIGuardrail) : guardrailResolutionState :=
  match List.find (λ c, String.eqb (c_Type c) ConditionAccepted) (gd_Conditions (body policy)) with
  | Some c => {| bindingRevision := gd_BindingRevision (body policy); acceptedFound := true;
                 acceptedStatus := c_Status c; acceptedGeneration := c_ObservedGeneration c |}
  | None => {| bindingRevision := gd_BindingRevision (body policy); acceptedFound := false;
               acceptedStatus := ""; acceptedGeneration := 0 |}
  end.
(** [aiGatewayResolutionChangedPredicate.Update] on two AIGuardrails. *)
Definition resolution_changed (old new : Obj KAIGuardrail) : bool :=
  if negb (Generation (meta old) =? Generation (meta new))%Z then true
  else negb (bool_decide (guardrailResolutionStateFor old = guardrailResolutionStateFor new)).

(** ** Inputs of the composition *)

Definition guardrailAttachments (attachments : list GuardrailAttachment) : list Attachment :=
  map (λ a, {| GuardrailResolver.att_Name := RateTier.at_Name a; GuardrailResolver.att_Checks := RateTier.at_Checks a |}) attachments.
Definition subscriptionModelEntries (entries : list RateTier.ModelSubscriptionRef) : list (Guardrail.ModelEntrySelection (Attachment := Attachment)) :=
  map (λ e, {| Guardrail.e_Namespace := RateTier.mr_Namespace e; Guardrail.e_Name := RateTier.mr_Name e;
               Guardrail.e_Guardrails := guardrailAttachments (RateTier.mr_Guardrails e) |}) entries.
(** [resourceRef] with the attachments of the object. *)
Definition resource_selection (m : ObjectMeta) (attachments : list GuardrailAttachment) : Guardrail.Selection := {|
  Guardrail.s_Namespace := Namespace m; Guardrail.s_Name := Name m; Guardrail.s_UID := UID m;
  Guardrail.s_Guardrails := guardrailAttachments attachments |}.

(** [clientPolicyReader.GetPolicy]. *)
Fixpoint policy_checks (index : nat) (checks : list (string * list string)) : list Guardrail.Check :=
  match checks with
  | [] => []
  | (name, phases) :: checks =>
      {| Guardrail.chk_Name := name; Guardrail.SpecIndex := Z.of_nat index; Guardrail.Phases := phases |}
        :: policy_checks (S index) checks
  end.
Definition GetPolicy (namespace name : string) : Prog (Res PolicyErr Policy) :=
  policy ← call (Get true KAIGuardrail (namespace, name));
  Ret (match policy with
       | Err e => if isNotFound e then Err GuardrailResolver.ErrPolicyNotFound
                  else Err (GuardrailResolver.ErrReadFailure (ae_Text e))
       | Ok p => Ok {|
           GuardrailResolver.pol_Namespace := Namespace (meta p); GuardrailResolver.pol_Name := Name (meta p);
           GuardrailResolver.pol_UID := UID (meta p); GuardrailResolver.pol_Generation := Generation (meta p);
           GuardrailResolver.pol_BindingRevision := gd_BindingRevision (body p);
           GuardrailResolver.Conditions := map (λ c, {|
             GuardrailResolver.pc_Type := c_Type c; GuardrailResolver.pc_Status := String.eqb (c_Status c) "True";
             GuardrailResolver.ObservedGeneration := c_ObservedGeneration c |}) (gd_Conditions (body p));
           GuardrailResolver.pol_Checks := policy_checks 0 (gd_Checks (body p)) |}
       end).
Definition resolve (namespace : string) (a : Attachment) : Prog (Res string Guardrail.ResolvedPolicy) :=
  AttachmentResolver GetPolicy namespace a.

(** ** One subscription and one model

    The composition is a pure function of what its resolver answers: the
    attachments are resolved in its order, up to the first failure, and it
    looks the answers up. *)
Notation Answers := (list ((string * Attachment) * Res string Guardrail.ResolvedPolicy)).
Fixpoint resolve_all (known : Answers) (wanted : list (string * Attachment)) : Prog Answers :=
  match wanted with
  | [] => Ret known
  | (ns, a) :: wanted =>
      if bool_decide ((ns, a) ∈ map fst known) then resolve_all known wanted else
      answer ← resolve ns a;
      match answer with
      | Err _ => Ret (((ns, a), answer) :: known)
      | Ok _ => resolve_all (((ns, a), answer) :: known) wanted
      end
  end.
Definition answer_of (answers : Answers) (ns : string) (a : Attachment) : Res string Guardrail.ResolvedPolicy :=
  match List.find (λ entry, bool_decide (entry.1 = (ns, a))) answers with
  | Some entry => entry.2
  | None => Err "attachment not resolved"
  end.

Definition wanted_attachments (targetNamespace : string) (tenant : AITenant) (config : MaasTenantConfig)
    (sub : MaaSSubscription) (entry : RateTier.ModelSubscriptionRef) (model : MaaSModelRef) : list (string * Attachment) :=
  let at_ ns l := map (pair ns) (guardrailAttachments l) in
  (at_ targetNamespace (sp_Guardrails (Spec (body tenant))) ++ at_ targetNamespace (tc_Guardrails (body config))
   ++ at_ targetNamespace (ss_Guardrails (ss_Spec (body sub))) ++ at_ targetNamespace (RateTier.mr_Guardrails entry)
   ++ at_ (Namespace (meta model)) (mo_Guardrails (body model)))%list.

Definition compose (answers : Answers) (tenantNamespace : string) (tenant : AITenant) (config : MaasTenantConfig)
    (sub : MaaSSubscription) (model : MaaSModelRef) : Res Guardrail.ComposeErr Guardrail.ExecutionPlan :=
  (Guardrail.ComposeSubscriptionModelPlan GuardrailPhaseInput GuardrailPhaseOutput (answer_of answers) true tenantNamespace
     (Some (resource_selection (meta tenant) (sp_Guardrails (Spec (body tenant)))))
     (Some (resource_selection (meta config) (tc_Guardrails (body config))))
     (Some {| Guardrail.sub_ref := resource_selection (meta sub) (ss_Guardrails (ss_Spec (body sub)));
              Guardrail.sub_ModelRefs := subscriptionModelEntries (ss_ModelRefs (ss_Spec (body sub))) |})
     (Some (resource_selection (meta model) (mo_Guardrails (body model))))
     (Namespace (meta model)) (Name (meta model))).2.

Definition header_of (selected : Guardrail.SelectedCheck) : guardrailHeader :=
  let policy := Guardrail.sc_Policy selected in
  let check := Guardrail.chk_Name (Guardrail.sc_Check selected) in
  {| gh_ID := CheckID (Guardrail.id_Namespace policy) (Guardrail.id_Name policy) check;
     gh_Name := CheckHeaderName (Guardrail.id_Namespace policy) (Guardrail.id_Name policy) check |}.
Definition add_checks (plan : Guardrail.ExecutionPlan) (headers : gmap string guardrailHeader) : gmap string guardrailHeader :=
  fold_left (λ headers selected, <[gh_ID (header_of selected) := header_of selected]> headers) (Guardrail.Checks plan) headers.

Definition add_model (tenantNamespace : string) (tenant : AITenant) (config : MaasTenantConfig) (sub : MaaSSubscription)
    (headers : gmap string guardrailHeader) (entry : RateTier.ModelSubscriptionRef) : Prog (Res GoErr (gmap string guardrailHeader)) :=
  let name := RateTier.mr_Namespace entry +:+ "/" +:+ RateTier.mr_Name entry in
  m ← call (Get true KModelRef (RateTier.mr_Namespace entry, RateTier.mr_Name entry));
  match m with
  | Err e => Ret (if isNotFound e then Ok headers else Err (wrap ("get MaaSModelRef " +:+ name) e))
  | Ok model =>
      if negb (String.eqb (ResolvedTenantRef (mo_Status (body model))) (Name (meta tenant))) then Ret (Ok headers) else
      answers ← resolve_all [] (wanted_attachments tenantNamespace tenant config sub entry model);
      Ret (match compose answers tenantNamespace tenant config sub model with
           | Ok plan => Ok (add_checks plan headers)
           | Err e => Err (plain ("compose guardrails for subscription " +:+ tenant_object (meta sub) +:+ " and model "
                                  +:+ tenant_object (meta model) +:+ ": " +:+ compose_error_text e))
           end)
  end.

(** ** The catalogue *)

Fixpoint fold_ok {A S} (f : S → A → Prog (Res GoErr S)) (s : S) (l : list A) : Prog (Res GoErr S) :=
  match l with
  | [] => Ret (Ok s)
  | a :: l => s' <-! f s a ;; fold_ok f s' l
  end.
Definition add_subscription (tenantNamespace : string) (tenant : AITenant) (config : MaasTenantConfig)
    (headers : gmap string guardrailHeader) (sub : MaaSSubscription) : Prog (Res GoErr (gmap string guardrailHeader)) :=
  fold_ok (add_model tenantNamespace tenant config sub) headers (ss_ModelRefs (ss_Spec (body sub))).

Definition isDefaultTenantNamespace (namespace : string) : bool :=
  String.eqb namespace (if String.eqb DefaultTenantNamespace "" then DefaultAITenantName else DefaultTenantNamespace).
Definition isAITenantManagedNamespace (namespace : string) : Prog (Res GoErr bool) :=
  ns <-! try ("get namespace " +:+ namespace +:+ " while resolving missing MaasTenantConfig")
           (call (Get true KNamespace ("", namespace))) ;;
  Ret (Ok (managed_by_aitenant (meta ns))).

Definition owningAITenant (config : MaasTenantConfig) : Prog (Res GoErr AITenant) :=
  let name := value (Annotations (meta config)) aitenantNameAnnotation in
  let namespace := value (Annotations (meta config)) aitenantNamespaceAnnotation in
  let get_owner (name namespace : string) : Prog (Res GoErr AITenant) :=
    tenant <-! try ("get owning AITenant " +:+ namespace +:+ "/" +:+ name) (call (Get true KAITenant (namespace, name))) ;;
    if negb (String.eqb (TenantNamespace (Status (body tenant))) (Namespace (meta config)))
    then Ret (Err (plain ("AITenant " +:+ tenant_object (meta tenant) +:+ " target namespace "
                          +:+ Quote (TenantNamespace (Status (body tenant))) +:+ " does not match MaaSTenantConfig namespace "
                          +:+ Quote (Namespace (meta config)))))
    else Ret (Ok tenant) in
  if String.eqb name "" && String.eqb namespace "" then
    if negb (isDefaultTenantNamespace (Namespace (meta config)))
    then Ret (Err (plain ("MaasTenantConfig " +:+ tenant_object (meta config) +:+ " is missing owning AITenant annotations")))
    else get_owner DefaultAITenantName DefaultAITenantNamespace
  else if String.eqb name "" || String.eqb namespace ""
  then Ret (Err (plain ("MaasTenantConfig " +:+ tenant_object (meta config) +:+ " has incomplete owning AITenant annotations")))
  else get_owner name namespace.

(** [None] is nil: the tenant has no catalogue. *)
Definition guardrailHeaders (tenantNamespace : string) : Prog (Res GoErr (option (list guardrailHeader))) :=
  config ← call (Get true KTenantConfig (tenantNamespace, MaasTenantConfigInstanceName));
  let shown := tenantNamespace +:+ "/" +:+ MaasTenantConfigInstanceName in
  match config with
  | Err e =>
      if negb (isNotFound e) then Ret (Err (wrap ("get MaaSTenantConfig " +:+ shown) e)) else
      managed <-! isAITenantManagedNamespace tenantNamespace ;;
      Ret (if managed then Err (plain ("MaasTenantConfig " +:+ shown +:+ " is missing from AITenant-managed namespace"))
           else Ok None)
  | Ok config =>
      if negb (managed_by_aitenant (meta config)) then Ret (Ok None) else
      tenant <-! owningAITenant config ;;
      subscriptions <-! try ("list MaaSSubscriptions in " +:+ tenantNamespace)
                          (call (ListBy true KSubscription (InNamespace tenantNamespace))) ;;
      headers <-! fold_ok (add_subscription tenantNamespace tenant config) ∅ subscriptions ;;
      Ret (Ok (Some (sort_slice (on_key gh_ID str_ltb) (map snd (range_map headers)))))
  end.

End Catalog.
End GuardrailCatalog.
