(* ===== verification/ModelRoutes.v ===== *)
(** * ModelRoutes: the HTTPRoute of a model

    [maas-controller/pkg/controller/maas/providers.go], the route resolvers of
    [providers_llmisvc.go] and [providers_external.go], the checks of an
    HTTPRoute against a Gateway in [helpers.go] and
    [maas-controller/pkg/modelnaming]: from a MaaSModelRef to the route its
    policies are attached to. *)

From S2P Require Import Prelude GoStrings Sha256 RateTier Kube AITenant TenantLookup.
From Stdlib Require String.
Local Open Scope string_scope.

Module ModelRoutes.
Import Kube AITenant TenantLookup.

(** ** Parents of a route *)

Definition maxHTTPRouteParentRefs : nat := 32.
Definition GroupName : string := "gateway.networking.k8s.io".
Definition parentRefTargetsGateway (parentRef : ParentReference) : bool :=
  String.eqb (default "Gateway" (pr_Kind parentRef)) "Gateway"
  && String.eqb (default GroupName (pr_Group parentRef)) GroupName.

(** [types.NamespacedName], the namespace first. *)
Definition routeParentGateway (route : HTTPRoute) (ref : ParentReference) : Key :=
  (default (Namespace (meta route)) (pr_Namespace ref), pr_Name ref).

(** The gateways that report the route accepted. *)
Definition acceptedRouteParents (route : HTTPRoute) : gset Key :=
  list_to_set (map (λ p, routeParentGateway route (ParentRef p))
    (List.filter (λ p, existsb (λ c, String.eqb (c_Type c) "Accepted" && String.eqb (c_Status c) ConditionTrue)
                         (parent_Conditions p)) (Parents (body route)))).

(** ** The route of an ExternalModel *)

Definition kubernetesNameMaxLength : Z := 253.
Definition externalModelResourcePrefix : string := "maas-".
Definition ExternalModelResourceName (modelName : string) : string :=
  let name := externalModelResourcePrefix +:+ modelName in
  if (len name <=? kubernetesNameMaxLength)%Z then name else
  let hash := str_take 8 (sha256_hex modelName) in
  let budget := (kubernetesNameMaxLength - len externalModelResourcePrefix - len hash - 1)%Z in
  let trimmed := trim_set dash_or_dot (str_take (Z.to_nat budget) modelName) in
  let trimmed := if String.eqb trimmed "" then hash else trimmed in
  externalModelResourcePrefix +:+ trimmed +:+ "-" +:+ hash.

Definition ippExternalModelRouteName (em : Obj KExternalModel) : string := em_HTTPRouteName (body em).

Definition model_at (m : MaaSModelRef) : Key := (Namespace (meta m), ModelName (body m)).
Definition shown (k : Key) : string := k.1 +:+ "/" +:+ k.2.

Section Routes.
Context `{SC : StatusConditions}.

(** [None] without per-gateway status; a gateway that is not ready has the
    empty route name. *)
Definition externalModelGatewayRoutes (em : Obj KExternalModel) : option (gmap Key Key) :=
  match em_Gateways (body em) with
  | [] => None
  | gateways =>
      Some (fold_left (λ routes g,
        let route := match ga_HTTPRouteRef g with
                     | Some (name, namespace) => if condition_true (ga_Conditions g) "Ready" then (namespace, name) else ("", "")
                     | None => ("", "")
                     end in
        <[(ga_Namespace g, ga_Name g) := route]> routes) gateways ∅)
  end.

Definition route_pending (text : string) : GoErr :=
  {| etext := "HTTPRoute not found yet: " +:+ text; cause := Wraps ErrHTTPRouteNotFound |}.

(** [externalModelRouteResolver.HTTPRouteForModel]: the namespace and the name
    of the route. *)
Definition external_route (model : MaaSModelRef) : Prog (Res GoErr Key) :=
  let ns := Namespace (meta model) in
  em ← call (Get true KExternalModel (model_at model));
  Ret (match em with
       | Ok em =>
           match externalModelGatewayRoutes em with
           | Some routes =>
               let gateway := (HTTPRouteGatewayNamespace (mo_Status (body model)), HTTPRouteGatewayName (mo_Status (body model))) in
               let route := default ("", "") (routes !! gateway) in
               if negb (String.eqb route.2 "") then Ok route else
               Err (route_pending ("inference ExternalModel " +:+ shown (model_at model)
                      +:+ " has no ready route selected for MaaSModelRef " +:+ Name (meta model)))
           | None =>
               if negb (String.eqb (ippExternalModelRouteName em) "") then Ok (ns, ippExternalModelRouteName em) else
               Err (route_pending ("inference ExternalModel " +:+ shown (model_at model)
                      +:+ " status.httpRouteName not set yet"))
           end
       | Err e =>
           if negb (isNotFound e) && negb (isNoMatch e)
           then Err (wrap ("failed to get inference ExternalModel " +:+ shown (model_at model)) e)
           else Ok (ns, ExternalModelResourceName (ModelName (body model)))
       end).

(** [llmisvcRouteResolver.HTTPRouteForModel]: the first route KServe labels
    with the service's name. *)
Definition llmisvc_route (model : MaaSModelRef) : Prog (Res GoErr Key) :=
  let ns := Namespace (meta model) in
  let labels := <["app.kubernetes.io/name" := ModelName (body model)]>
                (<["app.kubernetes.io/component" := "llminferenceservice-router"]>
                 {[ "app.kubernetes.io/part-of" := "llminferenceservice" ]}) in
  routes <-! try ("failed to list HTTPRoutes for LLMInferenceService " +:+ ModelName (body model))
               (call (ListAll KHTTPRoute ns labels)) ;;
  Ret (match routes with
       | [] => Err (route_pending ("for LLMInferenceService " +:+ ModelName (body model) +:+ " in namespace " +:+ ns))
       | route :: _ => Ok (key_of route)
       end).

Definition GetRouteResolver (kind : string) : option (MaaSModelRef → Prog (Res GoErr Key)) :=
  if String.eqb kind "LLMInferenceService" || String.eqb kind "llmisvc" then Some llmisvc_route
  else if String.eqb kind "ExternalModel" then Some external_route else None.

Definition getHTTPRoute (key : Key) : Prog (Res GoErr HTTPRoute) :=
  route ← call (Get true KHTTPRoute key);
  Ret (map_err (λ e, if isNotFound e then route_pending ("HTTPRoute " +:+ shown key)
                     else wrap ("failed to get HTTPRoute " +:+ shown key) e) route).

Definition model_missing (text : string) : GoErr :=
  {| etext := "MaaSModelRef not found: " +:+ text; cause := Wraps ErrModelNotFound |}.

(** [findHTTPRouteForModel]: the namespace and the name of a route that exists. *)
Definition findHTTPRouteForModel (model : Key) : Prog (Res GoErr Key) :=
  m ← call (Get true KModelRef model);
  match m with
  | Err e => Ret (Err (if isNotFound e then model_missing (shown model)
                       else wrap ("failed to get MaaSModelRef " +:+ shown model) e))
  | Ok m =>
      if negb (bool_decide (DeletionTimestamp (meta m) = None))
      then Ret (Err (model_missing (shown model +:+ " (deleting)"))) else
      match GetRouteResolver (ModelKind (body m)) with
      | None => Ret (Err (plain ("unknown model kind: " +:+ ModelKind (body m))))
      | Some resolver =>
          route <-! resolver m ;;
          _ <-! getHTTPRoute route ;;
          Ret (Ok route)
      end
  end.

(** ** Routes and Gateways *)

Definition references_gateway (routeNamespace : string) (gatewayRef : TenantGatewayRef) (refs : list ParentReference) : bool :=
  existsb (λ p, parentRefTargetsGateway p && String.eqb (pr_Name p) (gr_Name gatewayRef)
                && String.eqb (default routeNamespace (pr_Namespace p)) (gr_Namespace gatewayRef)) refs.

Definition validateHTTPRouteReferencesGateway (route : Key) (gatewayRef : TenantGatewayRef) : Prog (Res GoErr unit) :=
  if String.eqb (gr_Name gatewayRef) "" && String.eqb (gr_Namespace gatewayRef) "" then Ret (Ok tt) else
  if incomplete gatewayRef then Ret (Err (plain "gatewayRef must set both name and namespace")) else
  r <-! try ("failed to get HTTPRoute " +:+ shown route +:+ " for gateway validation") (call (Get true KHTTPRoute route)) ;;
  let refs := ParentRefs (body r) in
  if (maxHTTPRouteParentRefs <? length refs)%nat
  then Ret (Err (plain ("HTTPRoute " +:+ shown route +:+ " has " +:+ format_int (Z.of_nat (length refs))
                        +:+ " parentRefs, exceeding supported maximum " +:+ format_int (Z.of_nat maxHTTPRouteParentRefs)))) else
  Ret (if references_gateway route.1 gatewayRef refs then Ok tt
       else Err {| etext := "HTTPRoute " +:+ shown route +:+ " does not reference tenant Gateway "
                            +:+ gr_Namespace gatewayRef +:+ "/" +:+ gr_Name gatewayRef;
                   cause := Wraps ErrHTTPRouteNotOnTenantGateway |}).

(** ** Subscriptions of a model *)

(** [modelRefIndexKey]: the index [SetupWithManager] registers. *)
Definition modelRefIndexKey : string := "spec.modelRef".
Definition model_key (ref : RateTier.ModelSubscriptionRef) : string :=
  RateTier.mr_Namespace ref +:+ "/" +:+ RateTier.mr_Name ref.
Definition modelRefIndex (sub : MaaSSubscription) : list string := map model_key (ss_ModelRefs (ss_Spec (body sub))).
Definition live {B} (o : Object B) : bool := bool_decide (DeletionTimestamp (meta o) = None).

Definition findAllSubscriptionsForModel (model : Key) : Prog (Res GoErr (list MaaSSubscription)) :=
  all <-! try ("failed to list MaaSSubscriptions for model " +:+ shown model)
            (call (ListBy true KSubscription (MatchingField modelRefIndexKey (shown model)))) ;;
  Ret (Ok (List.filter live all)).

End Routes.

Definition annotationListContains (v want : string) : bool :=
  if String.eqb v "" || String.eqb want "" then false
  else existsb (λ item, String.eqb (trim_space item) want) (split_char "," v).

End ModelRoutes.
