(* ===== verification/Cluster.v ===== *)
(** * Cluster: an API server that does what it is asked

    The objects of a cluster and what a fault-free API server, which every
    client reads without delay, answers to a call ([replies]); [always] holds
    of a program when it holds of every execution against such a server.
    Controllers are proved correct against any server, this one is for what
    they achieve when nothing fails. *)

From S2P Require Import Prelude GoStrings Kube ModelRoutes.
Local Open Scope string_scope.

Module Cluster.
Import Kube.

(** ** Objects *)

Definition Cluster : Type := ∀ k : Kind, gmap Key (Obj k).

(** An object is stored under its key. *)
Definition stored (cl : Cluster) (k : Kind) (o : Obj k) : Prop := cl k !! key_of o = Some o.
Definition well_stored (cl : Cluster) : Prop := ∀ k key o, cl k !! key = Some o → key_of o = key.

(** The metadata a client writes; the server sets the rest. *)
Definition same_written (m m' : ObjectMeta) : Prop :=
  Name m' = Name m ∧ Namespace m' = Namespace m ∧ Labels m' = Labels m ∧ Annotations m' = Annotations m
  ∧ Finalizers m' = Finalizers m ∧ OwnerReferences m' = OwnerReferences m.

(** [cl'] is [cl] with [o'] at [key]. *)
Definition changes (cl : Cluster) (k : Kind) (key : Key) (o' : option (Obj k)) (cl' : Cluster) : Prop :=
  cl' k !! key = o' ∧ (∀ key', key' ≠ key → cl' k !! key' = cl k !! key') ∧ ∀ k', k' ≠ k → cl' k' = cl k'.

(** What an update changes of the body: the status is a subresource. *)
Definition updated_body (k : Kind) : Body k → Body k → Body k → Prop :=
  match k return Body k → Body k → Body k → Prop with
  | KSubscription => λ old new b, ss_Spec b = ss_Spec new ∧ ss_Status b = ss_Status old
  | KTRLP => λ old new b, tp_Spec b = tp_Spec new ∧ tp_Status b = tp_Status old
  | KMaaSAuthPolicy => λ old new b, ap_ModelRefs b = ap_ModelRefs new ∧ ap_Rest b = ap_Rest new ∧ ap_Status b = ap_Status old
  | KAuthPolicy => λ old new b, au_Spec b = au_Spec new ∧ au_Status b = au_Status old
  | _ => λ _ new b, b = new
  end.
Definition created_body (k : Kind) : Body k → Body k → Prop :=
  match k return Body k → Body k → Prop with
  | KTRLP => λ new b, tp_Spec b = tp_Spec new ∧ tp_Status b = None
  | KAuthPolicy => λ new b, au_Spec b = au_Spec new ∧ au_Status b = None
  | _ => λ new b, b = new
  end.
Definition status_body (k : Kind) : Body k → Body k → Body k → Prop :=
  match k return Body k → Body k → Body k → Prop with
  | KSubscription => λ old new b, ss_Spec b = ss_Spec old ∧ ss_Status b = ss_Status new
  | KMaaSAuthPolicy => λ old new b, ap_ModelRefs b = ap_ModelRefs old ∧ ap_Rest b = ap_Rest old ∧ ap_Status b = ap_Status new
  | _ => λ _ new b, b = new
  end.

(** ** Listing *)

Definition has_labels (labels : gmap string string) (m : ObjectMeta) : Prop := map_Forall (λ k v, Labels m !! k = Some v) labels.
Definition in_namespace (ns : string) (m : ObjectMeta) : Prop := ns = "" ∨ Namespace m = ns.
(** The values of the field index of a subscription. *)
Definition indexed (k : Kind) (index v : string) : Obj k → Prop :=
  match k return Obj k → Prop with
  | KSubscription => λ o, index = ModelRoutes.modelRefIndexKey ∧ v ∈ ModelRoutes.modelRefIndex o
  | _ => λ _, False
  end.
Definition selects (k : Kind) (selector : ListOptions) (o : Obj k) : Prop :=
  match selector with
  | Everywhere => True
  | InNamespace ns => in_namespace ns (meta o)
  | MatchingLabels labels => has_labels labels (meta o)
  | MatchingField index v => indexed k index v o
  end.
(** The objects of a kind with a property, each once, in any order. *)
Definition lists (cl : Cluster) (k : Kind) (P : Obj k → Prop) (l : list (Obj k)) : Prop :=
  NoDup l ∧ ∀ o, o ∈ l ↔ (∃ key, cl k !! key = Some o) ∧ P o.

(** ** Replies *)

Definition not_found {A} (r : Res ApiErr A) : Prop := ∃ e, r = Err e ∧ isNotFound e = true.

Definition replies (X : Type) (c : Call X) (cl : Cluster) : X → Cluster → Prop :=
  match c in Call X return X → Cluster → Prop with
  | Get _ k key => λ r cl', cl' = cl ∧ match cl k !! key with Some o => r = Ok o | None => not_found r end
  | ListAll k ns labels => λ r cl', cl' = cl ∧ ∃ l, r = Ok l
      ∧ lists cl k (λ o, in_namespace ns (meta o) ∧ has_labels labels (meta o)) l
  | ListBy _ k selector => λ r cl', cl' = cl ∧ ∃ l, r = Ok l ∧ lists cl k (selects k selector) l
  | Create k o => λ r cl',
      match cl k !! key_of o with
      | Some _ => cl' = cl ∧ ∃ e, r = Err e ∧ isAlreadyExists e = true
      | None => ∃ o', r = Ok o' ∧ same_written (meta o) (meta o') ∧ created_body k (body o) (body o')
                ∧ changes cl k (key_of o) (Some o') cl'
      end
  | Update k o => λ r cl',
      match cl k !! key_of o with
      | None => cl' = cl ∧ not_found r
      | Some old => ∃ o', r = Ok o' ∧ same_written (meta o) (meta o') ∧ updated_body k (body old) (body o) (body o')
                    ∧ changes cl k (key_of o) (Some o') cl'
      end
  | UpdateStatus k o => λ r cl',
      match cl k !! key_of o with
      | None => cl' = cl ∧ not_found r
      | Some old => ∃ o', r = Ok o' ∧ same_written (meta old) (meta o') ∧ status_body k (body old) (body o) (body o')
                    ∧ changes cl k (key_of o) (Some o') cl'
      end
  | Patch k _ o _ => λ r cl',
      match cl k !! key_of o with
      | None => cl' = cl ∧ not_found r
      | Some old => ∃ o', r = Ok o' ∧ same_written (meta o) (meta o') ∧ updated_body k (body old) (body o) (body o')
                    ∧ changes cl k (key_of o) (Some o') cl'
      end
  | Delete k o _ => λ r cl',
      match cl k !! key_of o with
      | None => cl' = cl ∧ not_found r
      | Some old => r = Ok tt
          ∧ if bool_decide (Finalizers (meta old) = []) then changes cl k (key_of o) None cl'
            else ∃ o', same_written (meta old) (meta o') ∧ body o' = body old ∧ DeletionTimestamp (meta o') ≠ None
                 ∧ changes cl k (key_of o) (Some o') cl'
      end
  | Eventf _ _ _ _ => λ _ cl', cl' = cl
  end.

(** ** Executions *)

Fixpoint always {A} (p : Prog A) (cl : Cluster) (Q : A → Cluster → Prop) : Prop :=
  match p with
  | Ret a => Q a cl
  | Vis c k => ∀ x cl', replies _ c cl x cl' → always (k x) cl' Q
  end.

Lemma always_weaken {A} (p : Prog A) cl (Q Q' : A → Cluster → Prop) :
  always p cl Q → (∀ a cl', Q a cl' → Q' a cl') → always p cl Q'.
Proof.
  intros Hp HQ. revert cl Hp. induction p as [a|X c k IH]; intros cl; cbn; [apply HQ|].
  intros Hk x cl' Hx. by apply IH, Hk.
Qed.
Lemma always_seq {A B} (p : Prog A) (f : A → Prog B) cl Q :
  always p cl (λ a cl', always (f a) cl' Q) → always (p ≫= f) cl Q.
Proof.
  revert cl. induction p as [a|X c k IH]; intros cl; cbn; [done|]. intros Hk x cl' Hx. by apply IH, Hk.
Qed.
Lemma always_bind_ok {E A B} (p : Prog (Res E A)) (f : A → Prog (Res E B)) cl Q :
  always p cl (λ r cl', match r with Ok a => always (f a) cl' Q | Err e => Q (Err e) cl' end) →
  always (bind_ok p f) cl Q.
Proof. intros H. apply always_seq. eapply always_weaken; [exact H|]. by intros [a|e] cl'. Qed.

(** The executions of a server whose replies are those. *)
Definition serves {S} (view : S → Cluster) (serve : ∀ X, Call X → S → S * X) : Prop :=
  ∀ X (c : Call X) s, replies X c (view s) (serve X c s).2 (view (serve X c s).1).
Lemma always_executed {A S} (view : S → Cluster) (serve : ∀ X, Call X → S → S * X) (p : Prog A) s Q :
  serves view serve → always p (view s) Q → Q (run serve p s).2 (view (run serve p s).1).
Proof.
  intros Hs. revert s. induction p as [a|X c k IH]; intros s; cbn; [done|]. intros Hk.
  specialize (Hs X c s). destruct (serve X c s) as [s1 x]. by apply IH, Hk.
Qed.

(** ** Programs that only read *)

(** Every execution leaves the cluster alone and ends with a value in [Q]. *)
Definition reads {A} (p : Prog A) (cl : Cluster) (Q : A → Prop) : Prop := always p cl (λ a cl', cl' = cl ∧ Q a).

Lemma reads_ret {A} (a : A) cl (Q : A → Prop) : Q a → reads (Ret a) cl Q.
Proof. done. Qed.
Lemma reads_mono {A} (p : Prog A) cl (Q Q' : A → Prop) : reads p cl Q → (∀ a, Q a → Q' a) → reads p cl Q'.
Proof. intros Hp HQ. eapply always_weaken; [exact Hp|]. intros a cl' [-> Ha]. split; [done|by apply HQ]. Qed.
Lemma reads_bind {A B} (p : Prog A) (f : A → Prog B) cl Q :
  reads p cl (λ a, reads (f a) cl Q) → reads (p ≫= f) cl Q.
Proof. intros H. apply always_seq. eapply always_weaken; [exact H|]. by intros a cl' [-> Ha]. Qed.
Lemma reads_bind_ok {E A B} (p : Prog (Res E A)) (f : A → Prog (Res E B)) cl Q :
  reads p cl (λ r, match r with Ok a => reads (f a) cl Q | Err e => Q (Err e) end) → reads (bind_ok p f) cl Q.
Proof. intros H. apply reads_bind. eapply reads_mono; [exact H|]. by intros [a|e]. Qed.
(** Reading first, then anything. *)
Lemma always_reads {A B} (p : Prog A) (f : A → Prog B) cl (P : A → Prop) Q :
  reads p cl P → (∀ a, P a → always (f a) cl Q) → always (p ≫= f) cl Q.
Proof. intros Hp Hf. apply always_seq. eapply always_weaken; [exact Hp|]. intros a cl' [-> Ha]. by apply Hf. Qed.

Lemma always_reads_ok {E A B} (p : Prog (Res E A)) (f : A → Prog (Res E B)) cl a Q :
  reads p cl (λ r, r = Ok a) → always (f a) cl Q → always (bind_ok p f) cl Q.
Proof. intros Hp Hf. eapply always_reads; [exact Hp|]. by intros r ->. Qed.

Lemma reads_get cached k key cl (Q : Res ApiErr (Obj k) → Prop) :
  match cl k !! key with Some o => Q (Ok o) | None => ∀ e, isNotFound e = true → Q (Err e) end →
  reads (call (Get cached k key)) cl Q.
Proof.
  intros H r cl' [-> Hr]. split; [done|]. destruct (cl k !! key); [by subst|].
  destruct Hr as (e & -> & He). by apply H.
Qed.
Lemma reads_get_some cached k key cl o (Q : Res ApiErr (Obj k) → Prop) :
  cl k !! key = Some o → Q (Ok o) → reads (call (Get cached k key)) cl Q.
Proof. intros E HQ. apply reads_get. by rewrite E. Qed.
Lemma reads_event kind reason action note cl (Q : unit → Prop) : Q tt → reads (call (Eventf kind reason action note)) cl Q.
Proof. intros HQ [] cl' ->. by split. Qed.

Lemma changes_self cl k key : changes cl k key (cl k !! key) cl.
Proof. done. Qed.

End Cluster.
