(* ===== verification/LookupFacts.v ===== *)
(** * LookupFacts: what the lookups of a tenant find

    On a cluster that answers every call, the lookups of [TenantLookup] and the
    Gateway check of [ModelRoutes] are functions of the objects it holds. *)

From S2P Require Import Prelude GoStrings Kube AITenant TenantLookup ModelRoutes Cluster.
From Stdlib Require String.
Local Open Scope string_scope.

Module LookupFacts.
Import Kube AITenant TenantLookup ModelRoutes Cluster.

Section Lookups.
Context `{TS : TenantScope}.

(** ** The lookups as functions of a cluster *)

Definition allowed_namespace (cl : Cluster) (ns : string) : bool :=
  String.eqb DefaultTenantNamespace "" || String.eqb ns DefaultTenantNamespace
  || TenantNamespaceDiscoveryEnabled && match cl KNamespace !! ("", ns) with
                                        | Some n => namespaceHasTenantDiscoveryLabel (Labels (meta n))
                                        | None => false
                                        end.

Definition tenant_config (cl : Cluster) (ns : string) : option TenantForNamespace :=
  match cl KTenantConfig !! (ns, MaasTenantConfigInstanceName) with
  | Some c => Some (FoundConfig c)
  | None => FoundLegacy <$> cl KLegacyTenant !! (ns, TenantInstanceName)
  end.

(** The Gateway a tenant configuration resolves to, if it does. *)
Definition owner_gateway (cl : Cluster) (m : ObjectMeta) : option TenantGatewayRef :=
  let key := (value (Annotations m) aitenantNamespaceAnnotation, value (Annotations m) aitenantNameAnnotation) in
  if String.eqb (value (Labels m) LabelTenantName) "" || String.eqb key.2 "" || String.eqb key.1 "" then None else
  match cl KAITenant !! key with
  | Some t => let ref := GatewayRef (Status (body t)) in if incomplete ref then None else Some ref
  | None => None
  end.
Definition config_gateway (cl : Cluster) (t : TenantForNamespace) : option TenantGatewayRef :=
  if managed_by_aitenant (found_meta t) then owner_gateway cl (found_meta t) else
  match t with
  | FoundConfig _ => Some fallback_gateway
  | FoundLegacy legacy =>
      let ref := lt_GatewayRef (body legacy) in
      if String.eqb (gr_Name ref) "" && String.eqb (gr_Namespace ref) "" then Some fallback_gateway
      else if incomplete ref then None else Some ref
  end.

(** The Gateway of a namespace: one, none because the tenant of a discovered
    namespace has no configuration, or a configuration that does not resolve. *)
Inductive GatewayOf := HasGateway (ref : TenantGatewayRef) | NoConfiguration | Unresolved.
Definition gateway_of (cl : Cluster) (ns : string) : GatewayOf :=
  match tenant_config cl ns with
  | Some t => match config_gateway cl t with Some ref => HasGateway ref | None => Unresolved end
  | None =>
      if String.eqb ns DefaultTenantNamespace || negb TenantNamespaceDiscoveryEnabled || negb (allowed_namespace cl ns)
      then HasGateway fallback_gateway else NoConfiguration
  end.

(** ** The programs compute them *)

Lemma allowed_reads cl ns : reads (tenantNamespaceAllowed ns) cl (λ r, r = Ok (allowed_namespace cl ns)).
Proof.
  unfold tenantNamespaceAllowed, allowed_namespace. destruct (_ || _); [by apply reads_ret|].
  destruct TenantNamespaceDiscoveryEnabled; [|by apply reads_ret]. apply reads_bind, reads_get.
  destruct (cl KNamespace !! _); [by apply reads_ret|]. intros e He. apply reads_ret. by rewrite He.
Qed.
Lemma is_tenant_reads cl ns : reads (isTenantNamespace ns) cl (λ r, r = allowed_namespace cl ns).
Proof. apply reads_bind. eapply reads_mono; [apply allowed_reads|]. by intros r ->. Qed.

Lemma filter_tenants_reads {B} cl (l : list (Object B)) (m : gmap string bool) :
  (∀ ns b, m !! ns = Some b → b = allowed_namespace cl ns) →
  reads (filter_tenants m l) cl (λ r, r = List.filter (λ o, allowed_namespace cl (Namespace (meta o))) l).
Proof.
  revert m. induction l as [|o l IH]; intros m Hm; cbn [filter_tenants List.filter]; [done|].
  assert (reads (match m !! Namespace (meta o) with Some ok => Ret ok | None => isTenantNamespace (Namespace (meta o)) end)
            cl (λ ok, ok = allowed_namespace cl (Namespace (meta o)))) as Ho.
  { destruct (m !! _) as [b|] eqn:E; [by apply reads_ret, Hm|apply is_tenant_reads]. }
  apply reads_bind. eapply reads_mono; [exact Ho|]. intros ok ->. apply reads_bind. eapply reads_mono; [apply IH|].
  - intros ns b. rewrite lookup_insert_Some. intros [[<- <-]|[_ H]]; [done|by apply Hm].
  - intros kept ->. apply reads_ret. by destruct (allowed_namespace _ _).
Qed.
Lemma filter_subscriptions_reads cl (l : list MaaSSubscription) :
  reads (filterSubscriptionsByTenantNamespace l) cl (λ r, r = List.filter (λ o, allowed_namespace cl (Namespace (meta o))) l).
Proof. by apply filter_tenants_reads. Qed.

Lemma fetch_reads cl ns :
  reads (fetchTenantForNamespace ns) cl (λ r,
    match tenant_config cl ns with Some t => r = Ok t | None => ∃ e, r = Err e ∧ isNotFound e = true end).
Proof.
  unfold fetchTenantForNamespace, tenant_config. apply reads_bind, reads_get.
  destruct (cl KTenantConfig !! _) as [c|]; [by apply reads_ret|]. intros e He. rewrite He. cbn [negb].
  apply reads_bind, reads_get. destruct (cl KLegacyTenant !! _) as [t|]; [by apply reads_ret|].
  intros e' He'. apply reads_ret. by exists e'.
Qed.

Lemma owner_gateway_reads cl m :
  reads (resolveAITenantPlatformContext m) cl (λ r,
    match owner_gateway cl m with
    | Some ref => ∃ ctx, r = Ok ctx ∧ pc_GatewayRef ctx = ref
    | None => ∃ e, r = Err e ∧ is_sentinel ErrDiscoveredTenantConfigNotFound e = false
    end).
Proof.
  unfold resolveAITenantPlatformContext, owner_gateway. cbn [fst snd].
  destruct (String.eqb (value (Labels m) LabelTenantName) ""); [apply reads_ret; by eexists|].
  destruct (String.eqb (value (Annotations m) aitenantNameAnnotation) ""); [apply reads_ret; by eexists|].
  destruct (String.eqb (value (Annotations m) aitenantNamespaceAnnotation) ""); [apply reads_ret; by eexists|].
  cbn [orb]. apply reads_bind_ok, reads_bind, reads_get. destruct (cl KAITenant !! _) as [t|].
  - apply reads_ret. cbn [map_err]. change (body t) with (body (B := AITenantBody) t).
    destruct (incomplete _); apply reads_ret; by eexists.
  - intros e He. apply reads_ret. cbn. by eexists.
Qed.
Lemma config_gateway_reads cl t :
  reads (ResolvePlatformContext (Some t) fallback_gateway) cl (λ r,
    match config_gateway cl t with
    | Some ref => ∃ ctx, r = Ok ctx ∧ pc_GatewayRef ctx = ref
    | None => ∃ e, r = Err e ∧ is_sentinel ErrDiscoveredTenantConfigNotFound e = false
    end).
Proof.
  unfold ResolvePlatformContext, config_gateway.
  destruct (managed_by_aitenant (found_meta t)); [apply owner_gateway_reads|]. destruct t as [c|legacy].
  { apply reads_ret. by eexists. }
  destruct (_ && _); [apply reads_ret; by eexists|]. destruct (incomplete _); apply reads_ret; by eexists.
Qed.

Lemma gateway_reads cl ns :
  reads (tenantGatewayRefForNamespace ns) cl (λ r,
    match gateway_of cl ns with
    | HasGateway ref => r = Ok ref
    | NoConfiguration => ∃ e, r = Err e ∧ is_sentinel ErrDiscoveredTenantConfigNotFound e = true
    | Unresolved => ∃ e, r = Err e ∧ is_sentinel ErrDiscoveredTenantConfigNotFound e = false
    end).
Proof.
  unfold tenantGatewayRefForNamespace, gateway_of. apply reads_bind. eapply reads_mono; [apply fetch_reads|].
  intros r Hr. destruct (tenant_config cl ns) as [t|].
  - subst r. apply reads_bind_ok. eapply reads_mono; [apply config_gateway_reads|]. intros r Hr.
    destruct (config_gateway cl t) as [ref|].
    + destruct Hr as (ctx & -> & <-). by apply reads_ret.
    + destruct Hr as (e & -> & He). by exists e.
  - destruct Hr as (e & -> & He). rewrite He. cbn [negb].
    destruct (String.eqb ns DefaultTenantNamespace || negb TenantNamespaceDiscoveryEnabled); [by apply reads_ret|].
    apply reads_bind_ok. eapply reads_mono; [apply allowed_reads|]. intros r ->. cbn [orb].
    destruct (allowed_namespace cl ns); apply reads_ret; [by eexists|done].
Qed.

Lemma fallback_complete : fallback_gateway = no_gateway ∨ incomplete fallback_gateway = false.
Proof.
  unfold fallback_gateway, fallbackTenantGatewayRef, incomplete.
  destruct (String.eqb FallbackGatewayName "") eqn:E1; [by left|].
  destruct (String.eqb FallbackGatewayNamespace "") eqn:E2; [by left|]. right. cbn. by rewrite E1, E2.
Qed.
(** A namespace never resolves to half a Gateway. *)
Lemma gateway_complete cl ns ref : gateway_of cl ns = HasGateway ref → ref = no_gateway ∨ incomplete ref = false.
Proof.
  unfold gateway_of, config_gateway, owner_gateway. intros H.
  repeat (case_match; simplify_eq; try done); auto using fallback_complete.
Qed.

(** ** Routes on a Gateway *)

(** The empty reference is no constraint. *)
Definition on_gateway (cl : Cluster) (route : Key) (ref : TenantGatewayRef) : bool :=
  (String.eqb (gr_Name ref) "" && String.eqb (gr_Namespace ref) "")
  || match (cl KHTTPRoute !! route : option HTTPRoute) with Some r => references_gateway route.1 ref (ParentRefs (body r)) | None => false end.

Lemma validate_reads cl route (r : HTTPRoute) ref :
  cl KHTTPRoute !! route = Some r → (length (ParentRefs (body r)) ≤ maxHTTPRouteParentRefs)%nat →
  ref = no_gateway ∨ incomplete ref = false →
  reads (validateHTTPRouteReferencesGateway route ref) cl (λ v,
    if on_gateway cl route ref then v = Ok tt else ∃ e, v = Err e ∧ is_sentinel ErrHTTPRouteNotOnTenantGateway e = true).
Proof.
  intros Hr Hlen Href. unfold validateHTTPRouteReferencesGateway, on_gateway. rewrite Hr.
  destruct (String.eqb (gr_Name ref) "" && String.eqb (gr_Namespace ref) "") eqn:E; [by apply reads_ret|].
  destruct Href as [->|Href]; [done|]. rewrite Href. apply reads_bind_ok, reads_bind. eapply reads_get_some; [exact Hr|].
  apply reads_ret. cbn [map_err].
  destruct (Nat.ltb_spec maxHTTPRouteParentRefs (length (ParentRefs (body r)))) as [H|_]; [lia|].
  apply reads_ret. cbn [orb]. destruct (references_gateway _ _ _); [done|]. by eexists.
Qed.

End Lookups.
End LookupFacts.
