(* ===== verification/SubscriptionPolicy.v ===== *)
(** * SubscriptionPolicy: the TokenRateLimitPolicy of a model

    [reconcileTRLPForModel] and what it calls in
    [maas-controller/pkg/controller/maas/maassubscription_controller.go]: the
    subscriptions of a model are aggregated into one policy in the namespace of
    the model's HTTPRoute.  The limits themselves are those of [RateTier]. *)

From S2P Require Import Prelude GoStrings RateLimitId RateTier Kube AITenant TenantLookup ModelRoutes.
From Stdlib Require String.
Local Open Scope string_scope.

Module SubscriptionPolicy.
Import Kube AITenant TenantLookup ModelRoutes.
Import RateTier (ModelSubscriptionRef, subInfo, PolicyLimit).

(** The fields of the controller ([retries] and [relatedImage] as in
    [AITenantReconciler]); [inferenceObjectivesUnavailable] is the value its
    atomic flag has. *)
Class MaaSSubscriptionReconciler := {
  AppNamespace : string; HasAPIReader : bool; HasRecorder : bool; retries : nat; rateLimitIdentityEpoch : Z;
  relatedImage : string; inferenceObjectivesUnavailable : bool;
}.

(** ** The objects as [RateTier] sees them *)

Definition RateLimitIdentityAnnotation : string := "maas.opendatahub.io/rate-limit-identity".
Definition sub_meta (sub : MaaSSubscription) : Controller.SubMeta := {|
  Controller.spec_RateLimitIdentity := ss_RateLimitIdentity (ss_Spec (body sub));
  Controller.status_RateLimitIdentity := ss_StatusIdentity (ss_Status (body sub));
  Controller.annotation_RateLimitIdentity := value (Annotations (meta sub)) RateLimitIdentityAnnotation;
  Controller.Finalizers := Finalizers (meta sub);
  Controller.status_Phase := ss_Phase (ss_Status (body sub));
  Controller.n_Conditions := length (ss_Conditions (ss_Status (body sub)));
  Controller.CreationTimestamp := CreationTimestamp (meta sub) |}.
Definition rate_sub (sub : MaaSSubscription) : RateTier.MaaSSubscription := {|
  RateTier.sub_Namespace := Namespace (meta sub); RateTier.sub_Name := Name (meta sub);
  RateTier.ModelRefs := ss_ModelRefs (ss_Spec (body sub)); RateTier.sub_Meta := sub_meta sub |}.
Definition sub_name (sub : MaaSSubscription) : string := RateTier.qualifiedName (Namespace (meta sub)) (Name (meta sub)).

(** ** The desired policy *)

Definition policyName (modelName : string) : string := "maas-trlp-" +:+ modelName.
Definition trlpLabelModel : string := "maas.opendatahub.io/model".
Definition trlpLabelModelNamespace : string := "maas.opendatahub.io/model-namespace".
Definition trlpLabelGatewayName : string := "maas.opendatahub.io/gateway-name".
Definition trlpLabelGatewayNamespace : string := "maas.opendatahub.io/gateway-namespace".
Definition subscriptionsAnnotation : string := "maas.opendatahub.io/subscriptions".
Definition generated_labels : gmap string string :=
  <["app.kubernetes.io/managed-by" := "maas-controller"]> {[ "app.kubernetes.io/part-of" := "maas-subscription" ]}.
Definition model_labels (model : Key) : gmap string string :=
  <[trlpLabelModel := model.2]> (<[trlpLabelModelNamespace := model.1]> generated_labels).

Definition policy_labels (model : Key) (gateway : option Key) : gmap string string :=
  let labels := <["app.kubernetes.io/component" := "token-rate-limit-policy"]> (model_labels model) in
  match gateway with
  | Some (ns, name) =>
      if negb (String.eqb name "") && negb (String.eqb ns "")
      then <[trlpLabelGatewayName := name]> (<[trlpLabelGatewayNamespace := ns]> labels) else labels
  | None => labels
  end.

(** What the controller asks of a policy: metadata it merges in, and the whole
    specification. *)
Record Desired := {
  d_Key : Key; d_Labels : gmap string string; d_Annotations : gmap string string; d_Spec : TRLPSpec;
}.
Definition desired_policy (model route : Key) (gateway : option Key) (limits : gmap string PolicyLimit)
    (subNames : list string) : Desired := {|
  d_Key := (route.1, policyName model.2);
  d_Labels := policy_labels model gateway;
  d_Annotations := {[ subscriptionsAnnotation := join "," subNames ]};
  d_Spec := {| TargetRoute := route.2; Limits := limits |} |}.
Definition new_policy (d : Desired) : TRLP := {|
  meta := set_annotations (d_Annotations d) (set_labels (d_Labels d) (new_meta (d_Key d).1 (d_Key d).2));
  body := {| tp_Spec := Generated (d_Spec d); tp_Status := None |} |}.

(** The desired entries win over the existing ones. *)
Definition merged (d : Desired) (existing : TRLP) : TRLP := {|
  meta := set_labels (d_Labels d ∪ Labels (meta existing))
            (set_annotations (d_Annotations d ∪ Annotations (meta existing)) (meta existing));
  body := {| tp_Spec := Generated (d_Spec d); tp_Status := tp_Status (body existing) |} |}.

Definition routeGatewayForTRLP (route : HTTPRoute) : option Key :=
  routeParentGateway route <$> List.find parentRefTargetsGateway (ParentRefs (body route)).

Section Policy.
Context `{TS : TenantScope} `{R : MaaSSubscriptionReconciler} `{SC : StatusConditions} `{CU : ControllerUtil}.

(** [setHTTPRouteControllerOwner]: a route that controlled the policy before is
    replaced. *)
Definition route_controls (ref : OwnerReference) : bool :=
  controls ref && String.eqb (or_APIVersion ref) "gateway.networking.k8s.io/v1" && String.eqb (or_Kind ref) "HTTPRoute".
Definition setHTTPRouteControllerOwner (route : HTTPRoute) (obj : TRLP) : Res string TRLP :=
  res_map (λ m, with_meta (λ _, m) obj)
    (SetControllerReference "HTTPRoute" (meta route)
       (set_owners (List.filter (λ ref, negb (route_controls ref)) (OwnerReferences (meta obj))) (meta obj))).

Definition selectedGatewayForModel (model : Key) : Prog (Res GoErr (option Key)) :=
  m ← call (Get true KModelRef model);
  Ret (match m with
       | Err e => if isNotFound e then Ok None else Err (wrap ("get MaaSModelRef " +:+ shown model) e)
       | Ok m =>
           let st := mo_Status (body m) in
           if String.eqb (HTTPRouteGatewayName st) "" || String.eqb (HTTPRouteGatewayNamespace st) "" then Ok None
           else Ok (Some (HTTPRouteGatewayNamespace st, HTTPRouteGatewayName st))
       end).

Definition gatewayIdentityForTRLP (model : Key) (route : HTTPRoute) : Prog (Res GoErr (option Key)) :=
  selected <-! selectedGatewayForModel model ;;
  Ret (Ok (match selected with Some g => Some g | None => routeGatewayForTRLP route end)).

(** ** Which subscriptions count *)

(** The variables of the loop of [validateSubscriptionTenantGatewaysForRoute];
    a gateway that is not the route's has its error. *)
Record GatewayCheck := {
  validatedTenantNamespaces : gset string; validatedGateways : gmap string (option GoErr);
  skippedNamespaces : gmap string string;
}.
Definition skip (ns text : string) (st : GatewayCheck) : GatewayCheck := {|
  validatedTenantNamespaces := validatedTenantNamespaces st; validatedGateways := validatedGateways st;
  skippedNamespaces := <[ns := text]> (skippedNamespaces st) |}.
Definition checked (ns : string) (st : GatewayCheck) : GatewayCheck := {|
  validatedTenantNamespaces := {[ns]} ∪ validatedTenantNamespaces st; validatedGateways := validatedGateways st;
  skippedNamespaces := skippedNamespaces st |}.
Definition gateway_result (key : string) (e : option GoErr) (st : GatewayCheck) : GatewayCheck := {|
  validatedTenantNamespaces := validatedTenantNamespaces st; validatedGateways := <[key := e]> (validatedGateways st);
  skippedNamespaces := skippedNamespaces st |}.

Definition check_gateway (model route : Key) (sub : MaaSSubscription) (st : GatewayCheck) : Prog (Res GoErr GatewayCheck) :=
  let ns := Namespace (meta sub) in
  if bool_decide (ns ∈ validatedTenantNamespaces st) then Ret (Ok st) else
  let st := checked ns st in
  let not_attached e := "model " +:+ shown model +:+ " is not attached to tenant gateway for subscription "
                        +:+ sub_name sub +:+ ": " +:+ etext e in
  ref ← tenantGatewayRefForNamespace ns;
  match ref with
  | Err e =>
      Ret (if is_sentinel ErrDiscoveredTenantConfigNotFound e
           then Ok (skip ns ("model " +:+ shown model +:+ " is skipping subscription " +:+ sub_name sub +:+ ": " +:+ etext e) st)
           else Err e)
  | Ok gatewayRef =>
      let gatewayKey := RateTier.qualifiedName (gr_Namespace gatewayRef) (gr_Name gatewayRef) in
      match validatedGateways st !! gatewayKey with
      | Some (Some e) => Ret (Ok (skip ns (not_attached e) st))
      | Some None => Ret (Ok st)
      | None =>
          v ← validateHTTPRouteReferencesGateway route gatewayRef;
          Ret (match v with
               | Ok _ => Ok (gateway_result gatewayKey None st)
               | Err e =>
                   if is_sentinel ErrHTTPRouteNotOnTenantGateway e
                   then Ok (skip ns (not_attached e) (gateway_result gatewayKey (Some e) st))
                   else Err (wrap_err ("model " +:+ shown model +:+ " is not attached to tenant gateway for subscription "
                                       +:+ sub_name sub) e)
               end)
      end
  end.

Fixpoint check_gateways (model route : Key) (subs : list MaaSSubscription) (st : GatewayCheck)
    : Prog (Res GoErr GatewayCheck) :=
  match subs with
  | [] => Ret (Ok st)
  | sub :: rest => st <-! check_gateway model route sub st ;; check_gateways model route rest st
  end.

(** The skipped namespaces are only logged by the caller. *)
Definition validateSubscriptionTenantGatewaysForRoute (model route : Key) (subs : list MaaSSubscription)
    : Prog (Res GoErr (list MaaSSubscription)) :=
  st <-! check_gateways model route subs
           {| validatedTenantNamespaces := ∅; validatedGateways := ∅; skippedNamespaces := ∅ |} ;;
  Ret (Ok (List.filter (λ sub, bool_decide (skippedNamespaces st !! Namespace (meta sub) = None)) subs)).

(** ** Deletion *)

Definition tolerate_absent {A} (a : A) (text : string) (r : Res ApiErr A) : Res GoErr A :=
  match r with
  | Ok x => Ok x
  | Err e => if isNotFound e || isNoMatch e then Ok a else Err (wrap text e)
  end.

Definition delete_policy (p : TRLP) : Prog (Res GoErr unit) :=
  if negb (isManaged (meta p)) then Ret (Ok tt) else
  d ← call (Delete KTRLP p false);
  Ret (map_err (wrap ("failed to delete TokenRateLimitPolicy " +:+ shown (key_of p))) (ignore_not_found tt d)).

Definition deleteModelTRLP (model : Key) : Prog (Res GoErr unit) :=
  policies ← call (ListAll KTRLP "" (model_labels model));
  match tolerate_absent [] "failed to list TokenRateLimitPolicy for cleanup" policies with
  | Err e => Ret (Err e)
  | Ok policies => for_each_ok delete_policy policies
  end.

Definition stale_owner (sub : MaaSSubscription) (trlp : TRLP) : bool :=
  let owners := value (Annotations (meta trlp)) subscriptionsAnnotation in
  annotationListContains owners (sub_name sub) || annotationListContains owners (Name (meta sub)).

Definition cleanup_policy (sub : MaaSSubscription) (currentModels : list string) (trlp : TRLP) : Prog (Res GoErr unit) :=
  let modelName := value (Labels (meta trlp)) trlpLabelModel in
  if String.eqb modelName "" then Ret (Ok tt) else
  let ns := value (Labels (meta trlp)) trlpLabelModelNamespace in
  let ns := if String.eqb ns "" then Namespace (meta trlp) else ns in
  if bool_decide (ns +:+ "/" +:+ modelName ∈ currentModels) then Ret (Ok tt) else
  if negb (stale_owner sub trlp) then Ret (Ok tt) else
  d ← deleteModelTRLP (ns, modelName);
  Ret (map_err (wrap_err ("failed to clean up stale TokenRateLimitPolicy for removed model " +:+ ns +:+ "/" +:+ modelName)) d).

Definition cleanupStaleTRLPs (sub : MaaSSubscription) : Prog (Res GoErr unit) :=
  policies ← call (ListAll KTRLP "" generated_labels);
  match tolerate_absent [] "failed to list managed TokenRateLimitPolicies for stale cleanup" policies with
  | Err e => Ret (Err e)
  | Ok policies => for_each_ok (cleanup_policy sub (map model_key (ss_ModelRefs (ss_Spec (body sub))))) policies
  end.

(** ** Writing *)

(** [retry.OnError] for conflicts. *)
Fixpoint retry_conflict (n : nat) (p : Prog (Res GoErr unit)) : Prog (Res GoErr unit) :=
  r ← p;
  match r, n with
  | Err e, S n => if err_is isConflict e then retry_conflict n p else Ret r
  | _, _ => Ret r
  end.

(** One attempt; the status is not touched, so that the specification and the
    metadata decide whether anything changed. *)
Definition update_attempt (route : HTTPRoute) (d : Desired) : Prog (Res GoErr unit) :=
  existing ← call (Get (negb HasAPIReader) KTRLP (d_Key d));
  match existing with
  | Err e => Ret (Err (of_api e))
  | Ok existing =>
      if negb (isManaged (meta existing)) then Ret (Ok tt) else
      match setHTTPRouteControllerOwner route existing with
      | Err e => Ret (Err (plain ("failed to set owner reference on existing TokenRateLimitPolicy "
                                  +:+ shown (key_of existing) +:+ ": " +:+ e)))
      | Ok owned =>
          let changed := merged d owned in
          if bool_decide (meta changed = meta existing ∧ tp_Spec (body changed) = tp_Spec (body existing))
          then Ret (Ok tt) else
          updated ← call (Update KTRLP changed);
          Ret (match updated with Ok _ => Ok tt | Err e => Err (of_api e) end)
      end
  end.

Definition updateExistingTRLP (model : Key) (route : HTTPRoute) (d : Desired) : Prog (Res GoErr unit) :=
  updated ← retry_conflict retries (update_attempt route d);
  Ret (map_err (wrap_err ("failed to update TokenRateLimitPolicy for model " +:+ shown model)) updated).

Definition write_policy (model : Key) (route : HTTPRoute) (d : Desired) : Prog (Res GoErr unit) :=
  match setHTTPRouteControllerOwner route (new_policy d) with
  | Err e => Ret (Err (plain ("failed to set owner reference on TokenRateLimitPolicy " +:+ shown (d_Key d) +:+ ": " +:+ e)))
  | Ok policy =>
      existing ← call (Get true KTRLP (d_Key d));
      match existing with
      | Err e =>
          if negb (isNotFound e) then Ret (Err (wrap "failed to get existing TokenRateLimitPolicy" e)) else
          created ← call (Create KTRLP policy);
          Ret (match created with
               | Ok _ => Ok tt
               | Err e => Err (wrap ("failed to create TokenRateLimitPolicy for model " +:+ model.2) e)
               end)
      | Ok _ => updateExistingTRLP model route d
      end
  end.

(** The policy for the subscriptions that count; [buildGroupedLimits] never
    panics. *)
Definition aggregate (model route : Key) (allSubs : list MaaSSubscription) : Prog (Res GoErr unit) :=
  r <-! try ("failed to fetch HTTPRoute " +:+ shown route) (call (Get true KHTTPRoute route)) ;;
  g ← gatewayIdentityForTRLP model r;
  match g with
  | Err e => Ret (Err (wrap_err ("failed to resolve selected gateway for model " +:+ shown model) e))
  | Ok gateway =>
      match RateTier.collect_subs rateLimitIdentityEpoch model.1 model.2 (map rate_sub allSubs) with
      | [] => deleteModelTRLP model
      | subs =>
          match RateTier.buildGroupedLimits subs with
          | None => Ret (Err (plain "index out of range"))
          | Some (limits, subNames) => write_policy model r (desired_policy model route gateway limits subNames)
          end
      end
  end.

(** Without a route. *)
Definition route_unresolved (model : Key) (allSubs : list MaaSSubscription) (e : GoErr) : Prog (Res GoErr unit) :=
  if is_sentinel ErrModelNotFound e || (length allSubs =? 0)%nat then
    d ← deleteModelTRLP model;
    Ret (map_err (wrap_err ("failed to clean up TokenRateLimitPolicy for missing model " +:+ shown model)) d)
  else if is_sentinel ErrHTTPRouteNotFound e then Ret (Ok tt)
  else Ret (Err (wrap_err ("failed to resolve HTTPRoute for model " +:+ shown model) e)).

Definition reconcileTRLPForModel (model : Key) : Prog (Res GoErr unit) :=
  listed ← findAllSubscriptionsForModel model;
  match listed with
  | Err e => Ret (Err (wrap_err ("failed to list subscriptions for model " +:+ shown model) e))
  | Ok listed =>
      allSubs ← filterSubscriptionsByTenantNamespace listed;
      resolved ← findHTTPRouteForModel model;
      match resolved with
      | Err e => route_unresolved model allSubs e
      | Ok route =>
          allSubs <-! validateSubscriptionTenantGatewaysForRoute model route allSubs ;;
          existingCheck ← call (Get true KTRLP (route.1, policyName model.2));
          let go_on :=
            match allSubs with
            | [] =>
                d ← deleteModelTRLP model;
                Ret (map_err (wrap_err ("failed to delete TokenRateLimitPolicy for model " +:+ shown model)) d)
            | _ => aggregate model route allSubs
            end in
          match existingCheck with
          | Ok existing => if negb (isManaged (meta existing)) then Ret (Ok tt) else go_on
          | Err e => if isNotFound e then go_on else Ret (Err (wrap "failed to check existing TokenRateLimitPolicy" e))
          end
      end
  end.

End Policy.
End SubscriptionPolicy.
