(* ===== verification/SubscriptionRefinement.v ===== *)
(** * SubscriptionRefinement: what the policy of a model becomes

    On a cluster that answers every call, [reconcileTRLPForModel] carries out a
    specification that does not mention its caches, its retries or the order
    in which the API server lists the subscriptions. *)

From S2P Require Import Prelude GoStrings RateLimitId RateTier RateTierFacts Kube AITenant TenantLookup ModelRoutes Cluster.
From S2P Require Import LookupFacts SubscriptionPolicy.
From Stdlib Require String.
Local Open Scope string_scope.

Module SubscriptionRefinement.
Import Kube AITenant TenantLookup ModelRoutes Cluster LookupFacts SubscriptionPolicy.

Lemma elem_filter {A} (f : A → bool) l x : x ∈ List.filter f l ↔ x ∈ l ∧ f x = true.
Proof. rewrite !list_elem_of_In. apply filter_In. Qed.
Lemma nodup_filter {A} (f : A → bool) l : NoDup l → NoDup (List.filter f l).
Proof. rewrite !NoDup_ListNoDup. apply List.NoDup_filter. Qed.
Lemma filter_filter {A} (f g : A → bool) l : List.filter f (List.filter g l) = List.filter (λ x, g x && f x) l.
Proof. induction l as [|x l IH]; cbn; [done|]. destruct (g x); cbn; [destruct (f x)|]; by rewrite IH. Qed.
Lemma lists_filter cl k P (f : Obj k → bool) l :
  lists cl k P l → lists cl k (λ o, P o ∧ f o = true) (List.filter f l).
Proof. intros [Hn Hl]. split; [by apply nodup_filter|]. intros o. rewrite elem_filter, Hl. tauto. Qed.
Lemma lists_ext cl k (P Q : Obj k → Prop) l : (∀ o, P o ↔ Q o) → lists cl k P l → lists cl k Q l.
Proof. intros E [Hn Hl]. split; [done|]. intros o. by rewrite Hl, E. Qed.

Section Refinement.
Context `{TS : TenantScope} `{R : MaaSSubscriptionReconciler} `{SC : StatusConditions} `{CU : ControllerUtil}.

(** ** The specification *)

(** The tenant of the namespace has its Gateway on the route. *)
Definition on_route (cl : Cluster) (route : Key) (ns : string) : bool :=
  match gateway_of cl ns with HasGateway ref => on_gateway cl route ref | _ => false end.
(** The subscriptions of a model, and those of them whose tenant may use the
    route. *)
Definition subscribed (cl : Cluster) (model : Key) (s : MaaSSubscription) : Prop :=
  live s = true ∧ shown model ∈ modelRefIndex s ∧ allowed_namespace cl (Namespace (meta s)) = true.
Definition contributes (cl : Cluster) (model route : Key) (s : MaaSSubscription) : Prop :=
  subscribed cl model s ∧ on_route cl route (Namespace (meta s)) = true.

Definition policy_key (model route : Key) : Key := (route.1, policyName model.2).
Definition opted_out (cl : Cluster) (key : Key) : bool :=
  match (cl KTRLP !! key : option TRLP) with Some p => negb (isManaged (meta p)) | None => false end.

(** Only policies change. *)
Definition policies_only (cl cl' : Cluster) : Prop := ∀ k, k ≠ KTRLP → cl' k = cl k.
(** Every policy of the model is gone that has not opted out, or terminating
    if someone else holds a finalizer on it. *)
Definition generated_for (model : Key) (p : TRLP) : Prop := has_labels (model_labels model) (meta p) ∧ isManaged (meta p) = true.
Definition swept (cl : Cluster) (model : Key) (cl' : Cluster) : Prop :=
  policies_only cl cl' ∧
  ∀ key, match (cl KTRLP !! key : option TRLP) with
         | None => cl' KTRLP !! key = None
         | Some p =>
             (¬ generated_for model p → cl' KTRLP !! key = Some p) ∧
             (generated_for model p → Finalizers (meta p) = [] → cl' KTRLP !! key = None)
         end.
(** The policy is the desired one, controlled by the route; what others wrote
    of its metadata stays, and every other policy. *)
Definition written (cl : Cluster) (r : HTTPRoute) (d : Desired) (cl' : Cluster) : Prop :=
  policies_only cl cl' ∧ (∀ key, key ≠ d_Key d → cl' KTRLP !! key = cl KTRLP !! key) ∧
  ∃ p, cl' KTRLP !! d_Key d = Some p ∧ tp_Spec (body p) = Generated (d_Spec d)
    ∧ (let old := match (cl KTRLP !! d_Key d : option TRLP) with Some p => meta p | None => new_meta (d_Key d).1 (d_Key d).2 end in
       Labels (meta p) = d_Labels d ∪ Labels old ∧ Annotations (meta p) = d_Annotations d ∪ Annotations old)
    ∧ ∃ ref, List.find controls (OwnerReferences (meta p)) = Some ref ∧ or_Kind ref = "HTTPRoute"
        ∧ or_Name ref = Name (meta r) ∧ or_UID ref = UID (meta r).

(** The Gateway a policy is labelled with: the one selected for the model, or
    the first of its route. *)
Definition gateway_identity (cl : Cluster) (model : Key) (r : HTTPRoute) : option Key :=
  match (cl KModelRef !! model : option MaaSModelRef) with
  | Some m =>
      let st := mo_Status (body m) in
      if String.eqb (HTTPRouteGatewayName st) "" || String.eqb (HTTPRouteGatewayNamespace st) "" then routeGatewayForTRLP r
      else Some (HTTPRouteGatewayNamespace st, HTTPRouteGatewayName st)
  | None => routeGatewayForTRLP r
  end.

(** What becomes of the policies when the model has a route. *)
Definition policy_spec (cl : Cluster) (model route : Key) (r : HTTPRoute) (cl' : Cluster) : Prop :=
  if opted_out cl (policy_key model route) then cl' = cl else
  ∃ subs, lists cl KSubscription (contributes cl model route) subs ∧
    match RateTier.collect_subs rateLimitIdentityEpoch model.1 model.2 (map rate_sub subs) with
    | [] => swept cl model cl'
    | infos => ∃ limits names, RateTier.buildGroupedLimits infos = Some (limits, names)
                 ∧ written cl r (desired_policy model route (gateway_identity cl model r) limits names) cl'
    end.
(** And when it has none. *)
Definition unrouted_spec (cl : Cluster) (model : Key) (e : GoErr) (cl' : Cluster) : Prop :=
  (is_sentinel ErrModelNotFound e = true → swept cl model cl') ∧
  (is_sentinel ErrModelNotFound e = false → (∃ s, stored cl KSubscription s ∧ subscribed cl model s) → cl' = cl) ∧
  (¬ (∃ s, stored cl KSubscription s ∧ subscribed cl model s) → swept cl model cl').

(** ** Listing the subscriptions *)

Lemma find_all_reads cl model :
  reads (findAllSubscriptionsForModel model) cl (λ r, ∃ l, r = Ok l ∧
    lists cl KSubscription (λ s, shown model ∈ modelRefIndex s ∧ live s = true) l).
Proof.
  apply reads_bind_ok. apply reads_bind. intros x cl' [-> (l & -> & Hl)]. split; [done|]. apply reads_ret. cbn [map_err].
  apply reads_ret. eexists. split; [done|]. eapply lists_ext; [|apply lists_filter, Hl]. cbn. intros o. tauto.
Qed.

(** ** The Gateway check *)

Definition gkey (ref : TenantGatewayRef) : string := RateTier.qualifiedName (gr_Namespace ref) (gr_Name ref).

(** Names of namespaces have no slash. *)
Definition plain_gateways (cl : Cluster) : Prop :=
  ∀ ns ref, gateway_of cl ns = HasGateway ref → contains_char "/" (gr_Namespace ref) = false.

Lemma gkey_inj cl ns1 ns2 ref1 ref2 :
  plain_gateways cl → gateway_of cl ns1 = HasGateway ref1 → gateway_of cl ns2 = HasGateway ref2 →
  gkey ref1 = gkey ref2 → ref1 = ref2.
Proof.
  intros Hp H1 H2. pose proof (Hp _ _ H1) as P1. pose proof (Hp _ _ H2) as P2.
  pose proof (gateway_complete _ _ _ H1) as C1. pose proof (gateway_complete _ _ _ H2) as C2. clear H1 H2.
  assert (Hk : ∀ ref, ref = no_gateway ∨ incomplete ref = false →
    gkey ref = if String.eqb (gr_Name ref) "" then "" else gr_Namespace ref +:+ String "/" "" +:+ gr_Name ref).
  { intros ref [->|C]; [done|]. unfold gkey, RateTier.qualifiedName, incomplete in *. by apply orb_false_iff in C as [-> ->]. }
  rewrite (Hk _ C1), (Hk _ C2). clear Hk. destruct ref1 as [a1 b1], ref2 as [a2 b2]. unfold no_gateway, incomplete in *. cbn in *.
  destruct C1 as [[= -> ->]|[C1 _]%orb_false_iff], C2 as [[= -> ->]|[C2 _]%orb_false_iff]; rewrite ?C1, ?C2; cbn; intros E; try done.
  - by destruct a2.
  - by destruct a1.
  - by destruct (str_split_unique "/" a1 b1 a2 b2 P1 P2) as [-> ->].
Qed.

(** What the loop knows: who was skipped, and which Gateways the route has. *)
Definition check_inv (cl : Cluster) (route : Key) (st : GatewayCheck) : Prop :=
  (∀ ns, ns ∈ validatedTenantNamespaces st → bool_decide (skippedNamespaces st !! ns = None) = on_route cl route ns) ∧
  (∀ ns, ns ∉ validatedTenantNamespaces st → skippedNamespaces st !! ns = None) ∧
  (∀ ns ref ov, gateway_of cl ns = HasGateway ref → validatedGateways st !! gkey ref = Some ov →
     on_gateway cl route ref = match ov with None => true | Some _ => false end).

Lemma check_step cl route st ns text :
  check_inv cl route st → ns ∉ validatedTenantNamespaces st → on_route cl route ns = false →
  check_inv cl route (skip ns text (checked ns st)).
Proof.
  intros (H1 & H2 & H3) Hns Hr. split_and!; cbn; [| |done].
  - intros ns' Hin. destruct (decide (ns' = ns)) as [->|Hne]; [by rewrite lookup_insert_eq|].
    rewrite lookup_insert_ne by done. apply H1. set_solver.
  - intros ns' Hnot. rewrite lookup_insert_ne by set_solver. apply H2. set_solver.
Qed.
Lemma check_pass cl route st ns :
  check_inv cl route st → ns ∉ validatedTenantNamespaces st → on_route cl route ns = true →
  check_inv cl route (checked ns st).
Proof.
  intros (H1 & H2 & H3) Hns Hr. split_and!; cbn; [| |done].
  - intros ns' Hin. destruct (decide (ns' = ns)) as [->|Hne]; [by rewrite (H2 ns Hns)|]. apply H1. set_solver.
  - intros ns' Hnot. apply H2. set_solver.
Qed.
Lemma check_gateway_known cl route st ns ref e :
  plain_gateways cl → gateway_of cl ns = HasGateway ref → check_inv cl route st →
  on_gateway cl route ref = match e with None => true | Some _ => false end →
  check_inv cl route (gateway_result (gkey ref) e st).
Proof.
  intros Hp Href (H1 & H2 & H3) He. split_and!; cbn; [done..|].
  intros ns' ref' ov Href'. rewrite lookup_insert_Some. intros [[E <-]|[_ H]]; [|by eapply H3].
  by rewrite <- (gkey_inj _ _ _ _ _ Hp Href Href' E).
Qed.

Lemma check_gateway_reads cl model route r sub st :
  plain_gateways cl → cl KHTTPRoute !! route = Some r → (length (ParentRefs (body r)) ≤ maxHTTPRouteParentRefs)%nat →
  gateway_of cl (Namespace (meta sub)) ≠ Unresolved → check_inv cl route st →
  reads (check_gateway model route sub st) cl (λ x, ∃ st', x = Ok st' ∧ check_inv cl route st'
    ∧ validatedTenantNamespaces st' = {[Namespace (meta sub)]} ∪ validatedTenantNamespaces st).
Proof.
  intros Hp Hr Hlen Hns Hi. unfold check_gateway. set (ns := Namespace (meta sub)) in *.
  case_bool_decide as Hin; [apply reads_ret; eexists; split_and!; [done..|set_solver]|].
  assert (Hon : on_route cl route ns =
    match gateway_of cl ns with HasGateway ref => on_gateway cl route ref | _ => false end) by done.
  apply reads_bind. eapply reads_mono; [apply gateway_reads|]. intros g Hg.
  destruct (gateway_of cl ns) as [ref| |] eqn:Egw; [|destruct Hg as (e & -> & He)|done].
  - subst g. change (RateTier.qualifiedName _ _) with (gkey ref).
    change (validatedGateways (checked ns st)) with (validatedGateways st).
    destruct (validatedGateways st !! gkey ref) as [[e|]|] eqn:Ek.
    + apply reads_ret. eexists. split_and!; [done| |done].
      apply check_step; [done..|]. rewrite Hon. by apply (proj2 (proj2 Hi) _ _ _ Egw Ek).
    + apply reads_ret. eexists. split_and!; [done| |done].
      apply check_pass; [done..|]. rewrite Hon. by apply (proj2 (proj2 Hi) _ _ _ Egw Ek).
    + apply reads_bind. eapply reads_mono; [eapply validate_reads; [done|done|by eapply gateway_complete]|].
      intros v Hv. apply reads_ret. destruct (on_gateway cl route ref) eqn:Eon.
      * subst v. eexists. split_and!; [done| |done].
        eapply check_gateway_known; [done..| |by rewrite Eon]. apply check_pass; [done..|]. by rewrite Hon.
      * destruct Hv as (e & -> & ->). eexists. split_and!; [done| |done].
        change (skip ns ?t (gateway_result ?g ?v (checked ns st))) with (gateway_result g v (skip ns t (checked ns st))).
        eapply check_gateway_known; [done..| |by rewrite Eon]. apply check_step; [done..|]. by rewrite Hon.
  - apply reads_ret. rewrite He. eexists. split_and!; [done| |done]. apply check_step; [done..|]. by rewrite Hon.
Qed.

Lemma check_gateways_reads cl model route r subs st :
  plain_gateways cl → cl KHTTPRoute !! route = Some r → (length (ParentRefs (body r)) ≤ maxHTTPRouteParentRefs)%nat →
  (∀ s, s ∈ subs → gateway_of cl (Namespace (meta s)) ≠ Unresolved) → check_inv cl route st →
  reads (check_gateways model route subs st) cl (λ x, ∃ st', x = Ok st' ∧ check_inv cl route st'
    ∧ validatedTenantNamespaces st ⊆ validatedTenantNamespaces st'
    ∧ ∀ s, s ∈ subs → Namespace (meta s) ∈ validatedTenantNamespaces st').
Proof.
  intros Hp Hr Hlen. revert st. induction subs as [|s subs IH]; intros st Hs Hi; cbn [check_gateways].
  { apply reads_ret. eexists. split_and!; [done..|]. by intros s Hno%elem_of_nil. }
  apply reads_bind_ok. eapply reads_mono; [eapply check_gateway_reads; [done..|apply Hs; left|done]|].
  intros x (st1 & -> & Hi1 & E1). eapply reads_mono; [apply IH; [|done]|].
  { intros s' Hs'. apply Hs. by right. }
  intros x (st' & -> & Hi' & Hsub & Hall). eexists. split_and!; [done..|set_solver|].
  intros s' [->|Hs']%elem_of_cons; [set_solver|by apply Hall].
Qed.

Lemma validate_gateways_reads cl model route r subs :
  plain_gateways cl → cl KHTTPRoute !! route = Some r → (length (ParentRefs (body r)) ≤ maxHTTPRouteParentRefs)%nat →
  (∀ s, s ∈ subs → gateway_of cl (Namespace (meta s)) ≠ Unresolved) →
  reads (validateSubscriptionTenantGatewaysForRoute model route subs) cl
    (λ x, x = Ok (List.filter (λ s, on_route cl route (Namespace (meta s))) subs)).
Proof.
  intros Hp Hr Hlen Hs. apply reads_bind_ok. eapply reads_mono; [eapply check_gateways_reads; [done..|]|].
  { split_and!; cbn; [set_solver|done|]. intros ns ref ov _ H. by rewrite lookup_empty in H. }
  intros x (st & -> & (H1 & _ & _) & _ & Hall). apply reads_ret. f_equal.
  apply filter_ext_in. intros s Hin. apply H1, Hall. by apply list_elem_of_In.
Qed.

(** ** Deletion *)

Lemma delete_loop model cl0 l cl :
  NoDup (map (key_of) l) →
  (∀ p, p ∈ l → cl0 KTRLP !! key_of p = Some p ∧ has_labels (model_labels model) (meta p)) →
  policies_only cl0 cl →
  (∀ key, key ∈ map key_of l → cl KTRLP !! key = cl0 KTRLP !! key) →
  always (for_each_ok delete_policy l) cl (λ r cl', r = Ok tt ∧ policies_only cl0 cl'
    ∧ (∀ key, key ∉ map key_of l → cl' KTRLP !! key = cl KTRLP !! key)
    ∧ ∀ p, p ∈ l → if isManaged (meta p) then (Finalizers (meta p) = [] → cl' KTRLP !! key_of p = None)
                   else cl' KTRLP !! key_of p = Some p).
Proof.
  revert cl. induction l as [|p l IH]; intros cl Hnd Hl Hpo Hsame; cbn [for_each_ok].
  { split_and!; [done..|]. by intros p Hno%elem_of_nil. }
  cbn [map] in Hnd. apply NoDup_cons in Hnd as [Hp Hnd].
  destruct (Hl p) as [Hstored Hlab]; [left|].
  assert (Hcl : cl KTRLP !! key_of p = Some p) by (rewrite Hsame; [done|left]).
  (* the rest, from any cluster that differs from [cl] at this policy only *)
  assert (Hrest : ∀ cl1, policies_only cl0 cl1 → (∀ key, key ≠ key_of p → cl1 KTRLP !! key = cl KTRLP !! key) →
    (if isManaged (meta p) then (Finalizers (meta p) = [] → cl1 KTRLP !! key_of p = None) else cl1 KTRLP !! key_of p = Some p) →
    always (for_each_ok delete_policy l) cl1 (λ r cl', r = Ok tt ∧ policies_only cl0 cl'
      ∧ (∀ key, key ∉ map key_of (p :: l) → cl' KTRLP !! key = cl KTRLP !! key)
      ∧ ∀ q, q ∈ p :: l → if isManaged (meta q) then (Finalizers (meta q) = [] → cl' KTRLP !! key_of q = None)
                          else cl' KTRLP !! key_of q = Some q)).
  { intros cl1 Hpo1 Hne Hat. eapply always_weaken.
    - apply IH; [done| |done|].
      + intros q Hq. apply Hl. by right.
      + intros key Hk. rewrite Hne; [apply Hsame; by right|]. intros ->. done.
    - intros r cl' (-> & Hpo' & Hout & Hin). split_and!; [done..| |].
      + intros key Hk. cbn [map] in Hk. apply not_elem_of_cons in Hk as [Hk1 Hk2]. by rewrite Hout, Hne.
      + intros q [->|Hq]%elem_of_cons; [|by apply Hin]. pose proof (Hout (key_of p) Hp) as E. cbn in E, Hat |- *. rewrite E. exact Hat. }
  apply always_bind_ok. unfold delete_policy. destruct (isManaged (meta p)) eqn:Em; cbn [negb].
  - apply always_seq. intros x cl1 Hx. cbn [replies] in Hx.
    rewrite Hcl in Hx.
    destruct Hx as [-> Hx]. cbn [ignore_not_found map_err always]. apply Hrest.
    + intros k Hk. rewrite <- Hpo by done. case_bool_decide; [by apply Hx|].
      destruct Hx as (o & _ & _ & _ & Hch). by apply Hch.
    + intros key Hk. case_bool_decide; [by apply Hx|]. destruct Hx as (o & _ & _ & _ & Hch). by apply Hch.
    + intros Hf. rewrite bool_decide_eq_true_2 in Hx by exact Hf. apply Hx.
  - cbn [always]. by apply Hrest.
Qed.

Lemma delete_model_always cl model :
  well_stored cl → always (deleteModelTRLP model) cl (λ r cl', r = Ok tt ∧ swept cl model cl').
Proof.
  intros Hw. unfold deleteModelTRLP. apply always_seq. intros x cl1 [-> (l & -> & Hnd & Hl)].
  cbn [tolerate_absent always].
  assert (Hst : ∀ p : TRLP, p ∈ l → cl KTRLP !! key_of p = Some p ∧ has_labels (model_labels model) (meta p)).
  { intros p Hp. apply Hl in Hp as [[key Hk] [_ Hlab]]. split; [|done]. rewrite <- (Hw _ _ _ Hk) in Hk. exact Hk. }
  eapply always_weaken; [apply (delete_loop model cl); [|exact Hst|done|done]|].
  { apply (NoDup_fmap_2_strong (key_of)); [|exact Hnd]. intros p q Hp Hq E.
    destruct (Hst p Hp) as [E1 _], (Hst q Hq) as [E2 _]. rewrite E in E1. congruence. }
  intros r cl' (-> & Hpo & Hout & Hin). split; [done|]. split; [done|]. intros key.
  destruct (decide (key ∈ map (key_of) l)) as [Hk|Hk].
  - apply list_elem_of_fmap in Hk as (p & -> & Hp). destruct (Hst p Hp) as [E Hlab]. specialize (Hin p Hp).
    rewrite E. unfold generated_for. destruct (isManaged (meta p)) eqn:Em.
    + split; [tauto|]. intros _. exact Hin.
    + split; [intros _; exact Hin|]. by intros [_ H].
  - pose proof (Hout key Hk) as Eo. destruct (cl KTRLP !! key) as [p|] eqn:E; [|exact Eo]. split; [intros _; exact Eo|].
    intros [Hlab _]. destruct Hk. rewrite <- (Hw KTRLP _ _ E). apply list_elem_of_fmap. eexists. split; [done|].
    apply Hl. split; [by eexists|]. split; [by left|done].
Qed.

(** ** Writing *)

Context `{CL : !ControllerUtilLaws}.

(** Nobody but a route controls the policy. *)
Definition route_owned (m : ObjectMeta) : Prop := ∀ ref, ref ∈ OwnerReferences m → controls ref = true → route_controls ref = true.
Definition controlled_by (r : HTTPRoute) (m : ObjectMeta) : Prop :=
  ∃ ref, List.find controls (OwnerReferences m) = Some ref ∧ or_Kind ref = "HTTPRoute"
    ∧ or_Name ref = Name (meta r) ∧ or_UID ref = UID (meta r).

Lemma find_none {A} (f : A → bool) l : (∀ x, x ∈ l → f x = false) → List.find f l = None.
Proof.
  induction l as [|x l IH]; cbn; intros H; [done|]. rewrite (H x) by left. apply IH. intros y Hy. apply H. by right.
Qed.
Lemma set_owner_ok (r : HTTPRoute) (p : TRLP) :
  Namespace (meta r) = Namespace (meta p) → route_owned (meta p) →
  ∃ owned, setHTTPRouteControllerOwner r p = Ok owned ∧ body owned = body p
    ∧ meta owned = set_owners (OwnerReferences (meta owned)) (meta p) ∧ controlled_by r (meta owned).
Proof.
  intros Hns Ho. unfold setHTTPRouteControllerOwner. set (m := set_owners _ (meta p)).
  destruct (set_controller_free "HTTPRoute" (meta r) m) as [m' E]; [done| |].
  { apply find_none. intros ref. subst m. cbn. rewrite elem_filter. intros [Hin Hn].
    destruct (controls ref) eqn:Ec; [|done]. by rewrite (Ho ref Hin Ec) in Hn. }
  rewrite E. destruct (set_controller_reference _ _ _ _ E) as (Em & ref & Hf & Hk & _ & Hn & Hu).
  eexists. split; [done|]. split; [done|]. split; [cbn; rewrite Em; done|]. by exists ref.
Qed.

Lemma merged_labels d p : Labels (meta (merged d p)) = d_Labels d ∪ Labels (meta p).
Proof. done. Qed.
Lemma merged_annotations d p : Annotations (meta (merged d p)) = d_Annotations d ∪ Annotations (meta p).
Proof. done. Qed.
Lemma merged_name d p : Name (meta (merged d p)) = Name (meta p).
Proof. done. Qed.
Lemma merged_namespace d p : Namespace (meta (merged d p)) = Namespace (meta p).
Proof. done. Qed.
Lemma retry_ok n p cl (Q : Cluster → Prop) :
  always p cl (λ r cl', r = Ok tt ∧ Q cl') → always (retry_conflict n p) cl (λ r cl', r = Ok tt ∧ Q cl').
Proof.
  intros Hp. destruct n; cbn [retry_conflict]; apply always_seq; (eapply always_weaken; [exact Hp|]); by intros r cl' [-> HQ].
Qed.

Section Write.
Context (cl : Cluster) (model : Key) (r : HTTPRoute) (d : Desired).
Hypothesis key : Namespace (meta r) = (d_Key d).1.
Hypothesis stored_policies : ∀ p, cl KTRLP !! d_Key d = Some p → Namespace (meta p) = (d_Key d).1.
Hypothesis owned_by_route : ∀ p, cl KTRLP !! d_Key d = Some p → route_owned (meta p).
Hypothesis keyed : ∀ p, cl KTRLP !! d_Key d = Some p → key_of p = d_Key d.

Definition old_meta : ObjectMeta :=
  match (cl KTRLP !! d_Key d : option TRLP) with Some p => meta p | None => new_meta (d_Key d).1 (d_Key d).2 end.
Lemma changes_written p cl' :
  changes cl KTRLP (d_Key d) (Some p) cl' → tp_Spec (body p) = Generated (d_Spec d) →
  Labels (meta p) = d_Labels d ∪ Labels old_meta → Annotations (meta p) = d_Annotations d ∪ Annotations old_meta →
  controlled_by r (meta p) → written cl r d cl'.
Proof. intros (H1 & H2 & H3) Hs Hl Ha Hc. split; [exact H3|]. split; [exact H2|]. by exists p. Qed.

Lemma attempt_always (p : TRLP) :
  cl KTRLP !! d_Key d = Some p → isManaged (meta p) = true →
  always (update_attempt r d) cl (λ x cl', x = Ok tt ∧ written cl r d cl').
Proof.
  intros Hp Hm. apply always_seq. intros x cl' [-> Hx]. rewrite Hp in Hx. subst x. cbn [always]. rewrite Hm. cbn [negb].
  destruct (set_owner_ok r p) as (owned & E & Eb & Em & Hc); [by rewrite key, (stored_policies _ Hp)|by apply owned_by_route|].
  rewrite E. cbv zeta.
  assert (Hold : old_meta = meta p) by (unfold old_meta; by rewrite Hp).
  assert (Hlab : Labels (meta (merged d owned)) = d_Labels d ∪ Labels old_meta) by (rewrite merged_labels, Em, Hold; done).
  assert (Hann : Annotations (meta (merged d owned)) = d_Annotations d ∪ Annotations old_meta) by (rewrite merged_annotations, Em, Hold; done).
  assert (Hcm : controlled_by r (meta (merged d owned))) by exact Hc.
  case_bool_decide as Hsame.
  - destruct Hsame as [Hmeta Hspec]. cbn [always]. split; [done|].
    apply (changes_written p); [by rewrite <- Hp|by rewrite <- Hspec|by rewrite <- Hmeta..].
  - apply always_seq. intros x cl' Hx. cbn [replies] in Hx.
    assert (Hkey : key_of (merged d owned) = d_Key d).
    { rewrite <- (keyed _ Hp). unfold key_of. rewrite merged_name, merged_namespace, Em. done. }
    rewrite Hkey, Hp in Hx. destruct Hx as (o & -> & (Hn1 & Hn2 & Hl & Ha & _ & Ho) & [Hs _] & Hch). cbn [always]. split; [done|].
    apply (changes_written o); [done|by rewrite Hs|by rewrite Hl|by rewrite Ha|].
    destruct Hcm as (ref & Hf & Hr). exists ref. by rewrite Ho.
Qed.

Lemma write_always :
  opted_out cl (d_Key d) = false →
  always (write_policy model r d) cl (λ x cl', x = Ok tt ∧ written cl r d cl').
Proof.
  intros Ho. pose proof attempt_always as Hat. unfold write_policy.
  destruct (set_owner_ok r (new_policy d)) as (owned & E & Eb & Em & Hc); [by rewrite key|by intros ref Hno%elem_of_nil|].
  rewrite E. apply always_seq. intros x cl' [-> Hx]. cbn [always]. unfold opted_out in Ho.
  destruct (cl KTRLP !! d_Key d) as [p|] eqn:Hp.
  - subst x. apply negb_false_iff in Ho. apply always_seq. eapply always_weaken; [by apply retry_ok, (Hat p)|].
    by intros x cl' [-> Hw].
  - destruct Hx as (e & -> & ->). cbn [negb]. apply always_seq. intros x cl' Hx. cbn [replies] in Hx.
    assert (Hkey : key_of owned = d_Key d) by (unfold key_of; rewrite Em; cbn; by destruct (d_Key d)).
    rewrite Hkey, Hp in Hx. destruct Hx as (o & -> & (Hn1 & Hn2 & Hl & Ha & _ & Hown) & [Hs _] & Hch). cbn [always]. split; [done|].
    assert (Hold : old_meta = new_meta (d_Key d).1 (d_Key d).2) by (unfold old_meta; by rewrite Hp).
    apply (changes_written o); [done|by rewrite Hs, Eb|rewrite Hl, Em, Hold; cbn; by rewrite (right_id_L ∅ (∪))
      |rewrite Ha, Em, Hold; cbn; by rewrite (right_id_L ∅ (∪))|].
    destruct Hc as (ref & Hf & Hr). exists ref. by rewrite Hown.
Qed.
End Write.


(** ** The reconciliation of one model *)

Lemma selected_reads cl model :
  reads (selectedGatewayForModel model) cl (λ x, x = Ok
    match (cl KModelRef !! model : option MaaSModelRef) with
    | Some m => let st := mo_Status (body m) in
        if String.eqb (HTTPRouteGatewayName st) "" || String.eqb (HTTPRouteGatewayNamespace st) "" then None
        else Some (HTTPRouteGatewayNamespace st, HTTPRouteGatewayName st)
    | None => None
    end).
Proof.
  apply reads_bind, reads_get. destruct (cl KModelRef !! model) as [m|].
  - apply reads_ret. cbv zeta. destruct (_ || _); done.
  - intros e He. apply reads_ret. by rewrite He.
Qed.
Lemma identity_reads cl model r : reads (gatewayIdentityForTRLP model r) cl (λ x, x = Ok (gateway_identity cl model r)).
Proof.
  apply reads_bind_ok. eapply reads_mono; [apply selected_reads|]. intros x ->. apply reads_ret. f_equal.
  unfold gateway_identity. destruct (cl KModelRef !! model) as [m|]; [|done]. cbv zeta. destruct (_ || _); done.
Qed.

Section Model.
Context (cl : Cluster) (model route : Key) (r : HTTPRoute).
Hypothesis stored_well : well_stored cl.
Hypothesis route_stored : cl KHTTPRoute !! route = Some r.
Hypothesis route_owns : ∀ p, cl KTRLP !! policy_key model route = Some p → route_owned (meta p).

Lemma route_namespace : Namespace (meta r) = route.1.
Proof. exact (f_equal fst (stored_well _ _ _ route_stored)). Qed.

(** The policy is written for the subscriptions that count, or swept. *)
Lemma aggregate_always subs :
  opted_out cl (policy_key model route) = false → lists cl KSubscription (contributes cl model route) subs →
  always (match subs with
          | [] =>
              d ← deleteModelTRLP model;
              Ret (map_err (wrap_err ("failed to delete TokenRateLimitPolicy for model " +:+ shown model)) d)
          | _ => aggregate model route subs
          end) cl (λ x cl', x = Ok tt ∧ policy_spec cl model route r cl').
Proof.
  intros Hopt Hsubs.
  assert (Hempty : RateTier.collect_subs rateLimitIdentityEpoch model.1 model.2 (map rate_sub subs) = [] →
    always (deleteModelTRLP model) cl (λ x cl', x = Ok tt ∧ policy_spec cl model route r cl')).
  { intros E. eapply always_weaken; [by apply delete_model_always|]. intros x cl' [-> Hs]. split; [done|].
    unfold policy_spec. rewrite Hopt. exists subs. by rewrite E. }
  assert (Hagg : always (aggregate model route subs) cl (λ x cl', x = Ok tt ∧ policy_spec cl model route r cl')).
  { unfold aggregate. apply always_reads_ok with r.
    { apply reads_bind. eapply reads_get_some; [exact route_stored|]. by apply reads_ret. }
    eapply always_reads; [apply identity_reads|]. intros x ->.
    destruct (RateTier.collect_subs _ _ _ _) as [|i infos] eqn:Ei; [by apply Hempty|].
    pose proof (RateTierFacts.collected_wf rateLimitIdentityEpoch model.1 model.2 (map rate_sub subs)) as Hwf. rewrite Ei in Hwf.
    destruct (RateTierFacts.grouped_limits_spec _ Hwf) as (limits & names & Eb & _). rewrite Eb.
    eapply always_weaken; [apply write_always; cbn [d_Key desired_policy fst]|].
    - exact route_namespace.
    - intros p Hp. exact (f_equal fst (stored_well _ _ _ Hp)).
    - exact route_owns.
    - intros p Hp. exact (stored_well _ _ _ Hp).
    - exact Hopt.
    - intros x cl' [-> Hw]. split; [done|]. unfold policy_spec. rewrite Hopt. exists subs. split; [done|]. rewrite Ei.
      by exists limits, names. }
  destruct subs as [|s subs]; [|exact Hagg]. apply always_seq. eapply always_weaken; [by apply Hempty|].
  by intros x cl' [-> Hs].
Qed.

End Model.

(** C23: on a cluster that answers every call, reconciling a model leaves an
    opted-out policy and everything else alone, and otherwise makes the policy
    of the model's route exactly the one computed from all live subscriptions
    to the model in tenant namespaces whose tenant has its Gateway on the
    route: its specification is theirs, the route controls it, metadata others
    wrote stays, and without any such subscription with a valid budget every
    generated policy of the model is gone. *)
Theorem policy_refines (cl : Cluster) (model route : Key) (r : HTTPRoute) :
  well_stored cl → plain_gateways cl →
  (∀ s, stored cl KSubscription s → subscribed cl model s → gateway_of cl (Namespace (meta s)) ≠ Unresolved) →
  reads (findHTTPRouteForModel model) cl (λ x, x = Ok route) → cl KHTTPRoute !! route = Some r →
  (length (ParentRefs (body r)) ≤ maxHTTPRouteParentRefs)%nat →
  (∀ p, cl KTRLP !! policy_key model route = Some p → route_owned (meta p)) →
  always (reconcileTRLPForModel model) cl (λ x cl', x = Ok tt ∧ policy_spec cl model route r cl').
Proof.
  intros Hw Hp Hns Hroute Hr Hlen Ho. unfold reconcileTRLPForModel.
  eapply always_reads; [apply find_all_reads|]. intros x (l & -> & Hl).
  eapply always_reads; [apply filter_subscriptions_reads|]. intros allowed ->.
  eapply always_reads; [exact Hroute|]. intros x ->.
  set (f := λ o : MaaSSubscription, allowed_namespace cl (Namespace (meta o))).
  assert (Hsub : lists cl KSubscription (subscribed cl model) (List.filter f l)).
  { eapply lists_ext; [|apply lists_filter, Hl]. intros o. unfold subscribed, f. tauto. }
  apply always_reads_ok with (List.filter (λ s, on_route cl route (Namespace (meta s))) (List.filter f l)).
  { eapply validate_gateways_reads; [done..|]. intros s Hs. apply Hsub in Hs as [[key Hk] Hs]. apply Hns; [|done].
    unfold stored. by rewrite (Hw _ _ _ Hk). }
  assert (Hcon : lists cl KSubscription (contributes cl model route)
    (List.filter (λ s, on_route cl route (Namespace (meta s))) (List.filter f l))) by by apply lists_filter.
  pose proof (aggregate_always cl model route r Hw Hr Ho (List.filter (λ s, on_route cl route (Namespace (meta s))) (List.filter f l))) as Hagg.
  apply always_seq. intros x cl' [-> Hx]. cbn [always]. unfold policy_spec in *. unfold opted_out in *.
  change (route.1, policyName model.2) with (policy_key model route) in Hx.
  destruct (cl KTRLP !! policy_key model route) as [p|].
  - subst x. destruct (isManaged (meta p)); cbn [negb] in *; [by apply Hagg|by cbn].
  - destruct Hx as (e & -> & ->). by apply Hagg.
Qed.

(** ** Without a route *)

(** Without a route, a model that is gone, or that nobody subscribes to, loses
    its policies; a model whose backend is not ready keeps them. *)
Lemma unrouted_always (cl : Cluster) (model : Key) (e : GoErr) :
  well_stored cl → is_sentinel ErrModelNotFound e = true ∨ is_sentinel ErrHTTPRouteNotFound e = true →
  reads (findHTTPRouteForModel model) cl (λ x, x = Err e) →
  always (reconcileTRLPForModel model) cl (λ x cl', x = Ok tt ∧ unrouted_spec cl model e cl').
Proof.
  intros Hw He Hroute. unfold reconcileTRLPForModel.
  eapply always_reads; [apply find_all_reads|]. intros x (l & -> & Hl).
  eapply always_reads; [apply filter_subscriptions_reads|]. intros allowed ->.
  eapply always_reads; [exact Hroute|]. intros x ->.
  set (subs := List.filter _ l).
  assert (Hsub : lists cl KSubscription (subscribed cl model) subs).
  { eapply lists_ext; [|apply lists_filter, Hl]. intros o. unfold subscribed. tauto. }
  unfold route_unresolved. destruct (is_sentinel ErrModelNotFound e) eqn:Em; cbn [orb].
  { apply always_seq. eapply always_weaken; [by apply delete_model_always|]. intros x cl' [-> Hs]. split; [done|].
    split; [intros _; exact Hs|]. split; [congruence|intros _; exact Hs]. }
  destruct He as [He|He]; [congruence|]. destruct subs as [|s subs']; cbn [length Nat.eqb].
  - apply always_seq. eapply always_weaken; [by apply delete_model_always|]. intros x cl' [-> Hs]. split; [done|].
    split; [intros _; exact Hs|]. split; [|intros _; exact Hs]. intros _ (s & Hst & Hss). exfalso. apply (not_elem_of_nil s), Hsub. split; [by eexists|done].
  - rewrite He. split; [done|]. split; [congruence|]. split; [done|]. intros Hno. exfalso. apply Hno.
    destruct (proj1 (proj2 Hsub s)) as [[key Hk] Hss]; [left|]. exists s. split; [|done].
    unfold stored. by rewrite (Hw _ _ _ Hk).
Qed.

(** ** The route of an external model the inference controller does not hold *)

Lemma external_route_reads (cl : Cluster) (model : Key) (m : MaaSModelRef) :
  cl KModelRef !! model = Some m → DeletionTimestamp (meta m) = None → ModelKind (body m) = "ExternalModel" →
  cl KExternalModel !! model_at m = None →
  let route := (Namespace (meta m), ExternalModelResourceName (ModelName (body m))) in
  is_Some (cl KHTTPRoute !! route) → reads (findHTTPRouteForModel model) cl (λ x, x = Ok route).
Proof.
  intros Hm Hd Hk He route [r Hr]. apply reads_bind. eapply reads_get_some; [exact Hm|].
  change (meta (B := MaaSModelBody) m) with (meta (B := Body KModelRef) m). rewrite bool_decide_true by exact Hd. cbn [negb].
  change (body (B := MaaSModelBody) m) with (body (B := Body KModelRef) m). rewrite Hk.
  change (GetRouteResolver "ExternalModel") with (Some external_route). cbv iota.
  apply reads_bind_ok. eapply (reads_mono _ _ (λ x, x = Ok route)).
  - apply reads_bind, reads_get. rewrite He. intros e ->. by apply reads_ret.
  - intros x ->. apply reads_bind_ok, reads_bind. eapply reads_get_some; [exact Hr|]. by apply reads_ret, reads_ret.
Qed.

End Refinement.
End SubscriptionRefinement.
