(* ===== verification/InferenceObjectives.v ===== *)
(** * InferenceObjectives: the request priority of a subscription

    [maas-controller/pkg/controller/maas/maassubscription_inferenceobjective.go]:
    one InferenceObjective for every InferencePool that serves a model of the
    subscription, and the status of each model; with [truncateMessage] of
    [self_deployment_controller.go]. *)

From S2P Require Import Prelude GoStrings Sha256 RateTier Kube AITenant TenantLookup ModelRoutes SubscriptionPolicy.
From Stdlib Require String.
Local Open Scope string_scope.

Module InferenceObjectives.
Import Kube AITenant TenantLookup ModelRoutes SubscriptionPolicy.

(** ** Messages *)

(** [utf8.ValidString]: the number of bytes of the first rune, if it is one. *)
Definition continuation (c : ascii) : bool := in_range 128 191 c.
Definition first_rune (s : string) : option nat :=
  match s with
  | EmptyString => None
  | String a r =>
      let rest n := if str_all continuation (str_take n r) && (n <=? String.length r)%nat then Some (S n) else None in
      let second lo hi := match r with String b _ => in_range lo hi b | EmptyString => false end in
      if in_range 0 127 a then Some 1%nat
      else if in_range 194 223 a then rest 1%nat
      else if in_range 224 224 a then if second 160%Z 191%Z then rest 2%nat else None
      else if in_range 237 237 a then if second 128%Z 159%Z then rest 2%nat else None
      else if in_range 225 239 a then rest 2%nat
      else if in_range 240 240 a then if second 144%Z 191%Z then rest 3%nat else None
      else if in_range 244 244 a then if second 128%Z 143%Z then rest 3%nat else None
      else if in_range 241 243 a then rest 3%nat
      else None
  end.
Fixpoint valid_utf8_within (fuel : nat) (s : string) : bool :=
  match s, fuel with
  | EmptyString, _ => true
  | _, O => false
  | _, S fuel => match first_rune s with Some n => valid_utf8_within fuel (str_drop n s) | None => false end
  end.
Definition ValidString (s : string) : bool := valid_utf8_within (String.length s) s.

(** The ellipsis, three bytes. *)
Definition ellipsis : string := String "226" (String "128" (String "166" "")).
(** The loop that walks back to valid UTF-8, from a prefix of [n] bytes. *)
Fixpoint longest_valid (n : nat) (s : string) : string :=
  let t := str_take n s in
  if ValidString t then t else match n with O => "" | S n => longest_valid n s end.
Definition truncateMessage (msg : string) (maxLen : Z) : string :=
  if (len msg <=? maxLen)%Z then msg
  else longest_valid (Z.to_nat (maxLen - len ellipsis)) msg +:+ ellipsis.
Definition truncateConditionMessage (msg : string) : string := truncateMessage msg 32768.
Definition flowControlMessageMaxLen : Z := 1024.

(** ** Reasons *)

Definition FlowControlReasonObjectiveReconciled : string := "ObjectiveReconciled".
Definition FlowControlReasonPriorityUnset : string := "PriorityUnset".
Definition FlowControlReasonNotApplicable : string := "NotApplicable".
Definition FlowControlReasonUnmanaged : string := "Unmanaged".
Definition FlowControlReasonPoolPending : string := "PoolPending".
Definition FlowControlReasonObjectivePending : string := "ObjectivePending".
Definition FlowControlReasonUnsupported : string := "Unsupported".
Definition FlowControlReasonNotOnTenantGateway : string := "NotOnTenantGateway".
Definition FlowControlReasonObjectiveConflict : string := "ObjectiveConflict".
Definition FlowControlReasonAPIUnavailable : string := "InferenceObjectiveAPIUnavailable".
Definition FlowControlReasonReconcileFailed : string := "ReconcileFailed".
Definition one_of (l : list string) (s : string) : bool := existsb (String.eqb s) l.
Definition flowControlReasonReady (reason : string) : bool :=
  one_of [FlowControlReasonObjectiveReconciled; FlowControlReasonPriorityUnset; FlowControlReasonNotApplicable;
          FlowControlReasonUnmanaged] reason.
Definition flowControlConditionReasons : list string :=
  [FlowControlReasonReconcileFailed; FlowControlReasonObjectiveConflict; FlowControlReasonNotOnTenantGateway;
   FlowControlReasonUnsupported; FlowControlReasonAPIUnavailable; FlowControlReasonObjectivePending;
   FlowControlReasonPoolPending].
Definition flowControlDegrades (reason : string) : bool :=
  one_of [FlowControlReasonReconcileFailed; FlowControlReasonObjectiveConflict; FlowControlReasonNotOnTenantGateway;
          FlowControlReasonUnsupported] reason.

(** A model of the subscription; the objective's key is [("", "")] when no name
    could be derived. *)
Record modelFlowControl := { mf_Status : ModelFlowControlStatus; Objective : Key }.
Definition setReason (reason message : string) (m : modelFlowControl) : modelFlowControl :=
  let st := mf_Status m in
  {| Objective := Objective m;
     mf_Status := {| fc_Name := fc_Name st; fc_Namespace := fc_Namespace st; fc_InferencePool := fc_InferencePool st;
       fc_ObjectiveName := fc_ObjectiveName st; fc_Ready := flowControlReasonReady reason; fc_Reason := reason;
       fc_Message := truncateMessage message flowControlMessageMaxLen |} |}.
Definition new_model (key : Key) : modelFlowControl := {|
  Objective := ("", "");
  mf_Status := {| fc_Name := key.2; fc_Namespace := key.1; fc_InferencePool := None; fc_ObjectiveName := "";
                  fc_Ready := false; fc_Reason := ""; fc_Message := "" |} |}.
Definition set_pool (p : PoolRef) (m : modelFlowControl) : modelFlowControl :=
  let st := mf_Status m in
  {| Objective := Objective m;
     mf_Status := {| fc_Name := fc_Name st; fc_Namespace := fc_Namespace st; fc_InferencePool := Some p;
       fc_ObjectiveName := fc_ObjectiveName st; fc_Ready := fc_Ready st; fc_Reason := fc_Reason st;
       fc_Message := fc_Message st |} |}.
Definition set_objective (key : Key) (m : modelFlowControl) : modelFlowControl :=
  let st := mf_Status m in
  {| Objective := key;
     mf_Status := {| fc_Name := fc_Name st; fc_Namespace := fc_Namespace st; fc_InferencePool := fc_InferencePool st;
       fc_ObjectiveName := key.2; fc_Ready := fc_Ready st; fc_Reason := fc_Reason st; fc_Message := fc_Message st |} |}.

(** ** Ownership *)

Definition inferenceObjectiveOwnerLabels : gmap string string :=
  <["app.kubernetes.io/component" := "inference-objective"]> generated_labels.
Definition hasInferenceObjectiveOwnerLabels (labels : gmap string string) : bool :=
  bool_decide (map_Forall (λ k v, value labels k = v) inferenceObjectiveOwnerLabels).
Definition labelSubscriptionNamespace : string := "maas.opendatahub.io/subscription-namespace".
Definition labelSubscriptionUID : string := "maas.opendatahub.io/subscription-uid".
Definition annotationSubscriptionName : string := "maas.opendatahub.io/subscription-name".
Definition annotationInferenceObjTenantName : string := "maas.opendatahub.io/tenant-name".

Notation InferenceObjective := (Object (Body KInferenceObjective)).

Record desiredObjective := { Pool : PoolRef; TenantName : string; Priority : Z; Models : list string }.

Definition inferenceObjectiveSpec (d : desiredObjective) : InferenceObjectiveBody :=
  {| io_Priority := Some (Priority d); io_PoolRef := Pool d |}.
Definition objective_labels (sub : MaaSSubscription) : gmap string string :=
  <[labelSubscriptionUID := UID (meta sub)]>
  (<[labelSubscriptionNamespace := Namespace (meta sub)]> inferenceObjectiveOwnerLabels).
Definition objective_annotations (sub : MaaSSubscription) (d : desiredObjective) : gmap string string :=
  <[annotationInferenceObjTenantName := TenantName d]> {[ annotationSubscriptionName := Name (meta sub) ]}.
Definition buildInferenceObjective (sub : MaaSSubscription) (key : Key) (d : desiredObjective) : InferenceObjective := {|
  meta := set_annotations (objective_annotations sub d) (set_labels (objective_labels sub) (new_meta key.1 key.2));
  body := inferenceObjectiveSpec d |}.

(** [kmeta.ChildName] of knative.dev/pkg. *)
Class KMeta := { ChildName : string → string → string }.

Section Objectives.
Context `{TS : TenantScope} `{R : MaaSSubscriptionReconciler} `{SC : StatusConditions} `{KM : KMeta}.

Definition nul : string := String "000" "".
Definition inferenceObjectiveName (tenantName : string) (subscription pool : Key) : string :=
  let identity := join nul [tenantName; subscription.1; subscription.2; pool.1; pool.2] in
  ChildName (join "-" ["maas"; tenantName; subscription.2; pool.2]) ("-" +:+ str_take 10 (sha256_hex identity)).

Definition flowControlTenantName (namespace : string) : Prog (Res GoErr string) :=
  tenant ← fetchTenantForNamespace namespace;
  Ret (match tenant with
       | Ok t => tenant_name t
       | Err e => if isNotFound e || isNoMatch e then TenantNameFor None else Err (of_api e)
       end).

(** ** The pool of a model *)

Inductive poolResolutionReason := Pending | NotApplicable | Unsupported.
Inductive modelPoolResolution := Observed (pool : PoolRef) | NoPool (reason : poolResolutionReason) (message : string).

Definition llmisvcReadyStatus (l : Obj KLLMInferenceService) : string :=
  match List.find (λ c, String.eqb (c_Type c) "Ready") (ll_Conditions (body l)) with Some c => c_Status c | None => "" end.
Definition activeRoutingGroupMembers (group : RoutingGroup) : nat :=
  length (List.filter (λ m, negb m.1 && (0 <? m.2)%Z) (rg_Members group)).
Definition default_pool (p : PoolRef) : PoolRef := {|
  pool_Group := if String.eqb (pool_Group p) "" then "inference.networking.k8s.io" else pool_Group p;
  pool_Kind := if String.eqb (pool_Kind p) "" then "InferencePool" else pool_Kind p;
  pool_Name := pool_Name p |}.

Definition splits_traffic (l : Obj KLLMInferenceService) : option RoutingGroup :=
  match ll_Router (body l) ≫= rs_Group with
  | Some g => if (1 <? activeRoutingGroupMembers g)%nat then Some g else None
  | None => None
  end.
Definition observed_pool (l : Obj KLLMInferenceService) : modelPoolResolution :=
  let at_ := "LLMInferenceService " +:+ shown (key_of l) in
  match splits_traffic l, ll_Router (body l) ≫= rs_InferencePool with
  | Some g, _ => NoPool Unsupported (at_ +:+ " splits traffic across routing group " +:+ rg_Name g
                                     +:+ "; request priority requires a single InferencePool")
  | None, Some observed =>
      let ns := default "" (op_Namespace observed) in
      if negb (String.eqb ns "") && negb (String.eqb ns (Namespace (meta l)))
      then NoPool Unsupported ("InferencePool " +:+ ns +:+ "/" +:+ pool_Name (op_Ref observed)
             +:+ " is not in the LLMInferenceService namespace " +:+ Namespace (meta l))
      else Observed (default_pool (op_Ref observed))
  | None, None =>
      if negb (String.eqb (llmisvcReadyStatus l) ConditionTrue)
      then NoPool Pending ("waiting for " +:+ at_ +:+ " to report an InferencePool")
      else NoPool NotApplicable (at_ +:+ " is not served through an inference scheduler")
  end.

Definition resolveModelInferencePool (model : Key) : Prog (Res GoErr modelPoolResolution) :=
  m ← call (Get true KModelRef model);
  match m with
  | Err e => Ret (if isNotFound e then Ok (NoPool Pending ("MaaSModelRef " +:+ shown model +:+ " not found"))
                  else Err (wrap ("failed to get MaaSModelRef " +:+ shown model) e))
  | Ok m =>
      if negb (String.eqb (ModelKind (body m)) "LLMInferenceService")
      then Ret (Ok (NoPool NotApplicable ("model kind " +:+ ModelKind (body m) +:+ " is not served through an inference scheduler"))) else
      l ← call (Get true KLLMInferenceService (model_at m));
      Ret (match l with
           | Err e => if isNotFound e || isNoMatch e
                      then Ok (NoPool Pending ("LLMInferenceService " +:+ shown (model_at m) +:+ " not found"))
                      else Err (wrap ("failed to get LLMInferenceService " +:+ shown (model_at m)) e)
           | Ok l => Ok (observed_pool l)
           end)
  end.

(** ** The objectives a subscription needs *)

Definition warnf (reason text : string) : Prog unit :=
  call (Eventf "Warning" reason "ReconcileInferenceObjectives" text).

(** The result of [resolveFlowControl] while it is computed; the gateway and
    the tenant are looked up once. *)
Record Flow := {
  f_Models : list modelFlowControl; f_Desired : gmap Key desiredObjective; f_Complete : bool; f_Errs : list GoErr;
  f_gateway : option (Res GoErr TenantGatewayRef); f_tenant : option (Res GoErr string);
}.
Definition flow_init : Flow :=
  {| f_Models := []; f_Desired := ∅; f_Complete := true; f_Errs := []; f_gateway := None; f_tenant := None |}.
Definition add_model (m : modelFlowControl) (st : Flow) : Flow := {|
  f_Models := (f_Models st ++ [m])%list; f_Desired := f_Desired st; f_Complete := f_Complete st; f_Errs := f_Errs st;
  f_gateway := f_gateway st; f_tenant := f_tenant st |}.
Definition set_complete (b : bool) (st : Flow) : Flow := {|
  f_Models := f_Models st; f_Desired := f_Desired st; f_Complete := b; f_Errs := f_Errs st;
  f_gateway := f_gateway st; f_tenant := f_tenant st |}.
Definition add_errs (errs : list GoErr) (st : Flow) : Flow := {|
  f_Models := f_Models st; f_Desired := f_Desired st; f_Complete := f_Complete st; f_Errs := (f_Errs st ++ errs)%list;
  f_gateway := f_gateway st; f_tenant := f_tenant st |}.
Definition remember_gateway (r : Res GoErr TenantGatewayRef) (st : Flow) : Flow := {|
  f_Models := f_Models st; f_Desired := f_Desired st; f_Complete := f_Complete st; f_Errs := f_Errs st;
  f_gateway := Some r; f_tenant := f_tenant st |}.
Definition remember_tenant (r : Res GoErr string) (st : Flow) : Flow := {|
  f_Models := f_Models st; f_Desired := f_Desired st; f_Complete := f_Complete st; f_Errs := f_Errs st;
  f_gateway := f_gateway st; f_tenant := Some r |}.
Definition set_desired (key : Key) (d : desiredObjective) (st : Flow) : Flow := {|
  f_Models := f_Models st; f_Desired := <[key := d]> (f_Desired st); f_Complete := f_Complete st; f_Errs := f_Errs st;
  f_gateway := f_gateway st; f_tenant := f_tenant st |}.
Definition failed (e : GoErr) (m : modelFlowControl) (st : Flow) : Flow :=
  add_model (setReason FlowControlReasonReconcileFailed (etext e) m) (set_complete false st).

Section Resolve.
Variable sub : MaaSSubscription.
Definition prioritySet : bool := bool_decide (ss_InferencePriority (ss_Spec (body sub)) ≠ None).
Definition warn_set (reason text : string) : Prog unit := if prioritySet then warnf reason text else Ret tt.

Definition once_failed {A} (text : string) (r : Res GoErr A) (st : Flow) : Prog (Flow * Res GoErr A) :=
  match r with
  | Ok a => Ret (st, Ok a)
  | Err e =>
      let e := wrap_err (text +:+ " for namespace " +:+ Namespace (meta sub)) e in
      _ ← warn_set "InferenceObjectiveFailed" (etext e); Ret (add_errs [e] st, Err e)
  end.
Definition gateway_once (st : Flow) : Prog (Flow * Res GoErr TenantGatewayRef) :=
  match f_gateway st with
  | Some r => Ret (st, r)
  | None =>
      r ← tenantGatewayRefForNamespace (Namespace (meta sub));
      x ← once_failed "failed to resolve tenant gateway" r st;
      Ret (remember_gateway x.2 x.1, x.2)
  end.
Definition tenant_once (st : Flow) : Prog (Flow * Res GoErr string) :=
  match f_tenant st with
  | Some r => Ret (st, r)
  | None =>
      r ← flowControlTenantName (Namespace (meta sub));
      x ← once_failed "failed to resolve tenant" r st;
      Ret (remember_tenant x.2 x.1, x.2)
  end.

(** A model with a pool on the tenant's gateway. *)
Definition place_objective (key : string) (model : Key) (pool : PoolRef) (tenantName : string) (m : modelFlowControl)
    (st : Flow) : Flow :=
  let objective := (model.1, inferenceObjectiveName tenantName (key_of sub) (model.1, pool_Name pool)) in
  let m := set_objective objective m in
  match ss_InferencePriority (ss_Spec (body sub)) with
  | None =>
      add_model (setReason FlowControlReasonPriorityUnset
        "inferencePriority is unset; no InferenceObjective is created and the scheduler applies priority 0" m) st
  | Some priority =>
      let m := setReason FlowControlReasonObjectivePending "InferenceObjective is not reconciled yet" m in
      let d := match f_Desired st !! objective with
               | Some d => {| Pool := Pool d; TenantName := TenantName d; Priority := Priority d;
                              Models := (Models d ++ [key])%list |}
               | None => {| Pool := pool; TenantName := tenantName; Priority := priority; Models := [key] |}
               end in
      add_model m (set_desired objective d st)
  end.

Definition resolve_model (key : string) (st : Flow) : Prog Flow :=
  let model := match cut "/" key with Some k => k | None => (key, "") end in
  let m := new_model model in
  resolution ← resolveModelInferencePool model;
  match resolution with
  | Err e => let e := wrap_err ("model " +:+ key) e in Ret (failed e m (add_errs [e] st))
  | Ok (NoPool Pending text) => Ret (add_model (setReason FlowControlReasonPoolPending text m) st)
  | Ok (NoPool NotApplicable text) => Ret (add_model (setReason FlowControlReasonNotApplicable text m) st)
  | Ok (NoPool Unsupported text) =>
      _ ← warn_set "InferencePoolUnsupported" ("Request priority is not applied to model " +:+ key +:+ ": " +:+ text);
      Ret (add_model (setReason FlowControlReasonUnsupported text m) st)
  | Ok (Observed pool) =>
      let m := set_pool pool m in
      x ← gateway_once st;
      let '(st, gateway) := (x : Flow * Res GoErr TenantGatewayRef) in
      match gateway with
      | Err e => Ret (failed e m st)
      | Ok gatewayRef =>
          attached ← (route <-! findHTTPRouteForModel model ;; validateHTTPRouteReferencesGateway route gatewayRef);
          match attached with
          | Err e =>
              if is_sentinel ErrModelNotFound e || is_sentinel ErrHTTPRouteNotFound e
              then Ret (add_model (setReason FlowControlReasonPoolPending ("waiting for the HTTPRoute of model " +:+ key) m) st)
              else if is_sentinel ErrHTTPRouteNotOnTenantGateway e then
                _ ← warn_set "InferencePoolNotOnTenantGateway"
                      ("Request priority is not applied to model " +:+ key +:+ ": " +:+ etext e);
                Ret (add_model (setReason FlowControlReasonNotOnTenantGateway (etext e) m) st)
              else let e := wrap_err ("model " +:+ key +:+ ": gateway check") e in Ret (failed e m (add_errs [e] st))
          | Ok _ =>
              y ← tenant_once st;
              let '(st, tenant) := (y : Flow * Res GoErr string) in
              Ret (match tenant with
                   | Err e => failed e m st
                   | Ok tenantName => place_objective key model pool tenantName m st
                   end)
          end
      end
  end.

Fixpoint resolve_models (keys : list string) (st : Flow) : Prog Flow :=
  match keys with
  | [] => Ret st
  | key :: keys => st ← resolve_model key st; resolve_models keys st
  end.

Definition distinct_keys : list string := sort_strings (remove_dups (map model_key (ss_ModelRefs (ss_Spec (body sub))))).
Definition resolveFlowControl : Prog Flow :=
  st ← resolve_models distinct_keys flow_init;
  Ret (if prioritySet then st else set_complete true st).
End Resolve.

(** ** Applying them *)

Inductive inferenceObjectiveApplyOutcome := Applied | Conflicting | APIUnavailable.
Definition isAPIUnavailable (e : ApiErr) : bool := isNoMatch e || isNotFound e.

(** The outcome, and the error if there is one. *)
Definition applyInferenceObjective (sub : MaaSSubscription) (key : Key) (d : desiredObjective)
    : Prog (inferenceObjectiveApplyOutcome * option GoErr) :=
  let desired := buildInferenceObjective sub key d in
  let applied := Ret (Applied, None) in
  let error e := Ret (Applied, Some e) in
  let conflict text :=
    _ ← warnf "InferenceObjectiveConflict" text; Ret (Conflicting, None) in
  let unapplied := "; request priority is not applied to " +:+ join ", " (Models d) in
  existing ← call (Get true KInferenceObjective key);
  match existing with
  | Err e =>
      if isNoMatch e then Ret (APIUnavailable, None) else
      if negb (isNotFound e) then error (wrap ("failed to get InferenceObjective " +:+ shown key) e) else
      created ← call (Create KInferenceObjective desired);
      match created with
      | Ok _ => applied
      | Err e => if isAPIUnavailable e then Ret (APIUnavailable, None)
                 else error (wrap ("failed to create InferenceObjective " +:+ shown key) e)
      end
  | Ok existing =>
      let m := meta existing in
      if negb (bool_decide (DeletionTimestamp m = None))
      then error (plain ("InferenceObjective " +:+ shown key +:+ " is being deleted; will recreate it")) else
      if negb (hasInferenceObjectiveOwnerLabels (Labels m))
      then conflict ("InferenceObjective " +:+ shown key +:+ " already exists and is not managed by maas-controller" +:+ unapplied) else
      if negb (String.eqb (value (Labels m) labelSubscriptionNamespace) (Namespace (meta sub)))
         || negb (String.eqb (value (Annotations m) annotationSubscriptionName) (Name (meta sub)))
      then conflict ("InferenceObjective " +:+ shown key +:+ " belongs to subscription "
                     +:+ value (Labels m) labelSubscriptionNamespace +:+ "/"
                     +:+ value (Annotations m) annotationSubscriptionName +:+ unapplied) else
      if negb (isManaged m) then applied else
      let changed : InferenceObjective := {|
        meta := set_annotations (objective_annotations sub d ∪ Annotations m)
                  (set_labels (objective_labels sub ∪ Labels m) m);
        body := inferenceObjectiveSpec d |} in
      if bool_decide (changed = existing) then applied else
      updated ← call (Update KInferenceObjective changed);
      match updated with
      | Ok _ => applied
      | Err e => error (wrap ("failed to update InferenceObjective " +:+ shown key) e)
      end
  end.

Definition observedObjectiveReason (obj : option InferenceObjective) (d : desiredObjective) : string * string :=
  match obj with
  | None => (FlowControlReasonObjectivePending, "InferenceObjective is not observed yet")
  | Some obj =>
      if negb (isManaged (meta obj)) then
        (FlowControlReasonUnmanaged, "InferenceObjective opted out of management; its priority ("
           +:+ match io_Priority (body obj) with Some p => format_int p | None => "unset" end +:+ ") is owned by the user")
      else if negb (bool_decide (body obj = inferenceObjectiveSpec d))
      then (FlowControlReasonObjectivePending, "InferenceObjective does not match inferencePriority yet")
      else (FlowControlReasonObjectiveReconciled, "InferenceObjective sets priority " +:+ format_int (Priority d))
  end.

Definition listOwnedInferenceObjectives (sub : MaaSSubscription) : Prog (Res GoErr (list InferenceObjective)) :=
  listed ← call (ListBy false KInferenceObjective
             (MatchingLabels (<[labelSubscriptionNamespace := Namespace (meta sub)]> inferenceObjectiveOwnerLabels)));
  Ret (match listed with
       | Err e => if isAPIUnavailable e then Ok []
                  else Err (wrap ("failed to list InferenceObjectives for subscription " +:+ shown (key_of sub)) e)
       | Ok l => Ok (List.filter (λ o, String.eqb (value (Annotations (meta o)) annotationSubscriptionName) (Name (meta sub))) l)
       end).

(** A deletion is conditional on the UID. *)
Definition delete_objective (keep : gset Key) (o : InferenceObjective) : Prog (option GoErr) :=
  if bool_decide (key_of o ∈ keep) || negb (isManaged (meta o)) then Ret None else
  d ← call (Delete KInferenceObjective o true);
  Ret (match ignore_not_found tt d with
       | Ok _ => None
       | Err e => Some (wrap ("failed to delete InferenceObjective " +:+ shown (key_of o)) e)
       end).
Definition deleteInferenceObjectives (owned : list InferenceObjective) (keep : gset Key) : Prog (list GoErr) :=
  errs ← for_each (delete_objective keep) owned;
  Ret (omap (λ e, e) (errs : list (option GoErr))).

Definition deleteOwnedInferenceObjectives (sub : MaaSSubscription) : Prog (list GoErr) :=
  owned ← listOwnedInferenceObjectives sub;
  match owned with Err e => Ret [e] | Ok owned => deleteInferenceObjectives owned ∅ end.

(** ** The pass *)

Record inferenceObjectivesResult := {
  Statuses : list ModelFlowControlStatus; Conflict : bool; r_APIUnavailable : bool;
}.
(** Its variables: the models, the objectives that were applied, a conflict,
    the errors. *)
Record Pass := { p_Models : list modelFlowControl; p_Applied : list Key; p_Conflict : bool; p_Errs : list GoErr }.
Definition set_objective_reason (key : Key) (reason message : string) (p : Pass) : Pass := {|
  p_Models := map (λ m, if bool_decide (Objective m = key) then setReason reason message m else m) (p_Models p);
  p_Applied := p_Applied p; p_Conflict := p_Conflict p; p_Errs := p_Errs p |}.
Definition pass_errs (errs : list GoErr) (p : Pass) : Pass := {|
  p_Models := p_Models p; p_Applied := p_Applied p; p_Conflict := p_Conflict p; p_Errs := (p_Errs p ++ errs)%list |}.
Definition pass_conflict (p : Pass) : Pass := {|
  p_Models := p_Models p; p_Applied := p_Applied p; p_Conflict := true; p_Errs := p_Errs p |}.
Definition pass_applied (key : Key) (p : Pass) : Pass := {|
  p_Models := p_Models p; p_Applied := (p_Applied p ++ [key])%list; p_Conflict := p_Conflict p; p_Errs := p_Errs p |}.
Definition pass_result (unavailable : bool) (p : Pass) : inferenceObjectivesResult * list GoErr :=
  ({| Statuses := map mf_Status (p_Models p); Conflict := p_Conflict p; r_APIUnavailable := unavailable |}, p_Errs p).

Definition api_unavailable (keys : list Key) (p : Pass) : inferenceObjectivesResult * list GoErr :=
  pass_result true (fold_left (λ p key, set_objective_reason key FlowControlReasonAPIUnavailable
                      "the InferenceObjective API (llm-d.ai) is not installed" p) keys p).

(** The loop over the desired objectives; [None] when the API is not served. *)
Fixpoint apply_all (sub : MaaSSubscription) (desired : list (Key * desiredObjective)) (p : Pass)
    : Prog (Pass * bool) :=
  match desired with
  | [] => Ret (p, true)
  | (key, d) :: rest =>
      x ← applyInferenceObjective sub key d;
      match (x : inferenceObjectiveApplyOutcome * option GoErr) with
      | (APIUnavailable, _) => Ret (p, false)
      | (Conflicting, _) =>
          apply_all sub rest (set_objective_reason key FlowControlReasonObjectiveConflict
            ("InferenceObjective " +:+ shown key +:+ " is held by an object not managed for this subscription") (pass_conflict p))
      | (Applied, None) => apply_all sub rest (pass_applied key p)
      | (Applied, Some e) =>
          let p := pass_errs [e] p in
          if err_is isAlreadyExists e || err_is isConflict e
          then apply_all sub rest (set_objective_reason key FlowControlReasonObjectivePending
                 "InferenceObjective is not reconciled yet" p)
          else
            _ ← warnf "InferenceObjectiveFailed" (etext e);
            apply_all sub rest (set_objective_reason key FlowControlReasonReconcileFailed (etext e) p)
      end
  end.

Definition sorted_desired (m : gmap Key desiredObjective) : list (Key * desiredObjective) :=
  isort (on_key (λ kd, shown kd.1) str_ltb) (map_to_list m).
Definition observe_applied (desired : gmap Key desiredObjective) (owned : list InferenceObjective) (p : Pass) : Pass :=
  let observed : gmap Key InferenceObjective := fold_left (λ m o, <[key_of o := o]> m) owned ∅ in
  fold_left (λ p key,
    match desired !! key with
    | Some d => let r := observedObjectiveReason (observed !! key) d in set_objective_reason key r.1 r.2 p
    | None => p
    end) (p_Applied p) p.

Definition reconcileInferenceObjectives (sub : MaaSSubscription) : Prog (inferenceObjectivesResult * list GoErr) :=
  res ← resolveFlowControl sub;
  let p := {| p_Models := f_Models res; p_Applied := []; p_Conflict := false; p_Errs := f_Errs res |} in
  let desired := sorted_desired (f_Desired res) in
  let keys := map fst desired in
  if inferenceObjectivesUnavailable then Ret (api_unavailable keys p) else
  x ← apply_all sub desired p;
  let '(p, served) := (x : Pass * bool) in
  if negb served then Ret (api_unavailable keys p) else
  owned ← listOwnedInferenceObjectives sub;
  match owned with
  | Err e =>
      Ret (pass_result false (fold_left (λ p key, set_objective_reason key FlowControlReasonReconcileFailed (etext e) p)
             (p_Applied p) (pass_errs [e] p)))
  | Ok owned =>
      let p := observe_applied (f_Desired res) owned p in
      if negb (f_Complete res) then Ret (pass_result false p) else
      errs ← deleteInferenceObjectives owned (list_to_set keys);
      Ret (pass_result false (pass_errs errs p))
  end.

(** ** The condition *)

Definition ConditionInferenceObjectivesReady : string := "InferenceObjectivesReady".
(** The most severe reason: the first of the list that some model has. *)
Definition worst_reason (statuses : list ModelFlowControlStatus) : string :=
  default FlowControlReasonReconcileFailed
    (List.find (λ r, existsb (λ s, negb (fc_Ready s) && String.eqb (fc_Reason s) r) statuses) flowControlConditionReasons).
Definition not_ready (statuses : list ModelFlowControlStatus) : list ModelFlowControlStatus :=
  List.filter (λ s, negb (fc_Ready s)) statuses.

(** [None] when the priority is unset; else the condition and whether it caps
    the phase at Degraded. *)
Definition inferenceObjectivesCondition (sub : MaaSSubscription) (statuses : list ModelFlowControlStatus)
    : option (Condition * bool) :=
  let cond status reason message := {|
    c_Type := ConditionInferenceObjectivesReady; c_Status := status; c_Reason := reason; c_Message := message;
    c_ObservedGeneration := Generation (meta sub) |} in
  let total := format_int (Z.of_nat (length statuses)) in
  match ss_InferencePriority (ss_Spec (body sub)) with
  | None => None
  | Some _ =>
      Some (match not_ready statuses with
            | [] => (cond ConditionTrue "Reconciled" ("request priority is reconciled for all " +:+ total +:+ " models"), false)
            | bad =>
                (cond ConditionFalse (worst_reason statuses)
                   (truncateConditionMessage ("request priority is not reconciled for "
                      +:+ format_int (Z.of_nat (length bad)) +:+ " of " +:+ total +:+ " models: "
                      +:+ join ", " (map (λ s, fc_Namespace s +:+ "/" +:+ fc_Name s +:+ " (" +:+ fc_Reason s +:+ ")") bad))),
                 existsb (λ s, flowControlDegrades (fc_Reason s)) bad)
            end)
  end.

End Objectives.
End InferenceObjectives.
