(* ===== verification/SubscriptionController.v ===== *)
(** * SubscriptionController: the reconciliation of a subscription

    [maas-controller/pkg/controller/maas/maassubscription_controller.go]: the
    statuses of the models and policies of a subscription, its deletion with
    the revocation of its API keys, the scan for duplicate priorities, the
    watches, and [Reconcile]. *)

From S2P Require Import Prelude GoStrings Unstructured RateLimitId RateTier Kube AITenant TenantLookup ModelRoutes SubscriptionPolicy.
From S2P Require Import InferenceObjectives.
From Stdlib Require String.
Local Open Scope string_scope.

Module SubscriptionController.
Import Kube AITenant TenantLookup ModelRoutes SubscriptionPolicy InferenceObjectives.
Import RateTier (ModelSubscriptionRef, ModelRefStatus, TRLPStatus).

Definition maasSubscriptionFinalizer : string := "maas.opendatahub.io/subscription-cleanup".
Definition retainAPIKeysOnDeleteAnnotation : string := "maas.opendatahub.io/retain-api-keys-on-delete".
Definition ConditionSpecPriorityDuplicate : string := "SpecPriorityDuplicate".
Definition Second : Z := 1000000000.

(** ** The subscription in memory *)

Definition refs_of (sub : MaaSSubscription) : list ModelSubscriptionRef := ss_ModelRefs (ss_Spec (body sub)).
Definition status_of (sub : MaaSSubscription) : MaaSSubscriptionStatus := ss_Status (body sub).
Definition set_status (f : MaaSSubscriptionStatus → MaaSSubscriptionStatus) (sub : MaaSSubscription) : MaaSSubscription :=
  {| meta := meta sub; body := {| ss_Spec := ss_Spec (body sub); ss_Status := f (ss_Status (body sub)) |} |}.
Definition set_identity (identity : string) (st : MaaSSubscriptionStatus) : MaaSSubscriptionStatus := {|
  ss_Phase := ss_Phase st; ss_Conditions := ss_Conditions st; ss_StatusIdentity := identity;
  ModelRefStatuses := ModelRefStatuses st; TokenRateLimitStatuses := TokenRateLimitStatuses st;
  FlowControlStatuses := FlowControlStatuses st |}.
Definition set_models (l : list ModelRefStatus) (st : MaaSSubscriptionStatus) : MaaSSubscriptionStatus := {|
  ss_Phase := ss_Phase st; ss_Conditions := ss_Conditions st; ss_StatusIdentity := ss_StatusIdentity st;
  ModelRefStatuses := l; TokenRateLimitStatuses := TokenRateLimitStatuses st; FlowControlStatuses := FlowControlStatuses st |}.
Definition set_policies (l : list TRLPStatus) (st : MaaSSubscriptionStatus) : MaaSSubscriptionStatus := {|
  ss_Phase := ss_Phase st; ss_Conditions := ss_Conditions st; ss_StatusIdentity := ss_StatusIdentity st;
  ModelRefStatuses := ModelRefStatuses st; TokenRateLimitStatuses := l; FlowControlStatuses := FlowControlStatuses st |}.
Definition set_flow (l : list ModelFlowControlStatus) (st : MaaSSubscriptionStatus) : MaaSSubscriptionStatus := {|
  ss_Phase := ss_Phase st; ss_Conditions := ss_Conditions st; ss_StatusIdentity := ss_StatusIdentity st;
  ModelRefStatuses := ModelRefStatuses st; TokenRateLimitStatuses := TokenRateLimitStatuses st; FlowControlStatuses := l |}.
Definition set_phase (phase : string) (st : MaaSSubscriptionStatus) : MaaSSubscriptionStatus := {|
  ss_Phase := phase; ss_Conditions := ss_Conditions st; ss_StatusIdentity := ss_StatusIdentity st;
  ModelRefStatuses := ModelRefStatuses st; TokenRateLimitStatuses := TokenRateLimitStatuses st;
  FlowControlStatuses := FlowControlStatuses st |}.
Definition set_conditions (l : list Condition) (st : MaaSSubscriptionStatus) : MaaSSubscriptionStatus := {|
  ss_Phase := ss_Phase st; ss_Conditions := l; ss_StatusIdentity := ss_StatusIdentity st;
  ModelRefStatuses := ModelRefStatuses st; TokenRateLimitStatuses := TokenRateLimitStatuses st;
  FlowControlStatuses := FlowControlStatuses st |}.

(** The first reference to each model: the loops skip the others. *)
Fixpoint distinct_refs (seen : gset string) (refs : list ModelSubscriptionRef) : list ModelSubscriptionRef :=
  match refs with
  | [] => []
  | ref :: refs =>
      if bool_decide (model_key ref ∈ seen) then distinct_refs seen refs
      else ref :: distinct_refs ({[model_key ref]} ∪ seen) refs
  end.
Definition model_of (ref : ModelSubscriptionRef) : Key := (RateTier.mr_Namespace ref, RateTier.mr_Name ref).
Definition models_of (sub : MaaSSubscription) : list Key := map model_of (distinct_refs ∅ (refs_of sub)).

Section Controller.
Context `{TS : TenantScope} `{R : MaaSSubscriptionReconciler} `{SC : StatusConditions} `{CU : ControllerUtil}.
Context `{KM : KMeta} `{KA : K8sAccess}.

(** ** Statuses *)

Definition model_status (model : Key) : Prog ModelRefStatus :=
  m ← call (Get true KModelRef model);
  let st ready reason message := {|
    RateTier.ms_Name := model.2; RateTier.ms_Namespace := model.1; RateTier.ms_Ready := ready;
    RateTier.ms_Reason := reason; RateTier.ms_Message := message |} in
  Ret (match m with
       | Ok _ => st true RateTier.ReasonValid ""
       | Err e => if isNotFound e then st false RateTier.ReasonNotFound ("MaaSModelRef " +:+ shown model +:+ " not found")
                  else st false RateTier.ReasonGetFailed ("failed to get MaaSModelRef: " +:+ ae_Text e)
       end).
Definition validateModelRefs (sub : MaaSSubscription) : Prog (list ModelRefStatus) :=
  for_each model_status (models_of sub).

Definition ReasonAccepted : RateTier.Reason := RateTier.ReasonOther "Accepted".
Definition ReasonNotAccepted : RateTier.Reason := RateTier.ReasonOther "NotAccepted".

(** The conditions of a decoded object, whatever their shape. *)
Fixpoint find_accepted (conditions : list JVal) : bool * string :=
  match conditions with
  | [] => (false, "Accepted condition not found")
  | JObj cond :: rest =>
      if bool_decide (as_string (Unstructured.get "type" cond) = Some "Accepted") then
        if bool_decide (as_string (Unstructured.get "status" cond) = Some "True") then (true, "") else
        (false, default "Accepted condition is False" (as_string (Unstructured.get "message" cond)))
      else find_accepted rest
  | _ :: rest => find_accepted rest
  end.
Definition getTRLPAcceptedCondition (trlp : TRLP) : bool * string :=
  match tp_Status (body trlp) with
  | None => (false, "status not available")
  | Some status =>
      match NestedSlice status ["conditions"] with
      | None => (false, "conditions not found")
      | Some conditions => find_accepted conditions
      end
  end.

Definition gateway_suffix (model route : Key) : Prog string :=
  let on (g : Key) := " on gateway " +:+ shown g in
  selected ← selectedGatewayForModel model;
  match (selected : Res GoErr (option Key)) with
  | Ok (Some g) => Ret (on g)
  | _ =>
      r ← call (Get true KHTTPRoute route);
      Ret (match r with
           | Ok r => match routeGatewayForTRLP r with Some g => on g | None => "" end
           | Err _ => ""
           end)
  end.

Definition policy_status (sub : MaaSSubscription) (gateway : Res GoErr TenantGatewayRef) (model : Key) : Prog TRLPStatus :=
  let st ns ready reason message := {|
    RateTier.ts_Name := policyName model.2; RateTier.ts_Namespace := ns; RateTier.ts_Ready := ready;
    RateTier.ts_Reason := reason; RateTier.ts_Message := message; RateTier.ts_Model := model.2 |} in
  resolved ← findHTTPRouteForModel model;
  match resolved with
  | Err e =>
      Ret (if is_sentinel ErrHTTPRouteNotFound e || is_sentinel ErrModelNotFound e
           then st model.1 false RateTier.ReasonBackendNotReady
                  ("HTTPRoute not found yet; TokenRateLimitPolicy cannot be created: " +:+ etext e)
           else st model.1 false RateTier.ReasonGetFailed ("failed to find HTTPRoute for model: " +:+ etext e))
  | Ok route =>
      match gateway with
      | Err e => Ret (st route.1 false RateTier.ReasonGetFailed
                        ("failed to resolve tenant gateway for subscription namespace " +:+ Namespace (meta sub) +:+ ": " +:+ etext e))
      | Ok gatewayRef =>
          v ← validateHTTPRouteReferencesGateway route gatewayRef;
          match v with
          | Err e =>
              Ret (if is_sentinel ErrHTTPRouteNotOnTenantGateway e
                   then st route.1 false RateTier.ReasonBackendNotReady
                          ("HTTPRoute is not attached to the subscription tenant gateway: " +:+ etext e)
                   else st route.1 false RateTier.ReasonGetFailed
                          ("failed to validate HTTPRoute against tenant gateway: " +:+ etext e))
          | Ok _ =>
              suffix ← gateway_suffix model route;
              trlp ← call (Get true KTRLP (route.1, policyName model.2));
              Ret (match trlp with
                   | Err e =>
                       if isNotFound e
                       then st route.1 false RateTier.ReasonNotFound ("TokenRateLimitPolicy not created yet" +:+ suffix)
                       else st route.1 false RateTier.ReasonGetFailed ("failed to get TokenRateLimitPolicy: " +:+ ae_Text e)
                   | Ok trlp =>
                       let x := getTRLPAcceptedCondition trlp in
                       if x.1 then st route.1 true ReasonAccepted ""
                       else st route.1 false ReasonNotAccepted (x.2 +:+ suffix)
                   end)
          end
      end
  end.
Definition checkTokenRateLimitHealth (sub : MaaSSubscription) : Prog (list TRLPStatus) :=
  gateway ← tenantGatewayRefForNamespace (Namespace (meta sub));
  for_each (policy_status sub gateway) (models_of sub).

(** The condition [Ready] of a phase. *)
Definition ready_condition (phase message : string) (generation : Z) : Condition :=
  let cond status reason := {|
    c_Type := "Ready"; c_Status := status; c_Reason := reason; c_Message := message; c_ObservedGeneration := generation |} in
  if String.eqb phase "Active" then cond ConditionTrue "Reconciled"
  else if String.eqb phase "Degraded" then cond ConditionFalse "PartialFailure"
  else if String.eqb phase "Failed" then cond ConditionFalse "ReconcileFailed"
  else if String.eqb phase "Invalid" then cond ConditionFalse "InvalidSpec"
  else cond ConditionUnknown "Unknown".

(** The status a reconciliation writes over the one the cluster has. *)
Definition merge_duplicate (latest : MaaSSubscription) (st : MaaSSubscriptionStatus) : MaaSSubscriptionStatus :=
  match FindStatusCondition (ss_Conditions (status_of latest)) ConditionSpecPriorityDuplicate with
  | Some dup => set_conditions (SetStatusCondition dup (ss_Conditions st)) st
  | None => st
  end.
Definition updateStatus (sub : MaaSSubscription) (phase message : string) (statusSnapshot : MaaSSubscriptionStatus)
    : Prog (Res GoErr unit) :=
  latest ← call (Get true KSubscription (key_of sub));
  let target := match latest with Ok l => l | Err _ => sub end in
  let currentStatus := match latest with Ok l => status_of l | Err _ => statusSnapshot end in
  let st := match latest with Ok l => merge_duplicate l (status_of sub) | Err _ => status_of sub end in
  let st := set_phase phase st in
  let st := set_conditions (SetStatusCondition (ready_condition phase message (Generation (meta sub))) (ss_Conditions st)) st in
  if bool_decide (currentStatus = st) then Ret (Ok tt) else
  updated ← call (UpdateStatus KSubscription (set_status (λ _, st) target));
  Ret (match updated with Ok _ => Ok tt | Err e => Err (wrap "failed to update MaaSSubscription status" e) end).

(** ** API keys of a deleted subscription *)

Definition subscriptionAPIKeyRevocationJob (sub : MaaSSubscription) (tenantName tenantID : string) : Job :=
  apiKeyRevocationJob relatedImage
    (aitenantBoundedName "maas-api-revoke-sub-" (Namespace (meta sub) +:+ "-" +:+ Name (meta sub)) (UID (meta sub)) 57)
    (Name (meta sub)) (Namespace (meta sub)) (UID (meta sub)) tenantName (Name (meta sub)) tenantID AppNamespace.

Definition event (kind reason action note : string) : Prog unit :=
  if HasRecorder then call (Eventf kind reason action note) else Ret tt.
Definition delete_job (text : string) (job : Job) : Prog (Res GoErr unit) :=
  d ← call (Delete KJob job false);
  Ret (map_err (wrap (text +:+ " subscription API-key cleanup Job " +:+ shown (key_of job))) (ignore_not_found tt d)).

Definition watch_revocation_job (uid : string) (job : Job) : Prog (Res GoErr bool) :=
  existing ← call (Get (negb HasAPIReader) KJob (key_of job));
  match existing with
  | Err e =>
      if negb (isNotFound e)
      then Ret (Err (wrap ("get subscription API-key cleanup Job " +:+ shown (key_of job)) e)) else
      created ← call (Create KJob job);
      Ret (match created with
           | Ok _ => Ok false
           | Err e => if isAlreadyExists e then Ok false
                      else Err (wrap ("create subscription API-key cleanup Job " +:+ shown (key_of job)) e)
           end)
  | Ok existing =>
      if negb (apiKeyRevocationJobMatchesUID existing uid) then
        d ← delete_job "delete stale" existing; Ret (res_map (λ _, false) d)
      else if jobComplete existing then Ret (Ok true)
      else if jobFailed existing then
        _ <-! delete_job "delete failed" existing ;;
        Ret (Err (plain ("subscription API-key cleanup Job " +:+ shown (key_of existing) +:+ " failed")))
      else Ret (Ok false)
  end.

Definition ensureSubscriptionAPIKeysRevoked (sub : MaaSSubscription) : Prog (Res GoErr bool) :=
  let me := shown (key_of sub) in
  if String.eqb (value (Annotations (meta sub)) retainAPIKeysOnDeleteAnnotation) "true" then
    _ ← event "Normal" "APIKeyCleanupSkipped" "InvalidateAPIKeys"
          ("Skipping API-key cleanup for MaaSSubscription " +:+ me +:+ " because API keys are retained on delete");
    Ret (Ok true)
  else if String.eqb (trim_space AppNamespace) ""
  then Ret (Err (plain "application namespace is required for MaaSSubscription API-key cleanup")) else
  tenant ← fetchTenantForNamespace (Namespace (meta sub));
  match tenant with
  | Err e =>
      if negb (isNotFound e) then Ret (Err (wrap ("resolve tenant for MaaSSubscription " +:+ me) e)) else
      _ ← event "Warning" "APIKeyCleanupSkipped" "InvalidateAPIKeys"
            ("Skipping API-key cleanup for MaaSSubscription " +:+ me +:+ " because its tenant configuration no longer exists");
      Ret (Ok true)
  | Ok tenant =>
      match identifier tenant with
      | Err e => Ret (Err (wrap_err ("resolve tenant identifier for MaaSSubscription " +:+ me) e))
      | Ok tenantID =>
          let tenantName := if String.eqb tenantID "" then DefaultAITenantName else tenantID in
          watch_revocation_job (UID (meta sub)) (subscriptionAPIKeyRevocationJob sub tenantName tenantID)
      end
  end.

(** ** Deletion *)

(** [errors.Join]. *)
Definition newline : string := String "010" "".
Definition join_errs (errs : list GoErr) : option GoErr :=
  match errs with [] => None | e :: _ => Some {| etext := join newline (map etext errs); cause := cause e |} end.
Definition failing {A} (errs : list GoErr) (a : A) : Res GoErr A :=
  match join_errs errs with Some e => Err e | None => Ok a end.

Definition ContainsFinalizer (sub : MaaSSubscription) : bool :=
  contains_finalizer (Finalizers (meta sub)) maasSubscriptionFinalizer.
Definition without_finalizer (sub : MaaSSubscription) : MaaSSubscription :=
  with_meta (set_finalizers (remove_finalizer maasSubscriptionFinalizer (Finalizers (meta sub)))) sub.
Definition with_finalizer (sub : MaaSSubscription) : MaaSSubscription :=
  with_meta (set_finalizers (add_finalizer maasSubscriptionFinalizer (Finalizers (meta sub)))) sub.

(** What a subscription whose keys are gone leaves behind. *)
Definition release_subscription (sub : MaaSSubscription) : Prog (Res GoErr Z) :=
  _ <-! for_each_ok reconcileTRLPForModel (models_of sub) ;;
  _ <-! cleanupStaleTRLPs sub ;;
  errs ← (if inferenceObjectivesUnavailable then Ret [] else deleteOwnedInferenceObjectives sub);
  match join_errs errs with
  | Some e => Ret (Err e)
  | None =>
      updated ← call (Update KSubscription (without_finalizer sub));
      Ret (match updated with Ok _ => Ok 0%Z | Err e => Err (of_api e) end)
  end.

Definition handleDeletion (sub : MaaSSubscription) : Prog (Res GoErr Z) :=
  if negb (ContainsFinalizer sub) then Ret (Ok 0%Z) else
  keysRevoked ← ensureSubscriptionAPIKeysRevoked sub;
  match keysRevoked with
  | Err e =>
      _ ← event "Warning" "APIKeyCleanupFailed" "InvalidateAPIKeys"
            ("failed to invalidate API keys for subscription " +:+ Name (meta sub) +:+ ": " +:+ etext e);
      Ret (Err e)
  | Ok false => Ret (Ok (10 * Second)%Z)
  | Ok true => release_subscription sub
  end.

(** ** Reconciliation *)

Definition reconcileTokenRateLimitPolicies (sub : MaaSSubscription) : Prog (Res GoErr unit) :=
  _ <-! for_each_ok reconcileTRLPForModel (models_of sub) ;; cleanupStaleTRLPs sub.

Definition phase_text (p : RateTier.Phase) : string :=
  match p with RateTier.PhaseActive => "Active" | RateTier.PhaseDegraded => "Degraded" | RateTier.PhaseFailed => "Failed" end.
Definition message_text (m : RateTier.PhaseMessage) : string :=
  match m with
  | RateTier.NoModelReferences => "no model references specified"
  | RateTier.AllUnavailable n => "all " +:+ format_int n +:+ " model references are invalid or unavailable"
  | RateTier.SomeUnavailable bad n =>
      format_int bad +:+ " of " +:+ format_int n +:+ " model references are invalid or unavailable"
  | RateTier.PoliciesNotAccepted bad n => format_int bad +:+ " of " +:+ format_int n +:+ " TokenRateLimitPolicies not accepted"
  | RateTier.SuccessfullyReconciled => "successfully reconciled"
  end.

Definition empty_spec : MaaSSubscriptionSpec :=
  {| ss_ModelRefs := []; ss_Priority := 0; ss_InferencePriority := None; ss_RateLimitIdentity := ""; ss_Guardrails := []; ss_Rest := "" |}.

(** The identity is classified before the finalizer is added, and persisted
    before any policy is written. *)
Definition classify (sub : MaaSSubscription) : string :=
  Controller.classifiedRateLimitIdentity rateLimitIdentityEpoch (Some (sub_meta sub)).
Definition ensure_finalizer (sub : MaaSSubscription) : Prog (Res GoErr MaaSSubscription) :=
  if ContainsFinalizer sub then Ret (Ok sub) else
  updated ← call (Update KSubscription (with_finalizer sub));
  Ret (map_err of_api updated).
Definition persist_identity (wantIdentity : string) (sub : MaaSSubscription) : Prog (Res GoErr MaaSSubscription) :=
  if String.eqb (ss_StatusIdentity (status_of sub)) wantIdentity then Ret (Ok sub) else
  updated ← call (UpdateStatus KSubscription (set_status (set_identity wantIdentity) sub));
  Ret (map_err (wrap "failed to persist rateLimitIdentity") updated).

(** The policies of valid models, or the removal of stale ones, with the text
    of a failure. *)
Definition reconcile_policies (sub : MaaSSubscription) (modelStatuses : list ModelRefStatus) : Prog (string * Res GoErr unit) :=
  if existsb RateTier.ms_Ready modelStatuses
  then r ← reconcileTokenRateLimitPolicies sub; Ret ("failed to reconcile TokenRateLimitPolicies: ", r)
  else r ← cleanupStaleTRLPs sub; Ret ("failed to clean up stale TokenRateLimitPolicies: ", r).

Definition set_objectives_condition (c : option (Condition * bool)) (st : MaaSSubscriptionStatus) : MaaSSubscriptionStatus :=
  match c with
  | Some (cond, _) => set_conditions (SetStatusCondition cond (ss_Conditions st)) st
  | None => set_conditions (RemoveStatusCondition ConditionInferenceObjectivesReady (ss_Conditions st)) st
  end.

Definition inferenceObjectiveConflictRequeue : Z := 300 * Second.

(** Request priority can degrade an Active subscription. *)
Definition capped_phase (ioCondition : option (Condition * bool)) (p : RateTier.Phase * string) : RateTier.Phase * string :=
  match ioCondition with
  | Some (cond, true) => if bool_decide (p.1 = RateTier.PhaseActive) then (RateTier.PhaseDegraded, c_Message cond) else p
  | _ => p
  end.

(** The health of the policies decides the phase that is written. *)
Definition conclude (sub : MaaSSubscription) (statusSnapshot : MaaSSubscriptionStatus) (modelStatuses : list ModelRefStatus)
    (io : inferenceObjectivesResult) (ioErrs : list GoErr) (ioCondition : option (Condition * bool)) : Prog (Res GoErr Z) :=
  trlpStatuses ← checkTokenRateLimitHealth sub;
  let x := RateTier.reconciled_phase modelStatuses trlpStatuses in
  let sub := set_status (λ st, set_models x.1 (set_policies trlpStatuses st)) sub in
  let '(phase, message) := capped_phase ioCondition (x.2.1, message_text x.2.2) in
  written ← updateStatus sub (phase_text phase) message statusSnapshot;
  let errs := (match (written : Res GoErr unit) with Err e => [e] | Ok _ => [] end ++ ioErrs)%list in
  Ret (failing errs (if Conflict io then inferenceObjectiveConflictRequeue else 0%Z)).

Definition reconcile_live (sub : MaaSSubscription) : Prog (Res GoErr Z) :=
  let wantIdentity := classify sub in
  sub <-! ensure_finalizer sub ;;
  sub <-! persist_identity wantIdentity sub ;;
  let statusSnapshot := status_of sub in
  modelStatuses ← validateModelRefs sub;
  let sub := set_status (set_models modelStatuses) sub in
  x ← reconcileInferenceObjectives sub;
  let '(io, ioErrs) := (x : inferenceObjectivesResult * list GoErr) in
  let ioCondition := inferenceObjectivesCondition sub (Statuses io) in
  let sub := set_status (λ st, set_objectives_condition ioCondition (set_flow (Statuses io) st)) sub in
  y ← reconcile_policies sub modelStatuses;
  match (y : string * Res GoErr unit) with
  | (text, Err e) =>
      _ ← updateStatus sub "Failed" (text +:+ etext e) statusSnapshot;
      Ret (failing (e :: ioErrs) 0%Z)
  | (_, Ok _) => conclude sub statusSnapshot modelStatuses io ioErrs ioCondition
  end.

Definition Reconcile (key : Key) : Prog (Res GoErr Z) :=
  got ← call (Get true KSubscription key);
  match got with
  | Err e => Ret (if isNotFound e then Ok 0%Z else Err (of_api e))
  | Ok sub =>
      if negb (live sub) then handleDeletion sub else
      isTenantNS <-! tenantNamespaceAllowed key.1 ;;
      if negb isTenantNS then Ret (Ok 0%Z) else
      if bool_decide (ss_Spec (body sub) = empty_spec) then
        r ← updateStatus sub "Invalid" "spec is required" (status_of sub); Ret (res_map (λ _, 0%Z) r)
      else reconcile_live sub
  end.

(** ** Duplicate priorities *)

Definition priority_of (sub : MaaSSubscription) : Z := ss_Priority (ss_Spec (body sub)).
(** The live subscriptions of a namespace with a priority, sorted. *)
Definition same_priority (subs : list MaaSSubscription) (ns : string) (p : Z) : list string :=
  sort_strings (map (λ s, shown (key_of s))
    (List.filter (λ s, String.eqb (Namespace (meta s)) ns && (priority_of s =? p)%Z) subs)).
Definition peers (subs : list MaaSSubscription) (s : MaaSSubscription) : list string :=
  List.filter (λ k, negb (String.eqb k (shown (key_of s)))) (same_priority subs (Namespace (meta s)) (priority_of s)).
Definition duplicate_condition (p : Z) (peers : list string) (generation : Z) : Condition :=
  match peers with
  | [] => {| c_Type := ConditionSpecPriorityDuplicate; c_Status := ConditionFalse; c_Reason := "NoDuplicatePeers";
             c_Message := ""; c_ObservedGeneration := generation |}
  | _ => {| c_Type := ConditionSpecPriorityDuplicate; c_Status := ConditionTrue; c_Reason := "SharedPriority";
            c_Message := "spec.priority " +:+ format_int p +:+ " is shared with: " +:+ join ", " peers;
            c_ObservedGeneration := generation |}
  end.

(** The errors of one subscription are logged. *)
Definition scan_one (subs : list MaaSSubscription) (s : MaaSSubscription) : Prog unit :=
  latest ← call (Get true KSubscription (key_of s));
  match latest with
  | Err _ => Ret tt
  | Ok latest =>
      if negb (live latest) then Ret tt else
      let desired := duplicate_condition (priority_of s) (peers subs s) (Generation (meta latest)) in
      if bool_decide (FindStatusCondition (ss_Conditions (status_of latest)) ConditionSpecPriorityDuplicate = Some desired)
      then Ret tt else
      updated ← call (UpdateStatus KSubscription
        (set_status (λ st, set_conditions (SetStatusCondition desired (ss_Conditions st)) st) latest));
      Ret (match updated with Ok _ | Err _ => tt end)
  end.
Definition scanForDuplicatePriority : Prog unit :=
  listed ← call (ListBy true KSubscription Everywhere);
  match listed with
  | Err _ => Ret tt
  | Ok l =>
      subs ← filterSubscriptionsByTenantNamespace l;
      let subs := List.filter live (subs : list MaaSSubscription) in
      _ ← for_each (scan_one subs) subs; Ret tt
  end.

(** ** Watches: the subscriptions an event asks to reconcile *)

Definition request_all (listed : Res ApiErr (list MaaSSubscription)) : Prog (list Key) :=
  match listed with
  | Err _ => Ret []
  | Ok l => subs ← filterSubscriptionsByTenantNamespace l; Ret (map key_of (subs : list MaaSSubscription))
  end.
Definition subscriptions_of_model (model : Key) : Prog (list Key) :=
  listed ← call (ListBy true KSubscription (MatchingField modelRefIndexKey (shown model)));
  request_all listed.

(** The keys without repetitions, in order. *)
Definition add_new (seen : list Key) (k : Key) : list Key := if bool_decide (k ∈ seen) then seen else (seen ++ [k])%list.
Definition distinct (keys : list Key) : list Key := fold_left add_new keys [].

Definition mapAITenantToMaaSSubscriptions (aitenant : string) : Prog (list Key) :=
  listed ← call (ListBy true KSubscription (InNamespace (TenantNamespaceForAITenant aitenant DefaultTenantNamespace)));
  request_all listed.
Definition mapTenantConfigToMaaSSubscriptions (namespace : string) : Prog (list Key) :=
  listed ← call (ListBy true KSubscription (InNamespace namespace)); request_all listed.
Definition mapNamespaceToMaaSSubscriptions (ns : string) : Prog (list Key) :=
  if negb (String.eqb ns DefaultTenantNamespace) && negb TenantNamespaceDiscoveryEnabled then Ret [] else
  listed ← call (ListBy true KSubscription (InNamespace ns));
  Ret (match listed with Ok l => map key_of l | Err _ => [] end).
Definition mapMaaSModelRefToMaaSSubscriptions (model : Key) : Prog (list Key) :=
  keys ← subscriptions_of_model model; Ret (distinct keys).
Definition mapGeneratedTRLPToParent (m : ObjectMeta) : Prog (list Key) :=
  if negb (String.eqb (value (Labels m) "app.kubernetes.io/managed-by") "maas-controller") then Ret [] else
  let modelName := value (Labels m) trlpLabelModel in
  if String.eqb modelName "" then Ret [] else
  let ns := value (Labels m) trlpLabelModelNamespace in
  let ns := if String.eqb ns "" then Namespace m else ns in
  listed ← call (ListBy true KSubscription (MatchingField modelRefIndexKey (ns +:+ "/" +:+ modelName)));
  match listed with
  | Err _ => Ret []
  | Ok l =>
      subs ← filterSubscriptionsByTenantNamespace l;
      Ret (distinct (map key_of (List.filter live (subs : list MaaSSubscription))))
  end.
Definition mapHTTPRouteToMaaSSubscriptions (namespace : string) : Prog (list Key) :=
  models ← call (ListBy true KModelRef (InNamespace namespace));
  match models with
  | Err _ => Ret []
  | Ok models => keys ← for_each (λ m, subscriptions_of_model (key_of m)) (models : list MaaSModelRef);
                 Ret (distinct (concat (keys : list (list Key))))
  end.
Definition mapLLMISvcToMaaSSubscriptions (llmisvc : Key) : Prog (list Key) :=
  models ← call (ListBy true KModelRef (InNamespace llmisvc.1));
  match models with
  | Err _ => Ret []
  | Ok models =>
      let served := List.filter (λ m : MaaSModelRef, String.eqb (ModelKind (body m)) "LLMInferenceService"
                                     && String.eqb (ModelName (body m)) llmisvc.2) models in
      keys ← for_each (λ m, mapMaaSModelRefToMaaSSubscriptions (key_of m)) served;
      Ret (distinct (concat (keys : list (list Key))))
  end.
Definition mapInferenceObjectiveToSubscription (m : ObjectMeta) : list Key :=
  let namespace := value (Labels m) labelSubscriptionNamespace in
  let name := value (Annotations m) annotationSubscriptionName in
  if String.eqb namespace "" || String.eqb name "" then [] else [(namespace, name)].
Definition subscriptionsWithInferencePriority : Prog (Res GoErr (list Key)) :=
  listed <-! try "failed to list MaaSSubscriptions" (call (ListBy true KSubscription Everywhere)) ;;
  subs ← filterSubscriptionsByTenantNamespace listed;
  Ret (Ok (map key_of (List.filter (λ s : MaaSSubscription, bool_decide (ss_InferencePriority (ss_Spec (body s)) ≠ None)) subs))).

End Controller.
End SubscriptionController.
