(* ===== verification/SubscriptionSafety.v ===== *)
(** * SubscriptionSafety: what a reconciliation never does

    [Reconcile] of [SubscriptionController] against every API server: whatever
    the replies, it writes only policies and objectives it manages, and lets a
    deleted subscription go only when its API keys are gone. *)

From S2P Require Import Prelude GoStrings Unstructured RateLimitId RateTier Kube AITenant TenantLookup ModelRoutes SubscriptionPolicy.
From S2P Require Import InferenceObjectives SubscriptionController.
From Stdlib Require String.
Local Open Scope string_scope.

Module SubscriptionSafety.
Import Kube AITenant TenantLookup ModelRoutes SubscriptionPolicy InferenceObjectives SubscriptionController.

Section Safety.
Context `{TS : TenantScope} `{R : MaaSSubscriptionReconciler} `{SC : StatusConditions} `{CU : ControllerUtil}.
Context `{KM : KMeta} `{KA : K8sAccess}.

(** ** Lookups only read *)

Lemma allowed_only_reads ns : only_reads (tenantNamespaceAllowed ns).
Proof. unfold tenantNamespaceAllowed. solve_reads. Qed.
#[local] Hint Resolve allowed_only_reads : only_reads.
Lemma is_tenant_only_reads ns : only_reads (isTenantNamespace ns).
Proof. unfold isTenantNamespace. solve_reads. Qed.
#[local] Hint Resolve is_tenant_only_reads : only_reads.
Lemma filter_only_reads {B} m (l : list (Object B)) : only_reads (filter_tenants m l).
Proof. revert m. induction l; intros m; cbn [filter_tenants]; solve_reads. Qed.
Lemma filter_subs_only_reads l : only_reads (filterSubscriptionsByTenantNamespace l).
Proof. apply filter_only_reads. Qed.
Lemma fetch_only_reads ns : only_reads (fetchTenantForNamespace ns).
Proof. unfold fetchTenantForNamespace. solve_reads. Qed.
#[local] Hint Resolve filter_subs_only_reads fetch_only_reads : only_reads.
Lemma context_only_reads t g : only_reads (ResolvePlatformContext t g).
Proof. unfold ResolvePlatformContext, resolveAITenantPlatformContext. solve_reads. Qed.
#[local] Hint Resolve context_only_reads : only_reads.
Lemma gateway_only_reads ns : only_reads (tenantGatewayRefForNamespace ns).
Proof. unfold tenantGatewayRefForNamespace. solve_reads. Qed.
#[local] Hint Resolve gateway_only_reads : only_reads.
Lemma validate_only_reads route g : only_reads (validateHTTPRouteReferencesGateway route g).
Proof. unfold validateHTTPRouteReferencesGateway. solve_reads. Qed.
#[local] Hint Resolve validate_only_reads : only_reads.
Lemma resolver_only_reads kind resolver m : GetRouteResolver kind = Some resolver → only_reads (resolver m).
Proof.
  unfold GetRouteResolver. intros H. repeat (case_match; simplify_eq); unfold llmisvc_route, external_route; solve_reads.
Qed.
Lemma find_route_only_reads model : only_reads (findHTTPRouteForModel model).
Proof.
  apply only_reads_bind; [by split|]. intros [m|e]; [|done]. case_match; [done|].
  destruct (GetRouteResolver _) as [resolver|] eqn:E; [|done]. apply only_reads_bind_ok; [by eapply resolver_only_reads|].
  unfold getHTTPRoute. solve_reads.
Qed.
#[local] Hint Resolve find_route_only_reads : only_reads.
Lemma find_all_only_reads model : only_reads (findAllSubscriptionsForModel model).
Proof. unfold findAllSubscriptionsForModel. solve_reads. Qed.
#[local] Hint Resolve find_all_only_reads : only_reads.
Lemma check_only_reads model route subs st : only_reads (check_gateways model route subs st).
Proof.
  revert st. induction subs as [|s subs IH]; intros st; cbn [check_gateways]; [done|].
  apply only_reads_bind_ok; [unfold check_gateway; solve_reads|apply IH].
Qed.
Lemma validate_all_only_reads model route subs : only_reads (validateSubscriptionTenantGatewaysForRoute model route subs).
Proof. apply only_reads_bind_ok; [apply check_only_reads|done]. Qed.
Lemma identity_only_reads model r : only_reads (gatewayIdentityForTRLP model r).
Proof. unfold gatewayIdentityForTRLP, selectedGatewayForModel. solve_reads. Qed.
Lemma health_only_reads sub : only_reads (checkTokenRateLimitHealth sub).
Proof. unfold checkTokenRateLimitHealth, policy_status, gateway_suffix, selectedGatewayForModel. solve_reads. Qed.
#[local] Hint Resolve validate_all_only_reads identity_only_reads health_only_reads : only_reads.
Lemma validate_refs_only_reads sub : only_reads (validateModelRefs sub).
Proof. unfold validateModelRefs, model_status. solve_reads. Qed.
Lemma pool_only_reads model : only_reads (resolveModelInferencePool model).
Proof. unfold resolveModelInferencePool. solve_reads. Qed.
#[local] Hint Resolve pool_only_reads : only_reads.
Lemma flow_only_reads sub : only_reads (resolveFlowControl sub).
Proof.
  unfold resolveFlowControl. apply only_reads_bind; [|solve_reads]. generalize flow_init.
  induction (distinct_keys sub) as [|key keys IH]; intros st; cbn [resolve_models]; [done|].
  apply only_reads_bind; [|apply IH].
  unfold resolve_model, gateway_once, tenant_once, once_failed, warn_set, warnf, flowControlTenantName. solve_reads.
Qed.

#[local] Hint Resolve validate_refs_only_reads flow_only_reads : only_reads.

(** ** The monitor *)

(** The subscription as it was read, its metadata as last returned, whether its
    keys are known to be gone,
    whether the last configuration read of its namespace was absent, whether
    its identity is persisted, whether its finalizer was removed, and the
    policy and the objective read last. *)
Record Mon := {
  m_sub : option MaaSSubscription; m_meta : option ObjectMeta; m_keys : bool; m_noconfig : bool; m_persisted : bool;
  m_released : bool; m_policy : option TRLP; m_objective : option InferenceObjective;
}.
Definition monitor_init : Mon :=
  {| m_sub := None; m_meta := None; m_keys := false; m_noconfig := false; m_persisted := false; m_released := false;
     m_policy := None; m_objective := None |}.

Definition retained (s : MaaSSubscription) : bool := String.eqb (value (Annotations (meta s)) retainAPIKeysOnDeleteAnnotation) "true".
Definition has_identity (s u : MaaSSubscription) : bool := String.eqb (ss_StatusIdentity (status_of u)) (classify s).
Definition about (m : Mon) (P : MaaSSubscription → bool) : bool := match m_sub m with Some s => P s | None => false end.

Definition read_sub (s : MaaSSubscription) (m : Mon) : Mon := {|
  m_sub := Some s; m_meta := Some (meta s); m_keys := retained s; m_noconfig := false;
  m_persisted := has_identity s s; m_released := false; m_policy := m_policy m;
  m_objective := m_objective m |}.
Definition know_meta (mt : ObjectMeta) (m : Mon) : Mon := {|
  m_sub := m_sub m; m_meta := Some mt; m_keys := m_keys m; m_noconfig := m_noconfig m;
  m_persisted := m_persisted m; m_released := m_released m; m_policy := m_policy m;
  m_objective := m_objective m |}.
Definition know_keys (b : bool) (m : Mon) : Mon := {|
  m_sub := m_sub m; m_meta := m_meta m; m_keys := m_keys m || b; m_noconfig := m_noconfig m;
  m_persisted := m_persisted m; m_released := m_released m; m_policy := m_policy m;
  m_objective := m_objective m |}.
Definition know_config (b : bool) (m : Mon) : Mon := {|
  m_sub := m_sub m; m_meta := m_meta m; m_keys := m_keys m; m_noconfig := b; m_persisted := m_persisted m;
  m_released := m_released m; m_policy := m_policy m; m_objective := m_objective m |}.
Definition know_identity (b : bool) (m : Mon) : Mon := {|
  m_sub := m_sub m; m_meta := m_meta m; m_keys := m_keys m; m_noconfig := m_noconfig m;
  m_persisted := m_persisted m || b; m_released := m_released m; m_policy := m_policy m;
  m_objective := m_objective m |}.
Definition know_policy (p : option TRLP) (m : Mon) : Mon := {|
  m_sub := m_sub m; m_meta := m_meta m; m_keys := m_keys m; m_noconfig := m_noconfig m;
  m_persisted := m_persisted m; m_released := m_released m; m_policy := p; m_objective := m_objective m |}.
Definition know_objective (o : option InferenceObjective) (m : Mon) : Mon := {|
  m_sub := m_sub m; m_meta := m_meta m; m_keys := m_keys m; m_noconfig := m_noconfig m;
  m_persisted := m_persisted m; m_released := m_released m; m_policy := m_policy m; m_objective := o |}.
Definition release (m : Mon) : Mon := {|
  m_sub := m_sub m; m_meta := m_meta m; m_keys := m_keys m; m_noconfig := m_noconfig m;
  m_persisted := m_persisted m; m_released := true; m_policy := m_policy m; m_objective := m_objective m |}.

Definition to_option {E A} (r : Res E A) : option A := match r with Ok a => Some a | Err _ => None end.
Definition absent {A} (r : Res ApiErr A) : bool := match r with Ok _ => false | Err e => isNotFound e end.
Definition own_namespace (m : Mon) (key : Key) : bool := about m (λ s, String.eqb key.1 (Namespace (meta s))).

Definition observe_get (k : Kind) (key : Key) : Res ApiErr (Obj k) → Mon → Mon :=
  match k return Res ApiErr (Obj k) → Mon → Mon with
  | KSubscription => λ r m, match r, m_sub m with Ok s, None => read_sub s m | _, _ => m end
  | KTRLP => λ r, know_policy (to_option r)
  | KInferenceObjective => λ r, know_objective (to_option r)
  | KTenantConfig => λ r m, know_config (absent r && own_namespace m key) m
  | KLegacyTenant => λ r m, know_keys (m_noconfig m && absent r && own_namespace m key) m
  | KJob => λ r m, know_keys (match r with
                              | Ok j => about m (λ s, apiKeyRevocationJobMatchesUID j (UID (meta s))) && jobComplete j
                              | Err _ => false
                              end) m
  | _ => λ _ m, m
  end.
Definition observe_update (k : Kind) : Res ApiErr (Obj k) → Mon → Mon :=
  match k return Res ApiErr (Obj k) → Mon → Mon with
  | KSubscription => λ r m,
      match r with
      | Ok u => if about m live then know_meta (meta u) (know_identity (about m (λ s, has_identity s u)) m) else release m
      | Err _ => m
      end
  | _ => λ _ m, m
  end.
Definition observe_status (k : Kind) (o : Obj k) : Res ApiErr (Obj k) → Mon → Mon :=
  match k return Obj k → Res ApiErr (Obj k) → Mon → Mon with
  | KSubscription => λ o r m,
      match r with Ok u => know_meta (meta u) (know_identity (about m (λ s, has_identity s o)) m) | Err _ => m end
  | _ => λ _ _ m, m
  end o.
Definition observe (X : Type) (c : Call X) : X → Mon → Mon :=
  match c in Call X return X → Mon → Mon with
  | Get _ k key => observe_get k key
  | Update k _ => observe_update k
  | UpdateStatus k o => observe_status k o
  | _ => λ _ m, m
  end.

(** A policy may be written when a live subscription has its identity
    persisted, or a deleted one its keys gone. *)
Definition may_write (m : Mon) : Prop := ∃ s, m_sub m = Some s ∧ if live s then m_persisted m = true else m_keys m = true.
Definition owned_objective (mt : ObjectMeta) (o : InferenceObjective) : Prop :=
  hasInferenceObjectiveOwnerLabels (Labels (meta o)) = true ∧ isManaged (meta o) = true ∧ live o = true
  ∧ value (Labels (meta o)) labelSubscriptionNamespace = Namespace mt
  ∧ value (Annotations (meta o)) annotationSubscriptionName = Name mt.

Definition allowed_create (k : Kind) : Obj k → Mon → Prop :=
  match k return Obj k → Mon → Prop with
  | KTRLP => λ _, may_write
  | KInferenceObjective => λ o m, about m live = true
      ∧ ∃ sub key d, m_meta m = Some (meta sub) ∧ o = buildInferenceObjective sub key d
  | KJob => λ j m, ∃ s tenantName tenantID, m_sub m = Some s ∧ live s = false
      ∧ j = subscriptionAPIKeyRevocationJob s tenantName tenantID
  | _ => λ _ _, False
  end.
Definition allowed_update (k : Kind) : Obj k → Mon → Prop :=
  match k return Obj k → Mon → Prop with
  | KTRLP => λ o m, may_write m ∧ ∃ p, m_policy m = Some p ∧ isManaged (meta p) = true ∧ key_of o = key_of p
      ∧ Finalizers (meta o) = Finalizers (meta p) ∧ tp_Status (body o) = tp_Status (body p)
  | KInferenceObjective => λ o m, about m live = true
      ∧ ∃ mt e, m_meta m = Some mt ∧ m_objective m = Some e ∧ owned_objective mt e ∧ key_of o = key_of e
  | KSubscription => λ o m, ∃ s, m_sub m = Some s
      ∧ if live s then o = with_finalizer s else o = without_finalizer s ∧ m_keys m = true
  | _ => λ _ _, False
  end.
Definition allowed_delete (k : Kind) (precondition : bool) : Obj k → Mon → Prop :=
  match k return Obj k → Mon → Prop with
  | KTRLP => λ p m, may_write m ∧ isManaged (meta p) = true
  | KInferenceObjective => λ o m, precondition = true ∧ isManaged (meta o) = true
      ∧ (about m live = true ∨ m_keys m = true)
      ∧ ∃ mt, m_meta m = Some mt ∧ value (Annotations (meta o)) annotationSubscriptionName = Name mt
  | KJob => λ j m, ∃ s, m_sub m = Some s ∧ live s = false
      ∧ (apiKeyRevocationJobMatchesUID j (UID (meta s)) = false ∨ jobFailed j = true ∧ jobComplete j = false)
  | _ => λ _ _, False
  end.
Definition allowed (X : Type) (c : Call X) (m : Mon) : Prop :=
  match c with
  | Get _ _ _ | ListAll _ _ _ | ListBy _ _ _ | Eventf _ _ _ _ => True
  | Create k o => allowed_create k o m
  | Update k o => allowed_update k o m
  | UpdateStatus k _ => k = KSubscription ∧ about m live = true
  | Delete k o pre => allowed_delete k pre o m
  | Patch _ _ _ _ => False
  end.

(** ** What every step keeps *)

Definition tame (m m' : Mon) : Prop :=
  m_sub m' = m_sub m ∧ (m_keys m = true → m_keys m' = true) ∧ (m_persisted m = true → m_persisted m' = true)
  ∧ m_meta m' = m_meta m ∧ m_released m' = m_released m.
#[local] Instance tame_preorder : PreOrder tame.
Proof. split; [by intros m|]. intros m1 m2 m3 (?&?&?&?&?) (?&?&?&?&?). split_and!; try tauto; congruence. Qed.

Lemma observe_get_tame k key r m : m_sub m ≠ None → tame m (observe_get k key r m).
Proof.
  intros Hs. destruct k; cbn [observe_get]; try reflexivity;
    try (split_and!; cbn; [done| |done..]; by intros ->).
  destruct r, (m_sub m); done.
Qed.
Lemma reads_tame {A} (p : Prog A) m : only_reads p → m_sub m ≠ None → safe allowed observe p m (λ _ m', tame m m').
Proof.
  intros Hp Hs. apply (safe_only_reads allowed observe p m (λ m', tame m m')); [exact Hp| |reflexivity].
  intros X c m1 Hc Ht. split; [by destruct c|]. intros x.
  assert (m_sub m1 ≠ None) as Hs1 by (destruct Ht as [-> _]; exact Hs).
  etransitivity; [exact Ht|]. destruct c; try done; cbn [observe]; [by apply observe_get_tame|reflexivity..].
Qed.
(** Reading first, then anything. *)
Lemma safe_reads {A B} (p : Prog A) (f : A → Prog B) m Q :
  only_reads p → m_sub m ≠ None → (∀ a m', tame m m' → safe allowed observe (f a) m' Q) → safe allowed observe (p ≫= f) m Q.
Proof. intros Hp Hs Hf. apply safe_bind. eapply safe_mono; [by apply reads_tame|]. intros a m' Ht. by apply Hf. Qed.

(** [under P p]: from a monitor in [P], the program makes allowed calls only and
    every step is tame, for a [P] that tame steps keep. *)
Class Kept (P : Mon → Prop) : Prop := {
  kept_tame m m' : tame m m' → P m → P m';
  kept_sub m : P m → m_sub m ≠ None;
}.
Definition under {A} (P : Mon → Prop) (p : Prog A) : Prop :=
  ∀ m, P m → safe allowed observe p m (λ _ m', tame m m').

(** The subscription is being deleted, and its keys are gone; it is live, and
    its identity persisted. *)
Definition deleting (s : MaaSSubscription) (m : Mon) : Prop :=
  m_sub m = Some s ∧ m_meta m = Some (meta s) ∧ live s = false.
Definition gone (s : MaaSSubscription) (m : Mon) : Prop := deleting s m ∧ m_keys m = true.
Definition living (s : MaaSSubscription) (mt : ObjectMeta) (m : Mon) : Prop :=
  m_sub m = Some s ∧ m_meta m = Some mt ∧ live s = true.
Definition persisted (s : MaaSSubscription) (mt : ObjectMeta) (m : Mon) : Prop := living s mt m ∧ m_persisted m = true.

#[local] Instance may_write_kept : Kept may_write.
Proof.
  split; [|by intros m (s & -> & _)]. intros m m' (Es & Hk & Hp & _) (s & E & H). exists s. rewrite Es. split; [done|].
  destruct (live s); auto.
Qed.
#[local] Instance deleting_kept s : Kept (deleting s).
Proof. split; [|by intros m [-> _]]. intros m m' (Es & _ & _ & Em & _) H. unfold deleting. by rewrite Es, Em. Qed.
#[local] Instance living_kept s mt : Kept (living s mt).
Proof. split; [|by intros m [-> _]]. intros m m' (Es & _ & _ & Em & _) H. unfold living. by rewrite Es, Em. Qed.
#[local] Instance gone_kept s : Kept (gone s).
Proof. split; [|by intros m [[-> _] _]]. intros m m' Ht [H Hk]. split; [by eapply kept_tame|]. by apply Ht. Qed.
#[local] Instance persisted_kept s mt : Kept (persisted s mt).
Proof. split; [|by intros m [[-> _] _]]. intros m m' Ht [H Hk]. split; [by eapply kept_tame|]. by apply Ht. Qed.
Lemma gone_may_write s m : gone s m → may_write m.
Proof. intros [(E & _ & Hl) Hk]. exists s. by rewrite E, Hl. Qed.
Lemma persisted_may_write s mt m : persisted s mt m → may_write m.
Proof. intros [(E & _ & Hl) Hk]. exists s. by rewrite E, Hl. Qed.

Lemma under_weaken {A} (P P' : Mon → Prop) (p : Prog A) : (∀ m, P m → P' m) → under P' p → under P p.
Proof. intros H Hp m Hm. by apply Hp, H. Qed.

Section Under.
Context (P : Mon → Prop) `{!Kept P}.

Lemma under_ret {A} (a : A) : under P (Ret a).
Proof. intros m _. exact (reflexivity m). Qed.
Lemma under_reads {A} (p : Prog A) : only_reads p → under P p.
Proof. intros Hp m Hm. apply reads_tame; [exact Hp|by eapply kept_sub]. Qed.
(** What follows a step runs from a monitor in [P] again. *)
Lemma under_cont {A} (p : Prog A) m m' Q : under P p → P m → tame m m' → (∀ a m'', P m'' → tame m m'' → Q a m'') →
  safe allowed observe p m' Q.
Proof.
  intros Hp Hm Ht HQ. assert (P m') as Hm' by exact (kept_tame m m' Ht Hm).
  eapply safe_mono; [exact (Hp m' Hm')|]. cbv beta. intros a m'' Ht'.
  apply HQ; [exact (kept_tame m' m'' Ht' Hm')|exact (transitivity Ht Ht')].
Qed.
Lemma under_bind {A B} (p : Prog A) (f : A → Prog B) : under P p → (∀ a, under P (f a)) → under P (p ≫= f).
Proof.
  intros Hp Hf m Hm. apply safe_bind. eapply under_cont; [exact Hp|exact Hm|reflexivity|]. cbv beta.
  intros a m' _ Ht. eapply under_cont; [apply Hf|exact Hm|exact Ht|]. by intros.
Qed.
Lemma under_bind_ok {E A B} (p : Prog (Res E A)) (f : A → Prog (Res E B)) :
  under P p → (∀ a, under P (f a)) → under P (bind_ok p f).
Proof. intros Hp Hf. apply under_bind; [exact Hp|]. intros [a|e]; [apply Hf|apply under_ret]. Qed.
Lemma under_for_each_ok {E A} (f : A → Prog (Res E unit)) l : (∀ a, under P (f a)) → under P (for_each_ok f l).
Proof.
  intros Hf. induction l as [|a l IH]; cbn [for_each_ok]; [apply under_ret|]. apply under_bind_ok; [apply Hf|by intros _].
Qed.
Lemma under_for_each {A B} (f : A → Prog B) l : (∀ a, a ∈ l → under P (f a)) → under P (for_each f l).
Proof.
  induction l as [|a l IH]; cbn [for_each]; intros Hf; [apply under_ret|].
  apply under_bind; [apply Hf; left|]. intros b. apply under_bind; [|intros bs; apply under_ret].
  apply IH. intros a' Ha. apply Hf. by right.
Qed.
Lemma under_call {X} (c : Call X) : (∀ m, P m → allowed X c m ∧ ∀ x, tame m (observe X c x m)) → under P (call c).
Proof. intros H m Hm. exact (H m Hm). Qed.
End Under.

Create HintDb maas_under.
(** Walks through binds, loops and case distinctions; calls are left. *)
Ltac solve_under :=
  repeat first
    [ progress intros
    | progress (cbv zeta)
    | apply under_ret
    | solve [eauto with maas_under nocore]
    | apply under_reads; [typeclasses eauto|solve [auto with only_reads nocore|split; [reflexivity|intros; exact I]]]
    | match goal with
      | |- under _ (for_each_ok _ _) => apply under_for_each_ok; [typeclasses eauto|]
      | |- under _ (for_each _ _) => apply under_for_each; [typeclasses eauto|]
      | |- under _ (bind_ok _ _) => apply under_bind_ok; [typeclasses eauto| |]
      | |- under _ (mbind _ _) => apply under_bind; [typeclasses eauto| |]
      | |- under _ (if ?b then _ else _) => destruct b eqn:?
      | |- under _ (match ?x with _ => _ end) => destruct x eqn:?
      end ].

(** ** Policies *)

Section Policies.
Context (P : Mon → Prop) `{!Kept P} (HP : ∀ m, P m → may_write m).

Lemma delete_policy_under p : under P (delete_policy p).
Proof.
  unfold delete_policy. destruct (isManaged (meta p)) eqn:Em; cbn [negb]; solve_under.
  apply under_call. intros m Hm. split; [split; [by apply HP|done]|reflexivity].
Qed.
#[local] Hint Resolve delete_policy_under : maas_under.
Lemma delete_model_under model : under P (deleteModelTRLP model).
Proof. unfold deleteModelTRLP. solve_under. Qed.
#[local] Hint Resolve delete_model_under : maas_under.
Lemma cleanup_under sub : under P (cleanupStaleTRLPs sub).
Proof. unfold cleanupStaleTRLPs, cleanup_policy. solve_under. Qed.

Context `{CL : !ControllerUtilLaws}.

Lemma set_owner_meta route p owned :
  setHTTPRouteControllerOwner route p = Ok owned →
  body owned = body p ∧ key_of owned = key_of p ∧ Finalizers (meta owned) = Finalizers (meta p).
Proof.
  unfold setHTTPRouteControllerOwner. destruct (SetControllerReference _ _ _) as [m'|e] eqn:E; cbn; intros [= <-].
  destruct (set_controller_reference _ _ _ _ E) as [Em _]. unfold key_of. cbn. rewrite Em. done.
Qed.

(** The update repeats the policy it has just read. *)
Lemma attempt_under route d : under P (update_attempt route d).
Proof.
  intros m Hm. unfold update_attempt. apply safe_bind. split; [done|]. intros x. cbn [observe observe_get safe].
  destruct x as [p|e]; cbn [to_option]; [|done].
  assert (tame m (know_policy (Some p) m)) as Ht by done.
  destruct (isManaged (meta p)) eqn:Em; cbn [negb]; [|done].
  destruct (setHTTPRouteControllerOwner route p) as [owned|e] eqn:E; [|done].
  apply set_owner_meta in E as (Eb & Ek & Ef). cbv zeta. case_bool_decide; [done|]. apply safe_bind. split; [|done].
  split; [by apply HP; eapply kept_tame|]. exists p. split_and!; [done..|exact Ek|exact Ef|exact (f_equal tp_Status Eb)].
Qed.
Lemma retry_under n p : under P p → under P (retry_conflict n p).
Proof. intros Hp. induction n as [|n IH]; cbn [retry_conflict]; solve_under. Qed.
Lemma write_under model route d : under P (write_policy model route d).
Proof.
  unfold write_policy, updateExistingTRLP. solve_under.
  - apply retry_under, attempt_under.
  - apply under_call. intros m Hm. split; [by apply HP|reflexivity].
Qed.
#[local] Hint Resolve write_under : maas_under.
Lemma aggregate_under model route subs : under P (aggregate model route subs).
Proof.
  unfold aggregate. solve_under.
Qed.
#[local] Hint Resolve aggregate_under : maas_under.
Lemma reconcile_model_under model : under P (reconcileTRLPForModel model).
Proof.
  unfold reconcileTRLPForModel, route_unresolved. solve_under.
Qed.
End Policies.

(** ** Objectives *)

Lemma about_living s mt m : living s mt m → about m live = true.
Proof. intros (E & _ & Hl). unfold about. by rewrite E. Qed.

Lemma safe_warn {A} reason text (a : A) m (Q : A → Mon → Prop) :
  Q a m → safe allowed observe (_ ← warnf reason text; Ret a) m Q.
Proof. intros H. split; [exact I|]. intros []. exact H. Qed.

Lemma apply_under s sub key d : under (living s (meta sub)) (applyInferenceObjective sub key d).
Proof.
  intros m Hm. pose proof (about_living _ _ _ Hm) as Ha. destruct Hm as (Hs & Hmt & Hl).
  unfold applyInferenceObjective. cbv zeta. apply safe_bind. split; [exact I|]. intros [e|e]; cbn [observe observe_get safe to_option].
  - assert (tame m (know_objective (Some e) m)) as Ht by done.
    destruct (DeletionTimestamp (meta e)) eqn:Ed; [exact Ht|]. rewrite bool_decide_true by done. cbn [negb].
    destruct (hasInferenceObjectiveOwnerLabels _) eqn:Eo; cbn [negb]; [|by apply safe_warn].
    destruct (String.eqb_spec (value (Labels (meta e)) labelSubscriptionNamespace) (Namespace (meta sub))) as [En|];
      [|by apply safe_warn].
    destruct (String.eqb_spec (value (Annotations (meta e)) annotationSubscriptionName) (Name (meta sub))) as [Ea|];
      [|by apply safe_warn].
    cbn [negb orb]. destruct (isManaged (meta e)) eqn:Em; cbn [negb]; [|exact Ht]. case_bool_decide; [exact Ht|].
    apply safe_bind. split; [|intros [?|?]; exact Ht]. split; [exact Ha|]. exists (meta sub), e.
    split; [exact Hmt|]. split; [reflexivity|]. split; [|reflexivity].
    split_and!; [exact Eo|exact Em| |exact En|exact Ea]. unfold live. by rewrite Ed.
  - assert (tame m (know_objective None m)) as Ht by done.
    destruct (isNoMatch e); [exact Ht|]. destruct (isNotFound e); cbn [negb]; [|exact Ht].
    apply safe_bind. split; [|intros [?|?]; cbn [safe observe]; [exact Ht|case_match; exact Ht]].
    split; [exact Ha|]. by exists sub, key, d.
Qed.

Lemma apply_all_under s sub desired p : under (living s (meta sub)) (apply_all sub desired p).
Proof.
  revert p. induction desired as [|[key d] rest IH]; intros p; cbn [apply_all]; [apply under_ret|].
  apply under_bind; [typeclasses eauto|apply apply_under|]. unfold warnf. solve_under; by rewrite <- surjective_pairing.
Qed.

(** Deletions are for a live subscription or one whose keys are gone. *)
Definition sweeping (mt : ObjectMeta) (m : Mon) : Prop :=
  m_sub m ≠ None ∧ m_meta m = Some mt ∧ (about m live = true ∨ m_keys m = true).
#[local] Instance sweeping_kept mt : Kept (sweeping mt).
Proof. split; [|by intros m [? _]]. intros m m' (Es & Hk & _ & Em & _) H. unfold sweeping, about in *. rewrite Es, Em. tauto. Qed.
Lemma living_sweeping s mt m : living s mt m → sweeping mt m.
Proof. intros H. split_and!; [exact (kept_sub m H)|apply H|]. left. by eapply about_living. Qed.
Lemma gone_sweeping s m : gone s m → sweeping (meta s) m.
Proof. intros H. split_and!; [exact (kept_sub m H)|apply H|]. right. apply H. Qed.

Definition owned_by (mt : ObjectMeta) (l : list InferenceObjective) : Prop :=
  ∀ o, o ∈ l → value (Annotations (meta o)) annotationSubscriptionName = Name mt.
Lemma delete_under mt owned keep : owned_by mt owned → under (sweeping mt) (deleteInferenceObjectives owned keep).
Proof.
  intros Ho. unfold deleteInferenceObjectives, delete_objective. solve_under. apply under_call. intros m Hm.
  split; [|reflexivity]. apply orb_false_iff in Heqb as [_ Hn%negb_false_iff]. split; [done|]. split; [exact Hn|].
  split; [apply Hm|]. exists mt. split; [apply Hm|by apply Ho].
Qed.
Lemma list_owned_under {A} sub (f : Res GoErr (list InferenceObjective) → Prog A) P `{!Kept P} :
  (∀ r, (∀ l, r = Ok l → owned_by (meta sub) l) → under P (f r)) → under P (listOwnedInferenceObjectives sub ≫= f).
Proof.
  intros Hf m Hm. unfold listOwnedInferenceObjectives. apply safe_bind, safe_bind. split; [exact I|]. intros x. cbn [observe safe].
  apply Hf; [|exact Hm]. destruct x as [l|e]; [|by destruct (isAPIUnavailable e); intros l [= <-]; intros o Ho; inv Ho].
  intros l' [= <-] o. rewrite list_elem_of_In, filter_In, String.eqb_eq. by intros [_ H].
Qed.
Lemma delete_owned_under sub : under (sweeping (meta sub)) (deleteOwnedInferenceObjectives sub).
Proof.
  apply list_owned_under; [typeclasses eauto|]. intros [owned|e] Ho; [|apply under_ret]. by apply delete_under, Ho.
Qed.

Lemma objectives_under s sub : under (living s (meta sub)) (reconcileInferenceObjectives sub).
Proof.
  unfold reconcileInferenceObjectives. apply under_bind; [typeclasses eauto|apply under_reads; [typeclasses eauto|apply flow_only_reads]|].
  intros res. cbv zeta. case_match; [apply under_ret|]. apply under_bind; [typeclasses eauto|apply apply_all_under|].
  intros [p served]. case_match; [apply under_ret|]. apply list_owned_under; [typeclasses eauto|].
  intros [owned|e] Ho; [|apply under_ret]. case_match; [apply under_ret|].
  apply under_bind; [typeclasses eauto| |intros; apply under_ret].
  eapply under_weaken; [apply living_sweeping|]. by apply delete_under, Ho.
Qed.

(** ** Keys *)

Lemma delete_job_under s text job :
  apiKeyRevocationJobMatchesUID job (UID (meta s)) = false ∨ jobFailed job = true ∧ jobComplete job = false →
  under (deleting s) (delete_job text job).
Proof.
  intros Hj. unfold delete_job. solve_under. apply under_call. intros m (Hs & _ & Hl). split; [|reflexivity].
  exists s. by split_and!.
Qed.

(** What a monitor knows when the keys are said to be gone. *)
Definition revoked (s : MaaSSubscription) (m0 : Mon) (r : Res GoErr bool) (m : Mon) : Prop :=
  tame m0 m ∧ (r = Ok true → m_keys m = true).
Lemma watch_safe s tenantName tenantID m : deleting s m →
  safe allowed observe (watch_revocation_job (UID (meta s)) (subscriptionAPIKeyRevocationJob s tenantName tenantID)) m (revoked s m).
Proof.
  intros Hm. unfold watch_revocation_job. apply safe_bind. split; [exact I|]. intros [j|e]; cbn [observe observe_get safe].
  - set (m1 := know_keys _ m). assert (tame m m1) as Ht by (split_and!; cbn; [done| |done..]; by intros ->).
    assert (deleting s m1) as Hm1 by exact (kept_tame _ _ Ht Hm).
    destruct (apiKeyRevocationJobMatchesUID j (UID (meta s))) eqn:Eu; cbn [negb].
    + destruct (jobComplete j) eqn:Ec.
      { split; [exact Ht|]. intros _. unfold m1, know_keys, about. cbn [m_keys]. destruct Hm as [-> _]. rewrite Eu. apply orb_true_r. }
      destruct (jobFailed j) eqn:Ef; [|by split].
      apply safe_bind_ok. eapply safe_mono; [apply (delete_job_under s); [by right|exact Hm1]|]. cbv beta.
      intros [[]|e] m' Ht'; (split; [exact (transitivity Ht Ht')|done]).
    + apply safe_bind. eapply safe_mono; [apply (delete_job_under s); [by left|exact Hm1]|]. cbv beta.
      intros [[]|e] m' Ht'; (split; [exact (transitivity Ht Ht')|done]).
  - assert (tame m (know_keys false m)) as Ht by (split_and!; cbn; [done| |done..]; by intros ->).
    destruct (isNotFound e); cbn [negb]; [|by split]. apply safe_bind. split.
    + destruct Hm as (Hs & _ & Hl). by exists s, tenantName, tenantID.
    + intros [?|e']; cbn [observe safe]; [by split|case_match; by split].
Qed.

(** The keys of a subscription whose tenant configuration, of either kind, is
    absent. *)
Lemma fetch_own_safe s m : deleting s m →
  safe allowed observe (fetchTenantForNamespace (Namespace (meta s))) m
    (λ r m', tame m m' ∧ ∀ e, r = Err e → isNotFound e = true → m_keys m' = true).
Proof.
  intros Hm. unfold fetchTenantForNamespace. apply safe_bind. split; [exact I|]. intros [c|e]; cbn [observe observe_get safe].
  { split; [by split_and!|done]. }
  set (m1 := know_config _ m). assert (tame m m1) as Ht by (by split_and!).
  destruct (isNotFound e) eqn:En; cbn [negb]; [|by split; [|congruence]].
  apply safe_bind. split; [exact I|]. intros x. cbn [observe observe_get safe].
  split; [etransitivity; [exact Ht|]; split_and!; cbn; [done| |done..]; by intros ->|].
  intros e' Hx He'. destruct x as [?|e2]; [done|]. injection Hx as ->. unfold m1, know_config, know_keys, own_namespace, about, absent.
  cbn [m_keys m_sub m_noconfig]. destruct Hm as [-> _]. rewrite En, He'. cbn [andb]. cbn [fst]. rewrite String.eqb_refl. apply orb_true_r.
Qed.

Lemma event_under P `{!Kept P} kind reason action note : under P (event kind reason action note).
Proof. unfold event. solve_under. Qed.

Lemma revocation_safe s m : deleting s m → (retained s = true → m_keys m = true) →
  safe allowed observe (ensureSubscriptionAPIKeysRevoked s) m (revoked s m).
Proof.
  intros Hm Hr. unfold ensureSubscriptionAPIKeysRevoked. cbv zeta. fold (retained s).
  destruct (retained s).
  { apply safe_bind. eapply safe_mono; [apply (event_under (deleting s)); exact Hm|]. cbv beta. intros [] m' Ht. split; [exact Ht|]. intros _. by apply Ht, Hr. }
  case_match; [by split|]. apply safe_bind. eapply safe_mono; [by apply fetch_own_safe|]. cbv beta. intros [t|e] m1 [H1 He].
  - destruct (identifier t) as [id|e]; [|by split]. eapply safe_mono; [apply watch_safe; exact (kept_tame _ _ H1 Hm)|].
    intros r m2 [H2 Hk]. split; [exact (transitivity H1 H2)|exact Hk].
  - destruct (isNotFound e) eqn:En; cbn [negb]; [|by split]. apply safe_bind.
    eapply safe_mono; [apply (event_under (deleting s)); exact (kept_tame _ _ H1 Hm)|]. cbv beta. intros [] m2 H2.
    split; [exact (transitivity H1 H2)|]. intros _. by apply H2, (He e).
Qed.

(** ** Deletion *)

Context `{CL : !ControllerUtilLaws}.

Lemma for_each_models_under P `{!Kept P} (HP : ∀ m, P m → may_write m) models : under P (for_each_ok reconcileTRLPForModel models).
Proof. apply under_for_each_ok; [done|]. intros a. by apply reconcile_model_under. Qed.

(** What a deletion ends with: the finalizer is only removed when the keys are
    gone, and a deletion that reports success has removed it. *)
Definition deletion_done (s : MaaSSubscription) (r : Res GoErr Z) (m : Mon) : Prop :=
  m_sub m = Some s ∧ (m_released m = true → m_keys m = true) ∧ (ContainsFinalizer s = true → r = Ok 0%Z → m_released m = true).

Lemma release_safe s m : gone s m → m_released m = false → safe allowed observe (release_subscription s) m (deletion_done s).
Proof.
  intros Hm Hr. unfold release_subscription.
  assert (Hend : ∀ m' e, tame m m' → deletion_done s (Err e) m').
  { intros m' e (Es & _ & _ & _ & Er). split_and!; [rewrite Es; apply Hm|congruence|done]. }
  apply safe_bind_ok. eapply (under_cont (gone s)); [apply (for_each_models_under (gone s)); apply gone_may_write|exact Hm|reflexivity|].
  cbv beta. intros [[]|e] m1 G1 H1; [|by apply Hend].
  apply safe_bind_ok. eapply (under_cont (gone s)); [apply (cleanup_under (gone s)); apply gone_may_write|exact Hm|exact H1|].
  cbv beta. intros [[]|e] m2 G2 H2; [|by apply Hend]. apply safe_bind.
  eapply (under_cont (gone s)); [|exact Hm|exact H2|].
  { case_match; [apply under_ret|]. eapply under_weaken; [apply gone_sweeping|apply delete_owned_under]. }
  cbv beta. intros errs m3 G3 H3. destruct (join_errs errs); [by apply Hend|].
  destruct G3 as [(Es & Em & Hl) Hk]. apply safe_bind. split.
  { exists s. rewrite Hl. by split_and!. }
  intros [u|e]; cbn [observe observe_update safe]; [|by apply Hend].
  assert (about m3 live = false) as -> by (unfold about; by rewrite Es). by split_and!.
Qed.

Lemma deletion_safe s m : deleting s m → (retained s = true → m_keys m = true) → m_released m = false →
  safe allowed observe (handleDeletion s) m (deletion_done s).
Proof.
  intros Hm Hret Hr. unfold handleDeletion. destruct (ContainsFinalizer s) eqn:Ef; cbn [negb].
  2:{ split_and!; [apply Hm|congruence|congruence]. }
  apply safe_bind. eapply safe_mono; [by apply revocation_safe|]. intros [[]|e] m1 [H1 Hk].
  - apply release_safe; [split; [exact (kept_tame _ _ H1 Hm)|by apply Hk]|]. destruct H1 as (_ & _ & _ & _ & ->). exact Hr.
  - destruct H1 as (Es & _ & _ & _ & Er). split_and!; [rewrite Es; apply Hm|congruence|done].
  - apply safe_bind. eapply safe_mono; [apply (event_under (deleting s)); exact (kept_tame _ _ H1 Hm)|]. cbv beta.
    intros [] m2 H2. destruct (transitivity H1 H2) as (Es & _ & _ & _ & Er). split_and!; [rewrite Es; apply Hm|congruence|done].
Qed.

(** ** A live subscription *)

(** What a status write, or anything after it, leaves alone. *)
Definition mild (m m' : Mon) : Prop := m_sub m' = m_sub m ∧ m_released m' = m_released m.
Lemma tame_mild m m' : tame m m' → mild m m'.
Proof. by intros (? & _ & _ & _ & ?). Qed.

Lemma update_status_safe sub phase message snapshot m :
  about m live = true → safe allowed observe (updateStatus sub phase message snapshot) m (λ _ m', mild m m').
Proof.
  intros Ha. assert (m_sub m ≠ None) as Hs by (unfold about in Ha; by destruct (m_sub m)).
  unfold updateStatus. apply safe_bind. split; [exact I|]. intros x. cbv zeta. cbn [observe safe].
  assert (observe_get KSubscription (key_of sub) x m = m) as -> by (cbn [observe_get]; by destruct x, (m_sub m)).
  case_bool_decide; [done|]. apply safe_bind. split; [split; [done|exact Ha]|]. by intros [?|?].
Qed.

(** The subscription the server returned, with the identity it has. *)
Definition returned (s : MaaSSubscription) (u : MaaSSubscription) (m : Mon) : Prop :=
  living s (meta u) m ∧ (has_identity s u = true → m_persisted m = true).

Lemma finalizer_safe s m : returned s s m →
  safe allowed observe (ensure_finalizer s) m (λ r m', mild m m' ∧ ∀ u, r = Ok u → returned s u m').
Proof.
  intros Hr. unfold ensure_finalizer. destruct (ContainsFinalizer s).
  { split; [done|]. by intros u [= <-]. }
  pose proof (about_living _ _ _ (proj1 Hr)) as Ha. destruct Hr as [(Hs & Hm & Hl) Hi].
  apply safe_bind. split; [exists s; split; [exact Hs|]; by rewrite Hl|].
  intros [u|e]; cbn [observe observe_update safe map_err]; [|by split]. rewrite Ha. split; [done|].
  intros v [= <-]. split; [done|]. intros Hv. unfold know_meta, know_identity, about. cbn [m_persisted]. rewrite Hs, Hv. apply orb_true_r.
Qed.

Lemma identity_safe s u m : returned s u m →
  safe allowed observe (persist_identity (classify s) u) m (λ r m', mild m m' ∧ ∀ v, r = Ok v → persisted s (meta v) m').
Proof.
  intros Hr. unfold persist_identity. fold (has_identity s u). destruct (has_identity s u) eqn:E.
  { split; [done|]. intros v [= <-]. split; [apply Hr|by apply Hr]. }
  pose proof (about_living _ _ _ (proj1 Hr)) as Ha. destruct Hr as [(Hs & Hm & Hl) Hi].
  apply safe_bind. split; [by split|]. intros [v|e]; cbn [observe observe_status safe map_err]; [|by split].
  split; [done|]. intros v' [= <-]. split; [done|]. unfold know_meta, know_identity, about. cbn [m_persisted]. rewrite Hs.
  unfold has_identity, status_of, set_status, set_identity. cbn [body ss_Status ss_StatusIdentity]. rewrite String.eqb_refl. apply orb_true_r.
Qed.

Lemma policies_under s mt sub statuses : under (persisted s mt) (reconcile_policies sub statuses).
Proof.
  assert (HP : ∀ m, persisted s mt m → may_write m) by apply persisted_may_write.
  unfold reconcile_policies, reconcileTokenRateLimitPolicies.
  case_match; (apply under_bind; [typeclasses eauto| |intros; apply under_ret]); [|by apply cleanup_under; [typeclasses eauto|]].
  apply under_bind_ok; [typeclasses eauto|apply for_each_models_under; [typeclasses eauto|exact HP]|].
  intros []. apply cleanup_under; [typeclasses eauto|exact HP].
Qed.

Lemma conclude_safe sub snapshot statuses io errs c m :
  about m live = true → safe allowed observe (conclude sub snapshot statuses io errs c) m (λ _ m', mild m m').
Proof.
  intros Ha. assert (m_sub m ≠ None) as Hs by (unfold about in Ha; by destruct (m_sub m)).
  unfold conclude. apply safe_bind. eapply safe_mono; [apply reads_tame; [apply health_only_reads|exact Hs]|].
  cbv beta zeta. intros st m1 H1. destruct (capped_phase _ _) as [phase message]. apply safe_bind.
  eapply safe_mono; [apply update_status_safe; unfold about; by destruct H1 as [-> _]|].
  intros w m2 H2. destruct H2 as [E2 R2], H1 as (E1 & _ & _ & _ & R1). cbn [safe]. split; congruence.
Qed.

Lemma live_safe s m : returned s s m → safe allowed observe (reconcile_live s) m (λ _ m', mild m m').
Proof.
  intros Hr. unfold reconcile_live. cbv zeta. apply safe_bind_ok.
  eapply safe_mono; [by apply finalizer_safe|]. cbv beta. intros [u|e] m1 [M1 Hu]; [|exact M1].
  apply safe_bind_ok. eapply safe_mono; [apply identity_safe, (Hu u eq_refl)|]. cbv beta. intros [v|e] m2 [M2 Hv].
  2:{ destruct M1, M2. split; congruence. }
  specialize (Hv v eq_refl). assert (mild m m2) as M by (destruct M1, M2; split; congruence). clear Hu M1 M2.
  assert (Hend : ∀ m', tame m2 m' → about m' live = true ∧ mild m m').
  { intros m' Ht. split; [apply (about_living s (meta v)); apply (kept_tame _ _ Ht Hv)|].
    destruct M, (tame_mild _ _ Ht). split; congruence. }
  apply safe_bind. eapply (under_cont (persisted s (meta v))); [|exact Hv|reflexivity|].
  { apply under_reads; [typeclasses eauto|apply validate_refs_only_reads]. }
  cbv beta. intros statuses m3 _ H3. apply safe_bind. eapply (under_cont (persisted s (meta v))); [|exact Hv|exact H3|].
  { eapply under_weaken; [|apply (objectives_under s (set_status (set_models statuses) v))]. by intros ? []. }
  cbv beta. intros [io ioErrs] m4 _ H4. apply safe_bind.
  eapply (under_cont (persisted s (meta v))); [apply policies_under|exact Hv|exact H4|].
  cbv beta. intros [text [[]|e]] m5 _ H5; destruct (Hend m5 H5) as [Ha M5].
  - eapply safe_mono; [by apply conclude_safe|]. intros r m6 [E6 R6]. destruct M5. split; congruence.
  - apply safe_bind. eapply safe_mono; [by apply update_status_safe|]. intros r m6 [E6 R6]. destruct M5. split; congruence.
Qed.

(** What a reconciliation ends with: the finalizer was only removed from a
    deleted subscription whose keys are settled, and a deletion that reports
    success has removed it. *)
Definition concluded (r : Res GoErr Z) (m : Mon) : Prop :=
  ∀ s, m_sub m = Some s →
    (m_released m = true → live s = false ∧ m_keys m = true)
    ∧ (live s = false → ContainsFinalizer s = true → r = Ok 0%Z → m_released m = true).


End Safety.
End SubscriptionSafety.
