(* ===== verification/SubscriptionFacts.v ===== *)
(** * SubscriptionFacts: statuses of subscriptions

    What an interrupted first reconciliation does to the rate-limit identity,
    what the scan for duplicate priorities writes, and the bounds of status
    messages. *)

From S2P Require Import Prelude GoStrings Unstructured RateLimitId RateTier Kube AITenant TenantLookup ModelRoutes Cluster LookupFacts SubscriptionPolicy SubscriptionRefinement InferenceObjectives SubscriptionController SubscriptionSafety.
From Stdlib Require String.
Local Open Scope string_scope.

Module SubscriptionFacts.
Import Kube AITenant TenantLookup ModelRoutes Cluster LookupFacts SubscriptionPolicy SubscriptionRefinement.
Import InferenceObjectives SubscriptionController.

(** ** Identities *)

Section Identity.
Context `{TS : TenantScope} `{R : MaaSSubscriptionReconciler} `{SC : StatusConditions} `{CU : ControllerUtil}.
Context `{KM : KMeta} `{KA : Unstructured.K8sAccess} `{CL : !ControllerUtilLaws}.

(** As it is created: no identity, no finalizer, no status. *)
Definition brand_new (s : MaaSSubscription) : Prop :=
  Controller.recognizedRateLimitIdentity (ss_RateLimitIdentity (ss_Spec (body s))) = false
  ∧ value (Annotations (meta s)) RateLimitIdentityAnnotation = "" ∧ maasSubscriptionFinalizer ∉ Finalizers (meta s)
  ∧ ss_StatusIdentity (status_of s) = "" ∧ ss_Phase (status_of s) = "" ∧ ss_Conditions (status_of s) = [].

Lemma contains_spec s : ContainsFinalizer s = true ↔ maasSubscriptionFinalizer ∈ Finalizers (meta s).
Proof. apply contains_finalizer_spec. Qed.

Lemma classify_finalized s :
  Controller.recognizedRateLimitIdentity (ss_RateLimitIdentity (ss_Spec (body s))) = false →
  ss_StatusIdentity (status_of s) = "" → value (Annotations (meta s)) RateLimitIdentityAnnotation = "" →
  classify s = if bool_decide (maasSubscriptionFinalizer ∈ Finalizers (meta s)) then "legacy" else
               if String.eqb (ss_Phase (status_of s)) "" && (length (ss_Conditions (status_of s)) =? 0)%nat then "short" else classify s.
Proof.
  destruct s as [mt [sp st]]. unfold classify, Controller.classifiedRateLimitIdentity, status_of, sub_meta.
  cbn [meta body ss_Spec ss_Status Controller.spec_RateLimitIdentity Controller.status_RateLimitIdentity
       Controller.annotation_RateLimitIdentity Controller.Finalizers Controller.status_Phase Controller.n_Conditions].
  intros Hs Ht Ha. rewrite Hs, Ht, Ha. cbn [Controller.recognizedRateLimitIdentity String.eqb orb].
  change Controller.maasSubscriptionFinalizer with maasSubscriptionFinalizer.
  case_bool_decide; [done|]. by destruct (_ && _).
Qed.

(** a brand-new subscription is classified short, and a reconciliation that
    adds its finalizer but then fails to write the identity into the status
    returns the error; the subscription it leaves is classified legacy by every
    later reconciliation, whenever it was created. *)
Theorem interrupted_reconcile_turns_legacy {S} (serve : ∀ X, Call X → S → S * X) (st0 st1 st2 : S) s (e : ApiErr) :
  brand_new s →
  serve _ (Update KSubscription (with_finalizer s)) st0 = (st1, Ok (with_finalizer s)) →
  serve _ (UpdateStatus KSubscription (set_status (set_identity "short") (with_finalizer s))) st1 = (st2, Err e) →
  classify s = "short"
  ∧ run serve (reconcile_live s) st0 = (st2, Err (wrap "failed to persist rateLimitIdentity" e))
  ∧ classify (with_finalizer s) = "legacy".
Proof.
  intros (Hs & Ha & Hf & Ht & Hp & Hc) H1 H2.
  assert (Hshort : classify s = "short").
  { rewrite classify_finalized by done. rewrite bool_decide_false by done. by rewrite Hp, Hc. }
  split; [exact Hshort|]. split.
  - unfold reconcile_live. rewrite Hshort. unfold bind_ok at 1. rewrite run_bind. unfold ensure_finalizer.
    destruct (ContainsFinalizer s) eqn:E; [by apply contains_spec in E|].
    rewrite run_bind. unfold call at 1. cbn [run]. rewrite H1. cbn [run map_err].
    unfold bind_ok at 1. rewrite run_bind. unfold persist_identity.
    replace (String.eqb (ss_StatusIdentity (status_of (with_finalizer s))) "short") with false
      by (change (status_of (with_finalizer s)) with (status_of s); by rewrite Ht).
    rewrite run_bind. unfold call at 1. cbn [run]. rewrite H2. done.
  - rewrite classify_finalized by done. rewrite bool_decide_true; [done|]. cbn. apply add_finalizer_spec. by left.
Qed.
End Identity.

(** ** Duplicate priorities *)

Section Scan.
Context `{TS : TenantScope} `{SL : StatusConditionLaws}.

Lemma elem_peers subs (s : MaaSSubscription) k :
  k ∈ peers subs s ↔ k ≠ shown (key_of s) ∧ ∃ t, t ∈ subs ∧ k = shown (key_of t)
                     ∧ Namespace (meta t) = Namespace (meta s) ∧ priority_of t = priority_of s.
Proof.
  unfold peers, same_priority. rewrite elem_filter, negb_true_iff, String.eqb_neq.
  unfold sort_strings. rewrite isort_elem, list_elem_of_fmap. split.
  - intros [(t & -> & Ht) Hne]. apply elem_filter in Ht as [Ht [Hns%String.eqb_eq Hp%Z.eqb_eq]%andb_true_iff]. split; [done|]. by exists t.
  - intros [Hne (t & Ht & -> & Hns & Hp)]. split; [|done]. exists t. split; [done|]. apply elem_filter. split; [done|].
    apply andb_true_iff. split; [by apply String.eqb_eq|by apply Z.eqb_eq].
Qed.

(** The status says whether the priority is shared, and with whom. *)
Definition marked (subs : list MaaSSubscription) (s s' : MaaSSubscription) : Prop :=
  ss_Spec (body s') = ss_Spec (body s)
  ∧ FindStatusCondition (ss_Conditions (status_of s')) ConditionSpecPriorityDuplicate
    = Some (duplicate_condition (priority_of s) (peers subs s) (Generation (meta s))).

Lemma scan_one_always subs (s : MaaSSubscription) cl :
  cl KSubscription !! key_of s = Some s → live s = true →
  always (scan_one subs s) cl (λ _ cl', (∀ k, k ≠ KSubscription → cl' k = cl k)
    ∧ (∀ key, key ≠ key_of s → cl' KSubscription !! key = cl KSubscription !! key)
    ∧ ∃ s', cl' KSubscription !! key_of s = Some s' ∧ marked subs s s').
Proof.
  intros Hs Hl. unfold scan_one. apply always_seq. intros x cl' [-> Hx]. rewrite Hs in Hx. subst x. cbn [always].
  rewrite Hl. cbn [negb]. cbv zeta. case_bool_decide as Hc.
  { cbn [always]. split_and!; [done..|]. exists s. split; [exact Hs|]. split; [done|exact Hc]. }
  apply always_seq. intros x cl' Hx. cbn [replies] in Hx.
  change (key_of (set_status _ s)) with (key_of s) in Hx. rewrite Hs in Hx.
  destruct Hx as (o & -> & _ & [Hsp Hst] & (H1 & H2 & H3)). cbn [always]. split_and!; [exact H3|exact H2|].
  exists o. split; [exact H1|]. split; [exact Hsp|]. unfold status_of. rewrite Hst.
  assert (c_Type (duplicate_condition (priority_of s) (peers subs s) (Generation (meta s))) = ConditionSpecPriorityDuplicate) as <-
    by (unfold duplicate_condition; by case_match).
  apply find_set_eq.
Qed.

Lemma scan_all_always subs (l : list MaaSSubscription) cl :
  NoDup (map key_of l) → (∀ s, s ∈ l → cl KSubscription !! key_of s = Some s ∧ live s = true) →
  always (for_each (scan_one subs) l) cl (λ _ cl', (∀ k, k ≠ KSubscription → cl' k = cl k)
    ∧ (∀ key, key ∉ map key_of l → cl' KSubscription !! key = cl KSubscription !! key)
    ∧ ∀ s, s ∈ l → ∃ s', cl' KSubscription !! key_of s = Some s' ∧ marked subs s s').
Proof.
  revert cl. induction l as [|s l IH]; intros cl Hnd Hl; cbn [for_each].
  { split_and!; [done..|]. by intros s Hno%elem_of_nil. }
  cbn [map] in Hnd. apply NoDup_cons in Hnd as [Hs Hnd].
  apply always_seq. eapply always_weaken; [apply scan_one_always; by apply Hl; left|].
  intros [] cl1 (Ho1 & Hk1 & s' & Hs' & Hm). apply always_seq. eapply always_weaken; [apply IH; [done|]|].
  { intros t Ht. destruct (Hl t) as [H1 H2]; [by right|]. split; [|exact H2]. rewrite Hk1; [exact H1|].
    intros E. apply Hs. rewrite <- E. apply list_elem_of_fmap. by exists t. }
  intros us cl2 (Ho2 & Hk2 & Hm2). split_and!.
  - intros k Hk. rewrite Ho2, Ho1; done.
  - cbn [map]. intros key [Hne Hnot]%not_elem_of_cons. rewrite Hk2, Hk1; done.
  - intros t [->|Ht]%elem_of_cons; [|by apply Hm2]. exists s'. split; [|exact Hm]. rewrite (Hk2 _ Hs). exact Hs'.
Qed.

(** The live subscriptions of tenant namespaces. *)
Definition scanned (cl : Cluster) (s : MaaSSubscription) : Prop :=
  cl KSubscription !! key_of s = Some s ∧ live s = true ∧ allowed_namespace cl (Namespace (meta s)) = true.
Definition shares_priority (cl : Cluster) (s : MaaSSubscription) (k : string) : Prop :=
  k ≠ shown (key_of s) ∧ ∃ t, scanned cl t ∧ k = shown (key_of t)
    ∧ Namespace (meta t) = Namespace (meta s) ∧ priority_of t = priority_of s.

(** on a cluster that answers every call, the scan gives every live
    subscription of a tenant namespace the condition that says whether another
    one of its namespace has its priority, naming exactly those; it
    changes no specification, no other subscription and no other object. *)
Theorem duplicate_scan (cl : Cluster) :
  well_stored cl →
  always scanForDuplicatePriority cl (λ _ cl',
    (∀ k, k ≠ KSubscription → cl' k = cl k)
    ∧ (∀ key, (¬ ∃ s, scanned cl s ∧ key_of s = key) → cl' KSubscription !! key = cl KSubscription !! key)
    ∧ ∀ s, scanned cl s → ∃ s' peers, cl' KSubscription !! key_of s = Some s' ∧ ss_Spec (body s') = ss_Spec (body s)
        ∧ (∀ k, k ∈ peers ↔ shares_priority cl s k)
        ∧ FindStatusCondition (ss_Conditions (status_of s')) ConditionSpecPriorityDuplicate
          = Some (duplicate_condition (priority_of s) peers (Generation (meta s)))).
Proof.
  intros Hw. unfold scanForDuplicatePriority. apply always_seq. intros x cl' [-> (l & -> & Hl)]. cbn [always].
  eapply always_reads; [apply filter_subscriptions_reads|]. intros subs ->. cbv zeta.
  set (subs := List.filter live _).
  assert (Hsubs : NoDup subs ∧ ∀ s, s ∈ subs ↔ scanned cl s).
  { pose proof (lists_filter _ _ _ live _ (lists_filter _ _ _ (λ o : MaaSSubscription, allowed_namespace cl (Namespace (meta o))) _ Hl)) as [Hn He].
    split; [exact Hn|]. intros s. unfold subs. rewrite He. unfold scanned. split.
    - intros [[key Hk] [[_ Ha] Hlv]]. split_and!; [|done..]. by rewrite (Hw _ _ _ Hk).
    - intros (Hk & Hlv & Ha). split; [by eexists|]. by split_and!. }
  clearbody subs. destruct Hsubs as [Hn He].
  apply always_seq. eapply always_weaken; [apply scan_all_always|].
  - apply (NoDup_fmap_2_strong key_of); [|exact Hn]. intros s t [Hs _]%He [Ht _]%He E. rewrite E in Hs. congruence.
  - intros s [Hs [Hlv _]]%He. by split.
  - intros us cl' (Ho & Hk & Hm). split_and!; [exact Ho| |].
    + intros key Hno. apply Hk. intros (s & -> & Hs)%list_elem_of_fmap. apply Hno. exists s. split; [by apply He|done].
    + intros s Hs. destruct (Hm s) as (s' & Hs' & Hspec & Hc); [by apply He|]. exists s', (peers subs s). split_and!; [exact Hs'|exact Hspec| |exact Hc].
      intros k. rewrite elem_peers. unfold shares_priority. split; intros [Hne (t & Ht & Hrest)]; (split; [done|]); exists t; (split; [by apply He|done]).
Qed.
End Scan.

(** ** Messages *)

Lemma str_take_app_l n a b : (n ≤ String.length a)%nat → str_take n (a +:+ b) = str_take n a.
Proof. revert a. induction n as [|n IH]; intros [|c a]; cbn; intros H; [done..|lia|]. f_equal. apply IH. lia. Qed.
Lemma str_drop_app_l n a b : (n ≤ String.length a)%nat → str_drop n (a +:+ b) = str_drop n a +:+ b.
Proof. revert a. induction n as [|n IH]; intros [|c a]; cbn; intros H; [done..|lia|]. apply IH. lia. Qed.

(** A rune is one of the whole string. *)
Lemma first_rune_app a b n : first_rune a = Some n → first_rune (a +:+ b) = Some n ∧ (1 ≤ n ≤ String.length a)%nat.
Proof.
  destruct a as [|c r]; [done|]. cbn [first_rune String.append String.length].
  set (rest r k := if str_all continuation (str_take k r) && (k <=? String.length r)%nat then Some (S k) else None).
  set (second r lo hi := match r with String b _ => in_range lo hi b | EmptyString => false end).
  assert (Hrest : ∀ k, (1 ≤ k)%nat → rest r k = Some n → rest (r +:+ b) k = Some n ∧ (1 ≤ n ≤ S (String.length r))%nat).
  { intros k Hk. unfold rest. destruct (Nat.leb_spec k (String.length r)) as [Hle|_]; [|by rewrite andb_false_r].
    rewrite andb_true_r, str_take_app_l by lia. destruct (str_all _ _); [|done]. intros [= <-].
    rewrite (proj2 (Nat.leb_le _ _)) by (rewrite str_length_app; lia). split; [done|lia]. }
  assert (Hsecond : ∀ lo hi k, (1 ≤ k)%nat → (if second r lo hi then rest r k else None) = Some n →
    (if second (r +:+ b) lo hi then rest (r +:+ b) k else None) = Some n ∧ (1 ≤ n ≤ S (String.length r))%nat).
  { intros lo hi k Hk. destruct (second r lo hi) eqn:E; [|done]. intros H.
    assert (second (r +:+ b) lo hi = true) as -> by (by destruct r). by apply Hrest. }
  change (str_all continuation (str_take 1 r) && (1 <=? String.length r)%nat) with (str_all continuation (str_take 1 r) && (1 <=? String.length r)%nat).
  fold (rest r 1%nat) (rest r 2%nat) (rest r 3%nat) (rest (r +:+ b) 1%nat) (rest (r +:+ b) 2%nat) (rest (r +:+ b) 3%nat).
  repeat match goal with |- (if in_range ?lo ?hi c then _ else _) = _ → _ => destruct (in_range lo hi c) end.
  - intros [= <-]. split; [done|lia].
  - by apply Hrest; lia.
  - by apply Hsecond; lia.
  - by apply Hsecond; lia.
  - by apply Hrest; lia.
  - by apply Hsecond; lia.
  - by apply Hsecond; lia.
  - by apply Hrest; lia.
  - done.
Qed.

Lemma valid_fuel f s : valid_utf8_within f s = true → ∀ f', (String.length s ≤ f')%nat → valid_utf8_within f' s = true.
Proof.
  revert s. induction f as [|f IH]; intros [|c s] H f' Hf'; try done; try (by destruct f').
  cbn [valid_utf8_within] in H. destruct (first_rune (String c s)) as [n|] eqn:E; [|done].
  pose proof (first_rune_app (String c s) "" n E) as [_ Hn].
  destruct f' as [|f']; [cbn in Hf'; lia|]. cbn [valid_utf8_within]. rewrite E. apply IH; [exact H|].
  rewrite str_drop_length. cbn in *. lia.
Qed.
Lemma valid_append a b : ValidString a = true → ValidString b = true → ValidString (a +:+ b) = true.
Proof.
  intros Ha Hb. apply (valid_fuel (String.length a + String.length b)); [|done].
  unfold ValidString in Ha. remember (String.length a) as f eqn:Ef.
  assert (Hle : (String.length a ≤ f)%nat) by lia. clear Ef. revert a Ha Hle. induction f as [|f IH]; intros [|c a] Ha Hle; cbn in Hle; try lia.
  - exact Hb.
  - apply (valid_fuel _ _ Hb). lia.
  - cbn [valid_utf8_within] in Ha. destruct (first_rune (String c a)) as [n|] eqn:E; [|done].
    destruct (first_rune_app (String c a) b n E) as [E' Hn].
    cbn [valid_utf8_within Nat.add]. change (String c a +:+ b) with (String c (a +:+ b)) in *.
    rewrite E'. change (String c (a +:+ b)) with (String c a +:+ b). rewrite str_drop_app_l by lia.
    apply IH; [exact Ha|]. rewrite str_drop_length. cbn in *. lia.
Qed.

Lemma longest_valid_spec n s :
  ∃ m, (m ≤ n)%nat ∧ longest_valid n s = str_take m s ∧ ValidString (str_take m s) = true
    ∧ ∀ m', (m < m' ≤ n)%nat → ValidString (str_take m' s) = false.
Proof.
  induction n as [|n IH]; cbn [longest_valid]; cbv zeta.
  - exists 0%nat. split_and!; [lia|by destruct s|by destruct s|lia].
  - destruct (ValidString (str_take (S n) s)) eqn:E.
    + exists (S n). split_and!; [lia|done|done|lia].
    + destruct IH as (m & Hm & -> & Hv & Hmax). exists m. split_and!; [lia|done|done|].
      intros m' Hm'. destruct (decide (m' = S n)) as [->|]; [done|]. apply Hmax. lia.
Qed.

(** a status message is kept when it fits, and otherwise becomes its longest
    prefix that is valid UTF-8 within the bound, followed by an ellipsis: it
    never exceeds the bound, and is always valid UTF-8 when the message was or
    did not fit. *)
Theorem truncated_messages msg (maxLen : Z) :
  (3 ≤ maxLen)%Z →
  (len (truncateMessage msg maxLen) ≤ maxLen)%Z
  ∧ ((len msg ≤ maxLen)%Z → truncateMessage msg maxLen = msg)
  ∧ ((maxLen < len msg)%Z → ValidString (truncateMessage msg maxLen) = true
      ∧ ∃ m, (0 ≤ m ≤ maxLen - 3)%Z ∧ truncateMessage msg maxLen = str_take (Z.to_nat m) msg +:+ ellipsis
          ∧ ∀ m', (m < m' ≤ maxLen - 3)%Z → ValidString (str_take (Z.to_nat m') msg) = false).
Proof.
  intros H3. unfold truncateMessage. destruct (Z.leb_spec (len msg) maxLen) as [Hle|Hgt].
  { split_and!; [done..|]. lia. }
  change (len ellipsis) with 3%Z.
  destruct (longest_valid_spec (Z.to_nat (maxLen - 3)) msg) as (m & Hm & -> & Hv & Hmax).
  assert (Hlen : (m ≤ String.length msg)%nat) by (unfold len in Hgt; lia).
  split_and!; [|lia|intros _; split].
  - unfold len. rewrite str_length_app, str_take_length by done. change (String.length ellipsis) with 3%nat. lia.
  - by apply valid_append.
  - exists (Z.of_nat m). rewrite Nat2Z.id. split_and!; [lia|lia|done|]. intros m' Hm'. apply Hmax. lia.
Qed.

End SubscriptionFacts.

(** ** SubscriptionDemo: the subscription controller on a concrete cluster

    One subscription to one external model, and the theorems of
    [SubscriptionRefinement], [SubscriptionFacts] and [SubscriptionSafety]
    applied to it. *)
Module SubscriptionDemo.
Import Kube AITenant TenantLookup ModelRoutes Cluster LookupFacts SubscriptionPolicy SubscriptionRefinement.
Import InferenceObjectives SubscriptionController SubscriptionFacts SubscriptionSafety.

#[local] Instance demo_scope : TenantScope := {|
  DefaultTenantNamespace := "models-as-a-service"; TenantNamespaceDiscoveryEnabled := false;
  FallbackGatewayName := "maas-default-gateway"; FallbackGatewayNamespace := "openshift-ingress" |}.
#[local] Instance demo_reconciler : MaaSSubscriptionReconciler := {|
  AppNamespace := "opendatahub"; HasAPIReader := true; HasRecorder := true; retries := 5; rateLimitIdentityEpoch := 100;
  relatedImage := "maas-api"; inferenceObjectivesUnavailable := false |}.
#[local] Instance demo_conditions : StatusConditions := listed_conditions.
#[local] Instance demo_condition_laws : StatusConditionLaws := listed_conditions_laws.
#[local] Instance demo_util : ControllerUtil := listed_finalizers.
#[local] Instance demo_util_laws : ControllerUtilLaws := listed_finalizers_laws.
#[local] Instance demo_access : K8sAccess := documented_access.
#[local] Instance demo_kmeta : KMeta := {| ChildName parent suffix := parent +:+ suffix |}.

Definition gpt : RateTier.ModelSubscriptionRef := {|
  RateTier.mr_Name := "gpt"; RateTier.mr_Namespace := "llm";
  RateTier.TokenRateLimits := [{| RateTier.Limit := 100; RateTier.Window := "1m" |}]; RateTier.Unlimited := false; RateTier.mr_Guardrails := [] |}.
Definition gold : MaaSSubscription := {|
  meta := new_meta "models-as-a-service" "gold";
  body := {|
    ss_Spec := {| ss_ModelRefs := [gpt]; ss_Priority := 1; ss_InferencePriority := None; ss_RateLimitIdentity := ""; ss_Guardrails := []; ss_Rest := "" |};
    ss_Status := {| ss_Phase := ""; ss_Conditions := []; ss_StatusIdentity := ""; ModelRefStatuses := [];
                    TokenRateLimitStatuses := []; FlowControlStatuses := [] |} |} |}.
Definition gpt_model : MaaSModelRef := {|
  meta := new_meta "llm" "gpt";
  body := {| ModelKind := "ExternalModel"; ModelName := "gpt"; EndpointOverride := ""; TenantRef := ""; mo_Guardrails := [];
             mo_Status := {| mo_Phase := ""; Endpoint := ""; HTTPRouteName := ""; HTTPRouteNamespace := "";
               HTTPRouteGatewayName := ""; HTTPRouteGatewayNamespace := ""; HTTPRouteHostnames := [];
               ResolvedTenantRef := ""; ResolvedModelAlias := ""; mo_Conditions := [] |} |} |}.
Definition gpt_route : HTTPRoute := {|
  meta := new_meta "llm" "maas-gpt";
  body := {| ParentRefs := [{| pr_Group := None; pr_Kind := None; pr_Namespace := Some "openshift-ingress"; pr_Name := "maas-default-gateway" |}];
             Hostnames := []; Parents := [] |} |}.

Definition one_object {k} (o : Obj k) : gmap Key (Obj k) := {[ key_of o := o ]}.
Definition demo_cluster : Cluster := λ k,
  match k return gmap Key (Obj k) with
  | KSubscription => one_object (k := KSubscription) gold
  | KModelRef => one_object (k := KModelRef) gpt_model
  | KHTTPRoute => one_object (k := KHTTPRoute) gpt_route
  | _ => ∅
  end.
Lemma demo_well_stored : well_stored demo_cluster.
Proof.
  assert (H1 : ∀ k (o o' : Obj k) key, one_object o !! key = Some o' → key_of o' = key).
  { intros k o o' key. unfold one_object. intros [<- <-]%lookup_singleton_Some. done. }
  intros k key o H. destruct k; first [discriminate (eq_trans (eq_sym H) (lookup_empty key))|exact (H1 _ _ _ _ H)].
Qed.
Lemma demo_gateway ns : gateway_of demo_cluster ns = HasGateway fallback_gateway.
Proof.
  unfold gateway_of. replace (tenant_config demo_cluster ns) with (@None TenantForNamespace).
  - by rewrite orb_true_r.
  - unfold tenant_config. cbn [demo_cluster]. by rewrite !lookup_empty.
Qed.

Definition demo_policy (cl : Cluster) : Prop := policy_spec demo_cluster ("llm", "gpt") ("llm", "maas-gpt") gpt_route cl.
Lemma policy_refines_witness :
  always (reconcileTRLPForModel ("llm", "gpt")) demo_cluster (λ x cl', x = Ok tt ∧ demo_policy cl').
Proof.
  apply policy_refines.
  - apply demo_well_stored.
  - intros ns ref. rewrite demo_gateway. intros [= <-]. reflexivity.
  - intros s _ _. rewrite demo_gateway. discriminate.
  - apply (external_route_reads demo_cluster ("llm", "gpt") gpt_model); [reflexivity..|]. exists gpt_route. reflexivity.
  - reflexivity.
  - apply Nat.leb_le. reflexivity.
  - intros p H. discriminate H.
Defined.


Lemma demo_brand_new : brand_new gold.
Proof. split_and!; [reflexivity..| |reflexivity|reflexivity|reflexivity]. intros H. inversion H. Qed.

(** A server that stores every update and refuses every status. *)
Definition conflict : ApiErr := {| ae_Reason := ReasonConflict; ae_Kind := ""; ae_Text := "the object has been modified" |}.
Definition refusing (X : Type) (c : Call X) (s : bool) : bool * X :=
  match c in Call X return bool * X with
  | Get _ _ _ | Create _ _ | UpdateStatus _ _ | Patch _ _ _ _ | ListAll _ _ _ | ListBy _ _ _ | Delete _ _ _ => (s, Err conflict)
  | Update _ o => (true, Ok o)
  | Eventf _ _ _ _ => (s, tt)
  end.
Lemma interrupted_reconcile_witness :
  classify gold = "short"
  ∧ run refusing (reconcile_live gold) false = (true, Err (wrap "failed to persist rateLimitIdentity" conflict))
  ∧ classify (with_finalizer gold) = "legacy".
Proof. apply (interrupted_reconcile_turns_legacy refusing false true true gold conflict); [exact demo_brand_new|reflexivity..]. Defined.

Lemma truncated_messages_witness :
  (len (truncateMessage "priority of ten models" 8) ≤ 8)%Z ∧ truncateMessage "priority" 8 = "priority".
Proof.
  split; [apply (truncated_messages "priority of ten models" 8); lia|].
  apply (truncated_messages "priority" 8); [lia|]. vm_compute. discriminate.
Defined.

Lemma duplicate_scan_witness :
  always scanForDuplicatePriority demo_cluster (λ _ cl', ∃ s',
    cl' KSubscription !! ("models-as-a-service", "gold") = Some s' ∧ ss_Spec (body s') = ss_Spec (body gold)).
Proof.
  eapply always_weaken; [apply duplicate_scan, demo_well_stored|]. cbv beta. intros _ cl' (_ & _ & H).
  destruct (H gold) as (s' & peers & Hs & Hsp & _); [split_and!; reflexivity|]. exists s'. exact (conj Hs Hsp).
Defined.

End SubscriptionDemo.
