(* ===== verification/ModelBackends.v ===== *)
(** * ModelBackends: the backends of model references

    [maas-controller/pkg/controller/maas/providers_external.go],
    [providers_llmisvc.go] and the tenant resolution of
    [maasmodelref_controller.go]: which HTTPRoute and Gateway a MaaSModelRef is
    served through, whether its backend is ready, at which address, and under
    which name. *)

From S2P Require Import Prelude GoStrings Kube AITenant TenantLookup ModelRoutes InferenceObjectives.
From Stdlib Require String.
Local Open Scope string_scope.

Module ModelBackends.
Import Kube AITenant TenantLookup ModelRoutes InferenceObjectives.

(** The fields of the controller; the Gateway of its flags is the fallback of
    [TenantScope]. *)
Class MaaSModelRefReconciler := { AITenantNamespace : string; HasRecorder : bool }.

(** ** The status of a model *)

Definition mo_of (m : MaaSModelRef) : MaaSModelStatus := mo_Status (body m).
Definition set_mo (f : MaaSModelStatus → MaaSModelStatus) (m : MaaSModelRef) : MaaSModelRef := {|
  meta := meta m;
  body := {| ModelKind := ModelKind (body m); ModelName := ModelName (body m); EndpointOverride := EndpointOverride (body m);
             TenantRef := TenantRef (body m); mo_Guardrails := mo_Guardrails (body m); mo_Status := f (mo_of m) |} |}.
Definition set_tenant (t : string) (st : MaaSModelStatus) : MaaSModelStatus := {|
  mo_Phase := mo_Phase st; Endpoint := Endpoint st; HTTPRouteName := HTTPRouteName st;
  HTTPRouteNamespace := HTTPRouteNamespace st; HTTPRouteGatewayName := HTTPRouteGatewayName st;
  HTTPRouteGatewayNamespace := HTTPRouteGatewayNamespace st; HTTPRouteHostnames := HTTPRouteHostnames st;
  ResolvedTenantRef := t; ResolvedModelAlias := ResolvedModelAlias st; mo_Conditions := mo_Conditions st |}.
Definition set_endpoint (e : string) (st : MaaSModelStatus) : MaaSModelStatus := {|
  mo_Phase := mo_Phase st; Endpoint := e; HTTPRouteName := HTTPRouteName st;
  HTTPRouteNamespace := HTTPRouteNamespace st; HTTPRouteGatewayName := HTTPRouteGatewayName st;
  HTTPRouteGatewayNamespace := HTTPRouteGatewayNamespace st; HTTPRouteHostnames := HTTPRouteHostnames st;
  ResolvedTenantRef := ResolvedTenantRef st; ResolvedModelAlias := ResolvedModelAlias st; mo_Conditions := mo_Conditions st |}.
(** The route, the Gateway it is used on, and its host names. *)
Definition set_route (route gateway : Key) (hostnames : list string) (st : MaaSModelStatus) : MaaSModelStatus := {|
  mo_Phase := mo_Phase st; Endpoint := Endpoint st; HTTPRouteName := route.2; HTTPRouteNamespace := route.1;
  HTTPRouteGatewayName := gateway.2; HTTPRouteGatewayNamespace := gateway.1; HTTPRouteHostnames := hostnames;
  ResolvedTenantRef := ResolvedTenantRef st; ResolvedModelAlias := ResolvedModelAlias st; mo_Conditions := mo_Conditions st |}.
Definition clearRouteStatus (st : MaaSModelStatus) : MaaSModelStatus := set_endpoint "" (set_route ("", "") ("", "") [] st).

Section Backends.
Context `{TS : TenantScope} `{MR : MaaSModelRefReconciler} `{SC : StatusConditions}.

(** ** The tenant of a model *)

Definition gateway_key (ref : TenantGatewayRef) : Key := (gr_Namespace ref, gr_Name ref).
Definition key_gateway (k : Key) : TenantGatewayRef := {| gr_Namespace := k.1; gr_Name := k.2 |}.
Definition parent_gateways (route : HTTPRoute) : list Key :=
  map (routeParentGateway route) (List.filter parentRefTargetsGateway (ParentRefs (body route))).

(** [tenantsByGateway]. *)
Definition tenantsByGateway (tenants : list AITenant) (k : Key) : list string :=
  map (λ t, Name (meta t))
    (List.filter (λ t, let ref := GatewayRef (Status (body t)) in
                       negb (incomplete ref) && bool_decide (gateway_key ref = k)) tenants).
(** The tenants on the route's Gateways, each with the first Gateway it was
    found on. *)
Definition add_match (k : Key) (matches : list (string * Key)) (tenant : string) : list (string * Key) :=
  if bool_decide (tenant ∈ map fst matches) then matches else (matches ++ [(tenant, k)])%list.
Definition gateway_matches (tenants : list AITenant) (gateways : list Key) : list (string * Key) :=
  fold_left (λ matches k, fold_left (add_match k) (tenantsByGateway tenants k) matches) gateways [].

Definition bracketed (l : list string) : string := "[" +:+ join " " l +:+ "]".
Definition resolveGatewayRefFromHTTPRoute (model : MaaSModelRef) (route : HTTPRoute)
    : Prog (MaaSModelRef * Res GoErr TenantGatewayRef) :=
  let unresolved e := Ret (set_mo (set_tenant "") model, Err e) in
  match ParentRefs (body route) with
  | [] => unresolved {| etext := "tenant resolution pending: HTTPRoute " +:+ shown (key_of route) +:+ " has no gateway parentRefs";
                        cause := Wraps ErrTenantResolutionPending |}
  | _ =>
      listed ← call (ListAll KAITenant AITenantNamespace ∅);
      match listed with
      | Err e => Ret (model, Err (wrap "failed to list AITenants for auto-resolution" e))
      | Ok tenants =>
          match gateway_matches tenants (parent_gateways route) with
          | [(tenant, k)] => Ret (set_mo (set_tenant tenant) model, Ok (key_gateway k))
          | [] =>
              unresolved (plain ("no AITenant found for any gateway referenced by HTTPRoute " +:+ shown (key_of route)
                +:+ " (gateways: " +:+ bracketed (map shown (parent_gateways route))
                +:+ "); ensure an AITenant exists with a matching gateway, or set spec.tenantRef explicitly"))
          | matches =>
              unresolved (plain ("multiple gateways on HTTPRoute " +:+ shown (key_of route) +:+ " match different AITenants: "
                +:+ bracketed (map (λ m, shown m.2 +:+ " (tenant " +:+ m.1 +:+ ")") matches)
                +:+ "; set spec.tenantRef explicitly to select the desired tenant"))
          end
      end
  end.

(** With [spec.tenantRef] the route is not read. *)
Definition resolveGatewayRef (model : MaaSModelRef) (route : HTTPRoute) : Prog (MaaSModelRef * Res GoErr TenantGatewayRef) :=
  let tenantRef := TenantRef (body model) in
  if String.eqb tenantRef "" then resolveGatewayRefFromHTTPRoute model route else
  let named := "AITenant " +:+ dquote +:+ tenantRef +:+ dquote in
  t ← call (Get true KAITenant (AITenantNamespace, tenantRef));
  Ret (match t with
       | Err e =>
           if isNotFound e then (set_mo (set_tenant "") model, Err (plain (named +:+ " not found in namespace " +:+ AITenantNamespace)))
           else (model, Err (wrap ("failed to get " +:+ named) e))
       | Ok t =>
           let ref := GatewayRef (Status (body (t : AITenant))) in
           if incomplete ref then (set_mo (set_tenant "") model, Err (plain (named +:+ " has no gateway reference in status")))
           else (set_mo (set_tenant tenantRef) model, Ok ref)
       end).

(** The loop over the parents: whether the expected Gateway is one, and it or
    else the first one with a name. *)
Fixpoint find_parent (expected first : Key) (gateways : list Key) : bool * Key :=
  match gateways with
  | [] => (false, first)
  | k :: rest =>
      if bool_decide (k = expected) then (true, k)
      else find_parent expected (if String.eqb first.2 "" then k else first) rest
  end.

(** ** Addresses *)

(** [url.URL.Hostname] and [url.URL.String], of a URL whose host and path need
    no escaping: parsing its text gives it back. *)
Fixpoint last_index (c : ascii) (s : string) : option nat :=
  match s with
  | EmptyString => None
  | String d r => match last_index c r with
                  | Some i => Some (S i)
                  | None => if Ascii.eqb d c then Some 0%nat else None
                  end
  end.
Definition digits (s : string) : bool := str_all (in_range 48 57) s.
Definition Hostname (u : URL) : string :=
  let hp := Host u in
  let host := match last_index ":" hp with
              | Some i => if digits (str_drop (S i) hp) then str_take i hp else hp
              | None => hp
              end in
  if has_prefix "[" host && has_suffix "]" host then str_take (String.length host - 2) (str_drop 1 host) else host.
Definition url_string (u : URL) : string :=
  let some s := negb (String.eqb s "") in
  (if some (Scheme u) then Scheme u +:+ ":" else "")
  +:+ (if (some (Scheme u) || some (Host u)) && (some (Host u) || some (Path u)) then "//" +:+ Host u else "")
  +:+ (if some (Path u) && negb (has_prefix "/" (Path u)) && some (Host u) then "/" else "")
  +:+ Path u.

Definition upgradeToHTTPS (rawURL : string) : string :=
  if (7 <=? String.length rawURL)%nat && String.eqb (to_lower (str_take 7 rawURL)) "http://"
  then "https://" +:+ str_drop 7 rawURL else rawURL.
Definition isClusterLocalURL (u : URL) : bool :=
  let host := trim_suffix "." (to_lower (Hostname u)) in
  if String.eqb host "" then false else has_suffix ".svc" host || has_suffix ".svc.cluster.local" host.

Definition addressNameGatewayExternal : string := "gateway-external".
Definition addressNameGatewayExternalModelRouting : string := "gateway-external-model-routing".

(** The candidates of a name; with expected host names only those at one. *)
Definition candidates (addresses : list ServiceAddress) (targetName : string) (hosts : list string) : list URL :=
  omap (λ a, match sa_Name a, sa_URL a with
             | Some n, Some u =>
                 if String.eqb n targetName && negb (isClusterLocalURL u)
                    && (bool_decide (hosts = []) || negb (String.eqb (to_lower (Hostname u)) "")
                                                   && bool_decide (to_lower (Hostname u) ∈ hosts))
                 then Some u else None
             | _, _ => None
             end) addresses.
Definition is_https (u : URL) : bool := String.eqb (to_lower (Scheme u)) "https".
Definition selectAddress (addresses : list ServiceAddress) (targetName : string) (hosts : list string) : string :=
  let urls := candidates addresses targetName hosts in
  match List.find is_https urls, urls with
  | Some u, _ => url_string u
  | None, u :: _ => upgradeToHTTPS (url_string u)
  | None, [] => ""
  end.

Definition is_base (u : URL) : bool := String.eqb (Path u) "" || String.eqb (Path u) "/".
(** The first public base URL, or else the first public URL. *)
Fixpoint public_url (urls : list URL) (fallback : string) : string :=
  match urls with
  | [] => fallback
  | u :: rest =>
      let raw := url_string u in
      if isClusterLocalURL u then public_url rest fallback
      else if is_base u then upgradeToHTTPS raw
      else public_url rest (if String.eqb fallback "" then upgradeToHTTPS raw else fallback)
  end.
Definition or_else (a b : string) : string := if String.eqb a "" then b else a.
Definition getEndpointFromLLMISvc (l : Obj KLLMInferenceService) (expectedHostnames : list string) : string :=
  let hosts := map to_lower expectedHostnames in
  let selected name := selectAddress (ll_Addresses (body l)) name hosts in
  or_else (selected addressNameGatewayExternalModelRouting)
    (or_else (selected addressNameGatewayExternal)
       (if bool_decide (hosts = [])
        then public_url (omap sa_URL (ll_Addresses (body l)) ++ option_list (ll_URL (body l)))%list ""
        else "")).

(** The host a Gateway is reached at. *)
Definition gateway_host (gw : Obj KGateway) : option string :=
  match omap li_Hostname (Listeners (body gw)) with
  | h :: _ => Some h
  | [] =>
      match List.find (λ a, bool_decide (a.1 = Some "Hostname")) (gw_Addresses (body gw)), gw_Addresses (body gw) with
      | Some a, _ => Some a.2
      | None, a :: _ => Some a.2
      | None, [] => None
      end
  end.
Definition gateway_endpoint (gateway : Key) (suffix : string) : Prog (Res GoErr string) :=
  gw ← call (Get true KGateway gateway);
  Ret (match gw with
       | Err e => Err (wrap ("failed to get gateway " +:+ shown gateway) e)
       | Ok gw =>
           match gateway_host gw with
           | Some h => Ok ("https://" +:+ h +:+ suffix)
           | None => Err (plain ("unable to determine endpoint: gateway " +:+ shown gateway +:+ " has no hostname or addresses"))
           end
       end).

(** ** What a backend does for a model

    [ReconcileRoute] answers with the model, its status filled in, and why the
    Gateway rejects its route; the other operations only read. *)
Record RouteOutcome := { ro_Model : MaaSModelRef; ro_NotReady : string * string; ro_Err : option GoErr }.
Definition routed (m : MaaSModelRef) : RouteOutcome := {| ro_Model := m; ro_NotReady := ("", ""); ro_Err := None |}.
Definition unrouted (m : MaaSModelRef) (e : GoErr) : RouteOutcome :=
  {| ro_Model := m; ro_NotReady := ("", ""); ro_Err := Some e |}.

Record BackendHandler := {
  ReconcileRoute : MaaSModelRef → Prog RouteOutcome;
  HandlerStatus : MaaSModelRef → Prog (Res GoErr (string * bool));
  ResolveModelAlias : MaaSModelRef → Prog (Res GoErr string);
  CleanupOnDelete : MaaSModelRef → Prog (Res GoErr unit);
}.

Definition not_referenced (route : Key) : string := "HTTPRoute " +:+ shown route +:+ " does not reference gateway ".

(** *** LLMInferenceService *)

Definition validateLLMISvcHTTPRoute (model : MaaSModelRef) : Prog RouteOutcome :=
  let ns := Namespace (meta model) in
  let labels := <["app.kubernetes.io/name" := ModelName (body model)]>
                (<["app.kubernetes.io/component" := "llminferenceservice-router"]>
                 {[ "app.kubernetes.io/part-of" := "llminferenceservice" ]}) in
  routes ← call (ListAll KHTTPRoute ns labels);
  match routes with
  | Err e => Ret (unrouted model (wrap ("failed to list HTTPRoutes for LLMInferenceService " +:+ ModelName (body model)) e))
  | Ok [] => Ret (unrouted model (route_pending ("for LLMInferenceService " +:+ ModelName (body model) +:+ " in namespace " +:+ ns)))
  | Ok (route :: _) =>
      resolved ← resolveGatewayRef model route;
      let '(model, gatewayRef) := (resolved : MaaSModelRef * Res GoErr TenantGatewayRef) in
      match gatewayRef with
      | Err e => Ret (unrouted model (wrap_err ("resolve tenant gateway for model " +:+ shown (key_of model)) e))
      | Ok expected =>
          let name := (ns, Name (meta route)) in
          let parents := map (λ p, (default ns (pr_Namespace p), pr_Name p))
                           (List.filter parentRefTargetsGateway (ParentRefs (body (route : HTTPRoute)))) in
          let '(found, gateway) := find_parent (gateway_key expected) ("", "") parents in
          let model := set_mo (set_route name gateway (Hostnames (body (route : HTTPRoute)))) model in
          Ret (if (found : bool) then routed model
               else unrouted model (plain (not_referenced name
                 +:+ "(expected: " +:+ shown (gateway_key expected) +:+ ", found: " +:+ shown gateway
                 +:+ "). The LLMInferenceService must be configured to use " +:+ shown (gateway_key expected))))
      end
  end.

Definition llmisvc_GetModelEndpoint (model : MaaSModelRef) : Prog (Res GoErr string) :=
  let suffix := "/" +:+ Name (meta model) in
  match HTTPRouteHostnames (mo_of model) with
  | h :: _ => Ret (Ok ("https://" +:+ h +:+ suffix))
  | [] =>
      gateway_endpoint
        (if String.eqb (HTTPRouteGatewayName (mo_of model)) "" then (FallbackGatewayNamespace, FallbackGatewayName)
         else (HTTPRouteGatewayNamespace (mo_of model), HTTPRouteGatewayName (mo_of model))) suffix
  end.
Definition llmisvc_ready (l : Obj KLLMInferenceService) : bool :=
  existsb (λ c, String.eqb (c_Type c) "Ready" && String.eqb (c_Status c) "True") (ll_Conditions (body l)).
Definition llmisvc_Status (model : MaaSModelRef) : Prog (Res GoErr (string * bool)) :=
  l ← call (Get true KLLMInferenceService (model_at model));
  match l with
  | Err e => Ret (Err (if isNotFound e
                       then plain ("LLMInferenceService " +:+ ModelName (body model) +:+ " not found in namespace " +:+ Namespace (meta model))
                       else of_api e))
  | Ok l =>
      if negb (llmisvc_ready l) then Ret (Ok ("", false)) else
      let endpoint := getEndpointFromLLMISvc l (HTTPRouteHostnames (mo_of model)) in
      if negb (String.eqb endpoint "") then Ret (Ok (endpoint, true)) else
      endpoint <-! llmisvc_GetModelEndpoint model ;; Ret (Ok (endpoint, true))
  end.
Definition llmisvc_alias (model : MaaSModelRef) (l : Obj KLLMInferenceService) : string :=
  match List.find (λ a, match sa_Models a with m :: _ => negb (String.eqb m "") | [] => false end) (ll_Addresses (body l)) with
  | Some a => default "" (head (sa_Models a))
  | None =>
      let named := default "" (ll_ModelName (body l)) in
      "publishers/" +:+ Namespace (meta model) +:+ "/models/" +:+ (if String.eqb named "" then Name (meta l) else named)
  end.
Definition llmisvc_ResolveModelAlias (model : MaaSModelRef) : Prog (Res GoErr string) :=
  l ← call (Get true KLLMInferenceService (model_at model));
  Ret (match l with Ok l => Ok (llmisvc_alias model l) | Err e => Err (of_api e) end).
(** KServe owns the routes. *)
Definition llmisvc_CleanupOnDelete (model : MaaSModelRef) : Prog (Res GoErr unit) := Ret (Ok tt).

Definition llmisvcHandler : BackendHandler := {|
  ReconcileRoute := validateLLMISvcHTTPRoute; HandlerStatus := llmisvc_Status; ResolveModelAlias := llmisvc_ResolveModelAlias;
  CleanupOnDelete := llmisvc_CleanupOnDelete |}.

(** *** ExternalModel *)

(** The Gateways that reject a route, the first entry of each. *)
Definition add_rejection (route : HTTPRoute) (rejections : gmap Key (string * string)) (p : RouteParentStatus) : gmap Key (string * string) :=
  match FindStatusCondition (parent_Conditions p) "Accepted" with
  | Some c =>
      let gateway := routeParentGateway route (ParentRef p) in
      if negb (String.eqb (c_Status c) ConditionFalse) then rejections
      else if bool_decide (is_Some (rejections !! gateway)) || bool_decide (gateway ∈ acceptedRouteParents route) then rejections
      else <[gateway := (c_Reason c, c_Message c)]> rejections
  | None => rejections
  end.
Definition routeRejections (route : HTTPRoute) : gmap Key (string * string) := fold_left (add_rejection route) (Parents (body route)) ∅.

(** The route of the result for the model's tenant, ("", "") when there is none. *)
Definition selectGatewayRoute (model : MaaSModelRef) (routes : gmap Key Key) : Prog (MaaSModelRef * Res GoErr Key) :=
  if negb (String.eqb (TenantRef (body model)) "") then
    resolved ← resolveGatewayRef model {| meta := new_meta "" ""; body := {| ParentRefs := []; Hostnames := []; Parents := [] |} |};
    let '(model, gateway) := (resolved : MaaSModelRef * Res GoErr TenantGatewayRef) in
    Ret (model, res_map (λ g, default ("", "") (routes !! gateway_key g)) gateway)
  else
    match map_to_list routes with
    | [] => Ret (model, Ok ("", ""))
    | [(_, route)] => Ret (model, Ok route)
    | l => Ret (model, Err (plain ("ExternalModel " +:+ shown (model_at model) +:+ " is attached to several gateways "
                              +:+ bracketed (sort_strings (map (λ kr, shown kr.1) l)) +:+ "; set spec.tenantRef to select the tenant")))
    end.

Definition rejection_message (gateway route : Key) (rejected : string * string) : string :=
  "Gateway " +:+ shown gateway +:+ " has not accepted HTTPRoute " +:+ shown route +:+ " (" +:+ rejected.1 +:+ ")"
  +:+ (if String.eqb rejected.2 "" then "" else ": " +:+ rejected.2).

(** The route is checked against the tenant's Gateway; only one that accepted
    it is recorded. *)
Definition validate_external (model : MaaSModelRef) (key : Key) (route : HTTPRoute) : Prog RouteOutcome :=
  resolved ← resolveGatewayRef model route;
  let '(model, gatewayRef) := (resolved : MaaSModelRef * Res GoErr TenantGatewayRef) in
  match gatewayRef with
  | Err e => Ret (unrouted model (wrap_err "failed to resolve gateway for ExternalModel" e))
  | Ok ref =>
      let expected := gateway_key ref in
      let parents := map (λ p, (default key.1 (pr_Namespace p), pr_Name p))
                       (List.filter parentRefTargetsGateway (ParentRefs (body route))) in
      let '(found, gateway) := find_parent expected ("", "") parents in
      Ret (if negb found then unrouted model (plain (not_referenced key
              +:+ shown expected +:+ " (found: " +:+ shown gateway +:+ ")")) else
           if bool_decide (expected ∈ acceptedRouteParents route)
           then routed (set_mo (set_route key gateway (Hostnames (body route))) model)
           else {| ro_Model := set_mo (set_route key ("", "") []) model;
                   ro_NotReady := match routeRejections route !! expected with
                                  | Some rejected => ("NotAccepted", truncateConditionMessage (rejection_message expected key rejected))
                                  | None => ("", "")
                                  end;
                   ro_Err := None |})
  end.
Definition external_checked (model : MaaSModelRef) (key : Key) : Prog RouteOutcome :=
  route ← call (Get true KHTTPRoute key);
  match route with
  | Err e => Ret (if isNotFound e then routed (set_mo clearRouteStatus model)
                  else unrouted model (wrap ("failed to get HTTPRoute " +:+ shown key) e))
  | Ok route => validate_external model key route
  end.
Definition external_ReconcileRoute (model : MaaSModelRef) : Prog RouteOutcome :=
  let ns := Namespace (meta model) in
  em ← call (Get true KExternalModel (model_at model));
  match em with
  | Ok em =>
      match externalModelGatewayRoutes em with
      | Some routes =>
          selected ← selectGatewayRoute (set_mo clearRouteStatus model) routes;
          let '(model, route) := (selected : MaaSModelRef * Res GoErr Key) in
          match route with
          | Err e => Ret (unrouted model e)
          | Ok key => if String.eqb key.2 "" then Ret (routed (set_mo clearRouteStatus model)) else external_checked model key
          end
      | None =>
          let name := ippExternalModelRouteName em in
          if String.eqb name "" then Ret (routed (set_mo clearRouteStatus model)) else external_checked model (ns, name)
      end
  | Err e =>
      if negb (isNotFound e) && negb (isNoMatch e)
      then Ret (unrouted model (wrap ("failed to get ExternalModel " +:+ ModelName (body model)) e)) else
      legacy ← call (Get true KLegacyExternalModel (model_at model));
      match legacy with
      | Err e => Ret (unrouted model (if isNotFound e
                        then plain ("ExternalModel " +:+ ModelName (body model) +:+ " not found in namespace " +:+ ns
                                    +:+ " (checked inference.opendatahub.io and maas.opendatahub.io)")
                        else wrap ("failed to get maas ExternalModel " +:+ ModelName (body model)) e))
      | Ok _ => external_checked model (ns, ExternalModelResourceName (ModelName (body model)))
      end
  end.

Definition external_Status (model : MaaSModelRef) : Prog (Res GoErr (string * bool)) :=
  let st := mo_of model in
  if String.eqb (HTTPRouteName st) "" || String.eqb (HTTPRouteGatewayName st) "" then Ret (Ok ("", false)) else
  endpoint <-! match HTTPRouteHostnames st with
               | h :: _ => Ret (Ok ("https://" +:+ h))
               | [] => gateway_endpoint (HTTPRouteGatewayNamespace st, HTTPRouteGatewayName st) ""
               end ;;
  Ret (Ok (endpoint, true)).
Definition external_ResolveModelAlias (model : MaaSModelRef) : Prog (Res GoErr string) :=
  em ← call (Get true KExternalModel (model_at model));
  Ret (match em with
       | Ok em => let named := default "" (em_ModelName (body em)) in
                  Ok (if String.eqb named "" then ModelName (body model) else named)
       | Err e => if isNotFound e || isNoMatch e then Ok (ModelName (body model))
                  else Err (wrap ("failed to get ExternalModel " +:+ ModelName (body model)) e)
       end).
(** The ExternalModel reconciler cleans up with its own finalizer. *)
Definition external_CleanupOnDelete (model : MaaSModelRef) : Prog (Res GoErr unit) := Ret (Ok tt).

Definition externalModelHandler : BackendHandler := {|
  ReconcileRoute := external_ReconcileRoute; HandlerStatus := external_Status; ResolveModelAlias := external_ResolveModelAlias;
  CleanupOnDelete := external_CleanupOnDelete |}.

Definition GetBackendHandler (kind : string) : option BackendHandler :=
  if String.eqb kind "LLMInferenceService" || String.eqb kind "llmisvc" then Some llmisvcHandler
  else if String.eqb kind "ExternalModel" then Some externalModelHandler else None.

End Backends.
End ModelBackends.
