(* ===== verification/ModelController.v ===== *)
(** * ModelController: the controller of model references

    [maas-controller/pkg/controller/maas/maasmodelref_controller.go] and
    [model_identity_conflict.go], with the lookups of [helpers.go] it uses: when
    a MaaSModelRef is Ready, what its status says, what is deleted with it, and
    which models an event wakes up. *)

From S2P Require Import Prelude GoStrings RateTier Kube AITenant TenantLookup ModelRoutes SubscriptionPolicy InferenceObjectives ModelBackends.
From Stdlib Require String.
Local Open Scope string_scope.

Module ModelController.
Import Kube AITenant TenantLookup ModelRoutes SubscriptionPolicy InferenceObjectives ModelBackends.

Notation MaaSAuthPolicy := (Object (Body KMaaSAuthPolicy)).

Definition maasModelFinalizer : string := "maas.opendatahub.io/model-cleanup".
Definition ConditionGovernanceAttached : string := "GovernanceAttached".
Definition ConditionRuntimeReady : string := "RuntimeReady".
Definition ConditionModelIdentityUnique : string := "ModelIdentityUnique".

(** ** Status updates *)

Definition set_phase (p : string) (st : MaaSModelStatus) : MaaSModelStatus := {|
  mo_Phase := p; Endpoint := Endpoint st; HTTPRouteName := HTTPRouteName st;
  HTTPRouteNamespace := HTTPRouteNamespace st; HTTPRouteGatewayName := HTTPRouteGatewayName st;
  HTTPRouteGatewayNamespace := HTTPRouteGatewayNamespace st; HTTPRouteHostnames := HTTPRouteHostnames st;
  ResolvedTenantRef := ResolvedTenantRef st; ResolvedModelAlias := ResolvedModelAlias st; mo_Conditions := mo_Conditions st |}.
Definition set_alias (a : string) (st : MaaSModelStatus) : MaaSModelStatus := {|
  mo_Phase := mo_Phase st; Endpoint := Endpoint st; HTTPRouteName := HTTPRouteName st;
  HTTPRouteNamespace := HTTPRouteNamespace st; HTTPRouteGatewayName := HTTPRouteGatewayName st;
  HTTPRouteGatewayNamespace := HTTPRouteGatewayNamespace st; HTTPRouteHostnames := HTTPRouteHostnames st;
  ResolvedTenantRef := ResolvedTenantRef st; ResolvedModelAlias := a; mo_Conditions := mo_Conditions st |}.
Definition set_conditions (f : list Condition → list Condition) (st : MaaSModelStatus) : MaaSModelStatus := {|
  mo_Phase := mo_Phase st; Endpoint := Endpoint st; HTTPRouteName := HTTPRouteName st;
  HTTPRouteNamespace := HTTPRouteNamespace st; HTTPRouteGatewayName := HTTPRouteGatewayName st;
  HTTPRouteGatewayNamespace := HTTPRouteGatewayNamespace st; HTTPRouteHostnames := HTTPRouteHostnames st;
  ResolvedTenantRef := ResolvedTenantRef st; ResolvedModelAlias := ResolvedModelAlias st; mo_Conditions := f (mo_Conditions st) |}.

(** ** Indexes

    The values a model is listed under. *)
Definition modelRefNameIndex : string := "spec.modelRef.name".
Definition modelRefNameIndexer (m : MaaSModelRef) : list string :=
  if String.eqb (ModelName (body m)) "" then [] else [ModelName (body m)].
Definition tenantAssociationIndex : string := ".tenantAssociation".
Definition tenantAssociationUnresolved : string := "_unresolved_".
Definition tenantAssociationIndexer (m : MaaSModelRef) : list string :=
  if negb (String.eqb (TenantRef (body m)) "") then [TenantRef (body m)]
  else if negb (String.eqb (ResolvedTenantRef (mo_of m)) "") then [ResolvedTenantRef (mo_of m)]
  else [tenantAssociationUnresolved].

(** The requests without the ones seen before. *)
Fixpoint keep_unseen (seen l : list Key) : list Key :=
  match l with
  | [] => []
  | k :: l => if bool_decide (k ∈ seen) then keep_unseen seen l else k :: keep_unseen (k :: seen) l
  end.
Definition keep_first (l : list Key) : list Key := keep_unseen [] l.

(** In seconds; 0 is no requeue. *)
Definition backendNotReadyRequeueInterval : Z := 10.
Definition requeueWhileBackendNotReady (runtimeReady : bool) : Z := if runtimeReady then 0 else backendNotReadyRequeueInterval.

Definition deriveModelPhase (governed runtimeReady : bool) : string * string :=
  match governed, runtimeReady with
  | true, true => ("Ready", "Governed and runtime-healthy")
  | true, false => ("Unhealthy", "Governed but backend is not ready")
  | false, true => ("Pending", "Awaiting governance pairing")
  | false, false => ("Pending", "Awaiting governance pairing and backend readiness")
  end.

Section Controller.
Context `{TS : TenantScope} `{MR : MaaSModelRefReconciler} `{SC : StatusConditions} `{CU : ControllerUtil}.

(** ** Conditions *)

Definition set_condition (type status reason message : string) (m : MaaSModelRef) : MaaSModelRef :=
  set_mo (set_conditions (SetStatusCondition
    {| c_Type := type; c_Status := status; c_Reason := reason; c_Message := message; c_ObservedGeneration := Generation (meta m) |})) m.

Definition was_governed (m : MaaSModelRef) : bool := condition_true (mo_Conditions (mo_of m)) ConditionGovernanceAttached.
Definition setGovernanceCondition (m : MaaSModelRef) (governed : bool) : MaaSModelRef :=
  if governed then set_condition ConditionGovernanceAttached ConditionTrue "GovernancePaired" "Active governance pairing found" m
  else if was_governed m
  then set_condition ConditionGovernanceAttached ConditionFalse "GovernanceGap" "Governance pairing lost" m
  else set_condition ConditionGovernanceAttached ConditionFalse "NoPairingFound"
         "No active subscription and auth policy pairing found" m.

Definition markRuntimeReady (m : MaaSModelRef) : MaaSModelRef :=
  set_condition ConditionRuntimeReady ConditionTrue "RuntimeHealthy" "Backend is healthy" m.
Definition markRuntimeNotReady (m : MaaSModelRef) (notReady : string * string) : MaaSModelRef :=
  let '(reason, message) := if String.eqb notReady.1 "" then ("RuntimeHealthFailure", "Backend is not ready") else notReady in
  set_condition ConditionRuntimeReady ConditionFalse reason message m.

(** [updateStatusWithReason]: the status to write, written when it differs from
    the one read. *)
Definition ready_reason (phase reason : string) : string :=
  if String.eqb phase "Ready" then "Reconciled"
  else if negb (String.eqb reason "") then reason
  else if String.eqb phase "Failed" then "ReconcileFailed"
  else if String.eqb phase "Invalid" then "InvalidSpec"
  else "BackendNotReady".
Definition with_phase (m : MaaSModelRef) (phase message reason : string) : MaaSModelRef :=
  set_condition "Ready" (if String.eqb phase "Ready" then ConditionTrue else ConditionFalse) (ready_reason phase reason) message
    (set_mo (set_phase phase) m).
Definition updateStatusWithReason (m : MaaSModelRef) (phase message reason : string) (snapshot : MaaSModelStatus)
    : Prog (Res GoErr unit) :=
  let m := with_phase m phase message reason in
  if bool_decide (snapshot = mo_of m) then Ret (Ok tt) else
  updated ← call (UpdateStatus KModelRef m);
  Ret (res_map (λ _, tt) (map_err of_api updated)).
Definition updateStatus (m : MaaSModelRef) (phase message : string) (snapshot : MaaSModelStatus) : Prog (Res GoErr unit) :=
  updateStatusWithReason m phase message "" snapshot.

(** ** Governance: a subscription and an access policy, both live and of a tenant *)

Definition refers_to (model : Key) (p : MaaSAuthPolicy) : bool := bool_decide (model ∈ ap_ModelRefs (body p)).
Definition findAllAuthPoliciesForModel (model : Key) : Prog (Res GoErr (list MaaSAuthPolicy)) :=
  all <-! try "failed to list MaaSAuthPolicies" (call (ListAll KMaaSAuthPolicy "" ∅)) ;;
  Ret (Ok (List.filter (λ p, live p && refers_to model p) all)).
Definition filterAuthPoliciesByTenantNamespace (l : list MaaSAuthPolicy) : Prog (list MaaSAuthPolicy) := filter_tenants ∅ l.

Definition findAnySubscriptionForModel (model : Key) : Prog (option MaaSSubscription) :=
  subs ← findAllSubscriptionsForModel model;
  match subs with
  | Err _ => Ret None
  | Ok subs => kept ← filterSubscriptionsByTenantNamespace subs; Ret (head kept)
  end.
Definition findAnyAuthPolicyForModel (model : Key) : Prog (option MaaSAuthPolicy) :=
  policies ← findAllAuthPoliciesForModel model;
  match policies with
  | Err _ => Ret None
  | Ok policies => kept ← filterAuthPoliciesByTenantNamespace policies; Ret (head kept)
  end.
Definition checkGovernanceAttached (model : MaaSModelRef) : Prog bool :=
  sub ← findAnySubscriptionForModel (key_of model);
  match sub with
  | None => Ret false
  | Some _ => ap ← findAnyAuthPolicyForModel (key_of model); Ret (bool_decide (is_Some ap))
  end.

(** ** Models that share an alias *)

Definition conflicts_with (model other : MaaSModelRef) : bool :=
  negb (String.eqb (Name (meta other)) (Name (meta model)))
  && String.eqb (ResolvedModelAlias (mo_of other)) (ResolvedModelAlias (mo_of model))
  && String.eqb (ResolvedTenantRef (mo_of other)) (ResolvedTenantRef (mo_of model)).
Definition conflict_names (model : MaaSModelRef) (siblings : list MaaSModelRef) : list string :=
  sort_strings (map (λ m, Name (meta m)) (List.filter (conflicts_with model) siblings)).
Definition findModelAliasConflicts (model : MaaSModelRef) : Prog (Res GoErr (list string)) :=
  if String.eqb (ResolvedModelAlias (mo_of model)) "" then Ret (Ok []) else
  siblings <-! try ("list MaaSModelRefs in namespace " +:+ Namespace (meta model))
                 (call (ListAll KModelRef (Namespace (meta model)) ∅)) ;;
  Ret (Ok (conflict_names model siblings)).

Definition pluralS (n : nat) : string := if (n =? 1)%nat then "" else "s".
(** An alias is printed as it is between quotes: one whose characters Go's %q
    would escape is not considered. *)
Definition shared_with (model : MaaSModelRef) (conflicts : list string) (where_ : string) : string :=
  "Model identity " +:+ dquote +:+ ResolvedModelAlias (mo_of model) +:+ dquote +:+ " is shared with "
  +:+ format_int (Z.of_nat (length conflicts)) +:+ " other MaaSModelRef" +:+ pluralS (length conflicts)
  +:+ " in " +:+ where_ +:+ ": " +:+ join ", " conflicts.
Definition conflict_message (model : MaaSModelRef) (conflicts : list string) : string :=
  let msg := shared_with model conflicts ("namespace " +:+ Namespace (meta model))
    +:+ ". Body-based routing selects a backend by model identity alone and cannot disambiguate MaaSModelRefs that resolve to the same identity "
    +:+ String "226" (String "128" (String "148" ""))
    +:+ " requests may be routed to the wrong backend or evaluated against the wrong subscription. "
    +:+ "Give each model a unique spec.model.name to resolve this, or serve the model per tenant via modelRefs with distinct spec.tenantRef." in
  if (1024 <? len msg)%Z then str_take 1021 msg +:+ "..." else msg.
Definition setModelIdentityCondition (model : MaaSModelRef) (conflicts : list string) : MaaSModelRef :=
  match conflicts with
  | [] => set_condition ConditionModelIdentityUnique ConditionTrue "UniqueIdentity"
            "No other MaaSModelRef in this namespace resolves to the same model identity" model
  | _ => set_condition ConditionModelIdentityUnique ConditionFalse "ModelNameConflict" (conflict_message model conflicts) model
  end.

(** The events of a transition. *)
Definition identity_events (model : MaaSModelRef) (conflicts : list string) (prev curr : option Condition) : Prog unit :=
  match curr with
  | None => Ret tt
  | Some curr =>
      if negb HasRecorder then Ret tt else
      let changed := match prev with
                     | None => true
                     | Some p => negb (String.eqb (c_Status p) (c_Status curr)) || negb (String.eqb (c_Message p) (c_Message curr))
                     end in
      _ ← (if String.eqb (c_Status curr) ConditionFalse && changed
           then call (Eventf "Warning" "ModelNameConflict" "ValidateModelIdentity" (shared_with model conflicts "this namespace"))
           else Ret tt);
      if String.eqb (c_Status curr) ConditionTrue
         && match prev with Some p => String.eqb (c_Status p) ConditionFalse | None => false end
      then call (Eventf "Normal" "ModelNameConflictResolved" "ValidateModelIdentity"
                   "Model identity is no longer shared with any other MaaSModelRef in this namespace")
      else Ret tt
  end.
Definition identity_condition (m : MaaSModelRef) : option Condition :=
  FindStatusCondition (mo_Conditions (mo_of m)) ConditionModelIdentityUnique.
Definition checkModelIdentityConflict (model : MaaSModelRef) : Prog MaaSModelRef :=
  if String.eqb (ResolvedModelAlias (mo_of model)) ""
  then Ret (set_condition ConditionModelIdentityUnique ConditionUnknown "AliasNotResolved"
              "Model alias has not been resolved yet; conflict status is unknown" model) else
  conflicts ← findModelAliasConflicts model;
  match conflicts with
  | Err e => Ret (set_condition ConditionModelIdentityUnique ConditionUnknown "ConflictCheckFailed" (etext e) model)
  | Ok conflicts =>
      let updated := setModelIdentityCondition model conflicts in
      _ ← identity_events updated conflicts (identity_condition model) (identity_condition updated);
      Ret updated
  end.

(** ** Deletion *)

Definition deletable (k : Kind) (o : Obj k) (text : string) : Prog (Res GoErr unit) :=
  if negb (isManaged (meta o)) then Ret (Ok tt) else
  d ← call (Delete k o false);
  Ret (map_err (wrap ("failed to delete " +:+ text +:+ " " +:+ shown (key_of o))) (ignore_not_found tt d)).
Definition deleteGeneratedPoliciesByLabel (model : Key) (k : Kind) (kind : string) : Prog (Res GoErr unit) :=
  policies ← call (ListAll k model.1 (<[trlpLabelModel := model.2]> {[ "app.kubernetes.io/managed-by" := "maas-controller" ]}));
  match tolerate_absent [] ("failed to list " +:+ kind +:+ " resources for model " +:+ model.2) policies with
  | Err e => Ret (Err e)
  | Ok policies => for_each_ok (λ o, deletable k o kind) policies
  end.
Definition unfinalized (m : MaaSModelRef) : MaaSModelRef :=
  with_meta (λ x, set_finalizers (remove_finalizer maasModelFinalizer (Finalizers x)) x) m.
Definition handleDeletion (model : MaaSModelRef) : Prog (Res GoErr Z) :=
  if negb (contains_finalizer (Finalizers (meta model)) maasModelFinalizer) then Ret (Ok 0%Z) else
  _ <-! deleteGeneratedPoliciesByLabel (key_of model) KAuthPolicy "AuthPolicy" ;;
  _ <-! deleteGeneratedPoliciesByLabel (key_of model) KTRLP "TokenRateLimitPolicy" ;;
  _ <-! match GetBackendHandler (ModelKind (body model)) with Some h => CleanupOnDelete h model | None => Ret (Ok tt) end ;;
  updated ← call (Update KModelRef (unfinalized model));
  Ret (res_map (λ _, 0%Z) (map_err of_api updated)).

(** ** Reconciliation *)

(** The status of a failure, and the error to return. *)
Definition failed_with (model : MaaSModelRef) (message : string) (snapshot : MaaSModelStatus) (e : GoErr) : Prog (Res GoErr Z) :=
  _ ← updateStatus model "Failed" message snapshot; Ret (Err e).
Definition reported (p : Prog (Res GoErr unit)) : Prog (Res GoErr Z) := r ← p; Ret (res_map (λ _, 0%Z) r).
Definition unsupported (model : MaaSModelRef) (kind : string) (snapshot : MaaSModelStatus) : Prog (Res GoErr Z) :=
  reported (updateStatusWithReason model "Failed" ("kind not implemented: " +:+ kind) "Unsupported" snapshot).
Definition route_failed (model : MaaSModelRef) (kind : string) (snapshot : MaaSModelStatus) (e : GoErr) : Prog (Res GoErr Z) :=
  if is_sentinel ErrKindNotImplemented e then unsupported model kind snapshot
  else if is_sentinel ErrHTTPRouteNotFound e
  then reported (updateStatus (set_mo (set_endpoint "") model) "Pending" "Waiting for HTTPRoute to be created" snapshot)
  else if is_sentinel ErrTenantResolutionPending e
  then reported (updateStatus (set_mo (set_endpoint "") model) "Pending" ("Waiting for tenant resolution: " +:+ etext e) snapshot)
  else failed_with model ("Failed to reconcile HTTPRoute: " +:+ etext e) snapshot e.
Definition status_failed (model : MaaSModelRef) (kind : string) (snapshot : MaaSModelStatus) (e : GoErr) : Prog (Res GoErr Z) :=
  let model := set_mo (set_phase "Failed") (set_mo (set_endpoint "") model) in
  if is_sentinel ErrKindNotImplemented e then unsupported model kind snapshot
  else failed_with model ("Failed to update model status: " +:+ etext e) snapshot e.

Definition keep_alias (alias : Res GoErr string) (m : MaaSModelRef) : MaaSModelRef :=
  match alias with Ok a => if String.eqb a "" then m else set_mo (set_alias a) m | Err _ => m end.
Definition chosen_endpoint (m : MaaSModelRef) (endpoint : string) : string :=
  if String.eqb (EndpointOverride (body m)) "" then endpoint else EndpointOverride (body m).
(** From the conditions to the phase. *)
Definition conclude (model : MaaSModelRef) (governed runtimeReady : bool) (notReady : string * string) (snapshot : MaaSModelStatus)
    : Prog (Res GoErr Z) :=
  let model := setGovernanceCondition model governed in
  let model := if runtimeReady then markRuntimeReady model else markRuntimeNotReady model notReady in
  model ← checkModelIdentityConflict model;
  let '(phase, message) := deriveModelPhase governed runtimeReady in
  let model := if String.eqb phase "Ready" then model else set_mo (set_endpoint "") model in
  _ <-! updateStatus model phase message snapshot ;;
  Ret (Ok (requeueWhileBackendNotReady runtimeReady)).
Definition reconcile_backend (handler : BackendHandler) (model : MaaSModelRef) : Prog (Res GoErr Z) :=
  let snapshot := mo_of model in
  let kind := ModelKind (body model) in
  outcome ← ReconcileRoute handler model;
  let model := ro_Model outcome in
  match ro_Err outcome with
  | Some e => route_failed model kind snapshot e
  | None =>
      status ← HandlerStatus handler model;
      match status with
      | Err e => status_failed model kind snapshot e
      | Ok (endpoint, runtimeReady) =>
          let model := set_mo (set_endpoint (chosen_endpoint model endpoint)) model in
          alias ← ResolveModelAlias handler model;
          let model := keep_alias alias model in
          governed ← checkGovernanceAttached model;
          conclude model governed runtimeReady (ro_NotReady outcome) snapshot
      end
  end.

Definition empty_spec (m : MaaSModelRef) : bool :=
  String.eqb (ModelKind (body m)) "" && String.eqb (ModelName (body m)) "" && String.eqb (EndpointOverride (body m)) ""
  && String.eqb (TenantRef (body m)) "" && bool_decide (mo_Guardrails (body m) = []).
Definition finalized (m : MaaSModelRef) : MaaSModelRef :=
  with_meta (λ x, set_finalizers (add_finalizer maasModelFinalizer (Finalizers x)) x) m.
Definition ensure_finalizer (m : MaaSModelRef) : Prog (Res GoErr MaaSModelRef) :=
  if contains_finalizer (Finalizers (meta m)) maasModelFinalizer then Ret (Ok m) else
  u ← call (Update KModelRef (finalized m)); Ret (map_err of_api u).

Definition reconcile_model (m : MaaSModelRef) : Prog (Res GoErr Z) :=
  if negb (live m) then handleDeletion m else
  if empty_spec m then reported (updateStatus m "Invalid" "spec is required" (mo_of m)) else
  m <-! ensure_finalizer m ;;
  match GetBackendHandler (ModelKind (body m)) with
  | None => reported (updateStatus m "Failed" ("unknown kind: " +:+ ModelKind (body m)) (mo_of m))
  | Some handler => reconcile_backend handler m
  end.
Definition Reconcile (req : Key) : Prog (Res GoErr Z) :=
  m ← call (Get true KModelRef req);
  match m with
  | Err e => Ret (if isNotFound e then Ok 0%Z else Err (of_api e))
  | Ok m => reconcile_model m
  end.

(** ** What wakes a model up *)

Definition uidChanged (old new : ObjectMeta) : bool := negb (String.eqb (UID old) (UID new)).
Definition deletionTimestampSet (old new : ObjectMeta) : bool :=
  bool_decide (DeletionTimestamp old = None) && negb (bool_decide (DeletionTimestamp new = None)).
Definition llmisvcReadyChanged (old new : Obj KLLMInferenceService) : bool :=
  negb (String.eqb (InferenceObjectives.llmisvcReadyStatus old) (InferenceObjectives.llmisvcReadyStatus new)).
Definition routeAcceptedParentsChanged (old new : HTTPRoute) : bool :=
  negb (bool_decide (acceptedRouteParents old = acceptedRouteParents new)).
Definition routeRejectionsChanged (old new : HTTPRoute) : bool :=
  negb (bool_decide (routeRejections old = routeRejections new)).
(** A nil and an empty map are equal to [maps.Equal]. *)
Definition ippExternalModelRoutesChanged (old new : Obj KExternalModel) : bool :=
  negb (String.eqb (ippExternalModelRouteName old) (ippExternalModelRouteName new))
  || negb (bool_decide (default ∅ (externalModelGatewayRoutes old) = default ∅ (externalModelGatewayRoutes new))).

(** The requests of a mapper whose list call fails are none. *)
Definition listed_or_none {E A} (f : A → list Key) (r : Res E A) : list Key := match r with Ok a => f a | Err _ => [] end.

Definition siblingConflictFieldsChanged (old new : MaaSModelRef) : bool :=
  negb (String.eqb (ResolvedModelAlias (mo_of old)) (ResolvedModelAlias (mo_of new)))
  || negb (String.eqb (ResolvedTenantRef (mo_of old)) (ResolvedTenantRef (mo_of new))).
Definition has_alias (alias : string) (m : MaaSModelRef) : bool :=
  negb (String.eqb alias "") && String.eqb (ResolvedModelAlias (mo_of m)) alias.
Definition enqueueSiblingsWithAlias (changed : MaaSModelRef) (oldAlias : string) : Prog (list Key) :=
  let newAlias := ResolvedModelAlias (mo_of changed) in
  if String.eqb newAlias "" && String.eqb oldAlias "" then Ret [] else
  siblings ← call (ListAll KModelRef (Namespace (meta changed)) ∅);
  Ret (listed_or_none (λ l, map key_of (List.filter (λ m, negb (String.eqb (Name (meta m)) (Name (meta changed)))
                                                   && (has_alias newAlias m || has_alias oldAlias m)) l)) siblings).
(** The handlers of the watch on models. *)
Definition on_model_created (m : MaaSModelRef) : Prog (list Key) := enqueueSiblingsWithAlias m "".
Definition on_model_updated (old new : MaaSModelRef) : Prog (list Key) :=
  if siblingConflictFieldsChanged old new then enqueueSiblingsWithAlias new (ResolvedModelAlias (mo_of old)) else Ret [].
Definition on_model_deleted (m : MaaSModelRef) : Prog (list Key) := enqueueSiblingsWithAlias m "".

Definition mapHTTPRouteToMaaSModelRefs (route : HTTPRoute) : Prog (list Key) :=
  models ← call (ListAll KModelRef (Namespace (meta route)) ∅);
  Ret (listed_or_none (map key_of) models).
Definition in_tenant (ns : string) (requests : list Key) : Prog (list Key) :=
  tenant ← isTenantNamespace ns; Ret (if (tenant : bool) then keep_first requests else []).
Definition mapMaaSSubscriptionToMaaSModelRefs (sub : MaaSSubscription) : Prog (list Key) :=
  in_tenant (Namespace (meta sub))
    (map (λ r, (RateTier.mr_Namespace r, RateTier.mr_Name r)) (ss_ModelRefs (ss_Spec (body sub)))).
Definition mapMaaSAuthPolicyToMaaSModelRefs (policy : MaaSAuthPolicy) : Prog (list Key) :=
  in_tenant (Namespace (meta policy)) (ap_ModelRefs (body policy)).
Definition mapAITenantToMaaSModelRefs (tenant : AITenant) : Prog (list Key) :=
  associated ← call (ListBy true KModelRef (MatchingField tenantAssociationIndex (Name (meta tenant))));
  match associated with
  | Err _ => Ret []
  | Ok associated =>
      unresolved ← call (ListBy true KModelRef (MatchingField tenantAssociationIndex tenantAssociationUnresolved));
      Ret (listed_or_none (λ l, keep_first (map key_of (associated ++ l)%list)) unresolved)
  end.
Definition modelRefsReferencing (kind : string) (obj : ObjectMeta) : Prog (list Key) :=
  models ← call (ListBy true KModelRef (MatchingField modelRefNameIndex (Name obj)));
  Ret (listed_or_none (λ l, map key_of (List.filter (λ m, String.eqb (ModelKind (body (m : MaaSModelRef))) kind
                                                   && String.eqb (Namespace (meta m)) (Namespace obj)) l)) models).
Definition mapLLMISvcToMaaSModelRefs (obj : ObjectMeta) : Prog (list Key) := modelRefsReferencing "LLMInferenceService" obj.
Definition mapIPPExternalModelToMaaSModelRefs (obj : ObjectMeta) : Prog (list Key) := modelRefsReferencing "ExternalModel" obj.

End Controller.
End ModelController.
