(* ===== verification/ModelSafety.v ===== *)
(** * ModelSafety: why a model may be called Ready

    [ModelController] against every API server.  A monitor keeps the history of
    a reconciliation, every call with its reply; what a status says and what is
    deleted is justified by that history. *)

From S2P Require Import Prelude GoStrings RateTier Kube AITenant TenantLookup ModelRoutes SubscriptionPolicy InferenceObjectives ModelBackends ModelController.
From Stdlib Require String.
Local Open Scope string_scope.

Module ModelSafety.
Import Kube AITenant TenantLookup ModelRoutes SubscriptionPolicy InferenceObjectives ModelBackends ModelController.

(** ** Histories *)

Definition History : Type := list {X : Type & (Call X * X)%type}.
Definition record (X : Type) (c : Call X) (x : X) (h : History) : History := existT X (c, x) :: h.
(** The call was made and got this reply. *)
Definition answered {X} (h : History) (c : Call X) (x : X) : Prop := In (existT X (c, x)) h.
Definition extends (h h' : History) : Prop := ∃ l, h' = (l ++ h)%list.

#[export] Instance extends_preorder : PreOrder extends.
Proof.
  split; [by exists []|]. intros h1 h2 h3 [l ->] [l' ->]. exists (l' ++ l)%list. by rewrite app_assoc.
Qed.
Lemma extends_record X c x h : extends h (record X c x h).
Proof. by eexists [_]. Qed.
Lemma answered_record {X} (c : Call X) x h : answered (record X c x h) c x.
Proof. by left. Qed.
Lemma answered_mono {X} (c : Call X) x h h' : extends h h' → answered h c x → answered h' c x.
Proof. intros [l ->] H. apply in_or_app. by right. Qed.

(** ** Models with the same specification *)

Definition same_spec (m m' : MaaSModelRef) : Prop := ∃ st, m' = set_mo (λ _, st) m.
Lemma same_spec_set f m m' : same_spec m m' → same_spec m (set_mo f m').
Proof. intros [st ->]. by exists (f st). Qed.
Lemma same_spec_refl m : same_spec m m.
Proof. exists (mo_of m). by destruct m as [? []]. Qed.
Lemma same_spec_trans a b c : same_spec a b → same_spec b c → same_spec a c.
Proof. intros [st ->] [st' ->]. by exists st'. Qed.
#[export] Hint Resolve same_spec_refl same_spec_set : core.

(** What [resolveGatewayRef] may change: the resolved tenant. *)
Definition retenanted (m m' : MaaSModelRef) : Prop := m' = m ∨ ∃ t, m' = set_mo (set_tenant t) m.
Lemma retenanted_same_spec m m' : retenanted m m' → same_spec m m'.
Proof. intros [-> | [t ->]]; auto. Qed.

(** ** What a history shows *)

Section Evidence.
Context `{TS : TenantScope} `{MR : MaaSModelRefReconciler} `{SC : StatusConditions} `{CU : ControllerUtil}.

Definition tenant_namespace (h : History) (ns : string) : Prop :=
  DefaultTenantNamespace = "" ∨ ns = DefaultTenantNamespace
  ∨ ∃ n, answered h (Get true KNamespace ("", ns)) (Ok n) ∧ namespaceHasTenantDiscoveryLabel (Labels (meta n)) = true.
Definition subscribed (h : History) (model : Key) : Prop :=
  ∃ l sub, answered h (ListBy true KSubscription (MatchingField modelRefIndexKey (shown model))) (Ok l)
    ∧ sub ∈ l ∧ live sub = true ∧ tenant_namespace h (Namespace (meta sub)).
Definition accessible (h : History) (model : Key) : Prop :=
  ∃ l p, answered h (ListAll KMaaSAuthPolicy "" ∅) (Ok l)
    ∧ p ∈ l ∧ live p = true ∧ model ∈ ap_ModelRefs (body p) ∧ tenant_namespace h (Namespace (meta p)).
Definition governed (h : History) (model : Key) : Prop := subscribed h model ∧ accessible h model.

(** The Gateway is the one of the model's tenant. *)
Definition tenant_gateway (h : History) (m : MaaSModelRef) (gateway : Key) : Prop :=
  let of_tenant t := gateway_key (GatewayRef (Status (body (t : AITenant)))) = gateway in
  if String.eqb (TenantRef (body m)) ""
  then ∃ l t, answered h (ListAll KAITenant AITenantNamespace ∅) (Ok l) ∧ t ∈ l ∧ Name (meta t) = ResolvedTenantRef (mo_of m)
         ∧ of_tenant t
  else ResolvedTenantRef (mo_of m) = TenantRef (body m)
       ∧ ∃ t, answered h (Get true KAITenant (AITenantNamespace, TenantRef (body m))) (Ok t) ∧ of_tenant t.
Definition recorded_gateway (m : MaaSModelRef) : Key := (HTTPRouteGatewayNamespace (mo_of m), HTTPRouteGatewayName (mo_of m)).
Definition recorded_route (m : MaaSModelRef) : Key := (HTTPRouteNamespace (mo_of m), HTTPRouteName (mo_of m)).
(** The recorded route uses the recorded Gateway, the model's tenant's. *)
Definition names_gateway (ns : string) (route : HTTPRoute) (gateway : Key) : Prop :=
  ∃ p, p ∈ ParentRefs (body route) ∧ parentRefTargetsGateway p = true ∧ (default ns (pr_Namespace p), pr_Name p) = gateway.
Definition llmisvc_routed (h : History) (m : MaaSModelRef) : Prop :=
  tenant_gateway h m (recorded_gateway m)
  ∧ ∃ l route, answered h (ListAll KHTTPRoute (Namespace (meta m))
        (<["app.kubernetes.io/name" := ModelName (body m)]> (<["app.kubernetes.io/component" := "llminferenceservice-router"]>
           {[ "app.kubernetes.io/part-of" := "llminferenceservice" ]}))) (Ok (route :: l))
    ∧ recorded_route m = (Namespace (meta m), Name (meta route)) ∧ names_gateway (Namespace (meta m)) route (recorded_gateway m).
Definition external_routed (h : History) (m : MaaSModelRef) : Prop :=
  tenant_gateway h m (recorded_gateway m)
  ∧ ∃ route, answered h (Get true KHTTPRoute (recorded_route m)) (Ok route)
    ∧ recorded_gateway m ∈ acceptedRouteParents route ∧ names_gateway (recorded_route m).1 route (recorded_gateway m).

(** A handler keeps what the reconciler relies on: the specification stays, a
    route without an error is [routed], and a model is ready when it is
    [served], at an address. *)
Definition llmisvc_served (h : History) (m : MaaSModelRef) : Prop :=
  llmisvc_routed h m ∧ ∃ l, answered h (Get true KLLMInferenceService (model_at m)) (Ok l) ∧ llmisvc_ready l = true.
Definition external (m : MaaSModelRef) : bool := String.eqb (ModelKind (body m)) "ExternalModel".
Definition served (h : History) (m : MaaSModelRef) : Prop :=
  if external m then external_routed h m else llmisvc_served h m.

Lemma tenant_gateway_mono h h' m g : extends h h' → tenant_gateway h m g → tenant_gateway h' m g.
Proof.
  intros He. unfold tenant_gateway. cbv zeta. destruct (String.eqb _ _).
  - intros (l & t & Ha & H). exists l, t. split; [by eapply answered_mono|exact H].
  - intros (E & t & Ha & H). split; [exact E|]. exists t. split; [by eapply answered_mono|exact H].
Qed.
Lemma llmisvc_routed_mono h h' m : extends h h' → llmisvc_routed h m → llmisvc_routed h' m.
Proof.
  intros He (Ht & l & r & Ha & H). split; [by eapply tenant_gateway_mono|]. exists l, r. split; [by eapply answered_mono|exact H].
Qed.
Lemma external_routed_mono h h' m : extends h h' → external_routed h m → external_routed h' m.
Proof.
  intros He (Ht & r & Ha & H). split; [by eapply tenant_gateway_mono|]. exists r. split; [by eapply answered_mono|exact H].
Qed.
Lemma served_mono h h' m : extends h h' → served h m → served h' m.
Proof.
  intros He. unfold served. destruct (external m); [by apply external_routed_mono|].
  intros (Hr & l & Ha & H). split; [by eapply llmisvc_routed_mono|]. exists l. split; [by eapply answered_mono|exact H].
Qed.
Lemma tenant_namespace_mono h h' ns : extends h h' → tenant_namespace h ns → tenant_namespace h' ns.
Proof.
  intros He [H|[H|(n & Ha & H)]]; [by left|by right; left|]. right; right. exists n. split; [by eapply answered_mono|exact H].
Qed.
Lemma subscribed_mono h h' k : extends h h' → subscribed h k → subscribed h' k.
Proof.
  intros He (l & s & Ha & Hs & Hl & Ht). exists l, s. split_and!; [by eapply answered_mono|done..|by eapply tenant_namespace_mono].
Qed.
Lemma accessible_mono h h' k : extends h h' → accessible h k → accessible h' k.
Proof.
  intros He (l & s & Ha & Hs & Hl & Hk & Ht).
  exists l, s. split_and!; [by eapply answered_mono|done..|by eapply tenant_namespace_mono].
Qed.
Lemma governed_mono h h' k : extends h h' → governed h k → governed h' k.
Proof. intros He [Hs Ha]. split; [by eapply subscribed_mono|by eapply accessible_mono]. Qed.

(** ** Lookups, under any monitor that lets reads pass *)

Section Lookups.
Variable allowed : ∀ X, Call X → History → Prop.
Hypothesis reads_allowed : ∀ X (c : Call X) h, is_read c = true → allowed X c h.
Notation safe := (safe allowed record).

(** One read, then the rest. *)
Lemma safe_read {X A} (c : Call X) (f : X → Prog A) h Q :
  is_read c = true → (∀ x, extends h (record X c x h) → safe (f x) (record X c x h) Q) → safe (call c ≫= f) h Q.
Proof. intros Hc Hf. split; [by apply reads_allowed|]. intros x. apply Hf, extends_record. Qed.
Lemma reads_extend {A} (p : Prog A) h : only_reads p → safe p h (λ _, extends h).
Proof.
  intros Hp. apply (safe_only_reads allowed record p h (extends h)); [exact Hp| |reflexivity].
  intros X c h' Hc He. split; [by apply reads_allowed|]. intros x. etransitivity; [exact He|apply extends_record].
Qed.
(** A step, then a program that starts from a longer history. *)
Lemma safe_step {A B} (p : Prog A) (f : A → Prog B) h h0 (P : A → History → Prop) Q :
  extends h0 h → safe p h (λ a h', extends h h' ∧ P a h') → (∀ a h', extends h0 h' → extends h h' → P a h' → safe (f a) h' Q) →
  safe (p ≫= f) h Q.
Proof.
  intros H0 Hp Hf. apply safe_bind. eapply safe_mono; [exact Hp|]. cbv beta. intros a h' [He HP].
  apply Hf; [by etransitivity|exact He|exact HP].
Qed.

(** *** The tenant of a model *)

Lemma matches_sound tenants gateways t k :
  (t, k) ∈ gateway_matches tenants gateways →
  k ∈ gateways ∧ ∃ a, a ∈ tenants ∧ Name (meta a) = t ∧ gateway_key (GatewayRef (Status (body a))) = k.
Proof.
  unfold gateway_matches.
  enough (∀ acc, (t, k) ∈ fold_left (λ matches k, fold_left (add_match k) (tenantsByGateway tenants k) matches) gateways acc →
            (t, k) ∈ acc ∨ (k ∈ gateways ∧ t ∈ tenantsByGateway tenants k)) as H.
  { intros [Hn|[Hk Ht]]%H; [by apply not_elem_of_nil in Hn|]. split; [exact Hk|].
    unfold tenantsByGateway in Ht. apply list_elem_of_fmap in Ht as (a & -> & Ha). exists a.
    apply list_elem_of_In, filter_In in Ha as [Ha Hf]. apply list_elem_of_In in Ha.
    apply andb_true_iff in Hf as [_ Hf%bool_decide_eq_true]. by split_and!. }
  assert (Hin : ∀ g names acc, (t, k) ∈ fold_left (add_match g) names acc → (t, k) ∈ acc ∨ (k = g ∧ t ∈ names)).
  { intros g names. induction names as [|n names IH]; intros acc; cbn [fold_left]; [by left|].
    intros [Ha|[-> Hn]]%IH; [|right; split; [done|by right]].
    unfold add_match in Ha. case_bool_decide; [by left|]. apply elem_of_app in Ha as [Ha|Ha]; [by left|].
    apply list_elem_of_singleton in Ha as [= -> ->]. right. split; [done|by left]. }
  induction gateways as [|g gateways IH]; intros acc; cbn [fold_left]; [by left|].
  intros [Ha|[Hk Ht]]%IH; [|right; split; [by right|exact Ht]].
  apply Hin in Ha as [Ha|[-> Ht]]; [by left|]. right. split; [by left|exact Ht].
Qed.

Definition resolved (m : MaaSModelRef) (r : MaaSModelRef * Res GoErr TenantGatewayRef) (h : History) : Prop :=
  retenanted m r.1 ∧ ∀ ref, r.2 = Ok ref → tenant_gateway h r.1 (gateway_key ref).

Lemma resolve_spec m route h : safe (resolveGatewayRef m route) h (λ r h', extends h h' ∧ resolved m r h').
Proof.
  unfold resolveGatewayRef. cbv zeta. destruct (String.eqb (TenantRef (body m)) "") eqn:Et.
  - unfold resolveGatewayRefFromHTTPRoute. cbv zeta.
    destruct (ParentRefs (body route)) as [|p ps] eqn:Ep.
    { split; [reflexivity|]. split; [right; by eexists|by intros ref]. }
    apply safe_read; [reflexivity|]. intros [l|e] He; [|split; [exact He|split; [by left|by intros ref]]].
    assert (Hs := matches_sound l (parent_gateways route)).
    destruct (gateway_matches l (parent_gateways route)) as [|[t k] [|m2 ms]];
      (split; [exact He|]); (split; [right; by eexists|]); [by intros ref| |by intros ref].
    intros ref [= <-]. destruct (Hs t k) as (_ & a & Ha & Hn & Hg); [by left|].
    unfold tenant_gateway. cbn [set_mo body TenantRef fst]. rewrite Et. exists l, a.
    split_and!; [by apply answered_record|exact Ha|exact Hn|]. rewrite Hg. by destruct k.
  - apply safe_read; [reflexivity|]. intros [t|e] He.
    + split; [exact He|]. destruct (incomplete _); (split; [right; by eexists|]); [by intros ref|].
      intros ref [= <-]. unfold tenant_gateway. cbn [set_mo body TenantRef fst]. rewrite Et. split; [reflexivity|].
      exists t. split; [by apply answered_record|reflexivity].
    + split; [exact He|]. destruct (isNotFound e); (split; [|by intros ref]); [right; by eexists|by left].
Qed.

Lemma find_parent_found expected first gateways k :
  find_parent expected first gateways = (true, k) → k = expected ∧ expected ∈ gateways.
Proof.
  revert first. induction gateways as [|g gateways IH]; intros first; cbn [find_parent]; [done|].
  case_bool_decide as Eg; [intros [= <-]; subst g; split; [done|by left]|].
  intros [-> H]%IH. split; [done|by right].
Qed.
Lemma find_parent_names ns route expected k :
  find_parent expected ("", "") (map (λ p, (default ns (pr_Namespace p), pr_Name p))
    (List.filter parentRefTargetsGateway (ParentRefs (body route)))) = (true, k) → k = expected ∧ names_gateway ns route k.
Proof.
  intros [-> H]%find_parent_found. split; [done|]. apply list_elem_of_fmap in H as (p & -> & Hp).
  apply list_elem_of_In, filter_In in Hp as [Hp Ht]. apply list_elem_of_In in Hp. by exists p.
Qed.

(** *** The handlers *)

(** What [ReconcileRoute] answers: a route without an error is [routed]. *)
Definition route_answer (routed : History → MaaSModelRef → Prop) (m : MaaSModelRef) (o : RouteOutcome) (h : History) : Prop :=
  same_spec m (ro_Model o) ∧ (ro_Err o = None → routed h (ro_Model o)).
Lemma unrouted_answer routed m m' e h : same_spec m m' → route_answer routed m (unrouted m' e) h.
Proof. intros Hm. split; [exact Hm|]. by intros [=]. Qed.
Definition status_answer (m : MaaSModelRef) (r : Res GoErr (string * bool)) (h : History) : Prop :=
  ∀ endpoint, r = Ok (endpoint, true) → served h m ∧ endpoint ≠ "".

Lemma https_nonempty s : "https://" +:+ s ≠ "".
Proof. done. Qed.
Lemma gateway_endpoint_spec k suffix h :
  safe (gateway_endpoint k suffix) h (λ r h', extends h h' ∧ ∀ e, r = Ok e → e ≠ "").
Proof.
  apply safe_read; [reflexivity|]. intros [g|e] He; (split; [exact He|]); [|done].
  intros e. by destruct (gateway_host g); intros [= <-].
Qed.

Lemma llmisvc_route_spec m h : safe (validateLLMISvcHTTPRoute m) h (λ o h', extends h h' ∧ route_answer llmisvc_routed m o h').
Proof.
  apply safe_read; [reflexivity|].
  intros [[|route l]|e] He; [split; [exact He|by apply unrouted_answer]| |split; [exact He|by apply unrouted_answer]].
  eapply safe_step; [exact He|apply resolve_spec|]. intros [m' ref] h' Hh Hh' [Hr Hg].
  apply retenanted_same_spec in Hr as [st Hm]. cbn [fst snd] in Hm, Hg. subst m'.
  destruct ref as [ref|e]; [|split; [exact Hh|apply unrouted_answer; by exists st]].
  cbv zeta. destruct (find_parent _ _ _) as [found gateway] eqn:Ef. cbn beta iota.
  split; [exact Hh|]. destruct found; [|apply unrouted_answer; by eexists]. split; [by eexists|]. intros _.
  apply find_parent_names in Ef as [-> Hn]. split; [destruct ref; apply (Hg _ eq_refl)|].
  exists l, route. split_and!; [|reflexivity|destruct ref; exact Hn].
  eapply answered_mono; [exact Hh'|apply answered_record].
Qed.

Lemma llmisvc_status_spec m h : external m = false → llmisvc_routed h m →
  safe (llmisvc_Status m) h (λ r h', extends h h' ∧ status_answer m r h').
Proof.
  intros Hk Hr. apply safe_read; [reflexivity|]. intros [l|e] He; [|split; [exact He|by intros endpoint]].
  destruct (llmisvc_ready l) eqn:El; cbn [negb]; [|split; [exact He|by intros endpoint]]. cbv zeta.
  assert (Hs : ∀ h', extends (record _ (Get true KLLMInferenceService (model_at m)) (Ok l) h) h' → served h' m).
  { intros h' Hh. unfold served. rewrite Hk. split; [eapply llmisvc_routed_mono; [|exact Hr]; by etransitivity|].
    exists l. split; [eapply answered_mono; [exact Hh|apply answered_record]|exact El]. }
  destruct (String.eqb_spec (getEndpointFromLLMISvc l (HTTPRouteHostnames (mo_of m))) "") as [E|E]; cbn [negb].
  - unfold llmisvc_GetModelEndpoint. cbv zeta. destruct (HTTPRouteHostnames (mo_of m)) as [|host hosts].
    + unfold bind_ok. eapply safe_step; [exact He|apply gateway_endpoint_spec|]. intros [e|e] h' Hh Hh' Hp;
        (split; [exact Hh|]); intros endpoint; [|done]. intros [= <-]. split; [by apply Hs|by apply Hp].
    + split; [exact He|]. intros endpoint [= <-]. split; [by apply Hs|done].
  - split; [exact He|]. intros endpoint [= <-]. split; [by apply Hs|exact E].
Qed.

(** An ExternalModel has a Gateway only when it accepted the route. *)
Definition external_kept (h : History) (m : MaaSModelRef) : Prop := HTTPRouteGatewayName (mo_of m) ≠ "" → external_routed h m.
Lemma external_route_answer_cleared m f h : same_spec m f → route_answer external_kept m (routed (set_mo clearRouteStatus f)) h.
Proof. intros Hf. split; [by apply same_spec_set|]. by intros _ []. Qed.

Lemma validate_external_spec m m0 key route h : same_spec m0 m → answered h (Get true KHTTPRoute key) (Ok route) →
  safe (validate_external m key route) h (λ o h', extends h h' ∧ route_answer external_kept m0 o h').
Proof.
  intros Hm Ha. eapply safe_step; [reflexivity|apply resolve_spec|]. intros [m' ref] h' Hh _ [Hr Hg].
  assert (Hs : same_spec m0 m') by (eapply same_spec_trans; [exact Hm|by apply retenanted_same_spec]).
  cbn [fst snd] in Hr, Hg. destruct ref as [ref|e]; [|split; [exact Hh|by apply unrouted_answer]].
  cbv zeta. destruct (find_parent _ _ _) as [found gateway] eqn:Ef. cbn beta iota. split; [exact Hh|].
  destruct found; [|by apply unrouted_answer]. cbn [negb]. apply find_parent_names in Ef as [-> Hn].
  case_bool_decide as Hacc; (split; [by apply same_spec_set|]); [|by intros _ []].
  intros _ _. split; [destruct ref; apply (Hg _ eq_refl)|]. exists route.
  split_and!; [|destruct ref; exact Hacc|destruct ref; exact Hn].
  destruct key. by eapply answered_mono.
Qed.
Lemma external_checked_spec m m0 key h : same_spec m0 m →
  safe (external_checked m key) h (λ o h', extends h h' ∧ route_answer external_kept m0 o h').
Proof.
  intros Hm. apply safe_read; [reflexivity|]. intros [route|e] He.
  - eapply safe_mono; [apply validate_external_spec; [exact Hm|apply answered_record]|]. cbv beta.
    intros o h' [Hh Ho]. split; [by etransitivity|exact Ho].
  - split; [exact He|]. destruct (isNotFound e); [by apply external_route_answer_cleared|by apply unrouted_answer].
Qed.
Lemma select_spec m routes h : safe (selectGatewayRoute m routes) h (λ r h', extends h h' ∧ retenanted m r.1).
Proof.
  unfold selectGatewayRoute. destruct (String.eqb (TenantRef (body m)) ""); cbn [negb].
  - destruct (map_to_list routes) as [|[? ?] [|]]; (split; [reflexivity|by left]).
  - eapply safe_step; [reflexivity|apply resolve_spec|]. intros [m' ref] h' Hh _ [Hr _]. by split.
Qed.
Lemma external_route_spec m h : safe (external_ReconcileRoute m) h (λ o h', extends h h' ∧ route_answer external_kept m o h').
Proof.
  assert (Hc : ∀ m' key h0, same_spec m m' → extends h h0 →
    safe (external_checked m' key) h0 (λ o h', extends h h' ∧ route_answer external_kept m o h')).
  { intros m' key h0 Hm He. eapply safe_mono; [by apply external_checked_spec|]. cbv beta.
    intros o h' [Hh Ho]. split; [by etransitivity|exact Ho]. }
  apply safe_read; [reflexivity|]. intros [em|e] He.
  - destruct (externalModelGatewayRoutes em) as [routes|].
    + eapply safe_step; [exact He|apply select_spec|]. intros [m' route] h' Hh _ Hr.
      assert (Hs : same_spec m m') by (eapply same_spec_trans; [|by apply retenanted_same_spec]; by apply same_spec_set).
      destruct route as [key|e]; [|split; [exact Hh|by apply unrouted_answer]].
      destruct (String.eqb key.2 ""); [split; [exact Hh|by apply external_route_answer_cleared]|by apply Hc].
    + cbv zeta. destruct (String.eqb _ _); [split; [exact He|by apply external_route_answer_cleared]|by apply Hc].
  - destruct (negb _ && negb _); [split; [exact He|by apply unrouted_answer]|].
    apply safe_read; [reflexivity|]. intros [legacy|e'] He'.
    + apply Hc; [done|by etransitivity].
    + split; [by etransitivity|by apply unrouted_answer].
Qed.

Lemma external_status_spec m h : external m = true → external_kept h m →
  safe (external_Status m) h (λ r h', extends h h' ∧ status_answer m r h').
Proof.
  intros Hk Hr. unfold external_Status. cbv zeta.
  destruct (String.eqb (HTTPRouteName (mo_of m)) "" || _) eqn:Ee; [split; [reflexivity|by intros endpoint]|].
  apply orb_false_iff in Ee as [_ Eg%String.eqb_neq].
  assert (Hs : ∀ h', extends h h' → served h' m).
  { intros h' Hh. unfold served. rewrite Hk. eapply external_routed_mono; [exact Hh|by apply Hr]. }
  unfold bind_ok. eapply safe_step with (P := λ r h', ∀ e, r = Ok e → e ≠ ""); [reflexivity| |].
  - destruct (HTTPRouteHostnames (mo_of m)); [apply gateway_endpoint_spec|].
    split; [reflexivity|]. by intros e [= <-].
  - intros [e|e] h' Hh _ Hp; (split; [exact Hh|]); intros endpoint; [|done]. intros [= <-].
    split; [by apply Hs|by apply Hp].
Qed.

(** What the reconciler relies on of a handler, for the models it [handles]. *)
Class BackendLaws (hd : BackendHandler) (handles : MaaSModelRef → Prop) (routed : History → MaaSModelRef → Prop) : Prop := {
  route_law m h : handles m → safe (ReconcileRoute hd m) h (λ o h', extends h h' ∧ route_answer routed m o h');
  status_law m h : handles m → routed h m → safe (HandlerStatus hd m) h (λ r h', extends h h' ∧ status_answer m r h');
  alias_law m : only_reads (ResolveModelAlias hd m);
  handles_law m m' : same_spec m m' → handles m → handles m';
}.
#[local] Instance llmisvc_laws : BackendLaws llmisvcHandler (λ m, external m = false) llmisvc_routed.
Proof.
  split; [intros m h _; apply llmisvc_route_spec|intros m h; apply llmisvc_status_spec|by intros m|by intros m m' [st ->]].
Qed.
#[local] Instance external_laws : BackendLaws externalModelHandler (λ m, external m = true) external_kept.
Proof.
  split; [intros m h _; apply external_route_spec|intros m h; apply external_status_spec|by intros m|by intros m m' [st ->]].
Qed.
Lemma backend_laws m hd : GetBackendHandler (ModelKind (body m)) = Some hd →
  ∃ handles routed, BackendLaws hd handles routed ∧ handles m.
Proof.
  destruct m as [mt b]. destruct (external (Build_Object mt b)) eqn:Ex; assert (Ek := Ex); revert Ek; unfold external; cbn [body];
    generalize (ModelKind b); intros kind Ek H.
  - apply String.eqb_eq in Ek as ->. injection H as <-. exists (λ m, external m = true), external_kept. by split; [apply _|].
  - unfold GetBackendHandler in H. rewrite Ek in H. destruct (_ || _); [|done]. injection H as <-.
    exists (λ m, external m = false), llmisvc_routed. by split; [apply _|].
Qed.

(** *** Governance *)

Lemma tenant_namespace_spec ns h : safe (isTenantNamespace ns) h (λ b h', extends h h' ∧ (b = true → tenant_namespace h' ns)).
Proof.
  unfold isTenantNamespace, tenantNamespaceAllowed.
  destruct (String.eqb_spec DefaultTenantNamespace ""); [by split; [reflexivity|left]|].
  destruct (String.eqb_spec ns DefaultTenantNamespace); [by split; [reflexivity|right; left]|]. cbn [orb].
  destruct (negb TenantNamespaceDiscoveryEnabled); [by split|].
  apply safe_bind, safe_read; [reflexivity|]. intros [found|e] He; (split; [exact He|]); [|by destruct (isNotFound e)].
  intros Hn. right; right. exists found. split; [apply answered_record|exact Hn].
Qed.
Lemma filter_tenants_spec {B} (known : gmap string bool) (l : list (Object B)) h :
  (∀ ns, known !! ns = Some true → tenant_namespace h ns) →
  safe (filter_tenants known l) h (λ r h', extends h h' ∧ ∀ o, o ∈ r → o ∈ l ∧ tenant_namespace h' (Namespace (meta o))).
Proof.
  revert known h. induction l as [|o l IH]; intros known h Hk; cbn [filter_tenants].
  { split; [reflexivity|]. by intros o Ho%not_elem_of_nil. }
  eapply safe_step with (P := λ b h', b = true → tenant_namespace h' (Namespace (meta o))); [reflexivity| |].
  - destruct (known !! Namespace (meta o)) as [b|] eqn:E; [|apply tenant_namespace_spec].
    split; [reflexivity|]. intros ->. by apply Hk.
  - intros b h' Hh _ Hb. eapply safe_step with (P := λ r h'', ∀ x, x ∈ r → x ∈ l ∧ tenant_namespace h'' (Namespace (meta x)));
      [exact Hh|apply IH|].
    + intros ns Hns. destruct (decide (ns = Namespace (meta o))) as [->|Hne].
      * rewrite lookup_insert_eq in Hns. injection Hns as ->. by apply Hb.
      * rewrite lookup_insert_ne in Hns by congruence. eapply tenant_namespace_mono; [exact Hh|by apply Hk].
    + intros r h'' Hh'' He Hr. split; [exact Hh''|]. intros x Hx. destruct b.
      * apply elem_of_cons in Hx as [->|Hx].
        -- split; [by left|]. eapply tenant_namespace_mono; [exact He|by apply Hb].
        -- destruct (Hr x Hx) as [Hl Ht]. by split; [right|].
      * destruct (Hr x Hx) as [Hl Ht]. by split; [right|].
Qed.
(** The first object of a list that is of a tenant. *)
Lemma filter_head_spec {B} (l : list (Object B)) h :
  safe (kept ← filter_tenants ∅ l; Ret (head kept)) h
    (λ r h', extends h h' ∧ ∀ o, r = Some o → o ∈ l ∧ tenant_namespace h' (Namespace (meta o))).
Proof.
  eapply safe_step with (P := λ r h', ∀ o, o ∈ r → o ∈ l ∧ tenant_namespace h' (Namespace (meta o)));
    [reflexivity|apply filter_tenants_spec|].
  - intros ns Hns. by rewrite lookup_empty in Hns.
  - intros [|x r] h' Hh _ Hr; (split; [exact Hh|]); [done|]. intros o [= <-]. apply Hr. by left.
Qed.

Lemma elem_of_filtered {A} (p : A → bool) l x : x ∈ List.filter p l → x ∈ l ∧ p x = true.
Proof. rewrite !list_elem_of_In. apply filter_In. Qed.
Lemma governance_spec m h :
  safe (checkGovernanceAttached m) h (λ b h', extends h h' ∧ (b = true → governed h' (key_of m))).
Proof.
  unfold checkGovernanceAttached.
  eapply safe_step with (P := λ r h', is_Some r → subscribed h' (key_of m)); [reflexivity| |].
  - apply safe_bind, safe_bind, safe_read; [reflexivity|]. intros [l|e] He; cbn [Kube.safe map_err]; [|by split; [|intros []]].
    eapply safe_mono; [apply filter_head_spec|]. cbv beta. intros r h' [Hh Hr]. split; [by etransitivity|].
    intros [s ->]. destruct (Hr s eq_refl) as [[Hs Hl]%elem_of_filtered Ht]. exists l, s.
    split_and!; [eapply answered_mono; [exact Hh|apply answered_record]|done..].
  - intros [s|] h' Hh _ Hs; [|by split]. eapply safe_step with (P := λ r h', is_Some r → accessible h' (key_of m)); [exact Hh| |].
    + apply safe_bind, safe_bind, safe_read; [reflexivity|]. intros [l|e] He; cbn [Kube.safe map_err]; [|by split; [|intros []]].
      eapply safe_mono; [apply filter_head_spec|]. cbv beta. intros r h1 [Hh1 Hr]. split; [by etransitivity|].
      intros [p ->]. destruct (Hr p eq_refl) as [[Hp Hl]%elem_of_filtered Ht]. apply andb_true_iff in Hl as [Hl Hm].
      apply bool_decide_eq_true in Hm. exists l, p.
      split_and!; [eapply answered_mono; [exact Hh1|apply answered_record]|done..].
    + intros r h1 Hh1 He Hr. split; [exact Hh1|]. intros Hb%bool_decide_eq_true. split; [|by apply Hr].
      eapply subscribed_mono; [exact He|]. by apply Hs.
Qed.

(** *** Conditions *)

(** Only the conditions differ. *)
Definition reconditioned (m m' : MaaSModelRef) : Prop := ∃ f, m' = set_mo (set_conditions f) m.
Lemma reconditioned_set m m' type status reason message :
  reconditioned m m' → reconditioned m (set_condition type status reason message m').
Proof.
  intros [f ->]. by exists (λ l, SetStatusCondition {| c_Type := type; c_Status := status; c_Reason := reason; c_Message := message;
                                                  c_ObservedGeneration := Generation (meta m) |} (f l)).
Qed.
Lemma reconditioned_refl m : reconditioned m m.
Proof. exists id. by destruct m as [? [? ? ? ? ? []]]. Qed.

Lemma identity_spec m0 m h : reconditioned m0 m →
  safe (checkModelIdentityConflict m) h (λ m' h', extends h h' ∧ reconditioned m0 m').
Proof.
  intros Hm. unfold checkModelIdentityConflict. destruct (String.eqb _ "") eqn:Ea.
  { split; [reflexivity|by apply reconditioned_set]. }
  eapply safe_step with (P := λ _ _, True); [reflexivity| |].
  - eapply safe_mono; [apply reads_extend|by split]. unfold findModelAliasConflicts. rewrite Ea. solve_reads.
  - intros [l|e] h' Hh _ _; [|split; [exact Hh|by apply reconditioned_set]].
    assert (Hc : reconditioned m0 (setModelIdentityCondition m l)) by (destruct l; by apply reconditioned_set).
    cbv zeta. eapply safe_step with (P := λ _ _, True); [exact Hh| |by split].
    eapply safe_mono; [apply reads_extend|by split]. unfold identity_events. solve_reads.
Qed.
End Lookups.
End Evidence.
End ModelSafety.
