(* ===== verification/AuthPolicyController.v ===== *)
(** * AuthPolicyController: the controller of access policies

    [maas-controller/pkg/controller/maas/maasauthpolicy_controller.go],
    [conflict_detection.go] and [guardrail_watch.go]: the AuthPolicy of each
    tenant's Gateway, the removal of the AuthPolicies earlier versions put on
    models, what a MaaSAuthPolicy reports, its deletion, and what an event
    wakes up.  The specification itself is [GatewaySpec]'s. *)

From S2P Require Import Prelude GoStrings Unstructured RateTier Kube JsonMatch GatewaySpec SubscriptionHeaders AITenant TenantLookup GuardrailCatalog ModelRoutes SubscriptionPolicy ModelController.
From Stdlib Require String.
Local Open Scope string_scope.

Module AuthPolicyController.
Import Kube AITenant TenantLookup GatewaySpec GatewayHeaders GuardrailCatalog ModelRoutes SubscriptionPolicy.
Notation MaaSAuthPolicy := (Object (Body KMaaSAuthPolicy)).
Notation AuthPolicy := (Object (Body KAuthPolicy)).

(** The remaining fields of [MaaSAuthPolicyReconciler]: [TenantScope] has the
    tenant namespace and the Gateway of the flags, [GatewaySettings] what the
    specification depends on.  [default_retries] are the steps of client-go's
    [retry.DefaultBackoff] after the first. *)
Class AuthPolicyReconciler := { HasRecorder : bool; default_retries : nat }.
(** [unstructured.NestedInt64] and [NestedString], as in [NestedFields]. *)
Class ScalarFields := {
  NestedInt64E : JMap → list string → Res string (option Z);
  NestedStringE : JMap → list string → Res string (option string);
}.

Definition maasAuthPolicyFinalizer : string := "maas.opendatahub.io/authpolicy-cleanup".
Definition maasGatewayAuthPolicyName : string := "maas-gateway-auth".
Definition legacyGatewayDefaultAuthPolicyName : string := "gateway-default-auth".
Definition ConditionConflictingAuthPolicy : string := "ConflictingAuthPolicy".
(** In seconds; 0 is no requeue. *)
Definition pending_requeue : Z := 10.

Definition status_of (p : MaaSAuthPolicy) : MaaSAuthPolicyStatus := ap_Status (body p).
Definition set_status (f : MaaSAuthPolicyStatus → MaaSAuthPolicyStatus) (p : MaaSAuthPolicy) : MaaSAuthPolicy := {|
  meta := meta p;
  body := {| ap_ModelRefs := ap_ModelRefs (body p); ap_Rest := ap_Rest (body p); ap_Status := f (status_of p) |} |}.
Definition set_phase (phase : string) (st : MaaSAuthPolicyStatus) : MaaSAuthPolicyStatus := {|
  ap_Phase := phase; ap_AuthPolicies := ap_AuthPolicies st; ap_Conditions := ap_Conditions st |}.
Definition set_policies (l : list AuthPolicyRefStatus) (st : MaaSAuthPolicyStatus) : MaaSAuthPolicyStatus := {|
  ap_Phase := ap_Phase st; ap_AuthPolicies := l; ap_Conditions := ap_Conditions st |}.
Definition set_conditions (f : list Condition → list Condition) (st : MaaSAuthPolicyStatus) : MaaSAuthPolicyStatus := {|
  ap_Phase := ap_Phase st; ap_AuthPolicies := ap_AuthPolicies st; ap_Conditions := f (ap_Conditions st) |}.

(** The object of an AuthPolicy, as the accessors walk it. *)
Definition object_of (p : AuthPolicy) : JMap :=
  ((match au_Spec (body p) with Some spec => [("spec", JObj spec)] | None => [] end)
   ++ match au_Status (body p) with Some st => [("status", JObj st)] | None => [] end)%list.
Definition set_spec (spec : JMap) (p : AuthPolicy) : AuthPolicy := {|
  meta := meta p; body := {| au_Spec := Some spec; au_Status := au_Status (body p) |} |}.

(** ** Owners *)

Definition gateway_api_version : string := "gateway.networking.k8s.io/v1".
Definition hasGatewayOwnerReference (p : AuthPolicy) : bool :=
  existsb (λ ref, String.eqb (or_Kind ref) "Gateway" && String.eqb (or_APIVersion ref) gateway_api_version)
    (OwnerReferences (meta p)).
(** The first reference with the same UID is replaced. *)
Fixpoint put_owner (ref : OwnerReference) (owners : list OwnerReference) : list OwnerReference :=
  match owners with
  | [] => [ref]
  | existing :: owners => if String.eqb (or_UID existing) (or_UID ref) then ref :: owners else existing :: put_owner ref owners
  end.
Definition gateway_reference (gateway : Obj KGateway) : OwnerReference := {|
  or_APIVersion := gateway_api_version; or_Kind := "Gateway"; or_Name := Name (meta gateway);
  or_UID := UID (meta gateway); or_Controller := Some true |}.
Definition setGatewayOwnerReference (gateway : Obj KGateway) (p : AuthPolicy) : AuthPolicy :=
  with_meta (λ m, set_owners (put_owner (gateway_reference gateway) (OwnerReferences m)) m) p.

Section Controller.
Context `{GR : GoRuntime} `{TS : TenantScope} `{R : AuthPolicyReconciler} `{GS : GatewaySettings}.
Context `{HC : HeaderCodec} `{NF : NestedFields} `{SF : ScalarFields} `{GA : GuardrailAPI}.
Context `{SC : StatusConditions} `{CU : ControllerUtil}.

(** ** The tenant *)

Definition fetchTenantIdentifier (policyNamespace : string) : Prog (Res GoErr string) :=
  tenant ← fetchTenantForNamespace policyNamespace;
  Ret (match tenant with
       | Err e => if isNotFound e then Ok "" else Err (of_api e)
       | Ok t => identifier t
       end).

Definition default_context : PlatformContext := {|
  pc_GatewayRef := fallback_gateway; pc_ExternalOIDC := None; pc_SkipIPP := false; pc_Source := "default" |}.
Definition fetchTenantPlatformContext (tenantNamespace : string) : Prog (Res GoErr PlatformContext) :=
  let defaultTenantNamespace := if String.eqb DefaultTenantNamespace "" then DefaultAITenantName else DefaultTenantNamespace in
  tenant ← fetchTenantForNamespace tenantNamespace;
  match tenant with
  | Ok t => ResolvePlatformContext (Some t) fallback_gateway
  | Err e =>
      if isNoMatch e then Ret (Ok default_context) else
      if negb (isNotFound e) then Ret (Err (wrap "failed to get tenant config CR" e)) else
      if negb TenantNamespaceDiscoveryEnabled || String.eqb tenantNamespace defaultTenantNamespace then Ret (Ok default_context) else
      (* [tenantNamespaceAllowed] with the defaulted namespace *)
      allowed <-! tenantNamespaceAllowed (TS := {|
        TenantLookup.DefaultTenantNamespace := defaultTenantNamespace;
        TenantLookup.TenantNamespaceDiscoveryEnabled := TenantNamespaceDiscoveryEnabled;
        TenantLookup.FallbackGatewayName := FallbackGatewayName;
        TenantLookup.FallbackGatewayNamespace := FallbackGatewayNamespace |}) tenantNamespace ;;
      if (allowed : bool)
      then Ret (Err (plain ("MaasTenantConfig " +:+ tenantNamespace +:+ "/" +:+ MaasTenantConfigInstanceName
                 +:+ " not found; refusing to use default platform context for discovered tenant namespace")))
      else Ret (Ok default_context)
  end.

Definition defaultOIDCJWKSTTL : Z := 300.
Definition minOIDCJWKSTTL : Z := 30.
(** The checks of [fetchOIDCConfig]. *)
Definition accepted_oidc (oidc : TenantExternalOIDCConfig) : option oidcConfig :=
  if String.eqb (Kube.IssuerURL oidc) "" then None else
  if String.eqb (Kube.ClientID oidc) "" then None else
  if xorb (String.eqb (Kube.AccessTokenPurposeClaim oidc) "") (String.eqb (Kube.AccessTokenPurpose oidc) "") then None else
  let ttl := if (Kube.TTL oidc =? 0)%Z then Some defaultOIDCJWKSTTL
             else if (Kube.TTL oidc <? minOIDCJWKSTTL)%Z then None else Some (Kube.TTL oidc) in
  ttl ← ttl;
  Some {| IssuerURL := Kube.IssuerURL oidc; ClientID := Kube.ClientID oidc; Audience := Kube.Audience oidc;
          AccessTokenPurposeClaim := Kube.AccessTokenPurposeClaim oidc; AccessTokenPurpose := Kube.AccessTokenPurpose oidc;
          TTL := ttl |}.
Definition fetchOIDCConfig (policyNamespace : string) : Prog (option oidcConfig) :=
  context ← fetchTenantPlatformContext policyNamespace;
  Ret (match context with Ok c => pc_ExternalOIDC c ≫= accepted_oidc | Err _ => None end).
Definition fetchGatewayInfo (tenantNamespace : string) : Prog (Res GoErr Key) :=
  context <-! fetchTenantPlatformContext tenantNamespace ;;
  Ret (Ok (gr_Namespace (pc_GatewayRef context), gr_Name (pc_GatewayRef context))).

(** ** Readiness of the target and of the legacy path *)

Definition tls_slice (s : Obj KEndpointSlice) : bool := existsb (λ p, bool_decide (p = Some 8443%Z)) (es_Ports (body s)).
Definition ready_endpoint (ready : option bool) : bool := match ready with None => true | Some b => b end.
Definition slice_ready (s : Obj KEndpointSlice) : bool := tls_slice s && existsb ready_endpoint (es_Ready (body s)).
Definition target_labels (tenantID : string) : gmap string string := {[ "kubernetes.io/service-name" := MaaSAPIServiceName tenantID ]}.
Definition targetMaaSAPIReady (tenantID : string) : Prog (Res GoErr bool) :=
  slices <-! try ("list target maas-api EndpointSlices for " +:+ InfraNamespace +:+ "/" +:+ MaaSAPIServiceName tenantID)
               (call (ListAll KEndpointSlice InfraNamespace (target_labels tenantID))) ;;
  Ret (Ok (existsb slice_ready slices)).

Definition model_policy_key (model : Key) : Key := (model.1, "maas-auth-" +:+ model.2).
Definition modelAuthPolicyExists (model : Key) : Prog (Res ApiErr bool) :=
  p ← call (Get true KAuthPolicy (model_policy_key model));
  Ret (match p with
       | Ok _ => Ok true
       | Err e => if isNotFound e then Ok false else Err e
       end).
(** The models of the live policies of a tenant, each once; the first with a
    legacy policy ends the loop. *)
Fixpoint any_legacy (checked : gset string) (models : list Key) : Prog (Res GoErr bool) :=
  match models with
  | [] => Ret (Ok false)
  | m :: models =>
      if bool_decide (shown m ∈ checked) then any_legacy checked models else
      exists_ ← modelAuthPolicyExists m;
      match exists_ with
      | Err e => Ret (Err (of_api e))
      | Ok true => Ret (Ok true)
      | Ok false => any_legacy ({[ shown m ]} ∪ checked) models
      end
  end.
Definition hasLegacyModelAuthPolicy (policyNamespace : string) : Prog (Res GoErr bool) :=
  policies <-! try "list MaaSAuthPolicies for upgrade cutover" (call (ListBy true KMaaSAuthPolicy (InNamespace policyNamespace))) ;;
  any_legacy ∅ (concat (map (λ p, ap_ModelRefs (body p)) (List.filter live policies))).

(** Whether some external model needs the x-api-key header. *)
Definition messages_ref (ref : JVal) : bool :=
  match as_map (Some ref) with
  | Some refMap => bool_decide (as_string (Unstructured.get "apiFormat" refMap) = Some "messages")
  | None => false
  end.
Definition discoverXAPIKeyNeeded : Prog bool :=
  models ← call (ListBy true KExternalModel Everywhere);
  Ret (match models with
       | Ok models => existsb (λ m, match em_ProviderRefs (body m) with Some refs => existsb messages_ref refs | None => false end) models
       | Err _ => false
       end).

(** ** The AuthPolicy of a Gateway *)

Definition is_default_gateway (gateway : Key) : bool :=
  String.eqb gateway.1 FallbackGatewayNamespace && String.eqb gateway.2 FallbackGatewayName.
Definition gatewayAuthPolicyName (gateway : Key) : string :=
  if is_default_gateway gateway then maasGatewayAuthPolicyName else gateway.2 +:+ "-maas-auth".
Definition gateway_policy_key (gateway : Key) : Key := (gateway.1, gatewayAuthPolicyName gateway).

Fixpoint scan_conditions (conditions : list JVal) (accepted enforced : bool) (acceptedMsg enforcedMsg : string)
    : bool * bool * string * string :=
  match conditions with
  | [] => (accepted, enforced, acceptedMsg, enforcedMsg)
  | c :: conditions =>
      match as_map (Some c) with
      | None => scan_conditions conditions accepted enforced acceptedMsg enforcedMsg
      | Some cond =>
          let typ := string_or_empty (Unstructured.get "type" cond) in
          let ok := String.eqb (string_or_empty (Unstructured.get "status" cond)) "True" in
          let msg := string_or_empty (Unstructured.get "message" cond) in
          if String.eqb typ "Accepted"
          then scan_conditions conditions ok enforced (if ok then acceptedMsg else msg) enforcedMsg
          else if String.eqb typ "Enforced"
          then scan_conditions conditions accepted ok acceptedMsg (if ok then enforcedMsg else msg)
          else scan_conditions conditions accepted enforced acceptedMsg enforcedMsg
      end
  end.
Definition getAuthPolicyReadyState (p : AuthPolicy) : bool * string * string :=
  match NestedSliceE (object_of p) ["status"; "conditions"] with
  | Ok (Some ((_ :: _) as conditions)) =>
      let '(accepted, enforced, acceptedMsg, enforcedMsg) := scan_conditions conditions false false "" "" in
      if accepted && enforced then (true, "AcceptedEnforced", "")
      else if negb accepted then (false, "NotAccepted", acceptedMsg)
      else (false, "NotEnforced", enforcedMsg)
  | _ => (false, "ConditionsNotFound", "status conditions not available")
  end.

Definition policy_readiness (key : Key) (p : AuthPolicy) : Res GoErr (bool * string) :=
  if negb (isManaged (meta p)) then Ok (false, "AuthPolicy is opted out of controller management") else
  match NestedInt64E (object_of p) ["status"; "observedGeneration"] with
  | Err e => Err (plain ("read gateway AuthPolicy " +:+ shown key +:+ " observed generation: " +:+ e))
  | Ok None => Ok (false, "AuthPolicy status has not reported an observed generation")
  | Ok (Some observed) =>
      if negb (observed =? Generation (meta p))%Z
      then Ok (false, "AuthPolicy status observed generation " +:+ format_int observed +:+ ", current generation is "
                      +:+ format_int (Generation (meta p))) else
      let '(ready, _, message) := getAuthPolicyReadyState p in
      Ok (ready, if String.eqb message "" && negb ready
                 then "Accepted and Enforced conditions are not both True" else message)
  end.
Definition gatewayAuthPolicyReady (gateway : Key) : Prog (Res GoErr (bool * string)) :=
  let key := gateway_policy_key gateway in
  p ← call (Get true KAuthPolicy key);
  Ret (match p with
       | Err e => if isNotFound e then Ok (false, "AuthPolicy has not been created")
                  else Err (wrap ("get gateway AuthPolicy " +:+ shown key) e)
       | Ok p => policy_readiness key p
       end).

Definition gateway_policy_labels : gmap string string :=
  <["app.kubernetes.io/managed-by" := "maas-controller"]>
  (<["app.kubernetes.io/part-of" := "maas-gateway-auth"]>
   {[ "app.kubernetes.io/component" := "gateway-auth" ]}).
Definition new_gateway_policy (gateway : Key) : AuthPolicy := {|
  meta := set_labels gateway_policy_labels (new_meta gateway.1 (gatewayAuthPolicyName gateway));
  body := {| au_Spec := None; au_Status := None |} |}.

(** Whether the live policy is left as it is. *)
Definition policy_unchanged (spec : JMap) (guardrailHeaders : option (list guardrailHeader)) (subscriptionHeaders : list string)
    (currentSpec : option JMap) : bool :=
  specMatchesDesired spec currentSpec
  && (match guardrailHeaders with Some _ => true | None => negb (basePolicyHasStaleGuardrailFields currentSpec) end)
  && negb (basePolicyHasStaleSubscriptionHeaderFields currentSpec subscriptionHeaders).

(** The write of the specification; [gateway] is [None] when it does not exist. *)
Definition write_policy (key : Key) (spec : JMap) (guardrailHeaders : option (list guardrailHeader))
    (subscriptionHeaders : list string) (existing : option AuthPolicy) (gateway : option (Obj KGateway)) : Prog (Res GoErr bool) :=
  let owned p := match gateway with Some g => setGatewayOwnerReference g p | None => p end in
  match existing with
  | None =>
      created ← call (Create KAuthPolicy (set_spec spec (owned (new_gateway_policy key))));
      Ret (res_map (λ _, true) (map_err (wrap "failed to create gateway AuthPolicy") created))
  | Some existing =>
      if negb (isManaged (meta existing)) then Ret (Ok false) else
      if policy_unchanged spec guardrailHeaders subscriptionHeaders (au_Spec (body existing)) then Ret (Ok false) else
      updated ← call (Update KAuthPolicy (owned (set_spec spec existing)));
      Ret (res_map (λ _, true) (map_err (wrap "failed to update gateway AuthPolicy") updated))
  end.

(** The specification, with the headers of the tenant's subscriptions; the
    error of the first line stands for a panic, see [spec_always_built]. *)
Definition desired_spec (oidc : option oidcConfig) (xAPIKeyEnabled : bool) (tenantID : string) (gateway : Key)
    (guardrailHeaders : option (list guardrailHeader)) (subscriptionHeaders : list string) : Res GoErr JMap :=
  let tenantName := if negb (String.eqb tenantID "") then tenantID else "models-as-a-service" in
  match buildGatewayAuthPolicySpec oidc xAPIKeyEnabled tenantID tenantName gateway.1 gateway.2 guardrailHeaders with
  | None => Err (plain "panic: AuthPolicy template field is not a map")
  | Some spec => map_err plain (applySubscriptionHeaders spec subscriptionHeaders)
  end.
Definition subscription_namespace (tenantNamespace : string) : string :=
  let ns := if String.eqb tenantNamespace "" then DefaultTenantNamespace else tenantNamespace in
  if String.eqb ns "" then "models-as-a-service" else ns.

Definition reconcileGatewayAuthPolicyWithHeaders (oidc : option oidcConfig) (xAPIKeyEnabled : bool)
    (tenantNamespace tenantID : string) (gateway : Key) (guardrailHeaders : option (list guardrailHeader)) : Prog (Res GoErr bool) :=
  names <-! subscriptionHeaderNames HasRecorder (subscription_namespace tenantNamespace) ;;
  match desired_spec oidc xAPIKeyEnabled tenantID gateway guardrailHeaders names with
  | Err e => Ret (Err e)
  | Ok spec =>
  let key := gateway_policy_key gateway in
  let isTenantGateway := negb (is_default_gateway gateway) in
  found ← call (Get true KAuthPolicy key);
  match found with
  | Err e =>
      if negb (isNotFound e) then Ret (Err (wrap "failed to get gateway AuthPolicy" e)) else
      g ← call (Get true KGateway gateway);
      match g with
      | Ok g => write_policy gateway spec guardrailHeaders names None (Some g)
      | Err e =>
          if negb (isNotFound e) then Ret (Err (wrap ("failed to get Gateway " +:+ shown gateway +:+ " for OwnerReference") e)) else
          if isTenantGateway then Ret (Ok false) else write_policy gateway spec guardrailHeaders names None None
      end
  | Ok existing =>
      g ← call (Get true KGateway gateway);
      match g with
      | Ok g => write_policy gateway spec guardrailHeaders names (Some existing) (Some g)
      | Err e =>
          if negb (isNotFound e) then Ret (Err (wrap ("failed to get Gateway " +:+ shown gateway +:+ " for OwnerReference") e)) else
          if isManaged (meta existing) && (isTenantGateway || hasGatewayOwnerReference existing) then
            deleted ← call (Delete KAuthPolicy existing false);
            match deleted with
            | Err e => Ret (Err (wrap ("failed to delete stale gateway AuthPolicy " +:+ shown key) e))
            | Ok _ => if isTenantGateway then Ret (Ok false) else write_policy gateway spec guardrailHeaders names None None
            end
          else if isTenantGateway then Ret (Ok false)
          else write_policy gateway spec guardrailHeaders names (Some existing) None
      end
  end
  end.

Definition reconcileGatewayAuthPolicy (oidc : option oidcConfig) (xAPIKeyEnabled : bool) (tenantNamespace tenantID : string)
    (gateway : Key) : Prog (Res GoErr bool) :=
  headers <-! guardrailHeaders tenantNamespace ;;
  reconcileGatewayAuthPolicyWithHeaders oidc xAPIKeyEnabled tenantNamespace tenantID gateway headers.

End Controller.
End AuthPolicyController.
