(* ===== verification/AuthPolicyReconcile.v ===== *)
(** * AuthPolicyReconcile: reconciling a MaaSAuthPolicy

    The second half of [AuthPolicyController]'s sources: what is deleted for a
    model, deletion of a MaaSAuthPolicy, its status and conditions, the
    reconciliation itself, the default-deny policy of a new Gateway, and the
    watches. *)

From S2P Require Import Prelude GoStrings Unstructured RateTier Kube JsonMatch GatewaySpec SubscriptionHeaders AITenant TenantLookup GuardrailCatalog ModelRoutes SubscriptionPolicy ModelController AuthPolicyController.
From Stdlib Require String.
Local Open Scope string_scope.

Module AuthPolicyReconcile.
Import Kube AITenant TenantLookup GatewaySpec GatewayHeaders GuardrailCatalog ModelRoutes SubscriptionPolicy AuthPolicyController.

(** ** Conflicts *)

Record conflictingPolicyInfo := {
  cf_Name : string; cf_Namespace : string; cf_HTTPRouteName : string; cf_Model : string; cf_ModelNS : string;
}.
Definition conflict_key (c : conflictingPolicyInfo) : string := cf_Namespace c +:+ "/" +:+ cf_Name c.
Definition conflict_text (c : conflictingPolicyInfo) : string :=
  conflict_key c +:+ " (targets HTTPRoute " +:+ cf_HTTPRouteName c +:+ ", model " +:+ cf_ModelNS c +:+ "/" +:+ cf_Model c +:+ ")".
Definition pluralY (n : nat) : string := if (n =? 1)%nat then "y" else "ies".

(** Only the conditions of these two types are set. *)
Definition ready_condition (phase message : string) (generation : Z) : Condition :=
  let '(status, reason) :=
    if String.eqb phase "Active" then (ConditionTrue, "Reconciled")
    else if String.eqb phase "Degraded" then (ConditionFalse, "PartialFailure")
    else if String.eqb phase "Failed" then (ConditionFalse, "ReconcileFailed")
    else if String.eqb phase "Invalid" then (ConditionFalse, "InvalidSpec")
    else (ConditionUnknown, "Unknown") in
  {| c_Type := "Ready"; c_Status := status; c_Reason := reason; c_Message := message; c_ObservedGeneration := generation |}.
Definition conflict_condition (status reason message : string) (generation : Z) : Condition := {|
  c_Type := ConditionConflictingAuthPolicy; c_Status := status; c_Reason := reason; c_Message := message;
  c_ObservedGeneration := generation |}.
Definition conflict_message (conflicts : list conflictingPolicyInfo) : string :=
  let msg := "Detected " +:+ format_int (Z.of_nat (length conflicts)) +:+ " non-MaaS AuthPolic" +:+ pluralY (length conflicts)
    +:+ " targeting MaaS-managed HTTPRoutes: " +:+ join ", " (map conflict_key conflicts) +:+ ". "
    +:+ "These policies may override MaaS authentication. " +:+ "See MaaS troubleshooting documentation for remediation." in
  if (1024 <? len msg)%Z then str_take 1021 msg +:+ "..." else msg.

(** [deriveAuthPolicyPhase]: the phase and its message. *)
Definition deriveAuthPolicyPhase (policy : MaaSAuthPolicy) (missingModels : list Key) : string * string :=
  let totalModels := length (ap_ModelRefs (body policy)) in
  let missingCount := length missingModels in
  if (Z.of_nat totalModels - Z.of_nat missingCount =? 0)%Z
  then ("Failed", "all " +:+ format_int (Z.of_nat totalModels) +:+ " model references are invalid or missing") else
  let unhealthyPolicies := length (List.filter (λ r, negb (rf_Ready r)) (ap_AuthPolicies (status_of policy))) in
  if (0 <? missingCount)%nat
  then ("Degraded", format_int (Z.of_nat missingCount) +:+ " of " +:+ format_int (Z.of_nat totalModels) +:+ " model references are missing")
  else if (0 <? unhealthyPolicies)%nat
  then ("Degraded", format_int (Z.of_nat unhealthyPolicies) +:+ " of "
          +:+ format_int (Z.of_nat (length (ap_AuthPolicies (status_of policy)))) +:+ " group AuthPolicies not accepted/enforced")
  else ("Active", "successfully reconciled").

Section Controller.
Context `{GR : GoRuntime} `{TS : TenantScope} `{R : AuthPolicyReconciler} `{GS : GatewaySettings}.
Context `{HC : HeaderCodec} `{NF : NestedFields} `{SF : ScalarFields} `{GA : GuardrailAPI}.
Context `{SC : StatusConditions} `{CU : ControllerUtil}.

(** ** The AuthPolicies of models *)

Definition model_policy_labels (modelName : string) : gmap string string :=
  <["maas.opendatahub.io/model" := modelName]>
  (<["app.kubernetes.io/managed-by" := "maas-controller"]>
   {[ "app.kubernetes.io/part-of" := "maas-auth-policy" ]}).
Definition model_namespace_label (m : ObjectMeta) : string := value (Labels m) "maas.opendatahub.io/model-namespace".

Definition delete_one (modelNamespace : string) (p : AuthPolicy) : Prog (Res GoErr unit) :=
  let labeled := model_namespace_label (meta p) in
  if negb (String.eqb labeled "") && negb (String.eqb labeled modelNamespace) then Ret (Ok tt) else
  if negb (isManaged (meta p)) then Ret (Ok tt) else
  deleted ← call (Delete KAuthPolicy p false);
  Ret (map_err (wrap ("failed to delete AuthPolicy " +:+ shown (key_of p))) (ignore_not_found tt deleted)).
Definition deleteModelAuthPolicy (model : Key) : Prog (Res GoErr unit) :=
  policies ← call (ListAll KAuthPolicy model.1 (model_policy_labels model.2));
  match tolerate_absent [] "failed to list AuthPolicies for cleanup" policies with
  | Err e => Ret (Err e)
  | Ok policies => for_each_ok (delete_one model.1) policies
  end.

Definition managed_labels : gmap string string :=
  <["app.kubernetes.io/managed-by" := "maas-controller"]> {[ "app.kubernetes.io/part-of" := "maas-auth-policy" ]}.
(** The model a generated AuthPolicy is for, unless it names none. *)
Definition policy_model (m : ObjectMeta) : option Key :=
  let modelName := value (Labels m) "maas.opendatahub.io/model" in
  if String.eqb modelName "" then None else
  Some (if String.eqb (model_namespace_label m) "" then Namespace m else model_namespace_label m, modelName).
Definition contributed_by (policy : MaaSAuthPolicy) (m : ObjectMeta) : bool :=
  let owners := value (Annotations m) "maas.opendatahub.io/auth-policies" in
  annotationListContains owners (tenant_object (meta policy)) || annotationListContains owners (Name (meta policy)).
Definition stale_policy (policy : MaaSAuthPolicy) (p : AuthPolicy) : Prog (Res GoErr unit) :=
  match policy_model (meta p) with
  | None => Ret (Ok tt)
  | Some model =>
      if bool_decide (shown model ∈ map shown (ap_ModelRefs (body policy))) then Ret (Ok tt) else
      if negb (contributed_by policy (meta p)) then Ret (Ok tt) else
      deleted ← deleteModelAuthPolicy model;
      Ret (map_err (wrap_err ("failed to clean up stale AuthPolicy for removed model " +:+ shown model)) deleted)
  end.
Definition cleanupStaleAuthPolicies (policy : MaaSAuthPolicy) : Prog (Res GoErr unit) :=
  managed ← call (ListBy true KAuthPolicy (MatchingLabels managed_labels));
  match tolerate_absent [] "failed to list managed AuthPolicies for stale cleanup" managed with
  | Err e => Ret (Err e)
  | Ok managed => for_each_ok (stale_policy policy) managed
  end.

Definition reconcile_model_policy (model : Key) : Prog (Res GoErr unit) :=
  route ← findHTTPRouteForModel model;
  match route with
  | Err e =>
      if is_sentinel ErrModelNotFound e then
        deleted ← deleteModelAuthPolicy model;
        Ret (map_err (wrap_err ("failed to clean up AuthPolicy for missing model " +:+ shown model)) deleted)
      else if is_sentinel ErrHTTPRouteNotFound e then Ret (Ok tt)
      else Ret (Err (wrap_err ("failed to resolve HTTPRoute for model " +:+ shown model) e))
  | Ok route =>
      exists_ ← modelAuthPolicyExists (route.1, model.2);
      match exists_ with
      | Err e => Ret (Err (wrap ("failed to check legacy group policy for model " +:+ shown model) e))
      | Ok true =>
          deleted ← deleteModelAuthPolicy (route.1, model.2);
          Ret (map_err (wrap_err ("failed to delete legacy group policy for model " +:+ shown model)) deleted)
      | Ok false => Ret (Ok tt)
      end
  end.
(** The generated AuthPolicies and their models: none, the Gateway's policy is
    the only one enforced. *)
Definition reconcileModelAuthPolicies (policy : MaaSAuthPolicy) : Prog (Res GoErr (list (Key * Key))) :=
  _ <-! for_each_ok reconcile_model_policy (ap_ModelRefs (body policy)) ;;
  _ <-! cleanupStaleAuthPolicies policy ;;
  Ret (Ok []).

(** ** Status *)

(** A generated AuthPolicy and the model it is for. *)
Definition ref_status (ref : Key) (model : Key) : Prog AuthPolicyRefStatus :=
  p ← call (Get true KAuthPolicy ref);
  let st ready reason message := {|
    rf_Name := ref.2; rf_Namespace := ref.1; rf_Ready := ready; rf_Reason := reason; rf_Message := message;
    rf_Model := model.2; rf_ModelNamespace := model.1 |} in
  Ret (match p with
       | Ok p => let '(ready, reason, message) := getAuthPolicyReadyState p in st ready reason message
       | Err e => if isNotFound e then st false "NotFound" "AuthPolicy not created yet"
                  else st false "GetFailed" ("failed to get AuthPolicy: " +:+ ae_Text e)
       end).
Definition updateAuthPolicyRefStatus (policy : MaaSAuthPolicy) (refs : list (Key * Key)) : Prog MaaSAuthPolicy :=
  statuses ← for_each (λ r, ref_status r.1 r.2) refs;
  Ret (set_status (set_policies statuses) policy).

Definition with_phase (policy : MaaSAuthPolicy) (phase message : string) : MaaSAuthPolicy :=
  set_status (set_conditions (SetStatusCondition (ready_condition phase message (Generation (meta policy)))))
    (set_status (set_phase phase) policy).
Definition updateStatus (policy : MaaSAuthPolicy) (phase message : string) (snapshot : MaaSAuthPolicyStatus) : Prog (Res GoErr unit) :=
  let policy := with_phase policy phase message in
  if bool_decide (snapshot = status_of policy) then Ret (Ok tt) else
  updated ← call (UpdateStatus KMaaSAuthPolicy policy);
  Ret (res_map (λ _, tt) (map_err (wrap "failed to update MaaSAuthPolicy status") updated)).
Definition reconcileFailed (policy : MaaSAuthPolicy) (message : string) (snapshot : MaaSAuthPolicyStatus) (cause : GoErr) : Prog (Res GoErr Z) :=
  _ ← updateStatus policy "Failed" message snapshot; Ret (Err cause).
Definition reconcilePending (policy : MaaSAuthPolicy) (message : string) (snapshot : MaaSAuthPolicyStatus) : Prog (Res GoErr Z) :=
  updated ← updateStatus policy "Pending" message snapshot; Ret (res_map (λ _, pending_requeue) updated).

(** ** Conflicts with AuthPolicies of others *)

Definition target_of (p : AuthPolicy) (field : string) : string :=
  match NestedStringE (object_of p) ["spec"; "targetRef"; field] with Ok (Some s) => s | _ => "" end.
Definition conflicting (route : string) (p : AuthPolicy) : bool :=
  negb (String.eqb (value (Labels (meta p)) "app.kubernetes.io/managed-by") "maas-controller")
  && String.eqb (target_of p "name") route && String.eqb (target_of p "kind") "HTTPRoute"
  && String.eqb (target_of p "group") "gateway.networking.k8s.io".
Definition findConflictsForHTTPRoute (route model : Key) : Prog (Res GoErr (list conflictingPolicyInfo)) :=
  policies ← call (ListAll KAuthPolicy route.1 ∅);
  Ret (match policies with
       | Err e => if isNoMatch e then Ok [] else Err (wrap ("list AuthPolicies in namespace " +:+ route.1) e)
       | Ok policies => Ok (map (λ p, {|
           cf_Name := Name (meta p); cf_Namespace := Namespace (meta p); cf_HTTPRouteName := route.2;
           cf_Model := model.2; cf_ModelNS := model.1 |}) (List.filter (conflicting route.2) policies))
       end).
Definition conflicts_of_model (conflicts : list conflictingPolicyInfo) (model : Key) : Prog (Res GoErr (list conflictingPolicyInfo)) :=
  route ← findHTTPRouteForModel model;
  match route with
  | Err e =>
      if is_sentinel ErrModelNotFound e || is_sentinel ErrHTTPRouteNotFound e then Ret (Ok conflicts)
      else Ret (Err (wrap_err ("resolve HTTPRoute for model " +:+ shown model) e))
  | Ok route => found <-! findConflictsForHTTPRoute route model ;; Ret (Ok (conflicts ++ found)%list)
  end.
(** The last conflict of a policy stands for it. *)
Definition distinct_conflicts (conflicts : list conflictingPolicyInfo) : list conflictingPolicyInfo :=
  let uniq := fold_left (λ (uniq : gmap string conflictingPolicyInfo) c, <[conflict_key c := c]> uniq) conflicts ∅ in
  sort_slice (on_key conflict_key str_ltb) (map snd (range_map uniq)).
Definition detectConflictingAuthPolicies (policy : MaaSAuthPolicy) : Prog (Res GoErr (list conflictingPolicyInfo)) :=
  conflicts <-! fold_ok conflicts_of_model [] (ap_ModelRefs (body policy)) ;;
  Ret (Ok (distinct_conflicts conflicts)).

Definition set_condition (c : Condition) (policy : MaaSAuthPolicy) : MaaSAuthPolicy :=
  set_status (set_conditions (SetStatusCondition c)) policy.
Definition setConflictingAuthPolicyCondition (policy : MaaSAuthPolicy) (conflicts : list conflictingPolicyInfo) : MaaSAuthPolicy :=
  set_condition (match conflicts with
    | [] => conflict_condition ConditionFalse "NoConflict"
              "No conflicting AuthPolicies detected on MaaS-managed HTTPRoutes" (Generation (meta policy))
    | _ => conflict_condition ConditionTrue "ConflictDetected" (conflict_message conflicts) (Generation (meta policy))
    end) policy.

Definition conflict_of (policy : MaaSAuthPolicy) : option Condition :=
  FindStatusCondition (ap_Conditions (status_of policy)) ConditionConflictingAuthPolicy.
(** [prevConflict] points into the list of conditions, where
    [SetStatusCondition] updates the condition it points to. *)
Definition prev_conflict (before after : MaaSAuthPolicy) : option Condition :=
  match conflict_of before with None => None | Some _ => conflict_of after end.
Definition shouldEmitConflictEvent (prev curr : option Condition) : bool :=
  match curr with
  | None => false
  | Some curr =>
      String.eqb (c_Status curr) ConditionTrue &&
      match prev with
      | None => true
      | Some prev => negb (String.eqb (c_Status prev) (c_Status curr)) || negb (String.eqb (c_Message prev) (c_Message curr))
      end
  end.
Definition shouldEmitResolvedEvent (prev curr : option Condition) : bool :=
  match curr, prev with
  | Some curr, Some prev => String.eqb (c_Status curr) ConditionFalse && String.eqb (c_Status prev) ConditionTrue
  | _, _ => false
  end.
Definition conflict_events (before after : MaaSAuthPolicy) (conflicts : list conflictingPolicyInfo) : Prog unit :=
  let prev := prev_conflict before after in
  let curr := conflict_of after in
  _ ← (if shouldEmitConflictEvent prev curr && HasRecorder
       then call (Eventf "Warning" "ConflictingAuthPolicy" "DetectConflictingAuthPolicies"
              ("Detected " +:+ format_int (Z.of_nat (length conflicts)) +:+ " non-MaaS AuthPolic" +:+ pluralY (length conflicts)
               +:+ " on MaaS auth surfaces: " +:+ join "; " (map conflict_text conflicts)))
       else Ret tt);
  if shouldEmitResolvedEvent prev curr && HasRecorder
  then call (Eventf "Normal" "ConflictingAuthPolicyResolved" "DetectConflictingAuthPolicies"
         "All conflicting AuthPolicies on MaaS auth surfaces have been resolved")
  else Ret tt.
Definition report_conflicts (policy : MaaSAuthPolicy) : Prog MaaSAuthPolicy :=
  detected ← detectConflictingAuthPolicies policy;
  let conflicts := match detected with Ok l => l | Err _ => [] end in
  let policy' := match detected with
                 | Err e => set_condition (conflict_condition ConditionUnknown "ConflictCheckFailed" (etext e)
                                             (Generation (meta policy))) policy
                 | Ok l => setConflictingAuthPolicyCondition policy l
                 end in
  _ ← conflict_events policy policy' conflicts;
  Ret policy'.

(** ** Reconciliation *)

Definition missing_model (model : Key) : Prog bool :=
  m ← call (Get true KModelRef model); Ret (match m with Ok _ => false | Err _ => true end).
Definition findMissingModelRefs (policy : MaaSAuthPolicy) : Prog (list Key) :=
  found ← for_each (λ m, missing ← missing_model m; Ret (m, missing)) (ap_ModelRefs (body policy));
  Ret (map fst (List.filter snd found)).

Definition conclude (policy : MaaSAuthPolicy) (snapshot : MaaSAuthPolicyStatus) (missing : list Key) : Prog (Res GoErr Z) :=
  reconciled ← reconcileModelAuthPolicies policy;
  match reconciled with
  | Err e => reconcileFailed policy ("Failed to reconcile: " +:+ etext e) snapshot e
  | Ok refs =>
      policy ← updateAuthPolicyRefStatus policy refs;
      policy ← report_conflicts policy;
      let '(phase, message) := deriveAuthPolicyPhase policy missing in
      updated ← updateStatus policy phase message snapshot;
      Ret (res_map (λ _, 0%Z) updated)
  end.

Definition waiting_target (tenantID : string) : string :=
  "Waiting for target maas-api Service " +:+ InfraNamespace +:+ "/" +:+ MaaSAPIServiceName tenantID
  +:+ " to have a ready endpoint before replacing the working legacy AuthPolicy".
Definition waiting_gateway (gateway : Key) (readiness : string) : string :=
  "Waiting for gateway AuthPolicy " +:+ shown (gateway_policy_key gateway) +:+ " to be accepted and enforced: " +:+ readiness.

(** Once the cutover is safe: the Gateway's policy first, the models' after it
    is enforced. *)
Definition cut_over (policy : MaaSAuthPolicy) (snapshot : MaaSAuthPolicyStatus) (missing : list Key) (oidc : option oidcConfig)
    (xAPIKeyEnabled : bool) (tenantID : string) (gateway : Key) (legacyPolicyExists : bool) : Prog (Res GoErr Z) :=
  changed ← reconcileGatewayAuthPolicy oidc xAPIKeyEnabled (Namespace (meta policy)) tenantID gateway;
  match changed with
  | Err e => reconcileFailed policy ("Failed to reconcile gateway AuthPolicy: " +:+ etext e) snapshot e
  | Ok gwChanged =>
      if gwChanged || legacyPolicyExists || negb (String.eqb (ap_Phase (status_of policy)) "Active") then
        readiness ← gatewayAuthPolicyReady gateway;
        match readiness with
        | Err e => reconcileFailed policy ("Failed to check gateway AuthPolicy readiness: " +:+ etext e) snapshot e
        | Ok (ready, message) =>
            if negb ready then reconcilePending policy (waiting_gateway gateway message) snapshot
            else conclude policy snapshot missing
        end
      else conclude policy snapshot missing
  end.

Definition reconcile_tenant (policy : MaaSAuthPolicy) (snapshot : MaaSAuthPolicyStatus) : Prog (Res GoErr Z) :=
  let ns := Namespace (meta policy) in
  missing ← findMissingModelRefs policy;
  oidc ← fetchOIDCConfig ns;
  tenant ← fetchTenantIdentifier ns;
  match tenant with
  | Err e => reconcileFailed policy ("Failed to resolve tenant identifier: " +:+ etext e) snapshot e
  | Ok tenantID =>
  xAPIKeyEnabled ← discoverXAPIKeyNeeded;
  info ← fetchGatewayInfo ns;
  match info with
  | Err e => reconcileFailed policy ("Failed to fetch gateway info: " +:+ etext e) snapshot e
  | Ok gateway =>
  if negb (String.eqb tenantID "") && is_default_gateway gateway
  then updated ← updateStatus policy "Active" "" snapshot; Ret (res_map (λ _, 0%Z) updated) else
  legacy ← hasLegacyModelAuthPolicy ns;
  match legacy with
  | Err e => reconcileFailed policy ("Failed to check upgrade cutover safety: " +:+ etext e) snapshot e
  | Ok false => cut_over policy snapshot missing oidc xAPIKeyEnabled tenantID gateway false
  | Ok true =>
      target ← targetMaaSAPIReady tenantID;
      match target with
      | Err e => reconcileFailed policy ("Failed to check target maas-api readiness: " +:+ etext e) snapshot e
      | Ok ready =>
          if negb ready then reconcilePending policy (waiting_target tenantID) snapshot
          else cut_over policy snapshot missing oidc xAPIKeyEnabled tenantID gateway true
      end
  end
  end
  end.

(** ** Deletion *)

Definition others_live (policy : MaaSAuthPolicy) (l : list MaaSAuthPolicy) : bool :=
  existsb (λ p, negb (bool_decide (key_of p = key_of policy)) && live p) l.
Definition unfinalized (p : MaaSAuthPolicy) : MaaSAuthPolicy :=
  with_meta (λ m, set_finalizers (remove_finalizer maasAuthPolicyFinalizer (Finalizers m)) m) p.
(** The last policy of a tenant leaves the default-deny policy behind, unless
    the Gateway is another tenant's. *)
Definition reset_gateway (policy : MaaSAuthPolicy) : Prog (Res GoErr unit) :=
  let ns := Namespace (meta policy) in
  tenantID <-! fetchTenantIdentifier ns ;;
  gateway <-! fetchGatewayInfo ns ;;
  let isDefaultTenantNamespace := String.eqb DefaultTenantNamespace "" || String.eqb ns DefaultTenantNamespace in
  let isNonDefaultTenant := negb (String.eqb tenantID "") in
  if isNonDefaultTenant && is_default_gateway gateway then Ret (Ok tt) else
  if negb isDefaultTenantNamespace && negb isNonDefaultTenant && is_default_gateway gateway then Ret (Ok tt) else
  oidc ← fetchOIDCConfig ns;
  xAPIKeyEnabled ← discoverXAPIKeyNeeded;
  _ <-! reconcileGatewayAuthPolicyWithHeaders oidc xAPIKeyEnabled ns tenantID gateway None ;;
  Ret (Ok tt).
Definition handleDeletion (policy : MaaSAuthPolicy) : Prog (Res GoErr Z) :=
  if negb (contains_finalizer (Finalizers (meta policy)) maasAuthPolicyFinalizer) then Ret (Ok 0%Z) else
  _ <-! for_each_ok deleteModelAuthPolicy (ap_ModelRefs (body policy)) ;;
  _ <-! cleanupStaleAuthPolicies policy ;;
  remaining ← call (ListBy true KMaaSAuthPolicy (InNamespace (Namespace (meta policy))));
  match remaining with
  | Err e => Ret (Err (of_api e))
  | Ok remaining =>
      _ <-! (if others_live policy remaining then Ret (Ok tt) else reset_gateway policy) ;;
      updated ← call (Update KMaaSAuthPolicy (unfinalized policy));
      Ret (res_map (λ _, 0%Z) (map_err of_api updated))
  end.

(** ** Reconcile *)

Definition empty_spec (p : MaaSAuthPolicy) : bool := bool_decide (ap_ModelRefs (body p) = []) && String.eqb (ap_Rest (body p)) "".
Definition finalized (p : MaaSAuthPolicy) : MaaSAuthPolicy :=
  with_meta (λ m, set_finalizers (add_finalizer maasAuthPolicyFinalizer (Finalizers m)) m) p.
Definition ensure_finalizer (p : MaaSAuthPolicy) : Prog (Res GoErr MaaSAuthPolicy) :=
  if contains_finalizer (Finalizers (meta p)) maasAuthPolicyFinalizer then Ret (Ok p) else
  updated ← call (Update KMaaSAuthPolicy (finalized p)); Ret (map_err of_api updated).
Definition reconcile_live (policy : MaaSAuthPolicy) : Prog (Res GoErr Z) :=
  allowed <-! tenantNamespaceAllowed (Namespace (meta policy)) ;;
  if negb allowed then Ret (Ok 0%Z) else
  if empty_spec policy
  then updated ← updateStatus policy "Invalid" "spec is required" (status_of policy); Ret (res_map (λ _, 0%Z) updated) else
  policy <-! ensure_finalizer policy ;;
  reconcile_tenant policy (status_of policy).

(** The request that propagates a change of a guardrail; a namespaced object
    never has an empty namespace. *)
Definition guardrailPropagationRequest : Key := ("", "guardrail-catalog-refresh").

(** The requests that are queued. *)
Fixpoint allowed_requests (allowed : gmap string bool) (policies : list MaaSAuthPolicy) : Prog (Res GoErr (list Key)) :=
  match policies with
  | [] => Ret (Ok [])
  | p :: policies =>
      let ns := Namespace (meta p) in
      ok <-! match allowed !! ns with
             | Some ok => Ret (Ok ok)
             | None => r ← tenantNamespaceAllowed ns;
                       Ret (map_err (wrap_err "check tenant namespace for AIGuardrail change") r)
             end ;;
      rest <-! allowed_requests (<[ns := ok]> allowed) policies ;;
      Ret (Ok (if (ok : bool) then key_of p :: rest else rest))
  end.
(** [connected]: [enqueueGuardrailPolicy] is set. *)
Definition propagateGuardrailChange (connected : bool) : Prog (Res GoErr (list Key)) :=
  if negb connected then Ret (Err (plain "guardrail propagation queue is not connected")) else
  policies <-! try "list MaaSAuthPolicies for AIGuardrail change" (call (ListBy true KMaaSAuthPolicy Everywhere)) ;;
  allowed_requests ∅ policies.

(** The requeue delay and the requests put on the queue. *)
Definition Reconcile (connected : bool) (req : Key) : Prog (Res GoErr (Z * list Key)) :=
  if bool_decide (req = guardrailPropagationRequest)
  then queued <-! propagateGuardrailChange connected ;; Ret (Ok (0%Z, queued)) else
  policy ← call (Get true KMaaSAuthPolicy req);
  match policy with
  | Err e => Ret (if isNotFound e then Ok (0%Z, []) else Err (of_api e))
  | Ok policy =>
      after <-! (if negb (live policy) then handleDeletion policy else reconcile_live policy) ;;
      Ret (Ok (after, []))
  end.

(** ** Before any MaaSAuthPolicy *)

Definition deleteLegacyGatewayDefaultAuthPolicy : Prog unit :=
  p ← call (Get true KAuthPolicy (FallbackGatewayNamespace, legacyGatewayDefaultAuthPolicyName));
  match p with
  | Err _ => Ret tt
  | Ok p => if negb (isManaged (meta p)) then Ret tt else _ ← call (Delete KAuthPolicy p false); Ret tt
  end.
Definition ensureBaseGatewayAuthPolicy (oidc : option oidcConfig) (xAPIKeyEnabled : bool) (tenantNamespace tenantID : string)
    (gateway : Key) : Prog (Res GoErr unit) :=
  _ ← (if is_default_gateway gateway then deleteLegacyGatewayDefaultAuthPolicy else Ret tt);
  existing ← call (Get true KAuthPolicy (gateway_policy_key gateway));
  match existing with
  | Ok _ => Ret (Ok tt)
  | Err e =>
      if negb (isNotFound e) then Ret (Err (wrap ("failed to check gateway AuthPolicy " +:+ shown (gateway_policy_key gateway)) e)) else
      _ <-! reconcileGatewayAuthPolicyWithHeaders oidc xAPIKeyEnabled tenantNamespace tenantID gateway None ;;
      Ret (Ok tt)
  end.
Definition syncDefaultGatewayAuthPolicyForXAPIKeyDiscovery : Prog (Res GoErr unit) :=
  oidc ← fetchOIDCConfig (if String.eqb DefaultTenantNamespace "" then "opendatahub" else DefaultTenantNamespace);
  xAPIKeyEnabled ← discoverXAPIKeyNeeded;
  _ <-! reconcileGatewayAuthPolicyWithHeaders oidc xAPIKeyEnabled DefaultTenantNamespace ""
          (FallbackGatewayNamespace, FallbackGatewayName) None ;;
  Ret (Ok tt).

(** ** What wakes a policy up *)

Definition requests_of (listed : Res ApiErr (list MaaSAuthPolicy)) : list Key :=
  match listed with Ok l => map key_of l | Err _ => [] end.
Definition tenant_requests (ns : string) : Prog (list Key) :=
  listed ← call (ListBy true KMaaSAuthPolicy (InNamespace ns));
  match listed with
  | Err _ => Ret []
  | Ok l => kept ← ModelController.filterAuthPoliciesByTenantNamespace l; Ret (map key_of kept)
  end.
Definition mapAITenantToMaaSAuthPolicies (aitenant : ObjectMeta) : Prog (list Key) :=
  tenant_requests (TenantNamespaceForAITenant (Name aitenant) DefaultTenantNamespace).
Definition mapTenantToMaaSAuthPolicies (tenant : ObjectMeta) : Prog (list Key) := tenant_requests (Namespace tenant).
Definition mapMaaSAuthPoliciesInNamespace (ns : string) : Prog (list Key) :=
  if negb (String.eqb ns DefaultTenantNamespace) && negb TenantNamespaceDiscoveryEnabled then Ret [] else
  listed ← call (ListBy true KMaaSAuthPolicy (InNamespace ns)); Ret (requests_of listed).
Definition mapNamespaceToMaaSAuthPolicies (obj : ObjectMeta) : Prog (list Key) := mapMaaSAuthPoliciesInNamespace (Name obj).
Definition mapObjectNamespaceToMaaSAuthPolicies (obj : ObjectMeta) : Prog (list Key) := mapMaaSAuthPoliciesInNamespace (Namespace obj).
Definition mapAIGuardrailToPropagation : list Key := [guardrailPropagationRequest].
Definition enqueueMaaSAuthPoliciesInNamespace (ns : string) : Prog (list Key) :=
  if String.eqb ns "" then Ret [] else
  listed ← call (ListBy true KMaaSAuthPolicy (InNamespace ns)); Ret (requests_of listed).

(** [retry.OnError]: [retries] further attempts. *)
Fixpoint OnError {A} (retries : nat) (retriable : GoErr → bool) (f : Prog (Res GoErr A)) : Prog (Res GoErr A) :=
  r ← f;
  match r, retries with
  | Err e, S retries => if retriable e then OnError retries retriable f else Ret (Err e)
  | _, _ => Ret r
  end.
Definition isRetryableAPIError (e : GoErr) : bool :=
  err_is (λ a, bool_decide (ae_Reason a = ReasonTooManyRequests) || bool_decide (ae_Reason a = ReasonTimeout)
               || bool_decide (ae_Reason a = ReasonServerTimeout) || bool_decide (ae_Reason a = ReasonServiceUnavailable)
               || isConflict a) e.
(** Whether a synchronization of the default Gateway is queued, and the
    requests. *)
Definition mapIPPExternalModelToMaaSAuthPolicies : Prog (bool * list Key) :=
  listed ← OnError default_retries isRetryableAPIError (p ← call (ListBy true KMaaSAuthPolicy Everywhere); Ret (map_err of_api p));
  match listed with
  | Err _ => fallback ← enqueueMaaSAuthPoliciesInNamespace DefaultTenantNamespace; Ret (true, fallback)
  | Ok [] =>
      synced ← OnError default_retries (λ _, true) syncDefaultGatewayAuthPolicyForXAPIKeyDiscovery;
      Ret (negb (is_ok synced), [])
  | Ok l => Ret (false, map key_of l)
  end.
(** One item of [runIPPGatewaySyncWorker]: whether it is queued again. *)
Definition ipp_sync_item : Prog bool :=
  synced ← syncDefaultGatewayAuthPolicyForXAPIKeyDiscovery; Ret (negb (is_ok synced)).
(** The runnable [SetupWithManager] adds: its error is logged. *)
Definition startup_sync : Prog unit := _ ← syncDefaultGatewayAuthPolicyForXAPIKeyDiscovery; Ret tt.

Definition mapGeneratedAuthPolicyToParent (obj : ObjectMeta) : Prog (list Key) :=
  if negb (String.eqb (value (Labels obj) "app.kubernetes.io/managed-by") "maas-controller") then Ret [] else
  match policy_model obj with
  | None => Ret []
  | Some model =>
      parent ← ModelController.findAnyAuthPolicyForModel model;
      Ret (match parent with Some p => [key_of p] | None => [] end)
  end.

Definition refers (model : Key) (refs : list Key) : bool := bool_decide (model ∈ refs).
Definition subscribes (model : Key) (s : MaaSSubscription) : bool :=
  existsb (λ r, bool_decide ((RateTier.mr_Namespace r, RateTier.mr_Name r) = model)) (ss_ModelRefs (ss_Spec (body s))).
(** The policies that refer to the model, then those of a tenant that
    subscribes to it, each once. *)
Definition mapMaaSModelRefToMaaSAuthPolicies (model : Key) : Prog (list Key) :=
  listed ← call (ListBy true KMaaSAuthPolicy Everywhere);
  match listed with
  | Err _ => Ret []
  | Ok l =>
      policies ← ModelController.filterAuthPoliciesByTenantNamespace l;
      let direct := map key_of (List.filter (λ p, refers model (ap_ModelRefs (body p))) policies) in
      subs ← call (ListBy true KSubscription Everywhere);
      Ret (match subs with
           | Err _ => ModelController.keep_first direct
           | Ok subs =>
               let namespaces := map (λ s, Namespace (meta s)) (List.filter (subscribes model) subs) in
               ModelController.keep_first
                 (direct ++ map key_of (List.filter (λ p, bool_decide (Namespace (meta p) ∈ namespaces)) policies))%list
           end)
  end.
Definition mapHTTPRouteToMaaSAuthPolicies (routeNamespace : string) : Prog (list Key) :=
  models ← call (ListBy true KModelRef (InNamespace routeNamespace));
  match models with
  | Err _ => Ret []
  | Ok [] => Ret []
  | Ok models =>
      listed ← call (ListBy true KMaaSAuthPolicy Everywhere);
      match listed with
      | Err _ => Ret []
      | Ok l =>
          policies ← ModelController.filterAuthPoliciesByTenantNamespace l;
          let keys := map (λ m, shown (key_of m)) models in
          Ret (map key_of (List.filter (λ p, existsb (λ r, bool_decide (shown r ∈ keys)) (ap_ModelRefs (body p))) policies))
      end
  end.

End Controller.
End AuthPolicyReconcile.
