(* ===== verification/GatewaySpecFacts.v ===== *)
(** * GatewaySpecFacts: what the AuthPolicy of a Gateway always holds

    The shape of the specification [GatewaySpec] builds and [SubscriptionHeaders]
    completes, and what follows for a live policy that the controller leaves
    alone. *)

From S2P Require Import Prelude GoStrings Unstructured RateTier Kube GuardrailResolver JsonMatch GatewaySpec SubscriptionHeaders AITenant TenantLookup GuardrailCatalog ModelRoutes SubscriptionPolicy ModelController AuthPolicyController.
From Stdlib Require String.
Local Open Scope string_scope.

Module GatewaySpecFacts.
Import Kube AITenant TenantLookup GatewaySpec GatewayHeaders AuthPolicyController.

(** ** Maps updated in place *)

Lemma get_put_eq k v m : get k (put k v m) = Some v.
Proof.
  induction m as [|[k' w] m IH]; cbn [put get]; [by rewrite String.eqb_refl|].
  destruct (String.eqb k' k) eqn:E; cbn [get]; rewrite E; [done|exact IH].
Qed.
Lemma get_put_ne k k' v m : k ≠ k' → get k' (put k v m) = get k' m.
Proof.
  intros Hk. apply String.eqb_neq in Hk as Hb. induction m as [|[k0 w] m IH]; cbn [put get]; [by rewrite Hb|].
  destruct (String.eqb_spec k0 k) as [->|]; cbn [get]; [by rewrite Hb|by rewrite IH].
Qed.

(** ** One entry per key *)

Lemma put_elem k v m kv : kv ∈ put k v m → kv = (k, v) ∨ kv ∈ m.
Proof.
  induction m as [|[k' w] m IH]; cbn [put]; [rewrite elem_of_cons; naive_solver|].
  destruct (String.eqb_spec k' k) as [->|]; rewrite !elem_of_cons; naive_solver.
Qed.
Lemma put_nodup k v m : NoDup m.*1 → NoDup (put k v m).*1.
Proof.
  induction m as [|[k' w] m IH]; cbn [put fmap list_fmap fst]; intros H; [apply NoDup_singleton|].
  apply NoDup_cons in H as [Hn Hd]. destruct (String.eqb_spec k' k) as [->|Hk]; cbn [fmap list_fmap fst].
  - by apply NoDup_cons.
  - apply NoDup_cons. split; [|by apply IH]. intros ([k0 w0] & E & H)%list_elem_of_fmap. cbn in E. subst k0.
    apply put_elem in H as [[= ->]|H]; [done|]. apply Hn, list_elem_of_fmap. by exists (k', w0).
Qed.
Lemma wf_put k v m : wf (JObj m) → wf v → wf (JObj (put k v m)).
Proof.
  intros Hm Hv. inversion Hm as [| | | | | |? Hd Hf]; subst. constructor; [by apply put_nodup|].
  rewrite Forall_forall in *. intros kv [-> | H]%put_elem; [done|by apply Hf].
Qed.
Lemma wf_put_all {A} (name : A → string) (v : A → JVal) l m :
  (∀ a, wf (v a)) → wf (JObj m) → wf (JObj (fold_left (λ m a, put (name a) (v a) m) l m)).
Proof. intros Hv. revert m. induction l as [|a l IH]; intros m Hm; cbn [fold_left]; [done|]. apply IH. by apply wf_put. Qed.
Lemma wf_filter f m : wf (JObj m) → wf (JObj (List.filter f m)).
Proof.
  intros Hm. inversion Hm as [| | | | | |? Hd Hf]; subst. constructor.
  - clear Hm Hf. induction m as [|[k v] m IH]; cbn [List.filter]; [constructor|]. apply NoDup_cons in Hd as [Hn Hd].
    destruct (f (k, v)); [|by apply IH]. apply NoDup_cons. split; [|by apply IH].
    intros (kv & E & H)%list_elem_of_fmap. apply Hn, list_elem_of_fmap. exists kv. split; [exact E|].
    apply list_elem_of_In, filter_In in H as [H _]. by apply list_elem_of_In.
  - rewrite Forall_forall in *. intros kv H. apply Hf. apply list_elem_of_In, filter_In in H as [H _]. by apply list_elem_of_In.
Qed.

(** A check that looks at keys only. *)
Fixpoint distinct_keys (seen l : list string) : bool :=
  match l with
  | [] => true
  | k :: l => negb (existsb (String.eqb k) seen) && distinct_keys (k :: seen) l
  end.
Fixpoint wfb (v : JVal) : bool :=
  match v with
  | JArr l => forallb wfb l
  | JObj m => distinct_keys [] (map fst m) && forallb (λ kv, wfb kv.2) m
  | _ => true
  end.
Lemma distinct_keys_sound seen l : distinct_keys seen l = true → NoDup l ∧ ∀ k, k ∈ l → k ∉ seen.
Proof.
  revert seen. induction l as [|k l IH]; intros seen; cbn [distinct_keys].
  - intros _. split; [constructor|]. intros k H. inversion H.
  - intros [Hk [Hd Hs]%IH]%andb_true_iff. apply negb_true_iff in Hk. split.
    + apply NoDup_cons. split; [|exact Hd]. intros H. apply (Hs k H). left.
    + intros k' [->|H]%elem_of_cons; [|intros Hin; apply (Hs k' H); by right].
      intros Hin. enough (existsb (String.eqb k) seen = true) by congruence.
      apply existsb_elem. exists k. by rewrite String.eqb_refl.
Qed.
Lemma wfb_sound v : wfb v = true → wf v.
Proof.
  induction v as [ | | | | |l IH|m IH] using JVal_nested_ind; cbn [wfb]; intros H; try constructor.
  - rewrite Forall_forall in *. rewrite forallb_forall in H. intros x Hx. apply (IH x Hx), H. by apply list_elem_of_In.
  - apply andb_true_iff in H as [H _]. by apply distinct_keys_sound in H as [H _].
  - apply andb_true_iff in H as [_ H]. rewrite Forall_forall in *. rewrite forallb_forall in H.
    intros x Hx. apply (IH x Hx), H. by apply list_elem_of_In.
Qed.

Section Facts.
Context `{GR : GoRuntime} `{TS : TenantScope} `{R : AuthPolicyReconciler} `{GS : GatewaySettings}.
Context `{HC : HeaderCodec} `{NFL : NestedFieldsLaws}.

(** ** The shape of the specification *)

Definition is_key (x : bool) : string := (apiKeyCELPredicates x).1.1.
Definition is_not_key (x : bool) : string := (apiKeyCELPredicates x).1.2.
Definition extract_key (x : bool) : string := (apiKeyCELPredicates x).2.

Definition deny_identity_headers (patterns : list JVal) : JVal :=
  JObj [("metrics", JBool false); ("priority", JInt 0); ("patternMatching", JObj [("patterns", JArr patterns)])].
Definition identity_header_patterns : list JVal :=
  match at_path (JObj (base_authorization "" "")) [inl "deny-client-identity-headers"; inl "patternMatching"; inl "patterns"] with
  | Some (JArr l) => l
  | _ => []
  end.

Definition shape (gateway : string) (metadata authentication : JVal) (authorization headers : JMap) : JMap := [
  ("targetRef", JObj [("group", JStr "gateway.networking.k8s.io"); ("kind", JStr "Gateway"); ("name", JStr gateway)]);
  ("defaults", JObj [
    ("when", JArr [JObj [("predicate", JStr (raw "request.path != `/maas-api/health` || request.method != `GET`"))]]);
    ("rules", JObj [
      ("metadata", metadata);
      ("authentication", authentication);
      ("authorization", JObj authorization);
      ("response", JObj [
        ("success", JObj [("headers", JObj headers); ("filters", success_filters)]);
        ("unauthenticated", unauthenticated_response);
        ("unauthorized", unauthorized_response)])])])].

Definition metadata_of (tenantID : string) : JVal :=
  metadata_rules (apiKeyValidationURL (maasAPIServiceName tenantID)) (subscriptionSelectorURL (maasAPIServiceName tenantID)).
Definition authorization_of (oidc : option oidcConfig) (x : bool) (catalog : option (list guardrailHeader)) : JMap :=
  authorizationRules oidc catalog (is_key x) (is_not_key x) (extract_key x).
Definition headers_of (oidc : option oidcConfig) (x : bool) (catalog : option (list guardrailHeader)) : JMap :=
  add_guardrail_headers (default [] catalog) (success_headers oidc (is_key x) (is_not_key x)).

Lemma built_shape oidc x tenantID tenantName ns gateway catalog :
  buildGatewayAuthPolicySpec oidc x tenantID tenantName ns gateway catalog =
  Some (shape gateway (metadata_of tenantID) (JObj (authenticationRules oidc x (is_not_key x)))
          (authorization_of oidc x catalog) (headers_of oidc x catalog)).
Proof.
  unfold buildGatewayAuthPolicySpec, authorization_of, headers_of, is_key, is_not_key, extract_key.
  destruct (apiKeyCELPredicates x) as [[a b] c]. reflexivity.
Qed.

(** building the specification never panics: the template has the maps its
    helper requires, whatever the configuration, the tenant and the catalogue. *)
Theorem spec_always_built oidc x tenantID tenantName ns gateway catalog :
  ∃ spec, buildGatewayAuthPolicySpec oidc x tenantID tenantName ns gateway catalog = Some spec.
Proof. eexists. apply built_shape. Qed.

(** *** Lookups in the rules *)

Lemma authorization_get oidc x catalog k :
  k ≠ "guardrail-checks-known" → k ≠ "oidc-groups-safe" → k ≠ "oidc-client-bound" →
  get k (authorization_of oidc x catalog) =
  get k (base_authorization (is_key x) (raw "`api-key|` + (" +:+ extract_key x +:+ raw ") + `|` + " +:+ celModelIdentity)).
Proof.
  intros H1 H2 H3. unfold authorization_of, authorizationRules.
  destruct oidc; rewrite ?get_put_ne by congruence; destruct catalog; by rewrite ?get_put_ne by congruence.
Qed.

Lemma deny_rule oidc x catalog :
  get "deny-client-identity-headers" (authorization_of oidc x catalog) = Some (deny_identity_headers identity_header_patterns).
Proof. rewrite authorization_get by done. reflexivity. Qed.

(** ** With the headers of the subscriptions *)

Definition with_deny_patterns (patterns : list JVal) (authorization : JMap) : JMap :=
  put "deny-client-identity-headers" (deny_identity_headers patterns) authorization.
Definition with_headers (names : list string) (headers : JMap) : JMap :=
  fold_left (λ m name, put name (subscriptionInfoHeadersExpr name) m) names
    (List.filter (λ header, negb (unmanaged_now names header.1)) headers).
Definition x_grid_pattern (names : list string) : JVal :=
  JObj [("predicate", JStr (subscriptionHeadersDenyPredicate names))].

Lemma applied_shape gateway metadata authentication authorization headers names :
  get "deny-client-identity-headers" authorization = Some (deny_identity_headers identity_header_patterns) →
  applySubscriptionHeaders (shape gateway metadata authentication authorization headers) names =
  Ok (shape gateway metadata authentication
        (with_deny_patterns (identity_header_patterns ++ [x_grid_pattern names])%list authorization)
        (with_headers names headers)).
Proof.
  intros Hd. unfold applySubscriptionHeaders. rewrite nested_map_documented.
  change (GuardrailResolver.typed_field as_map _ headers_path) with (Ok (E := string) (Some headers)).
  cbn [map_err res_bind]. fold (with_headers names headers). rewrite set_map_documented.
  change (set_nested _ (JObj (with_headers names headers)) headers_path)
    with (Ok (E := string) (shape gateway metadata authentication authorization (with_headers names headers))).
  cbn [res_bind]. rewrite nested_slice_documented.
  assert (E : GuardrailResolver.typed_field as_slice
    (shape gateway metadata authentication authorization (with_headers names headers)) patterns_path
    = Ok (Some identity_header_patterns)).
  { unfold GuardrailResolver.typed_field. cbn -[with_headers identity_header_patterns].
    rewrite Hd. reflexivity. }
  rewrite E. cbn [map_err res_bind]. rewrite set_slice_documented.
  cbn -[with_headers identity_header_patterns x_grid_pattern put]. rewrite Hd. reflexivity.
Qed.

Lemma desired_shape oidc x tenantID gateway catalog names :
  desired_spec oidc x tenantID gateway catalog names =
  Ok (shape gateway.2 (metadata_of tenantID) (JObj (authenticationRules oidc x (is_not_key x)))
        (with_deny_patterns (identity_header_patterns ++ [x_grid_pattern names])%list (authorization_of oidc x catalog))
        (with_headers names (headers_of oidc x catalog))).
Proof.
  unfold desired_spec. rewrite built_shape, applied_shape by apply deny_rule. reflexivity.
Qed.

(** ** Lookups in the specification *)

Lemma get_filter (f : string → bool) k m :
  get k (List.filter (λ kv, f kv.1) m) = if f k then get k m else None.
Proof.
  induction m as [|[k' v] m IH]; cbn [List.filter get fst]; [by destruct (f k)|].
  destruct (String.eqb_spec k' k) as [->|Hk].
  - destruct (f k) eqn:E; cbn [get]; [by rewrite String.eqb_refl|]. by rewrite IH.
  - destruct (f k'); cbn [get]; [|exact IH]. apply String.eqb_neq in Hk. by rewrite Hk.
Qed.
Lemma get_put_all {A} (name : A → string) (v : A → JVal) k l m :
  (∀ a, a ∈ l → name a ≠ k) → get k (fold_left (λ m a, put (name a) (v a) m) l m) = get k m.
Proof.
  revert m. induction l as [|a l IH]; intros m H; cbn [fold_left]; [done|].
  rewrite IH by (intros b Hb; apply H; by right). apply get_put_ne, H. left.
Qed.

Definition catalog_named (l : list guardrailHeader) : Prop :=
  ∀ h, h ∈ l → has_prefix "x-aigateway-guardrail-" (gh_Name h) = true.
Definition grid_named (names : list string) : Prop := ∀ n, n ∈ names → has_prefix "x-grid-" n = true.

Lemma prefix_differs p k n : has_prefix p n = true → has_prefix p k = false → n ≠ k.
Proof. intros H1 H2 ->. congruence. Qed.
Lemma get_with_headers names headers k :
  grid_named names → has_prefix "x-grid-" (to_lower k) = false → has_prefix "x-grid-" k = false →
  get k (with_headers names headers) = get k headers.
Proof.
  intros Hn Hk Hk'. unfold with_headers.
  rewrite (get_put_all (λ n, n)) by (intros n Hin; by apply (prefix_differs "x-grid-"), Hk'; apply Hn).
  rewrite (get_filter (λ k, negb (unmanaged_now names k))). unfold unmanaged_now, managedSubscriptionHeaderName.
  by rewrite to_lower_idem, Hk.
Qed.
Lemma get_headers_of oidc x catalog k :
  catalog_named (default [] catalog) → has_prefix "x-aigateway-guardrail-" k = false →
  get k (headers_of oidc x catalog) = get k (success_headers oidc (is_key x) (is_not_key x)).
Proof.
  intros Hc Hk. unfold headers_of, add_guardrail_headers.
  apply get_put_all. intros h Hh. by apply (prefix_differs "x-aigateway-guardrail-"), Hk; apply Hc.
Qed.

Lemma at_path_norm v path : at_path (json_norm v) path = json_norm <$> at_path v path.
Proof.
  revert v. induction path as [|[k|i] path IH]; intros v; [done| |].
  - destruct v as [ | | | | | |m]; try done. cbn [json_norm at_path].
    change (map _ m) with (norm_map m) || idtac. fold (norm_map m). rewrite get_norm_map.
    destruct (get k m) as [w|]; cbn; [apply IH|done].
  - destruct v as [ | | | | |l|]; try done. cbn [json_norm at_path]. rewrite list_lookup_fmap.
    destruct (l !! i) as [w|]; cbn; [apply IH|done].
Qed.

Definition in_rules (path : list (string + nat)) : list (string + nat) := inl "defaults" :: inl "rules" :: path.
Definition key_predicate_path : list (string + nat) :=
  in_rules [inl "authorization"; inl "deny-api-key-management"; inl "when"; inr 0; inl "predicate"].
Definition identity_predicate_path : list (string + nat) :=
  in_rules [inl "response"; inl "success"; inl "headers"; inl "X-MaaS-Identity"; inl "when"; inr 0; inl "predicate"].
Definition issuer_path : list (string + nat) := in_rules [inl "authentication"; inl "oidc-identities"; inl "jwt"; inl "issuerUrl"].
Definition client_path : list (string + nat) :=
  in_rules [inl "authorization"; inl "oidc-client-bound"; inl "patternMatching"; inl "patterns"; inr 1; inl "value"].

Definition management_predicate (x : bool) : string :=
  "(" +:+ is_key x +:+ raw ") && (request.path == `/maas-api/v1/api-keys` || request.path.startsWith(`/maas-api/v1/api-keys/`))".
Definition identity_predicate (oidc : option oidcConfig) (x : bool) : string :=
  if verifiedIdentityContractConfigured oidc
  then "(" +:+ managementIdentityRoutePredicate +:+ ") && (" +:+ externalOIDCPredicate (is_not_key x) +:+ ")"
  else "false".

Section Desired.
Variables (oidc : option oidcConfig) (x : bool) (tenantID : string) (gateway : Key) (catalog : option (list guardrailHeader)).
Variables (names : list string) (spec : JMap).
Hypothesis spec_desired : desired_spec oidc x tenantID gateway catalog names = Ok spec.

Lemma spec_is_shape :
  spec = shape gateway.2 (metadata_of tenantID) (JObj (authenticationRules oidc x (is_not_key x)))
           (with_deny_patterns (identity_header_patterns ++ [x_grid_pattern names])%list (authorization_of oidc x catalog))
           (with_headers names (headers_of oidc x catalog)).
Proof. rewrite desired_shape in spec_desired. by injection spec_desired as <-. Qed.

Lemma spec_key_predicate : at_path (JObj spec) key_predicate_path = Some (JStr (management_predicate x)).
Proof.
  rewrite spec_is_shape. cbn -[with_deny_patterns with_headers]. unfold with_deny_patterns.
  rewrite get_put_ne, authorization_get by done. reflexivity.
Qed.
Lemma spec_identity_predicate :
  catalog_named (default [] catalog) → grid_named names →
  at_path (JObj spec) identity_predicate_path = Some (JStr (identity_predicate oidc x)).
Proof.
  intros Hc Hn. rewrite spec_is_shape. cbn -[with_deny_patterns with_headers].
  rewrite get_with_headers, get_headers_of by done. reflexivity.
Qed.
Lemma spec_issuer o : oidc = Some o → at_path (JObj spec) issuer_path = Some (JStr (IssuerURL o)).
Proof.
  intros Ho. rewrite spec_is_shape, Ho. cbn -[with_deny_patterns with_headers authenticationRules].
  unfold authenticationRules. rewrite get_put_eq. reflexivity.
Qed.
Lemma spec_client o : oidc = Some o → at_path (JObj spec) client_path = Some (JStr (ClientID o)).
Proof.
  intros Ho. rewrite spec_is_shape, Ho. cbn -[with_deny_patterns with_headers]. unfold with_deny_patterns.
  rewrite get_put_ne by done. unfold authorization_of, authorizationRules. rewrite get_put_eq. reflexivity.
Qed.
End Desired.

(** *** The specification is a Go map *)

Lemma wf_shape gateway metadata authentication authorization headers :
  wf metadata → wf authentication → wf (JObj authorization) → wf (JObj headers) →
  wf (JObj (shape gateway metadata authentication authorization headers)).
Proof.
  intros H1 H2 H3 H4.
  assert (Hs : wf success_filters ∧ wf unauthenticated_response ∧ wf unauthorized_response)
    by (split_and!; apply wfb_sound; reflexivity).
  destruct Hs as (Hf & Hu & Hv).
  assert (Hw : ∀ m, distinct_keys [] (map fst m) = true → Forall (λ kv, wf kv.2) m → wf (JObj m)).
  { intros m Hd Hm. constructor; [by apply distinct_keys_sound in Hd as [Hd _]|exact Hm]. }
  repeat first [ assumption | apply Hw; [reflexivity|] | apply Forall_cons; split; cbn [snd] | apply Forall_nil; exact I | constructor ].
Qed.
Lemma wf_patterns a b c d e : Forall wf (OIDCTokenBoundPatterns a b c d e).
Proof.
  unfold OIDCTokenBoundPatterns. destruct (String.eqb c ""), (String.eqb d ""), (String.eqb e "");
    repeat (apply Forall_cons; split); try (apply wfb_sound; reflexivity); by apply Forall_nil.
Qed.
Lemma wf_authorization oidc x catalog : wf (JObj (authorization_of oidc x catalog)).
Proof.
  unfold authorization_of, authorizationRules.
  assert (Hb : ∀ k, wf (JObj (base_authorization (is_key x) k))) by (intros k; apply wfb_sound; reflexivity).
  assert (Hg : ∀ l, wf (guardrail_rule l)) by (intros l; apply wfb_sound; reflexivity).
  assert (Ho : ∀ o, wf (oidc_client_rule o (is_not_key x))).
  { intros o. unfold oidc_client_rule. constructor; [by apply (distinct_keys_sound [])|].
    repeat (apply Forall_cons; split; cbn [snd]); try (apply wfb_sound; reflexivity); [|by apply Forall_nil].
    constructor; [by apply (distinct_keys_sound [])|]. apply Forall_cons; split; [|by apply Forall_nil].
    constructor. apply wf_patterns. }
  destruct oidc as [o|], catalog as [l|]; repeat apply wf_put; auto; apply wfb_sound; reflexivity.
Qed.
Lemma wf_authentication oidc x : wf (JObj (authenticationRules oidc x (is_not_key x))).
Proof. destruct oidc, x; apply wfb_sound; reflexivity. Qed.
Lemma wf_with_headers names m : wf (JObj m) → wf (JObj (with_headers names m)).
Proof.
  intros Hm. apply (wf_put_all (λ n, n)); [intros n; apply wfb_sound; reflexivity|]. by apply wf_filter.
Qed.
Lemma wf_headers oidc x catalog : wf (JObj (headers_of oidc x catalog)).
Proof.
  apply (wf_put_all gh_Name); [intros h; apply wfb_sound; reflexivity|]. apply wfb_sound. reflexivity.
Qed.
Lemma desired_wf oidc x tenantID gateway catalog names spec :
  desired_spec oidc x tenantID gateway catalog names = Ok spec → wf (JObj spec).
Proof.
  rewrite desired_shape. intros [= <-]. apply wf_shape.
  - apply wfb_sound. reflexivity.
  - apply wf_authentication.
  - apply wf_put; [apply wf_authorization|]. apply wfb_sound. reflexivity.
  - apply wf_with_headers, wf_headers.
Qed.

(** Texts at the same path of what a live specification covers. *)
Lemma covered_texts spec1 spec2 c path s1 s2 :
  within true (json_norm (JObj spec1)) c → within true (json_norm (JObj spec2)) c →
  at_path (JObj spec1) path = Some (JStr s1) → at_path (JObj spec2) path = Some (JStr s2) → s1 = s2.
Proof.
  intros H1 H2 E1 E2. assert (F1 := within_text _ _ _ path s1 H1). assert (F2 := within_text _ _ _ path s2 H2).
  rewrite at_path_norm, E1 in F1. rewrite at_path_norm, E2 in F2. cbn in F1, F2.
  specialize (F1 eq_refl). specialize (F2 eq_refl). congruence.
Qed.

Lemma management_predicate_inj x y : management_predicate x = management_predicate y → x = y.
Proof. destruct x, y; [done| | |done]; vm_compute; discriminate. Qed.

Definition rego_path : list (string + nat) :=
  in_rules [inl "authorization"; inl "guardrail-checks-known"; inl "opa"; inl "rego"].
Lemma spec_rego oidc x tenantID gateway l names spec :
  desired_spec oidc x tenantID gateway (Some l) names = Ok spec →
  at_path (JObj spec) rego_path = Some (JStr (selectedGuardrailChecksRego l)).
Proof.
  intros H. rewrite (spec_is_shape _ _ _ _ _ _ _ H). cbn -[with_deny_patterns with_headers]. unfold with_deny_patterns.
  rewrite get_put_ne by done. unfold authorization_of, authorizationRules.
  destruct oidc; rewrite ?get_put_ne by done; rewrite get_put_eq; reflexivity.
Qed.
(** A base policy is not left alone beside a guardrail rule. *)
Lemma stale_rule_seen c s :
  at_path (JObj c) rego_path = Some s → basePolicyHasStaleGuardrailFields (Some c) = true.
Proof.
  intros H. unfold basePolicyHasStaleGuardrailFields. rewrite nested_map_documented.
  change (default [] (Some c)) with c. cbn [at_path rego_path in_rules] in H. unfold GuardrailResolver.typed_field.
  cbn [GuardrailResolver.nested_field_e].
  destruct (get "defaults" c) as [[ | | | | | |d]|]; try done. cbn [mbind option_bind] in H.
  destruct (get "rules" d) as [[ | | | | | |r]|]; try done. cbn [mbind option_bind] in H.
  destruct (get "authorization" r) as [[ | | | | | |a]|]; try done. cbn [mbind option_bind] in H.
  destruct (get "guardrail-checks-known" a) as [w|] eqn:E; [|discriminate H].
  cbn [res_bind as_map]. rewrite bool_decide_eq_true_2 by (rewrite ?E; eauto). reflexivity.
Qed.
Lemma unnorm_text v path s :
  at_path (json_norm v) path = Some (JStr s) → at_path v path = Some (JStr s).
Proof.
  rewrite at_path_norm. destruct (at_path v path) as [[]|]; cbn; congruence.
Qed.

Definition oidc_accepted (oidc : option oidcConfig) : Prop := ∀ o, oidc = Some o → IssuerURL o ≠ "" ∧ ClientID o ≠ "".
Lemma identity_predicate_configured oidc x :
  oidc_accepted oidc → identity_predicate oidc x = "false" → oidc = None.
Proof.
  intros Ha. unfold identity_predicate, verifiedIdentityContractConfigured. destruct oidc as [o|]; [|done].
  destruct (Ha o eq_refl) as [->%String.eqb_neq ->%String.eqb_neq]. cbn. discriminate.
Qed.

(** C12: what a live AuthPolicy trusts is never stale.  When the controller
    leaves alone a live policy that still carries what an earlier
    reconciliation wrote for other inputs, whatever the API server added to it,
    then the two agree on whether the x-api-key header is accepted, on whether
    an external OIDC provider is trusted, on its issuer and its client, and a
    guardrail catalogue is neither left behind nor different, although the
    comparison ignores every field that is only in the live policy. *)
Theorem live_policy_never_stale o1 x1 t1 g1 h1 n1 spec1 o2 x2 t2 g2 h2 n2 spec2 current :
  desired_spec o1 x1 t1 g1 h1 n1 = Ok spec1 → desired_spec o2 x2 t2 g2 h2 n2 = Ok spec2 →
  oidc_accepted o1 → oidc_accepted o2 →
  catalog_named (default [] h1) → catalog_named (default [] h2) → grid_named n1 → grid_named n2 →
  wf (JObj current) → within true (json_norm (JObj spec1)) (json_norm (JObj current)) →
  policy_unchanged spec2 h2 n2 (Some current) = true →
  x1 = x2
  ∧ match o1, o2 with
    | None, None => True
    | Some a, Some b => IssuerURL a = IssuerURL b ∧ ClientID a = ClientID b
    | _, _ => False
    end
  ∧ match h1, h2 with
    | None, _ => True
    | Some l1, Some l2 => selectedGuardrailChecksRego l1 = selectedGuardrailChecksRego l2
    | Some _, None => False
    end.
Proof.
  intros D1 D2 A1 A2 C1 C2 N1 N2 Hw H1 Hu. unfold policy_unchanged in Hu.
  apply andb_true_iff in Hu as [[Hm Hg]%andb_true_iff _].
  apply matches_within in Hm; [|by eapply desired_wf|done].
  split; [|split].
  - apply management_predicate_inj.
    exact (covered_texts _ _ _ _ _ _ H1 Hm (spec_key_predicate _ _ _ _ _ _ _ D1) (spec_key_predicate _ _ _ _ _ _ _ D2)).
  - assert (Hi := covered_texts _ _ _ _ _ _ H1 Hm (spec_identity_predicate _ _ _ _ _ _ _ D1 C1 N1)
                    (spec_identity_predicate _ _ _ _ _ _ _ D2 C2 N2)).
    destruct o1 as [a|], o2 as [b|];
      [|discriminate (identity_predicate_configured _ x1 A1 Hi)|discriminate (identity_predicate_configured _ x2 A2 (eq_sym Hi))|exact I].
    split.
    + exact (covered_texts _ _ _ _ _ _ H1 Hm (spec_issuer _ _ _ _ _ _ _ D1 a eq_refl) (spec_issuer _ _ _ _ _ _ _ D2 b eq_refl)).
    + exact (covered_texts _ _ _ _ _ _ H1 Hm (spec_client _ _ _ _ _ _ _ D1 a eq_refl) (spec_client _ _ _ _ _ _ _ D2 b eq_refl)).
  - destruct h1 as [l1|]; [|done]. assert (E1 := spec_rego _ _ _ _ _ _ _ D1). destruct h2 as [l2|].
    + exact (covered_texts _ _ _ _ _ _ H1 Hm E1 (spec_rego _ _ _ _ _ _ _ D2)).
    + assert (F := within_text _ _ _ rego_path (selectedGuardrailChecksRego l1) H1).
      rewrite at_path_norm, E1 in F. specialize (F eq_refl). apply unnorm_text, stale_rule_seen in F.
      by rewrite F in Hg.
Qed.

(** ** Caching *)

Definition cache_ttl (rule : JVal) : option JVal := at_path rule [inl "cache"; inl "ttl"].
Definition ttl_path (group rule : string) : list (string + nat) := in_rules [inl group; inl rule; inl "cache"; inl "ttl"].

Lemma get_put_cases k v m w : get k (put k v m) = Some w → w = v.
Proof. rewrite get_put_eq. congruence. Qed.
(** A property of the values of a map survives an update. *)
Lemma put_values (P : JVal → Prop) k v m :
  P v → (∀ k' w, get k' m = Some w → P w) → ∀ k' w, get k' (put k v m) = Some w → P w.
Proof.
  intros Hv Hm k' w. destruct (decide (k = k')) as [<-|Hk]; [intros ->%get_put_cases; exact Hv|].
  rewrite get_put_ne by done. apply Hm.
Qed.
Lemma listed_values (P : JVal → Prop) m : Forall (λ kv, P kv.2) m → ∀ k w, get k m = Some w → P w.
Proof. rewrite Forall_forall. intros H k w E%get_in. exact (H _ E). Qed.

Definition authz_cached (rule : JVal) : Prop := cache_ttl rule = None ∨ cache_ttl rule = Some (JInt authzCacheTTL).
Lemma authorization_ttls oidc x catalog patterns k rule :
  get k (with_deny_patterns patterns (authorization_of oidc x catalog)) = Some rule → authz_cached rule.
Proof.
  revert k rule. apply put_values; [by left|].
  assert (Hb : ∀ key k w, get k (base_authorization (is_key x) key) = Some w → authz_cached w).
  { intros key. apply listed_values. repeat (apply Forall_cons; split; [first [by left | by right]|]). by apply Forall_nil. }
  unfold authorization_of, authorizationRules.
  destruct oidc as [o|], catalog as [l|]; repeat (apply put_values; [by left|]); apply Hb.
Qed.
Lemma metadata_ttls tenantID k rule m :
  metadata_of tenantID = JObj m → get k m = Some rule → cache_ttl rule = Some (JInt MetadataCacheTTL).
Proof.
  intros [= <-]. revert k rule. apply listed_values.
  repeat (apply Forall_cons; split; [done|]). by apply Forall_nil.
Qed.

(** C27: the cache times of authorization are bounded by those of metadata.
    With settings that pass the check at the start of the controller, every
    authorization rule of a Gateway's AuthPolicy that is cached has a cache time
    that is not negative and no longer than that of any metadata call of the
    same policy, whatever the tenant, its OIDC provider, its guardrails and its
    headers.  This bounds the times, not the moments: a decision made on
    metadata that was already cached can still be served after the metadata
    has expired, for one cache time more. *)
Theorem authorization_ttl_bounded oidc x tenantID gateway catalog names spec rule t source t' :
  ValidateCacheTTLs = Ok tt →
  desired_spec oidc x tenantID gateway catalog names = Ok spec →
  at_path (JObj spec) (ttl_path "authorization" rule) = Some (JInt t) →
  at_path (JObj spec) (ttl_path "metadata" source) = Some (JInt t') →
  (0 ≤ t ≤ t')%Z.
Proof.
  intros Hv Hd Ha Hm. rewrite (spec_is_shape _ _ _ _ _ _ _ Hd) in Ha, Hm.
  cbn -[with_deny_patterns with_headers authorization_of] in Ha.
  destruct (get rule _) as [r|] eqn:Er in Ha; [|discriminate Ha]. apply authorization_ttls in Er.
  assert (t = authzCacheTTL) as -> by (destruct Er as [E|E]; unfold cache_ttl in E; cbn in E; cbn in Ha; congruence).
  assert (Hm' : ∃ m r', metadata_of tenantID = JObj m ∧ get source m = Some r' ∧ cache_ttl r' = Some (JInt t')).
  { cbn -[metadata_of with_deny_patterns with_headers authorization_of] in Hm.
    destruct (metadata_of tenantID) as [ | | | | | |m] eqn:E; try discriminate Hm. exists m.
    destruct (get source m) as [r'|] eqn:E'; [|discriminate Hm]. exists r'. by split_and!. }
  destruct Hm' as (m & r' & E & E' & Hc). rewrite (metadata_ttls _ _ _ _ E E') in Hc. injection Hc as <-.
  unfold ValidateCacheTTLs in Hv. unfold authzCacheTTL.
  destruct (MetadataCacheTTL <? 0)%Z eqn:L1; [discriminate Hv|]. destruct (AuthzCacheTTL <? 0)%Z eqn:L2; [discriminate Hv|].
  destruct (AuthzCacheTTL <? MetadataCacheTTL)%Z eqn:L3; lia.
Qed.

End Facts.

(** ** A concrete Gateway *)

Module Demo.
#[local] Instance demo_settings : GatewaySettings := {|
  InfraNamespace := "opendatahub"; ClusterAudience := "https://kubernetes.default.svc";
  MetadataCacheTTL := 60; AuthzCacheTTL := 300 |}.
#[local] Instance demo_scope : TenantScope := {|
  DefaultTenantNamespace := "models-as-a-service"; TenantNamespaceDiscoveryEnabled := true;
  FallbackGatewayName := "maas-default-gateway"; FallbackGatewayNamespace := "openshift-ingress" |}.
#[local] Existing Instance documented_fields.
#[local] Existing Instance documented_fields_laws.
Definition demo_gateway : Key := ("openshift-ingress", "maas-default-gateway").
Definition keycloak : oidcConfig := {|
  IssuerURL := "https://keycloak.example.com/realms/maas"; ClientID := "maas"; Audience := "";
  AccessTokenPurposeClaim := ""; AccessTokenPurpose := ""; TTL := 300 |}.
Definition pii : guardrailHeader := {| gh_ID := "ns/pii/mask"; gh_Name := "x-aigateway-guardrail-1" |}.
Definition demo_spec (oidc : option oidcConfig) (catalog : option (list guardrailHeader)) : JMap :=
  match desired_spec oidc true "" demo_gateway catalog ["x-grid-region"] with Ok spec => spec | Err _ => [] end.
Definition live_demo : JMap := demo_spec (Some keycloak) (Some [pii]).

Lemma demo_desired oidc catalog :
  desired_spec oidc true "" demo_gateway catalog ["x-grid-region"] = Ok (demo_spec oidc catalog).
Proof. unfold demo_spec. by rewrite desired_shape. Qed.
Lemma demo_catalog_named : catalog_named (default [] (Some [pii])).
Proof. intros h [->|H]%elem_of_cons; [done|inversion H]. Qed.
Lemma demo_grid_named : grid_named ["x-grid-region"].
Proof. intros h [->|H]%elem_of_cons; [done|inversion H]. Qed.
Lemma demo_accepted : oidc_accepted (Some keycloak).
Proof. intros o [= <-]. done. Qed.
Lemma live_demo_wf : wf (JObj live_demo).
Proof. eapply desired_wf, demo_desired. Qed.
Lemma live_demo_within : within true (json_norm (JObj (demo_spec (Some keycloak) (Some [pii])))) (json_norm (JObj live_demo)).
Proof. apply matches_within; [apply live_demo_wf..|]. vm_compute. reflexivity. Qed.

Theorem live_policy_never_stale_witness :
  policy_unchanged live_demo (Some [pii]) ["x-grid-region"] (Some live_demo) = true
  ∧ IssuerURL keycloak = IssuerURL keycloak ∧ ClientID keycloak = ClientID keycloak.
Proof.
  assert (E : policy_unchanged live_demo (Some [pii]) ["x-grid-region"] (Some live_demo) = true) by (vm_compute; reflexivity).
  split; [exact E|].
  exact (proj1 (proj2 (live_policy_never_stale (Some keycloak) true "" demo_gateway (Some [pii]) ["x-grid-region"] live_demo
    (Some keycloak) true "" demo_gateway (Some [pii]) ["x-grid-region"] live_demo live_demo
    (demo_desired _ _) (demo_desired _ _) demo_accepted demo_accepted demo_catalog_named demo_catalog_named
    demo_grid_named demo_grid_named live_demo_wf live_demo_within E))).
Defined.
(** A provider or a catalogue that is gone is noticed. *)
Example gone_provider : policy_unchanged (demo_spec None (Some [pii])) (Some [pii]) ["x-grid-region"] (Some live_demo) = false.
Proof. vm_compute. reflexivity. Qed.
Example gone_catalog : policy_unchanged (demo_spec (Some keycloak) None) None ["x-grid-region"] (Some live_demo) = false.
Proof. vm_compute. reflexivity. Qed.

Theorem authorization_ttl_bounded_witness :
  at_path (JObj live_demo) (ttl_path "authorization" "auth-valid") = Some (JInt 60) ∧ (0 ≤ 60 ≤ 60)%Z.
Proof.
  assert (E1 : at_path (JObj live_demo) (ttl_path "authorization" "auth-valid") = Some (JInt 60)) by (vm_compute; reflexivity).
  assert (E2 : at_path (JObj live_demo) (ttl_path "metadata" "subscription-info") = Some (JInt 60)) by (vm_compute; reflexivity).
  split; [exact E1|].
  exact (authorization_ttl_bounded (Some keycloak) true "" demo_gateway (Some [pii]) ["x-grid-region"] live_demo
    "auth-valid" 60 "subscription-info" 60 eq_refl (demo_desired _ _) E1 E2).
Defined.
End Demo.
End GatewaySpecFacts.
