(* ===== verification/AuthPolicyReads.v ===== *)
(** * AuthPolicyReads: what the reads of a MaaSAuthPolicy's reconciliation show

    The parts of [AuthPolicyController] and [AuthPolicyReconcile] that only
    read, and what their answers say about the history of calls, whatever the
    API server replies. *)

From S2P Require Import Prelude GoStrings Unstructured RateTier Kube JsonMatch GatewaySpec SubscriptionHeaders AITenant TenantLookup GuardrailCatalog ModelRoutes SubscriptionPolicy ModelController ModelSafety AuthPolicyController AuthPolicyReconcile.
From Stdlib Require String.
Local Open Scope string_scope.

Module AuthPolicyReads.
Import Kube AITenant TenantLookup GatewaySpec GatewayHeaders GuardrailCatalog ModelRoutes SubscriptionPolicy ModelSafety AuthPolicyController AuthPolicyReconcile.

Section Reads.
Context `{GR : GoRuntime} `{TS : TenantScope} `{R : AuthPolicyReconciler} `{GS : GatewaySettings}.
Context `{HC : HeaderCodec} `{NF : NestedFields} `{SF : ScalarFields} `{GA : GuardrailAPI}.
Context `{SC : StatusConditions} `{CU : ControllerUtil}.
Context `{GL : !GuardrailAPILaws}.

(** ** Programs that only read *)

Lemma fold_ok_reads {A S} (f : S → A → Prog (Res GoErr S)) s l :
  (∀ s a, only_reads (f s a)) → only_reads (fold_ok f s l).
Proof.
  intros Hf. revert s. induction l as [|a l IH]; intros s; cbn [fold_ok]; [done|].
  apply only_reads_bind_ok; [apply Hf|]. intros s'. apply IH.
Qed.
Lemma for_each_ok_reads {E A} (f : A → Prog (Res E unit)) l :
  (∀ a, only_reads (f a)) → only_reads (for_each_ok f l).
Proof. intros Hf. induction l as [|a l IH]; cbn [for_each_ok]; [done|]. by apply only_reads_bind_ok. Qed.

Lemma tenant_reads ns : only_reads (fetchTenantForNamespace ns).
Proof. unfold fetchTenantForNamespace. solve_reads. Qed.
Lemma aitenant_context_reads m : only_reads (resolveAITenantPlatformContext m).
Proof. unfold resolveAITenantPlatformContext. solve_reads. Qed.
Lemma resolve_context_reads t ref : only_reads (ResolvePlatformContext t ref).
Proof. unfold ResolvePlatformContext. solve_reads; apply aitenant_context_reads. Qed.
Lemma namespace_reads (scope : TenantScope) ns : only_reads (tenantNamespaceAllowed (TS := scope) ns).
Proof. unfold tenantNamespaceAllowed. solve_reads. Qed.
Hint Resolve tenant_reads resolve_context_reads namespace_reads : only_reads.

Lemma context_reads ns : only_reads (fetchTenantPlatformContext ns).
Proof. unfold fetchTenantPlatformContext. solve_reads. Qed.
Hint Resolve context_reads : only_reads.
Lemma identifier_reads ns : only_reads (fetchTenantIdentifier ns).
Proof. unfold fetchTenantIdentifier. solve_reads. Qed.
Lemma oidc_reads ns : only_reads (fetchOIDCConfig ns).
Proof. unfold fetchOIDCConfig. solve_reads. Qed.
Lemma gateway_info_reads ns : only_reads (fetchGatewayInfo ns).
Proof. unfold fetchGatewayInfo. solve_reads. Qed.
Lemma x_api_key_reads : only_reads discoverXAPIKeyNeeded.
Proof. unfold discoverXAPIKeyNeeded. solve_reads. Qed.
Lemma readiness_reads gateway : only_reads (gatewayAuthPolicyReady gateway).
Proof. unfold gatewayAuthPolicyReady. solve_reads. Qed.
Lemma missing_reads p : only_reads (findMissingModelRefs p).
Proof. unfold findMissingModelRefs, missing_model. solve_reads. Qed.
Lemma any_legacy_reads checked models : only_reads (any_legacy checked models).
Proof.
  revert checked. induction models as [|m models IH]; intros checked; cbn [any_legacy]; [done|].
  destruct (bool_decide _); [apply IH|]. unfold modelAuthPolicyExists. solve_reads; apply IH.
Qed.

Lemma external_resolver_reads m : only_reads (external_route m).
Proof. unfold external_route. solve_reads. Qed.
Lemma llmisvc_route_reads m : only_reads (llmisvc_route m).
Proof. unfold llmisvc_route. solve_reads. Qed.
Lemma resolver_of_kind_reads kind resolver m : GetRouteResolver kind = Some resolver → only_reads (resolver m).
Proof.
  unfold GetRouteResolver. destruct (String.eqb kind "LLMInferenceService" || String.eqb kind "llmisvc").
  - intros [= <-]. apply llmisvc_route_reads.
  - destruct (String.eqb kind "ExternalModel"); [|done]. intros [= <-]. apply external_resolver_reads.
Qed.
Lemma model_route_reads model : only_reads (findHTTPRouteForModel model).
Proof.
  apply only_reads_bind; [done|]. intros [m|e]; [|done]. case_match; [done|].
  destruct (GetRouteResolver (ModelKind (body m))) as [resolver|] eqn:E; [|done].
  apply only_reads_bind_ok; [by eapply resolver_of_kind_reads|]. unfold getHTTPRoute. solve_reads.
Qed.
Hint Resolve model_route_reads : only_reads.

(** *** The catalogue *)

Lemma policy_reads ns name : only_reads (GuardrailCatalog.GetPolicy ns name).
Proof. unfold GuardrailCatalog.GetPolicy. solve_reads. Qed.
Lemma resolve_all_reads known wanted : only_reads (resolve_all known wanted).
Proof.
  revert known. induction wanted as [|[ns a] wanted IH]; intros known; cbn [resolve_all]; [done|].
  destruct (bool_decide _); [apply IH|]. apply only_reads_bind.
  - apply resolver_reads. apply policy_reads.
  - intros [r|e]; [apply IH|done].
Qed.
Lemma add_model_reads ns t c s headers entry : only_reads (add_model ns t c s headers entry).
Proof. unfold add_model. solve_reads; apply resolve_all_reads. Qed.
Lemma owner_reads c : only_reads (owningAITenant c).
Proof. unfold owningAITenant. solve_reads. Qed.
Lemma catalog_reads ns : only_reads (guardrailHeaders ns).
Proof.
  unfold guardrailHeaders, isAITenantManagedNamespace. solve_reads; try apply owner_reads.
  apply fold_ok_reads. intros headers s. apply fold_ok_reads. intros hs entry. apply add_model_reads.
Qed.
Lemma collect_reads has names l : only_reads (collect_names has names l).
Proof.
  revert names. induction l as [|s l IH]; intros names; cbn [collect_names]; [done|].
  destruct (parseSubscriptionHeaders _); [apply IH|]. unfold warnInvalidSubscriptionHeaders. solve_reads; apply IH.
Qed.
Lemma header_names_reads has ns : only_reads (subscriptionHeaderNames has ns).
Proof. unfold subscriptionHeaderNames. solve_reads; apply collect_reads. Qed.

(** *** Conflicts and status *)

Lemma conflicts_reads l model : only_reads (conflicts_of_model l model).
Proof. unfold conflicts_of_model, findConflictsForHTTPRoute. solve_reads. Qed.
Lemma report_reads p : only_reads (report_conflicts p).
Proof.
  unfold report_conflicts, detectConflictingAuthPolicies, conflict_events. solve_reads.
  apply fold_ok_reads. apply conflicts_reads.
Qed.
Lemma ref_status_reads p refs : only_reads (updateAuthPolicyRefStatus p refs).
Proof. unfold updateAuthPolicyRefStatus, ref_status. solve_reads. Qed.

(** ** Evidence *)

(** The models of live policies, as [h] shows them, have no legacy policy. *)
Definition no_legacy (h : History) (ns : string) : Prop :=
  ∃ l, answered h (ListBy true KMaaSAuthPolicy (InNamespace ns)) (Ok l)
    ∧ ∀ q m, q ∈ l → live q = true → m ∈ ap_ModelRefs (body q) →
      ∃ m' e, shown m' = shown m ∧ answered h (Get true KAuthPolicy (model_policy_key m')) (Err e) ∧ isNotFound e = true.
(** The answers in [h] make [p] return [a]. *)
Fixpoint ran {A} (h : History) (p : Prog A) (a : A) : Prop :=
  match p with
  | Ret b => b = a
  | Vis c k => ∃ x, answered h c x ∧ ran h (k x) a
  end.
(** The name and the Gateway of the namespace's tenant, as [h] shows them. *)
Definition tenant_is (h : History) (ns tenantID : string) : Prop := ran h (fetchTenantIdentifier ns) (Ok tenantID).
Definition gateway_is (h : History) (ns : string) (gateway : Key) : Prop := ran h (fetchGatewayInfo ns) (Ok gateway).
(** Some endpoint of that tenant's maas-api is ready on its TLS port. *)
Definition target_ready (h : History) (ns : string) : Prop :=
  ∃ tenantID slices s, tenant_is h ns tenantID
    ∧ answered h (ListAll KEndpointSlice InfraNamespace (target_labels tenantID)) (Ok slices)
    ∧ s ∈ slices ∧ slice_ready s = true.
(** The policy of that tenant's Gateway was seen enforced, at its current
    generation. *)
Definition gateway_enforced (h : History) (ns : string) : Prop :=
  ∃ gateway p message, gateway_is h ns gateway
    ∧ answered h (Get true KAuthPolicy (gateway_policy_key gateway)) (Ok p)
    ∧ policy_readiness (gateway_policy_key gateway) p = Ok (true, message).
(** The tenant has a name of its own and the default Gateway. *)
Definition named_on_default (h : History) (ns : string) : Prop :=
  ∃ tenantID gateway, tenant_is h ns tenantID ∧ tenantID ≠ "" ∧ gateway_is h ns gateway ∧ is_default_gateway gateway = true.
Definition models_found (h : History) (p : MaaSAuthPolicy) : Prop :=
  ∀ m, m ∈ ap_ModelRefs (body p) → ∃ o, answered h (Get true KModelRef m) (Ok o).

Lemma no_legacy_mono h h' ns : extends h h' → no_legacy h ns → no_legacy h' ns.
Proof.
  intros He (l & Ha & H). exists l. split; [by eapply answered_mono|]. intros q m Hq Hl Hm.
  destruct (H q m Hq Hl Hm) as (m' & e & E & Hg & Hn). exists m', e. split_and!; [done| |done]. by eapply answered_mono.
Qed.
Lemma ran_mono {A} h h' (p : Prog A) a : extends h h' → ran h p a → ran h' p a.
Proof.
  intros He. induction p as [b|X c k IH]; [done|]. intros (x & Hx & Hk). exists x.
  split; [by eapply answered_mono|by apply IH].
Qed.
Lemma tenant_is_mono h h' ns id : extends h h' → tenant_is h ns id → tenant_is h' ns id.
Proof. apply ran_mono. Qed.
Lemma gateway_is_mono h h' ns gateway : extends h h' → gateway_is h ns gateway → gateway_is h' ns gateway.
Proof. apply ran_mono. Qed.
Lemma target_ready_mono h h' ns : extends h h' → target_ready h ns → target_ready h' ns.
Proof.
  intros He (t & l & s & Ht & Ha & H). exists t, l, s.
  split; [by eapply tenant_is_mono|]. split; [by eapply answered_mono|exact H].
Qed.
Lemma gateway_enforced_mono h h' ns : extends h h' → gateway_enforced h ns → gateway_enforced h' ns.
Proof.
  intros He (g & p & m & Hg & Ha & H). exists g, p, m.
  split; [by eapply gateway_is_mono|]. split; [by eapply answered_mono|exact H].
Qed.
Lemma models_found_mono h h' p : extends h h' → models_found h p → models_found h' p.
Proof. intros He H m Hm. destruct (H m Hm) as [o Ho]. exists o. by eapply answered_mono. Qed.

(** ** What the reads show *)

Section Lookups.
Variable allowed : ∀ X, Call X → History → Prop.
Hypothesis reads_allowed : ∀ X (c : Call X) h, is_read c = true → allowed X c h.
Notation safely := (safe allowed record).

Lemma reads_then {A B} (p : Prog A) (f : A → Prog B) h h0 Q :
  extends h0 h → only_reads p → (∀ a h', extends h0 h' → extends h h' → safely (f a) h' Q) → safely (p ≫= f) h Q.
Proof.
  intros He Hp Hf. eapply safe_step with (P := λ _ _, True); [exact He| |by intros; apply Hf].
  eapply safe_mono; [by apply reads_extend|by split].
Qed.

Lemma reads_ran {A} (p : Prog A) h : only_reads p → safely p h (λ a h', extends h h' ∧ ran h' p a).
Proof.
  revert h. induction p as [b|X c k IH]; intros h Hp; [by split|]. destruct Hp as [Hc Hk].
  split; [by apply reads_allowed|]. intros x. eapply safe_mono; [by apply IH|]. intros a h' [He Hr].
  split; [etransitivity; [apply extends_record|exact He]|]. exists x. split; [|exact Hr].
  eapply answered_mono; [exact He|apply answered_record].
Qed.
Lemma identifier_spec ns h :
  safely (fetchTenantIdentifier ns) h (λ r h', extends h h' ∧ ∀ name, r = Ok name → tenant_is h' ns name).
Proof. eapply safe_mono; [apply reads_ran, identifier_reads|]. intros r h' [He Hr]. split; [exact He|]. by intros name ->. Qed.
Lemma gateway_spec ns h :
  safely (fetchGatewayInfo ns) h (λ r h', extends h h' ∧ ∀ gateway, r = Ok gateway → gateway_is h' ns gateway).
Proof. eapply safe_mono; [apply reads_ran, gateway_info_reads|]. intros r h' [He Hr]. split; [exact He|]. by intros name ->. Qed.

Lemma any_legacy_spec models (checked : gset string) h :
  (∀ k, k ∈ checked → ∃ m' e, shown m' = k ∧ answered h (Get true KAuthPolicy (model_policy_key m')) (Err e) ∧ isNotFound e = true) →
  safely (any_legacy checked models) h (λ r h', extends h h' ∧ (r = Ok false → ∀ m, m ∈ models →
    ∃ m' e, shown m' = shown m ∧ answered h' (Get true KAuthPolicy (model_policy_key m')) (Err e) ∧ isNotFound e = true)).
Proof.
  revert checked h. induction models as [|m models IH]; intros checked h Hc; cbn [any_legacy].
  { split; [reflexivity|]. intros _ m Hm. inversion Hm. }
  case_bool_decide as Hm.
  - eapply safe_mono; [by apply IH|]. intros r h' [He Hr]. split; [exact He|]. intros Er x [->|Hx]%elem_of_cons; [|by apply Hr].
    destruct (Hc _ Hm) as (m' & e & E & Ha & Hn). exists m', e. split_and!; [exact E| |exact Hn]. by eapply answered_mono.
  - unfold modelAuthPolicyExists. apply safe_bind, (safe_read _ reads_allowed); [done|]. intros [p|e] He; [by split|].
    destruct (isNotFound e) eqn:En; cbn [Kube.safe]; [|by split].
    eapply safe_mono; [apply IH|].
    + intros k [->%elem_of_singleton|Hk]%elem_of_union.
      * exists m, e. split_and!; [done|apply answered_record|exact En].
      * destruct (Hc _ Hk) as (m' & e' & E & Ha & Hn). exists m', e'. split_and!; [exact E| |exact Hn].
        eapply answered_mono; [exact He|exact Ha].
    + intros r h' [He' Hr]. split; [by etransitivity|]. intros Er x [->|Hx]%elem_of_cons; [|by apply Hr].
      exists m, e. split_and!; [done| |exact En]. eapply answered_mono; [exact He'|apply answered_record].
Qed.
Lemma legacy_spec ns h :
  safely (hasLegacyModelAuthPolicy ns) h (λ r h', extends h h' ∧ (r = Ok false → no_legacy h' ns)).
Proof.
  unfold hasLegacyModelAuthPolicy. apply safe_bind_ok, safe_try. apply safe_call; [by apply reads_allowed|].
  intros [l|e]; cbn [map_err]; [|split; [apply extends_record|done]].
  eapply safe_mono; [apply any_legacy_spec; intros k Hk; by apply elem_of_empty in Hk|]. intros r h' [He Hr].
  split; [etransitivity; [apply extends_record|exact He]|]. intros Er. exists l.
  split; [eapply answered_mono; [exact He|apply answered_record]|]. intros q m Hq Hl Hm. apply (Hr Er).
  apply list_elem_of_In, in_concat. exists (ap_ModelRefs (body q)).
  split; [|by apply list_elem_of_In]. apply in_map_iff. exists q. split; [done|]. apply filter_In. split; [by apply list_elem_of_In|done].
Qed.

Lemma target_spec ns tenantID h : tenant_is h ns tenantID →
  safely (targetMaaSAPIReady tenantID) h (λ r h', extends h h' ∧ (r = Ok true → target_ready h' ns)).
Proof.
  intros Ht. unfold targetMaaSAPIReady. apply safe_bind_ok, safe_try. apply safe_call; [by apply reads_allowed|].
  intros [l|e]; cbn [map_err Kube.safe]; (split; [apply extends_record|]); [|done].
  intros [= (s & Hs & Hr)%existsb_elem]. exists tenantID, l, s.
  split_and!; [eapply tenant_is_mono; [apply extends_record|exact Ht]|apply answered_record|done..].
Qed.

Lemma readiness_spec ns gateway h : gateway_is h ns gateway →
  safely (gatewayAuthPolicyReady gateway) h (λ r h', extends h h' ∧ ∀ message, r = Ok (true, message) → gateway_enforced h' ns).
Proof.
  intros Hg. unfold gatewayAuthPolicyReady. apply (safe_read _ reads_allowed); [done|]. intros [p|e] He; (split; [exact He|]).
  - intros message Hr. exists gateway, p, message. split_and!; [by eapply gateway_is_mono|apply answered_record|exact Hr].
  - intros message. by destruct (isNotFound e).
Qed.

Lemma missing_spec p h :
  safely (findMissingModelRefs p) h (λ r h', extends h h' ∧ (r = [] → models_found h' p)).
Proof.
  unfold findMissingModelRefs. apply safe_bind.
  assert (H : ∀ l h, safely (for_each (λ m, missing ← missing_model m; Ret (m, missing)) l) h
    (λ found h', extends h h' ∧ (map fst (List.filter snd found) = [] → ∀ m, m ∈ l → ∃ o, answered h' (Get true KModelRef m) (Ok o)))).
  { clear h. induction l as [|m l IH]; intros h; cbn [for_each].
    - split; [reflexivity|]. intros _ m Hm. inversion Hm.
    - apply safe_bind, safe_bind. unfold missing_model. apply safe_bind, safe_call; [by apply reads_allowed|].
      intros x. cbn [Kube.safe]. apply safe_bind. eapply safe_mono; [apply IH|]. intros found h' [He Hf]. cbn [Kube.safe].
      split; [etransitivity; [apply extends_record|exact He]|]. destruct x as [o|e]; cbn [List.filter snd map]; [|done].
      intros E x [->|Hx]%elem_of_cons; [|by apply Hf]. exists o. eapply answered_mono; [exact He|apply answered_record]. }
  eapply safe_mono; [apply H|]. intros found h' [He Hf]. by split.
Qed.

End Lookups.
End Reads.
#[export] Hint Resolve tenant_reads resolve_context_reads namespace_reads context_reads identifier_reads oidc_reads
  gateway_info_reads x_api_key_reads readiness_reads missing_reads model_route_reads catalog_reads header_names_reads
  report_reads ref_status_reads : only_reads.
End AuthPolicyReads.
