(* ===== verification/AuthPolicySafety.v ===== *)
(** * AuthPolicySafety: what the access-policy controller may do

    [AuthPolicyController] and [AuthPolicyReconcile] against every API server.
    A monitor keeps the history of a reconciliation; what is written, deleted
    and reported is justified by what the history shows. *)

From S2P Require Import Prelude GoStrings Unstructured RateTier Kube JsonMatch GatewaySpec SubscriptionHeaders AITenant TenantLookup GuardrailCatalog ModelRoutes SubscriptionPolicy ModelController ModelSafety AuthPolicyController AuthPolicyReconcile AuthPolicyReads.
From Stdlib Require String.
Local Open Scope string_scope.

Module AuthPolicySafety.
Import Kube AITenant TenantLookup GatewaySpec GatewayHeaders GuardrailCatalog ModelRoutes SubscriptionPolicy ModelSafety AuthPolicyController AuthPolicyReconcile AuthPolicyReads.

Section Safety.
Context `{GR : GoRuntime} `{TS : TenantScope} `{R : AuthPolicyReconciler} `{GS : GatewaySettings}.
Context `{HC : HeaderCodec} `{NF : NestedFields} `{SF : ScalarFields} `{GA : GuardrailAPI}.
Context `{SC : StatusConditions} `{CU : ControllerUtil}.
Context `{GL : !GuardrailAPILaws}.

(** ** Writes of Gateway policies *)

Section Gateway.
Variable ns : string.

(** A specification the controller makes for the Gateway of the tenant of
    [ns]. *)
Definition generated (h : History) (gateway : Key) (spec : option JMap) : Prop :=
  ∃ oidc x tenantID catalog names s, spec = Some s ∧ tenant_is h ns tenantID
    ∧ desired_spec oidc x tenantID gateway catalog names = Ok s.
Definition creates (h : History) (o : AuthPolicy) : Prop :=
  ∃ gateway, gateway_is h ns gateway ∧ key_of o = gateway_policy_key gateway
    ∧ generated h gateway (au_Spec (body o)) ∧ Labels (meta o) = gateway_policy_labels.
(** Of the policy that was read only the specification and the owners change. *)
Definition updates (h : History) (o : AuthPolicy) : Prop :=
  ∃ gateway existing, gateway_is h ns gateway ∧ answered h (Get true KAuthPolicy (gateway_policy_key gateway)) (Ok existing)
    ∧ isManaged (meta existing) = true ∧ generated h gateway (au_Spec (body o)) ∧ au_Status (body o) = au_Status (body existing)
    ∧ meta o = set_owners (OwnerReferences (meta o)) (meta existing).
(** The Gateway a policy was for is gone. *)
Definition orphaned (h : History) (p : AuthPolicy) : Prop :=
  ∃ gateway e, gateway_is h ns gateway ∧ answered h (Get true KAuthPolicy (gateway_policy_key gateway)) (Ok p)
    ∧ answered h (Get true KGateway gateway) (Err e) ∧ isNotFound e = true
    ∧ (is_default_gateway gateway = false ∨ hasGatewayOwnerReference p = true).
End Gateway.
Definition listed_for (h : History) (model : Key) (p : AuthPolicy) : Prop :=
  ∃ l, answered h (ListAll KAuthPolicy model.1 (model_policy_labels model.2)) (Ok l) ∧ p ∈ l.

(** ** What a reconciliation may do *)

Section Monitor.
(** The namespace of the tenant, when the policies of models may go, what may be
    reported, and what a MaaSAuthPolicy may be updated to. *)
Variable ns : string.
Variable settled : History → Prop.
Hypothesis settled_mono : ∀ h h', extends h h' → settled h → settled h'.
Variable reports finishes : History → MaaSAuthPolicy → Prop.

Definition may_delete (h : History) (p : AuthPolicy) : Prop :=
  isManaged (meta p) = true ∧ (orphaned ns h p ∨ (∃ model, listed_for h model p) ∧ settled h).
Definition create_allowed (k : Kind) : History → Obj k → Prop :=
  match k return History → Obj k → Prop with KAuthPolicy => creates ns | _ => λ _ _, False end.
Definition update_allowed (k : Kind) : History → Obj k → Prop :=
  match k return History → Obj k → Prop with
  | KAuthPolicy => updates ns | KMaaSAuthPolicy => finishes | _ => λ _ _, False
  end.
Definition delete_allowed (k : Kind) : History → Obj k → Prop :=
  match k return History → Obj k → Prop with KAuthPolicy => may_delete | _ => λ _ _, False end.
Definition status_allowed (k : Kind) : History → Obj k → Prop :=
  match k return History → Obj k → Prop with KMaaSAuthPolicy => reports | _ => λ _ _, False end.
Definition allowed (X : Type) (c : Call X) (h : History) : Prop :=
  match c with
  | Create k o => create_allowed k h o
  | Update k o => update_allowed k h o
  | UpdateStatus k o => status_allowed k h o
  | Patch _ _ _ _ => False
  | Delete k o _ => delete_allowed k h o
  | _ => True
  end.
Lemma reads_pass X (c : Call X) h : is_read c = true → allowed X c h.
Proof. by destruct c. Qed.
Notation safely := (safe allowed record).

(** ** The Gateway's policy *)

Definition grows {A} (p : Prog A) (h : History) : Prop := safely p h (λ _, extends h).
Lemma grows_reads {A} (p : Prog A) h : only_reads p → grows p h.
Proof. apply reads_extend. apply reads_pass. Qed.
Lemma grows_step {A B} (p : Prog A) (f : A → Prog B) h :
  grows p h → (∀ a h', extends h h' → grows (f a) h') → grows (p ≫= f) h.
Proof.
  intros Hp Hf. eapply safe_step with (P := λ _ _, True); [reflexivity| |].
  - eapply safe_mono; [exact Hp|]. intros a h' He. split; [exact He|exact I].
  - intros a h' _ He _. eapply safe_mono; [by apply Hf|]. intros b h'' He'. by etransitivity.
Qed.
Lemma grows_step_ok {E A B} (p : Prog (Res E A)) (f : A → Prog (Res E B)) h :
  grows p h → (∀ a h', extends h h' → grows (f a) h') → grows (bind_ok p f) h.
Proof. intros Hp Hf. apply grows_step; [exact Hp|]. intros [a|e] h' He; [by apply Hf|]. change (extends h' h'). reflexivity. Qed.
Lemma grows_ret {A} (a : A) h : grows (Ret a) h.
Proof. change (extends h h). reflexivity. Qed.
Lemma grows_call {X} (c : Call X) h : allowed X c h → grows (call c) h.
Proof. intros Hc. split; [exact Hc|]. intros x. apply extends_record. Qed.

Lemma generated_mono h h' gateway spec : extends h h' → generated ns h gateway spec → generated ns h' gateway spec.
Proof.
  intros He (o & x & t & c & n & s & Hs & Ht & Hd). exists o, x, t, c, n, s. split_and!; [exact Hs|by eapply tenant_is_mono|exact Hd].
Qed.

Section Target.
Variables (gateway : Key) (spec : JMap) (catalog : option (list guardrailHeader)) (names : list string).
(** [h] shows the Gateway of the tenant, and the specification is its. *)
Definition targeted (h : History) : Prop := gateway_is h ns gateway ∧ generated ns h gateway (Some spec).
Lemma targeted_mono h h' : extends h h' → targeted h → targeted h'.
Proof. intros He [Hg Hs]. split; [by eapply gateway_is_mono|by eapply generated_mono]. Qed.

Lemma write_grows existing g h :
  targeted h →
  match existing with
  | None => True
  | Some p => answered h (Get true KAuthPolicy (gateway_policy_key gateway)) (Ok p)
  end →
  grows (write_policy gateway spec catalog names existing g) h.
Proof.
  intros [Hg Hs] He. destruct existing as [p|]; unfold write_policy.
  - destruct (isManaged (meta p)) eqn:Em; cbn [negb]; [|apply grows_ret].
    destruct (policy_unchanged _ _ _ _); [apply grows_ret|]. apply grows_step; [|intros; apply grows_ret].
    apply grows_call. exists gateway, p. split_and!; [exact Hg|exact He|exact Em| | |]; destruct g; try exact Hs; try reflexivity.
    by destruct p as [[] ?].
  - apply grows_step; [|intros; apply grows_ret]. apply grows_call. exists gateway.
    split_and!; [exact Hg| | |]; destruct g; first [exact Hs|done].
Qed.
End Target.

Lemma gateway_grows oidc x tenantNamespace tenantID gateway catalog h :
  gateway_is h ns gateway → tenant_is h ns tenantID →
  grows (reconcileGatewayAuthPolicyWithHeaders oidc x tenantNamespace tenantID gateway catalog) h.
Proof.
  intros Hgw Htn. unfold reconcileGatewayAuthPolicyWithHeaders. apply grows_step_ok; [apply grows_reads, header_names_reads|].
  intros names h1 He0. destruct (desired_spec _ _ _ _ _ _) as [spec|e] eqn:Ed; [|apply grows_ret].
  assert (Ht : ∀ h', extends h1 h' → targeted gateway spec h').
  { intros h' He. apply (targeted_mono _ _ h); [by etransitivity|]. split; [exact Hgw|]. by eexists _, _, _, _, _, _. }
  cbv zeta. clear Ed He0.
  eapply safe_mono with (Q := λ _, extends h1); [|done].
  apply (safe_read _ reads_pass); [done|]. intros [p|e] He1.
  - apply (safe_read _ reads_pass); [done|].
    assert (Hp : ∀ x h', extends (record _ (Get true KGateway gateway) x (record _ (Get true KAuthPolicy (gateway_policy_key gateway)) (Ok p) h1)) h' →
      answered h' (Get true KAuthPolicy (gateway_policy_key gateway)) (Ok p)).
    { intros y h' Hh. eapply answered_mono; [exact Hh|]. right. left. reflexivity. }
    intros [g|e] He2; (eapply safe_mono; [|intros b h' Hh; etransitivity; [exact He1|etransitivity; [exact He2|exact Hh]]]).
    + apply write_grows; [apply Ht; by etransitivity|]. by eapply Hp.
    + destruct (isNotFound e) eqn:En; cbn [negb]; [|apply grows_ret].
      destruct (isManaged (meta p) && _) eqn:Em.
      * apply andb_true_iff in Em as [Em Ho]. apply grows_step.
        -- apply grows_call. split; [exact Em|]. left. exists gateway, e.
           split_and!; [apply Ht; by etransitivity|by eapply Hp|apply answered_record|exact En|].
           apply orb_true_iff in Ho as [Ho%negb_true_iff|Ho]; auto.
        -- intros [[]|e'] h' Hh; [|apply grows_ret]. destruct (negb _); [apply grows_ret|].
           apply write_grows; [|done]. apply Ht. do 2 (etransitivity; [eassumption|]). exact Hh.
      * destruct (negb _); [apply grows_ret|]. apply write_grows; [apply Ht; by etransitivity|]. by eapply Hp.
  - destruct (isNotFound e); cbn [negb]; [|exact He1]. apply (safe_read _ reads_pass); [done|].
    intros [g|e'] He2; (eapply safe_mono; [|intros b h' Hh; etransitivity; [exact He1|etransitivity; [exact He2|exact Hh]]]).
    + apply write_grows; [apply Ht; by etransitivity|done].
    + destruct (isNotFound e'); cbn [negb]; [|apply grows_ret]. destruct (negb _); [apply grows_ret|].
      apply write_grows; [apply Ht; by etransitivity|done].
Qed.

(** ** The models' policies *)

Lemma grows_all {E A} (f : A → Prog (Res E unit)) l h (P : History → Prop) (Q : A → History → Prop) :
  (∀ h h', extends h h' → P h → P h') → (∀ a h h', extends h h' → Q a h → Q a h') →
  (∀ a h, a ∈ l → P h → safely (f a) h (λ r h', extends h h' ∧ (r = Ok tt → Q a h'))) → P h →
  safely (for_each_ok f l) h (λ r h', extends h h' ∧ (r = Ok tt → ∀ a, a ∈ l → Q a h')).
Proof.
  intros HP HQ. revert h. induction l as [|a l IH]; intros h Hf H; cbn [for_each_ok].
  { split; [reflexivity|]. intros _ x Hx. inversion Hx. }
  apply safe_bind_ok. eapply safe_mono; [apply Hf; [left|exact H]|]. intros [[]|e] h' [He Ha]; [|by split].
  eapply safe_mono; [apply IH; [|exact (HP _ _ He H)]|].
  - intros x h1 Hx. apply Hf. by right.
  - intros r h1 [He1 Hr]. split; [by etransitivity|]. intros Er x [->|Hx]%elem_of_cons; [|by apply Hr].
    exact (HQ _ _ _ He1 (Ha eq_refl)).
Qed.
Lemma grows_safe {A} (p : Prog A) h (Q : A → History → Prop) : safely p h (λ a h', extends h h' ∧ Q a h') → grows p h.
Proof. intros H. eapply safe_mono; [exact H|]. intros a h' [He _]. exact He. Qed.

(** The policy is gone, or is not the controller's to delete. *)
Definition spared (model : Key) (p : AuthPolicy) : bool :=
  negb (String.eqb (model_namespace_label (meta p)) "") && negb (String.eqb (model_namespace_label (meta p)) model.1)
  || negb (isManaged (meta p)).
Definition gone (h : History) (p : AuthPolicy) : Prop :=
  ∃ r, answered h (Delete KAuthPolicy p false) r ∧ match r with Ok _ => True | Err e => isNotFound e = true end.
(** No policy of the model is left, as far as [h] shows. *)
Definition swept (h : History) (model : Key) : Prop :=
  ∃ r, answered h (ListAll KAuthPolicy model.1 (model_policy_labels model.2)) r
    ∧ match r with
      | Ok l => ∀ p, p ∈ l → spared model p = true ∨ gone h p
      | Err e => isNotFound e || isNoMatch e = true
      end.
Lemma gone_mono h h' p : extends h h' → gone h p → gone h' p.
Proof. intros He (r & Ha & H). exists r. split; [by eapply answered_mono|exact H]. Qed.
Lemma swept_mono h h' model : extends h h' → swept h model → swept h' model.
Proof.
  intros He (r & Ha & H). exists r. split; [by eapply answered_mono|]. destruct r as [l|e]; [|exact H].
  intros p Hp. destruct (H p Hp) as [Hs|Hg]; [by left|right; by eapply gone_mono].
Qed.

Lemma delete_one_spec model p h : listed_for h model p → settled h →
  safely (delete_one model.1 p) h (λ r h', extends h h' ∧ (r = Ok tt → spared model p = true ∨ gone h' p)).
Proof.
  intros Hl Hs. unfold delete_one, spared. cbv zeta. destruct (_ && _) eqn:El; [split; [reflexivity|by left]|].
  destruct (isManaged (meta p)) eqn:Em; cbn [negb]; [|split; [reflexivity|by left]].
  split; [split; [exact Em|right; split; [by exists model|exact Hs]]|]. intros r. split; [apply extends_record|].
  intros Hr. right. exists r. split; [apply answered_record|]. destruct r as [?|e]; [done|].
  cbn in Hr. by destruct (isNotFound e).
Qed.
Lemma delete_model_spec model h : settled h →
  safely (deleteModelAuthPolicy model) h (λ r h', extends h h' ∧ (r = Ok tt → swept h' model)).
Proof.
  intros Hs. unfold deleteModelAuthPolicy. apply (safe_read _ reads_pass); [done|]. intros r He.
  destruct r as [l|e]; cbn [tolerate_absent].
  - set (h1 := record _ _ _ _) in *. eapply safe_mono; [apply (grows_all _ l h1
      (λ h', settled h' ∧ answered h' (ListAll KAuthPolicy model.1 (model_policy_labels model.2)) (Ok l))
      (λ p h', spared model p = true ∨ gone h' p))|].
    + intros h2 h3 Hh [Hs1 Ha]. split; [by eapply settled_mono|by eapply answered_mono].
    + intros p h2 h3 Hh [Hp|Hp]; [by left|right; by eapply gone_mono].
    + intros p h2 Hp [Hs1 Ha]. apply delete_one_spec; [by exists l|exact Hs1].
    + split; [by eapply settled_mono|apply answered_record].
    + intros r h' [Hh Hr]. split; [by etransitivity|]. intros Er. exists (Ok l).
      split; [eapply answered_mono; [exact Hh|apply answered_record]|by apply Hr].
  - destruct (isNotFound e || isNoMatch e) eqn:Ee; (split; [exact He|]); [|done]. intros _.
    exists (Err e). split; [apply answered_record|exact Ee].
Qed.
Lemma delete_model_grows model h : settled h → grows (deleteModelAuthPolicy model) h.
Proof. intros Hs. eapply grows_safe. by apply delete_model_spec. Qed.
Lemma stale_grows policy p h : settled h → grows (stale_policy policy p) h.
Proof.
  intros Hs. unfold stale_policy. destruct (policy_model _) as [model|]; [|apply grows_ret].
  destruct (bool_decide _); [apply grows_ret|]. destruct (negb _); [apply grows_ret|].
  apply grows_step; [by apply delete_model_grows|intros; apply grows_ret].
Qed.
Lemma all_grow {E A} (f : A → Prog (Res E unit)) l h :
  (∀ a h, settled h → grows (f a) h) → settled h → grows (for_each_ok f l) h.
Proof.
  intros Hf Hs. eapply grows_safe, (grows_all f l h settled (λ _ _, True)); [exact settled_mono|done| |exact Hs].
  intros a h' _ Hs'. eapply safe_mono; [by apply Hf|by split].
Qed.
Lemma cleanup_grows policy h : settled h → grows (cleanupStaleAuthPolicies policy) h.
Proof.
  intros Hs. apply grows_step; [by apply grows_call|]. intros r h' He.
  destruct (tolerate_absent _ _ r) as [l|e]; [|apply grows_ret].
  apply all_grow; [intros p h1; apply stale_grows|by eapply settled_mono].
Qed.
Lemma model_policy_grows model h : settled h → grows (reconcile_model_policy model) h.
Proof.
  intros Hs. unfold reconcile_model_policy. apply grows_step; [apply grows_reads, model_route_reads|]. intros [route|e] h1 He.
  - apply grows_step; [apply grows_reads; unfold modelAuthPolicyExists; solve_reads|]. intros [[]|e] h2 He2; try apply grows_ret.
    apply grows_step; [|intros; apply grows_ret]. apply delete_model_grows. eapply settled_mono; [|exact Hs]. by etransitivity.
  - destruct (is_sentinel ErrModelNotFound e).
    + apply grows_step; [|intros; apply grows_ret]. apply delete_model_grows. by eapply settled_mono.
    + destruct (is_sentinel _ e); apply grows_ret.
Qed.
Lemma model_policies_grow policy h : settled h → grows (reconcileModelAuthPolicies policy) h.
Proof.
  intros Hs. unfold reconcileModelAuthPolicies. apply grows_step_ok; [apply all_grow; [apply model_policy_grows|exact Hs]|].
  intros _ h' He. apply grows_step_ok; [apply cleanup_grows; by eapply settled_mono|]. intros; apply grows_ret.
Qed.

(** ** Reports *)

(** Only the status differs. *)
Definition same_policy (p p' : MaaSAuthPolicy) : Prop :=
  meta p' = meta p ∧ ap_ModelRefs (body p') = ap_ModelRefs (body p) ∧ ap_Rest (body p') = ap_Rest (body p).
Lemma update_status_grows p phase message snapshot h :
  reports h (with_phase p phase message) → grows (updateStatus p phase message snapshot) h.
Proof.
  intros Hr. unfold updateStatus. cbv zeta. case_bool_decide; [apply grows_ret|].
  apply grows_step; [by apply grows_call|intros; apply grows_ret].
Qed.
Lemma failed_grows p message snapshot cause h :
  reports h (with_phase p "Failed" message) → grows (reconcileFailed p message snapshot cause) h.
Proof. intros Hr. apply grows_step; [by apply update_status_grows|intros; apply grows_ret]. Qed.
Lemma pending_grows p message snapshot h :
  reports h (with_phase p "Pending" message) → grows (reconcilePending p message snapshot) h.
Proof. intros Hr. apply grows_step; [by apply update_status_grows|intros; apply grows_ret]. Qed.
Lemma report_spec p h : safely (report_conflicts p) h (λ p' h', extends h h' ∧ same_policy p p').
Proof.
  unfold report_conflicts. apply (reads_then _ reads_pass) with (h0 := h); [reflexivity| |].
  { unfold detectConflictingAuthPolicies. solve_reads. apply fold_ok_reads. intros; apply conflicts_reads. }
  intros r h' _ He. cbv zeta. apply (reads_then _ reads_pass) with (h0 := h); [exact He| |].
  { unfold conflict_events. solve_reads. }
  intros _ h'' He' _. split; [exact He'|]. by destruct r as [[]|].
Qed.
Lemma ref_status_spec p refs h : safely (updateAuthPolicyRefStatus p refs) h (λ p' h', extends h h' ∧ same_policy p p').
Proof.
  unfold updateAuthPolicyRefStatus. apply (reads_then _ reads_pass) with (h0 := h); [reflexivity| |by intros].
  unfold ref_status. solve_reads.
Qed.

End Monitor.

(** ** Reconciliation *)

Section Cutover.
Variable policy : MaaSAuthPolicy.
Notation ns := (Namespace (meta policy)).

(** The tenant's maas-api is ready, or no model of its live policies has a
    legacy policy in the namespace of the model, which is where the controller
    looks. *)
Definition cutover_safe (h : History) : Prop := no_legacy h ns ∨ target_ready h ns.
(** The policy of the tenant's Gateway is enforced; or this MaaSAuthPolicy said
    so before and there is no such legacy policy. *)
Definition enforced (h : History) : Prop :=
  gateway_enforced h ns ∨ (ap_Phase (status_of policy) = "Active" ∧ no_legacy h ns).
Definition settled (h : History) : Prop := cutover_safe h ∧ enforced h.
(** What phase [Active] says: every model exists, the Gateway's policy is
    enforced, and the tenant has left the legacy path; or, with an empty
    message, that a named tenant is on the default Gateway, which is not its to
    configure. *)
Definition justified (h : History) (o : MaaSAuthPolicy) : Prop :=
  same_policy policy o
  ∧ (ap_Phase (status_of o) = "Active" →
     (ap_ModelRefs (body policy) ≠ [] ∧ models_found h policy ∧ settled h)
     ∨ (named_on_default h ns ∧ o = with_phase policy "Active" "")).
Notation safely := (safe (allowed ns settled justified (λ _ _, False)) record).
Notation grows := (grows ns settled justified (λ _ _, False)).

Lemma cutover_mono h h' : extends h h' → cutover_safe h → cutover_safe h'.
Proof. intros He [H|H]; [left; by eapply no_legacy_mono|right; by eapply target_ready_mono]. Qed.
Lemma settled_mono h h' : extends h h' → settled h → settled h'.
Proof.
  intros He [Hc Hn]. split; [by eapply cutover_mono|].
  destruct Hn as [H|[Hp H]]; [left; by eapply gateway_enforced_mono|right; split; [exact Hp|by eapply no_legacy_mono]].
Qed.
Lemma other_phase p phase message h : same_policy policy p → phase ≠ "Active" → justified h (with_phase p phase message).
Proof. intros Hp Hn. split; [exact Hp|]. intros E. by destruct (Hn E). Qed.
Lemma phase_active p missing message : deriveAuthPolicyPhase p missing = ("Active", message) → ap_ModelRefs (body p) ≠ [] ∧ missing = [].
Proof.
  unfold deriveAuthPolicyPhase. cbv zeta. destruct (Z.eqb_spec (Z.of_nat (length (ap_ModelRefs (body p))) - Z.of_nat (length missing)) 0) as [|Hne]; [discriminate|].
  destruct missing as [|m missing]; cbn [length Nat.ltb Nat.leb] in *; [|discriminate].
  intros _. split; [|done]. intros E. apply Hne. by rewrite E.
Qed.

Lemma conclude_grows snapshot missing h :
  (missing = [] → models_found h policy) → settled h → grows (conclude policy snapshot missing) h.
Proof.
  intros Hm Hs. unfold conclude. apply grows_step; [apply model_policies_grow; [apply settled_mono|exact Hs]|].
  intros [refs|e] h1 He; [|by apply failed_grows, other_phase].
  eapply safe_mono; [|intros b h' Hh; exact Hh]. apply safe_bind. eapply safe_mono; [apply ref_status_spec|].
  intros p1 h2 [He2 S1]. apply safe_bind. eapply safe_mono; [apply report_spec|]. intros p2 h3 [He3 S2].
  destruct (deriveAuthPolicyPhase p2 missing) as [phase message] eqn:Ed.
  assert (S : same_policy policy p2).
  { destruct S1 as (A1 & B1 & C1), S2 as (A2 & B2 & C2). split_and!; congruence. }
  assert (He13 : extends h1 h3) by (by etransitivity). eapply safe_mono; [|intros b h' Hh; etransitivity; [exact He13|exact Hh]].
  apply grows_step; [|intros; apply grows_ret]. apply update_status_grows.
  destruct (decide (phase = "Active")) as [->|Hn]; [|by apply other_phase].
  apply phase_active in Ed as [Hr ->]. destruct S as (A & B & C). split; [by split_and!|]. intros _. left.
  assert (Hh : extends h h3) by (by etransitivity). split_and!; [by rewrite <- B|eapply models_found_mono; [exact Hh|by apply Hm]|].
  by eapply settled_mono.
Qed.
Lemma cut_over_grows snapshot missing oidc x tenantID gateway legacy h :
  gateway_is h ns gateway → tenant_is h ns tenantID →
  (missing = [] → models_found h policy) → cutover_safe h → (legacy = false → no_legacy h ns) →
  grows (cut_over policy snapshot missing oidc x tenantID gateway legacy) h.
Proof.
  intros Hg Ht Hm Hc Hl. unfold cut_over. apply grows_step.
  { unfold reconcileGatewayAuthPolicy. apply grows_step_ok; [apply grows_reads, catalog_reads|].
    intros c h' He. apply gateway_grows; [by eapply gateway_is_mono|by eapply tenant_is_mono]. }
  assert (Hmono : ∀ h', extends h h' → (missing = [] → models_found h' policy) ∧ cutover_safe h').
  { intros h' He. split; [intros E; eapply models_found_mono; [exact He|by apply Hm]|by eapply cutover_mono]. }
  intros [changed|e] h1 He; [|by apply failed_grows, other_phase].
  destruct (changed || legacy || _) eqn:Eb.
  - eapply safe_mono; [|intros b h' Hh; exact Hh]. apply safe_bind.
    eapply safe_mono; [apply (readiness_spec _ (reads_pass _ _ _ _) ns); by eapply gateway_is_mono|].
    intros r h2 [He2 Hr]. eapply safe_mono; [|intros b h' Hh; etransitivity; [exact He2|exact Hh]].
    destruct r as [[ready message]|e]; [|by apply failed_grows, other_phase].
    destruct ready; cbn [negb]; [|by apply pending_grows, other_phase].
    destruct (Hmono h2) as [Hm2 Hc2]; [by etransitivity|]. apply conclude_grows; [exact Hm2|].
    split; [exact Hc2|left; by eapply Hr].
  - apply orb_false_iff in Eb as [[_ El]%orb_false_iff Ep%negb_false_iff%String.eqb_eq].
    destruct (Hmono h1 He) as [Hm1 Hc1]. apply conclude_grows; [exact Hm1|]. split; [exact Hc1|right].
    split; [exact Ep|]. eapply no_legacy_mono; [exact He|by apply Hl].
Qed.

(** C3 Whatever the API server replies to a reconciliation of a MaaSAuthPolicy
    (from the empty history, the evidence is of this reconciliation): an
    AuthPolicy is created only as the policy of the Gateway the lookups of the
    policy's tenant give, with a specification the controller generates for that
    Gateway and that tenant; it is updated only when it is that Gateway's, was
    read as managed, and then in its specification and owners only; it is
    deleted only when it is managed and either its Gateway is gone, or it was
    listed for a model and [settled]: (a) the maas-api of that very tenant was
    seen ready, or no legacy policy was found in the namespaces of the tenant's
    models, and (b) the policy of that very Gateway was seen enforced, or the
    status already said [Active] and no such legacy policy was found.  Phase
    [Active] is written only when every model was found and [settled] holds, or
    with an empty message when the tenant has a name and its Gateway is the
    default one.  Nothing else is written.  The cutover check looks for legacy
    policies in the namespaces of the models only; one in the namespace of a
    route elsewhere does not delay the cutover. *)
Theorem access_never_opened snapshot h :
  safe (allowed ns settled justified (λ _ _, False)) record (reconcile_tenant policy snapshot) h (λ _ h', extends h h').
Proof.
  unfold reconcile_tenant. cbv zeta. apply safe_bind. eapply safe_mono; [apply missing_spec; apply reads_pass|].
  intros missing h1 [He1 Hm]. eapply safe_mono; [|intros b h' Hh; etransitivity; [exact He1|exact Hh]]. clear He1.
  apply grows_step; [apply grows_reads, oidc_reads|]. intros oidc h2 He2.
  apply safe_bind. eapply safe_mono; [apply identifier_spec; apply reads_pass|].
  intros tenant h3 [He3 Ht]. eapply safe_mono; [|intros b h' Hh; etransitivity; [exact He3|exact Hh]].
  destruct tenant as [tenantID|e]; [|by apply failed_grows, other_phase]. specialize (Ht tenantID eq_refl).
  apply grows_step; [apply grows_reads, x_api_key_reads|]. intros x h4 He4.
  apply safe_bind. eapply safe_mono; [apply gateway_spec; apply reads_pass|].
  intros info h5 [He5 Hg]. eapply safe_mono; [|intros b h' Hh; etransitivity; [exact He5|exact Hh]].
  destruct info as [gateway|e]; [|by apply failed_grows, other_phase]. specialize (Hg gateway eq_refl).
  assert (Ht5 : tenant_is h5 ns tenantID) by (eapply tenant_is_mono; [|exact Ht]; by etransitivity). clear Ht.
  destruct (_ && is_default_gateway gateway) eqn:En.
  { apply andb_true_iff in En as [En%negb_true_iff%String.eqb_neq Hdef].
    apply grows_step; [|intros; apply grows_ret]. apply update_status_grows. split; [by split_and!|]. intros _. right.
    split; [by exists tenantID, gateway|done]. }
  apply safe_bind. eapply safe_mono; [apply legacy_spec; apply reads_pass|].
  intros legacy h6 [He6 Hl]. eapply safe_mono; [|intros b h' Hh'; etransitivity; [exact He6|exact Hh']].
  assert (Hat : ∀ h', extends h6 h' → gateway_is h' ns gateway ∧ tenant_is h' ns tenantID ∧ (missing = [] → models_found h' policy)).
  { intros h' He. split_and!; [eapply gateway_is_mono; [|exact Hg]; by etransitivity
      |eapply tenant_is_mono; [|exact Ht5]; by etransitivity|].
    intros E. eapply models_found_mono; [|by apply Hm]. do 5 (etransitivity; [eassumption|]). exact He. }
  destruct legacy as [[]|e]; [| |by apply failed_grows, other_phase].
  - destruct (Hat h6 ltac:(reflexivity)) as (_ & Ht6 & _).
    apply safe_bind. eapply safe_mono; [apply (target_spec _ (reads_pass _ _ _ _) ns); exact Ht6|].
    intros target h7 [He7 Hr]. eapply safe_mono; [|intros b h' Hh'; etransitivity; [exact He7|exact Hh']].
    destruct target as [[]|e]; cbn [negb]; [|by apply pending_grows, other_phase|by apply failed_grows, other_phase].
    destruct (Hat h7 He7) as (? & ? & ?). apply cut_over_grows; [done..|right; by apply Hr|done].
  - destruct (Hat h6 ltac:(reflexivity)) as (? & ? & ?). apply cut_over_grows; [done..|left; by apply Hl|intros _; by apply Hl].
Qed.

End Cutover.

(** ** Deletion *)

Section Deletion.
Variable policy : MaaSAuthPolicy.

(** The finalizer goes when no policy of its models is left. *)
Definition released (h : History) (o : MaaSAuthPolicy) : Prop :=
  o = unfinalized policy ∧ ∀ model, model ∈ ap_ModelRefs (body policy) → swept h model.
Notation ns := (Namespace (meta policy)).
Notation safely := (safe (allowed ns (λ _, True) (λ _ _, False) released) record).
Notation grows := (grows ns (λ _, True) (λ _ _, False) released).

Lemma reset_grows h : grows (reset_gateway policy) h.
Proof.
  unfold reset_gateway. cbv zeta. apply safe_bind_ok. eapply safe_mono; [apply identifier_spec; apply reads_pass|].
  intros [tenantID|e] h1 [He1 Ht]; [|exact He1]. eapply safe_mono; [|intros b h' Hh; etransitivity; [exact He1|exact Hh]].
  apply safe_bind_ok. eapply safe_mono; [apply gateway_spec; apply reads_pass|].
  intros [gateway|e] h2 [He2 Hg]; [|exact He2]. eapply safe_mono; [|intros b h' Hh; etransitivity; [exact He2|exact Hh]].
  destruct (_ && is_default_gateway gateway); [apply grows_ret|]. destruct (_ && is_default_gateway gateway); [apply grows_ret|].
  apply grows_step; [apply grows_reads, oidc_reads|]. intros oidc h3 He3.
  apply grows_step; [apply grows_reads, x_api_key_reads|]. intros x h4 He4.
  apply grows_step_ok; [|intros; apply grows_ret]. apply gateway_grows.
  - eapply gateway_is_mono; [|by apply Hg]. by etransitivity.
  - eapply tenant_is_mono; [|by apply Ht]. do 2 (etransitivity; [eassumption|]). exact He4.
Qed.

(** C14 A MaaSAuthPolicy that is being deleted keeps its finalizer until the API
    server has answered, for each model reference, the list of the AuthPolicies
    labelled for the model in the namespace of the reference (or that there is no
    such kind), and has deleted, or no longer had, each of them that the
    controller manages and that is not labelled for a model of another
    namespace; the finalizer is the one thing that then changes, and no status
    is written.  AuthPolicies in the namespace of a route elsewhere are not
    looked for. *)
Theorem released_after_cleanup h :
  safe (allowed ns (λ _, True) (λ _ _, False) released) record (handleDeletion policy) h (λ _ h', extends h h').
Proof.
  unfold handleDeletion. destruct (negb _); [apply grows_ret|]. apply safe_bind_ok.
  eapply safe_mono; [apply (grows_all _ _ _ _ deleteModelAuthPolicy (ap_ModelRefs (body policy)) h (λ _, True) (λ m h', swept h' m))|].
  - done.
  - intros m h1 h2 He. by apply swept_mono.
  - intros m h1 _ _. by apply delete_model_spec.
  - exact I.
  - intros [[]|e] h1 [He Hs]; [|exact He]. specialize (Hs eq_refl).
    eapply safe_mono; [|intros b h' Hh; etransitivity; [exact He|exact Hh]]. clear He.
    apply safe_bind_ok. eapply safe_mono; [by apply cleanup_grows|]. intros [[]|e] h2 He2; [|exact He2].
    apply (safe_read _ (reads_pass _ _ _ _)); [done|]. intros [l|e] He3; [|change (extends h1 (record _ (ListBy true KMaaSAuthPolicy (InNamespace (Namespace (meta policy)))) (Err e) h2)); by etransitivity].
    assert (H13 : extends h1 (record _ (ListBy true KMaaSAuthPolicy (InNamespace (Namespace (meta policy)))) (Ok l) h2)) by (by etransitivity).
    eapply safe_mono; [|intros b h' Hh; etransitivity; [exact H13|exact Hh]]. set (h3 := record _ _ _ _) in *.
    assert (Hg : grows (if others_live policy l then Ret (Ok tt) else reset_gateway policy) h3).
    { destruct (others_live policy l); [apply grows_ret|apply reset_grows]. }
    apply grows_step_ok; [exact Hg|]. intros _ h4 He4. apply grows_step; [|intros; apply grows_ret].
    apply grows_call. split; [done|]. intros m Hm. eapply swept_mono; [|by apply Hs]. by etransitivity.
Qed.

End Deletion.

(** ** Events of conflicts *)

Section Events.
Context `{SL : !StatusConditionLaws}.

Lemma conflict_of_set c policy : c_Type c = ConditionConflictingAuthPolicy → conflict_of (set_condition c policy) = Some c.
Proof. intros Ht. unfold conflict_of, set_condition. cbn. rewrite <- Ht. apply find_set_eq. Qed.

(** Once a MaaSAuthPolicy has a condition on conflicts, the detection
    records the new condition but sends no event: the condition it compares
    with is the one it has just overwritten.  So a conflict that starts, changes
    or ends after the first reconciliation is never announced; the first is,
    when it is a conflict and there is a recorder. *)
Theorem later_conflicts_unannounced policy c conflicts :
  c_Type c = ConditionConflictingAuthPolicy →
  conflict_events policy (set_condition c policy) conflicts =
  match conflict_of policy with
  | Some _ => Ret tt
  | None => if String.eqb (c_Status c) ConditionTrue && HasRecorder
            then _ ← call (Eventf "Warning" "ConflictingAuthPolicy" "DetectConflictingAuthPolicies"
                   ("Detected " +:+ format_int (Z.of_nat (length conflicts)) +:+ " non-MaaS AuthPolic" +:+ pluralY (length conflicts)
                    +:+ " on MaaS auth surfaces: " +:+ join "; " (map conflict_text conflicts)));
                 Ret tt
            else Ret tt
  end.
Proof.
  intros Ht. unfold conflict_events, prev_conflict. cbv zeta. rewrite (conflict_of_set c policy Ht).
  destruct (conflict_of policy); unfold shouldEmitConflictEvent, shouldEmitResolvedEvent.
  - rewrite !String.eqb_refl. cbn [negb orb]. rewrite andb_false_r. cbn [andb].
    destruct (String.eqb_spec (c_Status c) ConditionFalse) as [->|]; reflexivity.
  - rewrite andb_true_r. cbn [andb]. by destruct (_ && HasRecorder).
Qed.

End Events.
End Safety.
End AuthPolicySafety.
