(* ===== verification/SubscriptionHeaderFacts.v ===== *)
(** * SubscriptionHeaderFacts: selection and the Gateway agree on headers

    The two readings of the header annotation ([SubscriptionHeaders]) side by
    side: what a selection may return for a subscription and what the AuthPolicy
    [AuthPolicyController] writes for its tenant's Gateway injects. *)

From S2P Require Import Prelude GoStrings Unstructured GuardrailResolver RateTier Kube JsonMatch GatewaySpec SubscriptionHeaders AITenant TenantLookup GuardrailCatalog ModelRoutes SubscriptionPolicy ModelController ModelSafety AuthPolicyController GatewaySpecFacts AuthPolicyReads.
From Stdlib Require String.
Local Open Scope string_scope.

Module SubscriptionHeaderFacts.
Import Kube AITenant TenantLookup GatewaySpec GatewayHeaders ModelSafety AuthPolicyController GatewaySpecFacts AuthPolicyReads.

(** The sorted strings of a set. *)
Lemma elem_of_sort_strings l x : x ∈ sort_strings l ↔ x ∈ l.
Proof. by rewrite sort_strings_perm. Qed.
Lemma sort_strings_sorted l : StronglySorted (not_after str_ltb) (sort_strings l).
Proof. apply isort_sorted, _. Qed.

Section Facts.
Context `{GR : GoRuntime} `{HC : HeaderCodec}.

(** ** The two parsers *)

Lemma parsers_agree text : ApiHeaders.parseSubscriptionHeaders text = parseSubscriptionHeaders text.
Proof. reflexivity. Qed.

Lemma checked_all l r :
  fold_res (λ _ header, check_header header) tt l = Ok r →
  ∀ header, header ∈ l → has_prefix "x-grid-" (to_lower header.1) = true.
Proof.
  revert r. induction l as [|h l IH]; intros r; cbn [fold_res]; [intros _ x Hx; inversion Hx|].
  intros ([] & Hh & Hl)%res_bind_ok. intros x [->|Hx]%elem_of_cons; [|by apply (IH r)].
  destruct h as [name values]. unfold check_header, validSubscriptionHeaderName in Hh. cbn [fst].
  destruct (ValidHeaderFieldName name); [|discriminate Hh]. cbn [negb] in Hh.
  by destruct (has_prefix "x-grid-" (to_lower name)).
Qed.

Lemma normalized_keys l acc m :
  fold_res normalize_header acc l = Ok m →
  ∀ k, is_Some (m !! k) ↔ is_Some (acc !! k) ∨ ∃ header, header ∈ l ∧ to_lower header.1 = k.
Proof.
  revert acc. induction l as [|h l IH]; intros acc; cbn [fold_res].
  - intros [= <-] k. split; [by left|]. intros [H|(h & H & _)]; [exact H|inversion H].
  - intros (acc' & Hh & Hl)%res_bind_ok k. rewrite (IH _ Hl). unfold normalize_header in Hh.
    destruct (acc !! to_lower h.1) eqn:E; [discriminate Hh|]. injection Hh as <-.
    destruct (decide (to_lower h.1 = k)) as [<-|Hk].
    + rewrite lookup_insert_eq. split; [intros _; right; exists h; split; [left|done]|by left; eexists].
    + rewrite lookup_insert_ne by done. split.
      * intros [H|(x & Hx & Hxk)]; [by left|]. right. exists x. split; [by right|done].
      * intros [H|(x & [->|Hx]%elem_of_cons & Hxk)]; [by left|done|]. right. by exists x.
Qed.

(** A parsed name is a lower-case name with the reserved prefix. *)
Lemma parsed_name text headers name :
  parseSubscriptionHeaders text = Ok headers → is_Some (headers !! name) →
  to_lower name = name ∧ has_prefix "x-grid-" name = true.
Proof.
  unfold parseSubscriptionHeaders. destruct (String.eqb text ""); [intros [= <-] [? H]; by rewrite lookup_empty in H|].
  intros ([raw|] & _ & Hp)%res_bind_ok; [|discriminate Hp]. apply res_bind_ok in Hp as ([] & Hc & Hn).
  intros Hs. apply (normalized_keys _ _ _ Hn) in Hs as [[? H]|(h & Hin & <-)]; [by rewrite lookup_empty in H|].
  split; [apply to_lower_idem|]. by apply (checked_all _ _ Hc).
Qed.

(** ** The names of a namespace *)

Definition annotation_of (s : MaaSSubscription) : string := value (Annotations (meta s)) subscriptionHeadersAnnotation.
(** A selection of the subscription may return the header. *)
Definition selection_returns (s : MaaSSubscription) (name : string) : Prop :=
  ∃ headers, ApiHeaders.parseSubscriptionHeaders (annotation_of s) = Ok headers ∧ is_Some (headers !! name).

Lemma lower_keys headers name :
  (∀ k, is_Some (headers !! k) → to_lower k = k) →
  name ∈ (list_to_set (map (λ header : string * list string, to_lower header.1) (range_map headers)) : gset string)
  ↔ is_Some (headers !! name).
Proof.
  intros Hl. rewrite elem_of_list_to_set, list_elem_of_fmap. split.
  - intros ([k v] & -> & H). rewrite range_map_perm, elem_of_map_to_list in H. cbn [fst].
    rewrite Hl; by eexists.
  - intros [v Hv]. exists (name, v). split; [symmetry; apply Hl; by eexists|].
    by rewrite range_map_perm, elem_of_map_to_list.
Qed.

(** What the reads show, under any monitor that lets reads pass. *)
Section Names.
Variable allowed : ∀ X, Call X → History → Prop.
Hypothesis reads_allowed : ∀ X (c : Call X) h, is_read c = true → allowed X c h.
Notation safely := (safe allowed record).
Lemma collect_spec has acc l h :
  safely (collect_names has acc l) h (λ names h', extends h h' ∧ ∀ name,
    name ∈ names ↔ name ∈ acc ∨ ∃ s, s ∈ l ∧ selection_returns s name).
Proof.
  revert acc h. induction l as [|s l IH]; intros acc h; cbn [collect_names].
  - split; [reflexivity|]. intros name. split; [by left|]. intros [H|(s & H & _)]; [exact H|inversion H].
  - assert (Hcons : ∀ P : MaaSSubscription → Prop, (∃ x, x ∈ s :: l ∧ P x) ↔ P s ∨ ∃ x, x ∈ l ∧ P x).
    { intros P. setoid_rewrite elem_of_cons. naive_solver. }
    destruct (parseSubscriptionHeaders (value (Annotations (meta s)) subscriptionHeadersAnnotation)) as [headers|e] eqn:E.
    + eapply safe_mono; [apply IH|]. intros names h' [He Hn]. split; [exact He|]. intros name. rewrite Hn, Hcons, elem_of_union.
      rewrite lower_keys by (intros k Hk; by eapply parsed_name).
      assert (Hs : is_Some (headers !! name) ↔ selection_returns s name); [|by rewrite Hs; tauto].
      unfold selection_returns, annotation_of. rewrite parsers_agree, E. split; [by eexists|]. intros (? & [= <-] & H). exact H.
    + eapply safe_step with (P := λ _ _, True); [reflexivity| |].
      * eapply safe_mono; [apply (reads_extend _ reads_allowed)|by split].
        unfold warnInvalidSubscriptionHeaders. solve_reads.
      * intros _ h1 He1 _ _. eapply safe_mono; [apply IH|]. intros names h' [He Hn]. split; [by etransitivity|].
        intros name. rewrite Hn, Hcons.
        assert (Hs : ¬ selection_returns s name); [|tauto].
        unfold selection_returns, annotation_of. rewrite parsers_agree, E. intros (? & [=] & _).
Qed.

(** The names the controller collects: those the annotations of the listed
    subscriptions give, once each and in order. *)
Definition given_names (l : list MaaSSubscription) (names : list string) : Prop :=
  NoDup names ∧ StronglySorted (not_after str_ltb) names
  ∧ (∀ name, name ∈ names ↔ ∃ s, s ∈ l ∧ selection_returns s name)
  ∧ (∀ name, name ∈ names → to_lower name = name ∧ has_prefix "x-grid-" name = true).

Lemma names_spec has_recorder namespace h0 :
  safely (subscriptionHeaderNames has_recorder namespace) h0 (λ r h, extends h0 h ∧ ∀ names, r = Ok names →
    ∃ l, answered h (ListBy true KSubscription (InNamespace namespace)) (Ok l) ∧ given_names l names).
Proof.
  unfold subscriptionHeaderNames. apply safe_bind_ok, safe_try. apply safe_call; [by apply reads_allowed|].
  intros [l|e]; cbn [map_err]; [|split; [apply extends_record|by intros names]]. apply safe_bind.
  eapply safe_mono; [apply collect_spec|]. intros names h [He Hn].
  split; [etransitivity; [apply extends_record|exact He]|]. intros ? [= <-]. exists l.
  assert (Hel : ∀ name, name ∈ sort_strings (elements names) ↔ ∃ s, s ∈ l ∧ selection_returns s name).
  { intros name. rewrite elem_of_sort_strings, elem_of_elements, Hn. set_solver. }
  split; [eapply answered_mono; [exact He|apply answered_record]|]. split_and!.
  - rewrite sort_strings_perm. apply NoDup_elements.
  - apply sort_strings_sorted.
  - exact Hel.
  - intros name (s & _ & headers & Hp & Hs)%Hel. rewrite parsers_agree in Hp. by eapply parsed_name.
Qed.
End Names.
End Facts.

(** ** The policy of the Gateway *)

Section Policy.
Context `{GR : GoRuntime} `{TS : TenantScope} `{R : AuthPolicyReconciler} `{GS : GatewaySettings}.
Context `{HC : HeaderCodec} `{NFL : NestedFieldsLaws} `{SC : StatusConditions} `{CU : ControllerUtil}.

(** A header of the reserved kind, in whatever case. *)
Definition is_grid (k : string) : Prop := has_prefix "x-grid-" (to_lower k) = true.

(** The specification injects, of the reserved headers, exactly [names], each
    with the value the selection returned, and lets a client send none other. *)
Definition injects (spec : JMap) (names : list string) : Prop :=
  (∃ headers, at_path (JObj spec) (map inl headers_path) = Some (JObj headers)
     ∧ ∀ k, is_grid k → get k headers = if bool_decide (k ∈ names) then Some (subscriptionInfoHeadersExpr k) else None)
  ∧ ∃ patterns, at_path (JObj spec) (map inl patterns_path) = Some (JArr patterns)
      ∧ JObj [("predicate", JStr (subscriptionHeadersDenyPredicate names))] ∈ patterns.

Lemma get_put_in {A} (v : string → A → JVal) (f : A → string) k a l m :
  (∀ b, f b = k → v k b = v k a) → a ∈ l → f a = k →
  get k (fold_left (λ m b, put (f b) (v (f b) b) m) l m) = Some (v k a).
Proof.
  intros Hv Ha Hk. revert m. induction l as [|b l IH] using rev_ind; intros m; [inversion Ha|].
  rewrite fold_left_app. cbn [fold_left]. destruct (decide (f b = k)) as [Hb|Hb].
  - rewrite Hb, get_put_eq. by rewrite Hv.
  - rewrite get_put_ne by done. apply IH. apply elem_of_app in Ha as [Ha|Ha]; [exact Ha|].
    apply list_elem_of_singleton in Ha as ->. done.
Qed.

Lemma get_absent (f : string → bool) k (m : JMap) :
  forallb (λ kv, negb (f kv.1)) m = true → f k = true → get k m = None.
Proof.
  intros Hm Hf. induction m as [|[k' v] m IH]; [done|]. cbn in Hm. apply andb_true_iff in Hm as [Hk Hm].
  cbn [get]. destruct (String.eqb_spec k' k) as [->|]; [by rewrite Hf in Hk|by apply IH].
Qed.

Lemma no_grid_header oidc x catalog k :
  catalog_named (default [] catalog) → is_grid k → get k (headers_of oidc x catalog) = None.
Proof.
  intros Hc Hk. rewrite get_headers_of; [|exact Hc|].
  - apply (get_absent (λ k, has_prefix "x-grid-" (to_lower k))); [reflexivity|exact Hk].
  - destruct (has_prefix "x-aigateway-guardrail-" k) eqn:E; [|done].
    apply has_prefix_spec in E as [r ->]. discriminate Hk.
Qed.

Lemma grid_headers oidc x catalog names k :
  catalog_named (default [] catalog) → is_grid k →
  get k (with_headers names (headers_of oidc x catalog)) =
  if bool_decide (k ∈ names) then Some (subscriptionInfoHeadersExpr k) else None.
Proof.
  intros Hc Hk. unfold with_headers. case_bool_decide as Hin.
  - exact (get_put_in (λ k _, subscriptionInfoHeadersExpr k) id k k names _ (λ _ _, eq_refl) Hin eq_refl).
  - rewrite (get_put_all (λ n, n)) by (by intros n Hn ->).
    rewrite (get_filter (λ k, negb (unmanaged_now names k))), no_grid_header by done. by destruct (negb _).
Qed.

Lemma desired_injects oidc x tenantID gateway catalog names spec :
  catalog_named (default [] catalog) →
  desired_spec oidc x tenantID gateway catalog names = Ok spec → injects spec names.
Proof.
  intros Hc Hd. rewrite (spec_is_shape _ _ _ _ _ _ _ Hd). split.
  - exists (with_headers names (headers_of oidc x catalog)). split; [reflexivity|]. intros k Hk. by apply grid_headers.
  - exists (identity_header_patterns ++ [x_grid_pattern names])%list. split.
    + cbn -[with_deny_patterns with_headers identity_header_patterns]. unfold with_deny_patterns. rewrite get_put_eq. reflexivity.
    + apply elem_of_app. right. by left.
Qed.

(** No reserved header of the live policy is out of date. *)
Definition current (live : option JMap) (names : list string) : Prop :=
  ∀ headers k, NestedMapE (default [] live) headers_path = Ok (Some headers) →
    is_grid k → is_Some (get k headers) → to_lower k ∈ names.
Lemma unchanged_current spec catalog names live : policy_unchanged spec catalog names live = true → current live names.
Proof.
  unfold policy_unchanged, basePolicyHasStaleSubscriptionHeaderFields. intros [_ Hs]%andb_true_iff headers k Hl Hk [v Hv].
  rewrite Hl in Hs. apply negb_true_iff in Hs. destruct (decide (to_lower k ∈ names)) as [|Hn]; [done|].
  assert (existsb (λ header, unmanaged_now names header.1) headers = true); [|congruence].
  apply existsb_elem. exists (k, v). split.
  - clear -Hv. induction headers as [|[k' w] headers IH]; [done|]. cbn [get] in Hv.
    destruct (String.eqb_spec k' k) as [->|]; [injection Hv as ->; by left|right; by apply IH].
  - unfold unmanaged_now, managedSubscriptionHeaderName, managedSubscriptionHeaderNames. cbn [fst].
    rewrite to_lower_idem, Hk. cbn [andb]. rewrite bool_decide_eq_false_2; [done|]. by rewrite elem_of_list_to_set.
Qed.

(** *** The program that writes it *)

Section Writes.
Variables (tenantNamespace : string) (gateway : Key).

(** The names the subscriptions of the tenant give, as [h] shows them. *)
Definition right_names (h : History) (names : list string) : Prop :=
  ∃ l, answered h (ListBy true KSubscription (InNamespace (subscription_namespace tenantNamespace))) (Ok l) ∧ given_names l names.
Definition injecting (h : History) (k : Kind) : Obj k → Prop :=
  match k return Obj k → Prop with
  | KAuthPolicy => λ o, ∃ spec names, au_Spec (body o) = Some spec ∧ right_names h names ∧ injects spec names
  | _ => λ _, False
  end.
Definition written (X : Type) (c : Call X) (h : History) : Prop :=
  match c with
  | Create k o | Update k o => injecting h k o
  | UpdateStatus _ _ | Patch _ _ _ _ => False
  | _ => True
  end.
(** Why nothing was written: the Gateway is gone, its policy is another's, or
    the live policy has the headers. *)
Definition left_alone (h : History) : Prop :=
  (∃ e, answered h (Get true KGateway gateway) (Err e) ∧ isNotFound e = true)
  ∨ ∃ p, answered h (Get true KAuthPolicy (gateway_policy_key gateway)) (Ok p)
      ∧ (isManaged (meta p) = false
         ∨ ∃ names spec, right_names h names ∧ injects spec names
             ∧ specMatchesDesired spec (au_Spec (body p)) = true ∧ current (au_Spec (body p)) names).

Lemma right_names_mono h h' names : extends h h' → right_names h names → right_names h' names.
Proof. intros He (l & Ha & H). exists l. split; [by eapply answered_mono|exact H]. Qed.
Lemma written_reads X (c : Call X) h : is_read c = true → written X c h.
Proof. by destruct c. Qed.
Notation safely := (safe written record).

Lemma write_policy_injects spec catalog names existing g h :
  right_names h names → injects spec names →
  match existing with
  | None => True
  | Some p => answered h (Get true KAuthPolicy (gateway_policy_key gateway)) (Ok p)
  end →
  safely (write_policy gateway spec catalog names existing g) h (λ r h', r = Ok false → left_alone h').
Proof.
  intros Hn Hi He. destruct existing as [p|]; unfold write_policy.
  - destruct (isManaged (meta p)) eqn:Em; cbn [negb]; [|intros _; right; exists p; by auto].
    destruct (policy_unchanged _ _ _ _) eqn:Eu.
    { intros _. right. exists p. split; [exact He|right]. exists names, spec. split_and!; [exact Hn|exact Hi| |].
      - unfold policy_unchanged in Eu. by apply andb_true_iff in Eu as [[Eu _]%andb_true_iff _].
      - by eapply unchanged_current. }
    split; [exists spec, names; destruct g; by split_and!|]. by intros [].
  - split; [exists spec, names; destruct g; by split_and!|]. by intros [].
Qed.

(** C22 The headers the Gateway injects are those selections return.  Whatever
    the API server answers, every AuthPolicy the controller writes for a
    Gateway has, of the reserved [x-grid-] headers in whatever case, exactly
    those that [maas-api]'s own parser finds in the annotations of the
    subscriptions listed in this run, each with the expression that reads it
    off the selection, and refuses every other such header of a client; names
    are lower-case and in order, and an annotation either parser refuses
    contributes nothing.  The live policy is left alone only when the Gateway is
    gone, the policy is not managed, or it covers a specification with those
    headers and has no reserved header besides. *)
Theorem gateway_headers_exact oidc x tenantID catalog :
  catalog_named (default [] catalog) →
  safely (reconcileGatewayAuthPolicyWithHeaders oidc x tenantNamespace tenantID gateway catalog) []
    (λ r h, r = Ok false → left_alone h).
Proof.
  intros Hc. unfold reconcileGatewayAuthPolicyWithHeaders. apply safe_bind_ok.
  eapply safe_mono; [apply (names_spec _ written_reads)|]. intros [names|e] h1 [_ Hn]; [|done].
  destruct (desired_spec _ _ _ _ _ _) as [spec|e] eqn:Ed; [|done]. apply desired_injects in Ed as Hi; [|exact Hc].
  assert (Hr : ∀ h', extends h1 h' → right_names h' names).
  { intros h' He. eapply right_names_mono; [exact He|]. exact (Hn names eq_refl). }
  clear Hn Ed. cbv zeta.
  assert (Hgone : ∀ h e, isNotFound e = true → answered h (Get true KGateway gateway) (Err e) → left_alone h) by (intros h e ??; left; by exists e).
  apply (safe_read _ written_reads); [done|]. intros [p|e] He1.
  - apply (safe_read _ written_reads); [done|]. intros g He2.
    set (h2 := record _ (Get true KGateway gateway) _ _) in *.
    assert (Hp : answered h2 (Get true KAuthPolicy (gateway_policy_key gateway)) (Ok p)).
    { eapply answered_mono; [exact He2|apply answered_record]. }
    assert (H2 : right_names h2 names) by (apply Hr; by etransitivity).
    destruct g as [g|e]; [by apply write_policy_injects|].
    destruct (isNotFound e) eqn:En; cbn [negb]; [|done]. pose proof (Hgone h2 e En (answered_record _ _ _)) as Hg.
    destruct (isManaged (meta p) && _) eqn:Em.
    + split; [done|]. intros [d|e']; [|done]. destruct (negb _); [|apply write_policy_injects; [|exact Hi|exact I]].
      * intros _. eapply Hgone; [exact En|]. right. apply answered_record.
      * eapply right_names_mono; [apply extends_record|exact H2].
    + destruct (negb _); [by intros _|]. by apply write_policy_injects.
  - destruct (isNotFound e) eqn:En; cbn [negb]; [|done]. apply (safe_read _ written_reads); [done|]. intros g He2.
    assert (H2 : ∀ g, right_names (record _ (Get true KGateway gateway) g (record _ (Get true KAuthPolicy (gateway_policy_key gateway)) (Err e) h1)) names).
    { intros g'. apply Hr. etransitivity; [exact He1|apply extends_record]. }
    destruct g as [g|e']; [by apply write_policy_injects|].
    destruct (isNotFound e') eqn:En'; cbn [negb]; [|done]. destruct (negb _); [|by apply write_policy_injects].
    intros _. eapply Hgone; [exact En'|apply answered_record].
Qed.

End Writes.
End Policy.
End SubscriptionHeaderFacts.
