(* ===== verification/ModelProtocol.v ===== *)
(** * ModelProtocol: what the controller of model references guarantees

    The theorems on [ModelController]: a status that says Ready is justified by
    the replies of that reconciliation, a deleted model lets go only of policies
    it has listed, two models that share an alias both know, and an event that
    changes that wakes up every model concerned. *)

From S2P Require Import Prelude GoStrings RateTier Kube AITenant TenantLookup ModelRoutes SubscriptionPolicy ModelBackends ModelController ModelSafety.
From Stdlib Require String.
Local Open Scope string_scope.

Module ModelProtocol.
Import Kube AITenant TenantLookup ModelRoutes SubscriptionPolicy ModelBackends ModelController ModelSafety.

Section Protocol.
Context `{TS : TenantScope} `{MR : MaaSModelRefReconciler} `{SC : StatusConditions} `{CU : ControllerUtil}.

(** ** What a status says *)

(** The status of [o] may be written after [h]. *)
Definition justified (h : History) (o : MaaSModelRef) : Prop :=
  let st := mo_of o in
  condition_true (mo_Conditions st) "Ready" = String.eqb (mo_Phase st) "Ready"
  ∧ (mo_Phase st = "Ready" → served h o ∧ governed h (key_of o) ∧ Endpoint st ≠ "")
  ∧ (mo_Phase st = "Pending" ∨ mo_Phase st = "Unhealthy" → Endpoint st = "").
Definition justified_status (k : Kind) : History → Obj k → Prop :=
  match k return History → Obj k → Prop with KModelRef => justified | _ => λ _ _, False end.
Definition status_allowed (X : Type) (c : Call X) (h : History) : Prop :=
  match c with UpdateStatus k o => justified_status k h o | _ => True end.

Lemma status_reads X (c : Call X) h : is_read c = true → status_allowed X c h.
Proof. by destruct c. Qed.
Notation safely := (safe status_allowed record).
Notation quiet p h := (safely p h (λ _ _, True)).

Lemma quiet_bind {A B} (p : Prog A) (f : A → Prog B) h : quiet p h → (∀ a h', quiet (f a) h') → quiet (p ≫= f) h.
Proof. intros Hp Hf. apply safe_bind. eapply safe_mono; [exact Hp|]. intros a h' _. apply Hf. Qed.
Lemma quiet_bind_ok {E A B} (p : Prog (Res E A)) (f : A → Prog (Res E B)) h :
  quiet p h → (∀ a h', quiet (f a) h') → quiet (bind_ok p f) h.
Proof. intros Hp Hf. apply quiet_bind; [exact Hp|]. by intros [a|e]. Qed.
Lemma quiet_deletable k (o : Obj k) text h : quiet (deletable k o text) h.
Proof. unfold deletable. by destruct (negb _). Qed.
Lemma quiet_generated model k kind h : quiet (deleteGeneratedPoliciesByLabel model k kind) h.
Proof.
  apply quiet_bind; [done|]. intros r h'. destruct (tolerate_absent _ _ r) as [l|e]; [|done].
  apply (safe_for_each_ok status_allowed record _ l (λ _, True)); [|done]. intros. apply quiet_deletable.
Qed.
Lemma quiet_deletion m h : quiet (handleDeletion m) h.
Proof.
  unfold handleDeletion. destruct (negb _); [done|].
  apply quiet_bind_ok; [apply quiet_generated|]. intros _ h1. apply quiet_bind_ok; [apply quiet_generated|]. intros _ h2.
  apply quiet_bind_ok; [|done]. unfold GetBackendHandler. repeat case_match; simplify_eq; done.
Qed.

Context `{SL : !StatusConditionLaws}.

Lemma with_phase_ready m phase message reason :
  condition_true (mo_Conditions (mo_of (with_phase m phase message reason))) "Ready" = String.eqb phase "Ready".
Proof.
  unfold with_phase, set_condition. cbn [set_mo mo_of body mo_Status set_conditions mo_Conditions].
  rewrite (condition_true_set_eq {| c_Type := "Ready"; c_Status := _ |}). cbn [c_Status]. by destruct (String.eqb phase "Ready").
Qed.
Lemma quiet_update m phase message reason snapshot h :
  (phase = "Ready" → served h m ∧ governed h (key_of m) ∧ Endpoint (mo_of m) ≠ "") →
  (phase = "Pending" ∨ phase = "Unhealthy" → Endpoint (mo_of m) = "") →
  quiet (updateStatusWithReason m phase message reason snapshot) h.
Proof.
  intros Hr Hp. unfold updateStatusWithReason. cbv zeta. case_bool_decide; [done|]. split; [|done].
  split; [apply with_phase_ready|]. split; [exact Hr|exact Hp].
Qed.
(** A phase that is no claim. *)
Lemma quiet_other m phase message reason snapshot h :
  phase = "Failed" ∨ phase = "Invalid" ∨ Endpoint (mo_of m) = "" ∧ phase ≠ "Ready" →
  quiet (updateStatusWithReason m phase message reason snapshot) h.
Proof.
  intros Hp. apply quiet_update.
  - intros ->. by destruct Hp as [?|[?|[_ ?]]].
  - intros Hq. destruct Hp as [->|[->|[? _]]]; [| |done]; destruct Hq; done.
Qed.
Lemma quiet_reported p h : quiet p h → quiet (reported p) h.
Proof. intros Hp. by apply quiet_bind. Qed.
Lemma quiet_unsupported m kind snapshot h : quiet (unsupported m kind snapshot) h.
Proof. apply quiet_reported, quiet_other. by left. Qed.
Lemma quiet_failed m message snapshot e h : quiet (failed_with m message snapshot e) h.
Proof. apply quiet_bind; [apply quiet_other; by left|done]. Qed.
Lemma quiet_route_failed m kind snapshot e h : quiet (route_failed m kind snapshot e) h.
Proof.
  unfold route_failed. destruct (is_sentinel _ _); [apply quiet_unsupported|].
  do 2 (destruct (is_sentinel _ _); [apply quiet_reported, quiet_other; by do 2 right|]). apply quiet_failed.
Qed.

Lemma runtime_reconditioned m governed ready notReady :
  reconditioned m (if ready : bool then markRuntimeReady (setGovernanceCondition m governed)
                   else markRuntimeNotReady (setGovernanceCondition m governed) notReady).
Proof.
  assert (Hg : reconditioned m (setGovernanceCondition m governed)).
  { unfold setGovernanceCondition. destruct governed, (was_governed m); apply reconditioned_set, reconditioned_refl. }
  destruct ready; [by apply reconditioned_set|]. unfold markRuntimeNotReady.
  destruct (if String.eqb notReady.1 "" then _ else notReady). by apply reconditioned_set.
Qed.
Lemma quiet_conclude m isGoverned ready notReady snapshot h :
  (isGoverned = true → governed h (key_of m)) → (ready = true → served h m ∧ Endpoint (mo_of m) ≠ "") →
  quiet (conclude m isGoverned ready notReady snapshot) h.
Proof.
  intros Hg Hr. eapply (safe_step status_allowed _ _ h h); [reflexivity|apply identity_spec, runtime_reconditioned; apply status_reads|].
  intros m' h' Hh _ [f ->]. cbv zeta.
  destruct isGoverned, ready; cbn [deriveModelPhase]; (apply quiet_bind_ok; [|done]); apply quiet_update; try done; [|by intros [?|?]].
  intros _. destruct (Hr eq_refl) as [Hs He]. split; [eapply served_mono; [exact Hh|exact Hs]|].
  split; [eapply governed_mono; [exact Hh|by apply Hg]|exact He].
Qed.

Lemma keep_alias_same m alias : Endpoint (mo_of (keep_alias alias m)) = Endpoint (mo_of m) ∧ key_of (keep_alias alias m) = key_of m
  ∧ ∀ h, served h m → served h (keep_alias alias m).
Proof. unfold keep_alias. destruct alias as [a|e]; [destruct (String.eqb a "")|]; done. Qed.

Lemma quiet_backend m hd h : GetBackendHandler (ModelKind (body m)) = Some hd → quiet (reconcile_backend hd m) h.
Proof.
  intros (handles & routed & Hl & Hm)%(backend_laws status_allowed status_reads). unfold reconcile_backend. cbv zeta.
  eapply (safe_step status_allowed _ _ h h); [reflexivity|eapply route_law; [exact Hl|exact Hm]|]. intros o h1 _ _ [Hs Hr].
  destruct (ro_Err o); [apply quiet_route_failed|]. assert (Hm1 : handles (ro_Model o)) by (eapply handles_law; [exact Hl|exact Hs|exact Hm]).
  eapply (safe_step status_allowed _ _ h1 h1); [reflexivity|eapply status_law; [exact Hl|exact Hm1|by apply Hr]|].
  intros [[endpoint ready]|e] h2 _ _ Hst.
  - apply safe_bind. eapply safe_mono; [apply reads_extend; [apply status_reads|eapply alias_law; exact Hl]|]. cbv beta. intros alias h3 Hh3.
    eapply (safe_step status_allowed _ _ h3 h3); [reflexivity|apply governance_spec, status_reads|].
    intros isGoverned h4 Hh4 _ Hg. cbv zeta.
    apply quiet_conclude; [exact Hg|]. intros ->. destruct (Hst endpoint eq_refl) as [Hv Hne].
    destruct (keep_alias_same (set_mo (set_endpoint (chosen_endpoint (ro_Model o) endpoint)) (ro_Model o)) alias) as (-> & _ & Hk).
    split; [apply Hk; eapply served_mono; [|exact Hv]; by etransitivity|].
    cbn. unfold chosen_endpoint. by destruct (String.eqb_spec (EndpointOverride (body (ro_Model o))) "").
  - unfold status_failed. destruct (is_sentinel _ _); [apply quiet_unsupported|apply quiet_failed].
Qed.

(** C10 Whatever the API server answers, every status that reconciliation writes
    has the Ready condition exactly when its phase is Ready; and when it is,
    replies of this very reconciliation show why: a live MaaSSubscription and a
    live MaaSAuthPolicy of tenant namespaces that name the model; for an
    ExternalModel a route that the recorded Gateway, the model's tenant's, has
    accepted; for another model a route on that Gateway and a backend that
    reports Ready; and the endpoint is not empty.  A Pending or Unhealthy model
    shows no endpoint. *)
Theorem ready_is_justified req : safe status_allowed record (Reconcile req) [] (λ _ _, True).
Proof.
  apply quiet_bind; [done|]. intros [m|e] h; [|done]. unfold reconcile_model.
  destruct (negb _); [apply quiet_deletion|].
  destruct (empty_spec m); [apply quiet_reported, quiet_other; by right; left|].
  apply quiet_bind_ok; [unfold ensure_finalizer; by destruct (contains_finalizer _ _)|]. intros m' h'.
  destruct (GetBackendHandler _) as [hd|] eqn:E; [by apply quiet_backend|]. apply quiet_reported, quiet_other. by left.
Qed.
End Protocol.

(** ** Deletion *)

Section Deletion.
Context `{TS : TenantScope} `{MR : MaaSModelRefReconciler} `{SC : StatusConditions} `{CU : ControllerUtil}.
Variable model : MaaSModelRef.

Definition policies_call (k : Kind) : Call (Res ApiErr (list (Obj k))) :=
  ListAll k (Namespace (meta model)) (<[trlpLabelModel := Name (meta model)]> {[ "app.kubernetes.io/managed-by" := "maas-controller" ]}).
Definition policy_kind (k : Kind) : Prop := k = KAuthPolicy ∨ k = KTRLP.
Definition deleted {k} (h : History) (p : Obj k) : Prop :=
  ∃ d, answered h (Delete k p false) d ∧ ignore_not_found tt d = Ok tt.
(** The policies of the kind are listed and those under management deleted, or
    there is no such kind. *)
Definition purged (h : History) (k : Kind) : Prop :=
  ∃ r, answered h (policies_call k) r
    ∧ match r with
      | Ok l => ∀ p, p ∈ l → isManaged (meta p) = true → deleted h p
      | Err e => isNotFound e = true ∨ isNoMatch e = true
      end.
Definition update_allowed (k : Kind) : History → Obj k → Prop :=
  match k return History → Obj k → Prop with
  | KModelRef => λ h o, o = unfinalized model ∧ ∀ k, policy_kind k → purged h k
  | _ => λ _ _, False
  end.
Definition deletion_allowed (X : Type) (c : Call X) (h : History) : Prop :=
  match c with
  | Get _ _ _ | ListAll _ _ _ | ListBy _ _ _ | Eventf _ _ _ _ => True
  | Delete k p _ => policy_kind k ∧ isManaged (meta p) = true ∧ ∃ l, answered h (policies_call k) (Ok l) ∧ p ∈ l
  | Update k o => update_allowed k h o
  | _ => False
  end.
Notation safely := (safe deletion_allowed record).

Lemma purged_mono h h' k : extends h h' → purged h k → purged h' k.
Proof.
  intros He (r & Ha & Hr). exists r. split; [by eapply answered_mono|]. destruct r as [l|e]; [|exact Hr].
  intros p Hp Hm. destruct (Hr p Hp Hm) as (d & Hd & E). exists d. split; [by eapply answered_mono|exact E].
Qed.
Lemma deletable_safe k kind (o : Obj k) l h : policy_kind k → answered h (policies_call k) (Ok l) → o ∈ l →
  safely (deletable k o kind) h (λ r h', extends h h' ∧ (r = Ok tt → isManaged (meta o) = true → deleted h' o)).
Proof.
  intros Hk Ha Ho. unfold deletable. destruct (isManaged (meta o)) eqn:Em; cbn [negb]; [|by split].
  split; [split_and!; [done..|by exists l]|]. intros d. split; [apply extends_record|]. intros Hd _.
  exists d. split; [apply answered_record|]. by destruct d as [[]|e]; cbn in *; [|destruct (isNotFound e)].
Qed.
Lemma all_deletable k kind (all l : list (Obj k)) h : policy_kind k → answered h (policies_call k) (Ok all) → (∀ o, o ∈ l → o ∈ all) →
  safely (for_each_ok (λ o, deletable k o kind) l) h
    (λ r h', extends h h' ∧ (r = Ok tt → ∀ o, o ∈ l → isManaged (meta o) = true → deleted h' o)).
Proof.
  intros Hk. revert h. induction l as [|o l IH]; intros h Ha Hl; cbn [for_each_ok].
  { split; [reflexivity|]. by intros _ o Ho%not_elem_of_nil. }
  apply safe_bind_ok. eapply safe_mono; [eapply deletable_safe; [exact Hk|exact Ha|by apply Hl; left]|]. cbv beta.
  intros [[]|e] h1 [Hh Ho]; [|by split]. eapply safe_mono; [apply IH|].
  - by eapply answered_mono.
  - intros x Hx. apply Hl. by right.
  - cbv beta. intros r h2 [Hh' Hr]. split; [by etransitivity|]. intros E x Hx Hm.
    apply elem_of_cons in Hx as [->|Hx]; [|by apply Hr].
    destruct (Ho eq_refl Hm) as (d & Hd & E'). exists d. split; [by eapply answered_mono|exact E'].
Qed.
Lemma purge_safe k kind h : policy_kind k →
  safely (deleteGeneratedPoliciesByLabel (key_of model) k kind) h (λ r h', extends h h' ∧ (r = Ok tt → purged h' k)).
Proof.
  intros Hk. apply safe_read; [by intros ? []|done|]. intros [l|e] He; cbn [tolerate_absent].
  - eapply safe_mono; [eapply all_deletable; [exact Hk|apply answered_record|done]|]. cbv beta. intros r h' [Hh Hr].
    split; [by etransitivity|]. intros E. exists (Ok l).
    split; [eapply answered_mono; [exact Hh|apply answered_record]|by apply Hr].
  - destruct (_ || _) eqn:E; cbn [for_each_ok]; (split; [exact He|]); [|done].
    intros _. exists (Err e). split; [apply answered_record|]. by apply orb_true_iff in E.
Qed.

(** Deleting a model: whatever the API server answers, only AuthPolicies and
    TokenRateLimitPolicies listed in its namespace under its name are deleted,
    and none that opted out of management; the one object updated is the model
    without its finalizer, and only after every listed policy under management
    is deleted or was gone already, or the kind itself does not exist.  Success
    means that the finalizer was removed. *)
Theorem model_deletion_protocol :
  safe deletion_allowed record (handleDeletion model) [] (λ r h,
    r = Ok 0%Z → contains_finalizer (Finalizers (meta model)) maasModelFinalizer = true →
    ∃ u, answered h (Update KModelRef (unfinalized model)) (Ok u)).
Proof.
  unfold handleDeletion. destruct (contains_finalizer _ _); [|done]. cbn [negb].
  apply safe_bind_ok. eapply safe_mono; [apply purge_safe; by left|]. cbv beta. intros [[]|e] h1 [H1 P1]; [|done].
  apply safe_bind_ok. eapply safe_mono; [apply purge_safe; by right|]. cbv beta. intros [[]|e] h2 [H2 P2]; [|done].
  apply safe_bind_ok.
  assert (Hu : safely (updated ← call (Update KModelRef (unfinalized model)); Ret (res_map (λ _, 0%Z) (map_err of_api updated))) h2
    (λ r h, r = Ok 0%Z → true = true → ∃ u, answered h (Update KModelRef (unfinalized model)) (Ok u))).
  { split.
    - split; [done|]. intros k [->| ->]; [eapply purged_mono; [exact H2|]|]; auto.
    - intros [u|e]; [|done]. intros _ _. exists u. apply answered_record. }
  unfold GetBackendHandler. repeat case_match; simplify_eq; exact Hu.
Qed.
End Deletion.

(** ** Models that share an alias *)

Section Identity.
Context `{TS : TenantScope} `{MR : MaaSModelRefReconciler} `{SC : StatusConditions} `{CU : ControllerUtil}.
Notation free := (λ X (c : Call X) (h : History), True).

(** [other] makes the identity of [model] ambiguous. *)
Definition ambiguous (model other : MaaSModelRef) : bool :=
  negb (String.eqb (ResolvedModelAlias (mo_of model)) "") && conflicts_with model other.
Lemma ambiguous_sym a b : ambiguous a b = ambiguous b a.
Proof.
  unfold ambiguous, conflicts_with. rewrite (String.eqb_sym (Name (meta b))), (String.eqb_sym (ResolvedTenantRef (mo_of b))).
  destruct (String.eqb_spec (ResolvedModelAlias (mo_of b)) (ResolvedModelAlias (mo_of a))) as [E|E].
  - by rewrite E, String.eqb_refl.
  - rewrite (proj2 (String.eqb_neq (ResolvedModelAlias (mo_of a)) (ResolvedModelAlias (mo_of b)))) by congruence. by rewrite !andb_false_r.
Qed.

Lemma conflict_message_length m l : (len (conflict_message m l) ≤ 1024)%Z.
Proof.
  unfold conflict_message. cbv zeta. generalize (shared_with m l ("namespace " +:+ Namespace (meta m)) +:+
    ". Body-based routing selects a backend by model identity alone and cannot disambiguate MaaSModelRefs that resolve to the same identity "
    +:+ String "226" (String "128" (String "148" ""))
    +:+ " requests may be routed to the wrong backend or evaluated against the wrong subscription. "
    +:+ "Give each model a unique spec.model.name to resolve this, or serve the model per tenant via modelRefs with distinct spec.tenantRef.").
  intros msg. destruct (Z.ltb_spec 1024 (len msg)) as [H|H]; [|exact H].
  unfold len in *. rewrite str_length_app, str_take_length by lia. cbn. lia.
Qed.
Lemma conflict_names_elem m l n : n ∈ conflict_names m l ↔ ∃ x, x ∈ l ∧ conflicts_with m x = true ∧ Name (meta x) = n.
Proof.
  unfold conflict_names, sort_strings. rewrite isort_elem, list_elem_of_fmap. split.
  - intros (x & -> & [Hx Hc]%elem_of_filtered). by exists x.
  - intros (x & Hx & Hc & <-). exists x. split; [done|]. rewrite list_elem_of_In, filter_In, <- list_elem_of_In. done.
Qed.

Context `{SL : !StatusConditionLaws}.

Lemma identity_condition_set m status reason message :
  identity_condition (set_condition ConditionModelIdentityUnique status reason message m)
  = Some {| c_Type := ConditionModelIdentityUnique; c_Status := status; c_Reason := reason; c_Message := message;
            c_ObservedGeneration := Generation (meta m) |}.
Proof.
  unfold identity_condition, set_condition. cbn [set_mo mo_of body mo_Status set_conditions mo_Conditions].
  apply (find_set_eq {| c_Type := ConditionModelIdentityUnique; c_Status := status; c_Reason := reason; c_Message := message;
            c_ObservedGeneration := Generation (meta m) |}).
Qed.

(** What the condition must be after the reply to the list of siblings. *)
Definition identity_status (m : MaaSModelRef) (r : Res ApiErr (list MaaSModelRef)) : string :=
  match r with
  | Ok l => if existsb (ambiguous m) l then ConditionFalse else ConditionTrue
  | Err _ => ConditionUnknown
  end.
Definition names_siblings (m : MaaSModelRef) (r : Res ApiErr (list MaaSModelRef)) (c : Condition) : Prop :=
  c_Status c = ConditionFalse → ∃ l names, r = Ok l ∧ c_Message c = conflict_message m names ∧ (len (c_Message c) ≤ 1024)%Z
    ∧ ∀ n, n ∈ names ↔ ∃ x, x ∈ l ∧ ambiguous m x = true ∧ Name (meta x) = n.

Lemma identity_set_spec m l c : ResolvedModelAlias (mo_of m) ≠ "" →
  identity_condition (setModelIdentityCondition m (conflict_names m l)) = Some c →
  c_Status c = identity_status m (Ok l) ∧ names_siblings m (Ok l) c.
Proof.
  intros Ha. assert (Hamb : ∀ x, ambiguous m x = conflicts_with m x).
  { intros x. unfold ambiguous. by rewrite (proj2 (String.eqb_neq _ _) Ha). }
  assert (Hn := conflict_names_elem m l). cbn [identity_status].
  destruct (conflict_names m l) as [|n names] eqn:El; cbn [setModelIdentityCondition]; rewrite identity_condition_set; intros [= <-]; cbn [c_Status].
  - destruct (existsb (ambiguous m) l) eqn:Ee; [|by split].
    apply existsb_elem in Ee as (x & Hx & Hc). rewrite Hamb in Hc.
    destruct (not_elem_of_nil (Name (meta x))). apply Hn. by exists x.
  - destruct (existsb (ambiguous m) l) eqn:Ee.
    + split; [done|]. intros _. exists l, (n :: names). split_and!; [done..|apply conflict_message_length|].
      intros n'. rewrite Hn. split; intros (x & Hx & Hc & Hn'); exists x; [rewrite Hamb|rewrite <- Hamb]; done.
    + destruct (proj1 (Hn n)) as (x & Hx & Hc & _); [by left|].
      assert (existsb (ambiguous m) l = true) as E'; [|congruence]. apply existsb_elem. exists x. by rewrite Hamb.
Qed.

(** The ModelIdentityUnique condition of a model is Unknown until its alias
    is resolved or when its siblings cannot be listed; otherwise it is False
    exactly when a model of another name in its namespace has the same alias
    and the same tenant, its message then naming those models within 1024
    bytes, and True when there is none.  Being ambiguous is symmetric: either
    both models are told or neither.  Nothing else of the model changes. *)
Theorem identity_is_unique m :
  (∀ a b, ambiguous a b = ambiguous b a)
  ∧ safe free record (checkModelIdentityConflict m) [] (λ m' h, reconditioned m m' ∧ ∃ c, identity_condition m' = Some c ∧
      if String.eqb (ResolvedModelAlias (mo_of m)) "" then c_Status c = ConditionUnknown
      else ∃ r, answered h (ListAll KModelRef (Namespace (meta m)) ∅) r ∧ c_Status c = identity_status m r ∧ names_siblings m r c).
Proof.
  split; [apply ambiguous_sym|]. unfold checkModelIdentityConflict, findModelAliasConflicts.
  destruct (String.eqb_spec (ResolvedModelAlias (mo_of m)) "") as [Ha|Ha].
  { split; [apply reconditioned_set, reconditioned_refl|]. rewrite identity_condition_set. by eexists. }
  apply safe_bind, safe_bind, safe_bind. split; [done|]. intros [l|e]; cbn [safe map_err].
  - assert (Hc : ∃ c, identity_condition (setModelIdentityCondition m (conflict_names m l)) = Some c).
    { destruct (conflict_names m l); cbn [setModelIdentityCondition]; rewrite identity_condition_set; by eexists. }
    destruct Hc as [c Hc]. cbv zeta. apply safe_bind.
    eapply safe_mono; [apply reads_extend; [done|unfold identity_events; solve_reads]|]. cbv beta. intros _ h Hh.
    split; [destruct (conflict_names m l); apply reconditioned_set, reconditioned_refl|]. exists c. split; [exact Hc|].
    exists (Ok l). split; [eapply answered_mono; [exact Hh|apply answered_record]|by apply identity_set_spec].
  - split; [apply reconditioned_set, reconditioned_refl|]. rewrite identity_condition_set. eexists. split; [reflexivity|].
    exists (Err e). split_and!; [apply answered_record|done|by intros [=]].
Qed.

(** No missed wake-up: when the alias or the tenant of a model changes, or it
    is created or deleted, every model of its namespace for which the change
    makes a difference is enqueued, provided the list of the namespace can be
    read; it is then read before the handler returns. *)
Theorem siblings_are_woken old new :
  Name (meta old) = Name (meta new) →
  let woken s keys h := ∃ r, answered h (ListAll KModelRef (Namespace (meta new)) ∅) r
    ∧ ∀ l, r = Ok l → s ∈ l → key_of s ∈ keys in
  safe free record (on_model_updated old new) [] (λ keys h, ∀ s, ambiguous s old ≠ ambiguous s new → woken s keys h)
  ∧ safe free record (on_model_created new) [] (λ keys h, ∀ s, ambiguous s new = true → woken s keys h)
  ∧ safe free record (on_model_deleted new) [] (λ keys h, ∀ s, ambiguous s new = true → woken s keys h).
Proof.
  intros Hname woken. assert (He : ∀ oldAlias,
    safe free record (enqueueSiblingsWithAlias new oldAlias) [] (λ keys h, ∀ s, Name (meta s) ≠ Name (meta new) →
      has_alias (ResolvedModelAlias (mo_of new)) s = true ∨ has_alias oldAlias s = true → woken s keys h)).
  { intros oldAlias. unfold enqueueSiblingsWithAlias. cbv zeta. destruct (_ && _) eqn:E.
    { apply andb_true_iff in E as [E1 E2]. intros s _ [H|H]; unfold has_alias in H; [by rewrite E1 in H|by rewrite E2 in H]. }
    split; [done|]. intros r s Hs Ha. exists r. split; [apply answered_record|]. intros l -> Hl. cbn [listed_or_none].
    apply list_elem_of_fmap. exists s. split; [done|]. rewrite list_elem_of_In, filter_In, <- list_elem_of_In. split; [done|].
    rewrite (proj2 (String.eqb_neq _ _) Hs). cbn [negb andb]. apply orb_true_iff. exact Ha. }
  assert (Hamb : ∀ s m, ambiguous s m = true →
    Name (meta s) ≠ Name (meta m) ∧ has_alias (ResolvedModelAlias (mo_of m)) s = true).
  { intros s m. unfold ambiguous, conflicts_with, has_alias. rewrite !andb_true_iff, !negb_true_iff, !String.eqb_eq, !String.eqb_neq.
    intros (Ha & [Hn He'] & _). split; [congruence|]. split; congruence. }
  assert (Hnew : safe free record (enqueueSiblingsWithAlias new "") [] (λ keys h, ∀ s, ambiguous s new = true → woken s keys h)).
  { eapply safe_mono; [apply He|]. cbv beta. intros keys h H s [Hs Ha]%Hamb. apply H; [exact Hs|by left]. }
  split; [|by split]. unfold on_model_updated. destruct (siblingConflictFieldsChanged old new) eqn:Ec.
  - eapply safe_mono; [apply He|]. cbv beta. intros keys h H s Hd.
    destruct (ambiguous s old) eqn:Eo; [|destruct (ambiguous s new) eqn:En; [|done]].
    + apply Hamb in Eo as [Hs Ha]. rewrite Hname in Hs. apply H; [exact Hs|by right].
    + apply Hamb in En as [Hs Ha]. apply H; [exact Hs|by left].
  - intros s []. unfold siblingConflictFieldsChanged in Ec. apply orb_false_iff in Ec as [Ea Et].
    apply negb_false_iff, String.eqb_eq in Ea, Et. unfold ambiguous, conflicts_with. by rewrite Hname, Ea, Et.
Qed.
End Identity.
End ModelProtocol.
