(* ===== verification/ModelPhase.v ===== *)
(** * ModelPhase: the phase of a model on a cluster that answers

    [ModelController] against an API server that does what it is asked: the
    phase a reconciliation leaves is the one [deriveModelPhase] gives for what
    the cluster holds. *)

From S2P Require Import Prelude GoStrings RateTier Kube AITenant TenantLookup ModelRoutes Cluster LookupFacts SubscriptionPolicy SubscriptionRefinement InferenceObjectives ModelBackends ModelController ModelSafety ModelProtocol.
From Stdlib Require String.
Local Open Scope string_scope.

Module ModelPhase.
Import Kube AITenant TenantLookup ModelRoutes Cluster LookupFacts SubscriptionPolicy InferenceObjectives ModelBackends ModelController ModelSafety ModelProtocol.

Import ModelProtocol.

(** ** From every reply to the replies of a cluster *)

Lemma safe_always {A M} allowed observe (p : Prog A) (m : M) Q cl :
  safe allowed observe p m Q → always p cl (λ a _, ∃ m', Q a m').
Proof.
  revert m cl. induction p as [a|X c k IH]; intros m cl; cbn; [by eauto|]. intros [_ Hk] x cl' _. by eapply IH.
Qed.
Lemma only_reads_always {A} (p : Prog A) cl : only_reads p → always p cl (λ _ cl', cl' = cl).
Proof.
  induction p as [a|X c k IH]; cbn; [done|]. intros [Hc Hk] x cl' Hx.
  assert (cl' = cl) as ->. { destruct c; cbn in Hx; try discriminate Hc; [by destruct Hx as [-> _]..|exact Hx|by destruct Hx as [-> _]]. }
  by apply IH.
Qed.
Lemma always_and {A} (p : Prog A) cl Q Q' : always p cl Q → always p cl Q' → always p cl (λ a cl', Q a cl' ∧ Q' a cl').
Proof.
  revert cl. induction p as [a|X c k IH]; intros cl; cbn; [by split|]. intros H H' x cl' Hx. apply IH; [by apply H|by apply H'].
Qed.
(** A program that reads, with a property of its value for every reply. *)
Lemma safe_reads_always {A} (p : Prog A) cl Q :
  only_reads p → safe (λ _ _ _, True) record p [] Q → reads p cl (λ a, ∃ h, Q a h).
Proof.
  intros Hp HQ. eapply always_weaken; [apply always_and; [by apply only_reads_always|by apply (safe_always _ _ _ _ _ cl) in HQ]|].
  intros a cl' [-> H]. by split.
Qed.

Lemma phase_ready governed ready : String.eqb (deriveModelPhase governed ready).1 "Ready" = governed && ready.
Proof. by destruct governed, ready. Qed.

Section Phase.
Context `{TS : TenantScope} `{MR : MaaSModelRefReconciler} `{SC : StatusConditions} `{CU : ControllerUtil}.
Variable cl : Cluster.

(** ** Governance *)

Definition subscribes (model : Key) (s : MaaSSubscription) : Prop :=
  cl KSubscription !! key_of s = Some s ∧ live s = true ∧ shown model ∈ modelRefIndex s
  ∧ allowed_namespace cl (Namespace (meta s)) = true.
Definition grants (model : Key) (p : MaaSAuthPolicy) : Prop :=
  cl KMaaSAuthPolicy !! key_of p = Some p ∧ live p = true ∧ model ∈ ap_ModelRefs (body p)
  ∧ allowed_namespace cl (Namespace (meta p)) = true.
Definition is_governed (model : Key) : Prop := (∃ s, subscribes model s) ∧ ∃ p, grants model p.

Hypothesis Hcl : well_stored cl.

Lemma head_filter_some {B} (l : list (Object B)) (P : Object B → bool) :
  is_Some (head (List.filter P l)) ↔ ∃ o, o ∈ l ∧ P o = true.
Proof.
  split.
  - intros [o Ho]. exists o. apply elem_of_filtered. destruct (List.filter P l); [done|]. injection Ho as ->. by left.
  - intros (o & Ho & HP). assert (o ∈ List.filter P l) as H.
    { rewrite list_elem_of_In, filter_In, <- list_elem_of_In. done. }
    destruct (List.filter P l); [by apply not_elem_of_nil in H|by eexists].
Qed.
Lemma stored_at {k} (o : Obj k) : (∃ key, cl k !! key = Some o) ↔ cl k !! key_of o = Some o.
Proof. split; [|by eexists]. intros [key H]. assert (E := Hcl _ _ _ H). by rewrite E. Qed.

(** The first of a list that is of a tenant. *)
Lemma first_of_tenant {k} (p : Prog (Res GoErr (list (Obj k)))) (P : Obj k → Prop) :
  reads p cl (λ r, ∃ l, r = Ok l ∧ ∀ o, o ∈ l ↔ cl k !! key_of o = Some o ∧ P o) →
  reads (r ← p; match r with Ok l => kept ← filter_tenants ∅ l; Ret (head kept) | Err _ => Ret None end) cl
    (λ r, is_Some r ↔ ∃ o, (cl k !! key_of o = Some o ∧ P o) ∧ allowed_namespace cl (Namespace (meta o)) = true).
Proof.
  intros Hp. apply reads_bind. eapply reads_mono; [exact Hp|]. intros _ (l & -> & Hl).
  apply reads_bind. eapply reads_mono; [apply filter_tenants_reads; by intros ns b|]. intros kept ->. apply reads_ret.
  rewrite head_filter_some. split; intros (o & Ho & Hns); exists o; (split; [by apply Hl|exact Hns]).
Qed.
Lemma any_subscription_reads model :
  reads (findAnySubscriptionForModel model) cl (λ r, is_Some r ↔ ∃ s, subscribes model s).
Proof.
  eapply reads_mono; [apply (first_of_tenant (k := KSubscription) _ (λ s, shown model ∈ modelRefIndex s ∧ live s = true))|].
  - eapply reads_mono; [apply SubscriptionRefinement.find_all_reads|]. intros _ (l & -> & _ & Hl). exists l. split; [done|].
    intros s. rewrite Hl, stored_at. done.
  - intros r ->. unfold subscribes. split; intros (s & H); exists s; tauto.
Qed.
Lemma any_policy_reads model : reads (findAnyAuthPolicyForModel model) cl (λ r, is_Some r ↔ ∃ p, grants model p).
Proof.
  eapply reads_mono; [apply (first_of_tenant (k := KMaaSAuthPolicy) _ (λ p, live p = true ∧ model ∈ ap_ModelRefs (body p)))|].
  - apply reads_bind_ok, reads_bind. intros r cl' (-> & l & -> & _ & Hl). split; [done|]. apply reads_ret. cbn [map_err].
    apply reads_ret. eexists. split; [done|]. intros p.
    rewrite list_elem_of_In, filter_In, <- list_elem_of_In, Hl, stored_at, andb_true_iff. unfold refers_to.
    rewrite bool_decide_eq_true. split; [tauto|]. intros (? & ? & ?). split_and!; [done|by left|done..].
  - intros r ->. unfold grants. split; intros (p & H); exists p; tauto.
Qed.
Lemma governance_reads m : reads (checkGovernanceAttached m) cl (λ b, b = true ↔ is_governed (key_of m)).
Proof.
  apply reads_bind. eapply reads_mono; [apply any_subscription_reads|]. intros [s|] Hs.
  - apply reads_bind. eapply reads_mono; [apply any_policy_reads|]. intros r Hr. apply reads_ret.
    rewrite bool_decide_eq_true, Hr. split; [intros Hp; split; [by apply Hs|exact Hp]|by intros [_ Hp]].
  - apply reads_ret. split; [done|]. intros [Hg _]. apply Hs in Hg as [? [=]].
Qed.

(** ** A model served by an LLMInferenceService *)

Variables (m : MaaSModelRef) (a : AITenant) (l : Obj KLLMInferenceService).
Definition tenant_gateway_key : Key := gateway_key (GatewayRef (Status (body a))).
(** The routes KServe made for the service. *)
Definition route_of (r : HTTPRoute) : Prop :=
  cl KHTTPRoute !! key_of r = Some r ∧ Namespace (meta r) = Namespace (meta m)
  ∧ has_labels (<["app.kubernetes.io/name" := ModelName (body m)]> (<["app.kubernetes.io/component" := "llminferenceservice-router"]>
       {[ "app.kubernetes.io/part-of" := "llminferenceservice" ]})) (meta r).
(** The model names its tenant, and its routes are on the tenant's Gateway. *)
Record Deployed : Prop := {
  d_stored : cl KModelRef !! key_of m = Some m;
  d_kind : ModelKind (body m) = "LLMInferenceService";
  d_namespace : Namespace (meta m) ≠ "";
  d_tenant_named : TenantRef (body m) ≠ "";
  d_tenant : cl KAITenant !! (AITenantNamespace, TenantRef (body m)) = Some a;
  d_complete : incomplete (GatewayRef (Status (body a))) = false;
  d_routed : ∃ r, route_of r;
  d_routes r : route_of r → Hostnames (body r) ≠ [] ∧ names_gateway (Namespace (meta m)) r tenant_gateway_key;
  d_backend : cl KLLMInferenceService !! model_at m = Some l;
}.
Hypothesis Hd : Deployed.

Lemma find_parent_complete expected first gateways :
  expected ∈ gateways → find_parent expected first gateways = (true, expected).
Proof.
  revert first. induction gateways as [|g gateways IH]; intros first; cbn [find_parent]; [by intros ?%not_elem_of_nil|].
  intros H. case_bool_decide as Eg; [by subst|]. apply IH. apply elem_of_cons in H as [->|H]; [done|exact H].
Qed.

(** What the reconciliation has done to the model before its phase. *)
Definition on_the_way (m' : MaaSModelRef) : Prop := same_spec m m' ∧ HTTPRouteHostnames (mo_of m') ≠ [].
Lemma resolve_named_reads route :
  reads (resolveGatewayRef m route) cl (λ r, r = (set_mo (set_tenant (TenantRef (body m))) m, Ok (GatewayRef (Status (body a))))).
Proof.
  unfold resolveGatewayRef. cbv zeta. rewrite (proj2 (String.eqb_neq _ _) (d_tenant_named Hd)).
  apply reads_bind. eapply reads_get_some; [exact (d_tenant Hd)|]. apply reads_ret.
  assert (Hc := d_complete Hd). change (body a) with (body (B := AITenantBody) a) in Hc. by rewrite Hc.
Qed.
Lemma route_reads :
  reads (ReconcileRoute llmisvcHandler m) cl (λ o, ro_Err o = None ∧ on_the_way (ro_Model o)).
Proof.
  cbn [ReconcileRoute llmisvcHandler]. unfold validateLLMISvcHTTPRoute. cbv zeta. apply reads_bind.
  intros r cl' (-> & routes & -> & _ & Hl). split; [done|].
  assert (Hr : ∀ x, x ∈ routes ↔ route_of x).
  { intros x. rewrite Hl, stored_at. unfold route_of, in_namespace. split; [intros (? & [?|?] & ?); [by destruct (d_namespace Hd)|]|]; tauto. }
  destruct routes as [|route rest].
  { destruct (d_routed Hd) as (x & Hx%Hr). by apply not_elem_of_nil in Hx. }
  apply reads_bind. eapply reads_mono; [apply resolve_named_reads|]. intros _ ->. cbn beta iota zeta.
  destruct (d_routes Hd route) as [Hh (p & Hp & Ht & Hk)]; [apply Hr; by left|].
  rewrite find_parent_complete; [apply reads_ret; split; [done|]; split; [by eexists|exact Hh]|].
  apply list_elem_of_fmap. exists p. split; [symmetry; exact Hk|]. by rewrite list_elem_of_In, filter_In, <- list_elem_of_In.
Qed.
Lemma status_reads_exact m' : on_the_way m' →
  reads (HandlerStatus llmisvcHandler m') cl (λ r, ∃ endpoint, r = Ok (endpoint, llmisvc_ready l) ∧ (llmisvc_ready l = true → endpoint ≠ "")).
Proof.
  intros [[st ->] Hh]. cbn [HandlerStatus llmisvcHandler]. unfold llmisvc_Status. apply reads_bind.
  eapply reads_get_some; [exact (d_backend Hd)|]. destruct (llmisvc_ready l); cbn [negb]; [|apply reads_ret; by eexists].
  cbv zeta. destruct (String.eqb_spec (getEndpointFromLLMISvc l (HTTPRouteHostnames (mo_of (set_mo (λ _, st) m)))) "") as [E|E]; cbn [negb].
  - apply reads_bind_ok. unfold llmisvc_GetModelEndpoint. cbv zeta.
    destruct (HTTPRouteHostnames _); [done|]. apply reads_ret. apply reads_ret. by eexists.
  - apply reads_ret. by eexists.
Qed.
Lemma alias_reads m' : same_spec m m' → reads (ResolveModelAlias llmisvcHandler m') cl (λ r, r = Ok (llmisvc_alias m l)).
Proof.
  intros [st ->]. cbn [ResolveModelAlias llmisvcHandler]. apply reads_bind. eapply reads_get_some; [exact (d_backend Hd)|].
  by apply reads_ret.
Qed.

(** ** The status written *)

Lemma update_leaves m1 phase message old :
  cl KModelRef !! key_of m1 = Some old →
  always (updateStatus m1 phase message (mo_of old)) cl (λ r cl', r = Ok tt ∧
    ∃ m', cl' KModelRef !! key_of m1 = Some m' ∧ mo_of m' = mo_of (with_phase m1 phase message "")).
Proof.
  intros Ho. unfold updateStatus, updateStatusWithReason. cbv zeta. case_bool_decide as E.
  { split; [done|]. exists old. by split. }
  intros r cl' Hr. cbn [replies] in Hr. change (key_of (with_phase m1 phase message "")) with (key_of m1) in Hr.
  rewrite Ho in Hr. destruct Hr as (o' & -> & _ & Hb & Hc & _). split; [done|]. exists o'. split; [exact Hc|].
  unfold mo_of. by rewrite Hb.
Qed.
Lemma reconcile_llmisvc x : ModelKind (body x) = "LLMInferenceService" → live x = true →
  contains_finalizer (Finalizers (meta x)) maasModelFinalizer = true →
  reconcile_model x = reconcile_backend llmisvcHandler x.
Proof.
  destruct x as [mt b]. unfold reconcile_model, empty_spec, ensure_finalizer, live. cbn [body meta]. intros Hk Hl Hf.
  rewrite Hl, Hf. unfold bind_ok. cbn [negb mbind prog_bind body]. by rewrite Hk.
Qed.
Lemma conflict_only_reads m1 : only_reads (checkModelIdentityConflict m1).
Proof. unfold checkModelIdentityConflict, findModelAliasConflicts, identity_events. solve_reads. Qed.
(** The phase, the endpoint and the alias of the status. *)
Definition left_at (m1 : MaaSModelRef) (phase : string) (m' : MaaSModelRef) : Prop :=
  mo_Phase (mo_of m') = phase ∧ ResolvedModelAlias (mo_of m') = ResolvedModelAlias (mo_of m1)
  ∧ Endpoint (mo_of m') = if String.eqb phase "Ready" then Endpoint (mo_of m1) else "".
Lemma conclude_leaves m1 governed ready notReady old :
  cl KModelRef !! key_of m1 = Some old →
  always (conclude m1 governed ready notReady (mo_of old)) cl (λ r cl', r = Ok (requeueWhileBackendNotReady ready) ∧
    ∃ m', cl' KModelRef !! key_of m1 = Some m' ∧ left_at m1 (deriveModelPhase governed ready).1 m').
Proof.
  intros Ho. eapply always_reads.
  - apply safe_reads_always; [apply conflict_only_reads|].
    apply (identity_spec _ (λ _ _ _ _, I) m1). apply runtime_reconditioned.
  - cbv beta zeta. intros m2 (h & _ & f & ->).
    assert (Hup : ∀ phase message m3, key_of m3 = key_of m1 →
      mo_of m3 = (if String.eqb phase "Ready" then id else set_endpoint "") (set_conditions f (mo_of m1)) →
      always (_ <-! updateStatus m3 phase message (mo_of old) ;; Ret (Ok (requeueWhileBackendNotReady ready))) cl
        (λ r cl', r = Ok (requeueWhileBackendNotReady ready) ∧ ∃ m', cl' KModelRef !! key_of m1 = Some m' ∧ left_at m1 phase m')).
    { intros phase message m3 Hk Hm3. apply always_bind_ok. eapply always_weaken; [apply update_leaves; rewrite Hk; exact Ho|].
      cbv beta. intros _ cl' (-> & m' & Hm' & E). split; [done|]. rewrite Hk in Hm'. exists m'. split; [exact Hm'|].
      unfold left_at. rewrite E. cbn [with_phase set_condition set_mo mo_of body mo_Status set_conditions set_phase mo_Phase Endpoint ResolvedModelAlias].
      change (mo_Status (body m3)) with (mo_of m3). rewrite Hm3. by destruct (String.eqb phase "Ready"). }
    destruct governed, ready; cbn [deriveModelPhase]; apply Hup; reflexivity.
Qed.

(** C11 On a cluster that answers, a model of an LLMInferenceService that names
    its tenant and is routed on the tenant's Gateway gets the phase its
    governance and its backend determine: Ready when a live subscription and a
    live access policy of tenant namespaces name it and the service reports
    Ready, Unhealthy or Pending otherwise; the endpoint is shown exactly when it
    is Ready, the alias is the service's, and a model whose backend is not
    ready is looked at again. *)
Theorem phase_is_exact g :
  live m = true → contains_finalizer (Finalizers (meta m)) maasModelFinalizer = true →
  (g = true ↔ is_governed (key_of m)) →
  always (Reconcile (key_of m)) cl (λ r cl', r = Ok (requeueWhileBackendNotReady (llmisvc_ready l)) ∧
    ∃ m', cl' KModelRef !! key_of m = Some m' ∧ mo_Phase (mo_of m') = (deriveModelPhase g (llmisvc_ready l)).1
      ∧ (Endpoint (mo_of m') ≠ "" ↔ g = true ∧ llmisvc_ready l = true)
      ∧ (llmisvc_alias m l ≠ "" → ResolvedModelAlias (mo_of m') = llmisvc_alias m l)).
Proof.
  intros Hlive Hfin Hg. eapply (always_reads _ _ _ (λ r, r = Ok m)); [eapply reads_get_some; [exact (d_stored Hd)|reflexivity]|].
  intros r ->.
  rewrite (reconcile_llmisvc m (d_kind Hd) Hlive Hfin). unfold reconcile_backend. cbv zeta.
  eapply always_reads; [apply route_reads|]. intros o [Ho [Hs Hh]]. rewrite Ho.
  eapply always_reads; [apply status_reads_exact; by split|]. intros _ (endpoint & -> & He).
  eapply always_reads; [apply alias_reads; by apply same_spec_set|]. intros _ ->.
  eapply always_reads; [apply governance_reads|]. intros governed Hgov.
  set (m1 := keep_alias _ _) in *.
  assert (Hkey : key_of m1 = key_of m).
  { unfold m1. destruct Hs as [st ->]. cbn [keep_alias]. by destruct (String.eqb _ _). }
  rewrite Hkey in Hgov. assert (governed = g) as ->.
  { destruct governed, g; [done| | |done]; [by symmetry; apply Hg, Hgov|by apply Hgov, Hg]. }
  eapply always_weaken; [apply conclude_leaves; rewrite Hkey; exact (d_stored Hd)|]. cbv beta.
  rewrite Hkey. intros r' cl' (-> & m' & Hm' & Hp & Ha & Hep). split; [done|]. exists m'.
  split; [exact Hm'|]. split; [exact Hp|]. split.
  - rewrite Hep. assert (Hend : llmisvc_ready l = true → Endpoint (mo_of m1) ≠ "").
    { intros Hr. unfold m1. rewrite (proj1 (keep_alias_same _ _)). cbn. unfold chosen_endpoint.
      destruct (String.eqb_spec (EndpointOverride (body (ro_Model o))) ""); [by apply He|done]. }
    rewrite phase_ready. destruct g, (llmisvc_ready l); cbn [andb]; (split; [done|by intros [? ?]]) || (split; [done|]).
    intros _. by apply Hend.
  - intros Hne. rewrite Ha. unfold m1, keep_alias. by rewrite (proj2 (String.eqb_neq _ _) Hne).
Qed.
End Phase.
End ModelPhase.

(** ** ModelDemo: the controller of model references on a concrete cluster

    One model of an LLMInferenceService, routed on the Gateway of its tenant and
    governed by one subscription and one access policy, and the theorems of
    [ModelProtocol] and [ModelPhase] applied to it. *)
Module ModelDemo.
Import Kube AITenant TenantLookup ModelRoutes Cluster SubscriptionPolicy ModelBackends ModelController ModelSafety ModelProtocol ModelPhase.

#[local] Instance demo_scope : TenantScope := {|
  DefaultTenantNamespace := "models-as-a-service"; TenantNamespaceDiscoveryEnabled := false;
  FallbackGatewayName := "maas-default-gateway"; FallbackGatewayNamespace := "openshift-ingress" |}.
#[local] Instance demo_models : MaaSModelRefReconciler := {| AITenantNamespace := "ai-tenants"; HasRecorder := true |}.
#[local] Instance demo_conditions : StatusConditions := listed_conditions.
#[local] Instance demo_condition_laws : StatusConditionLaws := listed_conditions_laws.
#[local] Instance demo_util : ControllerUtil := listed_finalizers.

Definition new_status : MaaSModelStatus := {|
  mo_Phase := ""; Endpoint := ""; HTTPRouteName := ""; HTTPRouteNamespace := ""; HTTPRouteGatewayName := "";
  HTTPRouteGatewayNamespace := ""; HTTPRouteHostnames := []; ResolvedTenantRef := ""; ResolvedModelAlias := ""; mo_Conditions := [] |}.
Definition granite : MaaSModelRef := {|
  meta := set_finalizers [maasModelFinalizer] (new_meta "llm" "granite");
  body := {| ModelKind := "LLMInferenceService"; ModelName := "granite-7b"; EndpointOverride := ""; TenantRef := "team-a";
             mo_Guardrails := []; mo_Status := new_status |} |}.
Definition team_a : AITenant := {|
  meta := new_meta "ai-tenants" "team-a";
  body := {| Spec := {| sp_Gateway := Some "team-a"; sp_OIDC := None; sp_Guardrails := [] |};
             Status := {| Phase := "Ready"; TenantNamespace := "team-a"; Conditions := [];
                          GatewayRef := {| gr_Namespace := "gateways"; gr_Name := "team-a" |} |} |} |}.
Definition route_labels : gmap string string :=
  <["app.kubernetes.io/name" := "granite-7b"]> (<["app.kubernetes.io/component" := "llminferenceservice-router"]>
    {[ "app.kubernetes.io/part-of" := "llminferenceservice" ]}).
Definition granite_route : HTTPRoute := {|
  meta := set_labels route_labels (new_meta "llm" "granite-7b-route");
  body := {| ParentRefs := [{| pr_Group := None; pr_Kind := None; pr_Namespace := Some "gateways"; pr_Name := "team-a" |}];
             Hostnames := ["models.example.com"]; Parents := [] |} |}.
Definition granite_service : Obj KLLMInferenceService := {|
  meta := new_meta "llm" "granite-7b";
  body := {| ll_ModelName := Some "granite"; ll_Router := None; ll_Addresses := []; ll_URL := None;
             ll_Conditions := [{| c_Type := "Ready"; c_Status := "True"; c_Reason := ""; c_Message := ""; c_ObservedGeneration := 1 |}] |} |}.
Definition gold : MaaSSubscription := {|
  meta := new_meta "models-as-a-service" "gold";
  body := {|
    ss_Spec := {| ss_ModelRefs := [{| RateTier.mr_Name := "granite"; RateTier.mr_Namespace := "llm"; RateTier.TokenRateLimits := []; RateTier.Unlimited := true; RateTier.mr_Guardrails := [] |}];
                  ss_Priority := 1; ss_InferencePriority := None; ss_RateLimitIdentity := ""; ss_Guardrails := []; ss_Rest := "" |};
    ss_Status := {| ss_Phase := ""; ss_Conditions := []; ss_StatusIdentity := ""; ModelRefStatuses := [];
                    TokenRateLimitStatuses := []; FlowControlStatuses := [] |} |} |}.
Definition everyone : MaaSAuthPolicy := {|
  meta := new_meta "models-as-a-service" "everyone"; body := {| ap_ModelRefs := [("llm", "granite")]; ap_Rest := ""; ap_Status := {| ap_Phase := ""; ap_AuthPolicies := []; ap_Conditions := [] |} |} |}.

Definition one_object {k} (o : Obj k) : gmap Key (Obj k) := {[ key_of o := o ]}.
Definition demo_cluster : Cluster := λ k,
  match k return gmap Key (Obj k) with
  | KModelRef => one_object (k := KModelRef) granite
  | KAITenant => one_object (k := KAITenant) team_a
  | KHTTPRoute => one_object (k := KHTTPRoute) granite_route
  | KLLMInferenceService => one_object granite_service
  | KSubscription => one_object (k := KSubscription) gold
  | KMaaSAuthPolicy => one_object (k := KMaaSAuthPolicy) everyone
  | _ => ∅
  end.
Lemma model_cluster_stored : well_stored demo_cluster.
Proof.
  assert (H1 : ∀ k (o o' : Obj k) key, one_object o !! key = Some o' → key_of o' = key).
  { intros k o o' key. unfold one_object. intros [<- <-]%lookup_singleton_Some. done. }
  intros k key o H. destruct k; first [discriminate (eq_trans (eq_sym H) (lookup_empty key))|exact (H1 _ _ _ _ H)].
Qed.
Lemma one_object_key {k} (o : Obj k) : one_object o !! key_of o = Some o.
Proof. apply lookup_singleton_eq. Qed.
Lemma demo_deployed : Deployed demo_cluster granite team_a granite_service.
Proof.
  split.
  - exact (one_object_key (k := KModelRef) granite).
  - reflexivity.
  - discriminate.
  - discriminate.
  - exact (one_object_key (k := KAITenant) team_a).
  - reflexivity.
  - exists granite_route. split; [exact (one_object_key (k := KHTTPRoute) granite_route)|]. split; [reflexivity|].
    intros k v Hkv. exact Hkv.
  - intros r (Hr & _). change (one_object (k := KHTTPRoute) granite_route !! key_of r = Some r) in Hr.
    unfold one_object in Hr. apply lookup_singleton_Some in Hr as [_ <-]. split; [discriminate|].
    eexists. split; [left|]. split; reflexivity.
  - exact (one_object_key granite_service).
Qed.
Lemma demo_governed : is_governed demo_cluster ("llm", "granite").
Proof.
  split.
  - exists gold. split; [exact (one_object_key (k := KSubscription) gold)|]. split; [reflexivity|]. split; [left|reflexivity].
  - exists everyone. split; [exact (one_object_key (k := KMaaSAuthPolicy) everyone)|]. split; [reflexivity|]. split; [left|reflexivity].
Qed.

Lemma phase_is_exact_witness :
  always (Reconcile ("llm", "granite")) demo_cluster (λ r cl', r = Ok 0%Z ∧
    ∃ m', cl' KModelRef !! ("llm", "granite") = Some m' ∧ mo_Phase (mo_of m') = "Ready"
      ∧ (Endpoint (mo_of m') ≠ "" ↔ true = true ∧ true = true)
      ∧ ("publishers/llm/models/granite" ≠ "" → ResolvedModelAlias (mo_of m') = "publishers/llm/models/granite")).
Proof.
  apply (phase_is_exact demo_cluster model_cluster_stored granite team_a granite_service demo_deployed true); [reflexivity..|].
  split; [intros _; exact demo_governed|reflexivity].
Defined.

Lemma ready_is_justified_witness : safe status_allowed record (Reconcile ("llm", "granite")) [] (λ _ _, True).
Proof. apply ready_is_justified. Defined.

(** Two models that resolve to one alias, for one tenant. *)
Definition with_alias (name alias : string) : MaaSModelRef := {|
  meta := new_meta "llm" name;
  body := {| ModelKind := "LLMInferenceService"; ModelName := name; EndpointOverride := ""; TenantRef := "team-a"; mo_Guardrails := [];
             mo_Status := set_alias alias (set_tenant "team-a" new_status) |} |}.
Lemma identity_is_unique_witness :
  ambiguous (with_alias "a" "granite") (with_alias "b" "granite") = true
  ∧ ambiguous (with_alias "b" "granite") (with_alias "a" "granite") = true
  ∧ safe (λ X (c : Call X) (h : History), True) record (checkModelIdentityConflict (with_alias "a" "granite")) [] (λ m' _,
      reconditioned (with_alias "a" "granite") m').
Proof.
  destruct (identity_is_unique (with_alias "a" "granite")) as [Hs Hc].
  split; [reflexivity|]. split; [rewrite Hs; reflexivity|]. eapply safe_mono; [exact Hc|]. by intros m' h [H _].
Defined.
Lemma siblings_are_woken_witness :
  safe (λ X (c : Call X) (h : History), True) record (on_model_updated (with_alias "a" "") (with_alias "a" "granite")) [] (λ keys h,
    ∃ r, answered h (ListAll KModelRef "llm" ∅) r ∧ ∀ l, r = Ok l → with_alias "b" "granite" ∈ l → ("llm", "b") ∈ keys).
Proof.
  destruct (siblings_are_woken (with_alias "a" "") (with_alias "a" "granite") eq_refl) as [Hu _].
  eapply safe_mono; [exact Hu|]. cbv beta. intros keys h H. apply (H (with_alias "b" "granite")). intros E. vm_compute in E. discriminate E.
Defined.

End ModelDemo.
