(* ===== verification/AuthPolicyConvergence.v ===== *)
(** * AuthPolicyConvergence: the AuthPolicy of a Gateway settles

    What [AuthPolicyController] achieves on an API server that does what it is
    asked ([Cluster]): after one reconciliation the Gateway's AuthPolicy is the
    desired one, and is left alone; and what the synchronization at the start
    of the controller does to the policy of the default Gateway. *)

From S2P Require Import Prelude GoStrings Unstructured GuardrailResolver RateTier Kube JsonMatch GatewaySpec SubscriptionHeaders AITenant TenantLookup GuardrailCatalog ModelRoutes Cluster SubscriptionPolicy ModelController ModelSafety AuthPolicyController AuthPolicyReconcile GatewaySpecFacts AuthPolicyReads AuthPolicySafety SubscriptionHeaderFacts ModelPhase.
From Stdlib Require String.
Local Open Scope string_scope.

Module AuthPolicyConvergence.
Import Kube AITenant TenantLookup GatewaySpec GatewayHeaders GuardrailCatalog ModelRoutes Cluster SubscriptionPolicy.
Import ModelSafety AuthPolicyController AuthPolicyReconcile GatewaySpecFacts AuthPolicyReads SubscriptionHeaderFacts.

(** ** A specification matches itself *)

Lemma within_refl drop v : within drop v v.
Proof.
  revert drop. induction v as [ | | | | |l IH|m IH] using JVal_nested_ind; intros drop; try constructor.
  - induction IH as [|x l Hx _ IHl]; constructor; [apply Hx|exact IHl].
  - intros k v Hk. left. exists v. split; [exact Hk|]. rewrite Forall_forall in IH. exact (IH _ (get_in _ _ _ Hk) drop).
Qed.
Lemma matches_itself spec : wf (JObj spec) → specMatchesDesired spec (Some spec) = true.
Proof. intros Hw. apply matches_within; [exact Hw..|apply within_refl]. Qed.

Section Facts.
Context `{GR : GoRuntime} `{TS : TenantScope} `{R : AuthPolicyReconciler} `{GS : GatewaySettings}.
Context `{HC : HeaderCodec} `{NF : NestedFields} `{SF : ScalarFields} `{GA : GuardrailAPI}.
Context `{SC : StatusConditions} `{CU : ControllerUtil}.
Context `{NFL : !NestedFieldsLaws} `{GL : !GuardrailAPILaws}.

(** Header names as [subscriptionHeaderNames] answers them. *)
Definition grid_lower (names : list string) : Prop := ∀ n, n ∈ names → to_lower n = n ∧ has_prefix "x-grid-" n = true.

Lemma put_all_elem {A} (name : A → string) (v : A → JVal) l m kv :
  kv ∈ fold_left (λ m a, put (name a) (v a) m) l m → (∃ a, a ∈ l ∧ kv.1 = name a) ∨ kv ∈ m.
Proof.
  revert m. induction l as [|a l IH]; intros m; cbn [fold_left]; [by right|].
  intros [(b & Hb & E)|[->|H]%put_elem]%IH; [left; exists b; split; [by right|done]|left; exists a; split; [by left|done]|by right].
Qed.
Lemma with_headers_elem names headers kv :
  kv ∈ with_headers names headers → kv.1 ∈ names ∨ kv ∈ headers ∧ unmanaged_now names kv.1 = false.
Proof.
  intros [(n & Hn & E)|H]%(put_all_elem (λ n, n)); [left; by rewrite E|].
  right. apply list_elem_of_In, filter_In in H as [H Hu]. split; [by apply list_elem_of_In|by apply negb_true_iff].
Qed.

Section Desired.
Variables (oidc : option oidcConfig) (x : bool) (tenantID : string) (gateway : Key) (catalog : option (list guardrailHeader)).
Variables (names : list string) (spec : JMap).
Hypothesis spec_desired : desired_spec oidc x tenantID gateway catalog names = Ok spec.
Hypothesis names_grid : grid_lower names.

Lemma spec_headers : NestedMapE spec headers_path = Ok (Some (with_headers names (headers_of oidc x catalog))).
Proof.
  rewrite nested_map_documented, (spec_is_shape _ _ _ _ _ _ _ spec_desired). reflexivity.
Qed.
Lemma spec_authorization : ∃ patterns,
  NestedMapE spec ["defaults"; "rules"; "authorization"] = Ok (Some (with_deny_patterns patterns (authorization_of oidc x catalog))).
Proof. eexists. rewrite nested_map_documented, (spec_is_shape _ _ _ _ _ _ _ spec_desired). reflexivity. Qed.

Lemma own_headers_managed : basePolicyHasStaleSubscriptionHeaderFields (Some spec) names = false.
Proof.
  unfold basePolicyHasStaleSubscriptionHeaderFields. change (default [] (Some spec)) with spec. rewrite spec_headers.
  destruct (existsb _ _) eqn:E; [|done]. apply existsb_elem in E as (kv & [H|[_ H]]%with_headers_elem & Hu); [|congruence].
  destruct (names_grid _ H) as [Hl _]. unfold unmanaged_now, managedSubscriptionHeaderNames in Hu. rewrite Hl in Hu.
  rewrite bool_decide_eq_true_2 in Hu by (by apply elem_of_list_to_set). by rewrite andb_false_r in Hu.
Qed.
Lemma base_headers_plain : existsb (λ header : string * JVal, has_prefix "x-aigateway-guardrail-" (to_lower header.1))
  (success_headers oidc (is_key x) (is_not_key x)) = false.
Proof. destruct oidc, x; vm_compute; reflexivity. Qed.
Lemma own_base_plain : catalog = None → basePolicyHasStaleGuardrailFields (Some spec) = false.
Proof.
  intros Hc. unfold basePolicyHasStaleGuardrailFields. change (default [] (Some spec)) with spec.
  destruct spec_authorization as [patterns ->]. rewrite spec_headers, Hc.
  rewrite bool_decide_eq_false_2.
  - destruct (existsb _ _) eqn:E; [|done]. apply existsb_elem in E as (kv & [H|[H _]]%with_headers_elem & Hu).
    + destruct (names_grid _ H) as [Hl Hp]. rewrite Hl in Hu.
      apply has_prefix_spec in Hp as [r Er]. rewrite Er in Hu. discriminate Hu.
    + assert (Hb := base_headers_plain). apply not_true_iff_false in Hb. destruct Hb. apply existsb_elem. by exists kv.
  - unfold with_deny_patterns. rewrite get_put_ne by done. unfold authorization_of, authorizationRules.
    destruct oidc; rewrite ?get_put_ne by done; intros [? H]; discriminate H.
Qed.
Lemma own_spec_unchanged : policy_unchanged spec catalog names (Some spec) = true.
Proof.
  unfold policy_unchanged. rewrite matches_itself by (by eapply desired_wf). rewrite own_headers_managed. cbn [andb negb].
  generalize own_base_plain. case catalog; [done|]. intros H. by rewrite H.
Qed.

End Desired.

(** ** The names a cluster gives *)

(** The header names of the subscriptions of a namespace. *)
Definition names_of (cl : Cluster) (ns : string) (names : gset string) : Prop :=
  ∀ name, name ∈ names ↔ ∃ key s, cl KSubscription !! key = Some s ∧ in_namespace ns (meta s) ∧ selection_returns s name.
Definition sorted_names (names : gset string) : list string := sort_strings (elements names).

Lemma names_of_unique cl cl' ns n n' : cl' KSubscription = cl KSubscription → names_of cl ns n → names_of cl' ns n' → n' = n.
Proof. intros E H H'. apply set_eq. intros name. etransitivity; [apply H'|]. symmetry. rewrite E. apply H. Qed.
Lemma names_grid cl ns n : names_of cl ns n → grid_lower (sorted_names n).
Proof.
  intros Hn name. unfold sorted_names. rewrite elem_of_sort_strings.
  intros (key & s & _ & _ & headers & Hp & Hs)%elem_of_elements%Hn. rewrite parsers_agree in Hp. by eapply parsed_name.
Qed.
Lemma names_reads has ns cl :
  reads (subscriptionHeaderNames has ns) cl (λ r, ∃ n, r = Ok (sorted_names n) ∧ names_of cl ns n).
Proof.
  unfold subscriptionHeaderNames. apply reads_bind_ok, reads_bind. intros r cl' [-> (l & -> & Hl)].
  split; [done|]. split; [done|]. cbn [map_err]. apply reads_bind.
  eapply reads_mono; [apply ModelPhase.safe_reads_always; [apply collect_reads|by apply collect_spec]|].
  intros n (h & _ & Hn). split; [done|]. exists n. split; [done|]. intros name. etransitivity; [apply Hn|]. destruct Hl as [_ Hl]. split.
  - intros [H|(s & [[key Hk] Hs]%Hl & Hr)]; [set_solver|by exists key, s].
  - intros (key & s & Hk & Hs & Hr). right. exists s. split; [apply Hl; split; [by exists key|exact Hs]|exact Hr].
Qed.

(** ** One reconciliation of a Gateway *)

Section Gateway.
Variables (oidc : option oidcConfig) (x : bool) (tenantNamespace tenantID : string) (gateway : Key) (catalog : option (list guardrailHeader)).
Notation key := (gateway_policy_key gateway).
Notation ns := (subscription_namespace tenantNamespace).
Notation reconcile := (reconcileGatewayAuthPolicyWithHeaders oidc x tenantNamespace tenantID gateway catalog).

(** The Gateway's policy is the desired one, unless it is not managed. *)
Definition in_place (cl : Cluster) (p : AuthPolicy) : Prop :=
  cl KAuthPolicy !! key = Some p ∧ ∃ n spec, names_of cl ns n
    ∧ desired_spec oidc x tenantID gateway catalog (sorted_names n) = Ok spec
    ∧ (isManaged (meta p) = true → policy_unchanged spec catalog (sorted_names n) (au_Spec (body p)) = true).
Definition was_managed (cl : Cluster) : bool :=
  match cl KAuthPolicy !! key with Some p => isManaged (meta p) | None => true end.
(** What a reconciliation leaves. *)
Definition reconciled (cl cl' : Cluster) : Prop :=
  (∃ p, in_place cl' p ∧ isManaged (meta p) = was_managed cl) ∧ ∀ k, k ≠ KAuthPolicy → cl' k = cl k.

Lemma managed_same m m' : same_written m m' → isManaged m' = isManaged m.
Proof. intros (_ & _ & _ & E & _). unfold isManaged. by rewrite E. Qed.

Lemma write_reconciles cl g n spec :
  well_stored cl → names_of cl ns n → desired_spec oidc x tenantID gateway catalog (sorted_names n) = Ok spec →
  always (write_policy gateway spec catalog (sorted_names n) (cl KAuthPolicy !! key) (Some g)) cl
    (λ r cl', (∃ changed, r = Ok changed) ∧ reconciled cl cl').
Proof.
  intros Hw Hn Hs. assert (Hg := names_grid _ _ _ Hn).
  assert (Hown := own_spec_unchanged _ _ _ _ _ _ _ Hs Hg). unfold reconciled, was_managed, in_place.
  destruct (cl KAuthPolicy !! key) as [p|] eqn:Ep; unfold write_policy.
  - destruct (isManaged (meta p)) eqn:Em; cbn [negb].
    + destruct (policy_unchanged spec catalog (sorted_names n) (au_Spec (body p))) eqn:Eu.
      * split; [by eexists|]. split; [|done]. exists p. split; [split; [exact Ep|by exists n, spec]|exact Em].
      * intros r cl' Hr. cbn [replies] in Hr. change (key_of (setGatewayOwnerReference g (set_spec spec p))) with (key_of p) in Hr.
        rewrite (Hw _ _ _ Ep), Ep in Hr. destruct Hr as (p' & -> & Hm & [Hb _] & Hk & _ & Hc).
        split; [by eexists|]. split; [|exact Hc]. exists p'. split.
        -- split; [exact Hk|]. exists n, spec. split_and!; [|exact Hs|rewrite Hb; by intros _].
           unfold names_of. by rewrite Hc.
        -- rewrite (managed_same _ _ Hm). exact Em.
    + split; [by eexists|]. split; [|done]. exists p. split; [split; [exact Ep|]|exact Em].
      exists n, spec. split_and!; [exact Hn|exact Hs|]. rewrite Em. discriminate.
  - intros r cl' Hr. cbn [replies] in Hr.
    change (key_of (set_spec spec (setGatewayOwnerReference g (new_gateway_policy gateway)))) with key in Hr.
    rewrite Ep in Hr. destruct Hr as (p' & -> & Hm & [Hb _] & Hk & _ & Hc).
    split; [by eexists|]. split; [|exact Hc]. exists p'. split.
    + split; [exact Hk|]. exists n, spec. split_and!; [|exact Hs|rewrite Hb; by intros _]. unfold names_of. by rewrite Hc.
    + rewrite (managed_same _ _ Hm). reflexivity.
Qed.

Lemma reconcile_reads cl g (Q : Res GoErr bool → Cluster → Prop) :
  cl KGateway !! gateway = Some g →
  (∀ n spec, names_of cl ns n → desired_spec oidc x tenantID gateway catalog (sorted_names n) = Ok spec →
     always (write_policy gateway spec catalog (sorted_names n) (cl KAuthPolicy !! key) (Some g)) cl Q) →
  always reconcile cl Q.
Proof.
  intros Hg H. unfold reconcileGatewayAuthPolicyWithHeaders.
  eapply always_reads; [apply names_reads|]. intros r (n & -> & Hn).
  destruct (desired_spec oidc x tenantID gateway catalog (sorted_names n)) as [spec|e] eqn:Es;
    [|rewrite desired_shape in Es; discriminate Es].
  specialize (H n spec Hn Es). cbv zeta.
  destruct (cl KAuthPolicy !! key) as [p|] eqn:Ep.
  - eapply always_reads; [apply (reads_get_some _ _ _ _ _ (λ r, r = Ok p) Ep); reflexivity|]. intros r ->.
    eapply always_reads; [apply (reads_get_some _ _ _ _ _ (λ r, r = Ok g) Hg); reflexivity|]. intros r ->. exact H.
  - eapply always_reads with (P := λ r, ∃ e, r = Err e ∧ isNotFound e = true).
    { apply reads_get. rewrite Ep. by eauto. }
    intros r (e & -> & ->). cbn [negb].
    eapply always_reads; [apply (reads_get_some _ _ _ _ _ (λ r, r = Ok g) Hg); reflexivity|]. intros r ->. exact H.
Qed.
Lemma reconcile_once cl g : well_stored cl → cl KGateway !! gateway = Some g →
  always reconcile cl (λ r cl', (∃ changed, r = Ok changed) ∧ reconciled cl cl').
Proof. intros Hw Hg. eapply reconcile_reads; [exact Hg|]. intros n spec. by apply write_reconciles. Qed.
Lemma reconcile_again cl g p : cl KGateway !! gateway = Some g → in_place cl p →
  always reconcile cl (λ r cl', r = Ok false ∧ cl' = cl).
Proof.
  intros Hg (Hp & n & spec & Hn & Hs & Hu). eapply reconcile_reads; [exact Hg|]. intros n' spec' Hn' Hs'.
  rewrite (names_of_unique cl cl ns n n') in Hs' |- * by done. rewrite Hs in Hs'. injection Hs' as <-.
  rewrite Hp. unfold write_policy. destruct (isManaged (meta p)); cbn [negb]; [|by split].
  rewrite Hu by done. by split.
Qed.

(** C13 The policy of a Gateway settles: where the Gateway exists, the first
    reconciliation makes or updates the Gateway's AuthPolicy so that, if it is
    managed, its specification is the one desired for the subscriptions of the
    tenant, without stale guardrail or header fields; a policy that opted out
    stays so; and the second reconciliation writes nothing. *)
Theorem gateway_policy_settles cl g :
  well_stored cl → cl KGateway !! gateway = Some g →
  always (_ ← reconcile; reconcile) cl (λ r cl', r = Ok false ∧ reconciled cl cl').
Proof.
  intros Hw Hg. apply always_seq. eapply always_weaken; [by apply (reconcile_once cl g)|].
  intros r cl' [_ Hr]. assert (Hr' := Hr). destruct Hr' as [(p & Hp & Hm) Hc].
  eapply always_weaken; [apply (reconcile_again cl' g p); [by rewrite Hc|exact Hp]|]. intros r' cl'' [-> ->]. by split.
Qed.

End Gateway.

(** ** At the start of the controller *)

(** C28 Whatever access policies exist and whatever the Gateway's policy held,
    the synchronization that runs when the controller starts leaves a managed
    policy of the default Gateway without any guardrail: no rule on the checks
    of a request and none of the catalogue's headers. *)
Theorem startup_forgets_guardrails cl g p :
  let gateway := (FallbackGatewayNamespace, FallbackGatewayName) in
  well_stored cl → cl KGateway !! gateway = Some g →
  cl KAuthPolicy !! gateway_policy_key gateway = Some p → isManaged (meta p) = true →
  always startup_sync cl (λ _ cl', ∃ p', cl' KAuthPolicy !! gateway_policy_key gateway = Some p'
    ∧ isManaged (meta p') = true ∧ basePolicyHasStaleGuardrailFields (au_Spec (body p')) = false
    ∧ cl' KMaaSAuthPolicy = cl KMaaSAuthPolicy).
Proof.
  intros gateway Hw Hg Hp Hm. unfold startup_sync, syncDefaultGatewayAuthPolicyForXAPIKeyDiscovery.
  apply always_seq. eapply always_reads with (P := λ _, True).
  { eapply always_weaken; [apply ModelPhase.only_reads_always, oidc_reads|by split]. }
  intros oidc _. eapply always_reads with (P := λ _, True).
  { eapply always_weaken; [apply ModelPhase.only_reads_always, x_api_key_reads|by split]. }
  intros x _. apply always_bind_ok. eapply always_weaken; [by apply (reconcile_once oidc x _ "" gateway None cl g)|].
  intros r cl' [[changed ->] [(p' & (Hk & n & spec & _ & _ & Hu) & Hm') Hc]].
  unfold was_managed in Hm'. rewrite Hp, Hm in Hm'. exists p'. split_and!; [exact Hk|exact Hm'| |by apply Hc].
  specialize (Hu Hm'). unfold policy_unchanged in Hu. apply andb_true_iff in Hu as [[_ Hu]%andb_true_iff _].
  by apply negb_true_iff in Hu.
Qed.

End Facts.
End AuthPolicyConvergence.

(** ** AuthPolicyDemo: the controller of access policies on a concrete cluster

    A tenant with one access policy, whose Gateway has an AuthPolicy of an
    earlier version, and the theorems of [AuthPolicySafety] and
    [AuthPolicyConvergence] applied to it. *)
Module AuthPolicyDemo.
Import Kube AITenant TenantLookup GatewaySpec GatewayHeaders GuardrailCatalog ModelRoutes Cluster SubscriptionPolicy.
Import ModelSafety AuthPolicyController AuthPolicyReconcile GatewaySpecFacts AuthPolicyReads AuthPolicySafety SubscriptionHeaderFacts AuthPolicyConvergence.

#[local] Existing Instance reference_runtime.
#[local] Existing Instance documented_fields.
#[local] Existing Instance documented_fields_laws.
#[local] Instance demo_settings : GatewaySettings := {|
  InfraNamespace := "opendatahub"; ClusterAudience := "https://kubernetes.default.svc";
  MetadataCacheTTL := 60; AuthzCacheTTL := 300 |}.
#[local] Instance demo_scope : TenantScope := {|
  DefaultTenantNamespace := "models-as-a-service"; TenantNamespaceDiscoveryEnabled := true;
  FallbackGatewayName := "maas-default-gateway"; FallbackGatewayNamespace := "openshift-ingress" |}.
#[local] Instance demo_reconciler : AuthPolicyReconciler := {| AuthPolicyController.HasRecorder := true; default_retries := 3 |}.
#[local] Instance demo_conditions : StatusConditions := listed_conditions.
#[local] Instance demo_condition_laws : StatusConditionLaws := listed_conditions_laws.
#[local] Instance demo_util : ControllerUtil := listed_finalizers.
#[local] Instance demo_scalars : ScalarFields := {|
  NestedInt64E := GuardrailResolver.typed_field (λ v, match v with Some (JInt z) => Some z | _ => None end);
  NestedStringE := GuardrailResolver.typed_field as_string |}.
(** Every annotation names one header. *)
#[local] Instance demo_codec : HeaderCodec := {|
  unmarshal_headers _ := Ok (Some {[ "X-Grid-Region" := Some ["eu"] ]});
  ValidHeaderFieldName _ := true; ValidHeaderFieldValue _ := true |}.
#[local] Instance demo_guardrails : GuardrailAPI := {|
  AttachmentResolver _ _ _ := Ret (Err "no provider"); CheckID a b c := a +:+ "/" +:+ b +:+ "/" +:+ c;
  CheckHeaderName a b c := "x-aigateway-guardrail-" +:+ a; GuardrailPhaseInput := "input"; GuardrailPhaseOutput := "output";
  ConditionAccepted := "Accepted"; compose_error_text _ := "conflict" |}.
#[local] Instance demo_guardrail_laws : GuardrailAPILaws.
Proof. split. by intros reader ns a _. Qed.

Definition granite : Key := ("llm", "granite").
Definition everyone : MaaSAuthPolicy := {|
  meta := set_finalizers [maasAuthPolicyFinalizer] (new_meta "models-as-a-service" "everyone");
  body := {| ap_ModelRefs := [granite]; ap_Rest := ""; ap_Status := {| ap_Phase := "Active"; ap_AuthPolicies := []; ap_Conditions := [] |} |} |}.

Lemma access_never_opened_witness :
  safe (allowed (Namespace (meta everyone)) (settled everyone) (justified everyone) (λ _ _, False)) record
    (reconcile_tenant everyone (status_of everyone)) [] (λ _ h', extends [] h').
Proof. exact (access_never_opened everyone (status_of everyone) []). Defined.

Lemma released_after_cleanup_witness :
  safe (allowed (Namespace (meta everyone)) (λ _, True) (λ _ _, False) (released everyone)) record (handleDeletion everyone) [] (λ _ h', extends [] h').
Proof. exact (released_after_cleanup everyone []). Defined.

Lemma gateway_headers_exact_witness :
  let gateway := ("openshift-ingress", "maas-default-gateway") in
  catalog_named (default [] None)
  ∧ safe (written "") record (reconcileGatewayAuthPolicyWithHeaders None false "" "" gateway None) []
      (λ r h, r = Ok false → left_alone "" gateway h).
Proof.
  intros gateway. assert (Hc : catalog_named (default [] None)) by (intros h H; inversion H).
  split; [exact Hc|]. exact (gateway_headers_exact "" gateway None false "" None Hc).
Defined.

(** ** The cluster *)

Definition default_gateway : Obj KGateway := {|
  meta := new_meta "openshift-ingress" "maas-default-gateway"; body := {| Listeners := []; gw_Addresses := [] |} |}.
Definition old_spec : JMap :=
  [("targetRef", JObj [("group", JStr "gateway.networking.k8s.io"); ("kind", JStr "Gateway"); ("name", JStr "maas-default-gateway")]);
   ("defaults", JObj [("rules", JObj [("authorization", JObj [("guardrail-checks-known", JObj [])])])])].
Definition old_policy : AuthPolicy := {|
  meta := set_labels gateway_policy_labels (new_meta "openshift-ingress" "maas-gateway-auth");
  body := {| au_Spec := Some old_spec; au_Status := None |} |}.
Definition gold : MaaSSubscription := {|
  meta := set_annotations {[ subscriptionHeadersAnnotation := "{}" ]} (new_meta "models-as-a-service" "gold");
  body := {|
    ss_Spec := {| ss_ModelRefs := []; ss_Priority := 1; ss_InferencePriority := None; ss_RateLimitIdentity := ""; ss_Guardrails := []; ss_Rest := "" |};
    ss_Status := {| ss_Phase := ""; ss_Conditions := []; ss_StatusIdentity := ""; ModelRefStatuses := [];
                    TokenRateLimitStatuses := []; FlowControlStatuses := [] |} |} |}.
Definition one_object {k} (o : Obj k) : gmap Key (Obj k) := {[ key_of o := o ]}.
Definition demo_cluster : Cluster := λ k,
  match k return gmap Key (Obj k) with
  | KGateway => one_object default_gateway
  | KAuthPolicy => one_object (k := KAuthPolicy) old_policy
  | KSubscription => one_object (k := KSubscription) gold
  | KMaaSAuthPolicy => one_object (k := KMaaSAuthPolicy) everyone
  | _ => ∅
  end.
Lemma demo_stored : well_stored demo_cluster.
Proof.
  assert (H1 : ∀ k (o o' : Obj k) key, one_object o !! key = Some o' → key_of o' = key).
  { intros k o o' key. unfold one_object. intros [<- <-]%lookup_singleton_Some. done. }
  intros k key o H. destruct k; first [discriminate (eq_trans (eq_sym H) (lookup_empty key))|exact (H1 _ _ _ _ H)].
Qed.
Lemma object_stored {k} (o : Obj k) : one_object o !! key_of o = Some o.
Proof. apply lookup_singleton_eq. Qed.

Lemma gateway_policy_settles_witness :
  let gateway := ("openshift-ingress", "maas-default-gateway") in
  let reconcile := reconcileGatewayAuthPolicyWithHeaders None false "" "" gateway None in
  always (_ ← reconcile; reconcile) demo_cluster (λ r cl', r = Ok false ∧ reconciled None false "" "" gateway None demo_cluster cl').
Proof.
  exact (gateway_policy_settles None false "" "" ("openshift-ingress", "maas-default-gateway") None demo_cluster default_gateway
    demo_stored (object_stored default_gateway)).
Defined.

Lemma startup_forgets_guardrails_witness :
  basePolicyHasStaleGuardrailFields (Some old_spec) = true
  ∧ always startup_sync demo_cluster (λ _ cl', ∃ p', cl' KAuthPolicy !! ("openshift-ingress", "maas-gateway-auth") = Some p'
      ∧ isManaged (meta p') = true ∧ basePolicyHasStaleGuardrailFields (au_Spec (body p')) = false
      ∧ cl' KMaaSAuthPolicy = demo_cluster KMaaSAuthPolicy).
Proof.
  split; [vm_compute; reflexivity|].
  exact (startup_forgets_guardrails demo_cluster default_gateway old_policy demo_stored (object_stored default_gateway)
    (object_stored (k := KAuthPolicy) old_policy) eq_refl).
Defined.

(** A conflict that ends after it was recorded. *)
Definition conflicted : MaaSAuthPolicy :=
  set_condition (conflict_condition ConditionTrue "ConflictDetected" "one" 1) everyone.
Lemma later_conflicts_unannounced_witness :
  c_Status <$> conflict_of conflicted = Some ConditionTrue
  ∧ conflict_events conflicted (set_condition (conflict_condition ConditionFalse "NoConflict" "none" 2) conflicted) [] = Ret tt.
Proof.
  split; [reflexivity|].
  exact (later_conflicts_unannounced conflicted (conflict_condition ConditionFalse "NoConflict" "none" 2) [] eq_refl).
Defined.

End AuthPolicyDemo.
