(* ===== verification/TenantNames.v ===== *)
(** * TenantNames: lengths of the names derived from a tenant's

    [AITenant.aitenantBoundedName] shortens long names with a hash.  The names
    it makes fit the label limit of the API server whatever the tenant is
    called, and the slice it takes is in range; names it did not shorten are
    not collision-free against those it did. *)

From S2P Require Import Prelude GoStrings Sha256 Kube AITenant.
From Stdlib Require String.
Local Open Scope string_scope.

Module TenantNames.
Import Kube AITenant.

Lemma len_app a b : len (a +:+ b) = (len a + len b)%Z.
Proof. unfold len. rewrite str_length_app. lia. Qed.
Lemma len_nonneg s : (0 ≤ len s)%Z.
Proof. unfold len. lia. Qed.
Lemma str_rev_length s : String.length (str_rev s) = String.length s.
Proof.
  induction s as [|c s IH]; [done|]. rewrite str_rev_cons, str_length_app, IH. cbn. lia.
Qed.
Lemma trim_left_set_length p s : (String.length (trim_left_set p s) ≤ String.length s)%nat.
Proof. induction s as [|c s IH]; cbn; [lia|]. destruct (p c); cbn; lia. Qed.
Lemma trim_set_len p s : (len (trim_set p s) ≤ len s)%Z.
Proof.
  unfold len, trim_set. rewrite str_rev_length. pose proof (trim_left_set_length p (str_rev (trim_left_set p s))) as H.
  rewrite str_rev_length in H. pose proof (trim_left_set_length p s). lia.
Qed.
Lemma take_len n s : (0 ≤ n)%Z → (len (str_take (Z.to_nat n) s) ≤ n)%Z.
Proof.
  intros Hn. unfold len. assert (H : ∀ k s, (String.length (str_take k s) ≤ k)%nat).
  { intros k. induction k as [|k IH]; intros [|c s']; cbn; [lia..|]. specialize (IH s'). lia. }
  specialize (H (Z.to_nat n) s). lia.
Qed.
Lemma hash_len name : len (str_take 8 (sha256_hex name)) = 8%Z.
Proof. unfold len. rewrite str_take_length; [done|]. rewrite sha256_hex_length. lia. Qed.

(** Room for a hash in place of the name is enough. *)
Lemma bounded_name_len prefix name suffix max :
  (len prefix + len suffix + 17 ≤ max)%Z → (len (aitenantBoundedName prefix name suffix max) ≤ max)%Z.
Proof.
  intros Hroom. unfold aitenantBoundedName. rewrite !hash_len.
  destruct (Z.leb_spec (len (prefix +:+ name +:+ suffix)) max); [done|].
  destruct (Z.ltb_spec (max - len prefix - len suffix - 8 - 1) 1); [lia|].
  rewrite !len_app. change (len "-") with 1%Z. rewrite hash_len.
  set (budget := (max - len prefix - len suffix - 8 - 1)%Z) in *.
  destruct (String.eqb_spec (trim_set dash_or_dot (str_take (Z.to_nat budget) name)) ""); [rewrite hash_len; lia|].
  pose proof (trim_set_len dash_or_dot (str_take (Z.to_nat budget) name)). pose proof (take_len budget name). lia.
Qed.

(** The names the controller derives from a tenant's name fit.  Whatever the
    tenant is called, its roles' names are at most 63 characters and its
    revocation Job's at most 57, which leaves room for the suffix of a pod's
    name; a name short enough is used unchanged; and where a name is cut, the
    cut [aitenantName[:budget]] lies within it. *)
Theorem derived_names_fit (t : AITenant) :
  (len (tenantAdminRoleName t) ≤ 63)%Z ∧ (len (aitenantAccessRoleName t) ≤ 63)%Z
  ∧ (len (aitenantAPIKeyRevocationJobName (Name (meta t))) ≤ 57)%Z
  ∧ ((len (Name (meta t)) ≤ 36)%Z →
     aitenantAPIKeyRevocationJobName (Name (meta t)) = "maas-api-revoke-keys-" +:+ Name (meta t))
  ∧ ∀ prefix suffix max,
      (max < len (prefix +:+ Name (meta t) +:+ suffix))%Z →
      (max - len prefix - len suffix - len (str_take 8 (sha256_hex (Name (meta t)))) - 1 ≤ len (Name (meta t)))%Z.
Proof.
  split_and!.
  - by apply bounded_name_len.
  - by apply bounded_name_len.
  - by apply bounded_name_len.
  - intros H. unfold aitenantAPIKeyRevocationJobName, aitenantBoundedName. rewrite !len_app, str_app_nil_r.
    rewrite (proj2 (Z.leb_le _ _)); [done|]. cbn -[len]. change (len "maas-api-revoke-keys-") with 21%Z.
    change (len "") with 0%Z. unfold DNS1123LabelMaxLength. lia.
  - intros prefix suffix max. rewrite !len_app, hash_len. lia.
Qed.

(** The shortened name of a long tenant name is itself a tenant name, whose
    Job has the same name. *)
Definition long_name : string := "aaaaaaaaaaaaaaaaaaaaaaaaaaaaaaaaaaaaaaaa".
Definition its_short_form : string := "aaaaaaaaaaaaaaaaaaaaaaaaaaa-" +:+ str_take 8 (sha256_hex long_name).
Theorem shortened_names_collide :
  long_name ≠ its_short_form
  ∧ aitenantAPIKeyRevocationJobName long_name = aitenantAPIKeyRevocationJobName its_short_form.
Proof.
  assert (Hlen : len its_short_form = 36%Z) by (unfold its_short_form; by rewrite len_app, hash_len).
  split; [intros E; rewrite <- E in Hlen; done|].
  unfold aitenantAPIKeyRevocationJobName, aitenantBoundedName. rewrite !len_app, Hlen, !hash_len. done.
Qed.

End TenantNames.
