(* ===== verification/GatewayLabels.v ===== *)
(** * GatewayLabels: the namespace labels a Gateway owns

    [maas-controller/pkg/controller/maas/aitenant_controller.go]: a Gateway's
    listeners select namespaces by label.  The controller puts these labels on
    the namespaces whose routes must attach, and records in an annotation which
    Gateways own each label, so that a label leaves with its last owner.  The
    JSON text of that annotation is an interface ([OwnershipJSON]). *)

From S2P Require Import Prelude GoStrings Kube AITenant.
From Stdlib Require String.
Local Open Scope string_scope.

Notation Ownership := (gmap string (list string)).

(** [json.Unmarshal] into, and [json.Marshal] of, a [map[string][]string];
    [Ok None] is the nil map, the value of [null]. *)
Class OwnershipJSON := {
  unmarshal_ownership : string → Res string (option Ownership);
  marshal_ownership : Ownership → string;
}.
(** ASCII text, which [json.Marshal] writes without loss (it replaces bytes
    that are not UTF-8). *)
Definition ascii_text (s : string) : bool := str_all (in_range 0 127) s.
Definition ascii_ownership (m : Ownership) : Prop :=
  ∀ k owners, m !! k = Some owners → ascii_text k = true ∧ ∀ g, g ∈ owners → ascii_text g = true.
Class OwnershipJSONLaws `{OJ : OwnershipJSON} : Prop := {
  unmarshal_marshal m : ascii_ownership m → unmarshal_ownership (marshal_ownership m) = Ok (Some m);
  marshal_not_empty m : marshal_ownership m ≠ "";
}.

Module GatewayLabels.
Import Kube AITenant.

Section Labels.
Context `{GR : GoRuntime} `{OJ : OwnershipJSON}.

Definition parseOwnershipAnnotation (raw : string) : Res string (option Ownership) :=
  if String.eqb raw "" then Ok (Some ∅) else unmarshal_ownership raw.

(** The namespace selectors of the listeners that use one. *)
Definition selector_labels (l : Listener) : gmap string string :=
  match AllowedNamespaces l with
  | Some {| From := Some f; Selector := Some labels |} => if String.eqb f "Selector" then labels else ∅
  | _ => ∅
  end.

Definition conflicting_selector (gw : Obj KGateway) (listener k v existing : string) : string :=
  "gateway " +:+ Namespace (meta gw) +:+ "/" +:+ Name (meta gw)
  +:+ " has conflicting namespace selector values for label " +:+ dquote +:+ k +:+ dquote
  +:+ ": listener " +:+ dquote +:+ listener +:+ dquote +:+ " wants " +:+ dquote +:+ v +:+ dquote
  +:+ " but another listener wants " +:+ dquote +:+ existing +:+ dquote.

(** One iteration of the inner loop. *)
Definition desire (gw : Obj KGateway) (listener : string) (desired : gmap string string)
    (entry : string * string) : Res string (gmap string string) :=
  let '(k, v) := entry in
  match desired !! k with
  | Some existing => if negb (String.eqb existing v) then Err (conflicting_selector gw listener k v existing)
                     else Ok (<[k := v]> desired)
  | None => Ok (<[k := v]> desired)
  end.
Definition gatewayDesiredLabels (gw : Obj KGateway) : Res string (gmap string string) :=
  fold_res (λ desired l, fold_res (desire gw (li_Name l)) desired (range_map (selector_labels l))) ∅ (Listeners (body gw)).

Definition bad_annotation (namespace e : string) : string :=
  "unmarshal " +:+ gatewayLabelsAnnotation +:+ " annotation on namespace " +:+ namespace +:+ ": " +:+ e.

(** The annotation for an ownership map. *)
Definition with_ownership (ownership : Ownership) (annotations : gmap string string) : gmap string string :=
  if bool_decide (ownership = ∅) then delete gatewayLabelsAnnotation annotations
  else <[gatewayLabelsAnnotation := marshal_ownership ownership]> annotations.

Definition without (gatewayName : string) (owners : list string) : list string :=
  List.filter (λ s, negb (String.eqb s gatewayName)) owners.
Definition owns (gatewayName : string) (owners : list string) : bool := existsb (String.eqb gatewayName) owners.

(** The namespace's metadata after the release, the removed keys and the keys
    that keep other owners. *)
Definition releaseGatewayLabels (gatewayName : string) (ns : ObjectMeta)
    : Res string (ObjectMeta * (list string * list string)) :=
  match parseOwnershipAnnotation (value (Annotations ns) gatewayLabelsAnnotation) with
  | Err e => Err (bad_annotation (Name ns) e)
  | Ok ownership =>
      let ownership := default ∅ ownership in
      let held := List.filter (λ entry, owns gatewayName entry.2) (range_map ownership) in
      let removed := map fst (List.filter (λ entry, (length entry.2 =? 1)%nat) held) in
      let unowned := map fst (List.filter (λ entry, negb (length entry.2 =? 1)%nat) held) in
      match removed, unowned with
      | [], [] => Ok (ns, ([], []))
      | _, _ =>
          let ownership := foldr delete ownership removed in
          let ownership := foldr (alter (without gatewayName)) ownership unowned in
          Ok (set_annotations (with_ownership ownership (Annotations ns))
                (set_labels (foldr delete (Labels ns) removed) ns), (removed, unowned))
      end
  end.

Definition releaseGatewayLabelsExcept (keep : string) (ns : ObjectMeta)
    : Res string (ObjectMeta * list string) :=
  match parseOwnershipAnnotation (value (Annotations ns) gatewayLabelsAnnotation) with
  | Err e => Err (bad_annotation (Name ns) e)
  | Ok ownership =>
      let add released owner :=
        if negb (String.eqb owner keep) && negb (owns owner released) then (released ++ [owner])%list else released in
      let released := sort_strings (fold_left add (concat (map snd (range_map (default ∅ ownership)))) []) in
      ns <- fold_res (λ ns gatewayName, res_map fst (releaseGatewayLabels gatewayName ns)) ns released ;;
      Ok (ns, released)
  end.

(** What the loop over the desired labels refuses. *)
Definition label_conflict (namespace gatewayName : string) (labels : gmap string string) (ownership : Ownership)
    (k v : string) : option string :=
  match labels !! k with
  | None => None
  | Some existing =>
      if String.eqb existing v then None else
      match default [] (ownership !! k) with
      | [] => Some ("label " +:+ dquote +:+ k +:+ dquote +:+ " on namespace " +:+ namespace +:+ " already has value "
                +:+ dquote +:+ existing +:+ dquote +:+ " set outside the controller; gateway " +:+ dquote
                +:+ gatewayName +:+ dquote +:+ " wants " +:+ dquote +:+ v +:+ dquote +:+ " — resolve manually")
      | o :: others =>
          if negb (bool_decide (others = [])) || negb (String.eqb o gatewayName) then
            let other := match others with o2 :: _ => if String.eqb o gatewayName then o2 else o | [] => o end in
            Some ("conflicting gateway label " +:+ dquote +:+ k +:+ dquote +:+ " on namespace " +:+ namespace
              +:+ ": owned by gateway " +:+ dquote +:+ other +:+ dquote +:+ " (value " +:+ dquote +:+ existing
              +:+ dquote +:+ ") but gateway " +:+ dquote +:+ gatewayName +:+ dquote +:+ " wants " +:+ dquote +:+ v
              +:+ dquote)
          else None
      end
  end.
Fixpoint first_conflict (f : string → string → option string) (entries : list (string * string)) : option string :=
  match entries with
  | [] => None
  | (k, v) :: r => match f k v with Some e => Some e | None => first_conflict f r end
  end.

Definition add_owner (gatewayName : string) (ownership : Ownership) (k : string) : Ownership :=
  let owners := default [] (ownership !! k) in
  if owns gatewayName owners then ownership else <[k := (owners ++ [gatewayName])%list]> ownership.
(** The release of a stale key, with its label when nobody else owns it. *)
Definition drop_stale (gatewayName : string) (st : gmap string string * Ownership) (k : string)
    : gmap string string * Ownership :=
  let '(labels, ownership) := st in
  match without gatewayName (default [] (ownership !! k)) with
  | [] => (delete k labels, delete k ownership)
  | owners => (labels, <[k := owners]> ownership)
  end.

(** What [ensureNamespaceGatewayLabels] makes of a namespace it has read:
    [Ok None] when there is nothing to patch.  The controller writes to the
    ownership map: a nil one is a panic when a label is to be added. *)
Inductive LabelPlan := Unchanged | Patched (ns : ObjectMeta) | PanicsOnNilMap.
Definition plan_labels (gatewayName : string) (desiredLabels : gmap string string) (exclusive : bool)
    (ns : ObjectMeta) : Res string LabelPlan :=
  released <- (if exclusive then releaseGatewayLabelsExcept gatewayName ns else Ok (ns, [])) ;;
  let '(ns, releasedGateways) := released in
  match parseOwnershipAnnotation (value (Annotations ns) gatewayLabelsAnnotation) with
  | Err e => Err (bad_annotation (Name ns) e)
  | Ok parsed =>
      let ownership := default ∅ parsed in
      match first_conflict (label_conflict (Name ns) gatewayName (Labels ns) ownership) (range_map desiredLabels) with
      | Some e => Err e
      | None =>
          let staleKeys := map fst (List.filter (λ entry, owns gatewayName entry.2
                             && bool_decide (desiredLabels !! entry.1 = None)) (range_map ownership)) in
          let needsPatch :=
            negb (bool_decide (staleKeys = [])) || negb (bool_decide (releasedGateways = []))
            || existsb (λ entry, negb (String.eqb (value (Labels ns) entry.1) entry.2)) (range_map desiredLabels)
            || existsb (λ entry, negb (owns gatewayName (default [] (ownership !! entry.1))))
                 (range_map desiredLabels) in
          if negb needsPatch then Ok Unchanged else
          if bool_decide (parsed = None) && negb (bool_decide (desiredLabels = ∅)) then Ok PanicsOnNilMap else
          let keys := map fst (range_map desiredLabels) in
          let ownership := fold_left (add_owner gatewayName) keys ownership in
          let '(labels, ownership) := fold_left (drop_stale gatewayName) staleKeys (desiredLabels ∪ Labels ns, ownership) in
          Ok (Patched (set_annotations (with_ownership ownership (Annotations ns)) (set_labels labels ns)))
      end
  end.

End Labels.
End GatewayLabels.
