(* ===== verification/GatewayLabelFacts.v ===== *)
(** * GatewayLabelFacts: labels shared by Gateways

    The label ownership of [GatewayLabels] as a state machine: Gateways attach
    to a namespace and are released from it in any order, and others edit the
    labels no Gateway owns.  Whatever the sequence, every attached Gateway
    finds its labels, the annotation names exactly the Gateways that want a
    label, and a label a Gateway brought leaves with its last owner. *)

From S2P Require Import Prelude GoStrings Kube AITenant GatewayLabels.
From Stdlib Require String.
Local Open Scope string_scope.

Module GatewayLabelFacts.
Import Kube AITenant GatewayLabels.

Section Facts.
Context `{GR : GoRuntime} `{OJ : OwnershipJSON} `{OL : !OwnershipJSONLaws}.

(** ** Owner lists *)

Definition keep (gw : string) (owners : list string) : option (list string) :=
  match without gw owners with [] => None | o => Some o end.
Definition enlist (gw : string) (owners : list string) : list string :=
  if owns gw owners then owners else (owners ++ [gw])%list.

Lemma elem_of_without gw owners g : g ∈ without gw owners ↔ g ≠ gw ∧ g ∈ owners.
Proof.
  unfold without. rewrite list_elem_of_In, filter_In, <- list_elem_of_In, negb_true_iff, String.eqb_neq. naive_solver.
Qed.
Lemma owns_elem gw owners : owns gw owners = true ↔ gw ∈ owners.
Proof.
  unfold owns. rewrite existsb_elem. split; [by intros (x & Hx & ->%String.eqb_eq)|].
  intros H. exists gw. by rewrite String.eqb_refl.
Qed.
Lemma owns_false gw owners : owns gw owners = false ↔ gw ∉ owners.
Proof. rewrite <- owns_elem. by destruct (owns gw owners). Qed.
Lemma elem_of_enlist gw owners g : g ∈ enlist gw owners ↔ g = gw ∨ g ∈ owners.
Proof.
  unfold enlist. destruct (owns gw owners) eqn:E; [apply owns_elem in E; naive_solver|].
  rewrite elem_of_app, list_elem_of_singleton. naive_solver.
Qed.
Lemma without_id gw owners : gw ∉ owners → without gw owners = owners.
Proof.
  unfold without. induction owners as [|o owners IH]; cbn; [done|]. intros [Ho Hr]%not_elem_of_cons.
  rewrite (proj2 (String.eqb_neq _ _)) by done. cbn. by rewrite IH.
Qed.
Lemma without_idem gw owners : without gw (without gw owners) = without gw owners.
Proof. apply without_id. rewrite elem_of_without. naive_solver. Qed.
Lemma without_sublist gw owners : without gw owners `sublist_of` owners.
Proof. induction owners as [|o owners IH]; cbn; [done|]. case_match; by constructor. Qed.
Lemma without_enlist gw owners : gw ∉ owners → without gw (enlist gw owners) = owners.
Proof.
  intros H. unfold enlist. rewrite (proj2 (owns_false _ _) H). unfold without. rewrite List.filter_app.
  cbn. rewrite String.eqb_refl, app_nil_r. by apply without_id.
Qed.
(** Alone in a list without duplicates. *)
Lemma keep_none gw owners : NoDup owners → gw ∈ owners → keep gw owners = None ↔ owners = [gw].
Proof.
  intros Hd Hin. unfold keep. split.
  - intros H. assert (Hall : ∀ g, g ∈ owners → g = gw).
    { intros g Hg. destruct (decide (g = gw)) as [|Hne]; [done|].
      assert (g ∈ without gw owners) as H' by (by apply elem_of_without).
      destruct (without gw owners); [by apply not_elem_of_nil in H'|done]. }
    destruct owners as [|a [|b owners]]; [by apply not_elem_of_nil in Hin| |].
    + by rewrite (Hall a (list_elem_of_here _ _)).
    + exfalso. apply NoDup_cons in Hd as [Ha _]. apply Ha.
      rewrite (Hall a (list_elem_of_here _ _)), <- (Hall b); [apply list_elem_of_here|].
      apply list_elem_of_further, list_elem_of_here.
  - intros ->. cbn. by rewrite String.eqb_refl.
Qed.

(** ** Folds over the ownership map *)

Lemma elem_of_range {K} `{Countable K} {V} (m : gmap K V) k v : (k, v) ∈ range_map m ↔ m !! k = Some v.
Proof. by rewrite range_map_perm, elem_of_map_to_list. Qed.
Lemma elem_of_range_keys {V} (m : gmap string V) k : k ∈ map fst (range_map m) ↔ is_Some (m !! k).
Proof.
  rewrite list_elem_of_fmap. split.
  - intros ([k' v] & -> & Hin%elem_of_range). by exists v.
  - intros [v Hv%elem_of_range]. by exists (k, v).
Qed.
Lemma elem_of_range_filter {V} (f : string * V → bool) (m : gmap string V) k :
  k ∈ map fst (List.filter f (range_map m)) ↔ ∃ v, m !! k = Some v ∧ f (k, v) = true.
Proof.
  rewrite list_elem_of_fmap. split.
  - intros ([k' v] & -> & Hin). rewrite list_elem_of_In, filter_In, <- list_elem_of_In, elem_of_range in Hin. by exists v.
  - intros (v & Hv & Hf). exists (k, v). split; [done|].
    by rewrite list_elem_of_In, filter_In, <- list_elem_of_In, elem_of_range.
Qed.

Lemma foldr_delete_lookup {V} (m : gmap string V) ks k :
  foldr delete m ks !! k = if decide (k ∈ ks) then None else m !! k.
Proof.
  induction ks as [|k' ks IH]; cbn; [by rewrite decide_False by apply not_elem_of_nil|].
  destruct (decide (k = k')) as [->|Hne].
  - by rewrite lookup_delete_eq, decide_True by apply list_elem_of_here.
  - rewrite lookup_delete_ne, IH by done. apply decide_ext. rewrite elem_of_cons. naive_solver.
Qed.
Lemma foldr_alter_lookup {V} (f : V → V) (m : gmap string V) ks k :
  (∀ v, f (f v) = f v) → foldr (alter f) m ks !! k = if decide (k ∈ ks) then f <$> m !! k else m !! k.
Proof.
  intros Hf. induction ks as [|k' ks IH]; cbn; [by rewrite decide_False by apply not_elem_of_nil|].
  destruct (decide (k = k')) as [->|Hne].
  - rewrite lookup_alter_eq, IH, (decide_True _ _ (list_elem_of_here _ _)).
    case_decide; [|done]. rewrite <- option_fmap_compose. apply option_fmap_ext. apply Hf.
  - rewrite lookup_alter_ne, IH by congruence. apply decide_ext. rewrite elem_of_cons. naive_solver.
Qed.

Lemma add_owner_lookup gw o k k' :
  add_owner gw o k' !! k = if decide (k = k') then Some (enlist gw (default [] (o !! k))) else o !! k.
Proof.
  unfold add_owner, enlist. destruct (decide (k = k')) as [->|Hne].
  - destruct (o !! k') as [os|] eqn:E; cbn [default from_option id];
      [destruct (owns gw os); [exact E|]|]; apply lookup_insert_eq.
  - case_match; [done|]. by rewrite lookup_insert_ne by congruence.
Qed.
Lemma enlist_idem gw os : enlist gw (enlist gw os) = enlist gw os.
Proof.
  unfold enlist at 1. rewrite (proj2 (owns_elem _ _)); [done|]. apply elem_of_enlist. by left.
Qed.
Lemma fold_add_lookup gw ks o k :
  fold_left (add_owner gw) ks o !! k = if decide (k ∈ ks) then Some (enlist gw (default [] (o !! k))) else o !! k.
Proof.
  revert o. induction ks as [|k' ks IH]; intros o; cbn; [by rewrite decide_False by apply not_elem_of_nil|].
  rewrite IH, add_owner_lookup. destruct (decide (k = k')) as [->|Hne].
  - rewrite (decide_True _ _ (list_elem_of_here _ _)). case_decide; cbn; [by rewrite enlist_idem|done].
  - apply decide_ext. rewrite elem_of_cons. naive_solver.
Qed.

Lemma drop_stale_lookup gw l o k' k :
  (drop_stale gw (l, o) k').1 !! k
    = (if decide (k = k') then (if keep gw (default [] (o !! k)) then l !! k else None) else l !! k)
  ∧ (drop_stale gw (l, o) k').2 !! k
    = (if decide (k = k') then keep gw (default [] (o !! k)) else o !! k).
Proof.
  unfold drop_stale, keep. destruct (decide (k = k')) as [->|Hne].
  - destruct (without gw _) eqn:E; cbn; by rewrite ?lookup_delete_eq, ?lookup_insert_eq.
  - destruct (without gw _) eqn:E; cbn; by rewrite ?lookup_delete_ne, ?lookup_insert_ne by congruence.
Qed.
Lemma keep_idem gw os : keep gw (default [] (keep gw os)) = keep gw os.
Proof.
  unfold keep. destruct (without gw os) as [|o os'] eqn:E; [done|]. cbn [default from_option id].
  by rewrite <- E, without_idem, E.
Qed.
Lemma fold_drop_lookup gw ks l o k :
  (fold_left (drop_stale gw) ks (l, o)).1 !! k
    = (if decide (k ∈ ks) then (if keep gw (default [] (o !! k)) then l !! k else None) else l !! k)
  ∧ (fold_left (drop_stale gw) ks (l, o)).2 !! k
    = (if decide (k ∈ ks) then keep gw (default [] (o !! k)) else o !! k).
Proof.
  revert l o. induction ks as [|k' ks IH]; intros l o; cbn [fold_left];
    [by rewrite !decide_False by apply not_elem_of_nil|].
  pose proof (drop_stale_lookup gw l o k' k) as [Hl Ho].
  destruct (drop_stale gw (l, o) k') as [l1 o1]; cbn [fst snd] in *.
  destruct (IH l1 o1) as [-> ->]. rewrite Hl, Ho. destruct (decide (k = k')) as [->|Hne].
  - rewrite !(decide_True _ _ (list_elem_of_here k' ks)). rewrite keep_idem.
    case_decide; [|done]. by destruct (keep gw _).
  - assert (Hiff : k ∈ ks ↔ k ∈ k' :: ks) by (rewrite elem_of_cons; naive_solver).
    by rewrite !(decide_ext _ _ _ _ Hiff).
Qed.

(** ** One operation on a namespace *)

(** The annotation of the namespace holds the ownership map [o]. *)
Definition parsed (ns : ObjectMeta) (o : Ownership) : Prop :=
  parseOwnershipAnnotation (value (Annotations ns) gatewayLabelsAnnotation) = Ok (Some o).
Definition valid_owners (owners : list string) : Prop := owners ≠ [] ∧ NoDup owners.
Definition valid (o : Ownership) : Prop := ∀ k owners, o !! k = Some owners → valid_owners owners.

Lemma parsed_with_ownership o l ns :
  ascii_ownership o → parsed (set_annotations (with_ownership o (Annotations ns)) (set_labels l ns)) o.
Proof.
  intros Ha. unfold parsed, with_ownership, parseOwnershipAnnotation, value. cbn [Annotations set_annotations].
  case_bool_decide as E; [by subst; rewrite lookup_delete_eq|]. rewrite lookup_insert_eq. cbn.
  destruct (String.eqb_spec (marshal_ownership o) "") as [Hm|_]; [by apply marshal_not_empty in Hm|].
  by apply unmarshal_marshal.
Qed.

Lemma parsed_unique ns o o' : parsed ns o → parsed ns o' → o = o'.
Proof. unfold parsed. congruence. Qed.

(** What is left of the ownership once [gw] is released, and whose labels go. *)
Definition released (gw : string) (o : Ownership) : Ownership := omap (keep gw) o.
Definition sole (gw : string) (o : Ownership) (k : string) : Prop := o !! k = Some [gw].
#[local] Instance sole_dec gw o k : Decision (sole gw o k) := decide_rel (=) (o !! k) (Some [gw]).

Lemma keep_not_owner gw owners : owners ≠ [] → gw ∉ owners → keep gw owners = Some owners.
Proof. intros Hne Hn. unfold keep. rewrite without_id by done. by destruct owners. Qed.
Lemma keep_valid gw owners owners' : NoDup owners → keep gw owners = Some owners' → valid_owners owners'.
Proof.
  unfold keep. intros Hd H. split; destruct (without gw owners) as [|x xs] eqn:E; simplify_eq; [done|].
  rewrite <- E. eapply sublist_NoDup; [done|]. apply without_sublist.
Qed.
Lemma released_valid gw o : valid o → valid (released gw o).
Proof.
  intros Hv k os. unfold released. rewrite lookup_omap. destruct (o !! k) as [os'|] eqn:E; [|done]. cbn.
  apply keep_valid. by eapply Hv.
Qed.

Lemma released_ascii gw o : ascii_ownership o → ascii_ownership (released gw o).
Proof.
  intros Ha k os. unfold released. rewrite lookup_omap. destruct (o !! k) as [os'|] eqn:E; [|done]. cbn.
  destruct (Ha _ _ E) as [Hk Hg]. unfold keep. intros Hw. split; [done|]. intros g Hin. apply Hg.
  destruct (without gw os') eqn:Ew; simplify_eq. rewrite <- Ew in Hin. by apply elem_of_without in Hin as [_ ?].
Qed.

Lemma release_parts gw o k owners :
  valid o → o !! k = Some owners →
  (owns gw owners && (length owners =? 1)%nat = true ↔ owners = [gw]).
Proof.
  intros Hv Ho. rewrite andb_true_iff, owns_elem, Nat.eqb_eq. split.
  - intros [Hin Hl]. destruct owners as [|x [|]]; try done. by apply list_elem_of_singleton in Hin as ->.
  - intros ->. split; [by apply list_elem_of_singleton|done].
Qed.

Lemma elem_of_held (gw : string) (f : string * list string → bool) (o : Ownership) k :
  k ∈ map fst (List.filter f (List.filter (λ entry, owns gw entry.2) (range_map o))) ↔
  ∃ owners, o !! k = Some owners ∧ gw ∈ owners ∧ f (k, owners) = true.
Proof.
  rewrite list_elem_of_fmap. split.
  - intros ([k' os] & -> & Hin). rewrite list_elem_of_In, !filter_In, <- list_elem_of_In, elem_of_range in Hin.
    destruct Hin as [[Ho Hg%owns_elem] Hf]. by exists os.
  - intros (os & Ho & Hg & Hf). exists (k, os). split; [done|].
    by rewrite list_elem_of_In, !filter_In, <- list_elem_of_In, elem_of_range, owns_elem.
Qed.

(** The keys a release removes, and those it leaves to other owners. *)
Definition gone_keys (gw : string) (o : Ownership) : list string :=
  map fst (List.filter (λ entry, (length entry.2 =? 1)%nat) (List.filter (λ entry, owns gw entry.2) (range_map o))).
Definition shared_keys (gw : string) (o : Ownership) : list string :=
  map fst (List.filter (λ entry, negb (length entry.2 =? 1)%nat)
             (List.filter (λ entry, owns gw entry.2) (range_map o))).

Lemma elem_of_gone gw o k : valid o → k ∈ gone_keys gw o ↔ sole gw o k.
Proof.
  intros Hv. unfold gone_keys, sole. rewrite elem_of_held. split.
  - intros (os & Ho & Hg%owns_elem & Hl). rewrite Ho. f_equal. eapply release_parts; [done..|]. cbn in Hl. by rewrite Hg, Hl.
  - intros Ho. exists [gw]. split_and!; [done|by apply list_elem_of_singleton|done].
Qed.
Lemma elem_of_shared gw o k : valid o → k ∈ shared_keys gw o ↔ ∃ os, o !! k = Some os ∧ gw ∈ os ∧ os ≠ [gw].
Proof.
  intros Hv. unfold shared_keys. rewrite elem_of_held. split; intros (os & Ho & Hg & H); exists os; split_and!; try done.
  - intros ->. by cbn in H.
  - apply negb_true_iff. cbn. destruct (length os =? 1)%nat eqn:E; [|done]. exfalso. apply H.
    eapply release_parts; [done..|]. by rewrite (proj2 (owns_elem _ _) Hg), E.
Qed.

Lemma release_owners gw o :
  valid o → foldr (alter (without gw)) (foldr delete o (gone_keys gw o)) (shared_keys gw o) = released gw o.
Proof.
  intros Hv. apply map_eq. intros k. unfold released.
  rewrite lookup_omap, foldr_alter_lookup, foldr_delete_lookup by apply without_idem.
  destruct (decide (k ∈ gone_keys gw o)) as [Hg|Hg]; rewrite elem_of_gone in Hg by done.
  { rewrite Hg. cbn. unfold keep, without. cbn. rewrite String.eqb_refl. by case_decide. }
  unfold sole in Hg. destruct (decide (k ∈ shared_keys gw o)) as [Hs|Hs]; rewrite elem_of_shared in Hs by done.
  - destruct Hs as (os & Ho & Hin & Hns). rewrite Ho. cbn. destruct (Hv _ _ Ho) as [Hne Hd].
    destruct (keep gw os) as [os'|] eqn:Ek; [|by apply keep_none in Ek].
    revert Ek. unfold keep. destruct (without gw os) eqn:Ew; [done|]. by intros [= <-].
  - destruct (o !! k) as [os|] eqn:E; [|done]. cbn. destruct (Hv _ _ E) as [Hne Hd].
    rewrite keep_not_owner; [done|done|]. intros Hin. apply Hs. exists os. split_and!; [done..|congruence].
Qed.

Lemma released_unshared gw o : valid o → gone_keys gw o = [] → shared_keys gw o = [] → released gw o = o.
Proof. intros Hv Eg Es. rewrite <- release_owners, Eg, Es by done. done. Qed.

Lemma release_spec gw ns o :
  parsed ns o → valid o → ascii_ownership o → ∃ ns' r, releaseGatewayLabels gw ns = Ok (ns', r) ∧ parsed ns' (released gw o)
    ∧ ∀ k, Labels ns' !! k = if decide (sole gw o k) then None else Labels ns !! k.
Proof.
  intros Hp Hv Ha. unfold releaseGatewayLabels. rewrite Hp. cbn [default from_option id].
  fold (gone_keys gw o) (shared_keys gw o). cbv zeta. rewrite release_owners by done.
  assert (Hlab : ∀ k, foldr delete (Labels ns) (gone_keys gw o) !! k = if decide (sole gw o k) then None else Labels ns !! k).
  { intros k. rewrite foldr_delete_lookup. by apply decide_ext, elem_of_gone. }
  pose proof (released_unshared gw o Hv) as Hid.
  destruct (gone_keys gw o), (shared_keys gw o); (eexists _, _; split; [done|]; split; [|exact Hlab]);
    try (by apply parsed_with_ownership, released_ascii). by rewrite Hid.
Qed.

(** Who owns a label, and which labels go when the ownership changes from [o]
    to [o']. *)
Definition owner (o : Ownership) (k g : string) : Prop := ∃ owners, o !! k = Some owners ∧ g ∈ owners.
Definition dropped (o o' : Ownership) (k : string) : Prop := is_Some (o !! k) ∧ o' !! k = None.
#[local] Instance dropped_dec o o' k : Decision (dropped o o' k) := and_dec (is_Some_dec _) (option_eq_None_dec _).

Lemma owner_released gw o k g : owner (released gw o) k g ↔ owner o k g ∧ g ≠ gw.
Proof.
  unfold owner, released. rewrite lookup_omap. destruct (o !! k) as [os|]; cbn; [|naive_solver].
  unfold keep. destruct (without gw os) as [|x xs] eqn:E.
  - split; [naive_solver|]. intros ((os' & [= <-] & Hg) & Hne).
    assert (g ∈ without gw os) as H by (by apply elem_of_without). rewrite E in H. by apply not_elem_of_nil in H.
  - rewrite <- E. split.
    + intros (os' & [= <-] & [Hne Hg]%elem_of_without). split; [by exists os|done].
    + intros ((os' & [= <-] & Hg) & Hne). exists (without gw os). split; [done|]. by apply elem_of_without.
Qed.
Lemma sole_dropped gw o k : valid o → sole gw o k ↔ dropped o (released gw o) k.
Proof.
  intros Hv. unfold sole, dropped, released. rewrite lookup_omap. destruct (o !! k) as [os|] eqn:E; cbn.
  - destruct (Hv _ _ E) as [Hne Hd]. split.
    + intros [= ->]. split; [done|]. apply keep_none; [done|apply list_elem_of_here|done].
    + intros [_ Hk]. f_equal. destruct (decide (gw ∈ os)); [by apply keep_none|]. by rewrite keep_not_owner in Hk.
  - split; [done|]. by intros [[? ?] _].
Qed.

(** Releasing several Gateways in turn. *)
Definition released_all (gws : list string) (o : Ownership) : Ownership := fold_left (λ o gw, released gw o) gws o.

Lemma released_none gw o k : o !! k = None → released gw o !! k = None.
Proof. intros E. unfold released. by rewrite lookup_omap, E. Qed.
Lemma released_all_none gws o k : o !! k = None → released_all gws o !! k = None.
Proof. unfold released_all. revert o. induction gws as [|gw gws IH]; intros o E; cbn; [done|]. by apply IH, released_none. Qed.
Lemma owner_released_all gws o k g : owner (released_all gws o) k g ↔ owner o k g ∧ g ∉ gws.
Proof.
  unfold released_all. revert o. induction gws as [|gw gws IH]; intros o; cbn.
  - split; [|by intros []]. intros H. split; [done|apply not_elem_of_nil].
  - rewrite IH, owner_released, not_elem_of_cons. naive_solver.
Qed.

Lemma release_all_spec gws ns o :
  parsed ns o → valid o → ascii_ownership o → ∃ ns',
    fold_res (λ ns gatewayName, res_map fst (releaseGatewayLabels gatewayName ns)) ns gws = Ok ns'
    ∧ parsed ns' (released_all gws o) ∧ valid (released_all gws o) ∧ ascii_ownership (released_all gws o)
    ∧ ∀ k, Labels ns' !! k = if decide (dropped o (released_all gws o) k) then None else Labels ns !! k.
Proof.
  revert ns o. induction gws as [|gw gws IH]; intros ns o Hp Hv Ha; cbn [fold_res].
  { exists ns. split_and!; [done..|]. intros k. rewrite decide_False; [done|]. intros [[x Hx] Hn]. cbn in Hn. congruence. }
  destruct (release_spec gw ns o Hp Hv Ha) as (ns1 & r & -> & Hp1 & Hl1).
  destruct (IH ns1 (released gw o) Hp1 (released_valid gw o Hv) (released_ascii gw o Ha)) as (ns' & E & Hp' & Hv' & Ha' & Hl').
  exists ns'. split_and!; [exact E|exact Hp'|exact Hv'|exact Ha'|]. intros k. rewrite Hl', Hl1.
  change (released_all gws (released gw o)) with (released_all (gw :: gws) o).
  rewrite (decide_ext _ _ _ _ (sole_dropped gw o k Hv)).
  pose proof (released_all_none gws (released gw o) k) as Hnone.
  pose proof (released_none gw o k) as Hnone1.
  change (released_all gws (released gw o)) with (released_all (gw :: gws) o) in Hnone.
  unfold dropped. pose proof (not_eq_None_Some (o !! k)). pose proof (not_eq_None_Some (released gw o !! k)).
  repeat case_decide; tauto.
Qed.

(** The Gateways released for the sake of [keep]: every other owner. *)
Definition note_owner (kept : string) (released : list string) (owner : string) : list string :=
  if negb (String.eqb owner kept) && negb (owns owner released) then (released ++ [owner])%list else released.
Lemma elem_of_noted kept owners l g :
  g ∈ fold_left (note_owner kept) owners l ↔ g ∈ l ∨ g ∈ owners ∧ g ≠ kept.
Proof.
  revert l. induction owners as [|x owners IH]; intros l; cbn.
  - rewrite elem_of_nil. naive_solver.
  - rewrite IH, elem_of_cons. unfold note_owner. destruct (String.eqb_spec x kept) as [->|Hne]; cbn; [naive_solver|].
    destruct (owns x l) eqn:E; cbn; [apply owns_elem in E; naive_solver|].
    rewrite elem_of_app, list_elem_of_singleton. naive_solver.
Qed.
Lemma elem_of_owners (o : Ownership) g : g ∈ concat (map snd (range_map o)) ↔ ∃ k, owner o k g.
Proof.
  rewrite list_elem_of_In, in_concat. unfold owner. setoid_rewrite <- list_elem_of_In. split.
  - intros (os & ((k & os') & -> & Hin%elem_of_range)%list_elem_of_fmap & Hg). by exists k, os'.
  - intros (k & os & Ho%elem_of_range & Hg). exists os. split; [|done]. apply list_elem_of_fmap. by exists (k, os).
Qed.

Lemma release_except_spec kept ns o :
  parsed ns o → valid o → ascii_ownership o → ∃ ns' gws o',
    releaseGatewayLabelsExcept kept ns = Ok (ns', gws) ∧ parsed ns' o' ∧ valid o' ∧ ascii_ownership o'
    ∧ (∀ k g, owner o' k g ↔ owner o k g ∧ g = kept)
    ∧ (∀ k, Labels ns' !! k = if decide (dropped o o' k) then None else Labels ns !! k)
    ∧ (gws = [] → ns' = ns).
Proof.
  intros Hp Hv Ha. unfold releaseGatewayLabelsExcept. rewrite Hp. cbn [default from_option id].
  change (fold_left _ _ []) with (fold_left (note_owner kept) (concat (map snd (range_map o))) []).
  set (gws := sort_strings _).
  assert (Hg : ∀ g, g ∈ gws ↔ (∃ k, owner o k g) ∧ g ≠ kept).
  { intros g. unfold gws, sort_strings. rewrite isort_elem, elem_of_noted, elem_of_owners, elem_of_nil. naive_solver. }
  destruct (release_all_spec gws ns o Hp Hv Ha) as (ns' & E & Hp' & Hv' & Ha' & Hl'). rewrite E.
  exists ns', gws, (released_all gws o). split_and!; [done..| |done|].
  - intros k g. rewrite owner_released_all, Hg. destruct (decide (g = kept)); naive_solver.
  - intros Hnil. rewrite Hnil in E. by injection E.
Qed.

(** *** Attaching a Gateway *)

Lemma first_conflict_none f entries :
  first_conflict f entries = None ↔ ∀ k v, (k, v) ∈ entries → f k v = None.
Proof.
  induction entries as [|[k v] entries IH]; cbn; [split; [by intros _ ? ? ?%not_elem_of_nil|done]|].
  destruct (f k v) eqn:E.
  - split; [done|]. intros H. specialize (H k v (list_elem_of_here _ _)). congruence.
  - rewrite IH. split.
    + intros H k' v' [[= -> ->]|Hin]%elem_of_cons; [done|by apply H].
    + intros H k' v' Hin. apply H. by apply list_elem_of_further.
Qed.
(** A label may be set when it is free, has the value already, or is owned by
    this Gateway alone. *)
Definition settable (gw : string) (labels : gmap string string) (o : Ownership) (k v : string) : Prop :=
  labels !! k = None ∨ labels !! k = Some v ∨ sole gw o k.
Lemma label_conflict_none namespace gw labels o k v :
  valid o → label_conflict namespace gw labels o k v = None ↔ settable gw labels o k v.
Proof.
  intros Hv. unfold label_conflict, settable, sole. destruct (labels !! k) as [w|]; [|naive_solver].
  destruct (String.eqb_spec w v) as [->|Hne]; [naive_solver|].
  destruct (o !! k) as [os|] eqn:E; cbn [default from_option id]; [|naive_solver].
  destruct (Hv _ _ E) as [Hnil _]. destruct os as [|x xs]; [done|].
  case_bool_decide as Hxs; cbn [negb orb].
  - subst xs. destruct (String.eqb_spec x gw); cbn; naive_solver.
  - split; [done|]. intros [?|[?|[= -> ->]]]; [done|congruence|done].
Qed.

Definition stale_keys (gw : string) (d : gmap string string) (o : Ownership) : list string :=
  map fst (List.filter (λ entry, owns gw entry.2 && bool_decide (d !! entry.1 = None)) (range_map o)).
Lemma elem_of_stale gw d o k : k ∈ stale_keys gw d o ↔ owner o k gw ∧ d !! k = None.
Proof.
  unfold stale_keys, owner. rewrite elem_of_range_filter. setoid_rewrite andb_true_iff. cbn.
  setoid_rewrite owns_elem. setoid_rewrite bool_decide_eq_true. naive_solver.
Qed.

Definition planned (gw : string) (d : gmap string string) (o : Ownership) (k : string) : option (list string) :=
  match d !! k with
  | Some _ => Some (enlist gw (default [] (o !! k)))
  | None => o !! k ≫= keep gw
  end.

Lemma enlist_valid gw os : NoDup os → valid_owners (enlist gw os).
Proof.
  intros Hd. unfold enlist. destruct (owns gw os) eqn:E; split.
  - apply owns_elem in E. intros ->. by apply not_elem_of_nil in E.
  - done.
  - by destruct os.
  - apply owns_false in E. by apply nodup_snoc.
Qed.
Lemma planned_valid gw d o k os : valid o → planned gw d o k = Some os → valid_owners os.
Proof.
  unfold planned. intros Hv. destruct (d !! k).
  - intros [= <-]. apply enlist_valid. destruct (o !! k) eqn:E; cbn; [by eapply Hv|constructor].
  - destruct (o !! k) eqn:E; cbn; [|done]. apply keep_valid. by eapply Hv.
Qed.
Definition ascii_request (gw : string) (d : gmap string string) : Prop :=
  ascii_text gw = true ∧ ∀ k, is_Some (d !! k) → ascii_text k = true.
Lemma planned_ascii gw d o o' :
  ascii_request gw d → ascii_ownership o → (∀ k, o' !! k = planned gw d o k) → ascii_ownership o'.
Proof.
  intros [Hgw Hd] Ha E k os. rewrite E. unfold planned. destruct (d !! k) eqn:Ek.
  - intros [= <-]. split; [by apply Hd|]. intros g [->|Hin]%elem_of_enlist; [done|].
    destruct (o !! k) as [os|] eqn:Eo; [|by apply not_elem_of_nil in Hin]. by apply (Ha _ _ Eo).
  - intros Hk. apply (released_ascii gw o Ha k os). unfold released. by rewrite lookup_omap.
Qed.
Lemma owner_planned gw d o k g :
  (∃ os, planned gw d o k = Some os ∧ g ∈ os) ↔ (g = gw ∧ is_Some (d !! k)) ∨ (g ≠ gw ∧ owner o k g).
Proof.
  unfold planned. destruct (d !! k) eqn:Ed.
  - split.
    + intros (os & [= <-] & [->|Hg]%elem_of_enlist); [by left|].
      destruct (o !! k) eqn:E; cbn in Hg; [|by apply not_elem_of_nil in Hg].
      destruct (decide (g = gw)); [by left|]. right. split; [done|]. by eexists.
    + intros H. eexists. split; [done|]. apply elem_of_enlist. destruct H as [[-> _]|(_ & os & -> & Hg)]; [by left|by right].
  - assert (planned gw d o k = released gw o !! k) as E by (unfold planned, released; by rewrite Ed, lookup_omap).
    unfold planned in E. rewrite Ed in E. rewrite E. fold (owner (released gw o) k g). rewrite owner_released.
    split; [naive_solver|]. intros [[_ [? ?]]|?]; [done|naive_solver].
Qed.

(** The labels and the ownership after an attachment. *)
Lemma plan_folds gw d o labels k :
  valid o →
  let st := fold_left (drop_stale gw) (stale_keys gw d o)
              (d ∪ labels, fold_left (add_owner gw) (map fst (range_map d)) o) in
  st.2 !! k = planned gw d o k
  ∧ st.1 !! k = match d !! k with Some v => Some v
                | None => if decide (is_Some (o !! k) ∧ planned gw d o k = None) then None else labels !! k end.
Proof.
  intros Hv. cbv zeta. destruct (fold_drop_lookup gw (stale_keys gw d o) (d ∪ labels)
    (fold_left (add_owner gw) (map fst (range_map d)) o) k) as [-> ->].
  rewrite fold_add_lookup, lookup_union. unfold planned.
  rewrite (decide_ext _ _ _ _ (elem_of_range_keys d k)). destruct (d !! k) as [v|] eqn:Ed.
  - assert (k ∉ stale_keys gw d o) as Hs by (rewrite elem_of_stale; naive_solver).
    rewrite !(decide_False (P := k ∈ _)), (decide_True (P := is_Some _)) by done. split; [done|].
    by destruct (labels !! k).
  - rewrite (decide_False (P := is_Some None)) by (by intros []). rewrite (left_id_L None _).
    destruct (decide (k ∈ stale_keys gw d o)) as [Hs|Hs]; rewrite elem_of_stale in Hs.
    + destruct Hs as ((os & Ho & Hin) & _). rewrite Ho. cbn. split; [done|].
      destruct (keep gw os); [by rewrite decide_False by naive_solver|by rewrite decide_True].
    + destruct (o !! k) as [os|] eqn:Ho; cbn.
      * rewrite keep_not_owner; [|by eapply Hv|intros Hin; apply Hs; split; [by exists os|done]].
        split; [done|]. by rewrite decide_False by naive_solver.
      * split; [done|]. rewrite decide_False; [done|]. by intros [[] _].
Qed.

(** ** The Gateways of a namespace *)

Notation Attached := (gmap string (gmap string string)).

(** [A] gives the labels each attached Gateway wants: the annotation names
    their owners, and the labels are there. *)
Definition serves_gateways (ns : ObjectMeta) (A : Attached) : Prop := ∃ o,
  parsed ns o ∧ valid o ∧ ascii_ownership o
  ∧ (∀ k g, owner o k g ↔ ∃ d, A !! g = Some d ∧ is_Some (d !! k))
  ∧ (∀ g d k v, A !! g = Some d → d !! k = Some v → Labels ns !! k = Some v).

Definition after_plan (ns : ObjectMeta) (p : LabelPlan) : option ObjectMeta :=
  match p with Unchanged => Some ns | Patched ns' => Some ns' | PanicsOnNilMap => None end.

(** Only [gw] stays. *)
Definition alone (gw : string) (A : Attached) : Attached := filter (λ '(g, _), g = gw) A.
Lemma lookup_alone gw A g d : alone gw A !! g = Some d ↔ A !! g = Some d ∧ g = gw.
Proof. unfold alone. by rewrite map_lookup_filter_Some. Qed.

Lemma owner_some o k g : owner o k g → o !! k ≠ None.
Proof. intros (os & -> & _). done. Qed.

Lemma release_serves gw ns A :
  serves_gateways ns A → ∃ ns' r, releaseGatewayLabels gw ns = Ok (ns', r) ∧ serves_gateways ns' (delete gw A).
Proof.
  intros (o & Hp & Hv & Ha & Hown & Hlab). destruct (release_spec gw ns o Hp Hv Ha) as (ns' & r & E & Hp' & Hl').
  exists ns', r. split; [exact E|]. exists (released gw o). split_and!; [done|by apply released_valid|by apply released_ascii| |].
  - intros k g. rewrite owner_released, Hown. setoid_rewrite lookup_delete_Some. naive_solver.
  - intros g d k v [Hne Hd]%lookup_delete_Some Hk. rewrite Hl', decide_False; [by eapply Hlab|].
    rewrite sole_dropped by done. intros [_ Hn]. apply (owner_some (released gw o) k g); [|done].
    apply owner_released. split; [|done]. apply Hown. by exists d.
Qed.

Lemma release_except_serves gw ns A :
  serves_gateways ns A → ∃ ns' gws, releaseGatewayLabelsExcept gw ns = Ok (ns', gws)
    ∧ serves_gateways ns' (alone gw A) ∧ (gws = [] → ns' = ns).
Proof.
  intros (o & Hp & Hv & Ha & Hown & Hlab).
  destruct (release_except_spec gw ns o Hp Hv Ha) as (ns' & gws & o' & E & Hp' & Hv' & Ha' & Ho' & Hl' & Hnil).
  exists ns', gws. split_and!; [done| |done]. exists o'. split_and!; [done..| |].
  - intros k g. rewrite Ho', Hown. setoid_rewrite lookup_alone. naive_solver.
  - intros g d k v [Hd ->]%lookup_alone Hk. rewrite Hl', decide_False; [by eapply Hlab|].
    intros [_ Hn]. apply (owner_some o' k gw); [|done]. apply Ho'. split; [|done]. apply Hown. by exists d.
Qed.

(** The attachment once the others are released. *)
Lemma patched_serves gw d ns A o :
  ascii_request gw d → parsed ns o → valid o → ascii_ownership o →
  (∀ k g, owner o k g ↔ ∃ d, A !! g = Some d ∧ is_Some (d !! k)) →
  (∀ g d k v, A !! g = Some d → d !! k = Some v → Labels ns !! k = Some v) →
  (∀ k v, d !! k = Some v → settable gw (Labels ns) o k v) →
  let st := fold_left (drop_stale gw) (stale_keys gw d o)
              (d ∪ Labels ns, fold_left (add_owner gw) (map fst (range_map d)) o) in
  serves_gateways (set_annotations (with_ownership st.2 (Annotations ns)) (set_labels st.1 ns)) (<[gw := d]> A).
Proof.
  intros Hr Hp Hv Ha Hown Hlab Hset st. assert (Hst := λ k, plan_folds gw d o (Labels ns) k Hv).
  fold st in Hst. cbv zeta in Hst. exists st.2. split_and!.
  - apply parsed_with_ownership. by eapply planned_ascii; [| |apply Hst].
  - intros k os Hk. rewrite (proj1 (Hst k)) in Hk. by eapply planned_valid.
  - by eapply planned_ascii; [| |apply Hst].
  - intros k g. unfold owner. rewrite (proj1 (Hst k)), owner_planned, Hown.
    destruct (decide (g = gw)) as [->|Hne]; [rewrite lookup_insert_eq|rewrite lookup_insert_ne by done]; naive_solver.
  - intros g d' k v Hd' Hk. cbn [Labels set_annotations set_labels]. rewrite (proj2 (Hst k)).
    destruct (decide (g = gw)) as [->|Hne].
    { rewrite lookup_insert_eq in Hd'. injection Hd' as <-. by rewrite Hk. }
    rewrite lookup_insert_ne in Hd' by done. pose proof (Hlab _ _ _ _ Hd' Hk) as Hl.
    assert (owner o k g) as Hg by (apply Hown; by exists d').
    destruct (d !! k) as [w|] eqn:Ed.
    + destruct (Hset _ _ Ed) as [?|[?|Hs]]; [congruence|congruence|]. destruct Hg as (os & Ho & Hin). rewrite Hs in Ho.
      injection Ho as <-. by apply list_elem_of_singleton in Hin.
    + rewrite decide_False; [done|]. intros [_ Hn].
      destruct (proj2 (owner_planned gw d o k g) (or_intror (conj Hne Hg))) as (os & Hs & _). congruence.
Qed.

Lemma unchanged_serves gw d ns A o :
  parsed ns o → valid o → ascii_ownership o →
  (∀ k g, owner o k g ↔ ∃ d, A !! g = Some d ∧ is_Some (d !! k)) →
  (∀ g d k v, A !! g = Some d → d !! k = Some v → Labels ns !! k = Some v) →
  stale_keys gw d o = [] →
  (∀ k v, d !! k = Some v → value (Labels ns) k = v ∧ owner o k gw) →
  serves_gateways ns (<[gw := d]> A).
Proof.
  intros Hp Hv Ha Hown Hlab Hstale Hsame. exists o. split_and!; [done..| |].
  - intros k g. destruct (decide (g = gw)) as [->|Hne]; [rewrite lookup_insert_eq|by rewrite lookup_insert_ne].
    split.
    + intros Hg. exists d. split; [done|]. apply not_eq_None_Some. intros Hn.
      assert (k ∈ stale_keys gw d o) as H by (by apply elem_of_stale). rewrite Hstale in H. by apply not_elem_of_nil in H.
    + intros (d' & [= <-] & [v Hk]). by apply (Hsame k v).
  - intros g d' k v. destruct (decide (g = gw)) as [->|Hne]; [rewrite lookup_insert_eq|rewrite lookup_insert_ne by done; apply Hlab].
    intros [= <-] Hk. destruct (Hsame _ _ Hk) as [Hval Hg]. apply Hown in Hg as (d0 & Hd0 & [v0 Hv0]).
    rewrite (Hlab _ _ _ _ Hd0 Hv0). unfold value in Hval. rewrite (Hlab _ _ _ _ Hd0 Hv0) in Hval. cbn in Hval. by subst.
Qed.

(** [plan_labels] after the release of the others. *)
Lemma no_existsb {A} (f : A → bool) l x : existsb f l = false → x ∈ l → f x = false.
Proof. intros H Hx. destruct (f x) eqn:E; [|done]. assert (existsb f l = true) by (apply existsb_elem; eauto). congruence. Qed.

Lemma plan_serves gw d exclusive ns A p :
  ascii_request gw d → serves_gateways ns A → plan_labels gw d exclusive ns = Ok p →
  ∃ ns', after_plan ns p = Some ns' ∧ serves_gateways ns' (<[gw := d]> (if exclusive then alone gw A else A)).
Proof.
  intros Hr HA. unfold plan_labels.
  assert (∃ ns1 gws, (if exclusive then releaseGatewayLabelsExcept gw ns else Ok (ns, [])) = Ok (ns1, gws)
    ∧ serves_gateways ns1 (if exclusive then alone gw A else A) ∧ (gws = [] → ns1 = ns)) as (ns1 & gws & -> & HA1 & Hnil).
  { destruct exclusive; [by apply release_except_serves|]. by exists ns, []. }
  cbn [res_bind]. destruct HA1 as (o & Hp & Hv & Ha & Hown & Hlab). rewrite Hp. cbn [default from_option id].
  destruct (first_conflict _ _) eqn:Ec; [done|]. rewrite first_conflict_none in Ec.
  assert (Hset : ∀ k v, d !! k = Some v → settable gw (Labels ns1) o k v).
  { intros k v Hk. eapply label_conflict_none; [done|]. apply Ec. by apply elem_of_range. }
  fold (stale_keys gw d o). destruct (negb _) eqn:En.
  - intros [= <-]. apply negb_true_iff in En. apply orb_false_iff in En as [[[En1 En2]%orb_false_iff En3]%orb_false_iff En4].
    apply negb_false_iff, bool_decide_eq_true in En1, En2. rewrite (Hnil En2) in *. exists ns. split; [done|].
    apply (unchanged_serves gw d ns _ o); try done. intros k v Hk%elem_of_range. split.
    + pose proof (no_existsb _ _ _ En3 Hk) as E. by apply negb_false_iff, String.eqb_eq in E.
    + pose proof (no_existsb _ _ _ En4 Hk) as E. apply negb_false_iff, owns_elem in E. cbn in E.
      destruct (o !! k) as [os|] eqn:Eo; [by exists os|]. by apply not_elem_of_nil in E.
  - rewrite (bool_decide_eq_false_2 (Some o = None)) by done. cbn [andb].
    pose proof (patched_serves gw d ns1 _ o Hr Hp Hv Ha Hown Hlab Hset) as H. cbv zeta in H.
    destruct (fold_left (drop_stale gw) _ _) as [l2 o2]. cbn [fst snd] in H.
    intros [= <-]. eexists. split; [done|]. exact H.
Qed.

(** ** Any sequence of operations *)

(** Gateways attach and are released; others edit what no Gateway owns. *)
Inductive label_step : ObjectMeta * Attached → ObjectMeta * Attached → Prop :=
| step_attach gw desired exclusive ns A p ns' :
    ascii_request gw desired → plan_labels gw desired exclusive ns = Ok p → after_plan ns p = Some ns' →
    label_step (ns, A) (ns', <[gw := desired]> (if exclusive then alone gw A else A))
| step_release gw ns A ns' r :
    releaseGatewayLabels gw ns = Ok (ns', r) → label_step (ns, A) (ns', delete gw A)
| step_edit ns A ns' :
    value (Annotations ns') gatewayLabelsAnnotation = value (Annotations ns) gatewayLabelsAnnotation →
    (∀ g d k, A !! g = Some d → is_Some (d !! k) → Labels ns' !! k = Labels ns !! k) →
    label_step (ns, A) (ns', A).
Inductive label_reachable : ObjectMeta * Attached → Prop :=
| reach_start ns : value (Annotations ns) gatewayLabelsAnnotation = "" → label_reachable (ns, ∅)
| reach_step s s' : label_reachable s → label_step s s' → label_reachable s'.

Lemma start_serves ns : value (Annotations ns) gatewayLabelsAnnotation = "" → serves_gateways ns ∅.
Proof.
  intros E. exists ∅. split_and!; [unfold parsed; by rewrite E| | | |].
  - intros k os. by rewrite lookup_empty.
  - intros k os. by rewrite lookup_empty.
  - intros k g. setoid_rewrite lookup_empty. split; [by intros (? & ? & _)|by intros (? & ? & _)].
  - intros g d k v. by rewrite lookup_empty.
Qed.
Lemma step_serves s s' : serves_gateways s.1 s.2 → label_step s s' → serves_gateways s'.1 s'.2.
Proof.
  intros HA Hs. destruct Hs as [gw d ex ns A p ns' Hr E Ha|gw ns A ns' r E|ns A ns' Ean Hl]; cbn [fst snd] in *.
  - destruct (plan_serves _ _ _ _ _ _ Hr HA E) as (ns1 & E1 & H). rewrite Ha in E1. by injection E1 as ->.
  - destruct (release_serves gw _ _ HA) as (ns1 & r1 & E1 & H). rewrite E in E1. by injection E1 as -> _.
  - destruct HA as (o & Hp & Hv & Ha & Hown & Hlab). exists o. split_and!; [|done..|].
    + unfold parsed. by rewrite Ean.
    + intros g d k v Hd Hk. rewrite (Hl g d) by done. by eapply Hlab.
Qed.
Lemma reachable_serves s : label_reachable s → serves_gateways s.1 s.2.
Proof. induction 1; [by apply start_serves|by eapply step_serves]. Qed.

(** C25 Gateways that share a namespace do not disturb one another.  Whatever
    sequence of attachments (of Gateways that share it, or of one that is
    alone there), releases and edits by others a namespace has seen, where
    those edits leave the ownership annotation and the labels of attached
    Gateways as they are, each attached Gateway finds every label its listeners
    select with the value they want; no release fails; and no attachment panics.
    (An edit of the annotation itself can make an attachment panic, see
    [TenantDemo.null_annotation_panics].) *)
Theorem gateways_undisturbed ns A :
  label_reachable (ns, A) →
  (∀ gw d k v, A !! gw = Some d → d !! k = Some v → Labels ns !! k = Some v)
  ∧ (∀ gw, ∃ ns' r, releaseGatewayLabels gw ns = Ok (ns', r))
  ∧ ∀ gw d exclusive, ascii_request gw d → plan_labels gw d exclusive ns ≠ Ok PanicsOnNilMap.
Proof.
  intros HA%reachable_serves. cbn in HA. split_and!.
  - destruct HA as (o & _ & _ & _ & _ & Hlab). exact Hlab.
  - intros gw. destruct (release_serves gw ns A HA) as (ns' & r & E & _). eauto.
  - intros gw d ex Hr E. by destruct (plan_serves _ _ _ _ _ _ Hr HA E) as (ns' & ? & _).
Qed.

Lemma plan_patched gw d ns o ns1 :
  ascii_request gw d → parsed ns o → valid o → ascii_ownership o → plan_labels gw d false ns = Ok (Patched ns1) →
  (∀ k v, d !! k = Some v → settable gw (Labels ns) o k v) ∧
  ∃ o1, parsed ns1 o1 ∧ ∀ k, o1 !! k = planned gw d o k
    ∧ Labels ns1 !! k = match d !! k with Some v => Some v
                | None => if decide (is_Some (o !! k) ∧ planned gw d o k = None) then None else Labels ns !! k end.
Proof.
  intros Hr Hp Hv Ha. unfold plan_labels. cbn [res_bind]. rewrite Hp. cbn [default from_option id].
  destruct (first_conflict _ _) eqn:Ec; [done|]. rewrite first_conflict_none in Ec.
  fold (stale_keys gw d o). destruct (negb _); [done|].
  rewrite (bool_decide_eq_false_2 (Some o = None)) by done. cbn [andb].
  assert (Hst := λ k, plan_folds gw d o (Labels ns) k Hv). cbv zeta in Hst.
  destruct (fold_left (drop_stale gw) _ _) as [l2 o2]. intros [= <-]. split.
  - intros k v Hk. eapply label_conflict_none; [done|]. apply Ec. by apply elem_of_range.
  - exists o2. split; [|exact Hst]. apply parsed_with_ownership.
    by eapply planned_ascii; [| |apply Hst].
Qed.

(** What the round trip does to one key. *)
Lemma planned_released gw d o k :
  valid o → ¬ owner o k gw → planned gw d o k ≫= keep gw = o !! k
  ∧ (planned gw d o k = Some [gw] ↔ is_Some (d !! k) ∧ o !! k = None).
Proof.
  intros Hv Hn. unfold planned. destruct (o !! k) as [os|] eqn:Eo.
  - destruct (Hv _ _ Eo) as [Hne Hd]. assert (gw ∉ os) as Hg by (intros Hin; apply Hn; by exists os).
    destruct (d !! k); cbn; rewrite ?(keep_not_owner gw os Hne Hg); cbn.
    + unfold keep. rewrite without_enlist by done. split; [by destruct os|]. split; [|by intros [_ ?]].
      unfold enlist. rewrite (proj2 (owns_false _ _) Hg). intros [= E]. by destruct os as [|? []].
    + rewrite (keep_not_owner gw os Hne Hg). split; [done|]. split; [|by intros [[] ?]].
      intros [= ->]. destruct Hg. apply list_elem_of_here.
  - destruct (d !! k); cbn; [|split; [done|]; split; [done|by intros [[] _]]]. split; [|by split].
    unfold enlist, keep, without. cbn. by rewrite String.eqb_refl.
Qed.

(** A Gateway's labels leave with it, and only they.  In a namespace the
    Gateways reached, a Gateway that attaches with labels nobody set by hand
    and is then released leaves the labels exactly as they were, the ones it
    shared included, and so the record of their owners. *)
Theorem attach_release ns A gw d ns1 :
  label_reachable (ns, A) → ascii_request gw d → A !! gw = None →
  (∀ k, is_Some (d !! k) → is_Some (Labels ns !! k) → ∃ g d', A !! g = Some d' ∧ is_Some (d' !! k)) →
  plan_labels gw d false ns = Ok (Patched ns1) →
  ∃ ns2 r o, releaseGatewayLabels gw ns1 = Ok (ns2, r) ∧ Labels ns2 = Labels ns ∧ parsed ns o ∧ parsed ns2 o.
Proof.
  intros HA%reachable_serves Hr Hgw Hfree Hplan. destruct HA as (o & Hp & Hv & Ha & Hown & Hlab). cbn [fst snd] in *.
  destruct (plan_patched _ _ _ _ _ Hr Hp Hv Ha Hplan) as (Hset & o1 & Hp1 & Ho1).
  assert (Hn : ∀ k, ¬ owner o k gw) by (intros k (d' & Hd & _)%Hown; congruence).
  assert (Hv1 : valid o1) by (intros k os Hk; rewrite (proj1 (Ho1 k)) in Hk; by eapply planned_valid).
  assert (Ha1 : ascii_ownership o1) by (by eapply planned_ascii; [| |intros k; apply Ho1]).
  destruct (release_spec gw ns1 o1 Hp1 Hv1 Ha1) as (ns2 & r & E & Hp2 & Hl2). exists ns2, r, o.
  assert (released gw o1 = o) as Ho.
  { apply map_eq. intros k. unfold released. rewrite lookup_omap, (proj1 (Ho1 k)). by apply planned_released. }
  split_and!; [exact E| |exact Hp|by rewrite <- Ho]. apply map_eq. intros k.
  destruct (planned_released gw d o k Hv (Hn k)) as [Hkeep Hsole]. destruct (Ho1 k) as [Hk Hlk].
  rewrite Hl2, Hlk. rewrite <- Hk in Hsole. destruct (d !! k) as [v|] eqn:Ed.
  - destruct (Labels ns !! k) as [w|] eqn:El.
    + destruct (Hfree k ltac:(by rewrite Ed) ltac:(by rewrite El)) as (g & d' & Hd' & Hk').
      destruct (proj2 (Hown k g) ltac:(by exists d')) as (os & Ho' & Hin).
      rewrite decide_False by (unfold sole; rewrite Hsole, Ho'; naive_solver).
      destruct (Hset _ _ Ed) as [?|[?|Hs]]; [congruence|congruence|]. unfold sole in Hs. destruct (Hn k).
      exists [gw]. split; [done|apply list_elem_of_here].
    + rewrite decide_True; [done|]. unfold sole. apply Hsole. split; [done|]. destruct (o !! k) as [[|g os]|] eqn:Eo; [| |done].
      * by destruct (Hv _ _ Eo).
      * destruct (proj1 (Hown k g)) as (d' & Hd' & [v' Hv']); [exists (g :: os); split; [done|apply list_elem_of_here]|].
        by rewrite (Hlab _ _ _ _ Hd' Hv') in El.
  - rewrite decide_False by (unfold sole; rewrite Hsole; naive_solver). rewrite decide_False; [done|].
    intros [[os Hs] Hnone]. unfold planned in Hnone. rewrite Ed, Hs in Hnone. cbn in Hnone.
    destruct (Hv _ _ Hs). rewrite keep_not_owner in Hnone; [done|done|]. intros Hin. apply (Hn k). by exists os.
Qed.

End Facts.
End GatewayLabelFacts.
