(* ===== verification/TenantClient.v ===== *)
(** * TenantClient: how the AITenant controller reads and writes

    The configuration of the AITenant controller
    ([maas-controller/pkg/controller/maas/aitenant_controller.go]), the calls it
    shares between its steps, and its writes of the AITenant's status.  A
    function that changes the AITenant in memory returns it with its result. *)

From S2P Require Import Prelude GoStrings Kube AITenant.
From Stdlib Require String.
Local Open Scope string_scope.

Module TenantClient.
Import Kube AITenant.

(** The fields of the controller; durations are in nanoseconds, [HasAPIReader]
    and [HasRecorder] tell whether the fields are set.  [retries] counts the
    attempts of [retry.DefaultBackoff] after the first one, [rfc3339] writes a
    time stamp and [relatedImage] is [RELATED_IMAGE_UBI_MINIMAL_IMAGE]. *)
Class AITenantReconciler := {
  HasAPIReader : bool; AppNamespace : string; TenantNamespaceFlag : string; AITenantNamespace : string;
  GatewayName : string; GatewayNamespace : string; DeletionTimeout : Z; HasRecorder : bool;
  retries : nat; rfc3339 : Z → string; relatedImage : string;
}.
Definition Second : Z := 1000000000.

Section Client.
Context `{R : AITenantReconciler} `{SC : StatusConditions} `{CU : ControllerUtil}.

(** ** Reading and writing *)

Definition get (k : Kind) (key : Key) : Prog (Res ApiErr (Obj k)) := call (Get (negb HasAPIReader) k key).

Definition event (kind reason action note : string) : Prog unit :=
  if HasRecorder then call (Eventf kind reason action note) else Ret tt.

Definition set_status (f : AITenantStatus → AITenantStatus) (t : AITenant) : AITenant :=
  {| meta := meta t; body := {| Spec := Spec (body t); Status := f (Status (body t)) |} |}.
Definition status_of (t : AITenant) : AITenantStatus := Status (body t).
Definition set_condition (type status reason message : string) (t : AITenant) : AITenant :=
  set_status (λ st, {|
    Phase := Phase st; TenantNamespace := TenantNamespace st; GatewayRef := GatewayRef st;
    Conditions := SetStatusCondition {|
      c_Type := type; c_Status := status; c_Reason := reason; c_Message := message;
      c_ObservedGeneration := Generation (meta t) |} (Conditions st) |}) t.
Definition setAITenantPhase (phase reason message : string) (t : AITenant) : AITenant :=
  set_condition AITenantConditionReady (if String.eqb phase "Active" then ConditionTrue else ConditionFalse)
    reason message
    (set_status (λ st, {| Phase := phase; TenantNamespace := TenantNamespace st; GatewayRef := GatewayRef st;
                          Conditions := Conditions st |}) t).
Definition set_tenant_namespace (namespace : string) (t : AITenant) : AITenant :=
  set_status (λ st, {| Phase := Phase st; TenantNamespace := namespace; GatewayRef := GatewayRef st;
                       Conditions := Conditions st |}) t.

(** [retry.OnError] for conflicts. *)
Fixpoint retry_conflict {A} (n : nat) (p : Prog (A * Res ApiErr unit)) : Prog (A * Res ApiErr unit) :=
  x ← p;
  match x.2, n with
  | Err e, S n => if isConflict e then retry_conflict n p else Ret x
  | _, _ => Ret x
  end.

Definition updateAITenantStatus (t : AITenant) (snapshot : AITenantStatus) : Prog (AITenant * Res ApiErr unit) :=
  if bool_decide (snapshot = status_of t) then Ret (t, Ok tt) else
  retry_conflict retries (
    live ← get KAITenant (key_of t);
    match live with
    | Err e => Ret (t, Err e)
    | Ok live =>
        updated ← call (UpdateStatus KAITenant (set_status (λ _, status_of t) live));
        match updated with
        | Err e => Ret (t, Err e)
        | Ok u => Ret (with_meta (set_version (ResourceVersion (meta u))) t, Ok tt)
        end
    end).

Definition tenantNamespaceName (t : AITenant) : string :=
  TenantNamespaceForAITenant (Name (meta t)) TenantNamespaceFlag.
Definition aitenantNamespace : string :=
  if String.eqb AITenantNamespace "" then DefaultAITenantNamespace else AITenantNamespace.
Definition gatewayRefFor (t : AITenant) : TenantGatewayRef := {|
  gr_Namespace := GatewayNamespace;
  gr_Name := match sp_Gateway (Spec (body t)) with
             | Some name => if String.eqb name "" then Name (meta t) else name
             | None => Name (meta t)
             end |}.

(** The finalizer operations on an object. *)
Definition ContainsFinalizer {B} (o : Object B) (f : string) : bool := contains_finalizer (Finalizers (meta o)) f.
Definition AddFinalizer {B} (f : string) (o : Object B) : Object B :=
  with_meta (set_finalizers (add_finalizer f (Finalizers (meta o)))) o.
Definition RemoveFinalizer {B} (f : string) (o : Object B) : Object B :=
  with_meta (set_finalizers (remove_finalizer f (Finalizers (meta o)))) o.

(** A deletion that tolerates an absent object. *)
Definition delete_tolerant (k : Kind) (text : string) (o : Obj k) : Prog (Res GoErr unit) :=
  d ← call (Delete k o false);
  Ret (map_err (wrap text) (ignore_not_found tt d)).

Definition deleting {B} (o : Object B) : bool := negb (bool_decide (DeletionTimestamp (meta o) = None)).
Definition named {B} (o : Object B) : string := Namespace (meta o) +:+ "/" +:+ Name (meta o).

End Client.
End TenantClient.
