(* ===== verification/GatewayClaims.v ===== *)
(** * GatewayClaims: one Gateway, one tenant

    [ensureGatewayClaim], [deleteGatewayClaim] and [cleanupStaleClaims] of
    [maas-controller/pkg/controller/maas/aitenant_controller.go]: an AITenant
    takes its Gateway by creating a ConfigMap whose name is derived from the
    Gateway's, so that of two tenants only one can. *)

From S2P Require Import Prelude GoStrings Sha256 Kube AITenant TenantClient.
From Stdlib Require String.
Local Open Scope string_scope.

Module GatewayClaims.
Import Kube AITenant TenantClient.

Definition gatewayClaimName (ref : TenantGatewayRef) : string :=
  "gateway-claim-" +:+ str_take 32 (sha256_hex (gr_Namespace ref +:+ "/" +:+ gr_Name ref)).

(** The first controller reference decides, unless a UID is missing. *)
Definition isClaimOwnedByAITenant (claim : ObjectMeta) (t : AITenant) : bool :=
  match List.find controls (OwnerReferences claim) with
  | Some ref =>
      if negb (String.eqb (or_Kind ref) "AITenant") || negb (String.eqb (or_Name ref) (Name (meta t))) then false else
      if negb (String.eqb (UID (meta t)) "") && negb (String.eqb (or_UID ref) "")
      then String.eqb (or_UID ref) (UID (meta t)) else ownedByAITenant claim t
  | None => ownedByAITenant claim t
  end.

Section Claims.
Context `{R : AITenantReconciler} `{SC : StatusConditions} `{CU : ControllerUtil}.

Definition claim_for (t : AITenant) (ref : TenantGatewayRef) : Obj KConfigMap := {|
  meta :=
    set_annotations (<[aitenantNameAnnotation := Name (meta t)]> {[ aitenantNamespaceAnnotation := Namespace (meta t) ]})
    (set_labels (<["app.kubernetes.io/managed-by" := "maas-controller"]>
                (<["maas.opendatahub.io/gateway-claim" := "true"]> {[ aitenantManagedLabel := "true" ]}))
    (new_meta aitenantNamespace (gatewayClaimName ref)));
  body := <["gatewayNamespace" := gr_Namespace ref]> {[ "gatewayName" := gr_Name ref ]} |}.

Definition list_claims : Prog (Res ApiErr (list (Obj KConfigMap))) :=
  call (ListAll KConfigMap aitenantNamespace {[ "maas.opendatahub.io/gateway-claim" := "true" ]}).

(** The loop over the listed claims, which stops at the first error. *)
Fixpoint delete_claims (text : string) (skip : Obj KConfigMap → bool) (claims : list (Obj KConfigMap))
    : Prog (Res GoErr unit) :=
  match claims with
  | [] => Ret (Ok tt)
  | cm :: rest =>
      if skip cm then delete_claims text skip rest else
      _ <-! delete_tolerant KConfigMap (text +:+ aitenantNamespace +:+ "/" +:+ Name (meta cm)) cm ;;
      delete_claims text skip rest
  end.

Definition deleteGatewayClaim (t : AITenant) : Prog (Res GoErr unit) :=
  claims <-! try ("list gateway claims in " +:+ aitenantNamespace) list_claims ;;
  delete_claims "delete gateway claim " (λ cm, negb (isClaimOwnedByAITenant (meta cm) t)) claims.

Definition cleanupStaleClaims (t : AITenant) (currentRef : TenantGatewayRef) : Prog (Res GoErr unit) :=
  claims <-! try ("list gateway claims in " +:+ aitenantNamespace) list_claims ;;
  delete_claims "delete stale gateway claim "
    (λ cm, String.eqb (Name (meta cm)) (gatewayClaimName currentRef) || negb (isClaimOwnedByAITenant (meta cm) t))
    claims.

(** Who a claim says it belongs to. *)
Definition claim_owner (claim : ObjectMeta) : string :=
  match List.find (λ ref, controls ref && String.eqb (or_Kind ref) "AITenant") (OwnerReferences claim) with
  | Some ref => or_Name ref
  | None => value (Annotations claim) aitenantNameAnnotation
  end.

(** Errors of [SetControllerReference] are those of a controller conflict. *)
Definition ensureGatewayClaim (t : AITenant) (ref : TenantGatewayRef) : Prog (Res GoErr unit) :=
  if String.eqb (gr_Namespace ref) "" || String.eqb (gr_Name ref) ""
  then Ret (Err (plain ("gateway reference must have both namespace and name set (got namespace=" +:+ dquote
                        +:+ gr_Namespace ref +:+ dquote +:+ ", name=" +:+ dquote +:+ gr_Name ref +:+ dquote +:+ ")"))) else
  let claim := claim_for t ref in
  let at_claim := aitenantNamespace +:+ "/" +:+ gatewayClaimName ref in
  match SetControllerReference "AITenant" (meta t) (meta claim) with
  | Err e => Ret (Err (plain ("set owner reference on gateway claim " +:+ at_claim +:+ ": " +:+ e)))
  | Ok m =>
      created ← call (Create KConfigMap (with_meta (λ _, m) claim));
      match created with
      | Ok _ => cleanupStaleClaims t ref
      | Err e =>
          if negb (isAlreadyExists e) then Ret (Err (wrap ("create gateway claim " +:+ at_claim) e)) else
          existing <-! try ("get existing gateway claim " +:+ at_claim)
                         (get KConfigMap (aitenantNamespace, gatewayClaimName ref)) ;;
          if isClaimOwnedByAITenant (meta existing) t then
            if negb (String.eqb (value (body existing) "gatewayNamespace") (gr_Namespace ref))
               || negb (String.eqb (value (body existing) "gatewayName") (gr_Name ref))
            then Ret (Err (plain ("claim " +:+ at_claim +:+ " already exists for gateway "
                   +:+ value (body existing) "gatewayNamespace" +:+ "/" +:+ value (body existing) "gatewayName"
                   +:+ " but tenant " +:+ named t +:+ " needs " +:+ gr_Namespace ref +:+ "/" +:+ gr_Name ref
                   +:+ "; this indicates a hash collision or stale claim"))) else
            match SetControllerReference "AITenant" (meta t) (meta existing) with
            | Err e => Ret (Err (plain ("set owner reference on existing gateway claim " +:+ at_claim +:+ ": " +:+ e)))
            | Ok m =>
                if bool_decide (OwnerReferences (meta existing) = OwnerReferences m) then cleanupStaleClaims t ref else
                _ <-! try ("update owner reference on gateway claim " +:+ at_claim)
                        (call (Update KConfigMap (with_meta (λ _, m) existing))) ;;
                cleanupStaleClaims t ref
            end
          else Ret (Err (plain ("gateway " +:+ gr_Namespace ref +:+ "/" +:+ gr_Name ref
                 +:+ " is already claimed by AITenant " +:+ value (Annotations (meta existing)) aitenantNamespaceAnnotation
                 +:+ "/" +:+ claim_owner (meta existing)
                 +:+ "; each AITenant requires a dedicated Gateway for isolation")))
      end
  end.

End Claims.
End GatewayClaims.
