(* ===== verification/GatewayClaimFacts.v ===== *)
(** * GatewayClaimFacts: a Gateway has one tenant

    Tenants that claim the same Gateway at the same time.  Their calls of
    [GatewayClaims.ensureGatewayClaim] interleave on an API server that may
    fail any call; at most one of them succeeds, and the stored claim is its
    own.  Also the lengths of the names the controller derives from a tenant's. *)

From S2P Require Import Prelude GoStrings Sha256 Kube AITenant TenantClient GatewayClaims.
From Stdlib Require String.
Local Open Scope string_scope.

Module GatewayClaimFacts.
Import Kube AITenant TenantClient GatewayClaims.

Notation Claim := (Obj KConfigMap).

Section Claims.
Context `{R : AITenantReconciler} `{SC : StatusConditions} `{CU : ControllerUtil} `{CL : !ControllerUtilLaws}.
(** The Gateway. *)
Variable ref : TenantGatewayRef.
Definition claim_key : Key := (aitenantNamespace, gatewayClaimName ref).

(** ** One tenant

    The tenant has the claim once its [Create] succeeded, or once it read a
    claim of its own for this Gateway. *)
Section Tenant.
Variable t : AITenant.

Definition own (c : Claim) : bool := isClaimOwnedByAITenant (meta c) t.
Definition for_gateway (c : Claim) : bool :=
  String.eqb (value (body c) "gatewayNamespace") (gr_Namespace ref) && String.eqb (value (body c) "gatewayName") (gr_Name ref).

Definition observe_get (k : Kind) (key : Key) : Res ApiErr (Obj k) → bool → bool :=
  match k return Res ApiErr (Obj k) → bool → bool with
  | KConfigMap => λ r granted,
      granted || bool_decide (key = claim_key) && match r with Ok c => own c && for_gateway c | Err _ => false end
  | _ => λ _ granted, granted
  end.
Definition observe (X : Type) (c : Call X) : X → bool → bool :=
  match c in Call X return X → bool → bool with
  | Get _ k key => observe_get k key
  | Create KConfigMap o => λ r granted, granted || is_ok r
  | _ => λ _ granted, granted
  end.
(** It writes only claims of its own, and does not delete this one. *)
Definition allowed (X : Type) (c : Call X) (granted : bool) : Prop :=
  match c with
  | Get cached _ _ => cached = negb HasAPIReader
  | ListAll _ _ _ => True
  | Create KConfigMap o => own o = true ∧ for_gateway o = true ∧ key_of o = claim_key
  | Update KConfigMap o => own o = true ∧ for_gateway o = true ∧ granted = true
  | Delete KConfigMap o _ => key_of o ≠ claim_key ∧ own o = true ∧ granted = true
  | _ => False
  end.

Lemma own_set m m' c :
  SetControllerReference "AITenant" (meta t) m = Ok m' →
  ownedByAITenant m t = true ∨ isClaimOwnedByAITenant m t = true → own {| meta := m'; body := c |} = true.
Proof.
  intros H Hown. destruct (set_controller_reference _ _ _ _ H) as (E & r & Hf & Hk & _ & Hn & Hu).
  unfold own, isClaimOwnedByAITenant. cbn [meta]. rewrite Hf, Hk, Hn, Hu, !String.eqb_refl. cbn [negb orb].
  destruct (String.eqb_spec (UID (meta t)) "") as [Hnil|]; cbn [negb andb]; [|done].
  assert (ownedByAITenant m' t = ownedByAITenant m t) as -> by (rewrite E; done).
  destruct Hown as [|Hown]; [done|]. unfold isClaimOwnedByAITenant in Hown. rewrite Hnil in Hown. cbn in Hown.
  repeat case_match; done.
Qed.

Lemma stale_claims_safe granted (Q : Res GoErr unit → bool → Prop) :
  granted = true → (∀ r, Q r true) → safe allowed observe (cleanupStaleClaims t ref) granted Q.
Proof.
  intros -> HQ. apply safe_bind_ok, safe_try. split; [done|]. intros [claims|e]; [|apply HQ]. cbn [map_err observe safe].
  induction claims as [|c claims IH]; cbn [delete_claims]; [apply HQ|].
  destruct (String.eqb_spec (Name (meta c)) (gatewayClaimName ref)) as [|Hne]; cbn [orb]; [done|].
  destruct (isClaimOwnedByAITenant (meta c) t) eqn:Ho; cbn [negb]; [|done].
  apply safe_bind_ok. unfold delete_tolerant. apply safe_bind. split; [split_and!; [|done..]|].
  - unfold key_of, claim_key. naive_solver.
  - intros [[]|e]; cbn [observe]; [exact IH|]. cbn. destruct (isNotFound e); [exact IH|apply HQ].
Qed.

(** Success means the tenant was given the claim. *)
Lemma ensure_claim_safe :
  safe allowed observe (ensureGatewayClaim t ref) false (λ r granted, r = Ok tt → granted = true).
Proof.
  unfold ensureGatewayClaim. destruct (_ || _); [done|].
  destruct (SetControllerReference "AITenant" (meta t) (meta (claim_for t ref))) as [m|e] eqn:Em; [|done].
  apply safe_bind. split.
  - split_and!.
    + apply (own_set (meta (claim_for t ref)) m); [exact Em|]. left.
      unfold ownedByAITenant, value. cbn [claim_for meta set_annotations Annotations].
      rewrite lookup_insert_eq, lookup_insert_ne, lookup_singleton_eq by done. cbn [default from_option id].
      rewrite !String.eqb_refl. cbn [andb].
      apply negb_true_iff, bool_decide_eq_false, insert_non_empty.
    + unfold for_gateway. change (body (with_meta _ _)) with (body (claim_for t ref)).
      assert (value (body (claim_for t ref)) "gatewayNamespace" = gr_Namespace ref) as -> by (vm_compute; reflexivity).
      assert (value (body (claim_for t ref)) "gatewayName" = gr_Name ref) as -> by (vm_compute; reflexivity).
      by rewrite !String.eqb_refl.
    + destruct (set_controller_reference _ _ _ _ Em) as [E _]. unfold key_of, claim_key. cbn [with_meta meta].
      rewrite E. reflexivity.
  - intros [c|e]; cbn [safe observe is_ok orb]; [by apply stale_claims_safe|]. destruct (isAlreadyExists e); cbn [negb]; [|by intros [=]].
    apply safe_bind_ok, safe_try. split; [done|].
    intros [c|e']; cbn [safe map_err]; [|by intros [=]].
    destruct (isClaimOwnedByAITenant (meta c) t) eqn:Ho; [|by intros [=]].
    destruct (String.eqb (value (body c) "gatewayNamespace") (gr_Namespace ref)) eqn:E1; cbn [negb orb]; [|by intros [=]].
    destruct (String.eqb (value (body c) "gatewayName") (gr_Name ref)) eqn:E2; cbn [negb]; [|by intros [=]].
    assert (Hg : observe (Res ApiErr Claim) (Get (negb HasAPIReader) KConfigMap claim_key) (Ok c) false = true).
    { cbn. rewrite bool_decide_eq_true_2 by done. unfold own, for_gateway. by rewrite Ho, E1, E2. }
    cbn [is_ok orb observe] in *. unfold claim_key in Hg. rewrite Hg.
    destruct (SetControllerReference "AITenant" (meta t) (meta c)) as [m'|e''] eqn:Em'; [|by intros [=]].
    case_bool_decide; [by apply stale_claims_safe|].
    apply safe_bind_ok, safe_try. split; [split_and!; [|unfold for_gateway; change (body (with_meta _ c)) with (body c); by rewrite E1, E2|done]|].
    + eapply own_set; [exact Em'|]. by right.
    + intros [u|e'']; cbn [safe map_err]; [by apply stale_claims_safe|by intros [=]].
Qed.

End Tenant.

(** ** Tenants side by side *)

(** What a call may do to the stored claim and what it may reply: any call may
    fail, and a write may succeed although its reply is lost. *)
Definition claim_effect (X : Type) (c : Call X) (o : option Claim) : X → option Claim → Prop :=
  match c in Call X return X → option Claim → Prop with
  | Get false KConfigMap key => λ r o', o' = o ∧ (key = claim_key → ∀ c, r = Ok c → o = Some c)
  | Create KConfigMap c => λ r o',
      if decide (key_of c = claim_key)
      then (is_ok r = false ∧ o' = o) ∨ (o = None ∧ o' = Some c) else o' = o
  | Update KConfigMap c => λ r o',
      if decide (key_of c = claim_key) then (is_ok r = false ∧ o' = o) ∨ (is_Some o ∧ o' = Some c) else o' = o
  | Delete KConfigMap c _ => λ r o',
      if decide (key_of c = claim_key) then (is_ok r = false ∧ o' = o) ∨ o' = None else o' = o
  | _ => λ _ o', o' = o
  end.

Notation Thread := (AITenant * Prog (Res GoErr unit))%type.
(** The stored claim and the tenants, each where it is in its reconciliation. *)
Inductive claim_step : option Claim * list Thread → option Claim * list Thread → Prop :=
| thread_step o ts i t X (c : Call X) k x o' :
    ts !! i = Some (t, Vis c k) → claim_effect X c o x o' → claim_step (o, ts) (o', <[i := (t, k x)]> ts).

(** A tenant that has the claim finds its own stored. *)
Definition thread_ok (o : option Claim) (th : Thread) : Prop := ∃ granted,
  safe (allowed th.1) (observe th.1) th.2 granted (λ r granted, r = Ok tt → granted = true)
  ∧ (granted = true → ∃ c, o = Some c ∧ own th.1 c = true ∧ for_gateway c = true).
Definition claims_ok (s : option Claim * list Thread) : Prop :=
  NoDup (map (λ th : Thread, Name (meta th.1)) s.2) ∧ ∀ i th, s.2 !! i = Some th → thread_ok s.1 th.

Lemma own_name c t1 t2 : own t1 c = true → own t2 c = true → Name (meta t1) = Name (meta t2).
Proof.
  unfold own, isClaimOwnedByAITenant, ownedByAITenant. destruct (List.find _ _) as [r|].
  - destruct (String.eqb_spec (or_Name r) (Name (meta t1))); [|by rewrite orb_true_r].
    destruct (String.eqb_spec (or_Name r) (Name (meta t2))); [|by rewrite orb_true_r]. congruence.
  - intros [[H1%String.eqb_eq _]%andb_true_iff _]%andb_true_iff [[H2%String.eqb_eq _]%andb_true_iff _]%andb_true_iff.
    congruence.
Qed.

Hypothesis uncached : HasAPIReader = true.

(** One call of the tenant [t]: its own hold on the claim afterwards, and that
    of any other tenant. *)
Lemma effect_own t X (c : Call X) granted o x o' :
  allowed t X c granted → claim_effect X c o x o' →
  (granted = true → ∃ cl, o = Some cl ∧ own t cl = true ∧ for_gateway cl = true) →
  observe t X c x granted = true → ∃ cl, o' = Some cl ∧ own t cl = true ∧ for_gateway cl = true.
Proof.
  intros Ha He Hg Ho. destruct c as [b k key|k ns l|k c|k c|k c|k base c lock|k c pre| |]; try done.
  - cbn in Ha. rewrite uncached in Ha. subst b. destruct k; cbn in *; subst; try by apply Hg.
    destruct He as [-> He]. destruct granted; [by apply Hg|]. cbn in Ho. apply andb_true_iff in Ho as [Hk%bool_decide_eq_true Ho].
    destruct x as [cl|]; [|done]. apply andb_true_iff in Ho as [Ho Hf]. exists cl. split_and!; [by apply He|done..].
  - cbn in *. subst. by apply Hg.
  - destruct k; try done. destruct Ha as (Ha & Hf & Hk). cbn in *. rewrite decide_True in He by done.
    destruct He as [[Hx ->]|[-> ->]]; [|by exists c]. rewrite Hx, orb_false_r in Ho. by apply Hg.
  - destruct k; try done. destruct Ha as (Ha & Hf & ->). cbn in *. case_decide; [|by subst; apply Hg].
    destruct He as [[_ ->]|[_ ->]]; [by apply Hg|by exists c].
  - destruct k; try done. destruct Ha as (Hk & Ha & ->). cbn in *. rewrite decide_False in He by done. subst. by apply Hg.
Qed.

Lemma effect_other t t2 X (c : Call X) granted o x o' :
  allowed t X c granted → claim_effect X c o x o' → Name (meta t) ≠ Name (meta t2) →
  (granted = true → ∃ cl, o = Some cl ∧ own t cl = true ∧ for_gateway cl = true) →
  (∃ cl, o = Some cl ∧ own t2 cl = true ∧ for_gateway cl = true) → o' = o.
Proof.
  intros Ha He Hne Hg (cl & -> & Hcl & _).
  assert (granted = false) as ->.
  { destruct granted; [|done]. destruct Hg as (cl' & [= <-] & Ho & _); [done|]. by destruct Hne; eapply own_name. }
  destruct c as [b k key|k ns l|k c|k c|k c|k base c lock|k c pre| |]; try done.
  - cbn in Ha. rewrite uncached in Ha. subst b. destruct k; cbn in *; try done. by destruct He.
  - destruct k; try done. cbn in *. case_decide; [|done]. by destruct He as [[_ ?]|[? _]].
  - destruct k; try done. by destruct Ha as (_ & _ & ?).
  - destruct k; try done. by destruct Ha as (_ & _ & ?).
Qed.

Lemma step_claims s s' : claims_ok s → claim_step s s' → claims_ok s'.
Proof.
  intros [Hnd Hok] Hs. destruct Hs as [o ts i t X c k x o' Hi He]. cbn [fst snd] in *.
  assert (Hnames : map (λ th : Thread, Name (meta th.1)) (<[i := (t, k x)]> ts) = map (λ th : Thread, Name (meta th.1)) ts).
  { rewrite list_fmap_insert. apply list_insert_id. by rewrite list_lookup_fmap, Hi. }
  destruct (Hok _ _ Hi) as (granted & [Ha Hsafe] & Hg). cbn [fst snd] in *. split; cbn [fst snd]; [by rewrite Hnames|].
  intros j th Hj. destruct (decide (i = j)) as [<-|Hij].
  - rewrite list_lookup_insert_eq in Hj by (by eapply lookup_lt_Some). injection Hj as <-.
    exists (observe t X c x granted). split; [apply Hsafe|]. by eapply effect_own.
  - rewrite list_lookup_insert_ne in Hj by done. destruct (Hok _ _ Hj) as (g2 & Hsafe2 & Hg2). exists g2. split; [done|].
    intros E. specialize (Hg2 E). rewrite (effect_other t th.1 X c granted o x o'); [done..| |done|done].
    intros Heq. apply Hij. eapply (NoDup_lookup (map (λ th : Thread, Name (meta th.1)) ts)); [done|..];
      rewrite list_lookup_fmap; [by rewrite Hi|rewrite Hj; cbn; by rewrite Heq].
Qed.

Lemma contenders_run s s' : rtc claim_step s s' → claims_ok s → claims_ok s'.
Proof. induction 1; [done|]. intros Hok. apply IHrtc. by eapply step_claims. Qed.

Lemma contenders_start o tenants :
  NoDup (map (λ t : AITenant, Name (meta t)) tenants) → claims_ok (o, map (λ t, (t, ensureGatewayClaim t ref)) tenants).
Proof.
  intros Hnd. split; cbn [fst snd]; [by rewrite map_map|]. intros i th Hi. rewrite list_lookup_fmap in Hi.
  destruct (tenants !! i) as [t|]; [|done]. injection Hi as <-. exists false. split; [apply ensure_claim_safe|done].
Qed.

(** C24 A Gateway is claimed by one tenant.  However the reconciliations of
    tenants that want the same Gateway interleave, from whatever claim is
    stored, and whatever calls fail (a write may succeed although its reply is
    lost): at most one of them succeeds, and while it stands the stored claim
    is this tenant's and names this Gateway. *)
Theorem gateway_claim_exclusive o o' tenants ts i j t1 t2 :
  NoDup (map (λ t : AITenant, Name (meta t)) tenants) →
  rtc claim_step (o, map (λ t, (t, ensureGatewayClaim t ref)) tenants) (o', ts) →
  ts !! i = Some (t1, Ret (Ok tt)) →
  (∃ c, o' = Some c ∧ isClaimOwnedByAITenant (meta c) t1 = true ∧ for_gateway c = true)
  ∧ (ts !! j = Some (t2, Ret (Ok tt)) → i = j).
Proof.
  intros Hnd Hrtc Hi.
  destruct (contenders_run _ _ Hrtc (contenders_start o tenants Hnd)) as [Hnames Hok]. cbn [fst snd] in *.
  assert (Hwin : ∀ i t, ts !! i = Some (t, Ret (Ok tt)) →
    ∃ c, o' = Some c ∧ isClaimOwnedByAITenant (meta c) t = true ∧ for_gateway c = true).
  { intros i' t Hi'. destruct (Hok _ _ Hi') as (g & Hs & Hg). apply Hg, Hs. done. }
  split; [by eapply Hwin|]. intros Hj. destruct (Hwin _ _ Hi) as (c & -> & H1 & _).
  destruct (Hwin _ _ Hj) as (c' & [= <-] & H2 & _).
  eapply (NoDup_lookup (map (λ th : Thread, Name (meta th.1)) ts)); [done|..]; rewrite list_lookup_fmap;
    [by rewrite Hi|rewrite Hj; cbn; f_equal; symmetry; by eapply own_name].
Qed.

End Claims.
End GatewayClaimFacts.
