(* ===== verification/TenantRevocation.v ===== *)
(** * TenantRevocation: the API keys of a deleted tenant

    [ensureTenantAPIKeysRevoked] of
    [maas-controller/pkg/controller/maas/aitenant_controller.go] and
    [aitenant_revocation.go]: a Job calls the tenant's maas-api; when the
    objects the Job needs cannot come back, the revocation is skipped with a
    reason of its own. *)

From S2P Require Import Prelude GoStrings Kube AITenant TenantClient.
From Stdlib Require String.
Local Open Scope string_scope.

Module TenantRevocation.
Import Kube AITenant TenantClient.

(** The text of the failed-Job error, [errTenantAPIKeyRevocationJobFailed]. *)
Definition job_failed (job : Job) : GoErr := {|
  etext := "API key revocation Job failed: " +:+ named job;
  cause := JobFailed |}.

Section Revocation.
Context `{R : AITenantReconciler} `{SC : StatusConditions}.

Definition tenantAPIKeysRevoked (t : AITenant) : bool :=
  String.eqb (value (Annotations (meta t)) aitenantAPIKeysRevokedAnnotation) "true"
  || condition_true (Conditions (status_of t)) aitenantAPIKeysRevokedCondition.

(** Sets the condition and persists it; the condition stays in memory when the
    update fails. *)
Definition mark_revoked (reason message : string) (error : string) (t : AITenant)
    : Prog (AITenant * Res GoErr unit) :=
  x ← updateAITenantStatus (set_condition aitenantAPIKeysRevokedCondition ConditionTrue reason message t) (status_of t);
  Ret (x.1, map_err (wrap (error +:+ " on AITenant " +:+ named t)) x.2).
Definition markTenantAPIKeysRevoked : AITenant → Prog (AITenant * Res GoErr unit) :=
  mark_revoked "RevocationJobCompleted" "Tenant API keys were revoked" "mark tenant API keys revoked".
Definition markTenantAPIKeysRevocationSkipped (message : string) : AITenant → Prog (AITenant * Res GoErr unit) :=
  mark_revoked "RevocationOperandsUnavailable" message "mark skipped API-key revocation".

(** The result of a skip is that of [prepareRevocationOperands]. *)
Definition skipTenantAPIKeysRevocation (message : string) (t : AITenant) : Prog (AITenant * Res GoErr bool) :=
  event "Warning" "APIKeyCleanupSkipped" "InvalidateAPIKeys"
    ("Skipping API-key cleanup for AITenant " +:+ named t +:+ ": " +:+ message)
  ≫= λ _, x ← markTenantAPIKeysRevocationSkipped message t;
  Ret (x.1, res_map (λ _, true) x.2).

Definition revocationOperandsReady (t : AITenant) : Prog bool :=
  if String.eqb (trim_space AppNamespace) "" then Ret false else
  sa ← get KServiceAccount (AppNamespace, aitenantAPIKeyCleanupServiceAccountName);
  match sa with
  | Err _ => Ret false
  | Ok _ =>
      svc ← get KService (AppNamespace, MaaSAPIServiceName (tenantIDForRevocation t));
      match svc with
      | Err _ => Ret false
      | Ok _ =>
          dep ← get KDeployment (AppNamespace, MaaSAPIDeploymentName (tenantIDForRevocation t));
          Ret (match dep with Err _ => false | Ok d => (0 <? body d)%Z end)
      end
  end.

(** The cluster-wide [Config] decides whether operands can come back. *)
Definition revocationOperandsRecoverable : Prog (Res GoErr bool) :=
  cfg ← call (Get true KConfig ("", "default"));
  Ret (match cfg with
       | Err e => if isNotFound e then Ok false else Err (wrap "get Config for revocation recovery" e)
       | Ok c => Ok (negb (deleting c))
       end).

Definition revocationOperandsRequestMarker (t : AITenant) : string :=
  if String.eqb (UID (meta t)) "" then "" else
  match DeletionTimestamp (meta t) with
  | Some time => UID (meta t) +:+ "/" +:+ rfc3339 time
  | None => UID (meta t)
  end.

Definition tenant_config_key (t : AITenant) : Key := (tenantNamespaceName t, MaasTenantConfigInstanceName).
Definition operandsRequestedAnnotation : string := "maas.opendatahub.io/revocation-operands-requested".

Definition requestRevocationOperandsViaMaasTenantConfig (t : AITenant) : Prog (Res GoErr unit) :=
  tenant ← call (Get true KTenantConfig (tenant_config_key t));
  match tenant with
  | Err e => Ret (if isNotFound e then Ok tt
                  else Err (wrap "get MaasTenantConfig for revocation operand restore request" e))
  | Ok tenant =>
      if deleting tenant then Ret (Ok tt) else
      let marker := revocationOperandsRequestMarker t in
      if String.eqb marker ""
      then Ret (Err (plain "cannot request revocation operand restore without AITenant UID")) else
      if bool_decide (Annotations (meta tenant) !! operandsRequestedAnnotation = Some marker) then Ret (Ok tt) else
      let changed := with_meta (λ m, set_annotations (<[operandsRequestedAnnotation := marker]> (Annotations m)) m) tenant in
      patched ← call (Patch KTenantConfig tenant changed false);
      Ret (match patched with
           | Err e => Err (wrap "request MaasTenantConfig reconcile for revocation operands" e)
           | Ok _ => Ok tt
           end)
  end.

Definition prepareRevocationOperands (t : AITenant) : Prog (AITenant * Res GoErr bool) :=
  ready ← revocationOperandsReady t;
  if (ready : bool) then Ret (t, Ok true) else
  recoverable ← revocationOperandsRecoverable;
  match recoverable with
  | Err e => Ret (t, Err e)
  | Ok false => skipTenantAPIKeysRevocation "revocation operands are unavailable and cannot be restored" t
  | Ok true =>
      requested ← requestRevocationOperandsViaMaasTenantConfig t;
      match requested with
      | Err e => Ret (t, Err e)
      | Ok _ =>
          ready ← revocationOperandsReady t;
          if (ready : bool) then Ret (t, Ok true) else
          tenant ← call (Get true KTenantConfig (tenant_config_key t));
          match tenant with
          | Err e =>
              if isNotFound e
              then skipTenantAPIKeysRevocation "MaasTenantConfig is not available to restore revocation operands" t
              else Ret (t, Err (wrap "get MaasTenantConfig while waiting for revocation operands" e))
          | Ok tenant =>
              if deleting tenant
              then skipTenantAPIKeysRevocation "MaasTenantConfig is terminating and cannot restore revocation operands" t
              else Ret (t, Ok false)
          end
      end
  end.

Definition revocation_job (t : AITenant) : Job := tenantAPIKeyRevocationJob relatedImage t AppNamespace.

Definition delete_job (text : string) (job : Job) : Prog (Res GoErr unit) :=
  delete_tolerant KJob (text +:+ " API key revocation Job " +:+ named job) job.

Definition ensureTenantAPIKeysRevoked (t : AITenant) : Prog (AITenant * Res GoErr bool) :=
  if tenantAPIKeysRevoked t then Ret (t, Ok true) else
  if String.eqb (trim_space AppNamespace) ""
  then Ret (t, Err (plain "app namespace is required to revoke tenant API keys")) else
  let job := revocation_job t in
  existing ← get KJob (key_of job);
  match existing with
  | Err e =>
      if negb (isNotFound e) then Ret (t, Err (wrap ("get API key revocation Job " +:+ named job) e)) else
      x ← prepareRevocationOperands t;
      let '(t, ready) := (x : AITenant * Res GoErr bool) in
      match ready with
      | Err e => Ret (t, Err e)
      | Ok operandsReady =>
          if tenantAPIKeysRevoked t then Ret (t, Ok true) else
          if negb operandsReady then Ret (t, Ok false) else
          created ← call (Create KJob job);
          Ret (t, match created with
                  | Err e => if isAlreadyExists e then Ok false
                             else Err (wrap ("create API key revocation Job " +:+ named job) e)
                  | Ok _ => Ok false
                  end)
      end
  | Ok existing =>
      if negb (tenantAPIKeyRevocationJobMatchesAITenant existing t) then
        d ← delete_job "delete stale" existing; Ret (t, res_map (λ _, false) d)
      else if jobComplete existing then
        x ← markTenantAPIKeysRevoked t; Ret (x.1, res_map (λ _, true) x.2)
      else if jobFailed existing then
        d ← delete_job "delete failed" existing;
        Ret (t, match d with Err e => Err e | Ok _ => Err (job_failed existing) end)
      else Ret (t, Ok false)
  end.

Definition deleteTenantAPIKeyRevocationJob (t : AITenant) : Prog (Res GoErr unit) :=
  let job := revocation_job t in
  existing ← get KJob (key_of job);
  match existing with
  | Err e => Ret (if isNotFound e then Ok tt
                  else Err (wrap ("get completed API key revocation Job " +:+ named job) e))
  | Ok existing => delete_job "delete completed" existing
  end.

End Revocation.
End TenantRevocation.
