(* ===== verification/TenantDeletion.v ===== *)
(** * TenantDeletion: the end of a tenant

    [reconcileAITenantDelete] of
    [maas-controller/pkg/controller/maas/aitenant_controller.go]: an AITenant
    being deleted keeps its finalizer until its API keys are revoked, its
    configuration is gone and the objects it owns are released. *)

From S2P Require Import Prelude GoStrings Kube AITenant GatewayLabels TenantClient GatewayClaims TenantRevocation.
From Stdlib Require String.
Local Open Scope string_scope.

Module TenantDeletion.
Import Kube AITenant GatewayLabels TenantClient GatewayClaims TenantRevocation.

Section Deletion.
Context `{GR : GoRuntime} `{OJ : OwnershipJSON}.
Context `{R : AITenantReconciler} `{SC : StatusConditions} `{CU : ControllerUtil}.

(** Whether the configuration is gone. *)
Definition deleteTenantConfig (t : AITenant) : Prog (Res GoErr bool) :=
  let key := tenant_config_key t in
  let at_key := key.1 +:+ "/" +:+ key.2 in
  tenant ← get KTenantConfig key;
  match tenant with
  | Err e => Ret (if isNotFound e then Ok true
                  else Err (wrap ("get MaasTenantConfig " +:+ at_key +:+ " during AITenant deletion") e))
  | Ok tenant =>
      if negb (ownedByAITenant (meta tenant) t) then Ret (Ok true) else
      if deleting tenant then Ret (Ok false) else
      if negb (ContainsFinalizer tenant tenantFinalizer) then
        _ <-! try ("add cleanup finalizer to MaasTenantConfig " +:+ at_key)
                (call (Patch KTenantConfig tenant (AddFinalizer tenantFinalizer tenant) false)) ;;
        Ret (Ok false)
      else
        _ <-! delete_tolerant KTenantConfig ("delete MaasTenantConfig " +:+ at_key) tenant ;;
        Ret (Ok false)
  end.

(** [deleteOwned]; its errors are not wrapped. *)
Definition deleteOwned (k : Kind) (t : AITenant) (key : Key) : Prog (Res GoErr unit) :=
  if String.eqb key.2 "" then Ret (Ok tt) else
  obj ← get k key;
  match obj with
  | Err e => Ret (map_err of_api (ignore_not_found tt (Err e)))
  | Ok obj =>
      if negb (ownedByAITenant (meta obj) t) then Ret (Ok tt) else
      d ← call (Delete k obj false);
      Ret (map_err of_api (ignore_not_found tt d))
  end.

Definition deleteAITenantScopedChildren (t : AITenant) : Prog (Res GoErr unit) :=
  _ <-! deleteOwned KRoleBinding t (tenantNamespaceName t, tenantAdminRoleName t) ;;
  _ <-! deleteOwned KRole t (tenantNamespaceName t, tenantAdminRoleName t) ;;
  _ <-! deleteOwned KRoleBinding t (Namespace (meta t), aitenantAccessRoleName t) ;;
  deleteOwned KRole t (Namespace (meta t), aitenantAccessRoleName t).

(** The namespace without the tenant's marks; a label release that fails is
    skipped. *)
Definition released_namespace (t : AITenant) (name : string) (ns : ObjectMeta) : ObjectMeta :=
  let ns := removeAITenantMetadata t name ns in
  let ns := set_labels (removeMapValueIfEqual "opendatahub.io/generated-namespace" "true" (Labels ns)) ns in
  let release := if String.eqb name AppNamespace
                 then res_map fst (releaseGatewayLabels (gr_Name (gatewayRefFor t)) ns)
                 else res_map fst (releaseGatewayLabelsExcept "" ns) in
  match release with Ok ns => ns | Err _ => ns end.

Definition releaseTenantNamespace (t : AITenant) : Prog (Res GoErr unit) :=
  let name := tenantNamespaceName t in
  ns ← get KNamespace ("", name);
  match ns with
  | Err e => Ret (if isNotFound e then Ok tt
                  else Err (wrap ("get tenant namespace " +:+ dquote +:+ name +:+ dquote +:+ " during AITenant deletion") e))
  | Ok ns =>
      if negb (ownedByAITenant (meta ns) t) then Ret (Ok tt) else
      if deleting ns then Ret (Ok tt) else
      let released := with_meta (released_namespace t name) ns in
      if bool_decide (meta ns = meta released) then Ret (Ok tt) else
      _ <-! try ("release tenant namespace " +:+ dquote +:+ name +:+ dquote +:+ " during AITenant deletion")
              (call (Patch KNamespace ns released false)) ;;
      Ret (Ok tt)
  end.

Definition deleteTenantGatewayAuthPolicy (t : AITenant) : Prog (Res GoErr unit) :=
  let unset ref := String.eqb (gr_Name ref) "" || String.eqb (gr_Namespace ref) "" in
  let gatewayRef := if unset (GatewayRef (status_of t)) then gatewayRefFor t else GatewayRef (status_of t) in
  if unset gatewayRef then Ret (Ok tt) else
  let authPolicyName := if String.eqb (Name (meta t)) DefaultAITenantName then "maas-gateway-auth"
                        else gr_Name gatewayRef +:+ "-maas-auth" in
  let at_key := gr_Namespace gatewayRef +:+ "/" +:+ authPolicyName in
  authPolicy ← get KAuthPolicy (gr_Namespace gatewayRef, authPolicyName);
  match authPolicy with
  | Err e => Ret (if isNotFound e then Ok tt
                  else Err (wrap ("get tenant gateway AuthPolicy " +:+ at_key +:+ " during AITenant deletion") e))
  | Ok authPolicy =>
      if negb (isManaged (meta authPolicy)) then Ret (Ok tt) else
      delete_tolerant KAuthPolicy ("delete tenant gateway AuthPolicy " +:+ at_key) authPolicy
  end.

Definition cleanupGatewayLabelsOnDelete (t : AITenant) : Prog (Res GoErr unit) :=
  let gatewayRef := gatewayRefFor t in
  if String.eqb (gr_Name gatewayRef) "" || String.eqb (gr_Namespace gatewayRef) "" then Ret (Ok tt) else
  infraNs ← get KNamespace ("", AppNamespace);
  match infraNs with
  | Err e => Ret (if isNotFound e then Ok tt else Err (wrap ("read infra namespace " +:+ AppNamespace) e))
  | Ok infraNs =>
      match releaseGatewayLabels (gr_Name gatewayRef) (meta infraNs) with
      | Err _ | Ok (_, ([], [])) => Ret (Ok tt)
      | Ok (released, _) =>
          _ <-! try ("cleanup gateway labels on infra namespace " +:+ AppNamespace)
                  (call (Patch KNamespace infraNs (with_meta (λ _, released) infraNs) true)) ;;
          Ret (Ok tt)
      end
  end.

(** The result of a reconciliation: the delay of the next one, 0 for none. *)
Notation Result := (Res GoErr Z).

(** Removes the finalizer, and then the Job whose completion proved the
    revocation; failing to delete the Job is only logged. *)
Definition remove_finalizer_patch (t : AITenant) : Prog Result :=
  patched ← call (Patch KAITenant t (RemoveFinalizer aitenantFinalizer t) false);
  match patched with
  | Err e => Ret (Err (of_api e))
  | Ok _ => deleteTenantAPIKeyRevocationJob t ≫= λ _, Ret (Ok 0%Z)
  end.

(** The deletion time-out; [timeout] is the text of the configured duration. *)
Definition forceRemoveAITenantFinalizer (timeout : string) (t : AITenant) : Prog Result :=
  if negb (tenantAPIKeysRevoked t) then Ret (Ok (30 * Second)%Z) else
  let snapshot := status_of t in
  let t := setAITenantPhase "Terminating" "CleanupForced"
             ("Deletion timeout (" +:+ timeout
              +:+ ") reached after API-key invalidation; remaining cleanup is best effort") t in
  x ← updateAITenantStatus t snapshot;
  let t := x.1 in
  event "Warning" "AITenantCleanupForced" "Cleanup"
    ("Deletion timeout (" +:+ timeout +:+ ") reached for AITenant " +:+ named t
     +:+ " after API-key invalidation; remaining cleanup is best effort") ≫= λ _,
  deleteTenantConfig t ≫= λ _,
  deleteAITenantScopedChildren t ≫= λ _,
  releaseTenantNamespace t ≫= λ _,
  deleteTenantGatewayAuthPolicy t ≫= λ _,
  deleteGatewayClaim t ≫= λ _,
  cleanupGatewayLabelsOnDelete t ≫= λ _,
  remove_finalizer_patch t.

(** A status update whose error ends the reconciliation. *)
Definition report (phase reason message : string) (t : AITenant) (k : AITenant → Prog Result) : Prog Result :=
  x ← updateAITenantStatus (setAITenantPhase phase reason message t) (status_of t);
  match x.2 with Err e => Ret (Err (of_api e)) | Ok _ => k x.1 end.

(** The steps after the revocation. *)
Definition cleanup_after_revocation (t : AITenant) : Prog Result :=
  tenantDeleted <-! deleteTenantConfig t ;;
  if negb tenantDeleted then Ret (Ok (5 * Second)%Z) else
  _ <-! deleteAITenantScopedChildren t ;;
  released ← releaseTenantNamespace t;
  match released with
  | Err e => report "Terminating" "DeletionBlocked" (etext e) t (λ _, Ret (Err e))
  | Ok _ =>
      _ <-! deleteTenantGatewayAuthPolicy t ;;
      _ <-! deleteGatewayClaim t ;;
      _ <-! cleanupGatewayLabelsOnDelete t ;;
      remove_finalizer_patch t
  end.

(** The first status update of the deletion, and then the revocation. *)
Definition terminating (t : AITenant) : AITenant :=
  setAITenantPhase "Terminating" "DeletionInProgress" "AITenant deletion cleanup is in progress"
    (set_tenant_namespace (tenantNamespaceName t) t).

Definition delete_in_order (t : AITenant) : Prog Result :=
  x ← updateAITenantStatus (terminating t) (status_of t);
  match x.2 with
  | Err e => Ret (Err (of_api e))
  | Ok _ =>
      y ← ensureTenantAPIKeysRevoked x.1;
      let '(t, apiKeysRevoked) := (y : AITenant * Res GoErr bool) in
      match apiKeysRevoked with
      | Err e =>
          event "Warning" "APIKeyCleanupFailed" "InvalidateAPIKeys"
            ("failed to invalidate API keys for tenant " +:+ Name (meta t) +:+ ": " +:+ etext e) ≫= λ _,
          report "Terminating" "DeletionBlocked" (etext e) t
            (λ _, Ret (match cause e with JobFailed => Ok (30 * Second)%Z | _ => Err e end))
      | Ok false => Ret (Ok (10 * Second)%Z)
      | Ok true => cleanup_after_revocation t
      end
  end.

(** [now] is the clock; a [DeletionTimeout] of 0 disables the time-out. *)
Definition reconcileAITenantDelete (now : Z) (timeout : string) (t : AITenant) : Prog Result :=
  if negb (ContainsFinalizer t aitenantFinalizer) then Ret (Ok 0%Z) else
  let elapsed := match DeletionTimestamp (meta t) with Some d => (now - d)%Z | None => 0%Z end in
  if (0 <? DeletionTimeout)%Z && (DeletionTimeout <=? elapsed)%Z && tenantAPIKeysRevoked t
  then forceRemoveAITenantFinalizer timeout t
  else delete_in_order t.

End Deletion.
End TenantDeletion.
