(* ===== verification/TenantDeletionFacts.v ===== *)
(** * TenantDeletionFacts: what a tenant's deletion may do, and when

    The deletion of an AITenant as a protocol: a monitor ([allowed],
    [observe]) watches the calls of [TenantDeletion.reconcileAITenantDelete]
    and the replies it gets, and every execution is accepted, whatever the API
    server replies. *)

From S2P Require Import Prelude GoStrings Kube AITenant GatewayLabels TenantClient GatewayClaims TenantRevocation TenantDeletion.
From Stdlib Require String.
Local Open Scope string_scope.

Module TenantDeletionFacts.
Import Kube AITenant GatewayLabels TenantClient GatewayClaims TenantRevocation TenantDeletion.

(** What has been seen so far: the keys are cleared (revoked, or their
    revocation skipped on evidence that its Job cannot run), a probe that found
    the operands missing, the finalizer gone. *)
Record Monitor := { cleared : bool; missing : bool; unblocked : bool }.

Section Protocol.
Context `{R : AITenantReconciler} `{SC : StatusConditions} `{CU : ControllerUtil}.
(** The AITenant as read at the start. *)
Variable t0 : AITenant.

Definition revoked_job (job : Job) : bool :=
  tenantAPIKeyRevocationJobMatchesAITenant job t0 && jobComplete job.
Definition gone {B} (r : Res ApiErr (Object B)) : bool :=
  match r with Err e => isNotFound e | Ok o => deleting o end.
Definition prove (b : bool) (m : Monitor) : Monitor :=
  {| cleared := cleared m || b; missing := missing m; unblocked := unblocked m |}.
Definition miss (b : bool) (m : Monitor) : Monitor :=
  {| cleared := cleared m; missing := missing m || b; unblocked := unblocked m |}.

(** The completed Job of this AITenant clears the keys; so does, without
    proof that any key was revoked, that the cluster configuration or the
    tenant's is gone or going once the Job's operands were found missing: the
    skip. *)
Definition observe_get (k : Kind) (key : Key) : Res ApiErr (Obj k) → Monitor → Monitor :=
  match k return Res ApiErr (Obj k) → Monitor → Monitor with
  | KJob => λ r, prove (bool_decide (key = key_of (revocation_job t0))
                        && match r with Ok job => revoked_job job | Err _ => false end)
  | KServiceAccount | KService => λ r, miss (negb (is_ok r))
  | KDeployment => λ r, miss (match r with Ok d => (body d <=? 0)%Z | Err _ => true end)
  | KConfig => λ r m, prove (missing m && gone r) m
  | KTenantConfig => λ r m, prove (missing m && gone r && bool_decide (key = tenant_config_key t0)) m
  | _ => λ _ m, m
  end.

Definition observe (X : Type) (c : Call X) : X → Monitor → Monitor :=
  match c in Call X return X → Monitor → Monitor with
  | Get _ k key => observe_get k key
  | Patch KAITenant _ _ _ => λ r m, {| cleared := cleared m; missing := missing m; unblocked := unblocked m || is_ok r |}
  | _ => λ _ m, m
  end.

(** The status of an AITenant may tell that its keys are revoked only when
    they are cleared, and only then may its finalizer, or anything it owns, be
    removed.  The Job that proved it stays until the finalizer is gone. *)
Definition allowed_delete (k : Kind) : Obj k → Monitor → Prop :=
  match k return Obj k → Monitor → Prop with
  | KJob => λ job m, tenantAPIKeyRevocationJobMatchesAITenant job t0 = false ∨ jobComplete job = false ∨ unblocked m = true
  | KTenantConfig | KRole | KRoleBinding | KAuthPolicy | KConfigMap => λ _ m, cleared m = true
  | _ => λ _ _, False
  end.
Definition allowed_patch (k : Kind) : Obj k → Obj k → Monitor → Prop :=
  match k return Obj k → Obj k → Monitor → Prop with
  | KAITenant => λ base o m, cleared m = true ∧ o = RemoveFinalizer aitenantFinalizer base
  | KNamespace => λ _ _ m, cleared m = true
  | KTenantConfig => λ base o m, if cleared m then o = AddFinalizer tenantFinalizer base
                                 else Finalizers (meta o) = Finalizers (meta base)
  | _ => λ _ _ _, False
  end.
Definition allowed (X : Type) (c : Call X) (m : Monitor) : Prop :=
  match c with
  | Get _ _ _ | ListAll _ _ _ | ListBy _ _ _ | Eventf _ _ _ _ => True
  | UpdateStatus KAITenant o =>
      condition_true (Conditions (status_of o)) aitenantAPIKeysRevokedCondition = true → cleared m = true
  | Create KJob job => job = revocation_job t0
  | Delete k o _ => allowed_delete k o m
  | Patch k base o _ => allowed_patch k base o m
  | _ => False
  end.

(** ** The AITenant in memory *)

(** In memory only the status and the resource version change. *)
Definition like (t : AITenant) : Prop := ∃ v, meta t = set_version v (meta t0).
Definition claims_revoked (t : AITenant) : bool :=
  condition_true (Conditions (status_of t)) aitenantAPIKeysRevokedCondition.

Lemma like_job t : like t → revocation_job t = revocation_job t0.
Proof.
  intros [v E]. unfold revocation_job, tenantAPIKeyRevocationJob, tenantIDForRevocation. by rewrite E.
Qed.
Lemma like_matches t job :
  like t → tenantAPIKeyRevocationJobMatchesAITenant job t = tenantAPIKeyRevocationJobMatchesAITenant job t0.
Proof. intros [v E]. unfold tenantAPIKeyRevocationJobMatchesAITenant. by rewrite E. Qed.
Lemma like_config_key t : like t → tenant_config_key t = tenant_config_key t0.
Proof. intros [v E]. unfold tenant_config_key, tenantNamespaceName. by rewrite E. Qed.
Lemma like_refl : like t0.
Proof. exists (ResourceVersion (meta t0)). by destruct (meta t0). Qed.
Lemma like_version t v : like t → like (with_meta (set_version v) t).
Proof. intros [w E]. exists v. cbn. by rewrite E. Qed.

Context `{SL : !StatusConditionLaws} `{CL : !ControllerUtilLaws}.

Lemma phase_claims phase reason message t : claims_revoked (setAITenantPhase phase reason message t) = claims_revoked t.
Proof. unfold claims_revoked. cbn. by apply condition_true_set_ne. Qed.
Lemma revoked_cases t :
  tenantAPIKeysRevoked t = String.eqb (value (Annotations (meta t)) aitenantAPIKeysRevokedAnnotation) "true"
                           || claims_revoked t.
Proof. done. Qed.

Notation safe := (safe allowed observe).

(** ** Steps *)

Lemma retry_safe {A} n (p : Prog (A * Res ApiErr unit)) m Q :
  safe p m (λ x m', m' = m ∧ Q x) → safe (retry_conflict n p) m (λ x m', m' = m ∧ Q x).
Proof.
  intros Hp. induction n as [|n IH]; cbn [retry_conflict]; apply safe_bind; eapply safe_mono; try exact Hp;
    intros [t e] m' [-> HQ]; cbn; destruct e as [|e]; cbn; try done. by destruct (isConflict e).
Qed.

(** A status update writes what is in memory. *)
Lemma update_safe t snapshot m :
  like t → (claims_revoked t = true → cleared m = true) →
  safe (updateAITenantStatus t snapshot) m
    (λ x m', m' = m ∧ like x.1 ∧ status_of x.1 = status_of t).
Proof.
  intros Ht Hm. unfold updateAITenantStatus. destruct (bool_decide _); [done|].
  apply retry_safe. apply safe_bind. split; [done|]. intros [live|e]; [|done].
  apply safe_bind. split; [exact Hm|]. intros [u|e]; [|done]. cbn. split_and!; [done| |done].
  by apply like_version.
Qed.

Lemma report_safe phase reason message t k m Q :
  like t → (claims_revoked t = true → cleared m = true) →
  (∀ e, Q (Err e) m) → (∀ t', like t' → claims_revoked t' = claims_revoked t → safe (k t') m Q) →
  safe (report phase reason message t k) m Q.
Proof.
  intros Ht Hm Herr Hk. unfold report. apply safe_bind. eapply safe_mono.
  - apply update_safe; [exact Ht|]. by rewrite phase_claims.
  - intros [t' e] m' (-> & Hl & Hs). destruct e; cbn in *; [|apply Herr].
    apply Hk; [done|]. unfold claims_revoked. rewrite Hs. apply phase_claims.
Qed.

Lemma event_safe {A} kind reason action note (k : unit → Prog A) m Q :
  safe (k tt) m Q → safe (event kind reason action note ≫= k) m Q.
Proof. intros Hk. unfold event. apply safe_bind. destruct HasRecorder; [|done]. split; [done|]. by intros []. Qed.

(** *** After the revocation

    Every step of the clean-up is allowed once the revocation is cleared. *)
Definition tidy {A} (p : Prog A) : Prop :=
  ∀ m, cleared m = true → safe p m (λ _ m', cleared m' = true ∧ unblocked m' = unblocked m).

Lemma tidy_ret {A} (a : A) : tidy (Ret a).
Proof. done. Qed.
Lemma tidy_bind {A B} (p : Prog A) (f : A → Prog B) : tidy p → (∀ a, tidy (f a)) → tidy (p ≫= f).
Proof.
  intros Hp Hf m Hm. apply safe_bind. eapply safe_mono; [by apply Hp|]. intros a m' [Hm' Hu].
  rewrite <- Hu. by apply Hf.
Qed.
Lemma tidy_call {X} (c : Call X) :
  (∀ m, cleared m = true → allowed _ c m) →
  (∀ x m, cleared m = true → cleared (observe _ c x m) = true ∧ unblocked (observe _ c x m) = unblocked m) →
  tidy (call c).
Proof. intros Ha Ho m Hm. split; [by apply Ha|]. intros x. by apply Ho. Qed.
Lemma tidy_bind_ok {E A B} (p : Prog (Res E A)) (f : A → Prog (Res E B)) :
  tidy p → (∀ a, tidy (f a)) → tidy (bind_ok p f).
Proof. intros Hp Hf. apply tidy_bind; [done|]. by intros [a|e]. Qed.
Lemma tidy_try {A} text (p : Prog (Res ApiErr A)) : tidy p → tidy (try text p).
Proof. intros Hp. by apply tidy_bind. Qed.
Lemma tidy_get k key : tidy (get k key).
Proof. apply tidy_call; [done|]. intros x m Hm. destruct k; cbn; rewrite ?Hm; done. Qed.

Ltac tidy_step :=
  first [ apply tidy_ret | apply tidy_get | apply tidy_try | apply tidy_bind_ok; [|intros ?] | apply tidy_bind; [|intros ?]
        | apply tidy_call; [intros m Hm; cbn; rewrite ?Hm; done|done] | case_match ].
Ltac tidy := repeat tidy_step.

Lemma tidy_delete_config t : tidy (deleteTenantConfig t).
Proof. unfold deleteTenantConfig. tidy. Qed.
Lemma tidy_delete_owned k t key : k = KRole ∨ k = KRoleBinding → tidy (deleteOwned k t key).
Proof. intros [-> | ->]; unfold deleteOwned; tidy. Qed.
Lemma tidy_children t : tidy (deleteAITenantScopedChildren t).
Proof. unfold deleteAITenantScopedChildren. repeat (apply tidy_bind_ok; [|intros ?]); apply tidy_delete_owned; auto. Qed.

Context `{GR : GoRuntime} `{OJ : OwnershipJSON}.

Lemma tidy_release t : tidy (releaseTenantNamespace t).
Proof. unfold releaseTenantNamespace. tidy. Qed.
Lemma tidy_auth_policy t : tidy (deleteTenantGatewayAuthPolicy t).
Proof. unfold deleteTenantGatewayAuthPolicy. tidy. Qed.
Lemma tidy_labels t : tidy (cleanupGatewayLabelsOnDelete t).
Proof. unfold cleanupGatewayLabelsOnDelete. tidy. Qed.
Lemma tidy_claims t : tidy (deleteGatewayClaim t).
Proof.
  unfold deleteGatewayClaim, list_claims. apply tidy_bind_ok; [by apply tidy_try, tidy_call|]. intros claims.
  induction claims as [|cm claims IH]; cbn [delete_claims]; [done|].
  case_match; [done|]. apply tidy_bind_ok; [tidy|]. done.
Qed.

(** ** The two ends of the deletion *)

(** The reply to the finalizer patch decides; the Job goes last. *)
Definition ended (res : Res GoErr Z) (m : Monitor) : Prop := res = Ok 0%Z → unblocked m = true.

Lemma delete_job_safe t m :
  like t → unblocked m = true → safe (deleteTenantAPIKeyRevocationJob t) m (λ _ m', unblocked m' = true).
Proof.
  intros Ht Hm. unfold deleteTenantAPIKeyRevocationJob. apply safe_bind. split; [done|]. intros [job|e]; [|done].
  apply safe_bind. split; [by right; right|]. by intros [].
Qed.

Lemma remove_finalizer_safe t m :
  like t → cleared m = true → safe (remove_finalizer_patch t) m ended.
Proof.
  intros Ht Hm. unfold remove_finalizer_patch. apply safe_bind. split; [done|]. intros [o|e]; [|done].
  apply safe_bind. eapply safe_mono; [apply delete_job_safe; [done|]|].
  - cbn. by rewrite orb_true_r.
  - intros ? m' Hu. by intros ?.
Qed.

Lemma tidy_then {A B} (p : Prog A) (f : A → Prog B) m Q :
  tidy p → cleared m = true →
  (∀ a m', cleared m' = true → safe (f a) m' Q) → safe (p ≫= f) m Q.
Proof.
  intros Hp Hm Hf. apply safe_bind. eapply safe_mono; [by apply Hp|]. intros a m' [Hm' _]. by apply Hf.
Qed.
Lemma tidy_then_ok {B} {A} (p : Prog (Res GoErr A)) (f : A → Prog (Res GoErr B)) m Q :
  tidy p → cleared m = true → (∀ e m', Q (Err e) m') →
  (∀ a m', cleared m' = true → safe (f a) m' Q) → safe (bind_ok p f) m Q.
Proof. intros Hp Hm He Hf. apply (tidy_then p); [done..|]. intros [a|e] m' Hm'; [by apply Hf|apply He]. Qed.

Lemma cleanup_safe t m : like t → cleared m = true → safe (cleanup_after_revocation t) m ended.
Proof.
  intros Ht Hm. unfold cleanup_after_revocation.
  apply tidy_then_ok; [apply tidy_delete_config|done..|]. intros gone m1 H1. destruct gone; [|done]. cbn [negb].
  apply tidy_then_ok; [apply tidy_children|done..|]. intros _ m2 H2.
  apply (tidy_then _ _ m2); [apply tidy_release|done|]. intros [u|e] m3 H3.
  - apply tidy_then_ok; [apply tidy_auth_policy|done..|]. intros _ m4 H4.
    apply tidy_then_ok; [apply tidy_claims|done..|]. intros _ m5 H5.
    apply tidy_then_ok; [apply tidy_labels|done..|]. intros _ m6 H6. by apply remove_finalizer_safe.
  - by apply report_safe.
Qed.

Lemma forced_safe timeout t m : like t → cleared m = true → safe (forceRemoveAITenantFinalizer timeout t) m ended.
Proof.
  intros Ht Hm. unfold forceRemoveAITenantFinalizer. destruct (negb _); [done|].
  apply safe_bind. eapply safe_mono; [by apply update_safe|]. intros x m' (-> & Hx & _).
  apply event_safe.
  apply tidy_then; [apply tidy_delete_config|done|]. intros _ m1 H1.
  apply tidy_then; [apply tidy_children|done|]. intros _ m2 H2.
  apply tidy_then; [apply tidy_release|done|]. intros _ m3 H3.
  apply tidy_then; [apply tidy_auth_policy|done|]. intros _ m4 H4.
  apply tidy_then; [apply tidy_claims|done|]. intros _ m5 H5.
  apply tidy_then; [apply tidy_labels|done|]. intros _ m6 H6. by apply remove_finalizer_safe.
Qed.

(** ** The revocation *)

(** The type of a body is computed where an object is tested. *)
Ltac norm_body :=
  repeat match goal with |- context [@deleting (Body ?k) ?o] =>
    let B := eval cbv [Body] in (Body k) in change (@deleting (Body k) o) with (@deleting B o) end.
Ltac case_deleting := norm_body; match goal with |- context [@deleting ?B ?o] => destruct (@deleting B o) end.

Lemma mark_safe reason message text t m :
  like t → cleared m = true → safe (mark_revoked reason message text t) m (λ x m', m' = m ∧ like x.1).
Proof.
  intros Ht Hm. unfold mark_revoked. apply safe_bind. eapply safe_mono; [by apply update_safe|].
  by intros x m' (-> & Hx & _).
Qed.
Lemma skip_safe message t m :
  like t → cleared m = true → safe (skipTenantAPIKeysRevocation message t) m (λ x m', like x.1 ∧ cleared m' = true).
Proof.
  intros Ht Hm. unfold skipTenantAPIKeysRevocation. apply event_safe, safe_bind.
  eapply safe_mono; [by apply mark_safe|]. by intros x m' [-> Hx].
Qed.

(** A probe of the operands learns what is missing. *)
Lemma ready_safe t m :
  trim_space AppNamespace ≠ "" →
  safe (revocationOperandsReady t) m
    (λ ready m', cleared m' = cleared m ∧ (missing m = true ∨ ready = false → missing m' = true)).
Proof.
  intros Happ. unfold revocationOperandsReady. destruct (String.eqb_spec (trim_space AppNamespace) ""); [done|].
  apply safe_bind. split; [done|]. intros [sa|e]; [|cbn; by rewrite orb_true_r].
  apply safe_bind. split; [done|]. intros [svc|e]; [|cbn; by rewrite !orb_true_r].
  apply safe_bind. split; [done|]. intros [dep|e]; cbn; (split; [done|]); rewrite ?orb_false_r, ?orb_true_r; [|done].
  intros [-> | H%Z.ltb_ge]; [done|]. rewrite (proj2 (Z.leb_le _ _) H). apply orb_true_r.
Qed.

Lemma request_safe t m :
  like t → cleared m = false →
  safe (requestRevocationOperandsViaMaasTenantConfig t) m (λ _ m', missing m' = missing m).
Proof.
  intros Ht Hm. unfold requestRevocationOperandsViaMaasTenantConfig. apply safe_bind. split; [done|].
  intros [cfg|e]; cbn; [|done]. case_deleting; cbn; [done|]. do 2 (case_match; [done|]).
  split; [|done]. unfold prove. cbn. by rewrite Hm, andb_false_r.
Qed.

Lemma prepare_safe t m :
  like t → trim_space AppNamespace ≠ "" → cleared m = false → tenantAPIKeysRevoked t = false →
  safe (prepareRevocationOperands t) m (λ x m', like x.1 ∧ (tenantAPIKeysRevoked x.1 = true → cleared m' = true)).
Proof.
  intros Ht Happ Hm Hrev. unfold prepareRevocationOperands.
  assert (Hskip : ∀ message m', cleared m' = true → safe (skipTenantAPIKeysRevocation message t) m'
    (λ x m', like x.1 ∧ (tenantAPIKeysRevoked x.1 = true → cleared m' = true))).
  { intros message m' Hm'. eapply safe_mono; [by apply skip_safe|]. by intros x m'' [? ?]. }
  assert (Hquit : ∀ e m', like (t, e : Res GoErr bool).1 ∧ (tenantAPIKeysRevoked (t, e).1 = true → cleared m' = true)).
  { intros e m'. cbn. by rewrite Hrev. }
  apply safe_bind. eapply safe_mono; [by apply ready_safe|]. intros [] m1 [Hp1 Hmiss1]; [by apply Hquit|].
  specialize (Hmiss1 (or_intror eq_refl)).
  apply safe_bind, safe_bind. split; [done|]. intros [cfg|e]; cbn [observe observe_get gone Kube.safe mbind prog_bind].
  - case_deleting; cbn [negb]; [apply Hskip; cbn; by rewrite Hmiss1, orb_true_r|].
    apply safe_bind. eapply safe_mono; [apply request_safe; [done|cbn; by rewrite Hp1, Hm, andb_false_r]|].
    intros [u|e] m2 Hmiss2; [|by apply Hquit]. cbn in Hmiss2.
    apply safe_bind. eapply safe_mono; [by apply ready_safe|]. intros [] m3 [_ Hmiss3]; [by apply Hquit|].
    specialize (Hmiss3 (or_intror eq_refl)).
    assert (Hkey : bool_decide (tenant_config_key t = tenant_config_key t0) = true)
      by (by apply bool_decide_eq_true, like_config_key).
    apply safe_bind. split; [done|]. intros [tc|e]; cbn [observe observe_get gone Kube.safe]; rewrite ?Hmiss3, Hkey.
    + case_deleting; [|by apply Hquit]. apply Hskip. cbn. by rewrite orb_true_r.
    + destruct (isNotFound e); [|by apply Hquit]. apply Hskip. cbn. by rewrite orb_true_r.
  - destruct (isNotFound e); [|by apply Hquit]. apply Hskip. cbn. by rewrite Hmiss1, orb_true_r.
Qed.

Definition justified (x : AITenant * Res GoErr bool) (m : Monitor) : Prop :=
  like x.1 ∧ (claims_revoked x.1 = true ∨ x.2 = Ok true → cleared m = true).

Lemma ensure_safe t m :
  like t → cleared m = tenantAPIKeysRevoked t → safe (ensureTenantAPIKeysRevoked t) m justified.
Proof.
  intros Ht Hm. unfold ensureTenantAPIKeysRevoked.
  assert (Hstay : ∀ m' e, tenantAPIKeysRevoked t = false → justified (t, e) m' ↔ (e = Ok true → cleared m' = true)).
  { intros m' e Hf. unfold justified. cbn. rewrite revoked_cases in Hf. apply orb_false_iff in Hf as [_ ->]. naive_solver. }
  destruct (tenantAPIKeysRevoked t) eqn:Hrev; [by split|].
  destruct (String.eqb_spec (trim_space AppNamespace) "") as [|Happ]; [by apply Hstay|].
  apply safe_bind. split; [done|]. intros [job|e]; cbn [observe observe_get Kube.safe].
  - rewrite (like_matches t job Ht), (like_job t Ht), (bool_decide_eq_true_2 _ eq_refl). unfold revoked_job.
    destruct (tenantAPIKeyRevocationJobMatchesAITenant job t0) eqn:Hmatch; cbn [negb andb].
    + destruct (jobComplete job) eqn:Hc.
      * apply safe_bind. eapply safe_mono; [apply mark_safe; [done|cbn; by rewrite orb_true_r]|].
        intros x m' [-> Hx]. split; [done|]. cbn. by rewrite orb_true_r.
      * destruct (jobFailed job); [|by apply Hstay].
        apply safe_bind, safe_bind. split; [by right; left|]. intros d. apply Hstay; [done|]. by destruct d as [[]|e]; [|cbn; destruct (isNotFound e)].
    + apply safe_bind, safe_bind. split; [by left|]. intros d. apply Hstay; [done|]. by destruct d as [[]|e]; [|cbn; destruct (isNotFound e)].
  - destruct (isNotFound e) eqn:Hnf; cbn [negb]; [|by apply Hstay].
    apply safe_bind. eapply safe_mono; [apply prepare_safe; [done|done| |done]|].
    { cbn. by rewrite Hm, andb_false_r. }
    intros [t' ready] m' [Hl Hp]. cbn in Hl, Hp. rewrite revoked_cases in Hp.
    destruct ready as [ready|e']; [|split; [done|]; intros [Hc|]; [|done]; apply Hp; cbn in Hc; by rewrite Hc, orb_true_r].
    destruct (tenantAPIKeysRevoked t') eqn:Hrev'; [split; [done|]; intros _; apply Hp; by rewrite <- revoked_cases|].
    rewrite revoked_cases in Hrev'. apply orb_false_iff in Hrev' as [_ Hc].
    destruct ready; cbn [negb]; [|split; [done|]; cbn; rewrite Hc; by intros [|]].
    apply safe_bind. split; [by apply like_job|]. intros d. split; [done|]. cbn. rewrite Hc. intros [|Hd]; [done|].
    by destruct d as [|ed]; [|destruct (isAlreadyExists ed)].
Qed.

(** The monitor at the start of a reconciliation of [t0]. *)
Definition at_start : Monitor := {|
  cleared := tenantAPIKeysRevoked t0; missing := false;
  unblocked := negb (ContainsFinalizer t0 aitenantFinalizer) |}.

Lemma terminating_claims : claims_revoked (terminating t0) = claims_revoked t0.
Proof. unfold terminating. rewrite phase_claims. reflexivity. Qed.
Lemma start_claims : claims_revoked t0 = true → cleared at_start = true.
Proof. intros H. cbn [cleared at_start]. rewrite revoked_cases, H. apply orb_true_r. Qed.


End Protocol.
End TenantDeletionFacts.
