(* ===== verification/TenantReconcile.v ===== *)
(** * TenantReconcile: the reconciliation of a tenant

    [Reconcile] of [maas-controller/pkg/controller/maas/aitenant_controller.go]
    with its steps: the placement check, the migration of a deprecated Tenant,
    the tenant namespace, the Gateway's claim and namespace labels, the
    MaasTenantConfig and the Roles. *)

From S2P Require Import Prelude GoStrings Kube AITenant GatewayLabels TenantClient GatewayClaims TenantRevocation TenantDeletion.
From Stdlib Require String.
Local Open Scope string_scope.

Module TenantReconcile.
Import Kube AITenant GatewayLabels TenantClient GatewayClaims TenantRevocation TenantDeletion.

(** The outcome of a reconciliation, or a panic of the controller. *)
Inductive Outcome := Returns (res : Res GoErr Z) | Panicked.

Section Reconcile.
Context `{GR : GoRuntime} `{OJ : OwnershipJSON}.
Context `{R : AITenantReconciler} `{SC : StatusConditions} `{CU : ControllerUtil}.
(** [validation.IsDNS1123Label] of k8s.io/apimachinery: the errors. *)
Variable IsDNS1123Label : string → list string.

Definition quoted (s : string) : string := dquote +:+ s +:+ dquote.

Definition validateAITenantPlacement (t : AITenant) : option string :=
  let ns := Namespace (meta t) in
  let at_ := "AITenant " +:+ named t in
  if String.eqb ns "" then Some ("AITenant " +:+ quoted (Name (meta t)) +:+ " must be namespaced") else
  if negb (String.eqb AppNamespace "") && String.eqb ns AppNamespace
  then Some (at_ +:+ " must not be created in the protected application namespace " +:+ quoted AppNamespace) else
  if negb (String.eqb TenantNamespaceFlag "") && String.eqb ns TenantNamespaceFlag
  then Some (at_ +:+ " must be created in a separate infra namespace, not the tenant namespace "
             +:+ quoted TenantNamespaceFlag) else
  if negb (String.eqb ns aitenantNamespace)
  then Some (at_ +:+ " must be created in the configured AITenant infrastructure namespace "
             +:+ quoted aitenantNamespace) else
  let tenantNamespace := tenantNamespaceName t in
  if String.eqb tenantNamespace ns
  then Some ("derived tenant namespace must be different from the AITenant infra namespace " +:+ quoted ns) else
  if negb (String.eqb AppNamespace "") && String.eqb tenantNamespace AppNamespace
  then Some ("derived tenant namespace must not be the protected application namespace " +:+ quoted AppNamespace) else
  match IsDNS1123Label tenantNamespace with
  | [] => None
  | errs => Some ("derived tenant namespace " +:+ quoted tenantNamespace +:+ " is invalid: " +:+ join "; " errs)
  end.

(** ** The deprecated Tenant *)

Definition legacy_key (namespace : string) : Key := (namespace, TenantInstanceName).

Definition legacyGatewayNameIsSharedDefault (t : AITenant) (gatewayName : string) : bool :=
  let defaultGatewayName := if String.eqb GatewayName "" then "maas-default-gateway" else GatewayName in
  negb (String.eqb (Name (meta t)) DefaultAITenantName) && String.eqb gatewayName defaultGatewayName.

Definition legacy_gateway_mismatch (legacy : Obj KLegacyTenant) : string :=
  "legacy Tenant " +:+ named legacy +:+ " spec.gatewayRef.namespace="
  +:+ quoted (gr_Namespace (lt_GatewayRef (body legacy))) +:+ " does not match configured gateway namespace "
  +:+ quoted GatewayNamespace +:+ "; AITenant supports gateway name migration only, so update --gateway-namespace or clear the legacy namespace before migration".

(** Whether the AITenant was patched.  The specification stays changed in
    memory when the migration fails. *)
Definition migrateLegacyTenantPlatformContext (t : AITenant) (tenantNamespace : string)
    : Prog (AITenant * Res GoErr bool) :=
  legacy ← get KLegacyTenant (legacy_key tenantNamespace);
  match legacy with
  | Err e => Ret (t, if isNotFound e then Ok false else Err (of_api e))
  | Ok legacy =>
      let spec := Spec (body t) in
      let oidc := match sp_OIDC spec with Some o => Some o | None => lt_ExternalOIDC (body legacy) end in
      let ref := lt_GatewayRef (body legacy) in
      let with_spec s := {| meta := meta t; body := {| Spec := s; Status := status_of t |} |} in
      if negb (String.eqb (gr_Namespace ref) "") && negb (String.eqb (gr_Namespace ref) GatewayNamespace)
      then Ret (with_spec {| sp_Gateway := sp_Gateway spec; sp_OIDC := oidc; sp_Guardrails := sp_Guardrails spec |},
                Err (plain (legacy_gateway_mismatch legacy))) else
      let copy := negb (String.eqb (gr_Name ref) "")
                  && match sp_Gateway spec with Some n => String.eqb n "" | None => true end
                  && negb (legacyGatewayNameIsSharedDefault t (gr_Name ref)) in
      let t' := with_spec {| sp_Gateway := if copy then Some (gr_Name ref) else sp_Gateway spec; sp_OIDC := oidc; sp_Guardrails := sp_Guardrails spec |} in
      if bool_decide (Spec (body t') = spec) then Ret (t, Ok false) else
      patched ← call (Patch KAITenant t t' false);
      Ret (t', match patched with
               | Err e => Err (wrap "patch AITenant with legacy Tenant platform context" e)
               | Ok _ => Ok true
               end)
  end.

Definition copyLegacyTenantConfig (config : MaasTenantConfig) : Prog (Res GoErr MaasTenantConfig) :=
  legacy ← get KLegacyTenant (legacy_key (Namespace (meta config)));
  Ret (match legacy with
       | Err e => if isNotFound e then Ok config else Err (of_api e)
       | Ok legacy => Ok {| meta := meta config; body := {|
           tc_APIKeys := match tc_APIKeys (body config) with Some x => Some x | None => lt_APIKeys (body legacy) end;
           tc_Telemetry := match tc_Telemetry (body config) with Some x => Some x | None => lt_Telemetry (body legacy) end;
           tc_Guardrails := tc_Guardrails (body config); tc_Conditions := tc_Conditions (body config) |} |}
       end).

Definition markLegacyTenantDeprecated (t : AITenant) (tenantNamespace : string) : Prog (Res GoErr unit) :=
  legacy ← get KLegacyTenant (legacy_key tenantNamespace);
  match legacy with
  | Err e => Ret (if isNotFound e then Ok tt else Err (of_api e))
  | Ok legacy =>
      if hasAITenantOwnerAnnotations (meta legacy) && negb (ownedByAITenant (meta legacy) t) then Ret (Ok tt) else
      let annotate m := set_annotations (<[legacyMigratedToAnnotation := MaasTenantConfigInstanceName]>
                          (<[legacyDeprecatedByAnnotation := "MaasTenantConfig"]> (Annotations m))) m in
      let changed := RemoveFinalizer legacyTenantFinalizer (RemoveFinalizer tenantFinalizer (with_meta annotate legacy)) in
      if bool_decide (meta legacy = meta changed) then Ret (Ok tt) else
      patched ← call (Patch KLegacyTenant legacy changed true);
      Ret (match patched with Err e => Err (of_api e) | Ok _ => Ok tt end)
  end.

Definition isExpectedAITenantManagedConfig (config : MaasTenantConfig) (t : AITenant) (tenantNamespace : string) : bool :=
  let labels := Labels (meta config) in
  String.eqb (Name (meta config)) MaasTenantConfigInstanceName && String.eqb (Namespace (meta config)) tenantNamespace
  && negb (deleting config) && ownedByAITenant (meta config) t
  && String.eqb (value labels "app.kubernetes.io/managed-by") "maas-controller"
  && String.eqb (value labels aitenantManagedLabel) "true"
  && String.eqb (value labels LabelTenantName) (Name (meta t))
  && String.eqb (value labels LabelTenantNamespace) tenantNamespace.

(** The deprecated Tenant goes once everything it holds is in the config; the
    deletion carries its UID and resource version. *)
Definition cleanupMigratedLegacyTenant (t : AITenant) (tenantNamespace : string) : Prog (Res GoErr unit) :=
  config ← get KTenantConfig (tenantNamespace, MaasTenantConfigInstanceName);
  match config with
  | Err e => Ret (if isNotFound e then Ok tt else Err (of_api e))
  | Ok config =>
      if negb (isExpectedAITenantManagedConfig config t tenantNamespace) then Ret (Ok tt) else
      legacy ← get KLegacyTenant (legacy_key tenantNamespace);
      match legacy with
      | Err e => Ret (if isNotFound e then Ok tt else Err (of_api e))
      | Ok legacy =>
          let kept (a b : option Opaque) := negb (bool_decide (a = None)) && negb (bool_decide (a = b)) in
          if (hasAITenantOwnerAnnotations (meta legacy) && negb (ownedByAITenant (meta legacy) t))
             || negb (String.eqb (value (Annotations (meta legacy)) legacyDeprecatedByAnnotation) "MaasTenantConfig")
             || negb (String.eqb (value (Annotations (meta legacy)) legacyMigratedToAnnotation) MaasTenantConfigInstanceName)
             || kept (lt_APIKeys (body legacy)) (tc_APIKeys (body config))
             || kept (lt_Telemetry (body legacy)) (tc_Telemetry (body config))
          then Ret (Ok tt) else
          d ← call (Delete KLegacyTenant legacy true);
          Ret (map_err (wrap ("delete migrated legacy Tenant " +:+ named legacy)) (ignore_not_found tt d))
      end
  end.

(** ** The objects of the tenant *)

Definition ensureTenantNamespace (t : AITenant) : Prog (Res GoErr bool) :=
  let name := tenantNamespaceName t in
  let at_ text := text +:+ " " +:+ quoted name in
  let adopt (ns : Obj KNamespace) : Prog (Res GoErr bool) :=
    if String.eqb (body ns) "Terminating" then Ret (Err (plain (at_ "tenant namespace" +:+ " is terminating"))) else
    if hasAITenantOwnerAnnotations (meta ns) && negb (ownedByAITenant (meta ns) t)
    then Ret (Err (plain (at_ "tenant namespace" +:+ " is managed by another AITenant"))) else
    let changed := with_meta (applyAITenantMetadata t name) ns in
    if bool_decide (meta ns = meta changed) then Ret (Ok false) else
    _ <-! try (at_ "patch tenant namespace") (call (Patch KNamespace ns changed false)) ;;
    Ret (Ok false) in
  ns ← get KNamespace ("", name);
  match ns with
  | Ok ns => adopt ns
  | Err e =>
      if negb (isNotFound e) then Ret (Err (wrap (at_ "get tenant namespace") e)) else
      let m := applyAITenantMetadata t name (new_meta "" name) in
      let m := set_labels (<["opendatahub.io/generated-namespace" := "true"]> (Labels m)) m in
      let m := set_annotations (<[aitenantCreatedAnnotation := "true"]> (Annotations m)) m in
      created ← call (Create KNamespace (Build_Object m ""));
      match created with
      | Ok _ => Ret (Ok true)
      | Err e =>
          if negb (isAlreadyExists e) then Ret (Err (wrap (at_ "create tenant namespace") e)) else
          ns <-! try (at_ "get tenant namespace" +:+ " after create conflict") (get KNamespace ("", name)) ;;
          adopt ns
      end
  end.

Definition validateTenantGateway (ref : TenantGatewayRef) : Prog (Res GoErr (Obj KGateway)) :=
  if String.eqb (gr_Namespace ref) "" then Ret (Err (plain "gateway namespace is required; set --gateway-namespace")) else
  if String.eqb (gr_Name ref) "" then Ret (Err (plain "spec.gateway.name is required when AITenant name is empty")) else
  let at_ := gr_Namespace ref +:+ "/" +:+ gr_Name ref in
  gateway ← get KGateway (gr_Namespace ref, gr_Name ref);
  Ret (match gateway with
       | Ok gw => Ok gw
       | Err e => if isNotFound e
                  then Err (plain ("gateway " +:+ at_ +:+ " not found: the Gateway must be created by a network or cluster administrator before AITenant can be provisioned"))
                  else Err (wrap ("get Gateway " +:+ at_) e)
       end).

(** [upsertWithCreate] of one kind: [mutate] runs on the object to create and
    on the stored one, [mutate_create] only on creation. *)
Definition upsertWithCreate (k : Kind) `{EqDecision (Body k)} (kind : string) (obj : Obj k) (t : AITenant)
    (mutate : Obj k → Prog (Res GoErr (Obj k))) (mutate_create : Obj k → Obj k) : Prog (Res GoErr unit) :=
  let at_ text := text +:+ " " +:+ kind +:+ " " +:+ named obj in
  let update (current : Obj k) : Prog (Res GoErr unit) :=
    if hasAITenantOwnerAnnotations (meta current) && negb (ownedByAITenant (meta current) t)
    then Ret (Err (plain (kind +:+ " " +:+ named obj +:+ " is managed by another AITenant"))) else
    changed <-! mutate current ;;
    if bool_decide (current = changed) then Ret (Ok tt) else
    _ <-! try (at_ "patch") (call (Patch k current changed false)) ;;
    Ret (Ok tt) in
  current ← get k (key_of obj);
  match current with
  | Ok current => update current
  | Err e =>
      if negb (isNotFound e) then Ret (Err (wrap (at_ "get") e)) else
      obj <-! mutate obj ;;
      created ← call (Create k (mutate_create obj));
      match created with
      | Ok _ => Ret (Ok tt)
      | Err e =>
          if negb (isAlreadyExists e) then Ret (Err (wrap (at_ "create") e)) else
          current <-! try (at_ "get" +:+ " after create conflict") (get k (key_of obj)) ;;
          update current
      end
  end.

#[local] Instance config_body_eq_dec : EqDecision (Body KTenantConfig) := tenant_config_body_eq_dec.
#[local] Instance role_body_eq_dec : EqDecision (Body KRole) := list_eq_dec.

(** The message of a missing namespace, in lower case. *)
Definition isNamespaceMissingError (e : GoErr) : bool :=
  match cause e with
  | FromApi a =>
      isNotFound a
      && (String.eqb (to_lower (ae_Kind a)) "namespace" || String.eqb (to_lower (ae_Kind a)) "namespaces"
          || (has_prefix "namespaces " (to_lower (ae_Text a)) && contains_str "not found" (to_lower (ae_Text a))))
  | _ => false
  end.

Definition seedPayloadProcessingStatusOnCreate (o : MaasTenantConfig) : MaasTenantConfig :=
  with_meta (λ m, set_annotations
    (<["maas.opendatahub.io/payload-processing-status" := "cleanup-complete"]> (Annotations m)) m) o.

(** Whether the configuration is ready, and whether its namespace is missing. *)
Definition ensureTenantConfig (t : AITenant) : Prog (Res GoErr (bool * bool)) :=
  let tenantNamespace := tenantNamespaceName t in
  let config : MaasTenantConfig := {|
    meta := new_meta tenantNamespace MaasTenantConfigInstanceName;
    body := {| tc_APIKeys := None; tc_Telemetry := None; tc_Guardrails := []; tc_Conditions := [] |} |} in
  let mutate (c : MaasTenantConfig) : Prog (Res GoErr MaasTenantConfig) :=
    if deleting c
    then Ret (Err (plain ("MaasTenantConfig " +:+ named c +:+ " is being deleted; waiting for cleanup to finish before recreating")))
    else copyLegacyTenantConfig (with_meta (applyAITenantMetadata t tenantNamespace) c) in
  upserted ← upsertWithCreate KTenantConfig "MaasTenantConfig" config t mutate seedPayloadProcessingStatusOnCreate;
  match upserted with
  | Err e => Ret (if isNamespaceMissingError e then Ok (false, true) else Err e)
  | Ok _ =>
      _ <-! markLegacyTenantDeprecated t tenantNamespace ;;
      _ <-! cleanupMigratedLegacyTenant t tenantNamespace ;;
      config <-! try ("get MaasTenantConfig " +:+ tenantNamespace +:+ "/" +:+ MaasTenantConfigInstanceName +:+ " readiness")
                  (get KTenantConfig (tenantNamespace, MaasTenantConfigInstanceName)) ;;
      Ret (Ok (match FindStatusCondition (tc_Conditions (body config)) "Ready" with
               | Some ready => String.eqb (c_Status ready) ConditionTrue
                               && (c_ObservedGeneration ready =? Generation (meta config))%Z
               | None => false
               end, false))
  end.

Definition maas_group : string := "maas.opendatahub.io".
Definition tenant_admin_rules : list PolicyRule := [
  {| APIGroups := [maas_group]; Resources := ["maasauthpolicies"; "maassubscriptions"]; ResourceNames := [];
     Verbs := ["get"; "list"; "watch"; "create"; "update"; "patch"; "delete"] |};
  {| APIGroups := [maas_group]; Resources := ["maastenantconfigs"]; ResourceNames := [MaasTenantConfigInstanceName];
     Verbs := ["get"; "update"; "patch"] |};
  {| APIGroups := [maas_group]; Resources := ["maasmodelrefs"]; ResourceNames := []; Verbs := ["get"; "list"; "watch"] |}].
Definition object_admin_rules (t : AITenant) : list PolicyRule := [
  {| APIGroups := [maas_group]; Resources := ["aitenants"]; ResourceNames := [Name (meta t)]; Verbs := ["get"] |}].

Definition ensure_role (t : AITenant) (key : Key) (rules : list PolicyRule) : Prog (Res GoErr unit) :=
  upsertWithCreate KRole "Role" (Build_Object (new_meta key.1 key.2) []) t
    (λ role, Ret (Ok (Build_Object (applyAITenantMetadata t (tenantNamespaceName t) (meta role)) rules))) (λ o, o).
Definition ensureTenantNamespaceRole (t : AITenant) : Prog (Res GoErr unit) :=
  ensure_role t (tenantNamespaceName t, tenantAdminRoleName t) tenant_admin_rules.
Definition ensureAITenantObjectRole (t : AITenant) : Prog (Res GoErr unit) :=
  ensure_role t (Namespace (meta t), aitenantAccessRoleName t) (object_admin_rules t).
Definition ensureTenantAdminRBAC (t : AITenant) : Prog (Res GoErr unit) :=
  _ <-! ensureTenantNamespaceRole t ;; ensureAITenantObjectRole t.

(** ** Namespace labels

    [None] is the panic of [plan_labels]. *)
Definition ensureNamespaceGatewayLabels (namespace gatewayName : string) (desiredLabels : gmap string string)
    (exclusive : bool) : Prog (option (Res GoErr unit)) :=
  ns ← get KNamespace ("", namespace);
  match ns with
  | Err e => Ret (Some (if isNotFound e && bool_decide (desiredLabels = ∅) then Ok tt
                        else Err (wrap ("read namespace " +:+ namespace) e)))
  | Ok ns =>
      match plan_labels gatewayName desiredLabels exclusive (meta ns) with
      | Err e => Ret (Some (Err (plain e)))
      | Ok PanicsOnNilMap => Ret None
      | Ok Unchanged => Ret (Some (Ok tt))
      | Ok (Patched m) =>
          patched ← call (Patch KNamespace ns (with_meta (λ _, m) ns) true);
          Ret (Some (match patched with
                     | Err e => Err (wrap ("patch labels on namespace " +:+ namespace) e)
                     | Ok _ => Ok tt
                     end))
      end
  end.

Definition ensureInfraNamespaceGatewayLabels (gw : Obj KGateway) : Prog (option (Res GoErr unit)) :=
  match gatewayDesiredLabels gw with
  | Err e => Ret (Some (Err (plain e)))
  | Ok desiredLabels => ensureNamespaceGatewayLabels AppNamespace (Name (meta gw)) desiredLabels false
  end.

Definition ensureTenantNamespaceGatewayLabels (t : AITenant) (gw : Obj KGateway) : Prog (option (Res GoErr unit)) :=
  match gatewayDesiredLabels gw with
  | Err e => Ret (Some (Err (plain e)))
  | Ok desiredLabels =>
      let namespace := tenantNamespaceName t in
      if String.eqb namespace AppNamespace then Ret (Some (Ok tt)) else
      let desiredLabels := if String.eqb (value desiredLabels LabelGatewayAccess) "true"
                           then delete LabelGatewayAccess desiredLabels else desiredLabels in
      ensureNamespaceGatewayLabels namespace (Name (meta gw)) desiredLabels true
  end.

(** ** The reconciliation *)

Definition Degraded : string := "Degraded".
Definition set_gateway_ref (ref : TenantGatewayRef) : AITenant → AITenant :=
  set_status (λ st, {| Phase := Phase st; TenantNamespace := TenantNamespace st; GatewayRef := ref;
                       Conditions := Conditions st |}).
Definition clear_condition (type : string) : AITenant → AITenant :=
  set_status (λ st, {| Phase := Phase st; TenantNamespace := TenantNamespace st; GatewayRef := GatewayRef st;
                       Conditions := RemoveStatusCondition type (Conditions st) |}).

(** Ends with a phase; an error of the status update is returned instead. *)
Definition conclude (phase reason message : string) (requeue : Z) (snapshot : AITenantStatus) (t : AITenant)
    : Prog Outcome :=
  x ← updateAITenantStatus (setAITenantPhase phase reason message t) snapshot;
  Ret (Returns (match x.2 with Err e => Err (of_api e) | Ok _ => Ok requeue end)).

(** The namespace and the configuration: an early end, or whether the
    configuration is ready. *)
Definition ensureTenantResources (snapshot : AITenantStatus) (t : AITenant) (k : bool → Prog Outcome) : Prog Outcome :=
  namespaceCreated ← ensureTenantNamespace t;
  match namespaceCreated with
  | Err e => conclude "Failed" "TenantNamespaceFailed" (etext e) (30 * Second) snapshot t
  | Ok true => conclude "Pending" "TenantNamespacePending" "waiting for tenant namespace to become available"
                 Second snapshot t
  | Ok false =>
      config ← ensureTenantConfig t;
      match config with
      | Err e => conclude "Failed" "TenantConfigReconcileFailed" (etext e) (30 * Second) snapshot t
      | Ok (_, true) => conclude "Pending" "TenantNamespacePending"
                          "waiting for tenant namespace to accept tenant resources" Second snapshot t
      | Ok (ready, false) => k ready
      end
  end.

(** From the tenant namespace's labels to the end. *)
Definition finish_bootstrap (snapshot : AITenantStatus) (gw : Obj KGateway) (infraLabelsFailed tenantConfigReady : bool)
    (t : AITenant) : Prog Outcome :=
  labelled ← ensureTenantNamespaceGatewayLabels t gw;
  match labelled with
  | None => Ret Panicked
  | Some labelled =>
      let '(t, namespaceLabelsFailed) :=
        match labelled with
        | Err e => (if infraLabelsFailed then t
                    else set_condition Degraded ConditionTrue "TenantNamespaceLabelFailed" (etext e) t, true)
        | Ok _ => (t, infraLabelsFailed)
        end in
      let t := if namespaceLabelsFailed then t else clear_condition Degraded t in
      rbac ← ensureTenantAdminRBAC t;
      match rbac with
      | Err e => conclude "Failed" "RBACReconcileFailed" (etext e) (30 * Second) snapshot t
      | Ok _ =>
          if negb tenantConfigReady
          then conclude "Pending" "TenantConfigNotReady" "waiting for MaasTenantConfig to report Ready"
                 (30 * Second) snapshot t
          else conclude "Active" "Reconciled" "AITenant bootstrap resources are reconciled"
                 (if namespaceLabelsFailed then 30 * Second else 0)%Z snapshot t
      end
  end.

(** From the Gateway to the end; the default tenant's resources exist before
    its Gateway is looked at, [ready] then tells whether they are ready. *)
Definition attach_gateway (gatewayRef : TenantGatewayRef) (snapshot : AITenantStatus) (ready : option bool)
    (t : AITenant) : Prog Outcome :=
  gw ← validateTenantGateway gatewayRef;
  match gw with
  | Err e => conclude "Failed" "GatewayCheckFailed" (etext e) (30 * Second) snapshot t
  | Ok gw =>
      labelled ← ensureInfraNamespaceGatewayLabels gw;
      match labelled with
      | None => Ret Panicked
      | Some labelled =>
          let '(t, infraLabelsFailed) :=
            match labelled with
            | Err e => (set_condition Degraded ConditionTrue "InfraNamespaceLabelFailed" (etext e) t, true)
            | Ok _ => (t, false)
            end in
          claimed ← ensureGatewayClaim t gatewayRef;
          match claimed with
          | Err e => conclude "Failed" "GatewayClaimFailed" (etext e) (30 * Second) snapshot t
          | Ok _ =>
              match ready with
              | Some ready => finish_bootstrap snapshot gw infraLabelsFailed ready t
              | None => ensureTenantResources snapshot t (λ ready, finish_bootstrap snapshot gw infraLabelsFailed ready t)
              end
          end
      end
  end.

Definition bootstrap (t : AITenant) : Prog Outcome :=
  let snapshot := status_of t in
  match validateAITenantPlacement t with
  | Some e => conclude "Failed" "InvalidPlacement" e 0 snapshot t
  | None =>
      let tenantNamespace := tenantNamespaceName t in
      x ← migrateLegacyTenantPlatformContext (set_tenant_namespace tenantNamespace t) tenantNamespace;
      let '(t, migrated) := (x : AITenant * Res GoErr bool) in
      match migrated with
      | Err e => conclude "Failed" "LegacyTenantMigrationFailed" (etext e) 0 snapshot t
      | Ok true => Ret (Returns (Ok Second))
      | Ok false =>
          let gatewayRef := gatewayRefFor t in
          x ← updateAITenantStatus (set_gateway_ref gatewayRef t) snapshot;
          let '(t, updated) := (x : AITenant * Res ApiErr unit) in
          match updated with
          | Err e => Ret (Returns (Err (of_api e)))
          | Ok _ =>
              let snapshot := status_of t in
              if String.eqb (Name (meta t)) DefaultAITenantName
              then ensureTenantResources snapshot t (λ ready, attach_gateway gatewayRef snapshot (Some ready) t)
              else attach_gateway gatewayRef snapshot None t
          end
      end
  end.

(** [now] is the clock and [timeout] the text of the deletion time-out. *)
Definition Reconcile (now : Z) (timeout : string) (key : Key) : Prog Outcome :=
  found ← call (Get true KAITenant key);
  match found with
  | Err e => Ret (Returns (if isNotFound e then Ok 0%Z else Err (of_api e)))
  | Ok t =>
      if deleting t then Returns <$> reconcileAITenantDelete now timeout t else
      if negb (ContainsFinalizer t aitenantFinalizer) then
        patched ← call (Patch KAITenant t (AddFinalizer aitenantFinalizer t) false);
        Ret (Returns (match patched with Err e => Err (of_api e) | Ok _ => Ok Second end))
      else bootstrap t
  end.

End Reconcile.
End TenantReconcile.
