(* ===== verification/TenantLiveness.v ===== *)
(** * TenantLiveness: the deletion of a tenant completes

    On a cluster that answers every call, whose Job controller finishes Jobs
    and whose configuration controller lets a deleted configuration go, at most
    five reconciliations of a deleted AITenant remove its finalizer.  The
    cluster is not modelled: [fault_free] states what the replies are assumed
    to be, and the theorem holds for every server that gives them. *)

From S2P Require Import Prelude GoStrings Kube AITenant GatewayLabels GatewayLabelFacts TenantClient GatewayClaims GatewayClaimFacts TenantRevocation TenantDeletion TenantDeletionFacts TenantReconcile.
From Stdlib Require String.
Local Open Scope string_scope.

Module TenantLiveness.
Import Kube AITenant GatewayLabels TenantClient GatewayClaims TenantRevocation TenantDeletion TenantDeletionFacts TenantReconcile.

(** What the deletion depends on of a cluster's state. *)
Record View := { v_tenant : AITenant; v_job : option Job; v_config : option MaasTenantConfig }.
Definition set_job (j : option Job) (v : View) : View :=
  {| v_tenant := v_tenant v; v_job := j; v_config := v_config v |}.
Definition set_config (c : option MaasTenantConfig) (v : View) : View :=
  {| v_tenant := v_tenant v; v_job := v_job v; v_config := c |}.
Definition set_tenant (t : AITenant) (v : View) : View :=
  {| v_tenant := t; v_job := v_job v; v_config := v_config v |}.

Section Liveness.
Context `{GR : GoRuntime} `{OJ : OwnershipJSON}.
Context `{R : AITenantReconciler} `{SC : StatusConditions} `{CU : ControllerUtil}.
(** The AITenant as it is when its deletion starts. *)
Variable t0 : AITenant.

(** ** A fault-free cluster *)

Definition found {B} (o : option (Object B)) (r : Res ApiErr (Object B)) : Prop :=
  match o with Some o => r = Ok o | None => ∃ e, r = Err e ∧ isNotFound e = true end.
Definition benign {A} (r : Res ApiErr A) : Prop := match r with Ok _ => True | Err e => isNotFound e = true end.

(** The operands of the revocation Job are in place, and the AITenant is there
    while it has its finalizer. *)
Definition get_reply (k : Kind) (key : Key) (v : View) : Res ApiErr (Obj k) → Prop :=
  match k return Res ApiErr (Obj k) → Prop with
  | KAITenant => λ r, key = key_of t0 → r = Ok (v_tenant v)
      ∨ ContainsFinalizer (v_tenant v) aitenantFinalizer = false ∧ ∃ e, r = Err e ∧ isNotFound e = true
  | KJob => λ r, key = key_of (revocation_job t0) → found (v_job v) r
  | KTenantConfig => λ r, key = tenant_config_key t0 → found (v_config v) r
  | KServiceAccount | KService => λ r, is_ok r = true
  | KDeployment => λ r, ∃ d, r = Ok d ∧ (0 < body d)%Z
  | _ => benign
  end.
Definition status_effect (k : Kind) : Obj k → View → View → Prop :=
  match k return Obj k → View → View → Prop with
  | KAITenant => λ o v v', ∃ t, v' = set_tenant t v ∧ (∃ ver, meta t = set_version ver (meta (v_tenant v)))
                                ∧ status_of t = status_of o
  | _ => λ _ v v', v' = v
  end.
Definition patch_effect (k : Kind) : Obj k → View → View → Prop :=
  match k return Obj k → View → View → Prop with
  | KAITenant => λ o v v', ∃ t, v' = set_tenant t v
      ∧ ∃ ver, meta t = set_version ver (set_finalizers (Finalizers (meta o)) (meta (v_tenant v)))
  | KTenantConfig => λ o v v', v' = set_config (Some o) v
  | _ => λ _ v v', v' = v
  end.
Definition create_effect (k : Kind) : Obj k → View → View → Prop :=
  match k return Obj k → View → View → Prop with
  | KJob => λ o v v', v' = set_job (Some o) v
  | _ => λ _ v v', v' = v
  end.
(** A configuration with a finalizer stays, marked as deleted. *)
Definition delete_effect (k : Kind) : Obj k → View → View → Prop :=
  match k return Obj k → View → View → Prop with
  | KJob => λ _ v v', v' = set_job None v
  | KTenantConfig => λ o v v', ∃ c, v' = set_config (Some c) v ∧ deleting c = true
  | _ => λ _ v v', v' = v
  end.

(** What a call replies, and what it does to the view. *)
Definition fault_free (X : Type) (c : Call X) (v : View) : X → View → Prop :=
  match c in Call X return X → View → Prop with
  | Get _ k key => λ r v', v' = v ∧ get_reply k key v r
  | ListAll _ _ _ => λ r v', v' = v ∧ is_ok r = true
  | Create k o => λ r v', is_ok r = true ∧ create_effect k o v v'
  | Update _ _ => λ _ v', v' = v
  | UpdateStatus k o => λ r v', is_ok r = true ∧ status_effect k o v v'
  | Patch k _ o _ => λ r v', is_ok r = true ∧ patch_effect k o v v'
  | Delete k o _ => λ r v', benign r ∧ delete_effect k o v v'
  | Eventf _ _ _ _ => λ _ v', v' = v
  | ListBy _ _ _ => λ _ v', v' = v
  end.

(** A server whose replies are those, seen through [view]. *)
Definition serves {S} (view : S → View) (serve : ∀ X, Call X → S → S * X) : Prop :=
  ∀ X (c : Call X) s, fault_free X c (view s) (serve X c s).2 (view (serve X c s).1).

(** What the other controllers do between two reconciliations: a Job that has
    not failed completes, a deleted configuration is gone. *)
Definition settles (v v' : View) : Prop :=
  v_tenant v' = v_tenant v
  ∧ match v_job v with
    | None => v_job v' = None
    | Some j => ∃ j', v_job v' = Some j' ∧ meta j' = meta j
        ∧ (jobFailed j = false ∨ jobComplete j = true → jobComplete j' = true)
        ∧ (jobFailed j = true → jobFailed j' = true)
    end
  ∧ match v_config v with
    | None => v_config v' = None
    | Some c => v_config v' = if deleting c then None else Some c
    end.

(** Reconciliations at the times [nows], each followed by the other
    controllers. *)
Fixpoint rounds {S} (IsDNS1123Label : string → list string) (timeout : string)
    (serve : ∀ X, Call X → S → S * X) (others : S → S) (nows : list Z) (s : S) : S :=
  match nows with
  | [] => s
  | now :: rest =>
      rounds IsDNS1123Label timeout serve others rest
        (others (run serve (Reconcile IsDNS1123Label now timeout (key_of t0)) s).1)
  end.

(** ** Executions on such a cluster *)

Fixpoint always {A} (p : Prog A) (v : View) (Q : A → View → Prop) : Prop :=
  match p with
  | Ret a => Q a v
  | Vis c k => ∀ x v', fault_free _ c v x v' → always (k x) v' Q
  end.

Lemma always_mono {A} (p : Prog A) v (Q Q' : A → View → Prop) :
  always p v Q → (∀ a v', Q a v' → Q' a v') → always p v Q'.
Proof.
  intros Hp HQ. revert v Hp. induction p as [a|X c k IH]; intros v; cbn; [apply HQ|].
  intros Hk x v' Hx. by apply IH, Hk.
Qed.
Lemma always_bind {A B} (p : Prog A) (f : A → Prog B) v Q :
  always p v (λ a v', always (f a) v' Q) → always (p ≫= f) v Q.
Proof.
  revert v. induction p as [a|X c k IH]; intros v; cbn; [done|]. intros Hk x v' Hx. by apply IH, Hk.
Qed.
Lemma always_run {A S} (view : S → View) (serve : ∀ X, Call X → S → S * X) (p : Prog A) s Q :
  serves view serve → always p (view s) Q → Q (run serve p s).2 (view (run serve p s).1).
Proof.
  intros Hs. revert s. induction p as [a|X c k IH]; intros s; cbn; [done|]. intros Hk.
  specialize (Hs X c s). destruct (serve X c s) as [s1 x]. by apply IH, Hk.
Qed.

(** Steps that succeed and leave the view alone. *)
Definition succeeds {A} (p : Prog (Res GoErr A)) : Prop := ∀ v, always p v (λ r v', v' = v ∧ is_ok r = true).

Lemma succeeds_ret {A} (a : A) : succeeds (Ret (Ok a)).
Proof. done. Qed.
Lemma succeeds_bind_ok {A B} (p : Prog (Res GoErr A)) (f : A → Prog (Res GoErr B)) :
  succeeds p → (∀ a, succeeds (f a)) → succeeds (bind_ok p f).
Proof.
  intros Hp Hf v. apply always_bind. eapply always_mono; [apply Hp|]. intros [a|e] v' [-> He]; [apply Hf|done].
Qed.
Lemma succeeds_try {A} text (c : Call (Res ApiErr A)) :
  (∀ v x v', fault_free _ c v x v' → v' = v ∧ is_ok x = true) → succeeds (try text (call c)).
Proof. intros Hc v x v' Hx. destruct (Hc _ _ _ Hx) as [-> Hok]. by destruct x. Qed.
Lemma succeeds_delete k text o :
  match k with KJob | KTenantConfig => False | _ => True end → succeeds (delete_tolerant k text o).
Proof.
  intros Hk v x v' [Hb He]. destruct x as [[]|e]; cbn in *; [|rewrite Hb]; by destruct k.
Qed.

Lemma get_always {A} k key (f : Res ApiErr (Obj k) → Prog A) v Q :
  (∀ r, get_reply k key v r → always (f r) v Q) → always (get k key ≫= f) v Q.
Proof. intros Hf. apply always_bind. by intros r v' [-> Hr]; apply Hf. Qed.

Lemma succeeds_delete_owned k t key :
  k = KRole ∨ k = KRoleBinding → succeeds (deleteOwned k t key).
Proof.
  intros Hk v. unfold deleteOwned. case_match; [done|]. apply get_always. intros [o|e] Hr.
  - case_match; [done|]. apply always_bind. intros x v' [Hb He].
    destruct x as [[]|e]; cbn in *; [|rewrite Hb]; by destruct Hk as [-> | ->].
  - assert (isNotFound e = true) as Hnf by (destruct Hk as [-> | ->]; exact Hr). cbn. by rewrite Hnf.
Qed.
Lemma succeeds_children t : succeeds (deleteAITenantScopedChildren t).
Proof. unfold deleteAITenantScopedChildren. repeat (apply succeeds_bind_ok; [|intros ?]); apply succeeds_delete_owned; auto. Qed.
Lemma patch_namespace_ok base o lock text : succeeds (try text (call (Patch KNamespace base o lock))).
Proof. apply succeeds_try. by intros v x v' [Hok He]. Qed.
Lemma succeeds_release t : succeeds (releaseTenantNamespace t).
Proof.
  intros v. unfold releaseTenantNamespace. apply get_always. intros [ns|e] Hr; [|cbn in *; by rewrite Hr].
  do 3 (case_match; [done|]). apply succeeds_bind_ok; [apply patch_namespace_ok|done].
Qed.
Lemma succeeds_auth_policy t : succeeds (deleteTenantGatewayAuthPolicy t).
Proof.
  intros v. unfold deleteTenantGatewayAuthPolicy. case_match; [done|].
  apply get_always. intros [ap|e] Hr; [|cbn in *; by rewrite Hr].
  destruct (isManaged _); cbn [negb]; [by apply (succeeds_delete KAuthPolicy)|done].
Qed.
Lemma succeeds_claims t : succeeds (deleteGatewayClaim t).
Proof.
  unfold deleteGatewayClaim, list_claims. apply succeeds_bind_ok.
  - apply succeeds_try. by intros v x v' [-> Hok].
  - intros claims. induction claims as [|cm claims IH]; cbn [delete_claims]; [done|].
    case_match; [done|]. apply succeeds_bind_ok; [by apply (succeeds_delete KConfigMap)|done].
Qed.
Lemma succeeds_labels t : succeeds (cleanupGatewayLabelsOnDelete t).
Proof.
  intros v. unfold cleanupGatewayLabelsOnDelete. case_match; [done|].
  apply get_always. intros [ns|e] Hr; [|cbn in *; by rewrite Hr].
  destruct (releaseGatewayLabels _ _) as [[m [[|k1 l1] [|k2 l2]]]|e]; try done;
    (apply succeeds_bind_ok; [apply patch_namespace_ok|done]).
Qed.

(** ** One reconciliation *)

Context `{SL : !StatusConditionLaws} `{CL : !ControllerUtilLaws}.
Hypothesis deleted : deleting t0 = true.
Hypothesis finalizer : ContainsFinalizer t0 aitenantFinalizer = true.
Hypothesis app_namespace : trim_space AppNamespace ≠ "".

(** Nobody else changed the AITenant, and memory and cluster agree on it. *)
Definition synced (t : AITenant) (v : View) : Prop :=
  like t0 t ∧ like t0 (v_tenant v) ∧ status_of (v_tenant v) = status_of t.

Lemma key_like t : like t0 t → key_of t = key_of t0.
Proof. intros [w E]. unfold key_of. by rewrite E. Qed.

Lemma like_finalizer t : like t0 t → ContainsFinalizer t aitenantFinalizer = true.
Proof. intros [w E]. unfold ContainsFinalizer in *. by rewrite E. Qed.

Lemma get_live v (r : Res ApiErr AITenant) :
  like t0 (v_tenant v) →
  r = Ok (v_tenant v) ∨ ContainsFinalizer (v_tenant v) aitenantFinalizer = false ∧ (∃ e, r = Err e ∧ isNotFound e = true) → r = Ok (v_tenant v).
Proof. intros Hv [E|[E _]]; [done|]. by rewrite (like_finalizer _ Hv) in E. Qed.

Lemma update_always t snapshot v :
  like t0 t → like t0 (v_tenant v) → status_of (v_tenant v) = snapshot →
  always (updateAITenantStatus t snapshot) v (λ x v', ∃ t', v' = set_tenant t' v ∧ synced x.1 v' ∧ x.2 = Ok tt
    ∧ status_of x.1 = status_of t).
Proof.
  intros Ht Hv Hs. unfold updateAITenantStatus. destruct (bool_decide_reflect (snapshot = status_of t)) as [E|E].
  { exists (v_tenant v). split_and!; [by destruct v| |done..]. split_and!; [done|done|exact (eq_trans Hs E)]. }
  assert (H1 : ∀ n (p : Prog (AITenant * Res ApiErr unit)) Q,
    always p v (λ x v', x.2 = Ok tt ∧ Q x v') → always (retry_conflict n p) v (λ x v', x.2 = Ok tt ∧ Q x v')).
  { intros n p Q Hp. destruct n; cbn [retry_conflict]; apply always_bind; (eapply always_mono; [exact Hp|]);
      intros [a b] v' [Hb HQ]; cbn in Hb; subst b; done. }
  eapply always_mono; [apply (H1 retries _ (λ x v', ∃ t', v' = set_tenant t' v ∧ synced x.1 v' ∧ status_of x.1 = status_of t))|].
  - apply get_always. intros live Hr. rewrite (get_live _ _ Hv (Hr (key_like t Ht))).
    apply always_bind. intros x v' [Hok (t' & -> & [ver Hm] & Hs')]. destruct x as [u|e]; [|done]. cbn.
    split; [done|]. exists t'. split_and!; [done| |done]. split_and!; [by apply like_version| |done].
    destruct Hv as [w Ew]. exists ver. cbn. by rewrite Hm, Ew.
  - intros x v' [Hx (t' & -> & Hy & Hz)]. by exists t'.
Qed.

Definition gone (v : View) : Prop :=
  deleting (v_tenant v) = true ∧ ContainsFinalizer (v_tenant v) aitenantFinalizer = false.

Lemma like_deleting t : like t0 t → deleting t = true.
Proof. intros [w E]. unfold deleting in *. by rewrite E. Qed.

Lemma delete_job_always t v :
  like t0 t → always (deleteTenantAPIKeyRevocationJob t) v (λ _ v', v_tenant v' = v_tenant v).
Proof.
  intros Ht. unfold deleteTenantAPIKeyRevocationJob. apply get_always. intros [job|e] _; [|by destruct (isNotFound e)].
  intros x v' [_ ->]. done.
Qed.

Lemma remove_finalizer_always t v :
  like t0 t → like t0 (v_tenant v) → always (remove_finalizer_patch t) v (λ _ v', gone v').
Proof.
  intros Ht [w Ew]. unfold remove_finalizer_patch. apply always_bind. intros x v' [Hok (t' & -> & ver & Hm)].
  destruct x as [o|e]; [|done]. apply always_bind. eapply always_mono; [by apply delete_job_always|].
  intros ? v' Hv. cbn. unfold gone. rewrite Hv. cbn. unfold deleting, ContainsFinalizer in *. rewrite Hm, Ew. split; [done|].
  cbn. apply not_true_iff_false. rewrite contains_finalizer_spec, remove_finalizer_spec. naive_solver.
Qed.

(** *** The configuration *)

Definition owned_config (c : MaasTenantConfig) : bool := ownedByAITenant (meta c) t0.
Definition config_stage (c : option MaasTenantConfig) : nat :=
  match c with
  | None => 0
  | Some c => if negb (owned_config c) then 0 else if deleting c then 1
              else if ContainsFinalizer c tenantFinalizer then 1 else 2
  end.
Definition settled_config (c : option MaasTenantConfig) : option MaasTenantConfig :=
  match c with Some c => if deleting c then None else Some c | None => None end.

Lemma owned_like t m : like t0 t → ownedByAITenant m t = ownedByAITenant m t0.
Proof. intros [w E]. unfold ownedByAITenant. by rewrite E. Qed.

Lemma delete_config_always t v :
  like t0 t →
  always (deleteTenantConfig t) v (λ r v',
    if (config_stage (v_config v) =? 0)%nat then r = Ok true ∧ v' = v
    else r = Ok false ∧ ∃ c, v' = set_config c v
         ∧ (config_stage (settled_config c) < config_stage (v_config v))%nat).
Proof.
  intros Ht. unfold deleteTenantConfig. apply get_always. intros r Hr.
  specialize (Hr (like_config_key t0 t Ht)). unfold found in Hr.
  destruct (v_config v) as [c|] eqn:Ev; [subst r|destruct Hr as (e & -> & He); rewrite He; done].
  cbn [config_stage]. change (Body KTenantConfig) with TenantConfigBody. rewrite (owned_like t _ Ht). unfold owned_config.
  destruct (ownedByAITenant (meta c) t0) eqn:Eo; cbn [negb]; [|by split].
  destruct (deleting c) eqn:Ed.
  { split; [done|]. exists (Some c). split; [by rewrite <- Ev; destruct v|]. cbn. rewrite Ed. cbn. lia. }
  destruct (ContainsFinalizer c tenantFinalizer) eqn:Ec; cbn [negb Nat.eqb].
  - apply always_bind. unfold delete_tolerant. apply always_bind.
    intros x v' [Hb (c' & -> & Hd)]. assert (Hi : ignore_not_found () x = Ok ()).
    { destruct x as [[]|e]; [done|]. cbn in *. by rewrite Hb. }
    cbn. rewrite Hi. cbn. split; [done|]. exists (Some c'). split; [done|]. cbn. rewrite Hd. cbn. lia.
  - apply always_bind. intros x v' [Hok Hp]. destruct x as [u|e]; [|done]. cbn in Hp. subst v'.
    split; [done|]. exists (Some (AddFinalizer tenantFinalizer c)). split; [done|].
    assert (Hd' : deleting (AddFinalizer tenantFinalizer c) = false) by exact Ed.
    assert (Hf' : ContainsFinalizer (AddFinalizer tenantFinalizer c) tenantFinalizer = true).
    { unfold ContainsFinalizer. cbn. apply contains_finalizer_spec, add_finalizer_spec. by left. }
    assert (Ho' : owned_config (AddFinalizer tenantFinalizer c) = true) by exact Eo.
    cbn [settled_config]. rewrite Hd'. cbn [config_stage]. rewrite Ho', Hd', Hf'. cbn. lia.
Qed.

(** *** The Job *)

Definition matches (j : Job) : bool := tenantAPIKeyRevocationJobMatchesAITenant j t0.
Definition job_stage (v : View) : nat :=
  if tenantAPIKeysRevoked (v_tenant v) then 0 else
  match v_job v with
  | None => 1
  | Some j => if matches j then if jobComplete j then 0 else if jobFailed j then 2 else 1 else 2
  end.

Lemma revoked_synced t v : synced t v → tenantAPIKeysRevoked (v_tenant v) = tenantAPIKeysRevoked t.
Proof.
  intros ([w E] & [w' E'] & Hs). unfold tenantAPIKeysRevoked. by rewrite Hs, E, E'.
Qed.
Lemma own_job_matches : matches (revocation_job t0) = true.
Proof.
  unfold matches, tenantAPIKeyRevocationJobMatchesAITenant, apiKeyRevocationJobMatchesUID, revocation_job,
    tenantAPIKeyRevocationJob, apiKeyRevocationJob. cbn [meta set_annotations Annotations].
  apply andb_true_iff. split.
  - apply negb_true_iff, bool_decide_eq_false. apply insert_non_empty.
  - apply String.eqb_eq. unfold value. by rewrite lookup_insert_ne, lookup_insert_ne, lookup_insert_eq by done.
Qed.

Lemma ready_always t v : always (revocationOperandsReady t) v (λ b v', b = true ∧ v' = v).
Proof.
  unfold revocationOperandsReady. destruct (String.eqb_spec (trim_space AppNamespace) ""); [done|].
  apply get_always. intros [sa|e] Hr; [|done]. apply get_always. intros [svc|e] Hr'; [|done].
  apply get_always. intros r (d & -> & Hd). split; [|done]. by apply Z.ltb_lt.
Qed.

(** Where the Job stands once the other controllers have run. *)
Lemma settles_job v v' j :
  settles v v' → v_job v = Some j → ∃ j', v_job v' = Some j' ∧ matches j' = matches j
    ∧ (jobFailed j = false → jobComplete j' = true).
Proof.
  intros (_ & Hj & _) E. rewrite E in Hj. destruct Hj as (j' & E' & Hm & Hc & _). exists j'. split_and!; [done| |auto].
  unfold matches, tenantAPIKeyRevocationJobMatchesAITenant, apiKeyRevocationJobMatchesUID. by rewrite Hm.
Qed.

Definition revoking (v : View) (x : AITenant * Res GoErr bool) (v' : View) : Prop :=
  synced x.1 v' ∧ v_config v' = v_config v ∧
  if (job_stage v =? 0)%nat then x.2 = Ok true ∧ tenantAPIKeysRevoked (v_tenant v') = true
  else x.2 ≠ Ok true ∧ ∀ v2, settles v' v2 → (job_stage v2 < job_stage v)%nat.

Lemma mark_always t v :
  synced t v →
  always (markTenantAPIKeysRevoked t) v (λ x v', synced x.1 v' ∧ v_config v' = v_config v ∧ x.2 = Ok tt
    ∧ tenantAPIKeysRevoked (v_tenant v') = true).
Proof.
  intros (Ht & Hv & Hs). unfold markTenantAPIKeysRevoked, mark_revoked. apply always_bind.
  eapply always_mono; [apply update_always; [exact Ht|exact Hv|exact Hs]|].
  intros [t1 e] v' (t' & -> & Hsync & He & Hst). cbn [fst snd] in *. subst e.
  split_and!; [exact Hsync|done|done|]. rewrite (revoked_synced _ _ Hsync), revoked_cases.
  unfold claims_revoked. rewrite Hst. cbn. rewrite condition_true_set_eq. apply orb_true_r.
Qed.

Lemma delete_job_step text t v (j : Job) :
  synced t v →
  always (delete_job text j) v (λ d v', v' = set_job None v ∧ d = Ok tt).
Proof.
  intros Hs. unfold delete_job, delete_tolerant. intros x v' [Hb ->]. destruct x as [[]|e]; [done|].
  cbn in *. by rewrite Hb.
Qed.

Lemma ensure_always t v : synced t v → always (ensureTenantAPIKeysRevoked t) v (revoking v).
Proof.
  intros Hs. pose proof (revoked_synced _ _ Hs) as Hrev. destruct (Hs) as (Ht & Hv & Hst).
  unfold ensureTenantAPIKeysRevoked, revoking, job_stage. rewrite Hrev.
  destruct (tenantAPIKeysRevoked t) eqn:Hr; [by split_and!|].
  destruct (String.eqb_spec (trim_space AppNamespace) ""); [done|].
  rewrite (like_job t0 t Ht). apply get_always. intros r Hj. specialize (Hj eq_refl). unfold found in Hj.
  destruct (v_job v) as [j|] eqn:Ej.
  - subst r. change (Body KJob) with JobBody. rewrite (like_matches t0 t j Ht). fold (matches j).
    destruct (matches j) eqn:Em; cbn [negb].
    + destruct (jobComplete j) eqn:Ec.
      { apply always_bind. eapply always_mono; [by apply mark_always|].
        intros [t1 e] v' (Hs' & Hc & He & Hr'). cbn in He. subst e. by split_and!. }
      destruct (jobFailed j) eqn:Ef.
      * apply always_bind. eapply always_mono; [by apply (delete_job_step _ t)|].
        intros d v' [-> ->]. cbn. split_and!; [done..|]. intros v2 (Ht2 & Hj2 & _). cbn in *. rewrite Ht2, Hrev, Hj2. lia.
      * cbn. split_and!; [done..|]. intros v2 Hset. destruct (settles_job _ _ _ Hset Ej) as (j' & -> & -> & Hc).
        destruct Hset as (-> & _). rewrite Hrev, Em, (Hc Ef). lia.
    + apply always_bind. eapply always_mono; [by apply (delete_job_step _ t)|].
      intros d v' [-> ->]. cbn. split_and!; [done..|]. intros v2 (Ht2 & Hj2 & _). cbn in *. rewrite Ht2, Hrev, Hj2. lia.
  - destruct Hj as (e & -> & He). rewrite He. cbn [negb]. unfold prepareRevocationOperands.
    apply always_bind, always_bind. eapply always_mono; [apply ready_always|]. intros b v' [-> ->]. cbn [always].
    rewrite Hr. cbn [negb]. apply always_bind. intros x v' [Hok Hc]. cbn in Hc. subst v'. destruct x as [u|]; [|done].
    cbn. split_and!; [done..|]. intros v2 Hset.
    destruct (settles_job _ _ _ Hset eq_refl) as (j' & -> & -> & Hc). destruct Hset as (-> & _). cbn.
    rewrite Hrev, own_job_matches, Hc by done. lia.
Qed.

(** *** A whole reconciliation *)

Definition potential (v : View) : nat := job_stage v + config_stage (v_config v).
(** The reconciliation removed the finalizer, or got closer to it whatever the
    other controllers do next. *)
Definition progress (v v' : View) : Prop :=
  gone v' ∨ like t0 (v_tenant v') ∧ ∀ v2, settles v' v2 → (potential v2 < potential v)%nat.

Lemma potential_bound v : (potential v ≤ 4)%nat.
Proof.
  unfold potential, job_stage, config_stage. repeat case_match; lia.
Qed.
Lemma settles_config v v' : settles v v' → v_config v' = settled_config (v_config v).
Proof. intros (_ & _ & H). by destruct (v_config v). Qed.
Lemma settled_config_le c : (config_stage (settled_config c) ≤ config_stage c)%nat.
Proof. destruct c as [c|]; cbn; [|done]. destruct (deleting c) eqn:E; cbn; [lia|by rewrite E]. Qed.

Lemma succeeds_then {A B} (p : Prog (Res GoErr A)) (f : Res GoErr A → Prog B) v Q :
  succeeds p → (∀ a, always (f (Ok a)) v Q) → always (p ≫= f) v Q.
Proof.
  intros Hp Hf. apply always_bind. eapply always_mono; [apply Hp|]. intros [a|e] v' [-> He]; [apply Hf|done].
Qed.

Lemma cleanup_always t v :
  like t0 t → like t0 (v_tenant v) →
  always (cleanup_after_revocation t) v (λ _ v', gone v' ∨
    v_tenant v' = v_tenant v ∧ v_job v' = v_job v
    ∧ (config_stage (settled_config (v_config v')) < config_stage (v_config v))%nat).
Proof.
  intros Ht Hv. unfold cleanup_after_revocation. apply always_bind.
  eapply always_mono; [by apply delete_config_always|]. intros r v'.
  destruct (config_stage (v_config v) =? 0)%nat; [intros [-> ->]|intros (-> & c & -> & Hc); by right].
  cbn [negb]. apply (succeeds_then (deleteAITenantScopedChildren t)); [apply succeeds_children|intros _].
  apply (succeeds_then (releaseTenantNamespace t)); [apply succeeds_release|intros _].
  apply (succeeds_then (deleteTenantGatewayAuthPolicy t)); [apply succeeds_auth_policy|intros _].
  apply (succeeds_then (deleteGatewayClaim t)); [apply succeeds_claims|intros _].
  apply (succeeds_then (cleanupGatewayLabelsOnDelete t)); [apply succeeds_labels|intros _].
  eapply always_mono; [by apply remove_finalizer_always|]. intros ? v' Hg. by left.
Qed.

Lemma forced_always timeout t v :
  synced t v → tenantAPIKeysRevoked t = true →
  always (forceRemoveAITenantFinalizer timeout t) v (λ _ v', gone v').
Proof.
  intros (Ht & Hv & Hs) Hr. unfold forceRemoveAITenantFinalizer. rewrite Hr. cbn [negb].
  apply always_bind. eapply always_mono; [apply update_always; [exact Ht|exact Hv|exact Hs]|].
  intros [t1 e] v' (t' & -> & (Ht1 & Ht' & _) & _). cbn [fst]. unfold event. apply always_bind.
  assert (Hrest : always (deleteTenantConfig t1 ≫= λ _, deleteAITenantScopedChildren t1 ≫= λ _,
      releaseTenantNamespace t1 ≫= λ _, deleteTenantGatewayAuthPolicy t1 ≫= λ _, deleteGatewayClaim t1 ≫= λ _,
      cleanupGatewayLabelsOnDelete t1 ≫= λ _, remove_finalizer_patch t1) (set_tenant t' v) (λ _ v', gone v')).
  { apply always_bind. eapply always_mono; [by apply delete_config_always|]. intros r v' Hc.
    assert (like t0 (v_tenant v')) as Hl.
    { destruct (config_stage _ =? 0)%nat; [destruct Hc as [_ ->]|destruct Hc as (_ & c & -> & _)]; exact Ht'. }
    apply (succeeds_then (deleteAITenantScopedChildren t1)); [apply succeeds_children|intros _].
    apply (succeeds_then (releaseTenantNamespace t1)); [apply succeeds_release|intros _].
    apply (succeeds_then (deleteTenantGatewayAuthPolicy t1)); [apply succeeds_auth_policy|intros _].
    apply (succeeds_then (deleteGatewayClaim t1)); [apply succeeds_claims|intros _].
    apply (succeeds_then (cleanupGatewayLabelsOnDelete t1)); [apply succeeds_labels|intros _].
    by apply remove_finalizer_always. }
  destruct HasRecorder; [|exact Hrest]. intros x v' ->. exact Hrest.
Qed.

(** A reported error changes the stored status, but not what it says of the
    API keys. *)
Lemma report_always phase reason message t k v (P : View → Prop) :
  synced t v →
  (∀ t1 t', synced t1 (set_tenant t' v) → tenantAPIKeysRevoked t' = tenantAPIKeysRevoked (v_tenant v) →
     always (k t1) (set_tenant t' v) (λ _ v', P v')) →
  always (report phase reason message t k) v (λ _ v', P v').
Proof.
  intros Hs Hk. pose proof (revoked_synced _ _ Hs) as Hrev. destruct Hs as (Ht & Hv & Hs). unfold report.
  apply always_bind. eapply always_mono; [apply update_always; [exact Ht|exact Hv|exact Hs]|].
  intros [t1 e] v' (t' & -> & Hsync & He & Hst). cbn [fst snd] in *. subst e. apply Hk; [exact Hsync|].
  change t' with (v_tenant (set_tenant t' v)). rewrite (revoked_synced _ _ Hsync), Hrev, !revoked_cases.
  destruct Ht as [w ->], Hsync as ([w' ->] & _). f_equal. unfold claims_revoked. rewrite Hst. apply phase_claims.
Qed.

Lemma in_order_always t v : synced t v → always (delete_in_order t) v (λ _ v', progress v v').
Proof.
  intros Hs. pose proof (revoked_synced _ _ Hs) as Hrev. destruct Hs as (Ht & Hv & Hs). unfold delete_in_order.
  apply always_bind. eapply always_mono; [apply update_always; [exact Ht|exact Hv|exact Hs]|].
  intros [t1 e] v1 (t' & -> & Hsync & He & Hst). cbn [fst snd] in *. subst e.
  assert (Hr1 : tenantAPIKeysRevoked t' = tenantAPIKeysRevoked (v_tenant v)).
  { change t' with (v_tenant (set_tenant t' v)). rewrite (revoked_synced _ _ Hsync), Hrev, !revoked_cases.
    destruct Ht as [w ->], Hsync as ([w' ->] & _). f_equal. unfold claims_revoked. rewrite Hst. exact (terminating_claims t). }
  assert (Hstage : job_stage (set_tenant t' v) = job_stage v) by (unfold job_stage; cbn; by rewrite Hr1).
  apply always_bind. eapply always_mono; [by apply ensure_always|].
  intros [t2 res] v2 (Hs2 & Hc2 & Hres). rewrite Hstage in Hres. cbn [fst snd v_config set_tenant] in *.
  destruct (Nat.eqb_spec (job_stage v) 0) as [E0|E0].
  - destruct Hres as [-> Hrev2]. eapply always_mono; [apply cleanup_always; apply Hs2|].
    intros ? v3 [Hg|(Hv3 & Hj3 & Hc3)]; [by left|right]. rewrite Hv3. split; [apply Hs2|]. intros v4 Hset.
    unfold potential. rewrite (settles_config _ _ Hset). unfold job_stage at 1. destruct Hset as (-> & _).
    rewrite Hv3, Hrev2. rewrite Hc2 in Hc3. lia.
  - destruct Hres as [Hne Hless].
    assert (Hprog : progress v v2).
    { right. split; [apply Hs2|]. intros v3 Hset. unfold potential. specialize (Hless v3 Hset).
      rewrite (settles_config _ _ Hset), Hc2. pose proof (settled_config_le (v_config v)). lia. }
    destruct res as [[]|e]; [done|exact Hprog|]. unfold event.
    assert (Hrep : always (report "Terminating" "DeletionBlocked" (etext e) t2
      (λ _, Ret (match cause e with JobFailed => Ok (30 * Second)%Z | _ => Err e end))) v2 (λ _ v', progress v v')).
    { apply report_always; [done|]. intros t3 t'' Hs3 Hr3. cbn. right. split; [apply Hs3|]. intros v3 Hset.
      unfold potential. assert (Hset' : settles v2 (set_tenant (v_tenant v2) v3)).
      { destruct Hset as (_ & Hset). by split. }
      specialize (Hless _ Hset'). unfold job_stage in Hless at 1. cbn in Hless.
      rewrite (settles_config _ _ Hset). cbn. rewrite Hc2. unfold job_stage at 1.
      destruct Hset as (-> & _). cbn. rewrite Hr3. pose proof (settled_config_le (v_config v)). lia. }
    apply always_bind. destruct HasRecorder; [|exact Hrep]. intros x v' ->. exact Hrep.
Qed.

Lemma settles_gone v v' : settles v v' → gone v → gone v'.
Proof. intros (E & _) Hg. unfold gone. by rewrite E. Qed.

Lemma settles_like v v' : settles v v' → like t0 (v_tenant v) → like t0 (v_tenant v').
Proof. intros (E & _) Hl. by rewrite E. Qed.

Lemma always_fmap {A B} (f : A → B) (p : Prog A) v (P : View → Prop) :
  always p v (λ _ v', P v') → always (f <$> p) v (λ _ v', P v').
Proof. intros Hp. apply always_bind. exact Hp. Qed.

(** Once the finalizer is gone, a reconciliation does nothing, whether or not
    the AITenant is still listed. *)
Lemma round_gone dns now timeout v :
  gone v → always (Reconcile dns now timeout (key_of t0)) v (λ _ v', gone v').
Proof.
  intros [Hd Hf]. unfold Reconcile. apply always_bind. intros r v' [-> Hr].
  destruct (Hr eq_refl) as [-> | (_ & e & -> & _)]; cbn [always]; [|done].
  change (Body KAITenant) with AITenantBody. rewrite Hd. unfold reconcileAITenantDelete. by rewrite Hf.
Qed.

Lemma round_progress dns now timeout v :
  like t0 (v_tenant v) → always (Reconcile dns now timeout (key_of t0)) v (λ _ v', progress v v').
Proof.
  intros Hv. assert (Hs : synced (v_tenant v) v) by (split; [exact Hv|]; by split).
  unfold Reconcile. apply always_bind. intros r v' [-> Hr]. rewrite (get_live _ _ Hv (Hr eq_refl)). cbn [always].
  change (Body KAITenant) with AITenantBody. rewrite (like_deleting _ Hv). apply always_fmap.
  unfold reconcileAITenantDelete. rewrite (like_finalizer _ Hv). cbn [negb].
  destruct (_ && _) eqn:E; [apply andb_true_iff in E as [_ Hr']|by apply in_order_always].
  eapply always_mono; [by apply forced_always|]. intros ? v' Hg. by left.
Qed.

Lemma rounds_done {S} dns timeout (view : S → View) (serve : ∀ X, Call X → S → S * X) (others : S → S) nows s :
  serves view serve → (∀ s, settles (view s) (view (others s))) →
  gone (view s) ∨ like t0 (v_tenant (view s)) ∧ (potential (view s) < length nows)%nat →
  gone (view (rounds dns timeout serve others nows s)).
Proof.
  intros Hserve Hothers. revert s. induction nows as [|now nows IH]; intros s [Hg|[Hl Hp]]; cbn in *; [done|lia| |].
  - apply IH. left. eapply settles_gone; [apply Hothers|].
    exact (always_run view serve _ s _ Hserve (round_gone dns now timeout _ Hg)).
  - apply IH. pose proof (always_run view serve _ s _ Hserve (round_progress dns now timeout _ Hl)) as [Hg|[Hl' Hless]].
    + left. by eapply settles_gone.
    + right. specialize (Hothers (run serve (Reconcile dns now timeout (key_of t0)) s).1). split.
      * by eapply settles_like.
      * specialize (Hless _ Hothers).
        by eapply Nat.lt_le_trans, le_S_n; [exact Hless|].
Qed.

(** C8 The deletion of a tenant completes.  On any server that answers every
    call and keeps what it is given, with the revocation Job's operands in
    place and controllers that complete Jobs and let a deleted configuration
    go, five reconciliations remove the finalizer of an AITenant under
    deletion: whatever Job (none, running, failed, another tenant's) and
    whatever configuration they start from, whenever they run, and whether or
    not the deletion time-out has passed. *)
Theorem deletion_completes {S} dns timeout (view : S → View) (serve : ∀ X, Call X → S → S * X) (others : S → S) nows s :
  serves view serve → (∀ s, settles (view s) (view (others s))) →
  like t0 (v_tenant (view s)) → (5 ≤ length nows)%nat →
  ContainsFinalizer (v_tenant (view (rounds dns timeout serve others nows s))) aitenantFinalizer = false.
Proof.
  intros Hserve Hothers Hl Hn. apply (rounds_done dns timeout view serve others nows s); [done..|].
  right. split; [done|]. pose proof (potential_bound (view s)). lia.
Qed.

End Liveness.
End TenantLiveness.

(** ** TenantDemo: the tenant controller's theorems on a concrete cluster

    A small cluster ([serve]) that keeps an AITenant, its configuration and its
    revocation Job, an encoding of the ownership annotation, and the theorems
    of [TenantDeletionFacts], [TenantLiveness] and [GatewayLabelFacts] applied
    to them. *)
Module TenantDemo.
Import Kube AITenant GatewayLabels GatewayLabelFacts TenantClient GatewayClaims GatewayClaimFacts TenantRevocation.
Import TenantDeletion TenantDeletionFacts.
Import TenantReconcile TenantLiveness.

(** ** An encoding of ownership maps *)

Fixpoint bits (p : positive) : string :=
  match p with xH => "" | xO p => String "0" (bits p) | xI p => String "1" (bits p) end.
Fixpoint unbits (s : string) : positive :=
  match s with
  | "" => xH
  | String c s => if Ascii.eqb c "0" then xO (unbits s) else xI (unbits s)
  end.
Lemma unbits_bits p : unbits (bits p) = p.
Proof. induction p; cbn; by f_equal. Qed.

#[local] Instance demo_json : OwnershipJSON := {|
  unmarshal_ownership s :=
    match s with
    | "null" => Ok None
    | String "{" s => match decode (unbits s) with Some m => Ok (Some m) | None => Err "invalid" end
    | _ => Err "invalid"
    end;
  marshal_ownership m := String "{" (bits (encode m));
|}.
#[local] Instance demo_json_laws : OwnershipJSONLaws.
Proof. split; [|done]. intros m _. cbn. by rewrite unbits_bits, decode_encode. Qed.
#[local] Instance demo_runtime : GoRuntime := reference_runtime.

(** ** Labels *)

Definition bare_namespace : ObjectMeta := set_labels {["team" := "ml"]} (new_meta "" "maas").
Definition wants (k v : string) : gmap string string := {[k := v]}.
Definition attached_to (gw : string) (d : gmap string string) (ns : ObjectMeta) : ObjectMeta :=
  match plan_labels gw d false ns with Ok (Patched ns') => ns' | _ => ns end.
Definition one_gateway : ObjectMeta := attached_to "gw-a" (wants "access" "yes") bare_namespace.
Definition two_gateways : ObjectMeta := attached_to "gw-b" (wants "access" "yes") one_gateway.

Lemma wants_key k v k' : is_Some (wants k v !! k') → k' = k.
Proof. intros [v' H]. unfold wants in H. by apply lookup_singleton_Some in H as [<- _]. Qed.
Lemma wants_ascii gw k v : ascii_text gw = true → ascii_text k = true → ascii_request gw (wants k v).
Proof.
  intros Hg Hk. split; [done|]. by intros k' ->%wants_key.
Qed.
Lemma one_gateway_reachable :
  label_reachable (one_gateway, <["gw-a" := wants "access" "yes"]> ∅).
Proof.
  eapply reach_step; [by apply (reach_start bare_namespace)|].
  apply (step_attach "gw-a" _ false bare_namespace ∅ (Patched one_gateway) one_gateway); [by apply wants_ascii| |done].
  by vm_compute.
Qed.
Lemma two_gateways_reachable :
  label_reachable (two_gateways, <["gw-b" := wants "access" "yes"]> (<["gw-a" := wants "access" "yes"]> ∅)).
Proof.
  eapply reach_step; [apply one_gateway_reachable|].
  apply (step_attach "gw-b" _ false one_gateway _ (Patched two_gateways) two_gateways); [by apply wants_ascii| |done].
  by vm_compute.
Qed.

Lemma gateways_undisturbed_witness :
  Labels two_gateways !! "access" = Some "yes"
  ∧ Labels match releaseGatewayLabels "gw-b" two_gateways with Ok (ns, _) => ns | Err _ => bare_namespace end
      !! "access" = Some "yes".
Proof.
  split.
  - by apply (proj1 (gateways_undisturbed _ _ two_gateways_reachable) "gw-a" (wants "access" "yes")).
  - destruct (proj1 (proj2 (gateways_undisturbed _ _ two_gateways_reachable)) "gw-b") as (ns' & r & E).
    rewrite E. pose proof (reach_step _ _ two_gateways_reachable (step_release "gw-b" _ _ _ _ E)) as H.
    pose proof (proj1 (gateways_undisturbed _ _ H) "gw-a" (wants "access" "yes") "access" "yes") as X.
    apply X; vm_compute; reflexivity.
Defined.

Lemma attach_release_witness :
  ∃ ns r, releaseGatewayLabels "gw-b" two_gateways = Ok (ns, r) ∧ Labels ns = Labels one_gateway.
Proof.
  destruct (attach_release one_gateway _ "gw-b" (wants "access" "yes") two_gateways one_gateway_reachable)
    as (ns & r & o & E & Hl & _).
  - by apply wants_ascii.
  - by vm_compute.
  - intros k ->%wants_key _. by exists "gw-a", (wants "access" "yes").
  - by vm_compute.
  - exists ns, r. split; [exact E|exact Hl].
Defined.

(** A label with the value the Gateway wants is taken over when someone else
    set it, and leaves with the Gateway although it did not bring it. *)
Theorem foreign_label_leaves_with_gateway :
  let ns := attached_to "gw-a" (wants "team" "ml") bare_namespace in
  Labels bare_namespace !! "team" = Some "ml" ∧ Labels ns = Labels bare_namespace
  ∧ match releaseGatewayLabels "gw-a" ns with Ok (ns', _) => Labels ns' !! "team" = None | Err _ => False end.
Proof. by vm_compute. Qed.

(** [json.Unmarshal] of [null] leaves the ownership map nil, and attaching a
    Gateway then writes to it. *)
Theorem null_annotation_panics :
  plan_labels "gw-a" (wants "access" "yes") false
    (set_annotations {[gatewayLabelsAnnotation := "null"]} (new_meta "" "maas")) = Ok PanicsOnNilMap.
Proof. by vm_compute. Qed.

(** ** A cluster with one tenant *)

#[local] Instance demo_conditions : StatusConditions := listed_conditions.
#[local] Instance demo_condition_laws : StatusConditionLaws := listed_conditions_laws.
#[local] Instance demo_util : ControllerUtil := listed_finalizers.
#[local] Instance demo_util_laws : ControllerUtilLaws := listed_finalizers_laws.
#[local] Instance demo_controller : AITenantReconciler := {|
  HasAPIReader := true; AppNamespace := "maas"; TenantNamespaceFlag := ""; AITenantNamespace := "";
  GatewayName := "gateway"; GatewayNamespace := "ingress"; DeletionTimeout := 600 * Second; HasRecorder := true;
  retries := 3; rfc3339 _ := "2025-01-01T00:00:00Z"; relatedImage := "" |}.

Definition deleted_meta (m : ObjectMeta) : ObjectMeta := {|
  Name := Name m; Namespace := Namespace m; UID := UID m; ResourceVersion := ResourceVersion m;
  Generation := Generation m; Labels := Labels m; Annotations := Annotations m; Finalizers := Finalizers m;
  CreationTimestamp := CreationTimestamp m; DeletionTimestamp := Some 1%Z; OwnerReferences := OwnerReferences m |}.
(** The tenant [acme], deleted. *)
Definition acme : AITenant := {|
  meta := deleted_meta (set_finalizers [aitenantFinalizer] (new_meta "ai-tenants" "acme"));
  body := {| Spec := {| sp_Gateway := None; sp_OIDC := None; sp_Guardrails := [] |};
             Status := {| Phase := "Active"; TenantNamespace := "ai-tenant-acme";
                          GatewayRef := {| gr_Namespace := "ingress"; gr_Name := "acme" |}; Conditions := [] |} |} |}.
Definition not_found : ApiErr := {| ae_Reason := ReasonNotFound; ae_Kind := ""; ae_Text := "not found" |}.
Definition or_not_found {B} (o : option (Object B)) : Res ApiErr (Object B) :=
  match o with Some o => Ok o | None => Err not_found end.

Definition answer (k : Kind) (key : Key) (v : View) : Res ApiErr (Obj k) :=
  match k return Res ApiErr (Obj k) with
  | KAITenant => if ContainsFinalizer (v_tenant v) aitenantFinalizer then Ok (v_tenant v) else Err not_found
  | KJob => or_not_found (v_job v)
  | KTenantConfig => or_not_found (v_config v)
  | KServiceAccount | KService => Ok {| meta := new_meta key.1 key.2; body := () |}
  | KDeployment => Ok {| meta := new_meta key.1 key.2; body := 1%Z |}
  | _ => Err not_found
  end.
Definition on_status (k : Kind) : Obj k → View → View :=
  match k return Obj k → View → View with
  | KAITenant => λ o v, set_tenant (set_status (λ _, status_of o) (v_tenant v)) v
  | _ => λ _ v, v
  end.
Definition on_patch (k : Kind) : Obj k → View → View :=
  match k return Obj k → View → View with
  | KAITenant => λ o v, set_tenant (with_meta (set_finalizers (Finalizers (meta o))) (v_tenant v)) v
  | KTenantConfig => λ o v, set_config (Some o) v
  | _ => λ _ v, v
  end.
Definition on_create (k : Kind) : Obj k → View → View :=
  match k return Obj k → View → View with KJob => λ o v, set_job (Some o) v | _ => λ _ v, v end.
Definition on_delete (k : Kind) : Obj k → View → View :=
  match k return Obj k → View → View with
  | KJob => λ _ v, set_job None v
  | KTenantConfig => λ o v, set_config (Some (with_meta deleted_meta o)) v
  | _ => λ _ v, v
  end.
Definition serve (X : Type) (c : Call X) (v : View) : View * X :=
  match c in Call X return View * X with
  | Get _ k key => (v, answer k key v)
  | ListAll _ _ _ | ListBy _ _ _ => (v, Ok [])
  | Create k o => (on_create k o v, Ok o)
  | Update _ o => (v, Ok o)
  | UpdateStatus k o => (on_status k o v, Ok o)
  | Patch k _ o _ => (on_patch k o v, Ok o)
  | Delete k o _ => (on_delete k o v, Ok tt)
  | Eventf _ _ _ _ => (v, tt)
  end.

(** Jobs complete, and a deleted configuration goes. *)
Definition complete (j : Job) : Job := {|
  meta := meta j;
  body := let b := body j in {|
    job_BackoffLimit := job_BackoffLimit b; job_ActiveDeadlineSeconds := job_ActiveDeadlineSeconds b;
    job_TTLSecondsAfterFinished := job_TTLSecondsAfterFinished b; job_ServiceAccountName := job_ServiceAccountName b;
    job_Image := job_Image b; job_Args := job_Args b;
    job_Conditions := ("Complete", ConditionTrue) :: job_Conditions b |} |}.
Definition others (v : View) : View := {|
  v_tenant := v_tenant v; v_job := complete <$> v_job v;
  v_config := match v_config v with Some c => if deleting c then None else Some c | None => None end |}.

Lemma serve_fault_free : serves acme id serve.
Proof.
  intros X c v. destruct c as [b k key|k ns l|k o|k o|k o|k base o lock|k o pre| |];
    cbn [serve fault_free fst snd id]; try done.
  - split; [done|]. destruct k; cbn [get_reply answer found]; try done; unfold or_not_found, id.
    + intros _. destruct (ContainsFinalizer (v_tenant v) aitenantFinalizer) eqn:E; [by left|right]. split; [done|]. by eexists.
    + intros _. destruct (v_config v); [done|by eexists].
    + intros _. destruct (v_job v); [done|by eexists].
    + eexists. split; [done|]. by cbn.
  - split; [done|]. by destruct k.
  - split; [done|]. destruct k; try done. cbn. eexists. split; [done|]. split; [|done].
    exists (ResourceVersion (meta (v_tenant v))). by destruct v as [[[]] ? ?].
  - split; [done|]. destruct k; try done. cbn. eexists. split; [done|].
    exists (ResourceVersion (meta (v_tenant v))). by destruct v as [[[]] ? ?].
  - split; [done|]. destruct k; try done. cbn. eexists. by split.
Qed.
Lemma others_settle v : settles v (others v).
Proof.
  split; [done|]. split; cbn.
  - destruct (v_job v) as [j|]; cbn; [|done]. eexists. split_and!; [done..|].
    unfold jobFailed, job_has. cbn. by intros ->.
  - by destruct (v_config v).
Qed.

(** The tenant's configuration is live and another tenant's Job has its name. *)
Definition cluster : View := {|
  v_tenant := acme;
  v_job := Some {| meta := new_meta "maas" "other";
                   body := {| job_BackoffLimit := 0; job_ActiveDeadlineSeconds := 0; job_TTLSecondsAfterFinished := 0;
                              job_ServiceAccountName := ""; job_Image := ""; job_Args := ""; job_Conditions := [] |} |};
  v_config := Some {| meta := applyAITenantMetadata acme "ai-tenant-acme" (new_meta "ai-tenant-acme" "default-tenant");
                      body := {| tc_APIKeys := None; tc_Telemetry := None; tc_Guardrails := []; tc_Conditions := [] |} |} |}.

Lemma deletion_completes_witness :
  ContainsFinalizer (v_tenant (rounds acme (λ _, []) "10m" serve others [1; 2; 3; 4; 5]%Z cluster)) aitenantFinalizer = false.
Proof.
  refine (deletion_completes acme _ _ _ (λ _, []) "10m" id serve others [1; 2; 3; 4; 5]%Z cluster _ _ _ _); try by vm_compute.
  - apply serve_fault_free.
  - intros v. apply others_settle.
  - apply like_refl.
Defined.


(** ** Two tenants and one Gateway *)

Definition beta : AITenant := {| meta := new_meta "ai-tenants" "beta"; body := body acme |}.
Definition ingress : TenantGatewayRef := {| gr_Namespace := "ingress"; gr_Name := "shared" |}.
Definition acme_claim : Obj KConfigMap :=
  with_meta (set_owners [controller_reference "AITenant" (meta acme)]) (claim_for acme ingress).
Definition contenders : list (AITenant * Prog (Res GoErr unit)) :=
  [(acme, ensureGatewayClaim acme ingress); (beta, ensureGatewayClaim beta ingress)].
(** [acme] has run to its end, [beta] has not started. *)
Definition decided : list (AITenant * Prog (Res GoErr unit)) :=
  [(acme, Ret (Ok tt)); (beta, ensureGatewayClaim beta ingress)].

Lemma step_to ref o ts i t X (c : Call X) k x o' ts' :
  ts !! i = Some (t, Vis c k) → claim_effect ref X c o x o' → ts' = <[i := (t, k x)]> ts →
  claim_step ref (o, ts) (o', ts').
Proof. intros Hi He ->. by econstructor. Qed.
Lemma acme_claims : rtc (claim_step ingress) (None, contenders) (Some acme_claim, decided).
Proof.
  eapply rtc_l.
  { eapply (step_to ingress None contenders 0 acme _ (Create KConfigMap acme_claim) _ (Ok acme_claim) (Some acme_claim)).
    - cbn. reflexivity.
    - cbn. rewrite decide_True by done. by right.
    - reflexivity. }
  eapply rtc_l; [|apply rtc_refl].
  eapply (step_to ingress (Some acme_claim) _ 0 acme _ (ListAll KConfigMap _ _) _ (Ok []) (Some acme_claim)).
  - cbn. reflexivity.
  - done.
  - reflexivity.
Qed.

Lemma gateway_claim_exclusive_witness :
  (∃ c, Some acme_claim = Some c ∧ isClaimOwnedByAITenant (meta c) acme = true ∧ for_gateway ingress c = true)
  ∧ (decided !! 1%nat = Some (beta, Ret (Ok tt)) → 0%nat = 1%nat).
Proof.
  apply (gateway_claim_exclusive ingress (eq_refl : HasAPIReader (AITenantReconciler := demo_controller) = true)
    None (Some acme_claim) [acme; beta] decided 0 1 acme beta); [|apply acme_claims|done].
  apply (bool_decide_eq_true_1 _). by vm_compute.
Defined.

End TenantDemo.
