(* ===== verification/AdmissionWebhooks.v ===== *)
(** * AdmissionWebhooks: what the API server may store

    The validating webhooks of [maas-controller/pkg/webhook]: one validator per
    custom resource, each asked by the API server before a write of that
    resource is stored, with a refusal as an error.  The validators only read;
    what they read, and what they refuse, is characterised at the end, for
    AITenants also over sequences of writes. *)

From stdpp Require Import relations.
From S2P Require Import Prelude GoStrings Kube AITenant Cluster TenantClient.
From Stdlib Require String.
Local Open Scope string_scope.

Module AdmissionWebhooks.
Import Kube AITenant.

Definition quoted (s : string) : string := dquote +:+ s +:+ dquote.

(** ** AITenants *)

(** [AITenantValidator]; [None] is a nil validator. *)
Record AITenantValidator := {
  v_HasClient : bool; v_AITenantNamespace : string; v_GatewayNamespace : string;
}.

Definition gatewayRefFor (v : AITenantValidator) (aitenant : AITenant) : TenantGatewayRef := {|
  gr_Namespace := v_GatewayNamespace v;
  gr_Name := match sp_Gateway (Spec (body aitenant)) with
             | Some name => if String.eqb name "" then Name (meta aitenant) else name
             | None => Name (meta aitenant)
             end |}.

(** An item of the list the loop returns on. *)
Definition conflicting (v : AITenantValidator) (aitenant existing : AITenant) : bool :=
  negb (String.eqb (Name (meta existing)) (Name (meta aitenant))
        && String.eqb (Namespace (meta existing)) (Namespace (meta aitenant)))
  && (String.eqb (gr_Namespace (gatewayRefFor v existing)) (gr_Namespace (gatewayRefFor v aitenant))
      && String.eqb (gr_Name (gatewayRefFor v existing)) (gr_Name (gatewayRefFor v aitenant))).

Definition in_use (v : AITenantValidator) (aitenant existing : AITenant) : GoErr :=
  let ref := gatewayRefFor v aitenant in
  plain ("gateway " +:+ gr_Namespace ref +:+ "/" +:+ gr_Name ref +:+ " is already in use by AITenant "
    +:+ Namespace (meta existing) +:+ "/" +:+ Name (meta existing)
    +:+ "; each AITenant requires a dedicated Gateway for isolation; please create a new Gateway for this tenant "
    +:+ "or specify a different gateway name in spec.gateway.name").

Definition validateGatewayUniqueness (v : AITenantValidator) (aitenant : AITenant) : Prog (Res GoErr unit) :=
  items <-! try "failed to list AITenants" (call (ListBy false KAITenant (InNamespace (v_AITenantNamespace v)))) ;;
  Ret match List.find (conflicting v aitenant) items with
      | Some existing => Err (in_use v aitenant existing)
      | None => Ok tt
      end.

(** The guards both handlers start with. *)
Definition configured (v : option AITenantValidator) : Res GoErr AITenantValidator :=
  match v with
  | None => Err (plain "webhook validator not configured")
  | Some v =>
      if negb (v_HasClient v) then Err (plain "webhook client not configured") else
      if String.eqb (v_AITenantNamespace v) "" then Err (plain "AITenant infrastructure namespace is not configured") else
      if String.eqb (v_GatewayNamespace v) "" then Err (plain "gateway namespace is not configured") else
      Ok v
  end.

Module AITenants.
Definition ValidateCreate (v : option AITenantValidator) (aitenant : AITenant) : Prog (Res GoErr unit) :=
  v <-! Ret (configured v) ;;
  if negb (String.eqb (Namespace (meta aitenant)) (v_AITenantNamespace v))
  then Ret (Err (plain ("AITenant " +:+ Namespace (meta aitenant) +:+ "/" +:+ Name (meta aitenant)
         +:+ " must be created in the configured AITenant infrastructure namespace "
         +:+ quoted (v_AITenantNamespace v))))
  else validateGatewayUniqueness v aitenant.

Definition ValidateUpdate (v : option AITenantValidator) (oldAITenant newAITenant : AITenant)
    : Prog (Res GoErr unit) :=
  v <-! Ret (configured v) ;;
  validateGatewayUniqueness v newAITenant.

Definition ValidateDelete (aitenant : AITenant) : Prog (Res GoErr unit) := Ret (Ok tt).
End AITenants.

(** ** Model references *)

Record MaaSModelRefValidator := { m_HasClient : bool; m_AITenantNamespace : string }.

Definition validateTenantRef (v : option MaaSModelRefValidator) (model : MaaSModelRef) : Prog (Res GoErr unit) :=
  let tenantRef := TenantRef (body model) in
  if String.eqb tenantRef "" then Ret (Ok tt) else
  match v with
  | None => Ret (Err (plain "webhook validator not configured"))
  | Some v =>
      if negb (m_HasClient v) then Ret (Err (plain "webhook client not configured")) else
      if String.eqb (m_AITenantNamespace v) ""
      then Ret (Err (plain "AITenant infrastructure namespace is not configured")) else
      aitenant ← call (Get false KAITenant (m_AITenantNamespace v, tenantRef));
      Ret match aitenant with
          | Ok _ => Ok tt
          | Err e =>
              if isNotFound e
              then Err (plain ("spec.tenantRef " +:+ quoted tenantRef
                     +:+ " references AITenant that does not exist in namespace " +:+ m_AITenantNamespace v))
              else Err (wrap "failed to validate tenantRef" e)
          end
  end.

Module ModelRefs.
Definition ValidateCreate (v : option MaaSModelRefValidator) (model : MaaSModelRef) : Prog (Res GoErr unit) :=
  validateTenantRef v model.
Definition ValidateUpdate (v : option MaaSModelRefValidator) (oldObj model : MaaSModelRef) : Prog (Res GoErr unit) :=
  validateTenantRef v model.
Definition ValidateDelete (model : MaaSModelRef) : Prog (Res GoErr unit) := Ret (Ok tt).
End ModelRefs.

(** ** Resources of a tenant namespace *)

(** [TenantNamespaceValidator.ValidateNamespace]; [hasClient] is false for a
    nil validator or client, the message of a refusal is the error. *)
Definition ValidateNamespace (hasClient : bool) (namespace : string) : Prog (Res GoErr unit) :=
  if negb hasClient then Ret (Err (plain "namespace validator not configured")) else
  configs ← call (ListBy false KTenantConfig (InNamespace namespace));
  match configs with
  | Err e => Ret (Err (plain ("failed to check for MaasTenantConfig CR in namespace " +:+ quoted namespace
               +:+ ": " +:+ ae_Text e)))
  | Ok (_ :: _) => Ret (Ok tt)
  | Ok [] =>
      legacy ← call (ListBy false KLegacyTenant (InNamespace namespace));
      Ret match legacy with
          | Err e => Err (plain ("failed to check for legacy Tenant CR in namespace " +:+ quoted namespace
                       +:+ ": " +:+ ae_Text e))
          | Ok (_ :: _) => Ok tt
          | Ok [] => Err (plain ("namespace " +:+ quoted namespace +:+ " is not enabled for MaaS tenant resources. "
                       +:+ "Create a MaasTenantConfig CR in this namespace to enable it."))
          end
  end.

(** The validator a webhook holds, if any, by whether it has a client. *)
Definition validate_namespace (validator : option bool) (namespace : string) : Prog (Res GoErr unit) :=
  match validator with
  | None => Ret (Err (plain "webhook validator not configured"))
  | Some hasClient => ValidateNamespace hasClient namespace
  end.

Definition rateLimitIdentityShort : string := "short".
Definition rateLimitIdentityLegacy : string := "legacy".

Definition validateRateLimitIdentitySpec (sub : MaaSSubscription) : Res GoErr unit :=
  let identity := ss_RateLimitIdentity (ss_Spec (body sub)) in
  if String.eqb identity "" || String.eqb identity rateLimitIdentityShort
     || String.eqb identity rateLimitIdentityLegacy then Ok tt else
  Err (plain ("spec.rateLimitIdentity must be " +:+ quoted rateLimitIdentityShort +:+ " or "
    +:+ quoted rateLimitIdentityLegacy +:+ " (got " +:+ quoted identity +:+ ")")).

(** [spec.organization] of a subscription, as the API machinery decodes it. *)
Class OrganizationField := { Organization : Opaque → option string }.

Module Subscriptions.
Definition OrganizationID `{OrganizationField} (sub : MaaSSubscription) : string :=
  default "" (Organization (ss_Rest (ss_Spec (body sub)))).

Definition ValidateCreate (validator : option bool) (sub : MaaSSubscription) : Prog (Res GoErr unit) :=
  _ <-! validate_namespace validator (Namespace (meta sub)) ;;
  Ret (validateRateLimitIdentitySpec sub).

Definition ValidateUpdate `{OrganizationField} (oldObj newObj : MaaSSubscription) : Prog (Res GoErr unit) :=
  Ret (_ <- validateRateLimitIdentitySpec newObj ;;
       let oldOrganizationID := OrganizationID oldObj in
       let newOrganizationID := OrganizationID newObj in
       if negb (String.eqb oldOrganizationID "") && negb (String.eqb oldOrganizationID newOrganizationID)
       then Err (plain "organization.id is immutable") else Ok tt).

Definition ValidateDelete (sub : MaaSSubscription) : Prog (Res GoErr unit) := Ret (Ok tt).
End Subscriptions.

Module AuthPolicies.
Definition ValidateCreate (validator : option bool) (policy : Obj KMaaSAuthPolicy) : Prog (Res GoErr unit) :=
  validate_namespace validator (Namespace (meta policy)).
Definition ValidateUpdate (oldObj newObj : Obj KMaaSAuthPolicy) : Prog (Res GoErr unit) := Ret (Ok tt).
Definition ValidateDelete (policy : Obj KMaaSAuthPolicy) : Prog (Res GoErr unit) := Ret (Ok tt).
End AuthPolicies.

(** ** Legacy external models *)

Definition legacyExternalModelCreateDeniedMessage : string :=
  "maas.opendatahub.io ExternalModel is deprecated; "
  +:+ "create inference.opendatahub.io ExternalProvider and ExternalModel instead "
  +:+ "(see the External Model setup guide in the MaaS documentation)".

Module ExternalModels.
Definition ValidateCreate (o : Obj KLegacyExternalModel) : Prog (Res GoErr unit) :=
  Ret (Err (plain legacyExternalModelCreateDeniedMessage)).
Definition ValidateUpdate (oldObj newObj : Obj KLegacyExternalModel) : Prog (Res GoErr unit) := Ret (Ok tt).
Definition ValidateDelete (o : Obj KLegacyExternalModel) : Prog (Res GoErr unit) := Ret (Ok tt).
End ExternalModels.

End AdmissionWebhooks.

(** ** AdmissionFacts: what the webhooks let through

    The verdict of the AITenant webhook on a cluster that answers, what it
    guarantees of a series of writes, and what it costs: two AITenants that do
    share a Gateway can no longer be written, not even to let them go. *)
Module AdmissionFacts.
Import Kube AITenant Cluster AdmissionWebhooks.

Lemma find_nothing {A} (p : A → bool) l : List.find p l = None ↔ ∀ x, x ∈ l → p x = false.
Proof.
  split.
  - intros H x Hx. eapply List.find_none; [done|by apply list_elem_of_In].
  - intros H. destruct (List.find p l) as [x|] eqn:E; [|done].
    apply List.find_some in E as [Hin Hp]. rewrite H in Hp by by apply list_elem_of_In. done.
Qed.

Lemma conflicting_spec v t o :
  conflicting v t o = true ↔ key_of o ≠ key_of t ∧ gatewayRefFor v o = gatewayRefFor v t.
Proof.
  unfold conflicting, key_of. rewrite andb_true_iff, negb_true_iff, andb_false_iff, andb_true_iff.
  rewrite !String.eqb_eq, !String.eqb_neq. unfold gatewayRefFor. cbn [gr_Namespace gr_Name]. split.
  - intros [Hk [_ Hn]]. split; [|by f_equal]. intros [= H1 H2]. destruct Hk as [[]|[]]; congruence.
  - intros [Hk [= Hn]]. split; [|done].
    destruct (decide (Name (meta o) = Name (meta t))); [right|by left]. intros Hns. apply Hk. congruence.
Qed.

Section Validator.
Variable v : AITenantValidator.
Hypothesis v_ready : configured (Some v) = Ok v.

Definition present (cl : Cluster) (o : AITenant) : Prop := ∃ key, cl KAITenant !! key = Some o.
(** An AITenant the validator looks at. *)
Definition watched (o : AITenant) : Prop := Namespace (meta o) = v_AITenantNamespace v.
(** Nobody else the validator looks at has the Gateway of [t]. *)
Definition gateway_free (cl : Cluster) (t : AITenant) : Prop :=
  ∀ o, present cl o → watched o → key_of o ≠ key_of t → gatewayRefFor v o ≠ gatewayRefFor v t.

Lemma v_namespace : v_AITenantNamespace v ≠ "".
Proof.
  unfold configured in v_ready. destruct (negb _); [done|].
  destruct (String.eqb_spec (v_AITenantNamespace v) ""); done.
Qed.

Lemma uniqueness_exact cl t :
  reads (validateGatewayUniqueness v t) cl (λ r, r = Ok tt ↔ gateway_free cl t).
Proof.
  unfold validateGatewayUniqueness, try. apply reads_bind_ok, reads_bind.
  intros r cl' [-> (l & -> & Hl)]. split; [done|]. apply reads_ret. cbn [map_err]. apply reads_ret.
  assert (Hfree : List.find (conflicting v t) l = None ↔ gateway_free cl t).
  { rewrite find_nothing. destruct Hl as [_ Hl]. split.
    - intros Hf o Hs Hw Hk Hg. enough (conflicting v t o = false) as Hc.
      { rewrite (proj2 (conflicting_spec v t o)) in Hc; [done|]. by split. }
      apply Hf, Hl. split; [done|]. by right.
    - intros Hf o [Hs Hns]%Hl. destruct (conflicting v t o) eqn:Ec; [|done].
      apply conflicting_spec in Ec as [Hk Hg]. destruct (Hf o Hs); [|done..].
      destruct Hns as [Hns|Hns]; [by destruct v_namespace|done]. }
  rewrite <- Hfree. by destruct (List.find (conflicting v t) l).
Qed.

Lemma create_exact cl t :
  reads (AITenants.ValidateCreate (Some v) t) cl (λ r, r = Ok tt ↔ watched t ∧ gateway_free cl t).
Proof.
  unfold AITenants.ValidateCreate. rewrite v_ready. unfold watched. cbn.
  destruct (String.eqb_spec (Namespace (meta t)) (v_AITenantNamespace v)) as [Hw|Hw]; cbn [negb].
  - eapply reads_mono; [apply uniqueness_exact|]. intros r Hr. cbn in *. tauto.
  - apply reads_ret. split; [done|tauto].
Qed.

Lemma update_exact cl old t :
  reads (AITenants.ValidateUpdate (Some v) old t) cl (λ r, r = Ok tt ↔ gateway_free cl t).
Proof. unfold AITenants.ValidateUpdate. rewrite v_ready. apply uniqueness_exact. Qed.

(** ** Series of writes *)

(** One execution against a server that answers. *)
Inductive ends {A} : Prog A → Cluster → A → Prop :=
| ends_ret a cl : ends (Ret a) cl a
| ends_call X (c : Call X) k cl x cl' a : replies X c cl x cl' → ends (k x) cl' a → ends (Vis c k) cl a.

Lemma always_ends {A} (p : Prog A) cl a (Q : A → Prop) : always p cl (λ a _, Q a) → ends p cl a → Q a.
Proof. intros Hp He. induction He as [a cl|X c k cl x cl' a Hr _ IH]; cbn in Hp; [done|]. by eapply IH, Hp. Qed.

Definition accepted (p : Prog (Res GoErr unit)) (cl : Cluster) : Prop := ends p cl (Ok tt).

Lemma accepted_exact p cl (P : Prop) : reads p cl (λ r, r = Ok tt ↔ P) → accepted p cl → P.
Proof.
  intros Hp Ha. apply (always_ends p cl (Ok tt) (λ r, r = Ok tt ↔ P)); [|done|done].
  eapply always_weaken; [exact Hp|]. by intros r cl' [_ Hr].
Qed.

(** The writes the API server stores: creations and updates are those the
    webhook accepts on the cluster they change, a status is not asked about, and
    nor is a deletion. *)
Inductive write (cl cl' : Cluster) : Prop :=
| w_create t : accepted (AITenants.ValidateCreate (Some v) t) cl →
    changes cl KAITenant (key_of t) (Some t) cl' → write cl cl'
| w_update old t : cl KAITenant !! key_of t = Some old → accepted (AITenants.ValidateUpdate (Some v) old t) cl →
    changes cl KAITenant (key_of t) (Some t) cl' → write cl cl'
| w_status old t : cl KAITenant !! key_of t = Some old → key_of old = key_of t → Spec (body t) = Spec (body old) →
    changes cl KAITenant (key_of t) (Some t) cl' → write cl cl'
| w_delete key : changes cl KAITenant key None cl' → write cl cl'
| w_other : cl' KAITenant = cl KAITenant → write cl cl'.

Definition exclusive (cl : Cluster) : Prop :=
  ∀ o1 o2, present cl o1 → present cl o2 → watched o1 → watched o2 → key_of o1 ≠ key_of o2 →
    gatewayRefFor v o1 ≠ gatewayRefFor v o2.

Lemma present_changed cl cl' key o' o :
  changes cl KAITenant key o' cl' → present cl' o → o' = Some o ∨ present cl o.
Proof.
  intros (Hn & Ho & _) [k Hk]. destruct (decide (k = key)) as [->|Hne]; [left; by rewrite <- Hn|].
  right. exists k. by rewrite <- Ho.
Qed.

(** A tenant that shares no Gateway with those already there. *)
Lemma exclusive_add cl cl' t :
  exclusive cl → changes cl KAITenant (key_of t) (Some t) cl' →
  (∀ o, present cl o → watched o → watched t → key_of o ≠ key_of t → gatewayRefFor v o ≠ gatewayRefFor v t) →
  exclusive cl'.
Proof.
  intros He Hch Hfree o1 o2 H1 H2 Hw1 Hw2 Hk.
  destruct (present_changed _ _ _ _ _ Hch H1) as [[= <-]|H1'], (present_changed _ _ _ _ _ Hch H2) as [[= <-]|H2'].
  - done.
  - intros Hg. by apply (Hfree o2).
  - by apply Hfree.
  - by apply He.
Qed.

Lemma same_gateway o t : key_of o = key_of t → Spec (body o) = Spec (body t) → gatewayRefFor v o = gatewayRefFor v t.
Proof. unfold gatewayRefFor, key_of. intros [= _ Hn] ->. by rewrite Hn. Qed.

Lemma write_exclusive cl cl' : write cl cl' → exclusive cl → exclusive cl'.
Proof.
  intros Hw He. destruct Hw as [t Ha Hch|old t _ Ha Hch|old t Ho Hk Hs Hch|key Hch|Heq].
  - apply (accepted_exact _ _ _ (create_exact cl t)) in Ha as [_ Hfree]. eapply exclusive_add; eauto.
  - apply (accepted_exact _ _ _ (update_exact cl old t)) in Ha. eapply exclusive_add; eauto.
  - eapply exclusive_add; [done|done|]. intros o Hp Hwo Hwt Hne. rewrite <- (same_gateway old t) by done.
    apply He; [done|by exists (key_of t)|done| |by rewrite Hk].
    unfold watched, key_of in *. by injection Hk as -> _.
  - intros o1 o2 H1 H2. destruct (present_changed _ _ _ _ _ Hch H1) as [|H1'], (present_changed _ _ _ _ _ Hch H2) as [|H2']; [done..|].
    by apply He.
  - intros o1 o2 [k1 H1] [k2 H2]. rewrite Heq in H1, H2. apply He; by eexists.
Qed.

(** C20 The AITenant webhook keeps Gateways exclusive.  On an API server that
    answers, a creation is accepted exactly for an AITenant of the configured
    namespace whose Gateway (named, or after the tenant) no other AITenant
    there has, and an update exactly when no other one has the new Gateway; so
    through any series of writes, each checked against the cluster it changes,
    with status writes and deletions in between that the webhook never sees, no
    two AITenants come to share a Gateway. *)
Theorem gateways_stay_exclusive cl cl' :
  exclusive cl → rtc write cl cl' →
  exclusive cl' ∧
  ∀ old t,
    reads (AITenants.ValidateCreate (Some v) t) cl' (λ r, r = Ok tt ↔ watched t ∧ gateway_free cl' t) ∧
    reads (AITenants.ValidateUpdate (Some v) old t) cl' (λ r, r = Ok tt ↔ gateway_free cl' t).
Proof.
  intros He Hw. split; [|intros old t; split; [apply create_exact|apply update_exact]].
  induction Hw as [|x y z Hxy _ IH]; [done|]. by apply IH, (write_exclusive x).
Qed.

(** An update that leaves the specification alone is refused while another
    AITenant has the Gateway, whatever it does; in particular the one that
    removes the finalizer of an AITenant under deletion. *)
Theorem shared_gateway_blocks_release cl t t' other :
  present cl other → watched other → key_of other ≠ key_of t → gatewayRefFor v other = gatewayRefFor v t →
  key_of t' = key_of t → Spec (body t') = Spec (body t) →
  reads (AITenants.ValidateUpdate (Some v) t t') cl (λ r, r ≠ Ok tt).
Proof.
  intros Hp Hw Hk Hg Hk' Hs. eapply reads_mono; [apply update_exact|]. intros r Hr Hok.
  apply (proj1 Hr Hok other Hp Hw); [by rewrite Hk'|]. by rewrite (same_gateway t' t).
Qed.

End Validator.

(** ** References *)

(** A subscription or an access policy is admitted to a namespace with a
    configuration, current or legacy. *)
Lemma listed_any {k} (cl : Cluster) (P : Obj k → Prop) l :
  lists cl k P l → l ≠ [] ↔ ∃ key o, cl k !! key = Some o ∧ P o.
Proof.
  intros [_ Hl]. split.
  - destruct l as [|o l]; [done|]. intros _. destruct (proj1 (Hl o)) as [[key Hk] HP]; [by left|]. by exists key, o.
  - intros (key & o & Hk & HP) ->. apply (not_elem_of_nil o), Hl. split; [by exists key|done].
Qed.

Theorem namespace_admission_exact cl namespace :
  namespace ≠ "" →
  reads (ValidateNamespace true namespace) cl (λ r, r = Ok tt ↔
    (∃ key o, cl KTenantConfig !! key = Some o ∧ Namespace (meta o) = namespace)
    ∨ (∃ key o, cl KLegacyTenant !! key = Some o ∧ Namespace (meta o) = namespace)).
Proof.
  intros Hns. unfold ValidateNamespace. cbn [negb].
  assert (Hsel : ∀ k (l : list (Obj k)), lists cl k (selects k (InNamespace namespace)) l →
    l ≠ [] ↔ ∃ key o, cl k !! key = Some o ∧ Namespace (meta o) = namespace).
  { intros k l Hl. rewrite (listed_any _ _ _ Hl). cbn. unfold in_namespace. split; intros (key & o & Hk & Ho);
      exists key, o; (split; [done|]); [by destruct Ho|by right]. }
  apply reads_bind. intros r cl' [-> (l & -> & Hl%Hsel)]. split; [done|].
  destruct l as [|o l]; [|apply reads_ret; naive_solver].
  apply reads_bind. intros r cl' [-> (l' & -> & Hl'%Hsel)]. split; [done|]. apply reads_ret.
  destruct l' as [|o' l']; naive_solver.
Qed.

(** A model may name an AITenant only if it exists. *)
Theorem tenant_ref_exact cl v model :
  m_HasClient v = true → m_AITenantNamespace v ≠ "" →
  reads (validateTenantRef (Some v) model) cl (λ r, r = Ok tt ↔
    TenantRef (body model) = "" ∨ is_Some (cl KAITenant !! (m_AITenantNamespace v, TenantRef (body model)))).
Proof.
  intros Hc Hns. unfold validateTenantRef. rewrite Hc. apply String.eqb_neq in Hns as ->.
  destruct (String.eqb_spec (TenantRef (body model)) "") as [He|Hne]; [apply reads_ret; tauto|].
  apply reads_bind, reads_get. destruct (cl KAITenant !! _) as [o|].
  - apply reads_ret. split; [by right; eexists|done].
  - intros e He. apply reads_ret. rewrite He. split; [done|]. intros [?|[? ?]]; done.
Qed.

(** ** Subscriptions *)

Section Subscriptions.
Context {OF : OrganizationField}.

(** An accepted update keeps an organization once it is set, and a known
    rate-limit identity. *)
Lemma organization_kept oldObj newObj :
  Subscriptions.ValidateUpdate oldObj newObj = Ret (Ok tt) ↔
  (Subscriptions.OrganizationID oldObj = "" ∨ Subscriptions.OrganizationID newObj = Subscriptions.OrganizationID oldObj)
  ∧ ss_RateLimitIdentity (ss_Spec (body newObj)) ∈ [""; rateLimitIdentityShort; rateLimitIdentityLegacy].
Proof.
  unfold Subscriptions.ValidateUpdate, validateRateLimitIdentitySpec.
  rewrite !elem_of_cons, elem_of_nil.
  destruct (String.eqb_spec (ss_RateLimitIdentity (ss_Spec (body newObj))) ""),
    (String.eqb_spec (ss_RateLimitIdentity (ss_Spec (body newObj))) rateLimitIdentityShort),
    (String.eqb_spec (ss_RateLimitIdentity (ss_Spec (body newObj))) rateLimitIdentityLegacy); cbn [orb res_bind];
    try (split; [done|tauto]);
    destruct (String.eqb_spec (Subscriptions.OrganizationID oldObj) ""),
      (String.eqb_spec (Subscriptions.OrganizationID oldObj) (Subscriptions.OrganizationID newObj)); cbn [negb andb];
    naive_solver.
Qed.

(** Through any series of accepted updates the organization stays. *)
Theorem organization_is_final (subs : list MaaSSubscription) first last :
  Subscriptions.OrganizationID first ≠ "" →
  Forall (λ p, Subscriptions.ValidateUpdate p.1 p.2 = Ret (Ok tt)) (zip (first :: subs) (subs ++ [last])) →
  Subscriptions.OrganizationID last = Subscriptions.OrganizationID first.
Proof.
  revert first. induction subs as [|s subs IH]; intros first Hne H; cbn in H; apply Forall_cons in H as [H1 H];
    apply organization_kept in H1 as [[?|H1] _]; try done. cbn in H1.
  rewrite <- H1. apply IH; [congruence|done].
Qed.

End Subscriptions.

(** ** A cluster *)

Definition validator : AITenantValidator :=
  {| v_HasClient := true; v_AITenantNamespace := "tenants"; v_GatewayNamespace := "ingress" |}.
Definition empty_cluster : Cluster := λ k, ∅.
Definition team_a : AITenant := {|
  meta := new_meta "tenants" "team-a";
  body := {| Spec := {| sp_Gateway := None; sp_OIDC := None; sp_Guardrails := [] |};
             Status := {| Phase := ""; TenantNamespace := ""; GatewayRef := {| gr_Namespace := ""; gr_Name := "" |};
                          Conditions := [] |} |} |}.
Definition one_tenant : Cluster := λ k,
  match k return gmap Key (Obj k) with KAITenant => {[key_of team_a := team_a]} | _ => ∅ end.

Lemma first_creation : write validator empty_cluster one_tenant.
Proof.
  apply (w_create _ _ _ team_a).
  - unfold accepted, AITenants.ValidateCreate. cbn. apply (ends_call _ _ _ _ (Ok []) empty_cluster); [|apply ends_ret].
    split; [done|]. exists []. split; [done|]. split; [constructor|]. intros o. split; [by intros ?%not_elem_of_nil|].
    intros [[key Hk] _]. unfold empty_cluster in Hk. by rewrite lookup_empty in Hk.
  - split; [apply lookup_singleton_eq|]. split.
    + intros key Hne. by apply lookup_singleton_ne.
    + intros k Hk. by destruct k.
Qed.

Lemma gateways_stay_exclusive_witness :
  write validator empty_cluster one_tenant ∧ exclusive validator one_tenant
  ∧ reads (AITenants.ValidateUpdate (Some validator) team_a team_a) one_tenant
      (λ r, r = Ok tt ↔ gateway_free validator one_tenant team_a).
Proof.
  split; [exact first_creation|].
  destruct (gateways_stay_exclusive validator eq_refl empty_cluster one_tenant) as [He Hv].
  - intros o1 o2 [k Hk]. unfold empty_cluster in Hk. discriminate (eq_trans (eq_sym Hk) (lookup_empty k)).
  - apply rtc_once. exact first_creation.
  - split; [exact He|]. apply (Hv team_a team_a).
Defined.

End AdmissionFacts.
